(* ===== verification/_CoqProject ===== *)
-Q . S2P
Prelude.v
CList.v
CListSpec.v
AvlTree.v
AvlSpec.v
AvlBalance.v
AvlOps.v
AvlTheorems.v
AvlProgram.v
RingBuffer.v
RingBufferConc.v
Md5.v
Checksum.v
Media.v
MediaSpec.v
Chunk.v
ChunkSpec.v
ChunkTheorems.v
Records.v
RecordsSpec.v
RecordsLog.v
RecordsOps.v
RecordsTheorems.v
RecordsLife.v
Dm.v
DmSpec.v
DmCalls.v
DmSystem.v
DmTheorems.v
DmDatabase.v
RtosList.v
RtosListSpec.v
RtosListTheorems.v
RtosKernel.v
RtosKernelSpec.v
RtosTime.v
RtosSched.v
RtosBoot.v
RtosKernelTheorems.v
RtosSafety.v
RtosServices.v
RtosQueue.v
RtosQueueKernel.v
RtosQueueData.v
RtosQueueSystem.v
RtosQueueInv.v
RtosQueueSteps.v
RtosQueueMoves.v
RtosQueueWake.v
RtosQueueSections.v
RtosQueueEnv.v
RtosQueueIsr.v
RtosQueueBegin.v
RtosQueueLaunch.v
RtosQueueTheorems.v
Frame.v
FrameSpec.v
FrameTheorems.v
Base64.v
Base64Spec.v
TimerManager.v
TimerSpec.v
DutyCycle.v
StageFsm.v
StageSpec.v
Equipment.v
EquipmentSpec.v
Heating.v
Compressor.v
Itc.v
ItcSpec.v
ItcInv.v
ItcSteps.v
ItcMsgs.v
ItcTheorems.v
ItcLive.v
ItcProps.v
Thermostat.v
PiBounds.v
ThermostatSpec.v
