(* ===== verification/Prelude.v ===== *)
(** * Patterns in the Machine: a verification of the Colony core and of its kernel

    The repository holds the Colony C++ Libraries (src/Cpl), drivers
    (src/Driver), the thermostat application built on them (src/Storm), and the
    FreeRTOS kernel that the thermostat runs on (src/Bsp/.../FreeRTOS/Source).
    This library models the parts that carry state and algorithms, as they are
    written, and proves what their clients rely on.

    ** How programs are modelled

    C and C++ code is a computation in the state monad [ST] of this file:
    [None] is a failed assertion, a bad dereference, a write outside an array or
    exhausted fuel, so that a weakest precondition [wp] shows that none of these
    happens and that loops end.  Loops are structural where the source walks
    data, and have fuel otherwise; the fuel a model passes is shown to be enough
    by every theorem about it, since these are total.  Machine integers are [Z]
    with [wrap].  Virtual methods and templates are type classes, whose laws are
    what one component promises to another.

    ** Files and sources

    - Prelude: integers, the monad and its rules, lists and memory slices.
    - CList, CListSpec: Cpl/Container citem.c, cslist.c, cdlist.c, on a heap of
      items; refinement to sequences (clist_refines, clist_program_refines).
    - AvlTree: Cpl/Container AvlTree_.cpp, MapItem.h, Item.cpp and the keys of
      Key.h, on a heap of items.  AvlSpec: the heap as a tree.  AvlBalance: the
      rotations.  AvlOps, AvlTheorems: insertion and removal.  AvlProgram: any
      program of operations (avl_program_refines).
    - RingBuffer, RingBufferConc: Cpl/Container/RingBuffer.h; a bounded queue
      (ringbuffer_refines), and one producer and one consumer as interleaved
      memory accesses (spsc_single_store_safe, spsc_two_store_race).
    - Md5, Checksum: Cpl/Checksum; MD5 in pieces against RFC 1321
      (md5_incremental), the table driven CRCs against polynomial division,
      and frames with their checksum.
    - Media, MediaSpec: the EEPROM driver Driver/NV/Onsemi/CAT24C512, ganged
      memories Driver/NV/Gang.cpp, and regions Cpl/Persistent/NVAdapter.cpp;
      each is a flat memory to its client, through the classes [NvApi] and
      [RegionMedia].
    - Chunk, ChunkSpec, ChunkTheorems: Cpl/Persistent CrcChunk.cpp and
      MirroredChunk.cpp on any region that keeps the promise; round trips,
      rejection of corrupt data, recovery after a torn update.
    - Records: Cpl/Persistent DataRecord.cpp, IndexRecord.cpp and
      IndexedEntryRecord.cpp over the class [Chunk].  RecordsSpec: what a chunk
      promises to them, which CrcChunk keeps.  RecordsLog: the entries as a log,
      and where it lies in the media.  RecordsOps, RecordsTheorems: each method.
      RecordsLife: programs, and restarts after a power failure at any point
      (indexed_entries_are_a_log, power_failure_keeps_the_log).
    - Dm: the data model, Cpl/Dm ModelPointCommon_.cpp, Subscriber.cpp,
      EventLoop.cpp and the counters of Cpl/Dm/Mp.  DmSpec: what each method
      does.  DmCalls: the calls of clients and what they change.  DmSystem: the
      steps of any number of event loops between those of clients, and the
      invariant.  DmTheorems: delivery of changes.  DmDatabase:
      Cpl/Dm/ModelDatabase.cpp, its list, its traversal and its lock.
    - RtosList, RtosListSpec, RtosListTheorems: FreeRTOS list.c and list.h with
      all pointers; refinement to sequences with a cursor.
    - RtosKernel: tasks.c of FreeRTOS in the configuration of the thermostat,
      with each list an abstract list of the refinement above.  RtosKernelSpec:
      the invariant of the lists.  RtosTime: the clock, over the wrap of the
      tick counter.  RtosSched: pended ticks and the choice of the next task.
      RtosBoot: creation and start.  RtosKernelTheorems: scheduling, delays and
      suspension.  RtosSafety, RtosServices: time-outs, priority inheritance,
      and the invariant of all services (kernel_stays_consistent).
    - RtosQueue: queue.c of FreeRTOS, the calls that may block as steps between
      which interrupts and other tasks run.  RtosQueueKernel: what it relies on
      from the kernel.  RtosQueueData: the storage area as a ring of items.
      RtosQueueSystem: tasks, interrupts and context switches, the contract of
      the calls, and the abstract queues and mutexes.  RtosQueueInv: the
      invariant.  RtosQueueSteps, RtosQueueMoves, RtosQueueWake,
      RtosQueueSections, RtosQueueEnv, RtosQueueIsr,
      RtosQueueBegin: every step keeps it.  RtosQueueLaunch: the start of a
      system.  RtosQueueTheorems: bounded queues and exclusion, no lost
      wake-ups, the count of mutexes (queues_refine_bounded_queues,
      no_lost_wakeups, mutexes_and_priorities), and what goes wrong outside of
      the contract.
    - Itc: Cpl/Itc mailboxes, messages and return handlers, with the event loop
      of Cpl/System/EventLoop.cpp and the semaphore of a thread, as steps of
      threads between which others and interrupts run.  ItcSpec: the protocol of
      a message.  ItcInv: the invariant; ItcSteps, ItcMsgs: every step keeps it.
      ItcTheorems, ItcLive, ItcProps: queues and round trips, wake-ups, chains
      of synchronous calls (mailboxes_keep_the_protocol, mailbox_wakeups_kept,
      waiting_threads_are_served).
    - Frame, FrameSpec, FrameTheorems: Cpl/Text/Frame encoders and decoders; the
      round trip, and the decoder against an automaton on bytes.
    - Base64, Base64Spec: Cpl/Text/Encoding/Base64.cpp against RFC 4648.
    - TimerManager, TimerSpec: Cpl/System Timer.cpp and TimerManager.cpp; the
      list of relative counts against absolute due times.
    - DutyCycle: Storm/Utils/DutyCycle.cpp in binary32, Cpl/System/ElapsedTime.cpp
      and the comparison of floats of Cpl/Math/real.h.  StageFsm: the state
      machine of a stage of the equipment with its queue of events and its
      actions (Storm/Component/Equipment/Stage); StageSpec: what each operation
      of a stage does, by symbolic execution.  Equipment: Cooling, IndoorHeating,
      Off, Control and HvacRelayOutputs (Storm/Component); EquipmentSpec: the
      control logic of the heater on its ladder of stages.  Heating: the heater
      over any number of intervals.  Compressor: the compressor over any number
      of intervals, and its minimum time off.
    - Thermostat: what runs in front of the control logic (Storm/Component): the
      base of all components, the choice of the sensor, the operating mode, the
      PI controller, the fan and the air filter.  PiBounds: the PI controller in
      binary32 stays in its bounds (pi_stays_in_bounds).  ThermostatSpec: the
      intervals of a component, over the wrap of the clock
      (component_runs_once_per_interval); the forced-off count, the mode and the
      system configuration, which is one that Heating assumes
      (mode_follows_inputs).

    ** Bounds and parameters

    Buffers, sizes, numbers of items and contents are arbitrary.  size_t and
    unsigned long have a width that is a parameter where it matters (Base64,
    TimerManager); the tick counter of the kernel has 32 bits, and its number of
    overflows, which no system reaches, is unbounded.  The configuration of the
    kernel is that of FreeRTOSConfig.h (five priorities, preemption, time
    slicing, no software timers).  The event queue of a stage is processed with
    fuel for twelve events and four nested calls, the thermostat runs in one
    configuration and one operating mode: a change of either while a stage
    cycles reads through a stale pointer (Heating.ModeChange).  What lies outside
    of the repository or below the models is a parameter: the I2C bus and the
    EEPROM it reaches, input and output streams, what the context of a timer
    does when it expires.

    ** Not modelled

    Input and output of the host, sockets, files, hardware registers, JSON and
    other third-party code; text formatting and conversion, which the C library
    does; the house simulator; threads other than through the kernel, the event
    loops of the data model and those of the mailboxes.  The templates SList and
    DList repeat the C lists; the hash table hashes with a function of its
    client.  The record server and Cpl/MApp post messages and forward to the
    parts that are modelled.  The wiring of the thermostat and its user
    interface connect the modelled components. *)

From Stdlib Require Import ZArith Lia.
From stdpp Require Export base gmap list option strings.

#[global] Set Default Goal Selector "!".

(** ** Machine integers

    A [w]-bit unsigned value is a [Z] in [0, 2^w).  C's unsigned arithmetic is
    arithmetic modulo [2^w]: [wrap w] is the truncation the compiler inserts. *)

Declare Scope pim_scope.
Delimit Scope pim_scope with pim.

Definition wrap (w z : Z) : Z := z mod 2 ^ w.

Abbreviation u8 := (wrap 8).
Abbreviation u16 := (wrap 16).
Abbreviation u32 := (wrap 32).
Abbreviation u64 := (wrap 64).

Definition in_range (w z : Z) : Prop := (0 <= z < 2 ^ w)%Z.

#[global] Instance in_range_dec w z : Decision (in_range w z).
Proof. unfold in_range. apply _. Defined.

(** ** A state monad with undefined behaviour

    [ST S A] is a computation over a state [S].  [None] stands for what C leaves
    undefined or aborts on: a failed [assert], a dereference of a pointer that
    does not point to an object of the model. *)

Definition ST (S A : Type) : Type := S → option (A * S).

Section monad.
Context {S : Type}.

Definition ret {A} (a : A) : ST S A := λ s, Some (a, s).

Definition bind {A B} (m : ST S A) (k : A → ST S B) : ST S B :=
  λ s, match m s with Some (a, s') => k a s' | None => None end.

Definition undefined {A} : ST S A := λ _, None.

Definition get_st : ST S S := λ s, Some (s, s).

Definition put_st (s : S) : ST S unit := λ _, Some (tt, s).

Definition gets {A} (f : S → A) : ST S A := λ s, Some (f s, s).

Definition modify (f : S → S) : ST S unit := λ s, Some (tt, f s).

(** [assert( b )]. *)
Definition assert_ (b : bool) : ST S unit := if b then ret tt else undefined.

Definition lift_opt {A} (o : option A) : ST S A :=
  match o with Some a => ret a | None => undefined end.

(** Total-correctness weakest precondition: [m] is defined from [s] and its
    result satisfies [Q]. *)
Definition wp {A} (m : ST S A) (Q : A → S → Prop) (s : S) : Prop :=
  match m s with Some (a, s') => Q a s' | None => False end.
End monad.

Notation "x ← m ; k" := (bind m (λ x, k))
  (at level 20, m at level 100, k at level 200, only parsing) : pim_scope.
Notation "' p ← m ; k" := (bind m (λ x, match x with p => k end))
  (at level 20, p pattern, m at level 100, k at level 200, only parsing) : pim_scope.
Notation "m ;; k" := (bind m (λ _, k))
  (at level 100, k at level 200, right associativity) : pim_scope.

Section wp_lemmas.
Context {S : Type}.
Implicit Types s : S.

Lemma wp_ret {A} (a : A) Q s : Q a s → wp (ret a) Q s.
Proof. done. Qed.

Lemma wp_bind {A B} (m : ST S A) (k : A → ST S B) Q s :
  wp m (λ a s', wp (k a) Q s') s → wp (bind m k) Q s.
Proof. unfold wp, bind. by destruct (m s) as [[a s']|]. Qed.

Lemma wp_gets {A} (f : S → A) Q s : Q (f s) s → wp (gets f) Q s.
Proof. done. Qed.

Lemma wp_modify (f : S → S) Q s : Q tt (f s) → wp (modify f) Q s.
Proof. done. Qed.

Lemma wp_assert (b : bool) (Q : unit → S → Prop) s : b = true → Q tt s → wp (assert_ b) Q s.
Proof. by intros ->. Qed.

Lemma wp_lift_opt {A} (o : option A) a (Q : A → S → Prop) s :
  o = Some a → Q a s → wp (lift_opt o) Q s.
Proof. by intros ->. Qed.

Lemma wp_mono {A} (m : ST S A) (P Q : A → S → Prop) s :
  wp m P s → (∀ a s', P a s' → Q a s') → wp m Q s.
Proof. unfold wp. destruct (m s) as [[a s']|]; naive_solver. Qed.

Lemma wp_run {A} (m : ST S A) Q s :
  wp m Q s ↔ ∃ a s', m s = Some (a, s') ∧ Q a s'.
Proof.
  unfold wp. destruct (m s) as [[a s']|]; split; [naive_solver..|done|naive_solver].
Qed.

Lemma wp_unbind {A B} (m : ST S A) (k : A → ST S B) Q s :
  wp (bind m k) Q s → wp m (λ a s', wp (k a) Q s') s.
Proof. unfold wp, bind. by destruct (m s) as [[a s']|]. Qed.

Lemma wp_bind_assoc {A B C} (m : ST S A) (k : A → ST S B) (k' : B → ST S C) Q s :
  wp (bind m (λ a, bind (k a) k')) Q s → wp (bind (bind m k) k') Q s.
Proof. unfold wp, bind. by destruct (m s) as [[a s']|]. Qed.

Lemma wp_seq_ret (m : ST S unit) Q s : wp (bind m (λ _, ret tt)) Q s → wp m Q s.
Proof. unfold wp, bind, ret. by destruct (m s) as [[[] s']|]. Qed.

Lemma wp_exact {A} (m : ST S A) a s' (Q : A → S → Prop) s : m s = Some (a, s') → Q a s' → wp m Q s.
Proof. unfold wp. by intros ->. Qed.
End wp_lemmas.

(** The steps of a straight-line program. *)
Create HintDb pim.
#[export] Hint Resolve wp_ret wp_gets wp_modify : pim.

(** Runs reads, writes and returns up to the first step that needs an argument. *)
Ltac wp_pure := repeat first [apply wp_bind | apply wp_gets | apply wp_modify | apply wp_ret].

(** ** Comparisons *)

Lemma gtb_false (a b : Z) : (a <= b)%Z → (a >? b)%Z = false.
Proof. rewrite Z.gtb_ltb. apply Z.ltb_ge. Qed.

Lemma gtb_true (a b : Z) : (b < a)%Z → (a >? b)%Z = true.
Proof. rewrite Z.gtb_ltb. apply Z.ltb_lt. Qed.

(** ** Tactics *)

(** Run one statement of a monadic program inside a [wp] goal. *)
Ltac wp_step :=
  lazymatch goal with
  | |- wp (bind _ _) _ _ => apply wp_bind
  | |- wp (ret _) _ _ => apply wp_ret
  | |- wp (gets _) _ _ => apply wp_gets
  | |- wp (modify _) _ _ => apply wp_modify
  | |- wp (assert_ _) _ _ => eapply wp_assert; [done|]
  | |- wp (lift_opt _) _ _ => eapply wp_lift_opt; [eassumption|]
  end.

Ltac wp_steps := repeat (wp_step; simpl).

(** ** Generic list lemmas *)

Section lists.
Context {A : Type}.
Implicit Types (x d : A) (xs ys : list A).

Lemma hd_app d xs ys : hd d (xs ++ ys) = hd (hd d ys) xs.
Proof. by destruct xs. Qed.

Lemma default_last_app d xs ys :
  default d (last (xs ++ ys)) = default (default d (last xs)) (last ys).
Proof. rewrite last_app. by destruct (last ys). Qed.

Lemma default_last_cons d x xs :
  default d (last (x :: xs)) = default x (last xs).
Proof. rewrite last_cons. by destruct (last xs). Qed.

Lemma NoDup_snoc xs x : NoDup (xs ++ [x]) ↔ x ∉ xs ∧ NoDup xs.
Proof. rewrite NoDup_app. pose proof (NoDup_singleton x). set_solver. Qed.

Lemma NoDup_middle xs x ys :
  NoDup (xs ++ x :: ys) ↔ x ∉ xs ∧ x ∉ ys ∧ NoDup (xs ++ ys).
Proof.
  rewrite !NoDup_app, NoDup_cons. set_solver.
Qed.
End lists.

(** ** Overwriting a run of a list

    [splice off bs l] is the memory [l] after the bytes [bs] were copied to
    offset [off]; [slice off n l] are the [n] elements at [off]. *)

Definition splice {A} (off : nat) (bs l : list A) : list A :=
  take off l ++ bs ++ drop (off + length bs) l.

Definition slice {A} (off n : nat) (l : list A) : list A := take n (drop off l).

Section splice.
Context {A : Type}.
Implicit Types (bs cs l k : list A) (off n m : nat).

Lemma splice_nil off l : splice off [] l = l.
Proof. unfold splice. simpl. rewrite Nat.add_0_r. apply take_drop. Qed.

Lemma length_splice off bs l : off + length bs <= length l → length (splice off bs l) = length l.
Proof. intros. unfold splice. rewrite !length_app, length_take, length_drop. lia. Qed.

Lemma length_slice off n l : off + n <= length l → length (slice off n l) = n.
Proof. intros. unfold slice. rewrite length_take, length_drop. lia. Qed.

Lemma lookup_splice off bs l i :
  off + length bs <= length l →
  splice off bs l !! i =
    if decide (off <= i < off + length bs) then bs !! (i - off) else l !! i.
Proof.
  intros Hle. unfold splice. case_decide as Hi.
  - rewrite lookup_app_r by (rewrite length_take; lia). rewrite length_take, Nat.min_l by lia.
    by rewrite lookup_app_l by lia.
  - destruct (decide (i < off)).
    + rewrite lookup_app_l by (rewrite length_take; lia). by rewrite lookup_take_lt by lia.
    + rewrite lookup_app_r by (rewrite length_take; lia). rewrite length_take, Nat.min_l by lia.
      rewrite lookup_app_r by lia. rewrite lookup_drop. f_equal. lia.
Qed.

Lemma lookup_slice off n l i :
  slice off n l !! i = if decide (i < n) then l !! (off + i) else None.
Proof.
  unfold slice. case_decide.
  - by rewrite lookup_take_lt, lookup_drop by done.
  - by rewrite lookup_take_ge by lia.
Qed.

Lemma slice_splice_same off bs l :
  off + length bs <= length l → slice off (length bs) (splice off bs l) = bs.
Proof.
  intros. apply list_eq. intros i. rewrite lookup_slice. case_decide.
  - rewrite lookup_splice by done. rewrite decide_True by lia. f_equal. lia.
  - by rewrite lookup_ge_None_2 by lia.
Qed.

Lemma slice_splice_other off bs l o n :
  off + length bs <= length l → o + n <= off ∨ off + length bs <= o →
  slice o n (splice off bs l) = slice o n l.
Proof.
  intros Hle Hd. apply list_eq. intros i. rewrite !lookup_slice. case_decide; [|done].
  rewrite lookup_splice by done. by rewrite decide_False by lia.
Qed.

(** A store split in two. *)
Lemma splice_splice_app off bs cs l :
  off + length bs + length cs <= length l →
  splice (off + length bs) cs (splice off bs l) = splice off (bs ++ cs) l.
Proof.
  intros. apply list_eq. intros i.
  rewrite !lookup_splice by (rewrite ?length_splice, ?length_app; lia). rewrite length_app.
  repeat case_decide; try lia; try done.
  - rewrite lookup_app_r by lia. f_equal. lia.
  - by rewrite lookup_app_l by lia.
Qed.

Lemma slice_app off n m l :
  slice off (n + m) l = slice off n l ++ slice (off + n) m l.
Proof. unfold slice. by rewrite <-take_take_drop, drop_drop. Qed.

(** Stores and reads in a memory made of two adjacent parts. *)
Lemma splice_app_l off bs l k :
  off + length bs <= length l → splice off bs (l ++ k) = splice off bs l ++ k.
Proof.
  intros. unfold splice. rewrite take_app_le, drop_app_le by lia. by rewrite <-!app_assoc.
Qed.

Lemma splice_app_r off bs l k :
  length l <= off → splice off bs (l ++ k) = l ++ splice (off - length l) bs k.
Proof.
  intros. unfold splice. rewrite take_app_ge, drop_app_ge by lia.
  rewrite <-!app_assoc. do 4 f_equal. lia.
Qed.

Lemma splice_app_straddle off bs l k :
  off <= length l → length l <= off + length bs →
  splice off bs (l ++ k)
  = splice off (take (length l - off) bs) l ++ splice 0 (drop (length l - off) bs) k.
Proof.
  intros. unfold splice. rewrite take_app_le, drop_app_ge by lia.
  rewrite length_take, length_drop, Nat.min_l by lia.
  rewrite (drop_ge l) by lia. simpl. rewrite app_nil_r, <-!app_assoc. f_equal.
  rewrite app_assoc, take_drop. f_equal. f_equal. lia.
Qed.

Lemma slice_app_l off n l k : off + n <= length l → slice off n (l ++ k) = slice off n l.
Proof. intros. unfold slice. by rewrite drop_app_le, take_app_le by (rewrite ?length_drop; lia). Qed.

Lemma slice_app_r off n l k :
  length l <= off → slice off n (l ++ k) = slice (off - length l) n k.
Proof. intros. unfold slice. by rewrite drop_app_ge by lia. Qed.

Lemma slice_app_straddle off n l k :
  off <= length l → length l <= off + n →
  slice off n (l ++ k) = slice off (length l - off) l ++ slice 0 (n - (length l - off)) k.
Proof.
  intros. unfold slice. rewrite drop_app_le by lia.
  rewrite take_app_ge by (rewrite length_drop; lia). rewrite length_drop.
  rewrite (take_ge (drop off l)) by (rewrite length_drop; lia). done.
Qed.

Lemma take_splice_0 n bs l : n <= length bs → take n (splice 0 bs l) = take n bs.
Proof. intros. unfold splice. by rewrite take_0, app_nil_l, take_app_le by lia. Qed.

Lemma Forall_splice (P : A → Prop) off bs l :
  Forall P l → Forall P bs → Forall P (splice off bs l).
Proof. intros. unfold splice. repeat apply Forall_app_2; [by apply Forall_take|done|by apply Forall_drop]. Qed.

Lemma Forall_slice (P : A → Prop) off n l : Forall P l → Forall P (slice off n l).
Proof. intros. by apply Forall_take, Forall_drop. Qed.
End splice.

(** ** Little-endian representation of unsigned integers *)

Fixpoint le_bytes (n : nat) (z : Z) : list Z :=
  match n with
  | O => []
  | S n => (z mod 256)%Z :: le_bytes n (z / 256)%Z
  end.

Fixpoint of_le (bs : list Z) : Z :=
  match bs with [] => 0%Z | b :: bs => (b + 256 * of_le bs)%Z end.

Lemma length_le_bytes n z : length (le_bytes n z) = n.
Proof. revert z. induction n as [|n IH]; intros z; simpl; [done|]. by rewrite IH. Qed.

Lemma of_le_le_bytes n z : of_le (le_bytes n z) = wrap (8 * Z.of_nat n) z.
Proof.
  unfold wrap. revert z. induction n as [|n IH]; intros z; cbn [le_bytes of_le].
  - by rewrite Z.mod_1_r.
  - rewrite IH. replace (8 * Z.of_nat (S n))%Z with (8 + 8 * Z.of_nat n)%Z by lia.
    rewrite Z.pow_add_r by lia. change (2 ^ 8)%Z with 256%Z.
    rewrite Z.rem_mul_r by lia. done.
Qed.

Lemma le_bytes_range n z : Forall (λ b, 0 <= b < 256)%Z (le_bytes n z).
Proof.
  revert z. induction n as [|n IH]; intros z; simpl; constructor; [|done].
  apply Z.mod_pos_bound. lia.
Qed.

Lemma le_bytes_of_le bs : Forall (λ b, 0 <= b < 256)%Z bs → le_bytes (length bs) (of_le bs) = bs.
Proof.
  induction 1 as [|b bs Hb _ IH]; [done|]. cbn [length le_bytes of_le].
  rewrite <-(Z.div_unique_pos (b + 256 * of_le bs) 256 (of_le bs) b) by lia.
  rewrite <-(Z.mod_unique_pos (b + 256 * of_le bs) 256 (of_le bs) b) by lia. by rewrite IH.
Qed.
