(* ===== verification/CList.v ===== *)
(** * Intrusive containers: the C lists

    Models src/src/Cpl/Container/citem.c, cslist.c and cdlist.c: the linkage an
    item carries, the container marker that keeps an item in at most one list,
    and the singly and doubly linked lists built on it.  Pointers are addresses
    in a heap of items and list heads; NULL is address 0. *)

From Stdlib Require Import ZArith Lia.
From S2P Require Import Prelude.
Local Open Scope Z_scope.
Local Open Scope pim_scope.

Abbreviation ptr := Z (only parsing).
Definition NULL : ptr := 0.

(** CplContainerItemDListLinkage_T.  A singly linked item has the first two
    fields only; the list functions for it never touch [prevPtr]. *)
Record linkage := Linkage {
  containerPtr : ptr;
  nextPtr : ptr;
  prevPtr : ptr
}.

(** CplContainerSList_T and CplContainerDList_T: the two list heads have the
    same fields. *)
Record clist := CListHead {
  headPtr : ptr;
  tailPtr : ptr
}.

Record heap := Heap {
  items : gmap ptr linkage;
  lists : gmap ptr clist
}.

#[global] Instance linkage_eq_dec : EqDecision linkage.
Proof. solve_decision. Defined.
#[global] Instance clist_eq_dec : EqDecision clist.
Proof. solve_decision. Defined.

Definition on_items (f : gmap ptr linkage → gmap ptr linkage) (h : heap) : heap :=
  Heap (f (items h)) (lists h).
Definition on_lists (f : gmap ptr clist → gmap ptr clist) (h : heap) : heap :=
  Heap (items h) (f (lists h)).

Abbreviation M := (ST heap).

(** Loads and stores through a pointer; undefined when the pointer does not
    point to an object. *)
Definition load_item (p : ptr) : M linkage := h ← get_st; lift_opt (items h !! p).
Definition load_list (p : ptr) : M clist := h ← get_st; lift_opt (lists h !! p).

Definition store_item (p : ptr) (f : linkage → linkage) : M unit :=
  it ← load_item p; modify (on_items (<[p := f it]>)).
Definition store_list (p : ptr) (f : clist → clist) : M unit :=
  l ← load_list p; modify (on_lists (<[p := f l]>)).

Definition with_containerPtr (c : ptr) (i : linkage) := Linkage c (nextPtr i) (prevPtr i).
Definition with_nextPtr (n : ptr) (i : linkage) := Linkage (containerPtr i) n (prevPtr i).
Definition with_prevPtr (p : ptr) (i : linkage) := Linkage (containerPtr i) (nextPtr i) p.
Definition with_headPtr (p : ptr) (l : clist) := CListHead p (tailPtr l).
Definition with_tailPtr (p : ptr) (l : clist) := CListHead (headPtr l) p.

Definition is_ptr (p : ptr) : bool := negb (p =? NULL).

(** ** citem.c *)

Definition Cpl_Container_Item_initialize (uninitializeItem : ptr) : M unit :=
  assert_ (is_ptr uninitializeItem);;
  store_item uninitializeItem (with_containerPtr NULL).

Definition Cpl_Container_Item_markAsContained_ (item newContainerPtr : ptr) : M bool :=
  assert_ (is_ptr item);;
  assert_ (is_ptr newContainerPtr);;
  i ← load_item item;
  if is_ptr (containerPtr i) then ret false
  else store_item item (with_containerPtr newContainerPtr);; ret true.

Definition Cpl_Container_Item_isInContainer_ (item container : ptr) : M bool :=
  assert_ (is_ptr item);;
  assert_ (is_ptr container);;
  i ← load_item item;
  ret (containerPtr i =? container).

Definition Cpl_Container_Item_markAsFree_ (item : ptr) : M unit :=
  if is_ptr item then store_item item (with_containerPtr NULL) else ret tt.

(** ** cslist.c *)

Definition Cpl_Container_SList_initialize (listToInitialize : ptr) : M unit :=
  assert_ (is_ptr listToInitialize);;
  store_list listToInitialize (with_headPtr NULL);;
  store_list listToInitialize (with_tailPtr NULL).

Definition Cpl_Container_SList_get (list : ptr) : M ptr :=
  assert_ (is_ptr list);;
  l ← load_list list;
  let next := headPtr l in
  (if is_ptr next then
     n ← load_item next;
     store_list list (with_headPtr (nextPtr n));;
     if is_ptr (nextPtr n) then ret tt else store_list list (with_tailPtr NULL)
   else ret tt);;
  Cpl_Container_Item_markAsFree_ next;;
  ret next.

(** The [for] loop of Cpl_Container_SList_remove: [nxtPtr] walks the list with
    [prvPtr] one item behind. *)
Fixpoint SList_remove_loop (fuel : nat) (list itemPtr nxtPtr prvPtr : ptr) : M bool :=
  match fuel with
  | O => undefined
  | S fuel =>
    if is_ptr nxtPtr then
      n ← load_item nxtPtr;
      if nxtPtr =? itemPtr then
        (if is_ptr prvPtr then
           store_item prvPtr (with_nextPtr (nextPtr n));;
           if is_ptr (nextPtr n) then ret tt else store_list list (with_tailPtr prvPtr)
         else
           store_list list (with_headPtr (nextPtr n));;
           if is_ptr (nextPtr n) then ret tt else store_list list (with_tailPtr NULL));;
        Cpl_Container_Item_markAsFree_ itemPtr;;
        ret true
      else SList_remove_loop fuel list itemPtr (nextPtr n) nxtPtr
    else ret false
  end.

(** A chain of distinct items is no longer than the heap: the loops over a
    list get that many iterations plus one. *)
Definition loop_fuel (h : heap) : nat := S (size (items h)).
Arguments loop_fuel : simpl never.

Definition Cpl_Container_SList_remove (list itemToRemove : ptr) : M bool :=
  assert_ (is_ptr list);;
  assert_ (is_ptr itemToRemove);;
  inC ← Cpl_Container_Item_isInContainer_ itemToRemove list;
  if inC then
    l ← load_list list;
    fuel ← gets loop_fuel;
    SList_remove_loop fuel list itemToRemove (headPtr l) NULL
  else ret false.

Definition Cpl_Container_SList_getLast (list : ptr) : M ptr :=
  assert_ (is_ptr list);;
  l ← load_list list;
  let lastPtr := tailPtr l in
  (if is_ptr lastPtr then Cpl_Container_SList_remove list (tailPtr l);; ret tt else ret tt);;
  ret lastPtr.

Definition Cpl_Container_SList_put (list item : ptr) : M bool :=
  assert_ (is_ptr list);;
  assert_ (is_ptr item);;
  ok ← Cpl_Container_Item_markAsContained_ item list;
  if ok then
    l ← load_list list;
    (if is_ptr (headPtr l) then store_item (tailPtr l) (with_nextPtr item)
     else store_list list (with_headPtr item));;
    store_item item (with_nextPtr NULL);;
    store_list list (with_tailPtr item);;
    ret true
  else ret false.

Definition Cpl_Container_SList_putFirst (list item : ptr) : M bool :=
  assert_ (is_ptr list);;
  assert_ (is_ptr item);;
  ok ← Cpl_Container_Item_markAsContained_ item list;
  if ok then
    l ← load_list list;
    (if is_ptr (headPtr l) then
       store_item item (with_nextPtr (headPtr l));;
       store_list list (with_headPtr item)
     else
       store_list list (with_tailPtr item);;
       store_list list (with_headPtr item);;
       store_item item (with_nextPtr NULL));;
    ret true
  else ret false.

Definition Cpl_Container_SList_peekHead (list : ptr) : M ptr :=
  assert_ (is_ptr list);;
  l ← load_list list; ret (headPtr l).

Definition Cpl_Container_SList_peekTail (list : ptr) : M ptr :=
  assert_ (is_ptr list);;
  l ← load_list list; ret (tailPtr l).

Definition Cpl_Container_SList_next (item : ptr) : M ptr :=
  assert_ (is_ptr item);;
  i ← load_item item; ret (nextPtr i).

Definition Cpl_Container_SList_isInList (list item : ptr) : M bool :=
  Cpl_Container_Item_isInContainer_ item list.

(** [while ( get( listToClear ) ) ;] *)
Fixpoint clear_loop (get : ptr → M ptr) (fuel : nat) (list : ptr) : M unit :=
  match fuel with
  | O => undefined
  | S fuel =>
    p ← get list;
    if is_ptr p then clear_loop get fuel list else ret tt
  end.

Definition Cpl_Container_SList_clear (listToClear : ptr) : M unit :=
  assert_ (is_ptr listToClear);;
  fuel ← gets loop_fuel;
  clear_loop Cpl_Container_SList_get fuel listToClear.

(** [while ( (nextPtr = get( srcList )) ) put( dstList, nextPtr );] *)
Fixpoint move_loop (get : ptr → M ptr) (put : ptr → ptr → M bool)
    (fuel : nat) (dstList srcList : ptr) : M unit :=
  match fuel with
  | O => undefined
  | S fuel =>
    p ← get srcList;
    if is_ptr p then put dstList p;; move_loop get put fuel dstList srcList
    else ret tt
  end.

Definition Cpl_Container_SList_move (dstList srcList : ptr) : M unit :=
  assert_ (is_ptr dstList);;
  assert_ (is_ptr srcList);;
  Cpl_Container_SList_clear dstList;;
  fuel ← gets loop_fuel;
  move_loop Cpl_Container_SList_get Cpl_Container_SList_put fuel dstList srcList.

(** ** cdlist.c *)

Definition Cpl_Container_DList_initialize (listToInitialize : ptr) : M unit :=
  assert_ (is_ptr listToInitialize);;
  store_list listToInitialize (with_headPtr NULL);;
  store_list listToInitialize (with_tailPtr NULL).

Definition Cpl_Container_DList_remove (list itemToRemove : ptr) : M bool :=
  assert_ (is_ptr list);;
  assert_ (is_ptr itemToRemove);;
  inC ← Cpl_Container_Item_isInContainer_ itemToRemove list;
  if inC then
    i ← load_item itemToRemove;
    let prvPtr := prevPtr i in
    let nxtPtr := nextPtr i in
    (if is_ptr prvPtr then
       store_item prvPtr (with_nextPtr nxtPtr);;
       if is_ptr nxtPtr then store_item nxtPtr (with_prevPtr prvPtr)
       else store_list list (with_tailPtr prvPtr)
     else
       store_list list (with_headPtr nxtPtr);;
       if is_ptr nxtPtr then store_item nxtPtr (with_prevPtr NULL)
       else store_list list (with_tailPtr NULL));;
    Cpl_Container_Item_markAsFree_ itemToRemove;;
    ret true
  else ret false.

Definition Cpl_Container_DList_get (list : ptr) : M ptr :=
  assert_ (is_ptr list);;
  l ← load_list list;
  let firstPtr := headPtr l in
  (if is_ptr firstPtr then Cpl_Container_DList_remove list firstPtr;; ret tt else ret tt);;
  ret firstPtr.

Definition Cpl_Container_DList_put (list item : ptr) : M bool :=
  assert_ (is_ptr list);;
  assert_ (is_ptr item);;
  ok ← Cpl_Container_Item_markAsContained_ item list;
  if ok then
    l ← load_list list;
    (if is_ptr (headPtr l) then
       store_item (tailPtr l) (with_nextPtr item);;
       store_item item (with_prevPtr (tailPtr l))
     else
       store_list list (with_headPtr item);;
       store_item item (with_prevPtr NULL));;
    store_item item (with_nextPtr NULL);;
    store_list list (with_tailPtr item);;
    ret true
  else ret false.

Definition Cpl_Container_DList_getLast (list : ptr) : M ptr :=
  assert_ (is_ptr list);;
  l ← load_list list;
  let lastPtr := tailPtr l in
  (if is_ptr lastPtr then Cpl_Container_DList_remove list lastPtr;; ret tt else ret tt);;
  ret lastPtr.

Definition Cpl_Container_DList_putFirst (list item : ptr) : M bool :=
  assert_ (is_ptr list);;
  assert_ (is_ptr item);;
  ok ← Cpl_Container_Item_markAsContained_ item list;
  if ok then
    l ← load_list list;
    (if is_ptr (headPtr l) then
       store_item item (with_nextPtr (headPtr l));;
       store_item (headPtr l) (with_prevPtr item);;
       store_list list (with_headPtr item)
     else
       store_list list (with_tailPtr item);;
       store_list list (with_headPtr item);;
       store_item item (with_nextPtr NULL));;
    store_item item (with_prevPtr NULL);;
    ret true
  else ret false.

Definition Cpl_Container_DList_insertBefore (list beforeItem newItem : ptr) : M bool :=
  assert_ (is_ptr list);;
  assert_ (is_ptr newItem);;
  assert_ (is_ptr beforeItem);;
  ok ← Cpl_Container_Item_markAsContained_ newItem list;
  if ok then
    b ← load_item beforeItem;
    store_item newItem (with_prevPtr (prevPtr b));;
    n ← load_item newItem;
    let prvPtr := prevPtr n in
    store_item newItem (with_nextPtr beforeItem);;
    store_item beforeItem (with_prevPtr newItem);;
    (if is_ptr prvPtr then store_item prvPtr (with_nextPtr newItem)
     else store_list list (with_headPtr newItem));;
    ret true
  else ret false.

Definition Cpl_Container_DList_insertAfter (list afterItem newItem : ptr) : M bool :=
  assert_ (is_ptr list);;
  assert_ (is_ptr newItem);;
  assert_ (is_ptr afterItem);;
  ok ← Cpl_Container_Item_markAsContained_ newItem list;
  if ok then
    a ← load_item afterItem;
    store_item newItem (with_nextPtr (nextPtr a));;
    a' ← load_item afterItem;
    let nxtPtr := nextPtr a' in
    store_item newItem (with_prevPtr afterItem);;
    store_item afterItem (with_nextPtr newItem);;
    (if is_ptr nxtPtr then store_item nxtPtr (with_prevPtr newItem)
     else store_list list (with_tailPtr newItem));;
    ret true
  else ret false.

Definition Cpl_Container_DList_peekHead (list : ptr) : M ptr :=
  assert_ (is_ptr list);;
  l ← load_list list; ret (headPtr l).

Definition Cpl_Container_DList_peekTail (list : ptr) : M ptr :=
  assert_ (is_ptr list);;
  l ← load_list list; ret (tailPtr l).

Definition Cpl_Container_DList_next (item : ptr) : M ptr :=
  assert_ (is_ptr item);;
  i ← load_item item; ret (nextPtr i).

Definition Cpl_Container_DList_prev (item : ptr) : M ptr :=
  assert_ (is_ptr item);;
  i ← load_item item; ret (prevPtr i).

Definition Cpl_Container_DList_isInList (list item : ptr) : M bool :=
  assert_ (is_ptr list);;
  assert_ (is_ptr item);;
  Cpl_Container_Item_isInContainer_ item list.

Definition Cpl_Container_DList_clear (listToClear : ptr) : M unit :=
  assert_ (is_ptr listToClear);;
  fuel ← gets loop_fuel;
  clear_loop Cpl_Container_DList_get fuel listToClear.

Definition Cpl_Container_DList_move (dstList srcList : ptr) : M unit :=
  assert_ (is_ptr dstList);;
  assert_ (is_ptr srcList);;
  Cpl_Container_DList_clear dstList;;
  fuel ← gets loop_fuel;
  move_loop Cpl_Container_DList_get Cpl_Container_DList_put fuel dstList srcList.

(** ** Representation

    [seg l k pp xs qn m]: in the items [m], the addresses [xs] form a chain of
    items marked as contained in [l]; the item before the first is [pp], the
    one after the last is [qn].  [k] says whether the chain is doubly linked,
    that is whether [prevPtr] is maintained. *)
Definition node_ok (l : ptr) (k : bool) (pp x qn : ptr) (m : gmap ptr linkage) : Prop :=
  ∃ it, m !! x = Some it ∧ containerPtr it = l ∧ nextPtr it = qn ∧ (k = true → prevPtr it = pp).

Fixpoint seg (l : ptr) (k : bool) (pp : ptr) (xs : list ptr) (qn : ptr)
    (m : gmap ptr linkage) : Prop :=
  match xs with
  | [] => True
  | x :: r => node_ok l k pp x (hd qn r) m ∧ seg l k x r qn m
  end.

(** The address of the last item, NULL for an empty list. *)
Definition lastp (pp : ptr) (xs : list ptr) : ptr := default pp (last xs).

Record list_ok (k : bool) (h : heap) (l : ptr) (xs : list ptr) : Prop := {
  lo_head : lists h !! l = Some (CListHead (hd NULL xs) (lastp NULL xs));
  lo_nodup : NoDup xs;
  lo_seg : seg l k NULL xs NULL (items h)
}.

(** The abstract state: the contents of every initialised list. *)
Abbreviation abs := (gmap ptr (list ptr)).

(** [Rep k h a]: the heap [h] represents the lists [a]; [k] gives each list's
    kind (true: doubly linked).  No object lives at NULL, every list is well
    formed, and an item's marker names a list that holds it. *)
Record Rep (k : ptr → bool) (h : heap) (a : abs) : Prop := {
  rep_null_item : items h !! NULL = None;
  rep_null_list : lists h !! NULL = None;
  rep_lists : ∀ l xs, a !! l = Some xs → list_ok (k l) h l xs;
  rep_mark : ∀ x it, items h !! x = Some it → containerPtr it ≠ NULL →
    ∃ xs, a !! containerPtr it = Some xs ∧ x ∈ xs
}.

(** ** Segment lemmas *)

Lemma is_ptr_true p : p ≠ NULL → is_ptr p = true.
Proof. unfold is_ptr. intros. apply negb_true_iff. by apply Z.eqb_neq. Qed.

Lemma is_ptr_false p : p = NULL → is_ptr p = false.
Proof. by intros ->. Qed.

Lemma seg_app l k pp xs ys qn m :
  seg l k pp (xs ++ ys) qn m ↔ seg l k pp xs (hd qn ys) m ∧ seg l k (lastp pp xs) ys qn m.
Proof.
  revert pp. induction xs as [|x xs IH]; intros pp; simpl.
  - unfold lastp; simpl. tauto.
  - rewrite IH, hd_app. unfold lastp. rewrite default_last_cons. tauto.
Qed.

Lemma seg_frame l k pp xs qn m m' :
  (∀ x, x ∈ xs → m' !! x = m !! x) → seg l k pp xs qn m → seg l k pp xs qn m'.
Proof.
  revert pp. induction xs as [|x xs IH]; intros pp Hm; simpl; [done|].
  intros [(it & ? & ?) ?]. split.
  - exists it. rewrite Hm by set_solver. done.
  - apply IH; [set_solver|done].
Qed.

Lemma seg_insert l k pp xs qn m p it :
  p ∉ xs → seg l k pp xs qn m → seg l k pp xs qn (<[p:=it]> m).
Proof.
  intros Hp. apply seg_frame. intros x Hx. rewrite lookup_insert_ne; [done|set_solver].
Qed.

Lemma seg_lookup l k pp xs qn m x :
  seg l k pp xs qn m → x ∈ xs → ∃ it, m !! x = Some it ∧ containerPtr it = l.
Proof.
  revert pp. induction xs as [|y xs IH]; intros pp; simpl; [set_solver|].
  intros [(it & ? & ? & _) ?] [->|?]%elem_of_cons; eauto.
Qed.

Lemma seg_not_in l k pp xs qn m x :
  seg l k pp xs qn m → (∀ it, m !! x = Some it → containerPtr it ≠ l) → x ∉ xs.
Proof. intros Hs Hne Hx. destruct (seg_lookup _ _ _ _ _ _ _ Hs Hx) as (it & ? & ?). naive_solver. Qed.

Lemma seg_dom l k pp xs qn m : NoDup xs → seg l k pp xs qn m → (length xs ≤ size m)%nat.
Proof.
  intros Hnd Hs. rewrite <-(size_list_to_set (C:=gset ptr) xs) by done.
  rewrite <-size_dom. apply subseteq_size. intros x. rewrite elem_of_list_to_set, elem_of_dom.
  intros Hx. destruct (seg_lookup _ _ _ _ _ _ _ Hs Hx) as (it & ? & _). eauto.
Qed.

Lemma node_insert_eq l k pp x qn m it :
  containerPtr it = l → nextPtr it = qn → (k = true → prevPtr it = pp) →
  node_ok l k pp x qn (<[x:=it]> m).
Proof. exists it. by rewrite lookup_insert_eq. Qed.

Lemma node_insert_ne l k pp x qn m p it :
  p ≠ x → node_ok l k pp x qn m → node_ok l k pp x qn (<[p:=it]> m).
Proof. intros ? (i & ? & ?). exists i. by rewrite lookup_insert_ne. Qed.

(** A singly linked node does not depend on its predecessor. *)
Lemma node_single l pp pp' x qn m : node_ok l false pp x qn m → node_ok l false pp' x qn m.
Proof. intros (it & ? & ? & ? & _). by exists it. Qed.

Lemma seg_single l pp pp' xs qn m : seg l false pp xs qn m → seg l false pp' xs qn m.
Proof. destruct xs; simpl; [done|]. intros [? ?]. split; [by eapply node_single|done]. Qed.

(** ** Weakest preconditions of the memory accesses *)

Lemma wp_load_item p it Q h : items h !! p = Some it → Q it h → wp (load_item p) Q h.
Proof. intros Hp HQ. unfold wp, load_item, bind. simpl. by rewrite Hp. Qed.

Lemma wp_load_list p l Q h : lists h !! p = Some l → Q l h → wp (load_list p) Q h.
Proof. intros Hp HQ. unfold wp, load_list, bind. simpl. by rewrite Hp. Qed.

Lemma wp_store_item p f it Q h :
  items h !! p = Some it → Q tt (Heap (<[p:=f it]> (items h)) (lists h)) →
  wp (store_item p f) Q h.
Proof. intros Hp HQ. unfold wp, store_item, load_item, bind. simpl. by rewrite Hp. Qed.

Lemma wp_store_list p f l Q h :
  lists h !! p = Some l → Q tt (Heap (items h) (<[p:=f l]> (lists h))) →
  wp (store_list p f) Q h.
Proof. intros Hp HQ. unfold wp, store_list, load_list, bind. simpl. by rewrite Hp. Qed.

(** Resolve a lookup in a heap built by stores, using the inequalities in
    context. *)
Ltac lookup_heap :=
  simpl;
  repeat first [rewrite lookup_insert_eq | rewrite lookup_insert_ne by congruence];
  first [eassumption | reflexivity].

Ltac c_step :=
  lazymatch goal with
  | |- wp (bind _ _) _ _ => apply wp_bind
  | |- wp (ret _) _ _ => apply wp_ret
  | |- wp (gets _) _ _ => apply wp_gets
  | |- wp (assert_ _) _ _ => eapply wp_assert; [first [reflexivity | by apply is_ptr_true]|]
  | |- wp (load_item _) _ _ => eapply wp_load_item; [lookup_heap|]
  | |- wp (load_list _) _ _ => eapply wp_load_list; [lookup_heap|]
  | |- wp (store_item _ _) _ _ => eapply wp_store_item; [lookup_heap|]
  | |- wp (store_list _ _) _ _ => eapply wp_store_list; [lookup_heap|]
  | |- wp (if is_ptr _ then _ else _) _ _ =>
      first [rewrite is_ptr_true by done | rewrite is_ptr_false by done]
  end.

Ltac c_steps := repeat (c_step; simpl).

(** Membership side conditions: only membership facts matter. *)
Ltac mem_solve :=
  repeat match goal with
  | H : ?P |- _ =>
      lazymatch P with
      | _ ∈ _ => fail
      | _ ∉ _ => fail
      | _ ≠ _ => fail
      | _ => lazymatch type of P with Prop => clear H | _ => fail end
      end
  end;
  set_solver.

(** The items of a chain survive a store outside it. *)
Ltac seg_tac :=
  repeat match goal with
  | |- seg _ _ _ _ _ (<[_:=_]> _) => apply seg_insert; [mem_solve|]
  | |- node_ok _ _ _ ?x _ (<[?x:=_]> _) => apply node_insert_eq; simpl; try done
  | |- node_ok _ _ _ _ _ (<[_:=_]> _) => apply node_insert_ne; [mem_solve|]
  end; try eassumption.

(** ** Local steps and their effect on the whole heap

    [local_step]: an operation on list [l] turned its contents from [xs] into
    [xs'], touching no other list and no other item. *)
Definition free_item (h : heap) (x : ptr) : Prop :=
  ∃ it, items h !! x = Some it ∧ containerPtr it = NULL.

Lemma free_insert x it m ls :
  containerPtr it = NULL → free_item (Heap (<[x:=it]> m) ls) x.
Proof. exists it. simpl. by rewrite lookup_insert_eq. Qed.

Record local_step (k : bool) (h h' : heap) (l : ptr) (xs xs' : list ptr) : Prop := {
  ls_ok : list_ok k h' l xs';
  ls_items : ∀ y, y ∉ xs → y ∉ xs' → items h' !! y = items h !! y;
  ls_lists : ∀ l', l' ≠ l → lists h' !! l' = lists h !! l';
  ls_freed : ∀ y, y ∈ xs → y ∉ xs' → free_item h' y;
  ls_added : ∀ y, y ∈ xs' → y ∉ xs → free_item h y
}.

Section rep.
Context {k : ptr → bool} {h : heap} {a : abs} (HR : Rep k h a).

Lemma rep_list_ptr l xs : a !! l = Some xs → l ≠ NULL.
Proof.
  intros Hl ->. destruct (rep_lists _ _ _ HR _ _ Hl) as [Hh _ _].
  rewrite (rep_null_list _ _ _ HR) in Hh. done.
Qed.

Lemma rep_item_ptr x : is_Some (items h !! x) → x ≠ NULL.
Proof. intros [it Hx] ->. by rewrite (rep_null_item _ _ _ HR) in Hx. Qed.

(** The marker decides membership. *)
Lemma rep_contained l xs x it :
  a !! l = Some xs → items h !! x = Some it → x ∈ xs ↔ containerPtr it = l.
Proof.
  intros Hl Hx. split.
  - intros Hin. destruct (rep_lists _ _ _ HR _ _ Hl) as [_ _ Hs].
    destruct (seg_lookup _ _ _ _ _ _ _ Hs Hin) as (it' & ? & ?). congruence.
  - intros <-. pose proof (rep_list_ptr _ _ Hl) as Hne.
    destruct (rep_mark _ _ _ HR _ _ Hx Hne) as (xs' & ? & ?). congruence.
Qed.

(** An item in a list has a marker that is not NULL, and is in no other list. *)
Lemma rep_disjoint l l' xs xs' x :
  a !! l = Some xs → a !! l' = Some xs' → x ∈ xs → x ∈ xs' → l = l'.
Proof.
  intros Hl Hl' Hx Hx'. destruct (rep_lists _ _ _ HR _ _ Hl) as [_ _ Hs].
  destruct (seg_lookup _ _ _ _ _ _ _ Hs Hx) as (it & Hit & <-).
  by apply (rep_contained l' xs' x it).
Qed.

Lemma rep_free_not_in x l xs : free_item h x → a !! l = Some xs → x ∉ xs.
Proof.
  intros (it & Hit & Hc) Hl Hx. apply (rep_contained l xs x it) in Hx; [|done..].
  apply (rep_list_ptr l xs Hl). congruence.
Qed.

Lemma rep_in_list l xs x : a !! l = Some xs → x ∈ xs →
  x ≠ NULL ∧ ∃ it, items h !! x = Some it ∧ containerPtr it = l.
Proof.
  intros Hl Hx. destruct (rep_lists _ _ _ HR _ _ Hl) as [_ _ Hs].
  destruct (seg_lookup _ _ _ _ _ _ _ Hs Hx) as (it & Hit & Hc).
  split; [apply rep_item_ptr|]; eauto.
Qed.

Lemma rep_step l xs xs' h' :
  a !! l = Some xs → local_step (k l) h h' l xs xs' → Rep k h' (<[l:=xs']> a).
Proof.
  intros Hl [Hok Hit Hli Hfr Had]. pose proof (rep_list_ptr l xs Hl) as Hnl.
  assert (Hn : NULL ∉ xs). { intros Hx. by apply (rep_in_list l xs) in Hx as [? _]. }
  assert (Hn' : NULL ∉ xs').
  { intros Hx. destruct (Had _ Hx Hn) as (it & Hi & _).
    by rewrite (rep_null_item _ _ _ HR) in Hi. }
  split.
  - rewrite Hit by done. apply HR.
  - rewrite Hli by done. apply HR.
  - intros l' ys. destruct (decide (l' = l)) as [->|Hne]; simplify_map_eq; [naive_solver|].
    intros Hl'. destruct (rep_lists _ _ _ HR _ _ Hl') as [Hh Hnd Hs]. split; [|done|].
    + by rewrite Hli.
    + eapply seg_frame; [|done]. intros x Hx. apply Hit.
      * intros Hx'. apply Hne. by eapply rep_disjoint.
      * intros Hx'. destruct (decide (x ∈ xs)) as [Hxx|Hxx].
        { apply Hne. by eapply rep_disjoint. }
        by eapply rep_free_not_in in Hx; [|exact (Had _ Hx' Hxx)|done].
  - intros x it Hx Hc. destruct (decide (x ∈ xs')) as [Hin|Hin].
    { destruct Hok as [_ _ Hs]. destruct (seg_lookup _ _ _ _ _ _ _ Hs Hin) as (i & ? & ?).
      exists xs'. replace (containerPtr it) with l by congruence. by rewrite lookup_insert_eq. }
    destruct (decide (x ∈ xs)) as [Hinx|Hinx].
    { destruct (Hfr _ Hinx Hin) as (i & ? & ?). congruence. }
    rewrite Hit in Hx by done. destruct (rep_mark _ _ _ HR _ _ Hx Hc) as (ys & Hl' & Hy).
    exists ys. split; [|done]. rewrite lookup_insert_ne; [done|]. intros Heq. rewrite <-Heq in Hl'. naive_solver.
Qed.
End rep.

Lemma rep_same_dom k h h' a l xs xs' y :
  Rep k h a → a !! l = Some xs → local_step (k l) h h' l xs xs' →
  is_Some (items h' !! y) ↔ is_Some (items h !! y).
Proof.
  intros HR Hl [Hok Hit Hli Hfr Had].
  destruct (decide (y ∈ xs)) as [Hx|Hx]; destruct (decide (y ∈ xs')) as [Hx'|Hx'].
  - destruct (rep_lists _ _ _ HR _ _ Hl) as [_ _ Hs], Hok as [_ _ Hs'].
    destruct (seg_lookup _ _ _ _ _ _ _ Hs Hx) as (? & -> & _).
    by destruct (seg_lookup _ _ _ _ _ _ _ Hs' Hx') as (? & -> & _).
  - destruct (rep_lists _ _ _ HR _ _ Hl) as [_ _ Hs].
    destruct (seg_lookup _ _ _ _ _ _ _ Hs Hx) as (? & -> & _).
    by destruct (Hfr _ Hx Hx') as (? & -> & _).
  - destruct Hok as [_ _ Hs']. destruct (seg_lookup _ _ _ _ _ _ _ Hs' Hx') as (? & -> & _).
    by destruct (Had _ Hx' Hx) as (? & -> & _).
  - by rewrite Hit.
Qed.

(** ** The item marker *)

Lemma wp_isInContainer x l it Q h :
  x ≠ NULL → l ≠ NULL → items h !! x = Some it → Q (containerPtr it =? l) h →
  wp (Cpl_Container_Item_isInContainer_ x l) Q h.
Proof. intros. unfold Cpl_Container_Item_isInContainer_. by c_steps. Qed.

Lemma wp_markAsContained_free x l it Q h :
  x ≠ NULL → l ≠ NULL → items h !! x = Some it → containerPtr it = NULL →
  Q true (Heap (<[x:=with_containerPtr l it]> (items h)) (lists h)) →
  wp (Cpl_Container_Item_markAsContained_ x l) Q h.
Proof. intros. unfold Cpl_Container_Item_markAsContained_. c_steps. done. Qed.

Lemma wp_markAsContained_busy x l it Q h :
  x ≠ NULL → l ≠ NULL → items h !! x = Some it → containerPtr it ≠ NULL →
  Q false h → wp (Cpl_Container_Item_markAsContained_ x l) Q h.
Proof. intros. unfold Cpl_Container_Item_markAsContained_. by c_steps. Qed.

Lemma wp_markAsFree x it Q h :
  x ≠ NULL → items h !! x = Some it →
  Q tt (Heap (<[x:=with_containerPtr NULL it]> (items h)) (lists h)) →
  wp (Cpl_Container_Item_markAsFree_ x) Q h.
Proof. intros. unfold Cpl_Container_Item_markAsFree_. c_steps. done. Qed.

(** ** One operation on one list *)

Section local.
Context (k : bool) (h : heap) (l : ptr) (xs : list ptr).
Context (Hok : list_ok k h l xs) (Hl : l ≠ NULL).
Context (Hnull : items h !! NULL = None).

Lemma local_in_ptr x : x ∈ xs → x ≠ NULL.
Proof.
  intros Hx ->. destruct Hok as [_ _ Hs].
  destruct (seg_lookup _ _ _ _ _ _ _ Hs Hx) as (? & ? & _). congruence.
Qed.

Lemma local_free_not_in x : free_item h x → x ∉ xs.
Proof.
  intros (it & Hx & Hc). destruct Hok as [_ _ Hs].
  eapply seg_not_in; [done|]. intros. congruence.
Qed.

Lemma local_free_ptr x : free_item h x → x ≠ NULL.
Proof. intros (it & ? & _) ->. congruence. Qed.
End local.

(** The frame obligations of a [local_step] for a heap built by stores. *)
Ltac frame_tac :=
  match goal with
  | |- ∀ _, _ ∉ _ → _ ∉ _ → _ !! _ = _ !! _ =>
      intros ???; simpl; rewrite ?lookup_insert_ne by mem_solve; done
  | |- ∀ _, _ ≠ _ → _ !! _ = _ !! _ => intros ??; simpl; by simplify_map_eq
  | _ => idtac
  end.

Ltac split_step := split; [split|..]; frame_tac; simpl.

(** No item is freed, or added. *)
Ltac none_tac := intros; exfalso; mem_solve.

Lemma slist_put_local h l xs x :
  list_ok false h l xs → l ≠ NULL → items h !! NULL = None → free_item h x →
  wp (Cpl_Container_SList_put l x)
     (λ r h', r = true ∧ local_step false h h' l xs (xs ++ [x])) h.
Proof.
  intros Hok Hl Hnull Hfree.
  pose proof (local_free_not_in _ _ _ _ Hok Hl _ Hfree) as Hx.
  pose proof (local_free_ptr _ Hnull _ Hfree) as Hxn.
  pose proof Hfree as (it & Hit & Hc). destruct Hok as [Hhd Hnd Hs].
  assert (Hnd' : NoDup (xs ++ [x])) by by apply NoDup_snoc.
  unfold Cpl_Container_SList_put. c_steps. eapply wp_markAsContained_free; [done..|].
  destruct xs as [|t ys _] using rev_ind.
  - c_steps. split; [done|]. split_step.
    + by rewrite insert_insert_eq, lookup_insert_eq.
    + done.
    + split; [seg_tac|done].
    + none_tac.
    + intros y ->%list_elem_of_singleton _. done.
  - apply seg_app in Hs as [Hs1 [(tit & Htit & Htc & Htn & _) _]].
    assert (x ≠ t) by mem_solve.
    assert (lists h !! l = Some (CListHead (hd t ys) t)) as Hhd'.
    { rewrite Hhd, hd_app. unfold lastp. by rewrite last_snoc. }
    assert (hd t ys ≠ NULL).
    { destruct ys as [|y ys]; simpl.
      - intros ->. congruence.
      - intros ->. destruct Hs1 as [(? & ? & _) _]. congruence. }
    c_steps. split; [done|].
    apply NoDup_snoc in Hnd as [Ht Hnd].
    split_step.
    + rewrite lookup_insert_eq. unfold with_tailPtr; simpl.
      rewrite <-app_assoc, hd_app; simpl. unfold lastp. by rewrite !last_app.
    + done.
    + rewrite <-app_assoc. apply seg_app. simpl. split; [seg_tac|].
      split_and!; [seg_tac..|done].
    + none_tac.
    + intros y Hy ?. assert (y = x) as -> by mem_solve. done.
Qed.

Lemma slist_putFirst_local h l xs x :
  list_ok false h l xs → l ≠ NULL → items h !! NULL = None → free_item h x →
  wp (Cpl_Container_SList_putFirst l x)
     (λ r h', r = true ∧ local_step false h h' l xs (x :: xs)) h.
Proof.
  intros Hok Hl Hnull Hfree.
  pose proof (local_free_not_in _ _ _ _ Hok Hl _ Hfree) as Hx.
  pose proof (local_free_ptr _ Hnull _ Hfree) as Hxn.
  pose proof (local_in_ptr _ _ _ _ Hok Hnull) as Hin.
  pose proof Hfree as (it & Hit & Hc). destruct Hok as [Hhd Hnd Hs].
  assert (Hnd' : NoDup (x :: xs)) by by apply NoDup_cons.
  unfold Cpl_Container_SList_putFirst. c_steps. eapply wp_markAsContained_free; [done..|].
  destruct xs as [|t ys].
  - c_steps. split; [done|]. split_step; [by rewrite insert_insert_eq, lookup_insert_eq|done| | |].
    + split; [seg_tac|done].
    + none_tac.
    + intros y ->%list_elem_of_singleton _. done.
  - assert (t ≠ NULL) by (apply Hin; set_solver).
    c_steps. split; [done|].
    split_step; [rewrite lookup_insert_eq; unfold lastp; by rewrite !last_cons_cons|done| | |].
    + destruct Hs as [Hs1 Hs2]. split_and!; [seg_tac|eapply node_single with (pp := _); seg_tac|seg_tac].
    + none_tac.
    + intros y Hy ?. assert (y = x) as -> by mem_solve. done.
Qed.

Lemma slist_get_local h l xs :
  list_ok false h l xs → l ≠ NULL → items h !! NULL = None →
  wp (Cpl_Container_SList_get l)
     (λ r h', r = hd NULL xs ∧ local_step false h h' l xs (tail xs)) h.
Proof.
  intros Hok Hl Hnull.
  pose proof (local_in_ptr _ _ _ _ Hok Hnull) as Hin.
  destruct Hok as [Hhd Hnd Hs]. unfold Cpl_Container_SList_get.
  destruct xs as [|x xs].
  - c_steps. unfold Cpl_Container_Item_markAsFree_. c_steps.
    split; [done|]. split_step; done.
  - assert (x ≠ NULL) by (apply Hin; set_solver).
    destruct Hs as [(it & Hit & Hc & Hn & _) Hs]. apply NoDup_cons in Hnd as [Hx Hnd].
    simpl in Hn. destruct xs as [|y xs]; simpl in Hn.
    + c_steps. rewrite Hn. c_steps. eapply wp_markAsFree; [done|lookup_heap|]. c_steps.
      split; [done|]. split_step; [by rewrite insert_insert_eq, lookup_insert_eq|constructor|done| |set_solver].
      intros z ->%list_elem_of_singleton _. by apply free_insert.
    + assert (y ≠ NULL) by (apply Hin; set_solver).
      c_steps. rewrite Hn. c_steps. eapply wp_markAsFree; [done|lookup_heap|]. c_steps.
      split; [done|]. split_step; [by rewrite lookup_insert_eq|done| | |none_tac].
      * destruct Hs. split; [eapply node_single with (pp := _); seg_tac|seg_tac].
      * intros z Hz Hz'. assert (z = x) as -> by mem_solve. by apply free_insert.
Qed.

(** Taking [x] out of the middle of a chain. *)
Definition unlink (x : ptr) (xs : list ptr) : list ptr := filter (λ y, y ≠ x) xs.

Lemma unlink_notin x xs : x ∉ xs → unlink x xs = xs.
Proof.
  induction xs as [|y xs IH]; [done|]. rewrite not_elem_of_cons. intros [??]. unfold unlink.
  rewrite filter_cons_True by done. f_equal. by apply IH.
Qed.

Lemma unlink_middle (ys zs : list ptr) x :
  x ∉ ys → x ∉ zs → unlink x (ys ++ x :: zs) = ys ++ zs.
Proof.
  intros. unfold unlink. rewrite filter_app, filter_cons_False by naive_solver.
  by f_equal; apply unlink_notin.
Qed.

(** The state of the list after the links around [x] were closed. *)
Lemma local_lookup k h l ys x zs :
  list_ok k h l (ys ++ x :: zs) → items h !! NULL = None →
  ∃ it, items h !! x = Some it ∧ containerPtr it = l ∧ nextPtr it = hd NULL zs ∧
        (k = true → prevPtr it = lastp NULL ys) ∧ x ≠ NULL ∧
        (hd NULL zs = NULL ↔ zs = []) ∧ (lastp NULL ys = NULL ↔ ys = []).
Proof.
  intros Hok Hnull. pose proof (local_in_ptr _ _ _ _ Hok Hnull) as Hin.
  destruct Hok as [_ _ [_ [(it & ? & ? & ? & ?) _]]%seg_app].
  exists it. split_and!; try done.
  - apply Hin. set_solver.
  - destruct zs as [|z zs]; [done|]. simpl. split; [|done]. intros ->. destruct (Hin NULL); set_solver.
  - destruct ys as [|y ys _] using rev_ind; [done|]. unfold lastp. rewrite last_snoc. simpl.
    split; [|by destruct ys]. intros ->. destruct (Hin NULL); set_solver.
Qed.

Lemma slist_remove_at h l ys zs x fuel :
  list_ok false h l (ys ++ x :: zs) → l ≠ NULL → items h !! NULL = None →
  wp (SList_remove_loop (S fuel) l x x (lastp NULL ys))
     (λ r h', r = true ∧ local_step false h h' l (ys ++ x :: zs) (ys ++ zs)) h.
Proof.
  intros Hok Hl Hnull.
  destruct (local_lookup _ _ _ _ _ _ Hok Hnull) as (it & Hit & Hc & Hn & _ & Hx & Hz & Hy).
  pose proof (local_in_ptr _ _ _ _ Hok Hnull) as Hin.
  destruct Hok as [Hhd Hnd Hs]. apply NoDup_middle in Hnd as (Hxy & Hxz & Hnd).
  apply seg_app in Hs as [Hs1 [_ Hs2]]. simpl. c_steps. rewrite Z.eqb_refl, Hn.
  destruct ys as [|p ys _] using rev_ind; [clear Hy|].
  - destruct zs as [|n zs]; [clear Hz|].
    + c_steps. eapply wp_markAsFree; [done|lookup_heap|]. c_steps. split; [done|].
      split_step; [by rewrite insert_insert_eq, lookup_insert_eq|done|done| |none_tac].
      intros y ->%list_elem_of_singleton _. by apply free_insert.
    + assert (n ≠ NULL) by naive_solver.
      c_steps. eapply wp_markAsFree; [done|lookup_heap|]. c_steps. split; [done|].
      split_step; [by rewrite lookup_insert_eq|done| | |none_tac].
      * destruct Hs2. split; [eapply node_single|]; seg_tac.
      * intros y ? ?. assert (y = x) as -> by mem_solve. by apply free_insert.
  - apply seg_app in Hs1 as [Hs1 [(pit & Hp & Hpc & Hpn & _) _]].
    assert (lastp NULL (ys ++ [p]) = p) as Hlp by (unfold lastp; by rewrite last_snoc).
    rewrite Hlp in *. assert (p ≠ NULL) by naive_solver. assert (p ≠ x) by mem_solve.
    apply NoDup_app in Hnd as (Hnd1 & Hdis & Hnd2). apply NoDup_snoc in Hnd1 as [Hpy Hnd1].
    assert (p ∉ zs) by (apply Hdis; set_solver).
    destruct zs as [|n zs]; [clear Hz|].
    + c_steps. eapply wp_markAsFree; [done|lookup_heap|]. c_steps. split; [done|].
      split_step; [|by rewrite app_nil_r; apply NoDup_snoc| | |none_tac].
      * rewrite lookup_insert_eq, app_nil_r, Hlp. unfold with_tailPtr; simpl. by rewrite !hd_app.
      * rewrite app_nil_r. apply seg_app. split; [seg_tac|]. split; [|done]. seg_tac.
      * intros y ? ?. assert (y = x) as -> by mem_solve. by apply free_insert.
    + assert (n ≠ NULL) by naive_solver.
      c_steps. eapply wp_markAsFree; [done|lookup_heap|]. c_steps. split; [done|].
      split_step; [| | | |none_tac].
      * rewrite Hhd. unfold lastp. rewrite !hd_app, !default_last_app. done.
      * apply NoDup_app. split_and!; [by apply NoDup_snoc|done..].
      * rewrite <-app_assoc. apply seg_app. split; [seg_tac|]. split; [seg_tac|].
        apply (seg_single _ x). seg_tac.
      * intros y ? ?. assert (y = x) as -> by mem_solve. by apply free_insert.
Qed.

Lemma slist_remove_loop_local h l ys zs x fuel :
  list_ok false h l (ys ++ x :: zs) → l ≠ NULL → items h !! NULL = None →
  ∀ ws vs, ys = vs ++ ws → (length ws < fuel)%nat →
  wp (SList_remove_loop fuel l x (hd x ws) (lastp NULL vs))
     (λ r h', r = true ∧ local_step false h h' l (ys ++ x :: zs) (ys ++ zs)) h.
Proof.
  intros Hok Hl Hnull ws. revert fuel.
  induction ws as [|w ws IH]; intros fuel vs Heq Hf; (destruct fuel as [|fuel]; [simpl in Hf; lia|]).
  - rewrite app_nil_r in Heq. subst vs. by apply slist_remove_at.
  - simpl in Hf. assert (list_ok false h l (vs ++ w :: ws ++ x :: zs)) as Hok'.
    { revert Hok. by rewrite Heq, <-app_assoc. }
    destruct (local_lookup _ _ _ _ _ _ Hok' Hnull) as (it & Hit & Hc & Hn & _ & Hw & _).
    assert (w ≠ x) as Hwx.
    { destruct Hok' as [_ Hnd _]. apply NoDup_middle in Hnd. set_solver. }
    cbn [SList_remove_loop hd]. c_steps. rewrite (proj2 (Z.eqb_neq w x)) by done.
    rewrite Hn, hd_app. simpl.
    replace w with (lastp NULL (vs ++ [w])) at 1 by (unfold lastp; by rewrite last_snoc).
    apply IH; [|lia]. by rewrite <-app_assoc.
Qed.

Lemma slist_remove_local h l ys zs x :
  list_ok false h l (ys ++ x :: zs) → l ≠ NULL → items h !! NULL = None →
  wp (Cpl_Container_SList_remove l x)
     (λ r h', r = true ∧ local_step false h h' l (ys ++ x :: zs) (ys ++ zs)) h.
Proof.
  intros Hok Hl Hnull.
  destruct (local_lookup _ _ _ _ _ _ Hok Hnull) as (it & Hit & Hc & Hn & _ & Hx & _).
  unfold Cpl_Container_SList_remove. c_steps. eapply wp_isInContainer; [done..|].
  rewrite Hc, Z.eqb_refl. pose proof Hok as [Hhd Hnd Hs].
  assert (length ys < loop_fuel h)%nat as Hf.
  { pose proof (seg_dom _ _ _ _ _ _ Hnd Hs) as Hle. rewrite length_app in Hle.
    unfold loop_fuel. simpl in Hle. lia. }
  c_steps. rewrite hd_app.
  exact (slist_remove_loop_local h l ys zs x _ Hok Hl Hnull ys [] eq_refl Hf).
Qed.

Lemma slist_getLast_local h l xs :
  list_ok false h l xs → l ≠ NULL → items h !! NULL = None →
  wp (Cpl_Container_SList_getLast l)
     (λ r h', r = lastp NULL xs ∧ local_step false h h' l xs (removelast xs)) h.
Proof.
  intros Hok Hl Hnull. unfold Cpl_Container_SList_getLast.
  pose proof (local_in_ptr _ _ _ _ Hok Hnull) as Hin. pose proof (lo_head _ _ _ _ Hok) as Hhd.
  destruct xs as [|x xs _] using rev_ind.
  - c_steps. split; [done|]. destruct Hok. split_step; done.
  - assert (x ≠ NULL) by (apply Hin; set_solver).
    assert (lastp NULL (xs ++ [x]) = x) as Hlx by (unfold lastp; by rewrite last_snoc).
    c_steps. rewrite Hlx in *. c_steps. rewrite removelast_last.
    eapply wp_mono; [apply slist_remove_local; done|]. intros r h' [-> Hst]. c_steps.
    split; [done|]. by rewrite app_nil_r in Hst.
Qed.
