(* ===== verification/CListSpec.v ===== *)
(** * Intrusive containers: refinement of the C lists

    The doubly linked operations of cdlist.c, one list at a time, and then the
    whole interface of cslist.c and cdlist.c as a refinement of an abstract
    map from lists to their contents. *)

From Stdlib Require Import ZArith Lia.
From S2P Require Import Prelude CList.
Local Open Scope Z_scope.
Local Open Scope pim_scope.

(** ** Doubly linked operations on one list *)

Lemma lastp_snoc pp xs x : lastp pp (xs ++ [x]) = x.
Proof. unfold lastp. by rewrite last_snoc. Qed.

Lemma dlist_put_local h l xs x :
  list_ok true h l xs → l ≠ NULL → items h !! NULL = None → free_item h x →
  wp (Cpl_Container_DList_put l x)
     (λ r h', r = true ∧ local_step true h h' l xs (xs ++ [x])) h.
Proof.
  intros Hok Hl Hnull Hfree.
  pose proof (local_free_not_in _ _ _ _ Hok Hl _ Hfree) as Hx.
  pose proof (local_free_ptr _ Hnull _ Hfree) as Hxn.
  pose proof (local_in_ptr _ _ _ _ Hok Hnull) as Hin.
  pose proof Hfree as (it & Hit & Hc). destruct Hok as [Hhd Hnd Hs].
  assert (Hnd' : NoDup (xs ++ [x])) by by apply NoDup_snoc.
  unfold Cpl_Container_DList_put. c_steps. eapply wp_markAsContained_free; [done..|].
  destruct xs as [|t ys _] using rev_ind.
  - c_steps. split; [done|]. split_step; [by rewrite insert_insert_eq, lookup_insert_eq|done| | |].
    + split; [seg_tac|done].
    + none_tac.
    + intros y ->%list_elem_of_singleton _. done.
  - apply seg_app in Hs as [Hs1 [(tit & Htit & Htc & Htn & Htp) _]].
    assert (x ≠ t) by mem_solve.
    assert (hd t ys ≠ NULL) by (destruct ys; apply Hin; set_solver).
    rewrite hd_app, lastp_snoc in Hhd. simpl in Hhd.
    c_steps. split; [done|]. apply NoDup_snoc in Hnd as [Ht Hnd].
    split_step; [|done| |none_tac|].
    + rewrite lookup_insert_eq, lastp_snoc, !hd_app. done.
    + rewrite <-app_assoc. apply seg_app. simpl. split; [seg_tac|].
      split_and!; [seg_tac..|done].
    + intros y ? ?. assert (y = x) as -> by mem_solve. done.
Qed.

Lemma dlist_putFirst_local h l xs x :
  list_ok true h l xs → l ≠ NULL → items h !! NULL = None → free_item h x →
  wp (Cpl_Container_DList_putFirst l x)
     (λ r h', r = true ∧ local_step true h h' l xs (x :: xs)) h.
Proof.
  intros Hok Hl Hnull Hfree.
  pose proof (local_free_not_in _ _ _ _ Hok Hl _ Hfree) as Hx.
  pose proof (local_free_ptr _ Hnull _ Hfree) as Hxn.
  pose proof (local_in_ptr _ _ _ _ Hok Hnull) as Hin.
  pose proof Hfree as (it & Hit & Hc). destruct Hok as [Hhd Hnd Hs].
  assert (Hnd' : NoDup (x :: xs)) by by apply NoDup_cons.
  unfold Cpl_Container_DList_putFirst. c_steps. eapply wp_markAsContained_free; [done..|].
  destruct xs as [|t ys].
  - c_steps. split; [done|]. split_step; [by rewrite insert_insert_eq, lookup_insert_eq|done| | |].
    + split; [seg_tac|done].
    + none_tac.
    + intros y ->%list_elem_of_singleton _. done.
  - assert (t ≠ NULL) by (apply Hin; set_solver). assert (t ≠ x) by mem_solve.
    destruct Hs as [(tit & Htit & Htc & Htn & Htp) Hs]. apply NoDup_cons in Hnd as [Ht Hnd].
    c_steps. split; [done|].
    split_step; [by rewrite lookup_insert_eq|done| |none_tac|].
    + split_and!; seg_tac.
    + intros y ? ?. assert (y = x) as -> by mem_solve. done.
Qed.

Lemma dlist_remove_local h l ys zs x :
  list_ok true h l (ys ++ x :: zs) → l ≠ NULL → items h !! NULL = None →
  wp (Cpl_Container_DList_remove l x)
     (λ r h', r = true ∧ local_step true h h' l (ys ++ x :: zs) (ys ++ zs)) h.
Proof.
  intros Hok Hl Hnull.
  destruct (local_lookup _ _ _ _ _ _ Hok Hnull) as (it & Hit & Hc & Hn & Hp & Hx & Hz & Hy).
  pose proof (local_in_ptr _ _ _ _ Hok Hnull) as Hin.
  specialize (Hp eq_refl). destruct Hok as [Hhd Hnd Hs].
  apply NoDup_middle in Hnd as (Hxy & Hxz & Hnd). apply seg_app in Hs as [Hs1 [_ Hs2]].
  unfold Cpl_Container_DList_remove. c_steps. eapply wp_isInContainer; [done..|].
  rewrite Hc, Z.eqb_refl. c_steps. rewrite Hn, Hp.
  destruct ys as [|p ys _] using rev_ind; [clear Hy|].
  - destruct zs as [|n zs]; [clear Hz|].
    + c_steps. eapply wp_markAsFree; [done|lookup_heap|]. c_steps. split; [done|].
      split_step; [by rewrite insert_insert_eq, lookup_insert_eq|done|done| |none_tac].
      intros y ->%list_elem_of_singleton _. by apply free_insert.
    + assert (n ≠ NULL) by (apply Hin; clear; set_solver). assert (n ≠ x) by mem_solve.
      destruct Hs2 as [(nit & Hnit & Hnc & Hnn & Hnp) Hs2].
      apply NoDup_cons in Hnd as Hnd'. destruct Hnd' as [Hnz _].
      c_steps. eapply wp_markAsFree; [done|lookup_heap|]. c_steps. split; [done|].
      split_step; [by rewrite lookup_insert_eq|done| | |none_tac].
      * split; seg_tac.
      * intros y ? ?. assert (y = x) as -> by mem_solve. by apply free_insert.
  - apply seg_app in Hs1 as [Hs1 [(pit & Hpit & Hpc & Hpn & Hpp) _]].
    rewrite lastp_snoc in *. assert (p ≠ NULL) by (apply Hin; clear; set_solver). assert (p ≠ x) by mem_solve.
    apply NoDup_app in Hnd as (Hnd1 & Hdis & Hnd2). pose proof Hnd1 as [Hpy _]%NoDup_snoc.
    assert (p ∉ zs) by (apply Hdis; set_solver).
    destruct zs as [|n zs]; [clear Hz|].
    + c_steps. eapply wp_markAsFree; [done|lookup_heap|]. c_steps. split; [done|].
      split_step; [|by rewrite app_nil_r| | |none_tac].
      * rewrite lookup_insert_eq, app_nil_r. unfold with_tailPtr; simpl. by rewrite !hd_app, lastp_snoc.
      * rewrite app_nil_r. apply seg_app. split; [seg_tac|]. split; [seg_tac|done].
      * intros y ? ?. assert (y = x) as -> by mem_solve. by apply free_insert.
    + assert (n ≠ NULL) by (apply Hin; clear; set_solver). assert (n ≠ x) by mem_solve. assert (n ≠ p) by mem_solve.
      destruct Hs2 as [(nit & Hnit & Hnc & Hnn & Hnp) Hs2].
      apply NoDup_cons in Hnd2 as Hnd2'. destruct Hnd2' as [Hnz _].
      assert (n ∉ ys) by (intros Hny; destruct (Hdis n); set_solver).
      c_steps. eapply wp_markAsFree; [done|lookup_heap|]. c_steps. split; [done|].
      split_step; [| | | |none_tac].
      * rewrite Hhd. unfold lastp. by rewrite !hd_app, !default_last_app.
      * apply NoDup_app. done.
      * rewrite <-app_assoc. apply seg_app. split; [seg_tac|]. simpl. split_and!; seg_tac.
      * intros y ? ?. assert (y = x) as -> by mem_solve. by apply free_insert.
Qed.

Lemma dlist_get_local h l xs :
  list_ok true h l xs → l ≠ NULL → items h !! NULL = None →
  wp (Cpl_Container_DList_get l)
     (λ r h', r = hd NULL xs ∧ local_step true h h' l xs (tail xs)) h.
Proof.
  intros Hok Hl Hnull. unfold Cpl_Container_DList_get.
  pose proof (local_in_ptr _ _ _ _ Hok Hnull) as Hin. pose proof (lo_head _ _ _ _ Hok) as Hhd.
  destruct xs as [|x xs].
  - c_steps. split; [done|]. destruct Hok. split_step; done.
  - assert (x ≠ NULL) by (apply Hin; clear; set_solver). c_steps.
    eapply wp_mono; [apply (dlist_remove_local h l [] xs x); done|].
    intros r h' [-> Hst]. c_steps. done.
Qed.

Lemma dlist_getLast_local h l xs :
  list_ok true h l xs → l ≠ NULL → items h !! NULL = None →
  wp (Cpl_Container_DList_getLast l)
     (λ r h', r = lastp NULL xs ∧ local_step true h h' l xs (removelast xs)) h.
Proof.
  intros Hok Hl Hnull. unfold Cpl_Container_DList_getLast.
  pose proof (local_in_ptr _ _ _ _ Hok Hnull) as Hin. pose proof (lo_head _ _ _ _ Hok) as Hhd.
  destruct xs as [|x xs _] using rev_ind.
  - c_steps. split; [done|]. destruct Hok. split_step; done.
  - assert (x ≠ NULL) by (apply Hin; clear; set_solver). c_steps. rewrite lastp_snoc in *. c_steps.
    rewrite removelast_last. eapply wp_mono; [apply (dlist_remove_local h l xs [] x); done|].
    intros r h' [-> Hst]. c_steps. split; [done|]. by rewrite app_nil_r in Hst.
Qed.

Lemma dlist_insertBefore_local h l ys b zs x :
  list_ok true h l (ys ++ b :: zs) → l ≠ NULL → items h !! NULL = None → free_item h x →
  wp (Cpl_Container_DList_insertBefore l b x)
     (λ r h', r = true ∧ local_step true h h' l (ys ++ b :: zs) (ys ++ x :: b :: zs)) h.
Proof.
  intros Hok Hl Hnull Hfree.
  pose proof (local_free_not_in _ _ _ _ Hok Hl _ Hfree) as Hx.
  pose proof (local_free_ptr _ Hnull _ Hfree) as Hxn.
  pose proof (local_in_ptr _ _ _ _ Hok Hnull) as Hin.
  pose proof Hfree as (it & Hit & Hc).
  destruct (local_lookup _ _ _ _ _ _ Hok Hnull) as (bit & Hbit & Hbc & Hbn & Hbp & Hb & _).
  specialize (Hbp eq_refl). destruct Hok as [Hhd Hnd Hs].
  assert (Hnd' : NoDup (ys ++ x :: b :: zs)) by (apply NoDup_middle; set_solver).
  apply NoDup_middle in Hnd as (Hby & Hbz & Hnd). apply seg_app in Hs as [Hs1 [_ Hs2]].
  assert (x ≠ b) by mem_solve.
  unfold Cpl_Container_DList_insertBefore. c_steps. eapply wp_markAsContained_free; [done..|].
  c_steps. rewrite Hbp. destruct ys as [|p ys _] using rev_ind.
  - c_steps. split; [done|]. split_step; [by rewrite lookup_insert_eq|done| |none_tac|].
    + split_and!; seg_tac.
    + intros y ? ?. assert (y = x) as -> by mem_solve. done.
  - assert (p ≠ NULL) by (apply Hin; clear; set_solver). assert (p ≠ x) by mem_solve.
    assert (p ≠ b) by mem_solve.
    apply seg_app in Hs1 as [Hs1 [(pit & Hpit & Hpc & Hpn & Hpp) _]]. rewrite lastp_snoc in *.
    apply NoDup_app in Hnd as (Hnd1 & Hdis & Hnd2). pose proof Hnd1 as [Hpy _]%NoDup_snoc.
    assert (p ∉ zs) by (apply Hdis; clear; set_solver).
    c_steps. split; [done|]. split_step; [|done| |none_tac|].
    + rewrite Hhd. unfold lastp. by rewrite !hd_app, !default_last_app.
    + rewrite <-app_assoc. apply seg_app. split; [seg_tac|]. simpl. split_and!; seg_tac.
    + intros y ? ?. assert (y = x) as -> by mem_solve. done.
Qed.

Lemma dlist_insertAfter_local h l ys a zs x :
  list_ok true h l (ys ++ a :: zs) → l ≠ NULL → items h !! NULL = None → free_item h x →
  wp (Cpl_Container_DList_insertAfter l a x)
     (λ r h', r = true ∧ local_step true h h' l (ys ++ a :: zs) (ys ++ a :: x :: zs)) h.
Proof.
  intros Hok Hl Hnull Hfree.
  pose proof (local_free_not_in _ _ _ _ Hok Hl _ Hfree) as Hx.
  pose proof (local_free_ptr _ Hnull _ Hfree) as Hxn.
  pose proof (local_in_ptr _ _ _ _ Hok Hnull) as Hin.
  pose proof Hfree as (it & Hit & Hc).
  destruct (local_lookup _ _ _ _ _ _ Hok Hnull) as (ait & Hait & Hac & Han & Hap & Ha & _).
  specialize (Hap eq_refl). destruct Hok as [Hhd Hnd Hs].
  assert (Hnd' : NoDup (ys ++ a :: x :: zs)).
  { change (a :: x :: zs) with ([a] ++ x :: zs). rewrite app_assoc. apply NoDup_middle.
    rewrite <-app_assoc. set_solver. }
  apply NoDup_middle in Hnd as (Hay & Haz & Hnd). apply seg_app in Hs as [Hs1 [_ Hs2]].
  assert (x ≠ a) by mem_solve.
  unfold Cpl_Container_DList_insertAfter. c_steps. eapply wp_markAsContained_free; [done..|].
  c_steps. rewrite Han. destruct zs as [|n zs].
  - c_steps. split; [done|]. split_step; [|done| |none_tac|].
    + rewrite lookup_insert_eq. unfold with_tailPtr, lastp; simpl. by rewrite !hd_app, !default_last_app.
    + apply seg_app. split; [seg_tac|]. simpl. split_and!; [seg_tac..|done].
    + intros y ? ?. assert (y = x) as -> by mem_solve. done.
  - assert (n ≠ NULL) by (apply Hin; clear; set_solver). assert (n ≠ x) by mem_solve.
    assert (n ≠ a) by mem_solve.
    destruct Hs2 as [(nit & Hnit & Hnc & Hnn & Hnp) Hs2].
    apply NoDup_middle in Hnd as (Hny & Hnz & _).
    c_steps. split; [done|]. split_step; [|done| |none_tac|].
    + rewrite Hhd. unfold lastp. by rewrite !hd_app, !default_last_app.
    + apply seg_app. split; [seg_tac|]. simpl. split_and!; seg_tac.
    + intros y ? ?. assert (y = x) as -> by mem_solve. done.
Qed.

(** ** The abstract interface

    An operation of cslist.c ([d = false]) or cdlist.c ([d = true]). *)
Inductive op :=
  | OInit (d : bool) (l : ptr)
  | OPut (d : bool) (l x : ptr)
  | OPutFirst (d : bool) (l x : ptr)
  | OGet (d : bool) (l : ptr)
  | OGetLast (d : bool) (l : ptr)
  | ORemove (d : bool) (l x : ptr)
  | OInsertBefore (l b x : ptr)
  | OInsertAfter (l b x : ptr)
  | OClear (d : bool) (l : ptr)
  | OMove (d : bool) (dst src : ptr)
  | OIsInList (d : bool) (l x : ptr)
  | OPeekHead (d : bool) (l : ptr)
  | OPeekTail (d : bool) (l : ptr)
  | ONext (d : bool) (l x : ptr)
  | OPrev (l x : ptr).

Inductive res := RUnit | RBool (b : bool) | RPtr (p : ptr).

Definition as_unit (m : M unit) : M res := m;; ret RUnit.
Definition as_bool (m : M bool) : M res := b ← m; ret (RBool b).
Definition as_ptr (m : M ptr) : M res := p ← m; ret (RPtr p).

(** What the C code runs. *)
Definition run_op (o : op) : M res :=
  match o with
  | OInit d l => as_unit (if d then Cpl_Container_DList_initialize l else Cpl_Container_SList_initialize l)
  | OPut d l x => as_bool (if d then Cpl_Container_DList_put l x else Cpl_Container_SList_put l x)
  | OPutFirst d l x =>
      as_bool (if d then Cpl_Container_DList_putFirst l x else Cpl_Container_SList_putFirst l x)
  | OGet d l => as_ptr (if d then Cpl_Container_DList_get l else Cpl_Container_SList_get l)
  | OGetLast d l => as_ptr (if d then Cpl_Container_DList_getLast l else Cpl_Container_SList_getLast l)
  | ORemove d l x => as_bool (if d then Cpl_Container_DList_remove l x else Cpl_Container_SList_remove l x)
  | OInsertBefore l b x => as_bool (Cpl_Container_DList_insertBefore l b x)
  | OInsertAfter l b x => as_bool (Cpl_Container_DList_insertAfter l b x)
  | OClear d l => as_unit (if d then Cpl_Container_DList_clear l else Cpl_Container_SList_clear l)
  | OMove d dst src =>
      as_unit (if d then Cpl_Container_DList_move dst src else Cpl_Container_SList_move dst src)
  | OIsInList d l x =>
      as_bool (if d then Cpl_Container_DList_isInList l x else Cpl_Container_SList_isInList l x)
  | OPeekHead d l => as_ptr (if d then Cpl_Container_DList_peekHead l else Cpl_Container_SList_peekHead l)
  | OPeekTail d l => as_ptr (if d then Cpl_Container_DList_peekTail l else Cpl_Container_SList_peekTail l)
  | ONext d l x => as_ptr (if d then Cpl_Container_DList_next x else Cpl_Container_SList_next x)
  | OPrev l x => as_ptr (Cpl_Container_DList_prev x)
  end.

(** What it means: the contents of the lists are plain sequences. *)
Definition contents (a : abs) (l : ptr) : list ptr := default [] (a !! l).

Definition listed (a : abs) (x : ptr) : bool :=
  bool_decide (Exists (λ lxs, x ∈ lxs.2) (map_to_list a)).

Fixpoint insert_before (b x : ptr) (xs : list ptr) : list ptr :=
  match xs with
  | [] => []
  | y :: r => if y =? b then x :: y :: r else y :: insert_before b x r
  end.

Fixpoint insert_after (b x : ptr) (xs : list ptr) : list ptr :=
  match xs with
  | [] => []
  | y :: r => if y =? b then y :: x :: r else y :: insert_after b x r
  end.

(** The item that follows, and the one that precedes, [x] in [xs]. *)
Fixpoint succ_of (x : ptr) (xs : list ptr) : ptr :=
  match xs with
  | [] => NULL
  | y :: r => if y =? x then hd NULL r else succ_of x r
  end.

Fixpoint pred_of (pp x : ptr) (xs : list ptr) : ptr :=
  match xs with
  | [] => NULL
  | y :: r => if y =? x then pp else pred_of y x r
  end.

Definition spec_add (a : abs) (l x : ptr) (xs : list ptr) : abs * res :=
  if listed a x then (a, RBool false) else (<[l := xs]> a, RBool true).

Definition spec_op (o : op) (a : abs) : abs * res :=
  match o with
  | OInit _ l => (<[l := []]> a, RUnit)
  | OPut _ l x => spec_add a l x (contents a l ++ [x])
  | OPutFirst _ l x => spec_add a l x (x :: contents a l)
  | OInsertBefore l b x => spec_add a l x (insert_before b x (contents a l))
  | OInsertAfter l b x => spec_add a l x (insert_after b x (contents a l))
  | OGet _ l => (<[l := tail (contents a l)]> a, RPtr (hd NULL (contents a l)))
  | OGetLast _ l => (<[l := removelast (contents a l)]> a, RPtr (default NULL (last (contents a l))))
  | ORemove _ l x =>
      if bool_decide (x ∈ contents a l) then (<[l := unlink x (contents a l)]> a, RBool true)
      else (a, RBool false)
  | OClear _ l => (<[l := []]> a, RUnit)
  | OMove _ dst src =>
      (<[dst := if dst =? src then [] else contents a src]> (<[src := []]> a), RUnit)
  | OIsInList _ l x => (a, RBool (bool_decide (x ∈ contents a l)))
  | OPeekHead _ l => (a, RPtr (hd NULL (contents a l)))
  | OPeekTail _ l => (a, RPtr (default NULL (last (contents a l))))
  | ONext _ l x => (a, RPtr (succ_of x (contents a l)))
  | OPrev l x => (a, RPtr (pred_of NULL x (contents a l)))
  end.

(** What a caller must respect: the pointers point to objects ([E]: the items,
    [L]: the list heads), the list is initialised and used with the functions
    of its kind, a position for an insertion or a traversal is in the list. *)
Definition op_ok (k : ptr → bool) (E L : gset ptr) (o : op) (a : abs) : Prop :=
  match o with
  | OInit d l => l ∈ L ∧ contents a l = []
  | OPut d l x | OPutFirst d l x | ORemove d l x | OIsInList d l x =>
      l ∈ dom a ∧ k l = d ∧ x ∈ E
  | OGet d l | OGetLast d l | OClear d l | OPeekHead d l | OPeekTail d l => l ∈ dom a ∧ k l = d
  | OInsertBefore l b x | OInsertAfter l b x => l ∈ dom a ∧ k l = true ∧ x ∈ E ∧ b ∈ contents a l
  | OMove d dst src => dst ∈ dom a ∧ src ∈ dom a ∧ k dst = d ∧ k src = d
  | ONext d l x => l ∈ dom a ∧ k l = d ∧ x ∈ contents a l
  | OPrev l x => l ∈ dom a ∧ k l = true ∧ x ∈ contents a l
  end.

#[global] Instance op_ok_dec k E L o a : Decision (op_ok k E L o a).
Proof. destruct o; simpl; apply _. Defined.

(** ** From one list to the whole heap *)

Definition same_dom (h h' : heap) : Prop :=
  dom (items h') = dom (items h) ∧ dom (lists h') = dom (lists h).

Lemma lift_local {A} k h a l xs xs' (m : M A) (P : A → Prop) :
  Rep k h a → a !! l = Some xs →
  wp m (λ r h', P r ∧ local_step (k l) h h' l xs xs') h →
  wp m (λ r h', P r ∧ Rep k h' (<[l:=xs']> a) ∧ same_dom h h') h.
Proof.
  intros HR Hl Hwp. eapply wp_mono; [exact Hwp|]. intros r h' [? Hst].
  split_and!; [done|by eapply rep_step|]. split.
  - apply set_eq. intros y. rewrite !elem_of_dom. by eapply rep_same_dom.
  - apply set_eq. intros y. rewrite !elem_of_dom. destruct (decide (y = l)) as [->|Hne].
    + destruct (rep_lists _ _ _ HR _ _ Hl) as [-> _ _], Hst as [[-> _ _] _ _ _ _]. done.
    + by rewrite (ls_lists _ _ _ _ _ _ Hst).
Qed.

Lemma listed_spec a x : listed a x = true ↔ ∃ l xs, a !! l = Some xs ∧ x ∈ xs.
Proof.
  unfold listed. rewrite bool_decide_eq_true, Exists_exists. split.
  - intros ([l xs] & Hin & ?). apply elem_of_map_to_list in Hin. eauto.
  - intros (l & xs & ? & ?). exists (l, xs). split; [|done].
    by apply elem_of_map_to_list.
Qed.

Section refine.
Context {k : ptr → bool} {h : heap} {a : abs} (HR : Rep k h a).

Lemma rep_unlisted_free x : x ∈ dom (items h) → listed a x = false → free_item h x.
Proof.
  intros [it Hit]%elem_of_dom Hl. exists it. split; [done|].
  destruct (decide (containerPtr it = NULL)) as [|Hc]; [done|].
  destruct (rep_mark _ _ _ HR _ _ Hit Hc) as (xs & ? & ?).
  assert (listed a x = true) by (apply listed_spec; eauto). congruence.
Qed.

Lemma rep_listed_busy x : listed a x = true →
  ∃ it, items h !! x = Some it ∧ containerPtr it ≠ NULL ∧ x ≠ NULL.
Proof.
  intros (l & xs & Hl & Hx)%listed_spec. destruct (rep_in_list HR l xs x Hl Hx) as (? & it & ? & <-).
  exists it. split_and!; [done| |done]. by apply (rep_list_ptr HR _ xs).
Qed.

Lemma contents_Some l xs : a !! l = Some xs → contents a l = xs.
Proof. unfold contents. by intros ->. Qed.

Lemma dom_contents l : l ∈ dom a → a !! l = Some (contents a l).
Proof. intros [xs Hl]%elem_of_dom. by rewrite (contents_Some l xs). Qed.
End refine.

(** ** The operations of each kind meet one interface

    [ListImpl d] collects what the functions of one kind of list promise; the
    refinement is proved against it and both kinds discharge it. *)
Class ListImpl (d : bool) (put putFirst : ptr → ptr → M bool) (get getLast : ptr → M ptr)
    (remove : ptr → ptr → M bool) := {
  impl_put h l xs x :
    list_ok d h l xs → l ≠ NULL → items h !! NULL = None → free_item h x →
    wp (put l x) (λ r h', r = true ∧ local_step d h h' l xs (xs ++ [x])) h;
  impl_putFirst h l xs x :
    list_ok d h l xs → l ≠ NULL → items h !! NULL = None → free_item h x →
    wp (putFirst l x) (λ r h', r = true ∧ local_step d h h' l xs (x :: xs)) h;
  impl_get h l xs :
    list_ok d h l xs → l ≠ NULL → items h !! NULL = None →
    wp (get l) (λ r h', r = hd NULL xs ∧ local_step d h h' l xs (tail xs)) h;
  impl_getLast h l xs :
    list_ok d h l xs → l ≠ NULL → items h !! NULL = None →
    wp (getLast l) (λ r h', r = lastp NULL xs ∧ local_step d h h' l xs (removelast xs)) h;
  impl_remove h l ys zs x :
    list_ok d h l (ys ++ x :: zs) → l ≠ NULL → items h !! NULL = None →
    wp (remove l x) (λ r h', r = true ∧ local_step d h h' l (ys ++ x :: zs) (ys ++ zs)) h
}.

#[global] Instance slist_impl :
  ListImpl false Cpl_Container_SList_put Cpl_Container_SList_putFirst Cpl_Container_SList_get
    Cpl_Container_SList_getLast Cpl_Container_SList_remove.
Proof.
  split; intros.
  - by apply slist_put_local.
  - by apply slist_putFirst_local.
  - by apply slist_get_local.
  - by apply slist_getLast_local.
  - by apply slist_remove_local.
Qed.

#[global] Instance dlist_impl :
  ListImpl true Cpl_Container_DList_put Cpl_Container_DList_putFirst Cpl_Container_DList_get
    Cpl_Container_DList_getLast Cpl_Container_DList_remove.
Proof.
  split; intros.
  - by apply dlist_put_local.
  - by apply dlist_putFirst_local.
  - by apply dlist_get_local.
  - by apply dlist_getLast_local.
  - by apply dlist_remove_local.
Qed.

(** ** Clients of the interface: drain and move *)

Section client.
Context {d put putFirst get getLast remove} `{!ListImpl d put putFirst get getLast remove}.

Lemma client_get k h a l xs :
  Rep k h a → a !! l = Some xs → k l = d →
  wp (get l) (λ r h', r = hd NULL xs ∧ Rep k h' (<[l:=tail xs]> a) ∧ same_dom h h') h.
Proof.
  intros HR Hl <-. apply (lift_local _ _ _ _ xs _ _ (λ r, r = _)); [done..|].
  apply impl_get; [by apply HR|by eapply rep_list_ptr|apply HR].
Qed.

Lemma client_put k h a l xs x :
  Rep k h a → a !! l = Some xs → k l = d → free_item h x →
  wp (put l x) (λ r h', r = true ∧ Rep k h' (<[l:=xs ++ [x]]> a) ∧ same_dom h h') h.
Proof.
  intros HR Hl <- ?. apply (lift_local _ _ _ _ xs _ _ (λ r, r = _)); [done..|].
  apply impl_put; [by apply HR|by eapply rep_list_ptr|apply HR|done].
Qed.

Lemma same_dom_refl h : same_dom h h.
Proof. done. Qed.

Lemma same_dom_trans h h' h'' : same_dom h h' → same_dom h' h'' → same_dom h h''.
Proof. intros [??] [??]. split; congruence. Qed.

Lemma client_clear_loop k xs : ∀ fuel h a l,
  Rep k h a → a !! l = Some xs → k l = d → (length xs < fuel)%nat →
  wp (clear_loop get fuel l) (λ _ h', Rep k h' (<[l:=[]]> a) ∧ same_dom h h') h.
Proof.
  induction xs as [|x xs IH]; intros fuel h a l HR Hl Hk Hf;
    (destruct fuel as [|fuel]; [simpl in Hf; lia|]); simpl.
  - apply wp_bind. eapply wp_mono; [by eapply client_get|]. intros r h' (-> & HR' & Hd). by c_steps.
  - apply wp_bind. eapply wp_mono; [by eapply client_get|]. intros r h' (-> & HR' & Hd). simpl in *.
    destruct (rep_in_list HR l (x :: xs) x Hl) as [Hx _]; [clear; set_solver|].
    rewrite is_ptr_true by done.
    eapply wp_mono; [apply (IH fuel h' _ l HR'); [by rewrite lookup_insert_eq|done|lia]|].
    intros _ h'' (HR'' & Hd'). rewrite insert_insert_eq in HR''.
    split; [done|by eapply same_dom_trans].
Qed.

Lemma rep_length k h a l xs : Rep k h a → a !! l = Some xs → (length xs < loop_fuel h)%nat.
Proof.
  intros HR Hl. destruct (rep_lists _ _ _ HR _ _ Hl) as [_ Hnd Hs].
  pose proof (seg_dom _ _ _ _ _ _ Hnd Hs). unfold loop_fuel. lia.
Qed.

Lemma client_move_loop k xs : ∀ fuel h a ys dst src,
  Rep k h a → a !! src = Some xs → a !! dst = Some ys → dst ≠ src →
  k src = d → k dst = d → (length xs < fuel)%nat →
  wp (move_loop get put fuel dst src)
     (λ _ h', Rep k h' (<[dst:=ys ++ xs]> (<[src:=[]]> a)) ∧ same_dom h h') h.
Proof.
  induction xs as [|x xs IH]; intros fuel h a ys dst src HR Hs Hd Hne Hks Hkd Hf;
    (destruct fuel as [|fuel]; [simpl in Hf; lia|]); simpl; apply wp_bind;
    (eapply wp_mono; [by eapply client_get|]); intros r h' (-> & HR' & Hsd); simpl in *.
  - c_steps. split; [|done]. rewrite app_nil_r, insert_id; [done|]. by rewrite lookup_insert_ne.
  - destruct (rep_in_list HR src (x :: xs) x Hs) as [Hx (it & Hit & _)]; [clear; set_solver|].
    assert (x ∉ xs) as Hxn.
    { destruct (rep_lists _ _ _ HR _ _ Hs) as [_ Hnd _]. by apply NoDup_cons in Hnd as [? _]. }
    assert (free_item h' x) as Hfree.
    { apply (rep_unlisted_free HR').
      - rewrite (proj1 Hsd). by apply elem_of_dom.
      - apply not_true_is_false. intros (l & zs & Hl & Hz)%listed_spec.
        destruct (decide (l = src)) as [->|Hls].
        + rewrite lookup_insert_eq in Hl. congruence.
        + rewrite lookup_insert_ne in Hl by done. apply Hls.
          apply (rep_disjoint HR l src zs (x :: xs) x); [done..|]. clear; set_solver. }
    rewrite is_ptr_true by done. apply wp_bind.
    eapply wp_mono; [apply (client_put k h' _ dst ys x HR'); [by rewrite lookup_insert_ne|done..]|].
    intros r h'' (-> & HR'' & Hsd').
    eapply wp_mono; [apply (IH fuel h'' _ (ys ++ [x]) dst src HR'')|]; simpl.
    + by rewrite lookup_insert_ne, lookup_insert_eq.
    + by rewrite lookup_insert_eq.
    + done.
    + done.
    + done.
    + lia.
    + intros _ h3 (HR3 & Hsd3). split; [|by do 2 (eapply same_dom_trans; [done|])].
      rewrite <-app_assoc in HR3. simpl in HR3.
      rewrite (insert_insert_ne _ src dst), insert_insert_eq, insert_insert_eq in HR3 by done. done.
Qed.
End client.

(** ** Positions in a list *)

Lemma insert_before_split b x ys zs :
  b ∉ ys → insert_before b x (ys ++ b :: zs) = ys ++ x :: b :: zs.
Proof.
  induction ys as [|y ys IH]; simpl; [by rewrite Z.eqb_refl|].
  rewrite not_elem_of_cons. intros [??]. rewrite (proj2 (Z.eqb_neq y b)) by done. by rewrite IH.
Qed.

Lemma insert_after_split b x ys zs :
  b ∉ ys → insert_after b x (ys ++ b :: zs) = ys ++ b :: x :: zs.
Proof.
  induction ys as [|y ys IH]; simpl; [by rewrite Z.eqb_refl|].
  rewrite not_elem_of_cons. intros [??]. rewrite (proj2 (Z.eqb_neq y b)) by done. by rewrite IH.
Qed.

Lemma succ_of_split x ys zs : x ∉ ys → succ_of x (ys ++ x :: zs) = hd NULL zs.
Proof.
  induction ys as [|y ys IH]; simpl; [by rewrite Z.eqb_refl|].
  rewrite not_elem_of_cons. intros [??]. rewrite (proj2 (Z.eqb_neq y x)) by done. by apply IH.
Qed.

Lemma pred_of_split pp x ys zs : x ∉ ys → pred_of pp x (ys ++ x :: zs) = lastp pp ys.
Proof.
  revert pp. induction ys as [|y ys IH]; intros pp; simpl; [by rewrite Z.eqb_refl|].
  rewrite not_elem_of_cons. intros [??]. rewrite (proj2 (Z.eqb_neq y x)) by done.
  rewrite IH by done. unfold lastp. by rewrite default_last_cons.
Qed.

Lemma rep_split k h a l x :
  Rep k h a → l ∈ dom a → x ∈ contents a l →
  ∃ ys zs, a !! l = Some (ys ++ x :: zs) ∧ contents a l = ys ++ x :: zs ∧ x ∉ ys ∧ x ∉ zs.
Proof.
  intros HR Hl Hx. destruct (list_elem_of_split _ _ Hx) as (ys & zs & Heq).
  exists ys, zs. pose proof (dom_contents l Hl) as Hl'. rewrite Heq in Hl'.
  destruct (rep_lists _ _ _ HR _ _ Hl') as [_ Hnd _]. apply NoDup_middle in Hnd. naive_solver.
Qed.

(** ** The refinement *)

Definition refines (k : ptr → bool) (h : heap) (a : abs) (o : op) : Prop :=
  wp (run_op o) (λ r h',
    r = (spec_op o a).2 ∧ Rep k h' (spec_op o a).1 ∧ same_dom h h') h.

Section ops.
Context {k : ptr → bool} {h : heap} {a : abs} (HR : Rep k h a).

Lemma ptr_of_item x : x ∈ dom (items h) → x ≠ NULL.
Proof. intros Hx. apply (rep_item_ptr HR). by apply elem_of_dom. Qed.

Lemma ptr_of_list l : l ∈ dom a → l ≠ NULL.
Proof. intros Hl%dom_contents. by eapply (rep_list_ptr HR). Qed.

Lemma ok_of_list l : l ∈ dom a → list_ok (k l) h l (contents a l).
Proof. intros Hl%dom_contents. by apply HR. Qed.

(** Adding an item: refused when the item is in some list already. *)
Lemma refines_add (m : M bool) l x xs' :
  l ∈ dom a → x ∈ dom (items h) →
  (listed a x = true → wp m (λ r h', r = false ∧ h' = h) h) →
  (free_item h x → wp m (λ r h', r = true ∧ local_step (k l) h h' l (contents a l) xs') h) →
  wp (as_bool m) (λ r h', r = (spec_add a l x xs').2 ∧ Rep k h' (spec_add a l x xs').1 ∧ same_dom h h') h.
Proof.
  intros Hl Hx Hbusy Hfree. unfold as_bool, spec_add. apply wp_bind.
  destruct (listed a x) eqn:Hlx.
  - eapply wp_mono; [by apply Hbusy|]. intros r h' [-> ->]. by c_steps.
  - eapply wp_mono; [apply (lift_local k h a l (contents a l) xs' m (λ r, r = true) HR)|].
    + by apply dom_contents.
    + apply Hfree. by apply (rep_unlisted_free HR).
    + intros r h' (-> & ? & ?). by c_steps.
Qed.

(** Every adding function starts with the marker and gives up when it is set. *)
Lemma busy_mark x l Q :
  l ≠ NULL → listed a x = true → Q false h → wp (Cpl_Container_Item_markAsContained_ x l) Q h.
Proof.
  intros Hl Hx HQ. destruct (rep_listed_busy HR x Hx) as (it & ? & ? & ?).
  by eapply wp_markAsContained_busy.
Qed.

Lemma refines_get (m : M ptr) l xs' p :
  l ∈ dom a →
  wp m (λ r h', r = p ∧ local_step (k l) h h' l (contents a l) xs') h →
  wp (as_ptr m) (λ r h', r = RPtr p ∧ Rep k h' (<[l:=xs']> a) ∧ same_dom h h') h.
Proof.
  intros Hl Hm. unfold as_ptr. apply wp_bind.
  eapply wp_mono; [apply (lift_local k h a l (contents a l) xs' m (λ r, r = p) HR); [by apply dom_contents|done]|].
  intros r h' (-> & ? & ?). by c_steps.
Qed.

Lemma refines_remove (m : M bool) l x :
  l ∈ dom a → x ∈ dom (items h) →
  (∀ it, items h !! x = Some it → containerPtr it ≠ l → wp m (λ r h', r = false ∧ h' = h) h) →
  (∀ ys zs, contents a l = ys ++ x :: zs →
     wp m (λ r h', r = true ∧ local_step (k l) h h' l (ys ++ x :: zs) (ys ++ zs)) h) →
  wp (as_bool m) (λ r h', r = (spec_op (ORemove (k l) l x) a).2 ∧
     Rep k h' (spec_op (ORemove (k l) l x) a).1 ∧ same_dom h h') h.
Proof.
  intros Hl Hx Hno Hyes. simpl. unfold as_bool. apply wp_bind. case_bool_decide as Hin.
  - destruct (rep_split _ _ _ _ _ HR Hl Hin) as (ys & zs & Ha & Heq & Hy & Hz).
    rewrite Heq, unlink_middle by done.
    eapply wp_mono; [apply (lift_local k h a l _ (ys ++ zs) m (λ r, r = true) HR Ha); by apply Hyes|].
    intros r h' (-> & ? & ?). by c_steps.
  - apply elem_of_dom in Hx as [it Hit]. eapply wp_mono; [apply (Hno it Hit)|].
    + intros Hc. apply Hin. by apply (rep_contained HR l (contents a l) x it (dom_contents l Hl) Hit).
    + intros r h' [-> ->]. by c_steps.
Qed.

Lemma refines_read (m : M ptr) p :
  wp m (λ r h', r = p ∧ h' = h) h →
  wp (as_ptr m) (λ r h', r = RPtr p ∧ Rep k h' a ∧ same_dom h h') h.
Proof.
  intros Hm. unfold as_ptr. apply wp_bind. eapply wp_mono; [exact Hm|].
  intros r h' [-> ->]. by c_steps.
Qed.
End ops.

(** ** One lemma per operation *)

#[local] Opaque loop_fuel.

Section op_lemmas.
Context {k : ptr → bool} {h : heap} {a : abs} (HR : Rep k h a).

(** Introduce the common facts about list [l]. *)
Local Ltac list_facts Hl :=
  pose proof (ptr_of_list HR _ Hl) as Hln; pose proof (ok_of_list HR _ Hl) as Hok;
  pose proof (rep_null_item _ _ _ HR) as Hnull.

Lemma refines_init d l : l ∈ dom (lists h) → contents a l = [] → refines k h a (OInit d l).
Proof.
  intros Hl Hc. apply elem_of_dom in Hl as [hd Hhd].
  assert (l ≠ NULL) as Hln. { intros ->. by rewrite (rep_null_list _ _ _ HR) in Hhd. }
  assert (wp (run_op (OInit d l)) (λ r h', r = RUnit ∧
    h' = Heap (items h) (<[l:=CListHead NULL NULL]> (lists h))) h) as Hwp.
  { unfold run_op, as_unit, Cpl_Container_DList_initialize, Cpl_Container_SList_initialize.
    destruct d; c_steps; by rewrite insert_insert_eq. }
  eapply wp_mono; [exact Hwp|]. intros r h' [-> ->]. simpl. split; [done|]. split.
  - split; simpl; [apply HR|by rewrite lookup_insert_ne; [apply HR|]|..].
    + intros l' xs. destruct (decide (l' = l)) as [->|Hne].
      * rewrite lookup_insert_eq. intros [= <-]. split; simpl; [by rewrite lookup_insert_eq|constructor|done].
      * rewrite lookup_insert_ne by done. intros Hl'. destruct (rep_lists _ _ _ HR _ _ Hl') as [???].
        split; simpl; [by rewrite lookup_insert_ne|done..].
    + intros x it Hx Hnc. destruct (rep_mark _ _ _ HR _ _ Hx Hnc) as (xs & Ha & Hin).
      exists xs. split; [|done]. rewrite lookup_insert_ne; [done|]. intros ->.
      rewrite (contents_Some _ xs Ha) in Hc. subst xs. by apply elem_of_nil in Hin.
  - split; simpl; [done|]. rewrite dom_insert_L.
    assert (l ∈ dom (lists h)) by by apply elem_of_dom. set_solver.
Qed.

Lemma refines_put l x : l ∈ dom a → x ∈ dom (items h) → refines k h a (OPut (k l) l x).
Proof.
  intros Hl Hx. list_facts Hl. unfold refines. simpl. apply (refines_add HR); [done..| |].
  - intros Hb. pose proof (ptr_of_item HR x Hx).
    destruct (k l); [unfold Cpl_Container_DList_put|unfold Cpl_Container_SList_put]; c_steps;
      (apply (busy_mark HR); [done..|]); by c_steps.
  - intros. destruct (k l); by apply impl_put.
Qed.

Lemma refines_putFirst l x : l ∈ dom a → x ∈ dom (items h) → refines k h a (OPutFirst (k l) l x).
Proof.
  intros Hl Hx. list_facts Hl. unfold refines. simpl. apply (refines_add HR); [done..| |].
  - intros Hb. pose proof (ptr_of_item HR x Hx).
    destruct (k l); [unfold Cpl_Container_DList_putFirst|unfold Cpl_Container_SList_putFirst]; c_steps;
      (apply (busy_mark HR); [done..|]); by c_steps.
  - intros. destruct (k l); by apply impl_putFirst.
Qed.

Lemma refines_insertBefore l b x :
  l ∈ dom a → k l = true → x ∈ dom (items h) → b ∈ contents a l →
  refines k h a (OInsertBefore l b x).
Proof.
  intros Hl Hk Hx Hb. list_facts Hl. unfold refines. simpl.
  destruct (rep_split _ _ _ _ _ HR Hl Hb) as (ys & zs & Ha & Heq & Hy & _).
  rewrite Heq, insert_before_split by done. rewrite Heq, Hk in Hok.
  apply (refines_add HR); [done..| |].
  - intros Hbusy. pose proof (ptr_of_item HR x Hx).
    destruct (rep_in_list HR l _ b Ha) as [? _]; [clear; set_solver|].
    unfold Cpl_Container_DList_insertBefore. c_steps. apply (busy_mark HR); [done..|]. by c_steps.
  - intros. rewrite Heq, Hk. by apply dlist_insertBefore_local.
Qed.

Lemma refines_insertAfter l b x :
  l ∈ dom a → k l = true → x ∈ dom (items h) → b ∈ contents a l →
  refines k h a (OInsertAfter l b x).
Proof.
  intros Hl Hk Hx Hb. list_facts Hl. unfold refines. simpl.
  destruct (rep_split _ _ _ _ _ HR Hl Hb) as (ys & zs & Ha & Heq & Hy & _).
  rewrite Heq, insert_after_split by done. rewrite Heq, Hk in Hok.
  apply (refines_add HR); [done..| |].
  - intros Hbusy. pose proof (ptr_of_item HR x Hx).
    destruct (rep_in_list HR l _ b Ha) as [? _]; [clear; set_solver|].
    unfold Cpl_Container_DList_insertAfter. c_steps. apply (busy_mark HR); [done..|]. by c_steps.
  - intros. rewrite Heq, Hk. by apply dlist_insertAfter_local.
Qed.

Lemma refines_OGet l : l ∈ dom a → refines k h a (OGet (k l) l).
Proof.
  intros Hl. list_facts Hl. unfold refines. simpl. apply (refines_get HR); [done|].
  destruct (k l); by apply impl_get.
Qed.

Lemma refines_OGetLast l : l ∈ dom a → refines k h a (OGetLast (k l) l).
Proof.
  intros Hl. list_facts Hl. unfold refines. simpl. apply (refines_get HR); [done|].
  destruct (k l); by apply impl_getLast.
Qed.

Lemma refines_ORemove l x : l ∈ dom a → x ∈ dom (items h) → refines k h a (ORemove (k l) l x).
Proof.
  intros Hl Hx. list_facts Hl. apply (refines_remove HR); [done..| |].
  - intros it Hit Hc. pose proof (ptr_of_item HR x Hx).
    destruct (k l); [unfold Cpl_Container_DList_remove|unfold Cpl_Container_SList_remove]; c_steps;
      (eapply wp_isInContainer; [done..|]); rewrite (proj2 (Z.eqb_neq _ _)) by done; by c_steps.
  - intros ys zs Heq. rewrite Heq in Hok. destruct (k l); by apply impl_remove.
Qed.

Lemma refines_isInList l x : l ∈ dom a → x ∈ dom (items h) → refines k h a (OIsInList (k l) l x).
Proof.
  intros Hl Hx. list_facts Hl. pose proof (ptr_of_item HR x Hx).
  pose proof Hx as [it Hit]%elem_of_dom.
  assert ((containerPtr it =? l) = bool_decide (x ∈ contents a l)) as Hb.
  { apply eq_true_iff_eq. rewrite Z.eqb_eq, bool_decide_eq_true.
    symmetry. apply (rep_contained HR); [by apply dom_contents|done]. }
  unfold refines, run_op, as_bool. apply wp_bind.
  destruct (k l); [unfold Cpl_Container_DList_isInList|unfold Cpl_Container_SList_isInList]; c_steps;
    (eapply wp_isInContainer; [done..|]); c_steps; by rewrite Hb.
Qed.

Lemma refines_clear l : l ∈ dom a → refines k h a (OClear (k l) l).
Proof.
  intros Hl. list_facts Hl. pose proof (dom_contents l Hl) as Ha.
  pose proof (rep_length _ _ _ _ _ HR Ha). unfold refines, run_op, as_unit. apply wp_bind.
  remember (k l) as d eqn:Hk.
  destruct d; [unfold Cpl_Container_DList_clear|unfold Cpl_Container_SList_clear]; c_steps;
    (eapply wp_mono; [by eapply client_clear_loop|]); intros _ h' [??]; by c_steps.
Qed.

(** Moving a list: the source is emptied into the cleared destination. *)
Lemma refines_move_loop {d put putFirst get getLast remove}
    `{!ListImpl d put putFirst get getLast remove} dst src h' :
  dst ∈ dom a → src ∈ dom a → k dst = d → k src = d →
  Rep k h' (<[dst:=[]]> a) → same_dom h h' →
  wp (move_loop get put (loop_fuel h') dst src) (λ _ h'',
    Rep k h'' (spec_op (OMove d dst src) a).1 ∧ same_dom h h'') h'.
Proof.
  intros Hd Hs Hkd Hks HR' Hsd. simpl. destruct (Z.eqb_spec dst src) as [->|Hne].
  - assert (loop_fuel h' = S (size (items h'))) as -> by done.
    cbn [move_loop]. apply wp_bind.
    eapply wp_mono; [eapply (client_get k h' _ src []); [done|by rewrite lookup_insert_eq|done]|].
    intros r h'' (-> & HR'' & Hsd'). simpl. c_steps. split; [done|by eapply same_dom_trans].
  - assert (<[dst:=[]]> a !! src = Some (contents a src)) as Hsrc.
    { rewrite lookup_insert_ne by done. by apply dom_contents. }
    eapply wp_mono.
    { eapply (client_move_loop k _ _ h' _ [] dst src); [done|done|by rewrite lookup_insert_eq|done..|].
      by eapply rep_length. }
    intros _ h'' [HR'' Hsd']. split; [|by eapply same_dom_trans].
    rewrite (insert_insert_ne _ src dst), insert_insert_eq in HR'' by done. done.
Qed.

Lemma refines_move dst src :
  dst ∈ dom a → src ∈ dom a → k dst = k src → refines k h a (OMove (k src) dst src).
Proof.
  intros Hd Hs Hk. pose proof (ptr_of_list HR dst Hd). pose proof (ptr_of_list HR src Hs).
  pose proof (dom_contents dst Hd) as Ha. pose proof (rep_length _ _ _ _ _ HR Ha).
  unfold refines, run_op, as_unit. apply wp_bind. remember (k src) as d eqn:Hks.
  destruct d; [unfold Cpl_Container_DList_move, Cpl_Container_DList_clear
              |unfold Cpl_Container_SList_move, Cpl_Container_SList_clear]; c_steps;
    (eapply wp_mono; [by eapply client_clear_loop|]); intros _ h' [HR' Hsd]; c_steps;
    (eapply wp_mono; [by eapply refines_move_loop|]); intros _ h'' [HR'' Hsd']; by c_steps.
Qed.

Lemma refines_peekHead l : l ∈ dom a → refines k h a (OPeekHead (k l) l).
Proof.
  intros Hl. list_facts Hl. destruct Hok as [Hhd _ _]. apply refines_read; [done|].
  destruct (k l); [unfold Cpl_Container_DList_peekHead|unfold Cpl_Container_SList_peekHead]; by c_steps.
Qed.

Lemma refines_peekTail l : l ∈ dom a → refines k h a (OPeekTail (k l) l).
Proof.
  intros Hl. list_facts Hl. destruct Hok as [Hhd _ _]. apply refines_read; [done|].
  destruct (k l); [unfold Cpl_Container_DList_peekTail|unfold Cpl_Container_SList_peekTail]; by c_steps.
Qed.

Lemma refines_next l x : l ∈ dom a → x ∈ contents a l → refines k h a (ONext (k l) l x).
Proof.
  intros Hl Hx. list_facts Hl. unfold refines. simpl.
  destruct (rep_split _ _ _ _ _ HR Hl Hx) as (ys & zs & Ha & Heq & Hy & _).
  rewrite Heq, succ_of_split by done. rewrite Heq in Hok.
  destruct (local_lookup _ _ _ _ _ _ Hok Hnull) as (it & Hit & _ & Hn & _ & Hxn & _).
  apply refines_read; [done|].
  destruct (k l); [unfold Cpl_Container_DList_next|unfold Cpl_Container_SList_next]; by c_steps.
Qed.

Lemma refines_prev l x : l ∈ dom a → k l = true → x ∈ contents a l → refines k h a (OPrev l x).
Proof.
  intros Hl Hk Hx. list_facts Hl. unfold refines. simpl.
  destruct (rep_split _ _ _ _ _ HR Hl Hx) as (ys & zs & Ha & Heq & Hy & _).
  rewrite Heq, pred_of_split by done. rewrite Heq, Hk in Hok.
  destruct (local_lookup _ _ _ _ _ _ Hok Hnull) as (it & Hit & _ & _ & Hp & Hxn & _).
  apply refines_read; [done|]. unfold Cpl_Container_DList_prev. c_steps. by rewrite Hp.
Qed.

Lemma refines_op o : op_ok k (dom (items h)) (dom (lists h)) o a → refines k h a o.
Proof.
  destruct o; simpl; intros; destruct_and?; subst.
  - by apply refines_init.
  - by apply refines_put.
  - by apply refines_putFirst.
  - by apply refines_OGet.
  - by apply refines_OGetLast.
  - by apply refines_ORemove.
  - by apply refines_insertBefore.
  - by apply refines_insertAfter.
  - by apply refines_clear.
  - replace (k dst) with (k src) by done. by apply refines_move.
  - by apply refines_isInList.
  - by apply refines_peekHead.
  - by apply refines_peekTail.
  - by apply refines_next.
  - by apply refines_prev.
Qed.
End op_lemmas.

(** ** Programs: sequences of operations *)

Fixpoint run_ops (os : list op) : M (list res) :=
  match os with
  | [] => ret []
  | o :: os => r ← run_op o; rs ← run_ops os; ret (r :: rs)
  end.

Fixpoint spec_ops (os : list op) (a : abs) : abs * list res :=
  match os with
  | [] => (a, [])
  | o :: os =>
      let '(a', r) := spec_op o a in
      let '(a'', rs) := spec_ops os a' in (a'', r :: rs)
  end.

Fixpoint ops_ok (k : ptr → bool) (E L : gset ptr) (os : list op) (a : abs) : Prop :=
  match os with
  | [] => True
  | o :: os => op_ok k E L o a ∧ ops_ok k E L os (spec_op o a).1
  end.

#[global] Instance ops_ok_dec k E L os a : Decision (ops_ok k E L os a).
Proof. revert a. induction os as [|o os IH]; intros a; simpl; apply _. Defined.

(** The C lists refine the abstract lists: every single operation of
    cslist.c and cdlist.c that the caller uses within its contract runs to
    completion without a failed assertion or a bad dereference, returns what
    the abstract sequence operation returns, and leaves a heap that represents
    the abstract result - in particular it does not disturb any other list. *)
Theorem clist_refines (k : ptr → bool) (h : heap) (a : abs) (o : op) :
  Rep k h a → op_ok k (dom (items h)) (dom (lists h)) o a →
  ∃ r h', run_op o h = Some (r, h') ∧ r = (spec_op o a).2 ∧ Rep k h' (spec_op o a).1.
Proof.
  intros HR Hok. pose proof (refines_op HR o Hok) as Hwp.
  apply wp_run in Hwp as (r & h' & ? & ? & ? & ?). eauto.
Qed.

(** C1. Any sequence of such operations, on any number of lists of both kinds
    sharing one pool of items, returns the abstract results. *)
Theorem clist_program_refines (k : ptr → bool) (os : list op) (h : heap) (a : abs) :
  Rep k h a → ops_ok k (dom (items h)) (dom (lists h)) os a →
  ∃ rs h', run_ops os h = Some (rs, h') ∧ rs = (spec_ops os a).2 ∧ Rep k h' (spec_ops os a).1.
Proof.
  revert h a. induction os as [|o os IH]; intros h a HR; simpl.
  - intros _. by exists [], h.
  - intros [Ho Hos]. pose proof (refines_op HR o Ho) as Hwp.
    apply wp_run in Hwp as (r & h1 & Hrun & -> & HR1 & Hd1 & Hd2).
    rewrite <-Hd1, <-Hd2 in Hos. destruct (IH h1 _ HR1 Hos) as (rs & h2 & Hrun2 & -> & HR2).
    unfold bind. rewrite Hrun, Hrun2. simpl.
    destruct (spec_op o a) as [a' r'], (spec_ops os _) as [a'' rs']. simpl in *. eauto.
Qed.

(** [get] frees the item but leaves its link in place. *)
Lemma slist_get_keeps_next h l x y zs :
  list_ok false h l (x :: y :: zs) → l ≠ NULL → items h !! NULL = None →
  wp (Cpl_Container_SList_get l) (λ _ h', ∃ it, items h' !! x = Some it ∧ nextPtr it = y) h.
Proof.
  intros Hok Hl Hnull. pose proof (local_in_ptr _ _ _ _ Hok Hnull) as Hin.
  destruct Hok as [Hhd _ [(it & Hit & Hc & Hn & _) _]]. simpl in *.
  assert (x ≠ NULL) by (apply Hin; clear; set_solver). assert (y ≠ NULL) by (apply Hin; clear; set_solver).
  unfold Cpl_Container_SList_get. c_steps. rewrite Hn. c_steps.
  eapply wp_markAsFree; [done|lookup_heap|]. c_steps. eexists. split; [apply lookup_insert_eq|done].
Qed.

(** The traversal function does not check membership: after an item was
    taken from the front of a list of two or more, it is in no list, and yet
    Cpl_Container_SList_next still returns its former successor (the interface
    comment promises 0 for an item that is not in the list). *)
Theorem slist_next_stale (k : ptr → bool) (h : heap) (a : abs) l x y zs :
  Rep k h a → k l = false → a !! l = Some (x :: y :: zs) →
  ∃ h', (Cpl_Container_SList_get l;; Cpl_Container_SList_next x) h = Some (y, h') ∧
        y ≠ NULL ∧ listed (<[l:=y :: zs]> a) x = false ∧ Rep k h' (<[l:=y :: zs]> a).
Proof.
  intros HR Hk Hl. pose proof (rep_lists _ _ _ HR _ _ Hl) as Hok. rewrite Hk in Hok.
  pose proof (rep_list_ptr HR l _ Hl) as Hln.
  pose proof (slist_get_keeps_next h l x y zs Hok Hln (rep_null_item _ _ _ HR)) as Hnext.
  pose proof (client_get k h a l _ HR Hl Hk) as Hget.
  apply wp_run in Hnext as (r & h' & Hrun & it & Hit & Hn).
  unfold wp in Hget. rewrite Hrun in Hget. destruct Hget as (_ & HR' & _).
  destruct (rep_in_list HR l _ x Hl) as [Hx _]; [clear; set_solver|].
  destruct (rep_in_list HR l _ y Hl) as [Hy _]; [clear; set_solver|].
  exists h'. split_and!; [|done| |done].
  - unfold bind. rewrite Hrun. unfold Cpl_Container_SList_next, load_item, bind, assert_.
    rewrite is_ptr_true by done. simpl. rewrite Hit. simpl. by rewrite Hn.
  - apply not_true_is_false. intros (l' & xs & Hl' & Hxs)%listed_spec.
    destruct (decide (l' = l)) as [->|Hne].
    + rewrite lookup_insert_eq in Hl'. destruct Hok as [_ Hnd _]. apply NoDup_cons in Hnd. naive_solver.
    + rewrite lookup_insert_ne in Hl' by done. apply Hne.
      apply (rep_disjoint HR l' l xs (x :: y :: zs) x); [done..|]. clear; set_solver.
Qed.

(** ** A concrete heap: three free items, one list of each kind *)

Definition h0 : heap :=
  Heap (<[10:=Linkage 0 0 0]> (<[11:=Linkage 0 7 0]> (<[12:=Linkage 0 0 9]> ∅)))
       (<[1:=CListHead 0 0]> (<[2:=CListHead 0 0]> ∅)).
Definition a0 : abs := <[1:=[]]> (<[2:=[]]> ∅).
Definition k0 (l : ptr) : bool := l =? 2.

Lemma rep_h0 : Rep k0 h0 a0.
Proof.
  split; [done..| |].
  - intros l xs Hl. assert (xs = [] ∧ (l = 1 ∨ l = 2)) as [-> Hor].
    { unfold a0 in Hl. rewrite !lookup_insert_Some, lookup_empty in Hl. naive_solver. }
    destruct Hor as [->| ->]; (split; [done|constructor|done]).
  - intros x it Hx Hc. exfalso. apply Hc. unfold h0 in Hx. simpl in Hx.
    rewrite !lookup_insert_Some, lookup_empty in Hx. naive_solver.
Qed.

Definition prog0 : list op :=
  [OPut false 1 10; OPutFirst false 1 11; OPut true 2 11; ORemove false 1 10;
   OPut true 2 10; OInsertBefore 2 10 12; OGetLast true 2; OMove false 1 1; OPeekHead true 2].

Lemma clist_refines_witness :
  ∃ r h', run_op (OPut true 2 11) h0 = Some (r, h') ∧ r = RBool true ∧ Rep k0 h' (<[2:=[11]]> a0).
Proof.
  apply (clist_refines k0 h0 a0 (OPut true 2 11)); [apply rep_h0|].
  apply (bool_decide_unpack _). vm_compute. reflexivity.
Defined.

Lemma clist_program_refines_witness :
  ∃ rs h', run_ops prog0 h0 = Some (rs, h') ∧
    rs = [RBool true; RBool true; RBool false; RBool true; RBool true; RBool true;
          RPtr 10; RUnit; RPtr 12] ∧ Rep k0 h' (spec_ops prog0 a0).1.
Proof.
  apply (clist_program_refines k0 prog0 h0 a0); [apply rep_h0|].
  apply (bool_decide_unpack _). vm_compute. reflexivity.
Defined.

(** The heap after two puts on the singly linked list. *)
Definition h1 : heap :=
  Heap (<[10:=Linkage 1 11 0]> (<[11:=Linkage 1 0 0]> (<[12:=Linkage 0 0 9]> ∅)))
       (<[1:=CListHead 10 11]> (<[2:=CListHead 0 0]> ∅)).
Definition a1 : abs := <[1:=[10; 11]]> (<[2:=[]]> ∅).

Lemma rep_h1 : Rep k0 h1 a1.
Proof.
  split; [done..| |].
  - intros l xs Hl. assert ((l = 1 ∧ xs = [10; 11]) ∨ (l = 2 ∧ xs = [])) as Hor.
    { unfold a1 in Hl. rewrite !lookup_insert_Some, lookup_empty in Hl. naive_solver. }
    destruct Hor as [[-> ->]|[-> ->]]; (split; [done|apply (bool_decide_unpack _); reflexivity|]).
    + simpl. split_and!; [by eexists..|done].
    + done.
  - intros x it Hx Hc. unfold h1 in Hx. simpl in Hx.
    rewrite !lookup_insert_Some, lookup_empty in Hx.
    destruct Hx as [[<- <-]|(_ & [[<- <-]|(_ & [[<- <-]|(_ & Hx)])])]; try done;
      (exists [10; 11]; split; [done|clear; set_solver]).
Qed.

Lemma slist_next_stale_witness :
  ∃ h', (Cpl_Container_SList_get 1;; Cpl_Container_SList_next 10) h1 = Some (11, h') ∧
        11 ≠ NULL ∧ listed (<[1:=[11]]> a1) 10 = false ∧ Rep k0 h' (<[1:=[11]]> a1).
Proof. apply (slist_next_stale k0 h1 a1 1 10 11 []); [apply rep_h1|reflexivity|reflexivity]. Defined.
