(* ===== verification/AvlTree.v ===== *)
(** * The AVL tree of the container library

    Models src/src/Cpl/Container AvlTree_.cpp and AvlTree_.h, with MapItem.h, the
    container mark of Item.cpp and the keys of Key.h and Key.cpp.  Items are
    linked in place: a node is an item with pointers to its parent and to its
    children, the links of Item.h reused as the right and the left child.  The
    tree object is its root node, whose left child is the top of the tree. *)

From Stdlib Require Import ZArith Lia.
From S2P Require Import Prelude.
Local Open Scope Z_scope.
Local Open Scope pim_scope.

(** ** Keys *)

(** Cpl::Container::Key: the virtual method [compareKey], and what it promises:
    the sign of an [int] orders the keys. *)
Class Key (K : Type) := compareKey : K → K → Z.

Class KeyOrder (K : Type) `{!Key K} := {
  compareKey_refl (a : K) : compareKey a a = 0;
  compareKey_flip (a b : K) : Z.sgn (compareKey a b) = - Z.sgn (compareKey b a);
  compareKey_trans (a b c : K) :
    compareKey a b < 0 → compareKey b c < 0 → compareKey a c < 0;
  compareKey_eq (a b c : K) :
    compareKey a b = 0 → Z.sgn (compareKey a c) = Z.sgn (compareKey b c)
}.

(** The conversion of an [int] to [int8_t]. *)
Definition int8 (z : Z) : Z := (z + 128) mod 256 - 128.

(** What [find] needs besides: the result of a comparison fits an [int8_t]. *)
Class KeyInt8 (K : Type) `{!Key K} :=
  compareKey_int8 (a b : K) : -128 <= compareKey a b < 128.

(** KeyPlainType<DATATYPE>::compareKey on two keys of the same type. *)
Definition KeyPlainType_compareKey (mine other : Z) : Z :=
  if mine <? other then -1 else if other <? mine then 1 else 0.

(** KeyStringBuffer::compare for two strings that are not null: [strncmp] of the
    common length, then the difference of the lengths.  [strncmp] is that of the
    C library, of which the sign of the result is specified. *)
Section string_keys.
Variable strncmp : list Z → list Z → nat → Z.

Definition KeyStringBuffer_compare (mine other : list Z) : Z :=
  let myLen := length mine in
  let otherLen := length other in
  let cmpLen := if (Nat.ltb otherLen myLen) then otherLen else myLen in
  let comparision := strncmp mine other cmpLen in
  if (comparision =? 0) && negb (Nat.eqb myLen otherLen)
  then Z.of_nat myLen - Z.of_nat otherLen
  else comparision.
End string_keys.

(** ** Items *)

Abbreviation loc := positive (only parsing).
Abbreviation ptr := (option positive) (only parsing).

(** MapItem::Balance_T *)
Inductive Balance_T := eLEFT_ | eEVEN_ | eRIGHT_.

#[global] Instance Balance_T_eq_dec : EqDecision Balance_T.
Proof. solve_decision. Defined.

(** MapItem, with the fields of Item and ExtendedItem. *)
Record MapItem := mkMapItem {
  m_nextPtr_ : ptr;
  m_inListPtr_ : ptr;
  m_prevPtr_ : ptr;
  m_parentPtr_ : ptr;
  m_is_NOT_root_ : bool;
  m_balance_ : Balance_T
}.

#[global] Instance MapItem_eq_dec : EqDecision MapItem.
Proof. solve_decision. Defined.

Abbreviation mem := (gmap positive MapItem) (only parsing).
Abbreviation M := (ST (gmap positive MapItem)).

Definition is_null (p : ptr) : bool := match p with Some _ => false | None => true end.

Definition load (p : ptr) : M MapItem :=
  x ← lift_opt p; h ← get_st; lift_opt (h !! x).

Definition update (p : ptr) (f : MapItem → MapItem) : M unit :=
  x ← lift_opt p; i ← load p; modify (<[x := f i]>).

Definition with_next (n : ptr) (i : MapItem) :=
  mkMapItem n (m_inListPtr_ i) (m_prevPtr_ i) (m_parentPtr_ i) (m_is_NOT_root_ i) (m_balance_ i).
Definition with_inList (c : ptr) (i : MapItem) :=
  mkMapItem (m_nextPtr_ i) c (m_prevPtr_ i) (m_parentPtr_ i) (m_is_NOT_root_ i) (m_balance_ i).
Definition with_prev (n : ptr) (i : MapItem) :=
  mkMapItem (m_nextPtr_ i) (m_inListPtr_ i) n (m_parentPtr_ i) (m_is_NOT_root_ i) (m_balance_ i).
Definition with_parent (n : ptr) (i : MapItem) :=
  mkMapItem (m_nextPtr_ i) (m_inListPtr_ i) (m_prevPtr_ i) n (m_is_NOT_root_ i) (m_balance_ i).
Definition with_NOT_root (b : bool) (i : MapItem) :=
  mkMapItem (m_nextPtr_ i) (m_inListPtr_ i) (m_prevPtr_ i) (m_parentPtr_ i) b (m_balance_ i).
Definition with_balance (b : Balance_T) (i : MapItem) :=
  mkMapItem (m_nextPtr_ i) (m_inListPtr_ i) (m_prevPtr_ i) (m_parentPtr_ i) (m_is_NOT_root_ i) b.

(** MapItem::initialize *)
Definition initialize (node parent : ptr) : M unit :=
  update node (λ i, mkMapItem None (m_inListPtr_ i) None parent true eEVEN_).

(** MapItem::MapItem(): storage becomes an item that is in no container. *)
Definition MapItem_ctor (x : loc) : M unit :=
  modify (<[x := mkMapItem None None None None true eEVEN_]>).

Definition getParent (p : ptr) : M ptr := i ← load p; ret (m_parentPtr_ i).
Definition setParent (p n : ptr) : M unit := update p (with_parent n).
Definition getLeft (p : ptr) : M ptr := i ← load p; ret (m_prevPtr_ i).
Definition setLeft (p n : ptr) : M unit := update p (with_prev n).
Definition getRight (p : ptr) : M ptr := i ← load p; ret (m_nextPtr_ i).
Definition setRight (p n : ptr) : M unit := update p (with_next n).
Definition getBalance (p : ptr) : M Balance_T := i ← load p; ret (m_balance_ i).
Definition setBalance (p : ptr) (b : Balance_T) : M unit := update p (with_balance b).
Definition is_NOT_root (p : ptr) : M bool := i ← load p; ret (m_is_NOT_root_ i).

(** Item::insert_: inserting an item that is in a container is a fatal error. *)
Definition insert_ (item newContainerPtr : ptr) : M unit :=
  i ← load item;
  if is_null (m_inListPtr_ i) then update item (with_inList newContainerPtr) else undefined.

(** Item::isInContainer_ *)
Definition isInContainer_ (item containerPtr : ptr) : M bool :=
  i ← load item; ret (bool_decide (m_inListPtr_ i = containerPtr)).

(** Item::remove_ *)
Definition remove_ (itemPtr : ptr) : M unit :=
  if is_null itemPtr then ret tt else update itemPtr (with_inList None).

(** AvlTree_::AvlTree_(): the root node is the tree object itself. *)
Definition AvlTree_ctor (this : loc) : M unit :=
  MapItem_ctor this;; update (Some this) (with_NOT_root false).

(** No walk visits a node twice, so there are no more steps than items. *)
Definition walk_fuel : M nat := gets (λ h, S (size h)).

(** ** Rotations *)

Definition rotateLeft (nodePtr : ptr) : M ptr :=
  tempPtr ← getRight nodePtr;
  tl ← getLeft tempPtr;
  setRight nodePtr tl;;
  setLeft tempPtr nodePtr;;
  parent ← getParent nodePtr;
  pl ← getLeft parent;
  (if bool_decide (pl = nodePtr) then setLeft parent tempPtr else setRight parent tempPtr);;
  nr ← getRight nodePtr;
  (if is_null nr then ret tt else setParent nr nodePtr);;
  parent ← getParent nodePtr;
  setParent tempPtr parent;;
  setParent nodePtr tempPtr;;
  ret tempPtr.

Definition rotateRight (nodePtr : ptr) : M ptr :=
  tempPtr ← getLeft nodePtr;
  tr ← getRight tempPtr;
  setLeft nodePtr tr;;
  setRight tempPtr nodePtr;;
  parent ← getParent nodePtr;
  pr ← getRight parent;
  (if bool_decide (pr = nodePtr) then setRight parent tempPtr else setLeft parent tempPtr);;
  nl ← getLeft nodePtr;
  (if is_null nl then ret tt else setParent nl nodePtr);;
  parent ← getParent nodePtr;
  setParent tempPtr parent;;
  setParent nodePtr tempPtr;;
  ret tempPtr.

(** ** Rebalancing after an insertion *)

Definition grewLeft (curPtr : ptr) : M bool :=
  childPtr ← getLeft curPtr;
  cb ← getBalance childPtr;
  match cb with
  | eLEFT_ =>
    setBalance curPtr eEVEN_;;
    setBalance childPtr eEVEN_;;
    rotateRight curPtr;;
    ret false
  | eEVEN_ => ret true
  | eRIGHT_ =>
    grandChildPtr ← getRight childPtr;
    gb ← getBalance grandChildPtr;
    (match gb with
     | eLEFT_ => setBalance curPtr eRIGHT_;; setBalance childPtr eEVEN_
     | eEVEN_ => setBalance curPtr eEVEN_;; setBalance childPtr eEVEN_
     | eRIGHT_ => setBalance curPtr eEVEN_;; setBalance childPtr eLEFT_
     end);;
    setBalance grandChildPtr eEVEN_;;
    newRootPtr ← rotateLeft childPtr;
    setLeft curPtr newRootPtr;;
    setParent newRootPtr curPtr;;
    rotateRight curPtr;;
    ret false
  end.

Definition grewRight (curPtr : ptr) : M bool :=
  childPtr ← getRight curPtr;
  cb ← getBalance childPtr;
  match cb with
  | eLEFT_ =>
    grandChildPtr ← getLeft childPtr;
    gb ← getBalance grandChildPtr;
    (match gb with
     | eLEFT_ => setBalance curPtr eEVEN_;; setBalance childPtr eRIGHT_
     | eEVEN_ => setBalance curPtr eEVEN_;; setBalance childPtr eEVEN_
     | eRIGHT_ => setBalance curPtr eLEFT_;; setBalance childPtr eEVEN_
     end);;
    setBalance grandChildPtr eEVEN_;;
    newRootPtr ← rotateRight childPtr;
    setRight curPtr newRootPtr;;
    setParent newRootPtr curPtr;;
    rotateLeft curPtr;;
    ret false
  | eEVEN_ => ret true
  | eRIGHT_ =>
    setBalance curPtr eEVEN_;;
    setBalance childPtr eEVEN_;;
    rotateLeft curPtr;;
    ret false
  end.

(** ** Rebalancing after a removal *)

Definition rightShorter (parentPtr : ptr) : M bool :=
  leftPtr ← getLeft parentPtr;
  lb ← getBalance leftPtr;
  match lb with
  | eLEFT_ =>
    rotateRight parentPtr;;
    setBalance parentPtr eEVEN_;;
    setBalance leftPtr eEVEN_;;
    ret true
  | eEVEN_ =>
    rotateRight parentPtr;;
    setBalance parentPtr eLEFT_;;
    setBalance leftPtr eRIGHT_;;
    ret false
  | eRIGHT_ =>
    grandChildPtr ← getRight leftPtr;
    gb ← getBalance grandChildPtr;
    (match gb with
     | eLEFT_ => setBalance parentPtr eRIGHT_;; setBalance leftPtr eEVEN_
     | eEVEN_ => setBalance parentPtr eEVEN_;; setBalance leftPtr eEVEN_
     | eRIGHT_ => setBalance parentPtr eEVEN_;; setBalance leftPtr eLEFT_
     end);;
    setBalance grandChildPtr eEVEN_;;
    rotateLeft leftPtr;;
    rotateRight parentPtr;;
    ret true
  end.

Definition leftShorter (parentPtr : ptr) : M bool :=
  right ← getRight parentPtr;
  rb ← getBalance right;
  match rb with
  | eRIGHT_ =>
    rotateLeft parentPtr;;
    setBalance parentPtr eEVEN_;;
    setBalance right eEVEN_;;
    ret true
  | eEVEN_ =>
    rotateLeft parentPtr;;
    setBalance parentPtr eRIGHT_;;
    setBalance right eLEFT_;;
    ret false
  | eLEFT_ =>
    grandChildPtr ← getLeft right;
    gb ← getBalance grandChildPtr;
    (match gb with
     | eRIGHT_ => setBalance parentPtr eLEFT_;; setBalance right eEVEN_
     | eEVEN_ => setBalance parentPtr eEVEN_;; setBalance right eEVEN_
     | eLEFT_ => setBalance parentPtr eEVEN_;; setBalance right eRIGHT_
     end);;
    setBalance grandChildPtr eEVEN_;;
    rotateRight right;;
    rotateLeft parentPtr;;
    ret true
  end.

(** The walk down the right spine that [exchangeWithPrev] and [last] share. *)
Fixpoint rightmost (fuel : nat) (nodePtr : ptr) (moved : bool) : M (ptr * bool) :=
  match fuel with
  | O => undefined
  | S fuel =>
    r ← getRight nodePtr;
    if is_null r then ret (nodePtr, moved) else rightmost fuel r true
  end.

Fixpoint leftmost (fuel : nat) (nodePtr : ptr) : M ptr :=
  match fuel with
  | O => undefined
  | S fuel =>
    l ← getLeft nodePtr;
    if is_null l then ret nodePtr else leftmost fuel l
  end.

(** Swaps a node with its in-order predecessor. *)
Definition exchangeWithPrev (nodePtr : ptr) : M unit :=
  leftPtr ← getLeft nodePtr;
  rightPtr ← getRight nodePtr;
  parentPtr ← getParent nodePtr;
  ppl ← getLeft parentPtr;
  let node_is_left := bool_decide (ppl = nodePtr) in
  balance ← getBalance nodePtr;
  fuel ← walk_fuel;
  ' (prevPtr, moved) ← rightmost fuel leftPtr false;
  let prev_is_child := negb moved in
  let prev_is_left := negb moved in
  pl ← getLeft prevPtr;
  setLeft nodePtr pl;;
  pr ← getRight prevPtr;
  setRight nodePtr pr;;
  pb ← getBalance prevPtr;
  setBalance nodePtr pb;;
  (if negb prev_is_child
   then pp ← getParent prevPtr; setParent nodePtr pp
   else setParent nodePtr prevPtr);;
  (if prev_is_child then setLeft prevPtr nodePtr else setLeft prevPtr leftPtr);;
  setRight prevPtr rightPtr;;
  setParent prevPtr parentPtr;;
  setBalance prevPtr balance;;
  np ← getParent nodePtr;
  (if prev_is_left then setLeft np nodePtr else setRight np nodePtr);;
  pp ← getParent prevPtr;
  (if node_is_left then setLeft pp prevPtr else setRight pp prevPtr);;
  pl ← getLeft prevPtr;
  setParent pl prevPtr;;
  pr ← getRight prevPtr;
  (if is_null pr then ret tt else setParent pr prevPtr);;
  nl ← getLeft nodePtr;
  (if is_null nl then ret tt else setParent nl nodePtr);;
  nr ← getRight nodePtr;
  if is_null nr then ret tt else setParent nr nodePtr.

(** ** Operations of the tree *)

(** OPTION_CPL_CONTAINER_AVLTREE_MAX_TREE_DEPTH *)
Definition MAX_TREE_DEPTH : nat := 32.

Section tree.
Context {K : Type} `{!Key K}.
(** The key an item of the client returns, which does not change while the item
    is in a tree. *)
Variable getKey : loc → K.

Definition key_of (p : ptr) : M K := x ← lift_opt p; load p;; ret (getKey x).

Fixpoint find_loop (fuel : nat) (nodePtr : ptr) (key : K) : M ptr :=
  match fuel with
  | O => undefined
  | S fuel =>
    if is_null nodePtr then ret None
    else
      k ← key_of nodePtr;
      let comparison := int8 (compareKey k key) in
      if 0 <? comparison then l ← getLeft nodePtr; find_loop fuel l key
      else if comparison =? 0 then ret nodePtr
      else r ← getRight nodePtr; find_loop fuel r key
  end.

Definition find (this : loc) (key : K) : M ptr :=
  top ← getLeft (Some this);
  fuel ← walk_fuel;
  find_loop fuel top key.

(** The first loop of [insert]: down to the parent of the new node, [None] when
    the key is there already.  The comparisons are in order of depth; storing one
    past the array is undefined. *)
Fixpoint insert_descend (fuel : nat) (curPtr newNode : ptr) (comparisons : list Z)
    : M (option (ptr * list Z)) :=
  match fuel with
  | O => undefined
  | S fuel =>
    ck ← key_of curPtr;
    nk ← key_of newNode;
    let result := compareKey ck nk in
    let comparison := if result <? 0 then -1 else if 0 <? result then 1 else 0 in
    assert_ (Nat.ltb (length comparisons) MAX_TREE_DEPTH);;
    let comparisons := comparisons ++ [comparison] in
    if 0 <? comparison then
      l ← getLeft curPtr;
      if is_null l then setLeft curPtr newNode;; ret (Some (curPtr, comparisons))
      else insert_descend fuel l newNode comparisons
    else if comparison <? 0 then
      r ← getRight curPtr;
      if is_null r then setRight curPtr newNode;; ret (Some (curPtr, comparisons))
      else insert_descend fuel r newNode comparisons
    else ret None
  end.

(** The second loop of [insert]: up again while the subtree has grown. *)
Fixpoint insert_retrace (depth : nat) (curPtr : ptr) (comparisons : list Z) (taller : bool)
    : M unit :=
  match depth with
  | O => undefined
  | S depth =>
    nxtPtr ← getParent curPtr;
    comparison ← lift_opt (comparisons !! depth);
    b ← getBalance curPtr;
    taller ← (if 0 <? comparison then
                match b with
                | eLEFT_ => grewLeft curPtr
                | eEVEN_ => setBalance curPtr eLEFT_;; ret true
                | eRIGHT_ => setBalance curPtr eEVEN_;; ret false
                end
              else if comparison <? 0 then
                match b with
                | eLEFT_ => setBalance curPtr eEVEN_;; ret false
                | eEVEN_ => setBalance curPtr eRIGHT_;; ret true
                | eRIGHT_ => grewRight curPtr
                end
              else ret taller);
    if Nat.ltb 0 depth && taller then insert_retrace depth nxtPtr comparisons taller else ret tt
  end.

Definition insert (this : loc) (newNode : loc) : M bool :=
  curPtr ← getLeft (Some this);
  if is_null curPtr then
    initialize (Some newNode) (Some this);;
    setLeft (Some this) (Some newNode);;
    insert_ (Some newNode) (Some this);;
    ret true
  else
    fuel ← walk_fuel;
    o ← insert_descend fuel curPtr (Some newNode) [];
    match o with
    | None => ret false
    | Some (curPtr, comparisons) =>
      initialize (Some newNode) curPtr;;
      insert_retrace (length comparisons) curPtr comparisons false;;
      insert_ (Some newNode) (Some this);;
      ret true
    end.

End tree.

(** The loop of [removeItem]: up while the subtree has become shorter. *)
Fixpoint remove_retrace (fuel : nat) (parentPtr : ptr) (is_left shorter : bool) : M unit :=
  match fuel with
  | O => undefined
  | S fuel =>
    nr ← (if shorter then is_NOT_root parentPtr else ret false);
    if nr : bool then
      nxtPtr ← getParent parentPtr;
      nl ← getLeft nxtPtr;
      let next_is_left := bool_decide (parentPtr = nl) in
      b ← getBalance parentPtr;
      shorter ← (if is_left then
                   match b with
                   | eLEFT_ => setBalance parentPtr eEVEN_;; ret true
                   | eEVEN_ => setBalance parentPtr eRIGHT_;; ret false
                   | eRIGHT_ => leftShorter parentPtr
                   end
                 else
                   match b with
                   | eLEFT_ => rightShorter parentPtr
                   | eEVEN_ => setBalance parentPtr eLEFT_;; ret false
                   | eRIGHT_ => setBalance parentPtr eEVEN_;; ret true
                   end);
      remove_retrace fuel nxtPtr next_is_left shorter
    else ret tt
  end.

Definition removeItem (this : loc) (node : loc) : M ptr :=
  c ← isInContainer_ (Some node) (Some this);
  if negb c then ret None
  else
    l ← getLeft (Some node);
    r ← getRight (Some node);
    (if negb (is_null l) && negb (is_null r) then exchangeWithPrev (Some node) else ret tt);;
    parentPtr ← getParent (Some node);
    l ← getLeft (Some node);
    r ← getRight (Some node);
    let childPtr := if negb (is_null l) then l else if negb (is_null r) then r else None in
    pl ← getLeft parentPtr;
    let is_left := bool_decide (Some node = pl) in
    (if is_left then setLeft parentPtr childPtr else setRight parentPtr childPtr);;
    (if is_null childPtr then ret tt else setParent childPtr parentPtr);;
    fuel ← walk_fuel;
    remove_retrace fuel parentPtr is_left true;;
    initialize (Some node) None;;
    remove_ (Some node);;
    ret (Some node).

Definition first (this : loc) : M ptr :=
  top ← getLeft (Some this);
  if is_null top then ret None
  else fuel ← walk_fuel; leftmost fuel top.

Definition last (this : loc) : M ptr :=
  top ← getLeft (Some this);
  if is_null top then ret None
  else fuel ← walk_fuel; ' (p, _) ← rightmost fuel top false; ret p.

(** The climbs of [next] and [previous]: up while the node is a right
    (respectively left) child. *)
Fixpoint climb (fuel : nat) (from_right : bool) (parentPtr : ptr) : M ptr :=
  match fuel with
  | O => undefined
  | S fuel =>
    nr ← is_NOT_root parentPtr;
    if nr : bool then
      gp ← getParent parentPtr;
      c ← (if from_right then getRight gp else getLeft gp);
      if bool_decide (c = parentPtr) then climb fuel from_right gp else ret parentPtr
    else ret parentPtr
  end.

Definition next (node : loc) : M ptr :=
  r ← getRight (Some node);
  if negb (is_null r) then fuel ← walk_fuel; leftmost fuel r
  else
    parent ← getParent (Some node);
    pl ← getLeft parent;
    if bool_decide (pl = Some node) then
      nr ← is_NOT_root parent;
      ret (if nr : bool then parent else None)
    else
      pr ← getRight parent;
      if bool_decide (pr = Some node) then
        fuel ← walk_fuel;
        parentPtr ← climb fuel true parent;
        gp ← getParent parentPtr;
        nr ← is_NOT_root gp;
        ret (if nr : bool then gp else None)
      else ret None.

Definition previous (node : loc) : M ptr :=
  l ← getLeft (Some node);
  if negb (is_null l) then fuel ← walk_fuel; ' (p, _) ← rightmost fuel l false; ret p
  else
    parent ← getParent (Some node);
    pr ← getRight parent;
    if bool_decide (pr = Some node) then ret parent
    else
      pl ← getLeft parent;
      if bool_decide (pl = Some node) then
        fuel ← walk_fuel;
        parentPtr ← climb fuel false parent;
        nr ← is_NOT_root parentPtr;
        if nr : bool then
          gp ← getParent parentPtr;
          nr ← is_NOT_root gp;
          ret (if nr : bool then gp else None)
        else ret None
      else ret None.
