(* ===== verification/AvlSpec.v ===== *)
(** * What the operations of the AVL tree do to the nodes

    A linked tree is described by a [tree] of addresses with their balance marks,
    the position of a node in it by a context, the path to the root.  The
    rotations, the exchange with the predecessor and the two retracing loops of
    AvlTree_.cpp are functions on such trees; they keep the in-order sequence
    and restore the balance. *)

From Stdlib Require Import ZArith Lia.
From S2P Require Import Prelude AvlTree.
Local Open Scope pim_scope.

(** ** Trees of addresses *)

Inductive tree :=
  | Lf
  | Nd (l : tree) (x : loc) (b : Balance_T) (r : tree).

Definition rt (t : tree) : ptr := match t with Lf => None | Nd _ x _ _ => Some x end.

Fixpoint inorder (t : tree) : list loc :=
  match t with Lf => [] | Nd l x _ r => inorder l ++ x :: inorder r end.

Inductive frame :=
  | FL (x : loc) (b : Balance_T) (r : tree)
  | FR (l : tree) (x : loc) (b : Balance_T).

(** The path from a hole to the root, the parent of the hole first. *)
Abbreviation ctx := (list frame).

Definition fill (f : frame) (t : tree) : tree :=
  match f with FL x b r => Nd t x b r | FR l x b => Nd l x b t end.

Fixpoint plug (c : ctx) (t : tree) : tree :=
  match c with [] => t | f :: c => plug c (fill f t) end.

Definition node_of (f : frame) : loc := match f with FL x _ _ => x | FR _ x _ => x end.

Fixpoint lefts (c : ctx) : list loc :=
  match c with [] => [] | FL _ _ _ :: c => lefts c | FR l x _ :: c => lefts c ++ inorder l ++ [x] end.

Fixpoint rights (c : ctx) : list loc :=
  match c with [] => [] | FL x _ r :: c => x :: inorder r ++ rights c | FR _ _ _ :: c => rights c end.

Lemma inorder_plug c t : inorder (plug c t) = lefts c ++ inorder t ++ rights c.
Proof.
  revert t. induction c as [|[x b r|l x b] c IH]; intros t; simpl; [by rewrite app_nil_r| |];
    rewrite IH; simpl; by rewrite <-?app_assoc.
Qed.

Lemma plug_app c1 c2 t : plug (c1 ++ c2) t = plug c2 (plug c1 t).
Proof. revert t. induction c1 as [|f c1 IH]; intros t; simpl; auto. Qed.

Lemma rt_ne x t : x ∉ inorder t → rt t ≠ Some x.
Proof. destruct t; simpl; set_solver. Qed.

(** ** Balance *)

Inductive avl : tree → nat → Prop :=
  | avl_Lf : avl Lf 0
  | avl_left l x r n : avl l (S n) → avl r n → avl (Nd l x eLEFT_ r) (S (S n))
  | avl_even l x r n : avl l n → avl r n → avl (Nd l x eEVEN_ r) (S n)
  | avl_right l x r n : avl l n → avl r (S n) → avl (Nd l x eRIGHT_ r) (S (S n)).

(** [avlc c n m]: a balanced tree of height [n] in the hole of [c] gives a
    balanced tree of height [m]. *)
Inductive avlc : ctx → nat → nat → Prop :=
  | avlc_nil n : avlc [] n n
  | avlc_FL_left x r c n m : avl r n → avlc c (S (S n)) m → avlc (FL x eLEFT_ r :: c) (S n) m
  | avlc_FL_even x r c n m : avl r n → avlc c (S n) m → avlc (FL x eEVEN_ r :: c) n m
  | avlc_FL_right x r c n m : avl r (S n) → avlc c (S (S n)) m → avlc (FL x eRIGHT_ r :: c) n m
  | avlc_FR_left l x c n m : avl l (S n) → avlc c (S (S n)) m → avlc (FR l x eLEFT_ :: c) n m
  | avlc_FR_even l x c n m : avl l n → avlc c (S n) m → avlc (FR l x eEVEN_ :: c) n m
  | avlc_FR_right l x c n m : avl l n → avlc c (S (S n)) m → avlc (FR l x eRIGHT_ :: c) (S n) m.

#[export] Hint Constructors avl avlc : pim.

Lemma avl_plug c t n m : avlc c n m → avl t n → avl (plug c t) m.
Proof. intros Hc. revert t. induction Hc; intros t Ht; simpl; auto with pim. Qed.

Lemma avl_unplug c t m : avl (plug c t) m → ∃ n, avl t n ∧ avlc c n m.
Proof.
  revert t. induction c as [|f c IH]; intros t Ht; simpl in *; [eauto with pim|].
  destruct (IH _ Ht) as (n & Hn & Hc).
  destruct f; simpl in Hn; inversion Hn; subst; eauto with pim.
Qed.

(** ** Trees in memory *)

Section memory.
(** The tree object; the container mark of each node; the memory outside. *)
Context (this : loc) (inl : loc → ptr) (g : gmap loc MapItem).
Implicit Types (h : gmap loc MapItem) (t T : tree) (c : ctx) (x y z : loc) (p hp : ptr).

Definition node l x b r p : MapItem := mkMapItem (rt r) (inl x) (rt l) p true b.

Fixpoint Rep h t p : Prop :=
  match t with
  | Lf => True
  | Nd l x b r => h !! x = Some (node l x b r p) ∧ Rep h l (Some x) ∧ Rep h r (Some x)
  end.

Definition root_item hp : MapItem := mkMapItem None None hp None false eEVEN_.

Definition par c : ptr := match c with [] => Some this | f :: _ => Some (node_of f) end.

Fixpoint RepC h c hp : Prop :=
  match c with
  | [] => h !! this = Some (root_item hp)
  | FL x b r :: c =>
    h !! x = Some (mkMapItem (rt r) (inl x) hp (par c) true b) ∧ Rep h r (Some x) ∧ RepC h c (Some x)
  | FR l x b :: c =>
    h !! x = Some (mkMapItem hp (inl x) (rt l) (par c) true b) ∧ Rep h l (Some x) ∧ RepC h c (Some x)
  end.

(** Memory [h] holds the tree [T], and is [g] elsewhere. *)
Definition Tree h T : Prop :=
  NoDup (this :: inorder T)
  ∧ h !! this = Some (root_item (rt T)) ∧ Rep h T (Some this)
  ∧ ∀ z, z ∉ this :: inorder T → h !! z = g !! z.

(** The same with the focus on a subtree. *)
Definition Focus h c t : Prop :=
  NoDup (this :: lefts c ++ inorder t ++ rights c)
  ∧ RepC h c (rt t) ∧ Rep h t (par c)
  ∧ ∀ z, z ∉ this :: lefts c ++ inorder t ++ rights c → h !! z = g !! z.

Lemma RepC_plug h c t :
  RepC h c (rt t) ∧ Rep h t (par c)
  ↔ h !! this = Some (root_item (rt (plug c t))) ∧ Rep h (plug c t) (Some this).
Proof.
  revert t. induction c as [|f c IH]; intros t; [done|]. simpl plug. rewrite <-IH.
  destruct f; simpl; unfold node; naive_solver.
Qed.

Lemma Tree_Focus h c t : Tree h (plug c t) ↔ Focus h c t.
Proof.
  unfold Tree, Focus. rewrite inorder_plug. pose proof (RepC_plug h c t). tauto.
Qed.

Lemma Rep_insert h t p x i : x ∉ inorder t → Rep h t p → Rep (<[x := i]> h) t p.
Proof.
  revert p. induction t as [|l IHl y b r IHr]; intros p; simpl; [done|].
  rewrite not_elem_of_app, not_elem_of_cons. intros (? & ? & ?) (? & ? & ?).
  rewrite lookup_insert_ne by done. auto.
Qed.

Lemma RepC_insert h c hp x i :
  x ≠ this → x ∉ lefts c → x ∉ rights c → RepC h c hp → RepC (<[x := i]> h) c hp.
Proof.
  intros Hx. revert hp. induction c as [|[y b r|l y b] c IH]; intros hp; simpl.
  - by rewrite lookup_insert_ne.
  - rewrite not_elem_of_cons, not_elem_of_app. intros ? (? & ? & ?) (? & ? & ?).
    rewrite lookup_insert_ne by done. auto using Rep_insert.
  - rewrite !not_elem_of_app, not_elem_of_cons. intros (? & ? & ? & ?) ? (? & ? & ?).
    rewrite lookup_insert_ne by done. auto using Rep_insert.
Qed.

Lemma Focus_node h c l x b r :
  Focus h c (Nd l x b r) → h !! x = Some (node l x b r (par c)).
Proof. intros (_ & _ & [? _] & _). done. Qed.

(** The nodes of a tree fit in the memory: walks have fuel enough. *)
Lemma Tree_size h T : Tree h T → length (inorder T) < size h.
Proof.
  intros (Hnd & Hroot & HR & _).
  assert (∀ t p, Rep h t p → ∀ x, x ∈ inorder t → is_Some (h !! x)) as Hin.
  { induction t as [|l IHl y b r IHr]; simpl; [set_solver|]. intros p (? & ? & ?) x.
    rewrite elem_of_app, elem_of_cons. naive_solver. }
  assert (list_to_set (this :: inorder T) ⊆ dom h) as Hsub%subseteq_size.
  { intros z. rewrite elem_of_list_to_set, elem_of_cons, elem_of_dom. naive_solver. }
  rewrite size_dom, size_list_to_set in Hsub by done. simpl in Hsub. lia.
Qed.
End memory.

(** ** Running the accessors *)

Section accessors.
Implicit Types (h : gmap loc MapItem) (x : loc) (i : MapItem).

Lemma wp_load h x i (Q : MapItem → gmap loc MapItem → Prop) :
  h !! x = Some i → Q i h → wp (load (Some x)) Q h.
Proof. intros Hx HQ. unfold load, wp, bind, get_st, lift_opt. simpl. by rewrite Hx. Qed.

Lemma wp_field {A} (f : MapItem → A) h x i (Q : A → gmap loc MapItem → Prop) :
  h !! x = Some i → Q (f i) h → wp (bind (load (Some x)) (λ i, ret (f i))) Q h.
Proof. intros Hx HQ. apply wp_bind. by eapply wp_load. Qed.

Lemma wp_update f h x i (Q : unit → gmap loc MapItem → Prop) :
  h !! x = Some i → Q tt (<[x := f i]> h) → wp (update (Some x) f) Q h.
Proof.
  intros Hx HQ. unfold update. apply wp_bind. simpl. apply wp_bind.
  eapply wp_load; [done|]. exact HQ.
Qed.
End accessors.

(** Lookups in a memory given by a chain of updates. *)
Ltac distinct := first [done | congruence | by apply not_eq_sym | apply rt_ne; done].
Ltac look :=
  first [ eassumption
        | rewrite lookup_insert_eq; reflexivity
        | rewrite lookup_insert_ne by distinct; look ].

(** One read of a straight-line program on nodes of known contents. *)
Ltac tree_read :=
  lazymatch goal with
  | |- wp (bind _ _) _ _ => apply wp_bind
  | |- wp (ret _) _ _ => apply wp_ret
  | |- wp (if bool_decide ?P then _ else _) _ _ =>
      first [rewrite (bool_decide_eq_true_2 P) by done
            | rewrite (bool_decide_eq_false_2 P) by distinct]
  | |- wp (if is_null (Some _) then _ else _) _ _ => cbn [is_null]
  | |- wp (if is_null None then _ else _) _ _ => cbn [is_null]
  | |- wp (getLeft _) _ _ => eapply (wp_field m_prevPtr_); [look|]
  | |- wp (getRight _) _ _ => eapply (wp_field m_nextPtr_); [look|]
  | |- wp (getParent _) _ _ => eapply (wp_field m_parentPtr_); [look|]
  | |- wp (getBalance _) _ _ => eapply (wp_field m_balance_); [look|]
  | |- wp (is_NOT_root _) _ _ => eapply (wp_field m_is_NOT_root_); [look|]
  end; cbn [with_prev with_next with_parent with_balance with_inList m_prevPtr_ m_nextPtr_
            m_parentPtr_ m_balance_ m_inListPtr_ m_is_NOT_root_ negb].

(** One access. *)
Ltac tree_step :=
  first
    [ tree_read
    | lazymatch goal with
      | |- wp (setLeft _ _) _ _ => eapply wp_update; [look|]
      | |- wp (setRight _ _) _ _ => eapply wp_update; [look|]
      | |- wp (setParent _ _) _ _ => eapply wp_update; [look|]
      | |- wp (setBalance _ _) _ _ => eapply wp_update; [look|]
      end; cbn [with_prev with_next with_parent with_balance with_inList
                m_prevPtr_ m_nextPtr_ m_parentPtr_ m_balance_ m_inListPtr_ m_is_NOT_root_] ].

(** Turns [NoDup] of a concatenation into facts on its single elements. *)
Ltac nodup_facts H :=
  let H' := fresh in
  pose proof H as H'; cbn [lefts rights inorder] in H';
  repeat first [rewrite <-app_assoc in H' | progress simpl app in H'];
  repeat rewrite <-Permutation_middle in H';
  repeat rewrite ?NoDup_cons, ?not_elem_of_cons, ?not_elem_of_app in H'; destruct_and? H'.

(** Right-associates concatenations. *)
Ltac list_norm := repeat first [rewrite <-app_assoc | progress simpl app].

(** Closes the description of a memory given by a chain of updates. *)
Ltac frames :=
  repeat first [ done | assumption
    | match goal with
      | |- _ ∧ _ => split
      | |- Rep _ (<[_ := _]> _) _ _ => apply Rep_insert; [done|]
      | |- RepC _ _ (<[_ := _]> _) _ _ => apply RepC_insert; [distinct|done|done|]
      | |- <[_ := _]> _ !! _ = Some _ => look
      end ].

Section rotations.
Context (this : loc) (inl : loc → ptr) (g : gmap loc MapItem).
Implicit Types (h : gmap loc MapItem).
Notation Focus := (Focus this inl g).

(** A memory change inside of a tree that keeps the in-order sequence. *)
Lemma Focus_rotate h h' c t t' :
  Focus h c t →
  (inorder t' ≡ₚ inorder t) →
  RepC this inl h' c (rt t') → Rep inl h' t' (par this c) →
  (∀ z, z ∉ this :: lefts c ++ inorder t ++ rights c → h' !! z = h !! z) →
  Focus h' c t'.
Proof.
  intros (Hnd & _ & _ & Hout) Hin HC HR Hsame. split; [|split; [done|split; [done|]]].
  - by rewrite Hin.
  - intros z. rewrite Hin. intros Hz. rewrite Hsame by done. by apply Hout.
Qed.

(** Applies the lemma to a memory given by a chain of updates. *)
Ltac refocus HF :=
  eapply Focus_rotate;
  [ exact HF
  | simpl; list_norm; done
  | simpl; unfold node, root_item; frames
  | simpl; unfold node; frames
  | let z := fresh "z" in let Hz := fresh "Hz" in
    intros z Hz; simpl in Hz;
    repeat rewrite ?not_elem_of_cons, ?not_elem_of_app in Hz; destruct_and? Hz;
    by rewrite !lookup_insert_ne by congruence ].

Lemma setBalance_spec h c l x b r b' (Q : unit → gmap loc MapItem → Prop) :
  Focus h c (Nd l x b r) →
  (∀ h', Focus h' c (Nd l x b' r) → Q tt h') →
  wp (setBalance (Some x) b') Q h.
Proof.
  intros HF HQ. pose proof HF as (Hnd & HC & (Hx & Hl & Hr) & Hout). nodup_facts Hnd.
  eapply wp_update; [look|]. apply HQ. refocus HF.
Qed.

Lemma rotateRight_spec h c a y by' b x bx d (Q : ptr → gmap loc MapItem → Prop) :
  Focus h c (Nd (Nd a y by' b) x bx d) →
  (∀ h', Focus h' c (Nd a y by' (Nd b x bx d)) → Q (Some y) h') →
  wp (rotateRight (Some x)) Q h.
Proof.
  intros HF HQ. pose proof HF as (Hnd & HC & (Hx & (Hy & Ha & Hb) & Hd) & Hout).
  unfold node in *. cbn [rt] in *. unfold rotateRight.
  destruct c as [|[q bq r|l q bq] c]; cbn [par node_of RepC] in *;
    destruct_and?; unfold root_item in *;
    destruct b as [|b1 z bz b2]; cbn [rt Rep] in *; destruct_and?; unfold node in *;
    nodup_facts Hnd;
    repeat tree_step; apply HQ; refocus HF.
Qed.

Lemma rotateLeft_spec h c a x bx b y by' d (Q : ptr → gmap loc MapItem → Prop) :
  Focus h c (Nd a x bx (Nd b y by' d)) →
  (∀ h', Focus h' c (Nd (Nd a x bx b) y by' d) → Q (Some y) h') →
  wp (rotateLeft (Some x)) Q h.
Proof.
  intros HF HQ. pose proof HF as (Hnd & HC & (Hx & Ha & (Hy & Hb & Hd)) & Hout).
  unfold node in *. cbn [rt] in *. unfold rotateLeft.
  destruct c as [|[q bq r|l q bq] c]; cbn [par node_of RepC] in *;
    destruct_and?; unfold root_item in *;
    destruct b as [|b1 z bz b2]; cbn [rt Rep] in *; destruct_and?; unfold node in *;
    nodup_facts Hnd;
    repeat tree_step; apply HQ; refocus HF.
Qed.

(** Moving the focus. *)
Lemma Focus_fill h c f t : Focus h (f :: c) t ↔ Focus h c (fill f t).
Proof. rewrite <-!Tree_Focus. done. Qed.

Lemma Focus_left h c l x b r : Focus h c (Nd l x b r) → Focus h (FL x b r :: c) l.
Proof. intros. by apply Focus_fill. Qed.

Lemma Focus_right h c l x b r : Focus h c (Nd l x b r) → Focus h (FR l x b :: c) r.
Proof. intros. by apply Focus_fill. Qed.

Lemma Focus_up_l h c l x b r : Focus h (FL x b r :: c) l → Focus h c (Nd l x b r).
Proof. intros ?%Focus_fill. done. Qed.

Lemma Focus_up_r h c l x b r : Focus h (FR l x b :: c) r → Focus h c (Nd l x b r).
Proof. intros ?%Focus_fill. done. Qed.

Lemma setBalance_left h c x b r l1 y b1 l2 b1' (Q : unit → gmap loc MapItem → Prop) :
  Focus h c (Nd (Nd l1 y b1 l2) x b r) →
  (∀ h', Focus h' c (Nd (Nd l1 y b1' l2) x b r) → Q tt h') →
  wp (setBalance (Some y) b1') Q h.
Proof.
  intros HF HQ. eapply setBalance_spec; [by apply Focus_left|].
  intros h' HF'. by apply HQ, Focus_up_l.
Qed.

Lemma setBalance_right h c x b l r1 y b1 r2 b1' (Q : unit → gmap loc MapItem → Prop) :
  Focus h c (Nd l x b (Nd r1 y b1 r2)) →
  (∀ h', Focus h' c (Nd l x b (Nd r1 y b1' r2)) → Q tt h') →
  wp (setBalance (Some y) b1') Q h.
Proof.
  intros HF HQ. eapply setBalance_spec; [by apply Focus_right|].
  intros h' HF'. by apply HQ, Focus_up_r.
Qed.

Lemma setBalance_left_right h c x b r l1 y b1 l2 z b2 l3 b2' (Q : unit → gmap loc MapItem → Prop) :
  Focus h c (Nd (Nd l1 y b1 (Nd l2 z b2 l3)) x b r) →
  (∀ h', Focus h' c (Nd (Nd l1 y b1 (Nd l2 z b2' l3)) x b r) → Q tt h') →
  wp (setBalance (Some z) b2') Q h.
Proof.
  intros HF HQ. eapply setBalance_right; [by apply Focus_left|].
  intros h' HF'. by apply HQ, Focus_up_l.
Qed.

Lemma setBalance_right_left h c x b l r1 y b1 r2 z b2 r3 b2' (Q : unit → gmap loc MapItem → Prop) :
  Focus h c (Nd l x b (Nd (Nd r1 z b2 r3) y b1 r2)) →
  (∀ h', Focus h' c (Nd l x b (Nd (Nd r1 z b2' r3) y b1 r2)) → Q tt h') →
  wp (setBalance (Some z) b2') Q h.
Proof.
  intros HF HQ. eapply setBalance_left; [by apply Focus_right|].
  intros h' HF'. by apply HQ, Focus_up_r.
Qed.

Lemma rotateLeft_left h c x b r l1 y b1 l2 z b2 l3 (Q : ptr → gmap loc MapItem → Prop) :
  Focus h c (Nd (Nd l1 y b1 (Nd l2 z b2 l3)) x b r) →
  (∀ h', Focus h' c (Nd (Nd (Nd l1 y b1 l2) z b2 l3) x b r) → Q (Some z) h') →
  wp (rotateLeft (Some y)) Q h.
Proof.
  intros HF HQ. eapply rotateLeft_spec; [by apply Focus_left|].
  intros h' HF'. by apply HQ, Focus_up_l.
Qed.

Lemma rotateRight_right h c x b l r1 y b1 r2 z b2 r3 (Q : ptr → gmap loc MapItem → Prop) :
  Focus h c (Nd l x b (Nd (Nd r1 z b2 r3) y b1 r2)) →
  (∀ h', Focus h' c (Nd l x b (Nd r1 z b2 (Nd r3 y b1 r2))) → Q (Some z) h') →
  wp (rotateRight (Some y)) Q h.
Proof.
  intros HF HQ. eapply rotateRight_spec; [by apply Focus_right|].
  intros h' HF'. by apply HQ, Focus_up_r.
Qed.

(** Storing a link that is there already. *)
Lemma setLeft_same h c l x b r p (Q : unit → gmap loc MapItem → Prop) :
  Focus h c (Nd l x b r) → p = rt l → Q tt h → wp (setLeft (Some x) p) Q h.
Proof.
  intros Hx%Focus_node -> HQ. eapply wp_update; [done|]. by rewrite insert_id.
Qed.

Lemma setRight_same h c l x b r p (Q : unit → gmap loc MapItem → Prop) :
  Focus h c (Nd l x b r) → p = rt r → Q tt h → wp (setRight (Some x) p) Q h.
Proof.
  intros Hx%Focus_node -> HQ. eapply wp_update; [done|]. by rewrite insert_id.
Qed.

Lemma setParent_same h c l x b r p (Q : unit → gmap loc MapItem → Prop) :
  Focus h c (Nd l x b r) → p = par this c → Q tt h → wp (setParent (Some x) p) Q h.
Proof.
  intros Hx%Focus_node -> HQ. eapply wp_update; [done|]. by rewrite insert_id.
Qed.

End rotations.
