(* ===== verification/AvlBalance.v ===== *)
(** * Rebalancing of the AVL tree

    The four rebalancing functions of AvlTree_.cpp and its two retracing loops: a
    subtree that has grown or shrunk by one gives a balanced tree with the same
    in-order sequence. *)

From Stdlib Require Import ZArith Lia.
From S2P Require Import Prelude AvlTree AvlSpec.
Local Open Scope pim_scope.

Section balance.
Context (this : loc) (inl : loc → ptr) (g : gmap loc MapItem).
Implicit Types (h : gmap loc MapItem) (c : ctx).
Notation Focus := (Focus this inl g).

(** ** The subtree grew *)

Definition top_uneven (t : tree) : Prop :=
  match t with Lf => False | Nd _ _ b _ => b ≠ eEVEN_ end.

(** Runs an operation on the focused tree by its lemma. *)
Ltac by_op lem HF h :=
  eapply lem; [exact HF|]; clear dependent h; intros h HF.

(** The known contents of the nodes of a subtree. *)
Ltac contents_of HF :=
  lazymatch type of HF with
  | AvlSpec.Focus _ _ _ _ _ (Nd ?l ?x ?b ?r) =>
    let H := fresh "Hn" in
    pose proof (Focus_node _ _ _ _ _ _ _ _ _ HF) as H; unfold node in H;
    cbn [rt par node_of] in H;
    contents_of (Focus_left _ _ _ _ _ _ _ _ _ HF);
    contents_of (Focus_right _ _ _ _ _ _ _ _ _ HF)
  | _ => idtac
  end.

Lemma grewLeft_spec h c l x r n (Q : bool → gmap loc MapItem → Prop) :
  Focus h c (Nd l x eLEFT_ r) → avl l (S (S n)) → top_uneven l → avl r n →
  (∀ h' t, Focus h' c t → avl t (S (S n)) → inorder t = inorder l ++ x :: inorder r → Q false h') →
  wp (grewLeft (Some x)) Q h.
Proof.
  intros HF Hl Hu Hr HQ.
  inversion Hl as [|a y b m Ha Hb| |a y b m Ha Hb]; subst; [|done|].
  - contents_of HF. unfold grewLeft. repeat tree_read.
    by_op setBalance_spec HF h. apply wp_bind.
    by_op setBalance_left HF h. apply wp_bind.
    by_op rotateRight_spec HF h. apply wp_ret.
    eapply HQ; [exact HF|auto with pim|simpl; by list_norm].
  - inversion Hb as [|b1 z b2 k Hb1 Hb2|b1 z b2 k Hb1 Hb2|b1 z b2 k Hb1 Hb2]; subst;
      contents_of HF; unfold grewLeft; repeat tree_read;
      by_op setBalance_spec HF h; apply wp_bind;
      by_op setBalance_left HF h; apply wp_bind;
      by_op setBalance_left_right HF h; apply wp_bind;
      by_op rotateLeft_left HF h; apply wp_bind;
      (eapply setLeft_same; [exact HF|done|]); apply wp_bind;
      (eapply setParent_same; [exact (Focus_left _ _ _ _ _ _ _ _ _ HF)|done|]); apply wp_bind;
      by_op rotateRight_spec HF h; apply wp_ret;
      (eapply HQ; [exact HF|auto with pim|simpl; by list_norm]).
Qed.

Lemma grewRight_spec h c l x r n (Q : bool → gmap loc MapItem → Prop) :
  Focus h c (Nd l x eRIGHT_ r) → avl l n → avl r (S (S n)) → top_uneven r →
  (∀ h' t, Focus h' c t → avl t (S (S n)) → inorder t = inorder l ++ x :: inorder r → Q false h') →
  wp (grewRight (Some x)) Q h.
Proof.
  intros HF Hl Hr Hu HQ.
  inversion Hr as [|b y a m Hb Ha| |b y a m Hb Ha]; subst; [|done|].
  - inversion Hb as [|b1 z b2 k Hb1 Hb2|b1 z b2 k Hb1 Hb2|b1 z b2 k Hb1 Hb2]; subst;
      contents_of HF; unfold grewRight; repeat tree_read;
      by_op setBalance_spec HF h; apply wp_bind;
      by_op setBalance_right HF h; apply wp_bind;
      by_op setBalance_right_left HF h; apply wp_bind;
      by_op rotateRight_right HF h; apply wp_bind;
      (eapply setRight_same; [exact HF|done|]); apply wp_bind;
      (eapply setParent_same; [exact (Focus_right _ _ _ _ _ _ _ _ _ HF)|done|]); apply wp_bind;
      by_op rotateLeft_spec HF h; apply wp_ret;
      (eapply HQ; [exact HF|auto with pim|simpl; by list_norm]).
  - contents_of HF. unfold grewRight. repeat tree_read.
    by_op setBalance_spec HF h. apply wp_bind.
    by_op setBalance_right HF h. apply wp_bind.
    by_op rotateLeft_spec HF h. apply wp_ret.
    eapply HQ; [exact HF|auto with pim|simpl; by list_norm].
Qed.

(** ** The subtree became shorter *)

Lemma rightShorter_spec h c l x r n (Q : bool → gmap loc MapItem → Prop) :
  Focus h c (Nd l x eLEFT_ r) → avl l (S (S n)) → avl r n →
  (∀ h' t, Focus h' c t → avl t (S (S n)) → inorder t = inorder l ++ x :: inorder r → Q true h') →
  (∀ h' t, Focus h' c t → avl t (S (S (S n))) → inorder t = inorder l ++ x :: inorder r → Q false h') →
  wp (rightShorter (Some x)) Q h.
Proof.
  intros HF Hl Hr HQt HQf.
  inversion Hl as [|a y b m Ha Hb|a y b m Ha Hb|a y b m Ha Hb]; subst.
  - contents_of HF. unfold rightShorter. repeat tree_read.
    by_op rotateRight_spec HF h. apply wp_bind.
    by_op setBalance_right HF h. apply wp_bind.
    by_op setBalance_spec HF h. apply wp_ret.
    eapply HQt; [exact HF|auto with pim|simpl; by list_norm].
  - contents_of HF. unfold rightShorter. repeat tree_read.
    by_op rotateRight_spec HF h. apply wp_bind.
    by_op setBalance_right HF h. apply wp_bind.
    by_op setBalance_spec HF h. apply wp_ret.
    eapply HQf; [exact HF|auto with pim|simpl; by list_norm].
  - inversion Hb as [|b1 z b2 k Hb1 Hb2|b1 z b2 k Hb1 Hb2|b1 z b2 k Hb1 Hb2]; subst;
      contents_of HF; unfold rightShorter; repeat tree_read;
      by_op setBalance_spec HF h; apply wp_bind;
      by_op setBalance_left HF h; apply wp_bind;
      by_op setBalance_left_right HF h; apply wp_bind;
      by_op rotateLeft_left HF h; apply wp_bind;
      by_op rotateRight_spec HF h; apply wp_ret;
      (eapply HQt; [exact HF|auto with pim|simpl; by list_norm]).
Qed.

Lemma leftShorter_spec h c l x r n (Q : bool → gmap loc MapItem → Prop) :
  Focus h c (Nd l x eRIGHT_ r) → avl l n → avl r (S (S n)) →
  (∀ h' t, Focus h' c t → avl t (S (S n)) → inorder t = inorder l ++ x :: inorder r → Q true h') →
  (∀ h' t, Focus h' c t → avl t (S (S (S n))) → inorder t = inorder l ++ x :: inorder r → Q false h') →
  wp (leftShorter (Some x)) Q h.
Proof.
  intros HF Hl Hr HQt HQf.
  inversion Hr as [|b y a m Hb Ha|b y a m Hb Ha|b y a m Hb Ha]; subst.
  - inversion Hb as [|b1 z b2 k Hb1 Hb2|b1 z b2 k Hb1 Hb2|b1 z b2 k Hb1 Hb2]; subst;
      contents_of HF; unfold leftShorter; repeat tree_read;
      by_op setBalance_spec HF h; apply wp_bind;
      by_op setBalance_right HF h; apply wp_bind;
      by_op setBalance_right_left HF h; apply wp_bind;
      by_op rotateRight_right HF h; apply wp_bind;
      by_op rotateLeft_spec HF h; apply wp_ret;
      (eapply HQt; [exact HF|auto with pim|simpl; by list_norm]).
  - contents_of HF. unfold leftShorter. repeat tree_read.
    by_op rotateLeft_spec HF h. apply wp_bind.
    by_op setBalance_left HF h. apply wp_bind.
    by_op setBalance_spec HF h. apply wp_ret.
    eapply HQf; [exact HF|auto with pim|simpl; by list_norm].
  - contents_of HF. unfold leftShorter. repeat tree_read.
    by_op rotateLeft_spec HF h. apply wp_bind.
    by_op setBalance_left HF h. apply wp_bind.
    by_op setBalance_spec HF h. apply wp_ret.
    eapply HQt; [exact HF|auto with pim|simpl; by list_norm].
Qed.

(** ** The retracing loops *)

Definition dir (f : frame) : Z := match f with FL _ _ _ => 1%Z | FR _ _ _ => (-1)%Z end.

(** The comparisons [insert] made on the way to a hole. *)
Definition dirs (c : ctx) : list Z := reverse (dir <$> c).

Lemma length_dirs c : length (dirs c) = length c.
Proof. unfold dirs. by rewrite length_reverse, length_fmap. Qed.

Lemma dirs_cons f c : dirs (f :: c) = dirs c ++ [dir f].
Proof. unfold dirs. simpl. by rewrite reverse_cons. Qed.

Lemma lookup_dirs f c rest : (dirs (f :: c) ++ rest) !! length c = Some (dir f).
Proof.
  rewrite dirs_cons, <-app_assoc, lookup_app_r by (rewrite length_dirs; lia).
  by rewrite length_dirs, Nat.sub_diag.
Qed.

(** [t] has replaced a tree of height [n] in the hole. *)
Definition grown (t : tree) (n : nat) : Prop := avl t (S n) ∧ (n = 0 ∨ top_uneven t).

(** What the loops establish: a balanced tree with the given sequence. *)
Definition Balanced h (xs : list loc) : Prop :=
  ∃ T n, Tree this inl g h T ∧ avl T n ∧ inorder T = xs.

Lemma Balanced_intro h c t n m :
  Focus h c t → avl t n → avlc c n m → Balanced h (lefts c ++ inorder t ++ rights c).
Proof.
  intros HF Ht Hc. exists (plug c t), m. split_and!.
  - by apply Tree_Focus.
  - by eapply avl_plug.
  - apply inorder_plug.
Qed.

Lemma insert_retrace_spec c : ∀ h t n m taller rest (Q : unit → gmap loc MapItem → Prop),
  c ≠ [] → Focus h c t → grown t n → avlc c n m →
  (∀ h', Balanced h' (lefts c ++ inorder t ++ rights c) → Q tt h') →
  wp (insert_retrace (length c) (par this c) (dirs c ++ rest) taller) Q h.
Proof.
  induction c as [|f c IH]; [done|]. intros h t n m taller rest Q _ HF [Ht Hu] Hc HQ.
  pose proof HF as Hfill%Focus_fill. simpl length. cbn [insert_retrace].
  assert (∀ h' t', Focus h' c t' → ∀ k m', avl t' k → avlc c k m' →
    inorder t' = inorder (fill f t) → Q tt h') as Hstop.
  { intros h' t' HF' k m' Hk Hck Hin. apply HQ.
    destruct (Balanced_intro h' c t' k m') as (T & j & ? & ? & HT); [done..|].
    exists T, j. split_and!; [done..|]. rewrite HT, Hin. destruct f; simpl; by list_norm. }
  assert (∀ h' t', Focus h' c t' → ∀ k, grown t' k → avlc c k m →
    inorder t' = inorder (fill f t) →
    wp (if Nat.ltb 0 (length c) && true
        then insert_retrace (length c) (par this c) (dirs (f :: c) ++ rest) true else ret tt) Q h') as Hgo.
  { intros h' t' HF' k Hk Hck Hin. destruct c as [|f' c].
    - simpl. inversion Hck; subst. destruct Hk as [Hk _]. apply (Hstop h' t' HF' (S m) (S m) Hk); [constructor|done].
    - cbn [length Nat.ltb Nat.leb andb]. rewrite dirs_cons, <-app_assoc. eapply IH; [done..|].
      intros h'' (T & j & ? & ? & HT). apply HQ. exists T, j. split_and!; [done..|].
      rewrite HT, Hin. destruct f; simpl; by list_norm. }
  assert (∀ h', Q tt h' → wp (if Nat.ltb 0 (length c) && false
      then insert_retrace (length c) (par this c) (dirs (f :: c) ++ rest) false else ret tt) Q h') as Hend.
  { intros. by rewrite andb_false_r. }
  destruct f as [x b r|l x b]; simpl fill in *; cbn [par node_of].
  - pose proof (Focus_node _ _ _ _ _ _ _ _ _ Hfill) as Hx. unfold node in Hx.
    apply wp_bind. eapply (wp_field m_parentPtr_); [exact Hx|]. apply wp_bind.
    eapply wp_lift_opt; [apply lookup_dirs|]. apply wp_bind.
    eapply (wp_field m_balance_); [exact Hx|]. simpl m_balance_. simpl m_parentPtr_. apply wp_bind.
    cbn [dir Z.ltb Z.compare].
    inversion Hc; subst.
    + destruct Hu as [|Hu]; [done|]. eapply grewLeft_spec; [done..|]. intros h' t' HF' Ht' Hin.
      apply Hend. by eapply Hstop.
    + apply wp_bind. eapply setBalance_spec; [done|]. intros h' HF'. apply wp_ret.
      eapply Hgo; [done| |done|done]. split; [by constructor|by right].
    + apply wp_bind. eapply setBalance_spec; [done|]. intros h' HF'. apply wp_ret.
      apply Hend. eapply Hstop; [done|by apply avl_even|done|done].
  - pose proof (Focus_node _ _ _ _ _ _ _ _ _ Hfill) as Hx. unfold node in Hx.
    apply wp_bind. eapply (wp_field m_parentPtr_); [exact Hx|]. apply wp_bind.
    eapply wp_lift_opt; [apply lookup_dirs|]. apply wp_bind.
    eapply (wp_field m_balance_); [exact Hx|]. simpl m_balance_. simpl m_parentPtr_. apply wp_bind.
    cbn [dir Z.ltb Z.compare].
    inversion Hc; subst.
    + apply wp_bind. eapply setBalance_spec; [done|]. intros h' HF'. apply wp_ret.
      apply Hend. eapply Hstop; [done|by apply avl_even|done|done].
    + apply wp_bind. eapply setBalance_spec; [done|]. intros h' HF'. apply wp_ret.
      eapply Hgo; [done| |done|done]. split; [by constructor|by right].
    + destruct Hu as [|Hu]; [done|]. eapply grewRight_spec; [done..|]. intros h' t' HF' Ht' Hin.
      apply Hend. by eapply Hstop.
Qed.

(** The root node of the tree object has the top node for its left child. *)
Definition left_hole (c : ctx) : bool := match c with FR _ _ _ :: _ => false | _ => true end.
Definition in_node (c : ctx) : bool := match c with [] => false | _ => true end.

(** What a node finds in its parent. *)
Lemma Focus_parent h c t :
  Focus h c t →
  ∃ q i, par this c = Some q ∧ h !! q = Some i ∧ m_is_NOT_root_ i = in_node c ∧
    (if left_hole c then m_prevPtr_ i else m_nextPtr_ i) = rt t ∧
    ∀ l x b r, t = Nd l x b r →
      bool_decide (Some x = m_prevPtr_ i) = left_hole c ∧
      bool_decide (Some x = m_nextPtr_ i) = negb (left_hole c).
Proof.
  intros (Hnd & HC & HR & _). destruct c as [|[q b r|l q b] c]; simpl in *; destruct_and?.
  - exists this. eexists. split_and!; [done..|]. intros l x b r ->. cbn [rt root_item m_prevPtr_ m_nextPtr_].
    split; [by apply bool_decide_eq_true_2|by apply bool_decide_eq_false_2].
  - exists q. eexists. split_and!; [done..|]. intros l x b' r' ->. cbn [rt m_prevPtr_ m_nextPtr_].
    split; [by apply bool_decide_eq_true_2|apply bool_decide_eq_false_2, not_eq_sym, rt_ne].
    by nodup_facts Hnd.
  - exists q. eexists. split_and!; [done..|]. intros l' x b' r' ->. cbn [rt m_prevPtr_ m_nextPtr_].
    split; [apply bool_decide_eq_false_2, not_eq_sym, rt_ne|by apply bool_decide_eq_true_2].
    by nodup_facts Hnd.
Qed.

Lemma remove_retrace_stop fuel p il (Q : unit → gmap loc MapItem → Prop) h :
  0 < fuel → Q tt h → wp (remove_retrace fuel p il false) Q h.
Proof. intros. destruct fuel; [lia|]. done. Qed.

Lemma remove_retrace_spec c : ∀ h t n m fuel il (Q : unit → gmap loc MapItem → Prop),
  length c < fuel → (c ≠ [] → il = left_hole c) → Focus h c t → avl t n → avlc c (S n) m →
  (∀ h', Balanced h' (lefts c ++ inorder t ++ rights c) → Q tt h') →
  wp (remove_retrace fuel (par this c) il true) Q h.
Proof.
  induction c as [|f c IH]; intros h t n m fuel il Q Hfuel Hil HF Ht Hc HQ;
    (destruct fuel as [|fuel]; [simpl in Hfuel; lia|]); cbn [remove_retrace].
  { destruct HF as (? & Hroot & ?). simpl in Hroot. apply wp_bind.
    eapply (wp_field m_is_NOT_root_); [exact Hroot|]. simpl. apply wp_ret. apply HQ.
    exists t, n. split_and!; [|done|simpl; by rewrite app_nil_r].
    apply (Tree_Focus _ _ _ _ []). done. }
  rewrite (Hil ltac:(done)). simpl in Hfuel.
  pose proof HF as Hfill%Focus_fill.
  assert (∀ h' t', Focus h' c t' → ∀ k m', avl t' k → avlc c k m' →
    inorder t' = inorder (fill f t) → Q tt h') as Hstop.
  { intros h' t' HF' k m' Hk Hck Hin. apply HQ.
    destruct (Balanced_intro h' c t' k m') as (T & j & ? & ? & HT); [done..|].
    exists T, j. split_and!; [done..|]. rewrite HT, Hin. destruct f; simpl; by list_norm. }
  assert (∀ h' t', Focus h' c t' → ∀ k, avl t' k → avlc c (S k) m →
    inorder t' = inorder (fill f t) →
    wp (remove_retrace fuel (par this c) (left_hole c) true) Q h') as Hgo.
  { intros h' t' HF' k Hk Hck Hin. eapply IH; [lia|done|done|done|done|].
    intros h'' (T & j & ? & ? & HT). apply HQ. exists T, j. split_and!; [done..|].
    rewrite HT, Hin. destruct f; simpl; by list_norm. }
  assert (∀ h', Q tt h' → wp (remove_retrace fuel (par this c) (left_hole c) false) Q h') as Hend.
  { intros. apply remove_retrace_stop; [lia|done]. }
  destruct (Focus_parent _ _ _ Hfill) as (q & i & Hq & Hi & _ & _ & Hpar).
  destruct f as [x b r|l x b]; simpl fill in *; cbn [par node_of left_hole];
    destruct (Hpar _ _ _ _ eq_refl) as [Hleft _];
    pose proof (Focus_node _ _ _ _ _ _ _ _ _ Hfill) as Hx; unfold node in Hx;
    apply wp_bind; (eapply (wp_field m_is_NOT_root_); [exact Hx|]); cbn [m_is_NOT_root_];
    apply wp_bind; (eapply (wp_field m_parentPtr_); [exact Hx|]); cbn [m_parentPtr_];
    apply wp_bind; rewrite Hq; (eapply (wp_field m_prevPtr_); [exact Hi|]); cbv zeta;
    rewrite Hleft; rewrite <-Hq;
    apply wp_bind; (eapply (wp_field m_balance_); [exact Hx|]); cbn [m_balance_];
    apply wp_bind; inversion Hc; subst.
  - apply wp_bind. eapply setBalance_spec; [done|]. intros h' HF'. apply wp_ret.
    eapply Hgo; [done| |done|done]. by constructor.
  - apply wp_bind. eapply setBalance_spec; [done|]. intros h' HF'. apply wp_ret.
    apply Hend. eapply Hstop; [done|by apply avl_right|done|done].
  - eapply leftShorter_spec; [done..| |]; intros h' t' HF' Ht' Hin.
    + by eapply Hgo.
    + apply Hend. by eapply Hstop.
  - eapply rightShorter_spec; [done..| |]; intros h' t' HF' Ht' Hin.
    + by eapply Hgo.
    + apply Hend. by eapply Hstop.
  - apply wp_bind. eapply setBalance_spec; [done|]. intros h' HF'. apply wp_ret.
    apply Hend. eapply Hstop; [done|by apply avl_left|done|done].
  - apply wp_bind. eapply setBalance_spec; [done|]. intros h' HF'. apply wp_ret.
    eapply Hgo; [done| |done|done]. by constructor.
Qed.
End balance.
