(* ===== verification/AvlOps.v ===== *)
(** * Walks, searches and the exchange of nodes in the AVL tree

    What the walks of AvlTree_.cpp find, the way down of [insert], and the swap
    of a node with its predecessor before it is removed.  Memory is described by
    its parts: subtrees, segments of a path, and the path to the root. *)

From Stdlib Require Import ZArith Lia.
From stdpp Require Import list_tactics.
From S2P Require Import Prelude AvlTree AvlSpec AvlBalance.
Local Open Scope pim_scope.

Section parts.
Context (this : loc) (inl : loc → ptr) (g : gmap loc MapItem).
Implicit Types (h : gmap loc MapItem) (c fs : ctx) (p q hp pp : ptr).
Notation Focus := (Focus this inl g).
Notation Tree := (Tree this inl g).
Notation Rep := (Rep inl).
Notation RepC := (RepC this inl).
Notation par := (par this).

(** ** Parts of a memory *)

Definition same_on (xs : list loc) h h' : Prop := ∀ z, z ∈ xs → h' !! z = h !! z.
Definition same_off (xs : list loc) h h' : Prop := ∀ z, z ∉ xs → h' !! z = h !! z.

Lemma Rep_same h h' t p : same_on (inorder t) h h' → Rep h t p → Rep h' t p.
Proof.
  revert p. induction t as [|l IHl x b r IHr]; intros p Hs; simpl; [done|].
  intros (? & ? & ?). rewrite Hs by (simpl; set_solver).
  split_and!; [done|apply IHl|apply IHr]; try done; intros z Hz; apply Hs; simpl; set_solver.
Qed.

Lemma RepC_same h h' c hp :
  same_on (this :: lefts c ++ rights c) h h' → RepC h c hp → RepC h' c hp.
Proof.
  revert hp. induction c as [|[x b r|l x b] c IH]; intros hp Hs; simpl; intros HC.
  - by rewrite Hs by set_solver.
  - destruct HC as (? & ? & ?). rewrite Hs by (simpl; set_solver).
    split_and!; [done|eapply Rep_same; [|done]|apply IH; [|done]]; intros z Hz; apply Hs; simpl; set_solver.
  - destruct HC as (? & ? & ?). rewrite Hs by (simpl; set_solver).
    split_and!; [done|eapply Rep_same; [|done]|apply IH; [|done]]; intros z Hz; apply Hs; simpl; set_solver.
Qed.

Definition side (f : frame) : tree := match f with FL _ _ r => r | FR l _ _ => l end.

Definition frame_item (f : frame) hp p : MapItem :=
  match f with
  | FL x b r => mkMapItem (rt r) (inl x) hp p true b
  | FR l x b => mkMapItem hp (inl x) (rt l) p true b
  end.

Definition spar fs pp : ptr := match fs with [] => pp | f :: _ => Some (node_of f) end.

(** A segment of a path: [hp] in its hole, [pp] the parent of its outermost
    node. *)
Fixpoint RepS h fs hp pp : Prop :=
  match fs with
  | [] => True
  | f :: fs =>
    h !! node_of f = Some (frame_item f hp (spar fs pp)) ∧ Rep h (side f) (Some (node_of f))
    ∧ RepS h fs (Some (node_of f)) pp
  end.

(** The outermost node of a segment, or what is in its hole when it is empty. *)
Fixpoint top_of fs hp : ptr :=
  match fs with [] => hp | f :: fs => top_of fs (Some (node_of f)) end.

Lemma top_of_plug fs t : rt (plug fs t) = top_of fs (rt t).
Proof. revert t. induction fs as [|f fs IH]; intros t; simpl; [done|]. rewrite IH. by destruct f. Qed.

Lemma RepC_app h fs c hp :
  RepC h (fs ++ c) hp ↔ RepS h fs hp (par c) ∧ RepC h c (top_of fs hp).
Proof.
  revert hp. induction fs as [|f fs IH]; intros hp; [simpl; tauto|].
  assert (par (fs ++ c) = spar fs (par c)) as Hp by by destruct fs.
  destruct f; simpl app; cbn [RepS top_of AvlSpec.RepC node_of side frame_item];
    rewrite IH, Hp; tauto.
Qed.

Lemma Rep_plug h fs t p :
  Rep h (plug fs t) p ↔ Rep h t (spar fs p) ∧ RepS h fs (rt t) p.
Proof.
  revert t p. induction fs as [|f fs IH]; intros t p; simpl plug; [simpl; tauto|].
  rewrite IH. destruct f; simpl; unfold node; tauto.
Qed.

Definition seg_locs fs : list loc := lefts fs ++ rights fs.

Lemma seg_locs_perm f fs : seg_locs (f :: fs) ≡ₚ node_of f :: inorder (side f) ++ seg_locs fs.
Proof.
  unfold seg_locs. destruct f as [x b r|l x b]; simpl; list_norm; rewrite <-Permutation_middle.
  - by rewrite !app_assoc, (Permutation_app_comm (lefts fs)).
  - by rewrite <-Permutation_middle, !app_assoc, (Permutation_app_comm (lefts fs)).
Qed.

Lemma seg_locs_cons f fs z :
  z ∈ seg_locs (f :: fs) ↔ z = node_of f ∨ z ∈ inorder (side f) ∨ z ∈ seg_locs fs.
Proof. by rewrite seg_locs_perm, elem_of_cons, elem_of_app. Qed.

Lemma RepS_same h h' fs hp pp : same_on (seg_locs fs) h h' → RepS h fs hp pp → RepS h' fs hp pp.
Proof.
  revert hp. induction fs as [|f fs IH]; intros hp Hs; simpl; [done|].
  intros (? & ? & ?). rewrite Hs by (rewrite seg_locs_cons; auto).
  split_and!; [done|eapply Rep_same; [|done]|apply IH; [|done]];
    intros z Hz; apply Hs; rewrite seg_locs_cons; auto.
Qed.

(** ** Stores into a part *)

(** The hole of a path gets a new node. *)
Lemma link_spec h c hp v (Q : unit → gmap loc MapItem → Prop) :
  RepC h c hp → NoDup (this :: lefts c ++ rights c) →
  (∀ h', RepC h' c v → same_off (this :: lefts c ++ rights c) h h' → Q tt h') →
  wp (if left_hole c then setLeft (par c) v else setRight (par c) v) Q h.
Proof.
  intros HC Hnd HQ. destruct c as [|[x b r|l x b] c]; simpl in *; destruct_and?;
    (eapply wp_update; [eassumption|]); nodup_facts Hnd; apply HQ; cbn [with_prev with_next].
  - simpl. by rewrite lookup_insert_eq.
  - intros z Hz. rewrite lookup_insert_ne; set_solver.
  - split_and!; frames.
  - intros z Hz. rewrite lookup_insert_ne; set_solver.
  - split_and!; frames.
  - intros z Hz. rewrite lookup_insert_ne; set_solver.
Qed.

(** A subtree gets a new parent. *)
Lemma reparent_spec h t p q (Q : unit → gmap loc MapItem → Prop) :
  Rep h t p → NoDup (inorder t) →
  (∀ h', Rep h' t q → same_off (inorder t) h h' → Q tt h') →
  wp (if is_null (rt t) then ret tt else setParent (rt t) q) Q h.
Proof.
  intros HR Hnd HQ. destruct t as [|l x b r]; simpl in *; [by apply HQ|]. destruct_and?.
  eapply wp_update; [eassumption|]. nodup_facts Hnd. apply HQ; cbn [with_parent].
  - simpl. unfold node in *. cbn [m_parentPtr_ m_nextPtr_ m_prevPtr_ m_inListPtr_ m_is_NOT_root_ m_balance_].
    split_and!; frames.
  - intros z Hz. rewrite lookup_insert_ne; set_solver.
Qed.

Lemma segment_hole_spec h f fs hp pp v (Q : unit → gmap loc MapItem → Prop) :
  (∃ l x b, f = FR l x b) → RepS h (f :: fs) hp pp → NoDup (seg_locs (f :: fs)) →
  (∀ h', RepS h' (f :: fs) v pp → same_off (seg_locs (f :: fs)) h h' → Q tt h') →
  wp (setRight (Some (node_of f)) v) Q h.
Proof.
  intros (l & x & b & ->) (Hx & Hl & Hfs) Hnd HQ. unfold seg_locs in Hnd. nodup_facts Hnd.
  eapply wp_update; [exact Hx|]. apply HQ.
  - split_and!.
    + simpl. by rewrite lookup_insert_eq.
    + by apply Rep_insert.
    + eapply RepS_same; [|done]. intros z Hz. apply lookup_insert_ne. unfold seg_locs in Hz. set_solver.
  - intros z Hz. rewrite seg_locs_cons in Hz. rewrite lookup_insert_ne; [done|]. naive_solver.
Qed.

Lemma segment_top_spec fs : ∀ h hp pp q (Q : unit → gmap loc MapItem → Prop),
  fs ≠ [] → RepS h fs hp pp → NoDup (seg_locs fs) →
  (∀ h', RepS h' fs hp q → same_off (seg_locs fs) h h' → Q tt h') →
  wp (setParent (top_of fs hp) q) Q h.
Proof.
  induction fs as [|f fs IH]; [done|]. intros h hp pp q Q _ (Hf & Hside & Hfs) Hnd HQ.
  rewrite seg_locs_perm, NoDup_cons, not_elem_of_app, NoDup_app in Hnd.
  destruct Hnd as ((? & ?) & ? & Hdisj & ?).
  simpl top_of. destruct fs as [|f' fs].
  - simpl. eapply wp_update; [exact Hf|]. apply HQ.
    + simpl. rewrite lookup_insert_eq. split_and!; [by destruct f|by apply Rep_insert|done].
    + intros z Hz. rewrite seg_locs_cons in Hz. apply lookup_insert_ne. naive_solver.
  - eapply IH; [done|done|done|]. intros h' Hfs' Hoff. apply HQ.
    + split_and!; [|eapply Rep_same; [|exact Hside]|exact Hfs'].
      * rewrite Hoff by done. by rewrite Hf.
      * intros z Hz. apply Hoff. auto.
    + intros z Hz. rewrite seg_locs_cons in Hz. apply Hoff. naive_solver.
Qed.

(** ** Walks *)

Definition right_frame (f : frame) : Prop := ∃ l x b, f = FR l x b.

Lemma rightmost_spec t : ∀ h p fuel moved (Q : ptr * bool → gmap loc MapItem → Prop),
  Rep h t p → length (inorder t) < fuel → t ≠ Lf →
  (∀ fs l x b, t = plug fs (Nd l x b Lf) → Forall right_frame fs →
     Q (Some x, match fs with [] => moved | _ => true end) h) →
  wp (rightmost fuel (rt t) moved) Q h.
Proof.
  induction t as [|l _ x b r IH]; [done|]. intros h p fuel moved Q (Hx & Hl & Hr) Hfuel _ HQ.
  destruct fuel as [|fuel]; [lia|]. cbn [rt rightmost]. apply wp_bind.
  eapply (wp_field m_nextPtr_); [exact Hx|]. cbn [node m_nextPtr_].
  assert (r = Lf ∨ r ≠ Lf) as [->|Hne] by (destruct r; [by left|by right]).
  - apply wp_ret. by apply (HQ [] l x b).
  - replace (is_null (rt r)) with false by (by destruct r).
    eapply IH; [done| |done|].
    + simpl in Hfuel. rewrite length_app in Hfuel. simpl in Hfuel. lia.
    + intros fs l' y b' -> Hfs.
      assert (Forall right_frame (fs ++ [FR l x b])) as Hfs'.
      { apply Forall_app. split; [done|]. repeat constructor. by eexists _, _, _. }
      specialize (HQ (fs ++ [FR l x b]) l' y b'). rewrite plug_app in HQ.
      specialize (HQ eq_refl Hfs'). by destruct fs.
Qed.

Lemma lefts_right_frames fs : Forall right_frame fs → rights fs = [].
Proof. induction 1 as [|f fs (l & x & b & ->) _ IH]; [done|]. exact IH. Qed.

(** The rightmost node is the last one. *)
Lemma rightmost_last t h p fuel moved (Q : ptr * bool → gmap loc MapItem → Prop) :
  Rep h t p → length (inorder t) < fuel → t ≠ Lf →
  (∀ b, Q (list.last (inorder t), b) h) →
  wp (rightmost fuel (rt t) moved) Q h.
Proof.
  intros HR Hfuel Hne HQ. eapply rightmost_spec; [done..|]. intros fs l x b -> Hfs.
  specialize (HQ (match fs with [] => moved | _ => true end)).
  rewrite inorder_plug, lefts_right_frames, app_nil_r in HQ by done. simpl in HQ.
  by rewrite !last_app, last_cons in HQ.
Qed.

Lemma leftmost_spec t : ∀ h p fuel (Q : ptr → gmap loc MapItem → Prop),
  Rep h t p → length (inorder t) < fuel → t ≠ Lf → Q (head (inorder t)) h →
  wp (leftmost fuel (rt t)) Q h.
Proof.
  induction t as [|l IH x b r _]; [done|]. intros h p fuel Q (Hx & Hl & Hr) Hfuel _ HQ.
  destruct fuel as [|fuel]; [lia|]. cbn [rt leftmost]. apply wp_bind.
  eapply (wp_field m_prevPtr_); [exact Hx|]. cbn [node m_prevPtr_].
  assert (l = Lf ∨ l ≠ Lf) as [->|Hne] by (destruct l; [by left|by right]).
  - by apply wp_ret.
  - replace (is_null (rt l)) with false by (by destruct l).
    eapply IH; [done| |done|].
    + simpl in Hfuel. rewrite length_app in Hfuel. simpl in Hfuel. lia.
    + simpl in HQ. destruct l as [|l1 y b1 l2]; [done|]. simpl in *. by destruct (inorder l1).
Qed.

(** ** The exchange with the predecessor *)

(** What a store into one part leaves of another. *)
Lemma same_off_on xs ys h h' : same_off xs h h' → (∀ z, z ∈ ys → z ∉ xs) → same_on ys h h'.
Proof. intros Hoff Hd z Hz. apply Hoff. auto. Qed.

Lemma same_on_sym xs h h' : same_on xs h h' → same_on xs h' h.
Proof. intros Hs z Hz. symmetry. auto. Qed.

Definition parts (x y : loc) (l' : tree) fs (r : tree) c : list loc :=
  x :: y :: inorder l' ++ seg_locs fs ++ inorder r ++ this :: lefts c ++ rights c.

Lemma parts_perm x y l' b' fs b r c :
  Forall right_frame fs →
  this :: lefts c ++ inorder (Nd (plug fs (Nd l' y b' Lf)) x b r) ++ rights c ≡ₚ parts x y l' fs r c.
Proof.
  intros Hfs. unfold parts, seg_locs. simpl. rewrite inorder_plug, (lefts_right_frames fs) by done. simpl.
  solve_Permutation.
Qed.

Lemma parts_perm' x y l' b' fs b r c :
  Forall right_frame fs →
  this :: lefts (fs ++ FL y b r :: c) ++ inorder (Nd l' x b' Lf) ++ rights (fs ++ FL y b r :: c)
  ≡ₚ parts x y l' fs r c.
Proof.
  intros Hfs.
  rewrite <-(inorder_plug (fs ++ FL y b r :: c)), plug_app. simpl. rewrite inorder_plug. simpl.
  rewrite inorder_plug, (lefts_right_frames fs) by done. unfold parts, seg_locs.
  rewrite (lefts_right_frames fs) by done. simpl. solve_Permutation.
Qed.
End parts.

Section exchange.
Context (this : loc) (inl : loc → ptr) (g : gmap loc MapItem).
Context (x y : loc) (l' : tree) (fs : ctx) (r : tree) (c : ctx).
Context (Hdistinct : NoDup (parts this x y l' fs r c)).
Implicit Types (h : gmap loc MapItem) (v : ptr).

(** The memory in which a node [x], its predecessor [y] and the parts around
    them are being relinked: the contents of the two nodes, the hole and the
    parent of the segment, the parents of the two subtrees, the hole of the
    path. *)
Record Parts h (vx vy : MapItem) (shole stop pl pr hc : ptr) : Prop := {
  parts_x : h !! x = Some vx;
  parts_y : h !! y = Some vy;
  parts_seg : RepS inl h fs shole stop;
  parts_l : Rep inl h l' pl;
  parts_r : Rep inl h r pr;
  parts_c : RepC this inl h c hc;
  parts_out : ∀ z, z ∉ parts this x y l' fs r c → h !! z = g !! z
}.

(** A store into one part keeps the others. *)
Lemma Parts_same h h' xs vx vy shole stop pl pr hc shole' stop' pl' pr' hc' :
  Parts h vx vy shole stop pl pr hc →
  same_off xs h h' → (∀ z, z ∈ xs → z ∈ parts this x y l' fs r c) →
  x ∉ xs → y ∉ xs →
  (RepS inl h' fs shole' stop' ∨ (∀ z, z ∈ seg_locs fs → z ∉ xs) ∧ shole = shole' ∧ stop = stop') →
  (Rep inl h' l' pl' ∨ (∀ z, z ∈ inorder l' → z ∉ xs) ∧ pl = pl') →
  (Rep inl h' r pr' ∨ (∀ z, z ∈ inorder r → z ∉ xs) ∧ pr = pr') →
  (RepC this inl h' c hc' ∨ (∀ z, z ∈ this :: lefts c ++ rights c → z ∉ xs) ∧ hc = hc') →
  Parts h' vx vy shole' stop' pl' pr' hc'.
Proof.
  intros [Hx Hy Hs Hl Hr Hc Hout] Hoff Hsub Hnx Hny Hseg Hpl Hpr Hpc. split.
  - by rewrite Hoff.
  - by rewrite Hoff.
  - destruct Hseg as [|(? & <- & <-)]; [done|]. eapply RepS_same; [|done]. by eapply same_off_on.
  - destruct Hpl as [|(? & <-)]; [done|]. eapply Rep_same; [|done]. by eapply same_off_on.
  - destruct Hpr as [|(? & <-)]; [done|]. eapply Rep_same; [|done]. by eapply same_off_on.
  - destruct Hpc as [|(? & <-)]; [done|]. eapply RepC_same; [|done]. by eapply same_off_on.
  - intros z Hz. rewrite Hoff by auto. by apply Hout.
Qed.

(** The disjointness of the parts, pairwise. *)
Definition apart (xs ys : list loc) : Prop := ∀ z, z ∈ xs → z ∉ ys.

Lemma apart_facts :
  let cs := this :: lefts c ++ rights c in
  (x ∉ inorder l' ∧ x ∉ seg_locs fs ∧ x ∉ inorder r ∧ x ∉ cs)
  ∧ (y ∉ inorder l' ∧ y ∉ seg_locs fs ∧ y ∉ inorder r ∧ y ∉ cs)
  ∧ (apart (inorder l') (seg_locs fs) ∧ apart (inorder l') (inorder r) ∧ apart (inorder l') cs)
  ∧ (apart (seg_locs fs) (inorder l') ∧ apart (seg_locs fs) (inorder r) ∧ apart (seg_locs fs) cs)
  ∧ (apart (inorder r) (inorder l') ∧ apart (inorder r) (seg_locs fs) ∧ apart (inorder r) cs)
  ∧ (apart cs (inorder l') ∧ apart cs (seg_locs fs) ∧ apart cs (inorder r)).
Proof.
  cbv zeta. revert Hdistinct. unfold parts. generalize (this :: lefts c ++ rights c). intros cs H.
  rewrite !NoDup_cons, !NoDup_app, !not_elem_of_cons, !not_elem_of_app in H.
  destruct H as (Hx & Hy & _ & Hl & _ & Hs & _ & Hr & _).
  assert (∀ z, z ∈ inorder l' → z ∉ seg_locs fs ∧ z ∉ inorder r ∧ z ∉ cs) as Hl'.
  { intros z Hz%Hl. by rewrite !not_elem_of_app in Hz. }
  assert (∀ z, z ∈ seg_locs fs → z ∉ inorder r ∧ z ∉ cs) as Hs'.
  { intros z Hz%Hs. by rewrite !not_elem_of_app in Hz. }
  unfold apart. split; [tauto|]. split; [tauto|].
  repeat split; intros z Hz; try (intros Hz'; specialize (Hl' z); specialize (Hs' z); specialize (Hr z); tauto).
Qed.

Lemma parts_NoDup :
  NoDup (this :: lefts c ++ rights c) ∧ NoDup (seg_locs fs) ∧ NoDup (inorder l') ∧ NoDup (inorder r).
Proof.
  revert Hdistinct. unfold parts. generalize (this :: lefts c ++ rights c). intros cs H.
  rewrite !NoDup_cons, !NoDup_app in H. tauto.
Qed.

Lemma parts_incl :
  let cs := this :: lefts c ++ rights c in
  let ps := parts this x y l' fs r c in
  (∀ z, z ∈ inorder l' → z ∈ ps) ∧ (∀ z, z ∈ seg_locs fs → z ∈ ps)
  ∧ (∀ z, z ∈ inorder r → z ∈ ps) ∧ (∀ z, z ∈ cs → z ∈ ps).
Proof.
  cbv zeta. unfold parts. generalize (this :: lefts c ++ rights c). intros cs.
  split_and!; intros z; rewrite !elem_of_cons, !elem_of_app; tauto.
Qed.

(** The side conditions of [Parts_same]. *)
Ltac part_side :=
  let H := fresh in let H' := fresh in
  pose proof apart_facts as H; pose proof parts_incl as H'; cbv zeta in H, H';
  destruct_and? H; destruct_and? H';
  first [ done | by left | right; split_and?; done ].

Lemma Parts_link h vx vy shole stop pl pr hc v (Q : unit → gmap loc MapItem → Prop) :
  Parts h vx vy shole stop pl pr hc →
  (∀ h', Parts h' vx vy shole stop pl pr v → Q tt h') →
  wp (if left_hole c then setLeft (par this c) v else setRight (par this c) v) Q h.
Proof.
  intros HP HQ. eapply link_spec; [by eapply parts_c|apply parts_NoDup|].
  intros h' Hc' Hoff. apply HQ. eapply (Parts_same _ _ _ _ _ _ _ _ _ _ _ _ _ _ _ HP Hoff); part_side.
Qed.

Lemma Parts_right h vx vy shole stop pl pr hc q (Q : unit → gmap loc MapItem → Prop) :
  Parts h vx vy shole stop pl pr hc →
  (∀ h', Parts h' vx vy shole stop pl q hc → Q tt h') →
  wp (if is_null (rt r) then ret tt else setParent (rt r) q) Q h.
Proof.
  intros HP HQ. eapply reparent_spec; [by eapply parts_r|apply parts_NoDup|].
  intros h' HR Hoff. apply HQ. eapply (Parts_same _ _ _ _ _ _ _ _ _ _ _ _ _ _ _ HP Hoff); part_side.
Qed.

Lemma Parts_left h vx vy shole stop pl pr hc q (Q : unit → gmap loc MapItem → Prop) :
  Parts h vx vy shole stop pl pr hc →
  (∀ h', Parts h' vx vy shole stop q pr hc → Q tt h') →
  wp (if is_null (rt l') then ret tt else setParent (rt l') q) Q h.
Proof.
  intros HP HQ. eapply reparent_spec; [by eapply parts_l|apply parts_NoDup|].
  intros h' HR Hoff. apply HQ. eapply (Parts_same _ _ _ _ _ _ _ _ _ _ _ _ _ _ _ HP Hoff); part_side.
Qed.

Lemma Parts_top h vx vy shole stop pl pr hc q (Q : unit → gmap loc MapItem → Prop) :
  fs ≠ [] → Parts h vx vy shole stop pl pr hc →
  (∀ h', Parts h' vx vy shole q pl pr hc → Q tt h') →
  wp (setParent (top_of fs shole) q) Q h.
Proof.
  intros Hne HP HQ. eapply segment_top_spec; [done|by eapply parts_seg|apply parts_NoDup|].
  intros h' HR Hoff. apply HQ. eapply (Parts_same _ _ _ _ _ _ _ _ _ _ _ _ _ _ _ HP Hoff); part_side.
Qed.

Lemma Parts_hole h vx vy shole stop pl pr hc v f fs' (Q : unit → gmap loc MapItem → Prop) :
  fs = f :: fs' → right_frame f → Parts h vx vy shole stop pl pr hc →
  (∀ h', Parts h' vx vy v stop pl pr hc → Q tt h') →
  wp (setRight (Some (node_of f)) v) Q h.
Proof.
  intros Hfs Hf HP HQ. pose proof (parts_seg _ _ _ _ _ _ _ _ HP) as Hseg.
  pose proof (proj1 (proj2 parts_NoDup)) as Hnd. rewrite Hfs in Hseg, Hnd.
  eapply segment_hole_spec; [done|exact Hseg|exact Hnd|].
  intros h' HR Hoff. rewrite <-Hfs in HR, Hoff.
  apply HQ. eapply (Parts_same _ _ _ _ _ _ _ _ _ _ _ _ _ _ _ HP Hoff); part_side.
Qed.

(** The contents of the two nodes change. *)
Lemma Parts_nodes h h' vx vy vx' vy' shole stop pl pr hc :
  Parts h vx vy shole stop pl pr hc →
  h' !! x = Some vx' → h' !! y = Some vy' → same_off [x; y] h h' →
  Parts h' vx' vy' shole stop pl pr hc.
Proof.
  intros [Hx Hy Hs Hl Hr Hc Hout] Hx' Hy' Hoff.
  pose proof apart_facts as H. cbv zeta in H. destruct_and? H.
  assert (∀ ys, x ∉ ys → y ∉ ys → same_on ys h h') as Hon.
  { intros ys Hxs Hys z Hz. apply Hoff. rewrite !elem_of_cons. intros [-> | [-> | []%elem_of_nil]]; contradiction. }
  split; [done|done|eapply RepS_same|eapply Rep_same|eapply Rep_same|eapply RepC_same|]; eauto.
  intros z Hz. rewrite Hoff; [by apply Hout|]. unfold parts in Hz. rewrite !not_elem_of_cons in Hz.
  rewrite !elem_of_cons. intros [-> | [-> | []%elem_of_nil]]; tauto.
Qed.

(** Before and after the exchange. *)
Lemma Parts_before h b b' :
  Forall right_frame fs → Focus this inl g h c (Nd (plug fs (Nd l' y b' Lf)) x b r) →
  Parts h (mkMapItem (rt r) (inl x) (top_of fs (Some y)) (par this c) true b)
    (mkMapItem None (inl y) (rt l') (spar fs (Some x)) true b')
    (Some y) (Some x) (Some y) (Some x) (Some x).
Proof.
  intros Hfs (_ & HC & (Hx & Hpl & Hr) & Hout). apply Rep_plug in Hpl as ((Hy & Hl & _) & Hs).
  unfold node in Hx. rewrite top_of_plug in Hx. split; try done.
  intros z Hz. apply Hout. by rewrite (parts_perm this x y l' b' fs b r c).
Qed.

Lemma Parts_after h b b' :
  Forall right_frame fs →
  Parts h (mkMapItem None (inl x) (rt l') (spar fs (Some y)) true b')
    (mkMapItem (rt r) (inl y) (top_of fs (Some x)) (par this c) true b)
    (Some x) (Some y) (Some x) (Some y) (Some y) →
  Focus this inl g h (fs ++ FL y b r :: c) (Nd l' x b' Lf).
Proof.
  intros Hfs [Hx Hy Hs Hl Hr Hc Hout].
  split; [|split; [|split]].
  - by rewrite parts_perm'.
  - apply RepC_app. cbn [rt par node_of AvlSpec.RepC]. by split_and!.
  - simpl. split_and!; [|done|done]. unfold node. simpl.
    assert (par this (fs ++ FL y b r :: c) = spar fs (Some y)) as -> by (by destruct fs). done.
  - intros z Hz. apply Hout. by rewrite <-(parts_perm' this x y l' b' fs b r c).
Qed.

Lemma Parts_empty h vx vy shole stop pl pr hc shole' stop' :
  fs = [] → Parts h vx vy shole stop pl pr hc → Parts h vx vy shole' stop' pl pr hc.
Proof. intros Hfs [Hx Hy Hs Hl Hr Hc Hout]. split; try done. by rewrite Hfs. Qed.
End exchange.

Section exchange_spec.
Context (this : loc) (inl : loc → ptr) (g : gmap loc MapItem).

(** The contents of the two nodes; a store into a part by its lemma. *)
Ltac nodes_of HP :=
  let H := fresh "Hx" in pose proof (parts_x _ _ _ _ _ _ _ _ _ _ _ _ _ _ _ _ _ HP) as H;
  let H := fresh "Hy" in pose proof (parts_y _ _ _ _ _ _ _ _ _ _ _ _ _ _ _ _ _ HP) as H.
Ltac by_part lem Hnd HP h :=
  eapply lem; [exact Hnd|..|exact HP|]; [try done..|]; clear dependent h; intros h HP; nodes_of HP.

(** Reads the parts off a memory in which the two nodes were changed. *)
Ltac nodes_changed Hnd HP h :=
  match goal with |- wp _ _ ?m =>
    let H := fresh in
    epose proof (Parts_nodes _ _ _ _ _ _ _ _ _ Hnd _ m _ _ _ _ _ _ _ _ _ HP
      ltac:(look) ltac:(look) ltac:(intros ? ?; rewrite !lookup_insert_ne; set_solver)) as H;
    generalize dependent m; clear dependent h; intros h HP;
    cbv [with_prev with_next with_parent with_balance m_prevPtr_ m_nextPtr_ m_parentPtr_
         m_inListPtr_ m_is_NOT_root_ m_balance_] in HP; nodes_of HP
  end.

Lemma exchange_spec h c l x b r (Q : unit → gmap loc MapItem → Prop) :
  Focus this inl g h c (Nd l x b r) → l ≠ Lf → r ≠ Lf →
  (∀ h' fs l' y b', l = plug fs (Nd l' y b' Lf) → Forall right_frame fs →
     Focus this inl g h' (fs ++ FL y b r :: c) (Nd l' x b' Lf) → Q tt h') →
  wp (exchangeWithPrev (Some x)) Q h.
Proof.
  intros HF Hl Hr HQ. unfold exchangeWithPrev.
  destruct (Focus_parent _ _ _ _ _ _ HF) as (q & i & Hq & Hi & _ & _ & Hpar).
  destruct (Hpar _ _ _ _ eq_refl) as [Hleft _]. clear Hpar.
  pose proof HF as (Hnd & _ & (Hx & HRl & HRr) & _).
  assert (length (inorder l) < S (size h)) as Hsize.
  { apply Tree_Focus in HF. apply Tree_size in HF. rewrite inorder_plug in HF.
    rewrite !length_app in HF. simpl in HF. rewrite length_app in HF. simpl in HF. lia. }
  unfold node in Hx. repeat tree_read. rewrite Hq.
  eapply (wp_field m_prevPtr_); [exact Hi|]. cbv zeta.
  rewrite (bool_decide_ext _ (Some x = m_prevPtr_ i)) by done. rewrite Hleft, <-Hq.
  repeat tree_read. apply wp_gets. apply wp_bind.
  eapply rightmost_spec; [exact HRl|exact Hsize|exact Hl|]. intros fs l' y b' -> Hfs.
  pose proof (Parts_before _ _ _ _ _ _ _ _ _ _ _ _ Hfs HF) as HP.
  rewrite (parts_perm this x y l' b' fs b r c Hfs) in Hnd.
  clear Hx HRl HRr Hi Hleft Hq HF Hsize. nodes_of HP.
  assert (x ≠ y) as Hxy. { unfold parts in Hnd. rewrite NoDup_cons, not_elem_of_cons in Hnd. tauto. }
  rewrite top_of_plug. destruct fs as [|f fs]; cbn [negb spar top_of rt] in *.
  - repeat tree_step. nodes_changed Hnd HP h.
    by_part Parts_link Hnd HP h.
    repeat tree_read.
    eapply (wp_update (with_parent (Some y))); [exact Hx|].
    nodes_changed Hnd HP h.
    repeat tree_read. by_part Parts_right Hnd HP h.
    repeat tree_read. by_part Parts_left Hnd HP h.
    repeat tree_read.
    eapply (HQ h []); [done|done|]. eapply Parts_after; [done|done|]. by eapply Parts_empty.
  - pose proof (Forall_inv Hfs) as Hf.
    repeat tree_step. nodes_changed Hnd HP h.
    repeat tree_read. by_part Parts_hole Hnd HP h.
    repeat tree_read. by_part Parts_link Hnd HP h.
    repeat tree_read. change (top_of fs (Some (node_of f))) with (top_of (f :: fs) (Some x)).
    eapply (Parts_top _ _ _ _ _ _ (f :: fs)); [exact Hnd|done|exact HP|].
    clear dependent h. intros h HP. nodes_of HP.
    repeat tree_read. by_part Parts_right Hnd HP h.
    repeat tree_read. by_part Parts_left Hnd HP h.
    repeat tree_read.
    eapply (HQ h (f :: fs)); [done|done|]. by eapply Parts_after.
Qed.
End exchange_spec.
