(* ===== verification/AvlTheorems.v ===== *)
(** * The AVL tree as a sorted sequence of items

    Each operation of AvlTree_.cpp against a sequence of items in ascending
    order of their keys: [insert] puts an item at its place or finds its key
    taken, [removeItem] takes it out, [find] is the search of the sequence, and
    the walks are its ends and neighbours. *)

From Stdlib Require Import ZArith Lia.
From stdpp Require Import list_tactics sorting.
From S2P Require Import Prelude AvlTree AvlSpec AvlBalance AvlOps.
Local Open Scope pim_scope.

Lemma filter_none {A} (P : A → Prop) `{∀ x, Decision (P x)} (l : list A) :
  (∀ x, x ∈ l → ¬ P x) → filter P l = [].
Proof.
  intros HP. induction l as [|x l IH]; [done|]. rewrite filter_cons_False by (apply HP; set_solver).
  apply IH. set_solver.
Qed.

Lemma filter_same {A} (P : A → Prop) `{∀ x, Decision (P x)} (l : list A) :
  (∀ x, x ∈ l → P x) → filter P l = l.
Proof.
  intros HP. induction l as [|x l IH]; [done|]. rewrite filter_cons_True by (apply HP; set_solver).
  f_equal. apply IH. set_solver.
Qed.

(** ** Orders of keys *)

Section order.
Context {K : Type} `{!Key K} `{!KeyOrder K}.
Implicit Types a b c : K.
Local Open Scope Z_scope.

Lemma key_gt_lt a b : 0 < compareKey a b ↔ compareKey b a < 0.
Proof. pose proof (compareKey_flip a b). lia. Qed.

Lemma key_eq_sym a b : compareKey a b = 0 ↔ compareKey b a = 0.
Proof. pose proof (compareKey_flip a b). lia. Qed.

Lemma key_lt_eq a b c : compareKey a b < 0 → compareKey b c = 0 → compareKey a c < 0.
Proof.
  intros Hab Hbc. pose proof (compareKey_eq b c a Hbc).
  pose proof (compareKey_flip a b). pose proof (compareKey_flip a c). lia.
Qed.

Lemma key_eq_lt a b c : compareKey a b = 0 → compareKey b c < 0 → compareKey a c < 0.
Proof. intros Hab Hbc. pose proof (compareKey_eq a b c Hab). lia. Qed.

Lemma key_gt_trans a b c : 0 < compareKey a b → 0 < compareKey b c → 0 < compareKey a c.
Proof. rewrite !key_gt_lt. intros. by eapply compareKey_trans. Qed.
End order.

Section theorems.
Context {K : Type} `{!Key K} `{!KeyOrder K}.
Variable getKey : loc → K.
Implicit Types (x y z : loc) (xs ys : list loc) (key : K).

(** The items of a tree in ascending order of their keys. *)
Definition kless x y : Prop := (compareKey (getKey x) (getKey y) < 0)%Z.
Abbreviation ascending := (StronglySorted kless).

(** ** The specification *)

(** A sequence with a new item at its place; [None] when the key is taken. *)
Fixpoint spec_insert n xs : option (list loc) :=
  match xs with
  | [] => Some [n]
  | x :: xs =>
    let c := compareKey (getKey x) (getKey n) in
    if (0 <? c)%Z then Some (n :: x :: xs)
    else if (c =? 0)%Z then None
    else match spec_insert n xs with Some ys => Some (x :: ys) | None => None end
  end.

Definition has_key key x : Prop := compareKey (getKey x) key = 0%Z.

#[local] Instance has_key_dec key x : Decision (has_key key x).
Proof. unfold has_key. apply _. Defined.

Definition spec_find key xs : ptr := head (filter (has_key key) xs).

(** The neighbours of an item. *)
Fixpoint spec_next x xs : ptr :=
  match xs with
  | [] => None
  | y :: ys => if decide (x = y) then head ys else spec_next x ys
  end.

Definition spec_previous x xs : ptr := spec_next x (reverse xs).

Definition spec_remove x xs : list loc := filter (λ y, y ≠ x) xs.

Lemma spec_insert_at n xs ys :
  (∀ x, x ∈ xs → (compareKey (getKey x) (getKey n) < 0)%Z) →
  (∀ y, y ∈ ys → (0 < compareKey (getKey y) (getKey n))%Z) →
  spec_insert n (xs ++ ys) = Some (xs ++ n :: ys).
Proof.
  intros Hxs Hys. induction xs as [|x xs IH]; simpl.
  - destruct ys as [|y ys]; simpl; [done|]. specialize (Hys y ltac:(set_solver)).
    by rewrite (proj2 (Z.ltb_lt _ _) Hys).
  - specialize (Hxs x ltac:(set_solver)) as Hx. rewrite IH by set_solver.
    destruct (Z.ltb_spec 0 (compareKey (getKey x) (getKey n))); [lia|].
    destruct (Z.eqb_spec (compareKey (getKey x) (getKey n)) 0); [lia|done].
Qed.

Lemma spec_insert_taken n xs z :
  ascending xs → z ∈ xs → compareKey (getKey z) (getKey n) = 0%Z → spec_insert n xs = None.
Proof.
  intros Hs Hz Hk. induction xs as [|x xs IH]; [set_solver|].
  apply StronglySorted_cons in Hs as [Hx Hs]. simpl.
  apply elem_of_cons in Hz as [->|Hz].
  - rewrite Hk. done.
  - rewrite Forall_forall in Hx. pose proof (key_lt_eq _ _ _ (Hx _ Hz) Hk).
    destruct (Z.ltb_spec 0 (compareKey (getKey x) (getKey n))); [lia|].
    destruct (Z.eqb_spec (compareKey (getKey x) (getKey n)) 0); [lia|]. by rewrite IH.
Qed.

Lemma spec_next_at x xs ys : x ∉ xs → spec_next x (xs ++ x :: ys) = head ys.
Proof.
  induction xs as [|y xs IH]; simpl; intros Hx; [by rewrite decide_True|].
  rewrite decide_False by set_solver. apply IH. set_solver.
Qed.

Lemma spec_previous_at x xs ys : x ∉ ys → spec_previous x (xs ++ x :: ys) = list.last xs.
Proof.
  intros Hx. unfold spec_previous. rewrite reverse_app, reverse_cons, <-app_assoc. simpl.
  rewrite spec_next_at by (by rewrite elem_of_reverse). apply head_reverse.
Qed.

Lemma spec_find_skip key xs ys :
  (∀ x, x ∈ xs → compareKey (getKey x) key ≠ 0%Z) → spec_find key (xs ++ ys) = spec_find key ys.
Proof.
  intros Hxs. unfold spec_find. rewrite filter_app.
  by rewrite filter_none.
Qed.

Lemma spec_find_take key xs ys :
  (∀ y, y ∈ ys → compareKey (getKey y) key ≠ 0%Z) → spec_find key (xs ++ ys) = spec_find key xs.
Proof.
  intros Hys. unfold spec_find. rewrite filter_app.
  by rewrite (filter_none _ ys), app_nil_r.
Qed.

Lemma spec_remove_at x xs ys : x ∉ xs → x ∉ ys → spec_remove x (xs ++ x :: ys) = xs ++ ys.
Proof.
  intros Hxs Hys. unfold spec_remove. rewrite filter_app, filter_cons_False by auto.
  by rewrite !filter_same by (intros z Hz ->; done).
Qed.

(** ** Searching *)

Implicit Types (h : gmap loc MapItem) (c : ctx) (t T : tree) (inl : loc → ptr).

(** A node against a key decides which side can hold the key. *)
Lemma ascending_gt xs x ys key :
  ascending (xs ++ x :: ys) → (0 < compareKey (getKey x) key)%Z →
  ∀ y, y ∈ x :: ys → (0 < compareKey (getKey y) key)%Z.
Proof.
  intros (_ & _ & [Hys _]%StronglySorted_cons)%StronglySorted_app Hx y [->|Hy]%elem_of_cons; [done|].
  rewrite Forall_forall in Hys. eapply key_gt_trans; [|done]. by apply key_gt_lt, Hys.
Qed.

Lemma ascending_lt xs x ys key :
  ascending (xs ++ x :: ys) → (compareKey (getKey x) key < 0)%Z →
  ∀ y, y ∈ xs ++ [x] → (compareKey (getKey y) key < 0)%Z.
Proof.
  intros (Hlt & _)%StronglySorted_app Hx y [Hy|Hy]%elem_of_app; [|apply list_elem_of_singleton in Hy as ->; done].
  eapply compareKey_trans; [|done]. apply Hlt; set_solver.
Qed.

Lemma ascending_eq xs x ys key :
  ascending (xs ++ x :: ys) → compareKey (getKey x) key = 0%Z →
  ∀ y, y ∈ xs → (compareKey (getKey y) key < 0)%Z.
Proof.
  intros (Hlt & _)%StronglySorted_app Hx y Hy. eapply key_lt_eq; [|done]. apply Hlt; set_solver.
Qed.

Lemma wp_key_of h x i (Q : K → gmap loc MapItem → Prop) :
  h !! x = Some i → Q (getKey x) h → wp (key_of getKey (Some x)) Q h.
Proof.
  intros Hx HQ. unfold key_of. apply wp_bind. simpl. apply wp_bind. by eapply wp_load.
Qed.

Lemma int8_small (z : Z) : (-128 <= z < 128)%Z → int8 z = z.
Proof. intros. unfold int8. rewrite Z.mod_small; lia. Qed.

Lemma find_loop_spec `{!KeyInt8 K} inl key t : ∀ h p fuel (Q : ptr → gmap loc MapItem → Prop),
  Rep inl h t p → ascending (inorder t) → length (inorder t) < fuel →
  Q (spec_find key (inorder t)) h → wp (find_loop getKey fuel (rt t) key) Q h.
Proof.
  induction t as [|l IHl x b r IHr]; intros h p fuel Q HR Hs Hfuel HQ;
    (destruct fuel as [|fuel]; [lia|]); cbn [find_loop rt is_null]; [by apply wp_ret|].
  destruct HR as (Hx & Hl & Hr). simpl in Hs, Hfuel, HQ. rewrite length_app in Hfuel. simpl in Hfuel.
  pose proof Hs as (_ & Hsl & [_ Hsr]%StronglySorted_cons)%StronglySorted_app.
  apply wp_bind. eapply wp_key_of; [done|]. cbv zeta. rewrite int8_small by apply compareKey_int8.
  destruct (Z.ltb_spec 0 (compareKey (getKey x) key)) as [Hgt|Hle].
  - apply wp_bind. eapply (wp_field m_prevPtr_); [done|]. eapply IHl; [done|done|lia|].
    rewrite spec_find_take in HQ; [done|]. intros y Hy.
    pose proof (ascending_gt _ _ _ _ Hs Hgt y Hy). lia.
  - destruct (Z.eqb_spec (compareKey (getKey x) key) 0) as [Heq|Hne].
    + apply wp_ret. rewrite spec_find_skip in HQ.
      * unfold spec_find in HQ. by rewrite filter_cons_True in HQ.
      * intros y Hy. pose proof (ascending_eq _ _ _ _ Hs Heq y Hy). lia.
    + apply wp_bind. eapply (wp_field m_nextPtr_); [done|]. eapply IHr; [done|done|lia|].
      rewrite cons_middle, app_assoc, spec_find_skip in HQ; [done|]. intros y Hy.
      pose proof (ascending_lt _ _ _ key Hs ltac:(lia) y Hy). lia.
Qed.

(** ** The height of a balanced tree *)

(** The least number of nodes of a balanced tree of a given height. *)
Fixpoint min_nodes2 (n : nat) : Z * Z :=
  match n with
  | O => (0, 1)%Z
  | S n => let '(a, b) := min_nodes2 n in (b, a + b + 1)%Z
  end.
Definition min_nodes (n : nat) : Z := fst (min_nodes2 n).

Lemma min_nodes_SS n : min_nodes (S (S n)) = (min_nodes n + min_nodes (S n) + 1)%Z.
Proof. unfold min_nodes. simpl. by destruct (min_nodes2 n) as [a b]. Qed.

Lemma min_nodes_mono n : (0 <= min_nodes n <= min_nodes (S n))%Z.
Proof.
  induction n as [|n IH]; [done|]. rewrite min_nodes_SS. lia.
Qed.

Lemma avl_min_nodes t n : avl t n → (min_nodes n <= Z.of_nat (length (inorder t)))%Z.
Proof.
  induction 1 as [|l x r n _ IHl _ IHr|l x r n _ IHl _ IHr|l x r n _ IHl _ IHr]; [done|..];
    simpl; rewrite length_app; simpl; rewrite ?min_nodes_SS;
    pose proof (min_nodes_mono n); try lia.
  destruct n as [|n]; [change (min_nodes 1) with 1%Z; lia|]. rewrite min_nodes_SS.
  pose proof (min_nodes_mono n). lia.
Qed.

Lemma min_nodes_le n m : n <= m → (min_nodes n <= min_nodes m)%Z.
Proof. induction 1 as [|m _ IH]; [lia|]. pose proof (min_nodes_mono m). lia. Qed.

(** The number of items from which on a tree could be deeper than the array of
    comparisons of [insert] is long. *)
Definition item_limit : Z := 9227464.

Lemma avl_height t n :
  avl t n → (Z.of_nat (length (inorder t)) < item_limit)%Z → n <= MAX_TREE_DEPTH.
Proof.
  intros Ht%avl_min_nodes Hlt. destruct (decide (n <= MAX_TREE_DEPTH)) as [|Hn]; [done|].
  pose proof (min_nodes_le 33 n ltac:(unfold MAX_TREE_DEPTH in Hn; lia)) as Hle.
  change (min_nodes 33) with item_limit in Hle. lia.
Qed.

Lemma avlc_length c n m : avlc c n m → n + length c <= m.
Proof. induction 1; simpl; lia. Qed.

(** ** Insertion *)

Section insertion.
Context (this : loc) (inl : loc → ptr) (g : gmap loc MapItem).
Notation Focus := (Focus this inl g).

Definition before n c : Prop :=
  (∀ z, z ∈ lefts c → (compareKey (getKey z) (getKey n) < 0)%Z)
  ∧ (∀ z, z ∈ rights c → (0 < compareKey (getKey z) (getKey n))%Z).

(** The place [insert_descend] finds: the hole of a path, the new item linked
    there already. *)
Definition placed h h' new T m c : Prop :=
  c ≠ [] ∧ plug c Lf = T ∧ avlc c 0 m ∧ RepC this inl h' c (Some new)
  ∧ same_off (this :: lefts c ++ rights c) h h' ∧ before new c.

Lemma hole_avlc c T m : plug c Lf = T → avl T m → avlc c 0 m.
Proof. intros <- (k & Hk & Hc)%avl_unplug. by inversion Hk; subst. Qed.

Lemma link_placed h c new T m (Q : option (ptr * list Z) → gmap loc MapItem → Prop) :
  c ≠ [] → Focus h c Lf → plug c Lf = T → avl T m → before new c →
  (∀ h', placed h h' new T m c → Q (Some (par this c, dirs c)) h') →
  wp ((if left_hole c then setLeft (par this c) (Some new) else setRight (par this c) (Some new));;
      ret (Some (par this c, dirs c))) Q h.
Proof.
  intros Hne HF HT Havl Hb HQ. destruct HF as (Hnd & HC & _). apply wp_bind.
  eapply link_spec; [exact HC|exact Hnd|]. intros h' HC' Hoff. apply wp_ret, HQ.
  split_and!; try done; try by eapply hole_avlc. all: apply Hb.
Qed.

Lemma insert_descend_spec new T m t : ∀ h c fuel (Q : option (ptr * list Z) → gmap loc MapItem → Prop),
  Focus h c t → t ≠ Lf → plug c t = T → length (inorder t) < fuel →
  avl T m → m <= MAX_TREE_DEPTH → ascending (inorder t) → is_Some (h !! new) → before new c →
  (∀ z, z ∈ inorder t → compareKey (getKey z) (getKey new) = 0%Z → Q None h) →
  (∀ h' c', placed h h' new T m c' → Q (Some (par this c', dirs c')) h') →
  wp (insert_descend getKey fuel (rt t) (Some new) (dirs c)) Q h.
Proof.
  induction t as [|l IHl x b r IHr]; [done|].
  intros h c fuel Q HF _ HT Hfuel Havl Hm Hs [i Hi] [Hbl Hbr] HQn HQs.
  destruct fuel as [|fuel]; [lia|]. cbn [insert_descend rt].
  pose proof (Focus_node _ _ _ _ _ _ _ _ _ HF) as Hx. unfold node in Hx.
  simpl in Hs, Hfuel. rewrite length_app in Hfuel. simpl in Hfuel.
  pose proof Hs as (_ & Hsl & [_ Hsr]%StronglySorted_cons)%StronglySorted_app.
  apply wp_bind. eapply wp_key_of; [exact Hx|].
  apply wp_bind. eapply wp_key_of; [exact Hi|]. cbv zeta. apply wp_bind, wp_assert.
  { rewrite length_dirs. apply Nat.ltb_lt. pose proof Havl as H. rewrite <-HT in H.
    apply avl_unplug in H as (n & Hn & Hc). apply avlc_length in Hc.
    inversion Hn; subst; lia. }
  set (k := compareKey (getKey x) (getKey new)).
  destruct (Z.ltb_spec k 0) as [Hlt|Hge]; [|destruct (Z.ltb_spec 0 k) as [Hgt|Hle]].
  - cbn [Z.ltb Z.compare]. apply wp_bind. eapply (wp_field m_nextPtr_); [exact Hx|]. cbn [m_nextPtr_].
    change [(-1)%Z] with [dir (FR l x b)]. rewrite <-dirs_cons.
    pose proof (Focus_right _ _ _ _ _ _ _ _ _ HF) as HF'.
    assert (before new (FR l x b :: c)) as Hb.
    { split; [|done]. intros z. simpl. rewrite elem_of_app. intros [|Hz]; [auto|].
      by eapply ascending_lt. }
    destruct r as [|r1 y b2 r2]; cbn [rt is_null].
    + eapply (link_placed _ (FR l x b :: c)); try done. intros h' Hp. by apply HQs.
    + eapply (IHr h (FR l x b :: c)); try done; try lia.
      intros z Hz. apply HQn. simpl. set_solver.
  - replace (0 <? 1)%Z with true by done.
    apply wp_bind. eapply (wp_field m_prevPtr_); [exact Hx|]. cbn [m_prevPtr_].
    change [1%Z] with [dir (FL x b r)]. rewrite <-dirs_cons.
    pose proof (Focus_left _ _ _ _ _ _ _ _ _ HF) as HF'.
    assert (before new (FL x b r :: c)) as Hb.
    { split; [done|]. intros z. simpl. rewrite elem_of_cons, elem_of_app. intros [->|[Hz|]]; [done| |auto].
      eapply ascending_gt; [done|done|]. set_solver. }
    destruct l as [|l1 y b2 l2]; cbn [rt is_null].
    + eapply (link_placed _ (FL x b r :: c)); try done. intros h' Hp. by apply HQs.
    + eapply (IHl h (FL x b r :: c)); try done; try lia.
      intros z Hz. apply HQn. simpl in *. set_solver.
  - replace (0 <? 0)%Z with false by done.
    apply wp_ret. apply (HQn x); [simpl; set_solver|]. fold k. lia.
Qed.
End insertion.

(** ** The tree between operations *)

(** The container marks of the nodes change, nothing else does. *)
Lemma Rep_marks inl inl' h h' t p :
  Rep inl h t p → (∀ z, z ∈ inorder t → h' !! z = with_inList (inl' z) <$> h !! z) → Rep inl' h' t p.
Proof.
  revert p. induction t as [|l IHl x b r IHr]; intros p HR Hh; [done|].
  destruct HR as (Hx & Hl & Hr). simpl in Hh. split_and!.
  - rewrite Hh, Hx by set_solver. done.
  - apply IHl; [done|]. intros z Hz. apply Hh. set_solver.
  - apply IHr; [done|]. intros z Hz. apply Hh. set_solver.
Qed.

Lemma RepC_marks this inl inl' h h' c hp :
  RepC this inl h c hp → h' !! this = h !! this →
  (∀ z, z ∈ lefts c ++ rights c → h' !! z = with_inList (inl' z) <$> h !! z) → RepC this inl' h' c hp.
Proof.
  intros HC Hroot. revert hp HC. induction c as [|[x b r|l x b] c IH]; intros hp HC Hh.
  - simpl in *. by rewrite Hroot.
  - destruct HC as (Hx & Hr & HC). simpl in Hh. split_and!.
    + rewrite Hh, Hx by set_solver. done.
    + eapply Rep_marks; [done|]. intros z Hz. apply Hh. set_solver.
    + apply IH; [done|]. intros z Hz. apply Hh. set_solver.
  - destruct HC as (Hx & Hl & HC). simpl in Hh. split_and!.
    + rewrite Hh, Hx by set_solver. done.
    + eapply Rep_marks; [done|]. intros z Hz. apply Hh. set_solver.
    + apply IH; [done|]. intros z Hz. apply Hh. set_solver.
Qed.

Lemma Rep_lookup inl h t p x :
  Rep inl h t p → x ∈ inorder t → ∃ i, h !! x = Some i ∧ m_inListPtr_ i = inl x.
Proof.
  revert p. induction t as [|l IHl y b r IHr]; intros p; simpl; [set_solver|].
  intros (Hy & Hl & Hr) [Hx|[->|Hx]%elem_of_cons]%elem_of_app; eauto.
Qed.

Lemma RepC_lookup this inl h c hp x :
  RepC this inl h c hp → x ∈ lefts c ++ rights c → ∃ i, h !! x = Some i ∧ m_inListPtr_ i = inl x.
Proof.
  revert hp. induction c as [|[y b r|l y b] c IH]; intros hp; simpl; [by rewrite elem_of_nil| |];
    intros (Hy & Hside & HC); specialize (IH _ HC); rewrite elem_of_app in IH.
  - rewrite elem_of_app, elem_of_cons, elem_of_app.
    intros [Hx|[->|[Hx|Hx]]]; [auto|eauto|by eapply Rep_lookup|auto].
  - rewrite !elem_of_app, list_elem_of_singleton.
    intros [[Hx|[Hx| ->]]|Hx]; [auto|by eapply Rep_lookup|eauto|auto].
Qed.

(** An item that is in the tree. *)
Lemma in_focus t x : x ∈ inorder t → ∃ c l b r, t = plug c (Nd l x b r).
Proof.
  induction t as [|l IHl y b r IHr]; simpl; [set_solver|].
  intros [(c & l' & b' & r' & ->)%IHl|[->|(c & l' & b' & r' & ->)%IHr]%elem_of_cons]%elem_of_app.
  - exists (c ++ [FL y b r]), l', b', r'. by rewrite plug_app.
  - by exists [], l, b, r.
  - exists (c ++ [FR l y b]), l', b', r'. by rewrite plug_app.
Qed.

(** The memory holds a balanced search tree of the given items. *)
Definition Avl (this : loc) h xs : Prop := Balanced this (λ _, Some this) h h xs ∧ ascending xs.

Definition unmarked (this new : loc) : loc → ptr := λ z, if decide (z = new) then None else Some this.

(** The last step of [insert]: the new item gets its mark. *)
Lemma insert_mark this g h new xs ys (Q : unit → gmap loc MapItem → Prop) :
  Balanced this (unmarked this new) g h (xs ++ new :: ys) →
  (∀ h', Balanced this (λ _, Some this) g h' (xs ++ new :: ys) → Q tt h') →
  wp (insert_ (Some new) (Some this)) Q h.
Proof.
  intros (T & n & (Hnd & Hroot & HR & Hout) & Hn & Hin) HQ.
  assert (new ∈ inorder T) as Hnew by (rewrite Hin; set_solver).
  destruct (Rep_lookup _ _ _ _ _ HR Hnew) as (i & Hi & Hmark).
  unfold unmarked in Hmark. rewrite decide_True in Hmark by done.
  unfold insert_. apply wp_bind. eapply wp_load; [done|]. rewrite Hmark. cbn [is_null].
  eapply wp_update; [done|]. apply HQ. exists T, n. split_and!; [|done|done].
  apply NoDup_cons in Hnd as [Hthis Hnd].
  split_and!; [by constructor| | |].
  - rewrite lookup_insert_ne; [done|]. by intros ->.
  - eapply Rep_marks; [done|]. intros z Hz. destruct (decide (z = new)) as [->|Hne].
    + by rewrite lookup_insert_eq, Hi.
    + rewrite lookup_insert_ne by done.
      destruct (Rep_lookup _ _ _ _ _ HR Hz) as (j & Hj & Hm). rewrite Hj. simpl.
      unfold unmarked in Hm. rewrite decide_False in Hm by done. destruct j. simpl in *. by subst.
  - intros z Hz. rewrite lookup_insert_ne; [by apply Hout|]. set_solver.
Qed.

Lemma insert_spec this h xs new i (Q : bool → gmap loc MapItem → Prop) :
  Avl this h xs → new ≠ this → h !! new = Some i → (new ∉ xs → m_inListPtr_ i = None) →
  (Z.of_nat (length xs) < item_limit)%Z →
  (spec_insert new xs = None → Q false h) →
  (∀ h' xs', spec_insert new xs = Some xs' → Avl this h' xs' → same_off (this :: new :: xs) h h' → Q true h') →
  wp (insert getKey this new) Q h.
Proof.
  intros [(T & m & HT & Hm & Hin) Hs] Hne Hi Hfree Hlim HQf HQt.
  assert (∀ h' ys zs, xs = ys ++ zs →
    (∀ z, z ∈ ys → (compareKey (getKey z) (getKey new) < 0)%Z) →
    (∀ z, z ∈ zs → (0 < compareKey (getKey z) (getKey new))%Z) →
    Balanced this (λ _, Some this) h h' (ys ++ new :: zs) → Q true h') as Hdone.
  { intros h' ys zs -> Hys Hzs (T' & n' & (Hnd & Hroot & HR & Hout) & Hn' & Hin').
    eapply HQt; [by apply spec_insert_at|split|].
    - exists T', n'. split_and!; [by split_and!|done|done].
    - apply StronglySorted_app in Hs as (Hyz & Hsy & Hsz). apply StronglySorted_app.
      split_and!; [|done|].
      + intros y z Hy [->|Hz]%elem_of_cons; [by apply Hys|by apply Hyz].
      + apply StronglySorted_cons. split; [|done]. apply Forall_forall. intros z Hz.
        by apply key_gt_lt, Hzs.
    - intros z Hz. apply Hout. rewrite Hin'. set_solver. }
  unfold insert. apply wp_bind. pose proof HT as (Hnd & Hroot & HR & _).
  eapply (wp_field m_prevPtr_); [exact Hroot|]. cbn [root_item m_prevPtr_].
  destruct T as [|l x b r]; cbn [rt is_null].
  - simpl in Hin. subst xs. apply wp_bind. eapply wp_update; [exact Hi|]. rewrite Hfree by set_solver.
    apply wp_bind. eapply wp_update; [by rewrite lookup_insert_ne|].
    apply wp_bind. eapply (insert_mark this h _ new [] []); [|intros h' HB; apply wp_ret].
    + exists (Nd Lf new eEVEN_ Lf), 1. split_and!; [|by constructor; constructor|done].
      split_and!.
      * apply NoDup_cons. split; [set_solver|apply NoDup_singleton].
      * by rewrite lookup_insert_eq.
      * simpl. split_and!; [|done|done]. rewrite lookup_insert_ne, lookup_insert_eq by done.
        unfold node, unmarked. simpl. by rewrite decide_True.
      * intros z Hz. simpl in Hz. rewrite !lookup_insert_ne; set_solver.
    + apply (Hdone h' [] []); [done|set_solver|set_solver|done].
  - apply wp_bind. apply wp_gets.
    apply wp_bind.
    eapply (insert_descend_spec this _ h new (Nd l x b r) m (Nd l x b r) h []); try done.
    + by apply Tree_Focus.
    + apply Tree_size in HT. lia.
    + eapply avl_height; [done|]. by rewrite Hin.
    + by rewrite Hin.
    + split; intros z; simpl; set_solver.
    + intros z Hz Hk. apply wp_ret, HQf. eapply spec_insert_taken; [done| |done]. by rewrite <-Hin.
    + intros h1 c (Hc & HcT & Hcavl & HC1 & Hoff & Hb1 & Hb2).
      assert (xs = lefts c ++ rights c) as Hxs.
      { rewrite <-Hin, <-HcT, inorder_plug. done. }
      assert (new ∉ lefts c ++ rights c) as Hnew.
      { rewrite elem_of_app. intros [Hz|Hz]; [apply Hb1 in Hz|apply Hb2 in Hz];
          rewrite compareKey_refl in Hz; lia. }
      assert (h1 !! new = Some i) as Hi1.
      { rewrite Hoff; [done|]. rewrite not_elem_of_cons. done. }
      apply wp_bind. eapply wp_update; [exact Hi1|]. rewrite Hfree by by rewrite Hxs.
      apply wp_bind. rewrite <-(app_nil_r (dirs c)) at 2. rewrite length_dirs.
      eapply (insert_retrace_spec this (unmarked this new) h c _ (Nd Lf new eEVEN_ Lf) 0 m); [done| | |done|].
      * split_and!.
        -- simpl. rewrite <-Permutation_middle, perm_swap. apply NoDup_cons.
           rewrite not_elem_of_cons. split; [done|]. rewrite <-Hxs, <-Hin. done.
        -- eapply RepC_insert; [done| | |]; [set_solver|set_solver|].
           eapply (RepC_marks _ (λ _, Some this)); [done|done|].
           intros z Hz. destruct (RepC_lookup _ _ _ _ _ _ HC1 Hz) as (j & Hj & Hmark).
           rewrite Hj. simpl. unfold unmarked. rewrite decide_False by (by intros ->).
           destruct j. simpl in *. by subst.
        -- simpl. split_and!; [|done|done]. rewrite lookup_insert_eq. unfold node, unmarked. simpl.
           by rewrite decide_True.
        -- intros z Hz. simpl in Hz. rewrite lookup_insert_ne by set_solver. apply Hoff. set_solver.
      * split; [by constructor; constructor|by left].
      * intros h2 HB. apply wp_bind. eapply insert_mark; [exact HB|]. intros h3 HB3. apply wp_ret.
        by eapply (Hdone h3 (lefts c) (rights c)).
Qed.

(** ** Removal *)

Definition only_child l r : tree := match l with Lf => r | _ => l end.

Lemma avl_only_child l x b r k :
  avl (Nd l x b r) k → l = Lf ∨ r = Lf → ∃ n, k = S n ∧ avl (only_child l r) n.
Proof.
  intros Ht [->| ->]; inversion Ht as [|l' x' r' n Hl Hr|l' x' r' n Hl Hr|l' x' r' n Hl Hr]; subst; simpl.
  - inversion Hl.
  - inversion Hl; subst. eauto.
  - inversion Hl; subst. eauto.
  - inversion Hr; subst. exists 1. split; [done|]. by destruct l; [inversion Hl|].
  - inversion Hr; subst. exists 0. split; [done|]. by inversion Hl; subst.
  - inversion Hr.
Qed.

Lemma Tree_insert_out this inl g h T x i :
  Tree this inl g h T → x ∉ this :: inorder T → Tree this inl (<[x := i]> h) (<[x := i]> h) T.
Proof.
  rewrite not_elem_of_cons. intros (Hnd & Hroot & HR & _) [Hne Hx]. split_and!.
  - done.
  - by rewrite lookup_insert_ne.
  - by apply Rep_insert.
  - done.
Qed.

Lemma Focus_size this inl g h c t : Focus this inl g h c t → length c < size h.
Proof.
  intros HT%Tree_Focus%Tree_size. rewrite inorder_plug, !length_app in HT.
  assert (length c <= length (lefts c) + length (rights c)); [|lia].
  clear. induction c as [|[? ? ?|? ? ?] c IH]; simpl; rewrite ?length_app; simpl; rewrite ?length_app; simpl; lia.
Qed.

(** [removeItem] from the point where the node has at most one child. *)
Definition remove_tail (node : loc) : ST (gmap loc MapItem) ptr :=
  parentPtr ← getParent (Some node);
  l ← getLeft (Some node);
  r ← getRight (Some node);
  let childPtr := if negb (is_null l) then l else if negb (is_null r) then r else None in
  pl ← getLeft parentPtr;
  let is_left := bool_decide (Some node = pl) in
  (if is_left then setLeft parentPtr childPtr else setRight parentPtr childPtr);;
  (if is_null childPtr then ret tt else setParent childPtr parentPtr);;
  fuel ← walk_fuel;
  remove_retrace fuel parentPtr is_left true;;
  initialize (Some node) None;;
  remove_ (Some node);;
  ret (Some node).

Definition free_item : MapItem := mkMapItem None None None None true eEVEN_.

Lemma remove_tail_spec this inl g h c l x b r m (Q : ptr → gmap loc MapItem → Prop) :
  Focus this inl g h c (Nd l x b r) → l = Lf ∨ r = Lf → avl (plug c (Nd l x b r)) m →
  (∀ h' ys, ys = lefts c ++ inorder l ++ inorder r ++ rights c →
     Balanced this inl h' h' ys → h' !! x = Some free_item →
     same_off (this :: x :: ys) h h' → Q (Some x) h') →
  wp (remove_tail x) Q h.
Proof.
  intros HF Hone Havl HQ. unfold remove_tail.
  destruct (Focus_parent _ _ _ _ _ _ HF) as (q & i & Hq & Hi & _ & _ & Hpar).
  destruct (Hpar _ _ _ _ eq_refl) as [Hleft _]. clear Hpar.
  pose proof HF as (Hnd & HC & (Hx & HRl & HRr) & _). cbn [rt] in HC. unfold node in Hx.
  set (t := only_child l r).
  assert ((if negb (is_null (rt l)) then rt l else if negb (is_null (rt r)) then rt r else None) = rt t)
    as Hchild by (destruct l; [by destruct r|done]).
  assert (Rep inl h t (Some x)) as HRt by (unfold t; destruct l; done).
  assert (inorder l ++ inorder r = inorder t) as Hin.
  { unfold t. destruct Hone as [->| ->]; [done|]. rewrite app_nil_r. by destruct l. }
  assert (NoDup (x :: this :: lefts c ++ inorder t ++ rights c)) as Hnd'.
  { assert (x :: this :: lefts c ++ inorder t ++ rights c
      ≡ₚ this :: lefts c ++ inorder (Nd l x b r) ++ rights c) as ->; [|done].
    rewrite <-Hin. simpl. solve_Permutation. }
  clear Hnd. apply NoDup_cons in Hnd' as [Hxout Hnd].
  repeat tree_read. rewrite Hq. eapply (wp_field m_prevPtr_); [exact Hi|]. cbv zeta.
  rewrite Hleft, Hchild, <-Hq. apply wp_bind.
  assert (NoDup (this :: lefts c ++ rights c) ∧ NoDup (inorder t)
    ∧ (∀ z, z ∈ inorder t → z ∉ this :: lefts c ++ rights c)) as (Hndc & Hndt & Hapart).
  { assert (NoDup (inorder t ++ this :: lefts c ++ rights c)) as H.
    { assert (inorder t ++ this :: lefts c ++ rights c ≡ₚ this :: lefts c ++ inorder t ++ rights c) as ->;
        [solve_Permutation|done]. }
    apply NoDup_app in H. tauto. }
  eapply link_spec; [exact HC|exact Hndc|]. intros h1 HC1 Hoff1. apply wp_bind.
  assert (Rep inl h1 t (Some x)) as HRt1.
  { eapply Rep_same; [|exact HRt]. by eapply same_off_on. }
  eapply reparent_spec; [exact HRt1|exact Hndt|]. intros h2 HRt2 Hoff2. apply wp_bind.
  assert (Focus this inl h2 h2 c t) as HF2.
  { split_and!; [done| |done|done]. eapply RepC_same; [|exact HC1]. eapply same_off_on; [done|].
    intros z Hz Hz'. by eapply Hapart. }
  apply wp_gets. apply wp_bind.
  apply avl_unplug in Havl as (k & Hk & Hck). apply avl_only_child in Hk as (n & -> & Hn); [|done].
  pose proof (Focus_size _ _ _ _ _ _ HF2) as Hsize.
  eapply (remove_retrace_spec this inl h2 c h2 t n m); [lia|done|exact HF2|exact Hn|exact Hck|].
  intros h3 (T & m' & (Hnd3 & Hroot3 & HR3 & Hout3) & Hm' & HinT). apply wp_bind.
  assert (h3 !! x = h !! x) as Hx3.
  { rewrite Hout3 by (rewrite HinT; done). rewrite not_elem_of_cons, !not_elem_of_app in Hxout.
    rewrite Hoff2, Hoff1; [done| |tauto]. rewrite not_elem_of_cons, not_elem_of_app. tauto. }
  eapply wp_update; [by rewrite Hx3|]. apply wp_bind. unfold remove_. cbn [is_null].
  eapply wp_update; [by rewrite lookup_insert_eq|]. rewrite insert_insert_eq. apply wp_ret.
  eapply HQ; [reflexivity| | |].
  - exists T, m'. split_and!; [|done|].
    + eapply Tree_insert_out; [by split_and!|]. by rewrite HinT.
    + rewrite HinT. rewrite <-Hin. by list_norm.
  - by rewrite lookup_insert_eq.
  - intros z Hz. rewrite !app_assoc, <-(app_assoc _ (inorder l)), Hin, <-!app_assoc in Hz.
    rewrite !not_elem_of_cons, !not_elem_of_app in Hz.
    rewrite lookup_insert_ne by (intros ->; tauto). rewrite Hout3.
    + rewrite Hoff2, Hoff1; [done| |tauto]. rewrite not_elem_of_cons, not_elem_of_app. tauto.
    + rewrite HinT, not_elem_of_cons, !not_elem_of_app. tauto.
Qed.

(** The exchange keeps the shape. *)
Lemma avl_exchange c fs l' x y b b' r m :
  avl (plug c (Nd (plug fs (Nd l' y b' Lf)) x b r)) m →
  avl (plug c (Nd (plug fs (Nd l' x b' Lf)) y b r)) m.
Proof.
  intros (n & Hn & Hc)%avl_unplug. eapply avl_plug; [exact Hc|].
  assert (∀ k, avl (plug fs (Nd l' y b' Lf)) k → avl (plug fs (Nd l' x b' Lf)) k) as Hfs.
  { intros k (j & Hj & Hcj)%avl_unplug. eapply avl_plug; [exact Hcj|].
    inversion Hj; subst; eauto with pim. }
  inversion Hn; subst; eauto with pim.
Qed.

Lemma lefts_app c1 c2 : lefts (c1 ++ c2) = lefts c2 ++ lefts c1.
Proof.
  induction c1 as [|[x b r|l x b] c1 IH]; simpl; [by rewrite app_nil_r|done|].
  rewrite IH. by list_norm.
Qed.

Lemma rights_app c1 c2 : rights (c1 ++ c2) = rights c1 ++ rights c2.
Proof. induction c1 as [|[x b r|l x b] c1 IH]; simpl; [done| |done]. rewrite IH. by list_norm. Qed.

Lemma ascending_remove xs x ys : ascending (xs ++ x :: ys) → ascending (xs ++ ys).
Proof.
  intros (Hlt & Hxs & [_ Hys]%StronglySorted_cons)%StronglySorted_app.
  apply StronglySorted_app. split_and!; [|done|done]. set_solver.
Qed.

Lemma removeItem_spec this h xs x i (Q : ptr → gmap loc MapItem → Prop) :
  Avl this h xs → h !! x = Some i → (x ∉ xs → m_inListPtr_ i = None) →
  (x ∉ xs → Q None h) →
  (∀ h', x ∈ xs → Avl this h' (spec_remove x xs) → h' !! x = Some free_item →
     same_off (this :: xs) h h' → Q (Some x) h') →
  wp (removeItem this x) Q h.
Proof.
  intros [(T & m & HT & Hm & HinT) Hs] Hi Hfree HQn HQs. unfold removeItem, isInContainer_.
  apply wp_bind. apply wp_bind. eapply wp_load; [exact Hi|]. apply wp_ret.
  destruct (decide (x ∈ xs)) as [Hin|Hnin]; last first.
  { rewrite Hfree by done. by apply wp_ret, HQn. }
  pose proof HT as (_ & _ & HR & _).
  assert (m_inListPtr_ i = Some this) as ->.
  { rewrite <-HinT in Hin. destruct (Rep_lookup _ _ _ _ _ HR Hin) as (j & Hj & Hmark). congruence. }
  rewrite bool_decide_eq_true_2 by done. cbn [negb].
  rewrite <-HinT in Hin. apply in_focus in Hin as (c & l & b & r & ->).
  pose proof HT as HF%Tree_Focus. clear HT HR. rewrite inorder_plug in HinT. simpl in HinT.
  assert (x ∉ lefts c ++ inorder l ∧ x ∉ inorder r ++ rights c) as [Hx1 Hx2].
  { pose proof HF as ([_ Hnd]%NoDup_cons & _). simpl in Hnd. rewrite <-app_assoc in Hnd.
    rewrite app_assoc in Hnd. apply NoDup_middle in Hnd. tauto. }
  assert (xs = (lefts c ++ inorder l) ++ x :: inorder r ++ rights c) as Hxs.
  { rewrite <-HinT. by list_norm. }
  assert (spec_remove x xs = lefts c ++ inorder l ++ inorder r ++ rights c) as Hrem.
  { rewrite Hxs, spec_remove_at by done. by list_norm. }
  assert (∀ h' ys, ys = spec_remove x xs → Balanced this (λ _, Some this) h' h' ys →
    h' !! x = Some free_item → same_off (this :: xs) h h' → Q (Some x) h') as Hdone.
  { intros h' ys -> HB Hx' Hoff. apply HQs; [rewrite Hxs; set_solver| |done|done].
    split; [done|]. rewrite Hxs, spec_remove_at by done. eapply ascending_remove. by rewrite <-Hxs. }
  pose proof (Focus_node _ _ _ _ _ _ _ _ _ HF) as Hx. unfold node in Hx. repeat tree_read.
  destruct (negb (is_null (rt l)) && negb (is_null (rt r))) eqn:Eboth.
  - eapply (exchange_spec _ _ _ _ _ _ _ _ _ _ HF); [by destruct l|destruct r; [by rewrite andb_false_r in Eboth|done]|].
    intros h1 fs l' y b' -> Hfs HF1.
    assert (plug (fs ++ FL y b r :: c) (Nd l' x b' Lf) = plug c (Nd (plug fs (Nd l' x b' Lf)) y b r)) as Hplug.
    { by rewrite plug_app. }
    eapply (remove_tail_spec _ _ _ _ _ _ _ _ _ m _ HF1); [by right| |].
    + rewrite Hplug. by apply avl_exchange.
    + intros h2 ys Hys HB Hx2' Hoff.
      assert (ys = spec_remove x xs) as ->.
      { rewrite Hys, Hrem, lefts_app, rights_app, inorder_plug. simpl.
        rewrite lefts_right_frames by done. by list_norm. }
      eapply (Hdone h2 _ eq_refl); [done|done|]. intros z Hz.
      assert (z ∉ this :: x :: spec_remove x xs) as Hz'.
      { rewrite Hrem. rewrite Hxs in Hz. set_solver. }
      rewrite Hoff by done. destruct HF1 as (_ & _ & _ & Hout1). apply Hout1.
      intros Hz1. apply Hz'. rewrite Hrem. revert Hz1.
      rewrite lefts_app, rights_app, inorder_plug. simpl. rewrite lefts_right_frames by done. simpl.
      list_norm. set_solver.
  - apply wp_ret. eapply (remove_tail_spec _ _ _ _ _ _ _ _ _ m _ HF); [|done|].
    + destruct l; [by left|]. destruct r; [by right|done].
    + intros h2 ys Hys HB Hx2' Hoff. eapply (Hdone h2 ys); [congruence|done|done|].
      intros z Hz. apply Hoff. rewrite Hxs in Hz. rewrite Hys. set_solver.
Qed.
End theorems.
