(* ===== verification/AvlProgram.v ===== *)
(** * Programs on an AVL tree

    The walks of AvlTree_.cpp, and any sequence of operations on a tree and its
    items against the sorted sequence.  Then the keys of Key.h: those of the
    plain types satisfy what the tree asks of them, those of strings do not when
    lengths differ by 128 or more. *)

From Stdlib Require Import ZArith Lia.
From stdpp Require Import list_tactics sorting.
From S2P Require Import Prelude AvlTree AvlSpec AvlBalance AvlOps AvlTheorems.
Local Open Scope pim_scope.

Section walks.
Context {K : Type} `{!Key K} `{!KeyOrder K}.
Variable getKey : loc → K.
Implicit Types (this x : loc) (xs : list loc) (h : gmap loc MapItem).
Notation Avl := (Avl getKey).
Notation ascending := (StronglySorted (kless getKey)).

Lemma Avl_top this h xs :
  Avl this h xs → ∃ T, Tree this (λ _, Some this) h h T ∧ inorder T = xs ∧ ascending xs
    ∧ h !! this = Some (root_item (rt T)) ∧ length (inorder T) < S (size h).
Proof.
  intros [(T & n & HT & _ & Hin) Hs]. exists T. pose proof HT as (_ & Hroot & _).
  apply Tree_size in HT as Hsize. split_and!; try done. lia.
Qed.

Lemma find_spec `{!KeyInt8 K} this h xs key (Q : ptr → gmap loc MapItem → Prop) :
  Avl this h xs → Q (spec_find getKey key xs) h → wp (find getKey this key) Q h.
Proof.
  intros (T & (_ & _ & HR & _) & <- & Hs & Hroot & Hsize)%Avl_top HQ. unfold find.
  apply wp_bind. eapply (wp_field m_prevPtr_); [done|]. apply wp_bind, wp_gets.
  by eapply find_loop_spec.
Qed.

Lemma first_spec this h xs (Q : ptr → gmap loc MapItem → Prop) :
  Avl this h xs → Q (head xs) h → wp (first this) Q h.
Proof.
  intros (T & (_ & _ & HR & _) & <- & Hs & Hroot & Hsize)%Avl_top HQ. unfold first.
  apply wp_bind. eapply (wp_field m_prevPtr_); [done|]. cbn [root_item m_prevPtr_].
  destruct (is_null (rt T)) eqn:E; [by destruct T; [apply wp_ret|]|].
  apply wp_bind, wp_gets. eapply leftmost_spec; [done|done|by intros ->|done].
Qed.

Lemma last_spec this h xs (Q : ptr → gmap loc MapItem → Prop) :
  Avl this h xs → Q (list.last xs) h → wp (last this) Q h.
Proof.
  intros (T & (_ & _ & HR & _) & <- & Hs & Hroot & Hsize)%Avl_top HQ. unfold last.
  apply wp_bind. eapply (wp_field m_prevPtr_); [done|]. cbn [root_item m_prevPtr_].
  destruct (is_null (rt T)) eqn:E; [by destruct T; [apply wp_ret|]|].
  apply wp_bind, wp_gets. apply wp_bind.
  eapply rightmost_last; [done|done|by intros ->|]. intros b. by apply wp_ret.
Qed.

(** ** Climbing to an ancestor *)

Section climb.
Context (this : loc) (inl : loc → ptr) (g : gmap loc MapItem).
Notation Focus := (Focus this inl g).

(** From a node up while it is a right child: the ancestor is the top or a left
    child, and what follows it in the sequence is the same. *)
Lemma climb_right c : ∀ h l x b r fuel (Q : ptr → gmap loc MapItem → Prop),
  Focus h c (Nd l x b r) → length c < fuel →
  (∀ c' l' x' b' r', Focus h c' (Nd l' x' b' r') → left_hole c' = true → rights c' = rights c →
     Q (Some x') h) →
  wp (climb fuel true (Some x)) Q h.
Proof.
  induction c as [|f c IH]; intros h l x b r fuel Q HF Hfuel HQ; (destruct fuel as [|fuel]; [lia|]);
    cbn [climb]; destruct (Focus_parent _ _ _ _ _ _ HF) as (q & i & Hq & Hi & _ & _ & Hpar);
    destruct (Hpar _ _ _ _ eq_refl) as [_ Hright];
    pose proof (Focus_node _ _ _ _ _ _ _ _ _ HF) as Hx; unfold node in Hx; repeat tree_read;
    rewrite Hq; (eapply (wp_field m_nextPtr_); [exact Hi|]);
    rewrite (bool_decide_ext _ (Some x = m_nextPtr_ i)), Hright by done.
  - simpl. apply wp_ret. by eapply HQ.
  - destruct f as [y b' r'|l' y b']; cbn [left_hole negb].
    + apply wp_ret. by eapply HQ.
    + rewrite <-Hq. cbn [par node_of]. eapply IH; [by apply Focus_up_r|simpl in Hfuel; lia|]. exact HQ.
Qed.

Lemma climb_left c : ∀ h l x b r fuel (Q : ptr → gmap loc MapItem → Prop),
  Focus h c (Nd l x b r) → S (length c) < fuel →
  (∀ c' l' x' b' r', Focus h c' (Nd l' x' b' r') → left_hole c' = false → lefts c' = lefts c →
     Q (Some x') h) →
  (lefts c = [] → Q (Some this) h) →
  wp (climb fuel false (Some x)) Q h.
Proof.
  induction c as [|f c IH]; intros h l x b r fuel Q HF Hfuel HQ HQr; (destruct fuel as [|fuel]; [lia|]);
    cbn [climb]; destruct (Focus_parent _ _ _ _ _ _ HF) as (q & i & Hq & Hi & _ & _ & Hpar);
    destruct (Hpar _ _ _ _ eq_refl) as [Hleft _];
    pose proof (Focus_node _ _ _ _ _ _ _ _ _ HF) as Hx; unfold node in Hx; repeat tree_read;
    rewrite Hq; (eapply (wp_field m_prevPtr_); [exact Hi|]);
    rewrite (bool_decide_ext _ (Some x = m_prevPtr_ i)), Hleft by done.
  - simpl. destruct fuel as [|fuel]; [simpl in Hfuel; lia|]. cbn [climb].
    destruct HF as (_ & Hroot & _). simpl in Hroot, Hq. injection Hq as <-.
    apply wp_bind. eapply (wp_field m_is_NOT_root_); [exact Hroot|]. apply wp_ret. by apply HQr.
  - destruct f as [y b' r'|l' y b']; cbn [left_hole negb].
    + rewrite <-Hq. cbn [par node_of]. eapply IH; [by apply Focus_up_l|simpl in Hfuel; lia|exact HQ|exact HQr].
    + apply wp_ret. by eapply HQ.
Qed.
End climb.

(** An item of the tree in focus. *)
Lemma Avl_focus this h xs x :
  Avl this h xs → x ∈ xs →
  ∃ c l b r, Focus this (λ _, Some this) h h c (Nd l x b r)
    ∧ xs = (lefts c ++ inorder l) ++ x :: inorder r ++ rights c
    ∧ x ∉ lefts c ++ inorder l ∧ x ∉ inorder r ++ rights c.
Proof.
  intros [(T & n & HT & _ & <-) _] (c & l & b & r & ->)%in_focus.
  exists c, l, b, r. pose proof HT as ([_ Hnd]%NoDup_cons & _).
  assert (inorder (plug c (Nd l x b r)) = (lefts c ++ inorder l) ++ x :: inorder r ++ rights c) as E.
  { rewrite inorder_plug. simpl. by list_norm. }
  rewrite E in Hnd |- *. apply NoDup_middle in Hnd. split_and!; [by apply Tree_Focus|done|tauto..].
Qed.

Lemma next_spec this h xs x (Q : ptr → gmap loc MapItem → Prop) :
  Avl this h xs → x ∈ xs → Q (spec_next x xs) h → wp (next x) Q h.
Proof.
  intros HA Hin HQ. destruct (Avl_focus _ _ _ _ HA Hin) as (c & l & b & r & HF & -> & Hx1 & Hx2).
  rewrite spec_next_at in HQ by done. unfold next.
  destruct (Focus_parent _ _ _ _ _ _ HF) as (q & i & Hq & Hi & Hnr & _ & Hpar).
  destruct (Hpar _ _ _ _ eq_refl) as [Hleft Hright]. clear Hpar.
  pose proof (Focus_size _ _ _ _ _ _ HF) as Hsize.
  pose proof HF as (_ & _ & (Hx & _ & HRr) & _). unfold node in Hx. repeat tree_read.
  destruct r as [|r1 y b' r2]; cbn [rt is_null negb].
  - repeat tree_read. rewrite Hq. eapply (wp_field m_prevPtr_); [exact Hi|].
    rewrite (bool_decide_ext _ (Some x = m_prevPtr_ i)), Hleft by done.
    destruct c as [|[y b' r'|l' y b'] c]; cbn [left_hole negb par node_of in_node] in *.
    + apply wp_bind. eapply (wp_field m_is_NOT_root_); [exact Hi|]. rewrite Hnr. by apply wp_ret.
    + apply wp_bind. eapply (wp_field m_is_NOT_root_); [exact Hi|]. rewrite Hnr, <-Hq. by apply wp_ret.
    + apply wp_bind. eapply (wp_field m_nextPtr_); [exact Hi|].
      rewrite (bool_decide_ext _ (Some x = m_nextPtr_ i)), Hright by done. apply wp_bind, wp_gets.
      apply wp_bind. rewrite <-Hq.
      eapply (climb_right this (λ _, Some this) h c); [by apply Focus_up_r|simpl in Hsize; lia|].
      intros c' l'' x' b'' r' HF' Hhole Hrights.
      destruct (Focus_parent _ _ _ _ _ _ HF') as (q' & i' & Hq' & Hi' & Hnr' & _ & _).
      pose proof (Focus_node _ _ _ _ _ _ _ _ _ HF') as Hx'. unfold node in Hx'. repeat tree_read.
      rewrite Hq'. eapply (wp_field m_is_NOT_root_); [exact Hi'|]. rewrite Hnr'. apply wp_ret.
      simpl in HQ. rewrite <-Hrights in HQ. rewrite <-Hq'. by destruct c' as [|[? ? ?|? ? ?] c'].
  - apply wp_bind, wp_gets. eapply (leftmost_spec _ (Nd r1 y b' r2)); [exact HRr| |done|].
    + apply Tree_Focus in HF. apply Tree_size in HF. rewrite inorder_plug, !length_app in HF. simpl in HF |- *.
      rewrite ?length_app in HF |- *. simpl in HF |- *. rewrite ?length_app in HF. simpl in HF. lia.
    + rewrite head_app in HQ. simpl in HQ |- *. by destruct (inorder r1).
Qed.

Lemma previous_spec this h xs x (Q : ptr → gmap loc MapItem → Prop) :
  Avl this h xs → x ∈ xs → Q (spec_previous x xs) h → wp (previous x) Q h.
Proof.
  intros HA Hin HQ. destruct (Avl_focus _ _ _ _ HA Hin) as (c & l & b & r & HF & -> & Hx1 & Hx2).
  rewrite spec_previous_at in HQ by done. unfold previous.
  destruct (Focus_parent _ _ _ _ _ _ HF) as (q & i & Hq & Hi & Hnr & _ & Hpar).
  destruct (Hpar _ _ _ _ eq_refl) as [Hleft Hright]. clear Hpar.
  pose proof (Focus_size _ _ _ _ _ _ HF) as Hsize.
  pose proof HF as (_ & _ & (Hx & HRl & _) & _). unfold node in Hx. repeat tree_read.
  destruct l as [|l1 y b' l2]; cbn [rt is_null negb].
  - simpl in HQ. rewrite app_nil_r in HQ.
    repeat tree_read. rewrite Hq. eapply (wp_field m_nextPtr_); [exact Hi|].
    rewrite (bool_decide_ext _ (Some x = m_nextPtr_ i)), Hright by done.
    destruct c as [|[y b' r'|l' y b'] c]; cbn [left_hole negb par node_of in_node] in *.
    + apply wp_bind. eapply (wp_field m_prevPtr_); [exact Hi|].
      rewrite (bool_decide_ext _ (Some x = m_prevPtr_ i)), Hleft by done. apply wp_bind, wp_gets.
      apply wp_bind. cbn [climb]. apply wp_bind. eapply (wp_field m_is_NOT_root_); [exact Hi|]. rewrite Hnr.
      apply wp_ret, wp_bind. eapply (wp_field m_is_NOT_root_); [exact Hi|]. rewrite Hnr. by apply wp_ret.
    + apply wp_bind. eapply (wp_field m_prevPtr_); [exact Hi|].
      rewrite (bool_decide_ext _ (Some x = m_prevPtr_ i)), Hleft by done. apply wp_bind, wp_gets.
      apply wp_bind. rewrite <-Hq.
      eapply (climb_left this (λ _, Some this) h c); [by apply Focus_up_l|simpl in Hsize; lia| |].
      * intros c' l'' x' b'' r'' HF' Hhole Hlefts.
        destruct (Focus_parent _ _ _ _ _ _ HF') as (q' & i' & Hq' & Hi' & Hnr' & _ & _).
        pose proof (Focus_node _ _ _ _ _ _ _ _ _ HF') as Hx'. unfold node in Hx'. repeat tree_read.
        rewrite Hq'. eapply (wp_field m_is_NOT_root_); [exact Hi'|]. rewrite Hnr'. apply wp_ret.
        simpl in HQ. rewrite <-Hlefts in HQ. rewrite <-Hq'.
        destruct c' as [|[? ? ?|l3 z3 b3] c']; [done|done|]. simpl in HQ |- *.
        by rewrite !last_app in HQ.
      * intros Hlefts. simpl in HQ. rewrite Hlefts in HQ.
        destruct HA as [(T & n & (_ & Hroot & _) & _) _]. apply wp_bind.
        eapply (wp_field m_is_NOT_root_); [exact Hroot|]. by apply wp_ret.
    + apply wp_ret. rewrite <-Hq. simpl in HQ. by rewrite !last_app in HQ.
  - apply wp_bind, wp_gets. apply wp_bind. eapply (rightmost_last _ (Nd l1 y b' l2)); [exact HRl| |done|].
    + apply Tree_Focus in HF. apply Tree_size in HF. rewrite inorder_plug, !length_app in HF. simpl in HF |- *.
      rewrite ?length_app in HF |- *. simpl in HF |- *. rewrite ?length_app in HF. simpl in HF. lia.
    + intros b0. apply wp_ret. rewrite last_app in HQ. simpl in HQ |- *.
      rewrite last_app, last_cons in HQ |- *. by destruct (list.last (inorder l2)).
Qed.
End walks.

(** ** Programs *)

Section programs.
Context {K : Type} `{!Key K}.
Variable getKey : loc → K.

(** The calls of a client on one tree. *)
Inductive op :=
  | Insert (x : loc)
  | Remove (x : loc)
  | Find (key : K)
  | First
  | Last
  | Next (x : loc)
  | Previous (x : loc).

Inductive result := RBool (b : bool) | RPtr (p : ptr).

Definition run_op (this : loc) (o : op) : ST (gmap loc MapItem) result :=
  match o with
  | Insert x => b ← insert getKey this x; ret (RBool b)
  | Remove x => p ← removeItem this x; ret (RPtr p)
  | Find key => p ← find getKey this key; ret (RPtr p)
  | First => p ← first this; ret (RPtr p)
  | Last => p ← last this; ret (RPtr p)
  | Next x => p ← next x; ret (RPtr p)
  | Previous x => p ← previous x; ret (RPtr p)
  end.

Fixpoint run_ops (this : loc) (os : list op) : ST (gmap loc MapItem) (list result) :=
  match os with
  | [] => ret []
  | o :: os => r ← run_op this o; rs ← run_ops this os; ret (r :: rs)
  end.

Fixpoint construct_items (us : list loc) : ST (gmap loc MapItem) unit :=
  match us with [] => ret tt | u :: us => MapItem_ctor u;; construct_items us end.

(** The same calls on a sequence; [None] outside of the contract: an item the
    program did not construct, a neighbour of an item that is in no tree. *)
Definition spec_op (us : list loc) (xs : list loc) (o : op) : option (result * list loc) :=
  match o with
  | Insert x =>
    if decide (x ∈ us) then
      match spec_insert getKey x xs with
      | Some ys => Some (RBool true, ys)
      | None => Some (RBool false, xs)
      end
    else None
  | Remove x =>
    if decide (x ∈ us) then
      if decide (x ∈ xs) then Some (RPtr (Some x), spec_remove x xs) else Some (RPtr None, xs)
    else None
  | Find key => Some (RPtr (spec_find getKey key xs), xs)
  | First => Some (RPtr (head xs), xs)
  | Last => Some (RPtr (list.last xs), xs)
  | Next x => if decide (x ∈ xs) then Some (RPtr (spec_next x xs), xs) else None
  | Previous x => if decide (x ∈ xs) then Some (RPtr (spec_previous x xs), xs) else None
  end.

Fixpoint spec_ops (us : list loc) (xs : list loc) (os : list op) : option (list result * list loc) :=
  match os with
  | [] => Some ([], xs)
  | o :: os =>
    match spec_op us xs o with
    | Some (r, ys) =>
      match spec_ops us ys os with Some (rs, zs) => Some (r :: rs, zs) | None => None end
    | None => None
    end
  end.

Context `{!KeyOrder K} `{!KeyInt8 K}.
Implicit Types (this x : loc) (us xs : list loc) (h : gmap loc MapItem).

(** Between calls: the tree holds the sequence, every other item is free. *)
Definition Inv this us h xs : Prop :=
  Avl getKey this h xs ∧ (∀ x, x ∈ xs → x ∈ us)
  ∧ ∀ x, x ∈ us → ∃ i, h !! x = Some i ∧ (x ∉ xs → m_inListPtr_ i = None).

Lemma spec_insert_elem x xs ys z : spec_insert getKey x xs = Some ys → z ∈ ys ↔ z = x ∨ z ∈ xs.
Proof.
  revert ys. induction xs as [|y xs IH]; intros ys; simpl; [set_solver|].
  destruct (0 <? _)%Z; [set_solver|]. destruct (_ =? 0)%Z; [done|].
  destruct (spec_insert getKey x xs) as [ys'|]; [|done]. intros [= <-].
  rewrite !elem_of_cons, (IH ys' eq_refl). tauto.
Qed.

Lemma Avl_NoDup this h xs : Avl getKey this h xs → NoDup (this :: xs).
Proof. intros [(T & n & (Hnd & _) & _ & <-) _]. done. Qed.

Lemma Avl_lookup this h xs x : Avl getKey this h xs → x ∈ xs → ∃ i, h !! x = Some i.
Proof.
  intros [(T & n & (_ & _ & HR & _) & _ & <-) _] Hx.
  destruct (Rep_lookup _ _ _ _ _ HR Hx) as (i & ? & _). eauto.
Qed.

Lemma run_op_spec this us h xs o r ys :
  this ∉ us → (Z.of_nat (length us) < item_limit)%Z →
  Inv this us h xs → spec_op us xs o = Some (r, ys) →
  wp (run_op this o) (λ r' h', r' = r ∧ Inv this us h' ys ∧ same_off (this :: us) h h') h.
Proof.
  intros Hthis Hlim (HA & Hsub & Hfree) Hop.
  assert (Inv this us h xs ∧ same_off (this :: us) h h) as Hsame by by split.
  pose proof (Avl_NoDup _ _ _ HA) as [_ Hnd]%NoDup_cons.
  assert (Z.of_nat (length xs) < item_limit)%Z as Hlen.
  { assert (length xs <= length us); [|lia].
    apply submseteq_length, NoDup_submseteq; [done|]. exact Hsub. }
  destruct o as [x|x|key| | |x|x]; simpl in *; apply wp_bind; repeat case_decide; simplify_eq.
  - destruct (Hfree x) as (i & Hi & Hm); [done|].
    eapply (insert_spec getKey this h xs x i); [done|by intros ->|done|done|done| |].
    + intros Hs. rewrite Hs in Hop. simplify_eq. by apply wp_ret.
    + intros h' xs' Hs HA' Hoff. rewrite Hs in Hop. simplify_eq. apply wp_ret.
      split_and!; [done|split_and!; [done| |]|].
      * intros z. rewrite spec_insert_elem by done. intros [->|]; auto.
      * intros z Hz. destruct (decide (z ∈ ys)) as [Hy|Hy].
        -- destruct (Avl_lookup _ _ _ _ HA' Hy) as (j & Hj). by exists j.
        -- pose proof Hy as Hy'. rewrite spec_insert_elem in Hy' by done.
           destruct (Hfree z Hz) as (j & Hj & Hjm). exists j. split; [|naive_solver].
           rewrite Hoff; [done|]. rewrite !not_elem_of_cons. split_and!; [by intros ->|tauto..].
      * intros z Hz. apply Hoff. rewrite !not_elem_of_cons in Hz |- *. set_solver.
  - destruct (Hfree x) as (i & Hi & Hm); [done|].
    eapply (removeItem_spec getKey this h xs x i); [done|done|done| |].
    + done.
    + intros h' _ HA' Hx' Hoff. apply wp_ret.
      assert (∀ z, z ∈ spec_remove x xs ↔ z ≠ x ∧ z ∈ xs) as Helem by (intros z; unfold spec_remove; by rewrite list_elem_of_filter).
      split_and!; [done|split_and!; [done| |]|].
      * intros z Hz%Helem. naive_solver.
      * intros z Hz. destruct (decide (z = x)) as [->|Hne]; [by exists free_item|].
        destruct (decide (z ∈ xs)) as [Hzx|Hzx].
        -- destruct (Avl_lookup _ _ _ z HA') as (j & Hj); [by apply Helem|].
           exists j. split; [done|]. intros Hn. exfalso. apply Hn, Helem. done.
        -- destruct (Hfree z Hz) as (j & Hj & Hjm). exists j. split; [|auto].
           rewrite Hoff; [done|]. rewrite not_elem_of_cons. split; [by intros ->|done].
      * intros z Hz. apply Hoff. set_solver.
  - destruct (Hfree x) as (i & Hi & Hm); [done|].
    eapply (removeItem_spec getKey this h _ x i); [done|done|done| |done].
    intros _. by apply wp_ret.
  - eapply (find_spec getKey); [done|]. by apply wp_ret.
  - eapply (first_spec getKey); [done|]. by apply wp_ret.
  - eapply (last_spec getKey); [done|]. by apply wp_ret.
  - eapply (next_spec getKey); [done|done|]. by apply wp_ret.
  - eapply (previous_spec getKey); [done|done|]. by apply wp_ret.
Qed.

Lemma run_ops_spec this us os : ∀ h xs rs ys,
  this ∉ us → (Z.of_nat (length us) < item_limit)%Z →
  Inv this us h xs → spec_ops us xs os = Some (rs, ys) →
  wp (run_ops this os) (λ rs' h', rs' = rs ∧ Inv this us h' ys ∧ same_off (this :: us) h h') h.
Proof.
  induction os as [|o os IH]; intros h xs rs ys Hthis Hlim HI Hops; cbn [spec_ops run_ops] in *.
  { simplify_eq. by apply wp_ret. }
  destruct (spec_op us xs o) as [[r zs]|] eqn:Eo; [|done].
  destruct (spec_ops us zs os) as [[rs' ys']|] eqn:Eos; [|done]. simplify_eq.
  apply wp_bind. eapply wp_mono; [by eapply run_op_spec|]. intros r' h1 (-> & HI1 & Hoff1).
  apply wp_bind. eapply wp_mono; [by eapply IH|]. intros rs'' h2 (-> & HI2 & Hoff2).
  apply wp_ret. split_and!; [done|done|]. intros z Hz. by rewrite Hoff2, Hoff1.
Qed.

Lemma construct_items_spec us h :
  wp (construct_items us) (λ _ h', (∀ u, u ∈ us → h' !! u = Some free_item) ∧ same_off us h h') h.
Proof.
  revert h. induction us as [|u us IH]; intros h; cbn [construct_items].
  - apply wp_ret. split; [set_solver|done].
  - apply wp_bind, wp_modify. eapply wp_mono; [apply IH|]. intros _ h' [Hus Hoff]. split.
    + intros v Hv. destruct (decide (v ∈ us)) as [|Hn]; [auto|].
      apply elem_of_cons in Hv as [->|]; [|done]. rewrite Hoff by done. by rewrite lookup_insert_eq.
    + intros z Hz. rewrite Hoff by set_solver. apply lookup_insert_ne. set_solver.
Qed.

Lemma construct_spec this us h :
  this ∉ us →
  wp (AvlTree_ctor this;; construct_items us)
    (λ _ h', Inv this us h' [] ∧ same_off (this :: us) h h') h.
Proof.
  intros Hthis. apply wp_bind, wp_bind, wp_modify.
  eapply wp_update; [by rewrite lookup_insert_eq|]. rewrite insert_insert_eq.
  eapply wp_mono; [apply construct_items_spec|]. intros _ h' [Hus Hoff]. split.
  - split_and!; [|set_solver|].
    + split; [|constructor]. exists Lf, 0. split_and!; [|constructor|done].
      split_and!; [by apply NoDup_singleton| |done|done].
      rewrite Hoff by done. by rewrite lookup_insert_eq.
    + intros x Hx. exists free_item. auto.
  - intros z Hz. rewrite Hoff by set_solver. apply lookup_insert_ne. set_solver.
Qed.

End programs.

Arguments Insert {K}.
Arguments Remove {K}.
Arguments Find {K}.
Arguments First {K}.
Arguments Last {K}.
Arguments Next {K}.
Arguments Previous {K}.

(** ** Keys of plain types *)

Section plain_keys.
Local Open Scope Z_scope.

#[export] Instance plain_key : Key Z := KeyPlainType_compareKey.

Lemma plain_cases a b :
  (compareKey a b = -1 ∧ a < b) ∨ (compareKey a b = 0 ∧ a = b) ∨ (compareKey a b = 1 ∧ b < a).
Proof.
  unfold compareKey, plain_key, KeyPlainType_compareKey.
  destruct (Z.ltb_spec a b), (Z.ltb_spec b a); lia.
Qed.

#[export] Instance plain_key_order : KeyOrder Z.
Proof.
  split.
  - intros a. destruct (plain_cases a a); lia.
  - intros a b. destruct (plain_cases a b), (plain_cases b a); lia.
  - intros a b c. destruct (plain_cases a b), (plain_cases b c), (plain_cases a c); lia.
  - intros a b c. destruct (plain_cases a b), (plain_cases b c), (plain_cases a c); lia.
Qed.

#[export] Instance plain_key_int8 : KeyInt8 Z.
Proof. intros a b. destruct (plain_cases a b); lia. Qed.
End plain_keys.

(** Six items whose keys are their addresses, in an order that makes all four
    kinds of rotation happen, and the removal of a node with two children. *)
Definition avl_demo : list (op (K := Z)) :=
  [Insert 60; Insert 20; Insert 40; Insert 50; Insert 45; Insert 10; Insert 40; Find 45%Z; Find 41%Z;
   First; Last; Next 45; Previous 60; Remove 40; Remove 40; Next 20; Remove 60; Last].


(** ** Keys that are strings *)

(** What [find] does in a tree of one item, and in a tree of two items of which
    the first inserted is the larger. *)
Lemma find_in_one {K} `{!Key K} (k key : K) :
  int8 (compareKey k key) = 0%Z →
  wp (AvlTree_ctor 1;; construct_items [2]%positive;;
      run_ops (λ _ : loc, k) 1 [Insert 2%positive; Find key])
    (λ rs _, rs = [RBool true; RPtr (Some 2%positive)]) ∅.
Proof.
  intros H. apply wp_bind. eapply wp_exact; [vm_compute; reflexivity|].
  apply wp_bind. eapply wp_exact; [vm_compute; reflexivity|].
  apply wp_bind. eapply wp_exact; [vm_compute; reflexivity|].
  apply wp_bind, wp_bind, wp_bind, wp_bind. eapply (wp_field m_prevPtr_); [reflexivity|].
  apply wp_bind, wp_gets. cbn [find_loop is_null m_prevPtr_].
  apply wp_bind. eapply wp_key_of; [reflexivity|]. cbv zeta. rewrite H. simpl.
  by repeat first [apply wp_ret|apply wp_bind].
Qed.

Lemma find_in_two {K} `{!Key K} (big small : K) :
  (0 < compareKey big small)%Z → (int8 (compareKey big small) < 0)%Z →
  wp (AvlTree_ctor 1;; construct_items [2; 3]%positive;;
      run_ops (λ x : loc, if decide (x = 2%positive) then big else small) 1
        [Insert 2%positive; Insert 3%positive; Find small])
    (λ rs _, rs = [RBool true; RBool true; RPtr None]) ∅.
Proof.
  intros H H8. apply wp_bind. eapply wp_exact; [vm_compute; reflexivity|].
  apply wp_bind. eapply wp_exact; [vm_compute; reflexivity|].
  apply wp_bind. eapply wp_exact; [vm_compute; reflexivity|].
  apply wp_bind, wp_bind, wp_bind. unfold AvlTree.insert. apply wp_bind.
  eapply (wp_field m_prevPtr_); [reflexivity|]. cbn [is_null m_prevPtr_].
  apply wp_bind, wp_gets. apply wp_bind. cbn [insert_descend].
  apply wp_bind. eapply wp_key_of; [reflexivity|].
  apply wp_bind. eapply wp_key_of; [reflexivity|].
  rewrite decide_True by done. rewrite decide_False by done. cbv zeta.
  destruct (Z.ltb_spec (compareKey big small) 0); [lia|].
  destruct (Z.ltb_spec 0 (compareKey big small)); [|lia].
  eapply wp_exact; [vm_compute; reflexivity|].
  apply wp_bind. eapply wp_exact; [vm_compute; reflexivity|].
  apply wp_bind. eapply wp_exact; [vm_compute; reflexivity|].
  apply wp_bind. eapply wp_exact; [vm_compute; reflexivity|].
  apply wp_ret, wp_ret. apply wp_bind, wp_bind, wp_bind, wp_bind.
  eapply (wp_field m_prevPtr_); [reflexivity|].
  apply wp_bind, wp_gets. cbn [find_loop is_null m_prevPtr_].
  apply wp_bind. eapply wp_key_of; [reflexivity|]. rewrite decide_True by done. cbv zeta.
  destruct (Z.ltb_spec 0 (int8 (compareKey big small))); [lia|].
  destruct (Z.eqb_spec (int8 (compareKey big small)) 0); [lia|].
  by repeat first [apply wp_ret|apply wp_bind; eapply wp_exact; [vm_compute; reflexivity|]|apply wp_bind].
Qed.

Section string_trees.
Local Open Scope Z_scope.
(** [strncmp] of the C library finds no difference in a common prefix. *)
Variable strncmp : list Z → list Z → nat → Z.
Hypothesis strncmp_prefix : ∀ s t u, strncmp (s ++ t) (s ++ u) (length s) = 0.

Definition string_key : Key (list Z) := KeyStringBuffer_compare strncmp.

Lemma compare_prefix s t : string_key (s ++ t) s = Z.of_nat (length t).
Proof.
  unfold string_key, KeyStringBuffer_compare. rewrite length_app.
  pose proof (strncmp_prefix s t []) as H. rewrite app_nil_r in H.
  destruct (Nat.ltb_spec (length s) (length s + length t)) as [Hlt|Hge].
  - rewrite H. simpl. destruct (Nat.eqb_spec (length s + length t) (length s)); [lia|]. simpl. lia.
  - replace (length s + length t)%nat with (length s) by lia. rewrite H, Nat.eqb_refl. simpl. lia.
Qed.

(** Searching with string keys.  insert() looks at the sign of the
    comparison, find() at its low eight bits: with an item whose key is the key
    that is searched and a tail, find() returns that item when the tail has a
    positive multiple of 256 characters; and with both keys in the tree, it
    misses the item that has the key when the length of the tail is 128 to 255
    modulo 256. *)
Theorem find_string_truncates s t :
  let one := @run_ops _ string_key (λ _, s ++ t) 1 [Insert 2%positive; Find s] in
  let two := @run_ops _ string_key (λ x, if decide (x = 2%positive) then s ++ t else s) 1
               [Insert 2%positive; Insert 3%positive; Find s] in
  ((0 < length t)%nat → Z.of_nat (length t) mod 256 = 0 →
   s ++ t ≠ s ∧
   wp (AvlTree_ctor 1;; construct_items [2]%positive;; one)
     (λ rs _, rs = [RBool true; RPtr (Some 2%positive)]) ∅)
  ∧ (128 <= Z.of_nat (length t) mod 256 →
     wp (AvlTree_ctor 1;; construct_items [2; 3]%positive;; two)
       (λ rs _, rs = [RBool true; RBool true; RPtr None]) ∅).
Proof.
  intros one two. split.
  - intros Hlt Hmod. split.
    + intros E%(f_equal length). rewrite length_app in E. lia.
    + apply find_in_one. change (int8 (string_key (s ++ t) s) = 0). rewrite compare_prefix.
      unfold int8. rewrite Z.add_mod, Hmod by lia. done.
  - intros Hmod. apply find_in_two; change (compareKey (s ++ t) s) with (string_key (s ++ t) s);
      rewrite compare_prefix.
    + destruct t; [done|]. simpl. lia.
    + unfold int8. pose proof (Z.div_mod (Z.of_nat (length t)) 256 ltac:(lia)) as E.
      set (r := Z.of_nat (length t) mod 256) in *. set (q := Z.of_nat (length t) / 256) in *.
      assert (r < 256) by (apply Z.mod_pos_bound; lia).
      replace (Z.of_nat (length t) + 128) with (r - 128 + (q + 1) * 256) by lia.
      rewrite Z.mod_add, Z.mod_small by lia. lia.
Qed.
End string_trees.

(** A comparison of bytes that has the documented property. *)
Fixpoint strncmp_bytes (s t : list Z) (n : nat) {struct n} : Z :=
  match n with
  | O => 0
  | S n =>
    match s, t with
    | a :: s, b :: t => if Z.eqb a b then strncmp_bytes s t n else a - b
    | a :: _, [] => a
    | [], b :: _ => - b
    | [], [] => 0
    end
  end%Z.

Lemma strncmp_bytes_prefix s t u : strncmp_bytes (s ++ t) (s ++ u) (length s) = 0%Z.
Proof. induction s as [|a s IH]; simpl; [done|]. by rewrite Z.eqb_refl. Qed.

(** A log of 256 characters more than the name it is searched by. *)
Lemma find_string_truncates_witness :
  wp (AvlTree_ctor 1;; construct_items [2]%positive;;
      @run_ops _ (string_key strncmp_bytes) (λ _, [97; 98; 99]%Z ++ replicate 256 120%Z) 1
        [Insert 2%positive; Find [97; 98; 99]%Z])
    (λ rs _, rs = [RBool true; RPtr (Some 2%positive)]) ∅.
Proof.
  refine (proj2 (proj1 (@find_string_truncates strncmp_bytes strncmp_bytes_prefix
    [97; 98; 99]%Z (replicate 256 120%Z)) _ _)); [by apply Nat.ltb_lt|reflexivity].
Defined.
