(* ===== verification/RingBuffer.v ===== *)
(** * Ring buffer

    Models src/src/Cpl/Container/RingBuffer.h: the fixed-size FIFO over memory
    supplied by the application.  A pointer into the element memory is its
    index from [m_elements]; [m_endOfMemPtr] is the index one past the end.
    One slot stays unused, so that head = tail means empty. *)

From Stdlib Require Import ZArith Lia.
From S2P Require Import Prelude.
Local Open Scope pim_scope.

Section model.
Context {ITEM : Type}.

Record RingBuffer := MkRingBuffer {
  m_headPtr : nat;
  m_tailPtr : nat;
  m_memoryNumElements : nat;
  m_elements : list ITEM
}.

Abbreviation RB := (ST RingBuffer).

Definition m_endOfMemPtr (b : RingBuffer) : nat := m_memoryNumElements b.

Definition set_head (p : nat) (b : RingBuffer) : RingBuffer :=
  MkRingBuffer p (m_tailPtr b) (m_memoryNumElements b) (m_elements b).
Definition set_tail (p : nat) (b : RingBuffer) : RingBuffer :=
  MkRingBuffer (m_headPtr b) p (m_memoryNumElements b) (m_elements b).
Definition set_elements (m : list ITEM) (b : RingBuffer) : RingBuffer :=
  MkRingBuffer (m_headPtr b) (m_tailPtr b) (m_memoryNumElements b) m.

(** [*p] as an rvalue and as an lvalue; outside the memory it is undefined. *)
Definition deref (p : nat) : RB ITEM := b ← get_st; lift_opt (m_elements b !! p).
Definition write (p : nat) (x : ITEM) : RB unit :=
  b ← get_st;
  assert_ (bool_decide (p < length (m_elements b)));;
  modify (set_elements (<[p := x]> (m_elements b))).

(** The constructor. *)
Definition RingBuffer_new (maxElements : nat) (memoryForElements : list ITEM) : RingBuffer :=
  MkRingBuffer 0 0 maxElements memoryForElements.

Definition clearTheBuffer : RB unit := modify (set_tail 0);; modify (set_head 0).

Definition isEmpty (b : RingBuffer) : bool := Nat.eqb (m_headPtr b) (m_tailPtr b).

Definition isFull (b : RingBuffer) : bool :=
  let nextElem := m_tailPtr b + 1 in
  let nextElem := if m_endOfMemPtr b <=? nextElem then 0 else nextElem in
  Nat.eqb nextElem (m_headPtr b).

Definition getNumItems (b : RingBuffer) : Z :=
  let headIdx := u32 (Z.of_nat (m_headPtr b)) in
  let tailIdx := u32 (Z.of_nat (m_tailPtr b)) in
  let tailIdx := if (tailIdx <? headIdx)%Z
                 then u32 (tailIdx + Z.of_nat (m_memoryNumElements b)) else tailIdx in
  u32 (tailIdx - headIdx).

Definition getMaxItems (b : RingBuffer) : Z := u32 (Z.of_nat (m_memoryNumElements b) - 1).

Definition add (item : ITEM) : RB bool :=
  full ← gets isFull;
  if (full : bool) then ret false
  else
    b ← get_st;
    write (m_tailPtr b) item;;
    modify (λ b, set_tail (m_tailPtr b + 1) b);;
    b ← get_st;
    (if m_endOfMemPtr b <=? m_tailPtr b then modify (set_tail 0) else ret tt);;
    ret true.

(** [remove( dst )] returns the item where the code copies it to [dst] and
    returns true. *)
Definition remove : RB (option ITEM) :=
  empty ← gets isEmpty;
  if (empty : bool) then ret None
  else
    b ← get_st;
    dst ← deref (m_headPtr b);
    modify (λ b, set_head (m_headPtr b + 1) b);;
    b ← get_st;
    (if m_endOfMemPtr b <=? m_headPtr b then modify (set_head 0) else ret tt);;
    ret (Some dst).

(** The pointer returned is an index, [None] the null pointer; the count is the
    value left in the reference argument, when it is assigned. *)
Definition peekNextRemoveItems (b : RingBuffer) : option (nat * Z) :=
  if isEmpty b then None
  else
    let totalNumElements := getNumItems b in
    let dstNumFlatElements := u32 (Z.of_nat (m_endOfMemPtr b) - Z.of_nat (m_headPtr b)) in
    let dstNumFlatElements :=
      if (totalNumElements <? dstNumFlatElements)%Z then totalNumElements else dstNumFlatElements in
    Some (m_headPtr b, dstNumFlatElements).

Definition removeElements (numElementsToRemove : nat) : RB unit :=
  modify (λ b, set_head (m_headPtr b + numElementsToRemove) b);;
  b ← get_st;
  if m_endOfMemPtr b <=? m_headPtr b then modify (set_head 0) else ret tt.

Definition peekNextAddItems (b : RingBuffer) : option (nat * Z) :=
  if isFull b then None
  else
    let totalAvailElements := u32 (getMaxItems b - getNumItems b) in
    let dstNumFlatElements := u32 (Z.of_nat (m_endOfMemPtr b) - Z.of_nat (m_tailPtr b)) in
    let dstNumFlatElements :=
      if (totalAvailElements <? dstNumFlatElements)%Z then totalAvailElements else dstNumFlatElements in
    Some (m_tailPtr b, dstNumFlatElements).

Definition addElements (numElementsAdded : nat) : RB unit :=
  modify (λ b, set_tail (m_tailPtr b + numElementsAdded) b);;
  b ← get_st;
  if m_endOfMemPtr b <=? m_tailPtr b then modify (set_tail 0) else ret tt.

Definition peekHead (b : RingBuffer) : option nat :=
  if isEmpty b then None else Some (m_headPtr b).

Definition peekTail (b : RingBuffer) : option nat :=
  if isEmpty b then None
  else if m_tailPtr b =? 0 then Some (m_endOfMemPtr b - 1) else Some (m_tailPtr b - 1).
End model.
Arguments RingBuffer : clear implicits.

(** ** Abstraction to a queue *)

Section spec.
Context {ITEM : Type}.
Implicit Types (b : RingBuffer ITEM) (q : list ITEM).

Record wf b : Prop := {
  wf_size : length (m_elements b) = m_memoryNumElements b;
  wf_head : m_headPtr b < m_memoryNumElements b;
  wf_tail : m_tailPtr b < m_memoryNumElements b;
  wf_unsigned : (Z.of_nat (m_memoryNumElements b) < 2 ^ 32)%Z
}.

(** The number of stored items. *)
Definition count b : nat :=
  if m_headPtr b <=? m_tailPtr b then m_tailPtr b - m_headPtr b
  else m_tailPtr b + m_memoryNumElements b - m_headPtr b.

(** The queue, front first: the doubled memory read from the head. *)
Definition queue b : list ITEM :=
  take (count b) (drop (m_headPtr b) (m_elements b ++ m_elements b)).

Definition represents b q : Prop := wf b ∧ queue b = q.

(** The slot that holds the [i]-th item. *)
Definition slot (n h i : nat) : nat := if h + i <? n then h + i else h + i - n.

Lemma slot_lt n h i : h < n → i < n → slot n h i < n.
Proof. unfold slot. case_match eqn:E; rewrite ?Nat.ltb_lt, ?Nat.ltb_ge in E; lia. Qed.

Lemma slot_inj n h i j : h < n → i < n → j < n → slot n h i = slot n h j → i = j.
Proof.
  unfold slot. intros.
  destruct (Nat.ltb_spec (h + i) n), (Nat.ltb_spec (h + j) n); lia.
Qed.

Lemma count_lt b : wf b → count b < m_memoryNumElements b.
Proof. intros []. unfold count. destruct (Nat.leb_spec (m_headPtr b) (m_tailPtr b)); lia. Qed.

Lemma slot_count b : wf b → slot (m_memoryNumElements b) (m_headPtr b) (count b) = m_tailPtr b.
Proof.
  intros []. unfold slot, count.
  destruct (Nat.leb_spec (m_headPtr b) (m_tailPtr b)); case_match eqn:E;
    rewrite ?Nat.ltb_lt, ?Nat.ltb_ge in E; lia.
Qed.

Lemma queue_length b : wf b → length (queue b) = count b.
Proof.
  intros Hwf. pose proof (count_lt b Hwf). destruct Hwf. unfold queue.
  rewrite length_take, length_drop, length_app. lia.
Qed.

Lemma queue_lookup b i : wf b → i < count b →
  queue b !! i = m_elements b !! slot (m_memoryNumElements b) (m_headPtr b) i.
Proof.
  intros Hwf Hi. pose proof (count_lt b Hwf). destruct Hwf as [Hsz ?? _]. unfold queue.
  rewrite lookup_take_lt, lookup_drop by lia. unfold slot.
  destruct (Nat.ltb_spec (m_headPtr b + i) (m_memoryNumElements b)).
  - by rewrite lookup_app_l by lia.
  - rewrite lookup_app_r by lia. by rewrite Hsz.
Qed.

(** A buffer's queue, item by item. *)
Lemma represents_intro b q :
  wf b → count b = length q →
  (∀ i, i < length q → m_elements b !! slot (m_memoryNumElements b) (m_headPtr b) i = q !! i) →
  represents b q.
Proof.
  intros Hwf Hc Hl. split; [done|]. apply list_eq. intros i.
  destruct (decide (i < length q)).
  - rewrite queue_lookup by (done || lia). by apply Hl.
  - rewrite !lookup_ge_None_2; [done|lia|rewrite queue_length by done; lia].
Qed.

Lemma represents_lookup b q i :
  represents b q → i < length q →
  m_elements b !! slot (m_memoryNumElements b) (m_headPtr b) i = q !! i.
Proof. intros [Hwf <-]. rewrite queue_length by done. intros. by rewrite queue_lookup. Qed.

Lemma represents_count b q : represents b q → count b = length q.
Proof. intros [Hwf <-]. by rewrite queue_length. Qed.

Lemma isEmpty_spec b q : represents b q → isEmpty b = bool_decide (q = []).
Proof.
  intros Hr. pose proof (represents_count _ _ Hr) as Hc. destruct Hr as [[] _].
  apply eq_true_iff_eq. rewrite bool_decide_eq_true. unfold isEmpty. rewrite Nat.eqb_eq.
  rewrite <-length_zero_iff_nil, <-Hc. unfold count.
  destruct (Nat.leb_spec (m_headPtr b) (m_tailPtr b)); lia.
Qed.

Lemma isFull_spec b q :
  represents b q → isFull b = bool_decide (length q = m_memoryNumElements b - 1).
Proof.
  intros Hr. rewrite <-(represents_count _ _ Hr). destruct Hr as [[] _].
  apply eq_true_iff_eq. rewrite bool_decide_eq_true. unfold isFull, count, m_endOfMemPtr.
  destruct (Nat.leb_spec (m_headPtr b) (m_tailPtr b)),
    (Nat.leb_spec (m_memoryNumElements b) (m_tailPtr b + 1)); rewrite Nat.eqb_eq; lia.
Qed.

Lemma getNumItems_spec b q : represents b q → getNumItems b = Z.of_nat (length q).
Proof.
  intros Hr. rewrite <-(represents_count _ _ Hr). destruct Hr as [[] _].
  unfold getNumItems, count, wrap. rewrite !(Z.mod_small (Z.of_nat _)) by lia.
  destruct (Z.ltb_spec (Z.of_nat (m_tailPtr b)) (Z.of_nat (m_headPtr b))),
    (Nat.leb_spec (m_headPtr b) (m_tailPtr b)); try lia.
  - rewrite Zminus_mod_idemp_l, Z.mod_small by lia. lia.
  - rewrite Z.mod_small by lia. lia.
Qed.

(** ** The operations on the queue *)

Lemma wp_write p x (Q : unit → RingBuffer ITEM → Prop) b :
  p < length (m_elements b) → Q tt (set_elements (<[p:=x]> (m_elements b)) b) → wp (write p x) Q b.
Proof. intros Hp HQ. unfold wp, write, bind. simpl. by rewrite bool_decide_eq_true_2. Qed.

Lemma wp_deref p x (Q : ITEM → RingBuffer ITEM → Prop) b :
  m_elements b !! p = Some x → Q x b → wp (deref p) Q b.
Proof. intros Hp HQ. unfold wp, deref, bind. simpl. by rewrite Hp. Qed.

(** Advancing an index by [i] wraps to the start of the memory at its end. *)
Definition advance (n p i : nat) : nat := if n <=? p + i then 0 else p + i.

Lemma wp_advance_tail i (Q : unit → RingBuffer ITEM → Prop) b :
  Q tt (set_tail (advance (m_memoryNumElements b) (m_tailPtr b) i) b) → wp (addElements i) Q b.
Proof.
  unfold wp, addElements, bind, advance. simpl. unfold m_endOfMemPtr. simpl. by case_match.
Qed.

Lemma wp_advance_head i (Q : unit → RingBuffer ITEM → Prop) b :
  Q tt (set_head (advance (m_memoryNumElements b) (m_headPtr b) i) b) → wp (removeElements i) Q b.
Proof.
  unfold wp, removeElements, bind, advance. simpl. unfold m_endOfMemPtr. simpl. by case_match.
Qed.

Lemma add_run x b :
  add x b = if isFull b then Some (false, b)
            else bind (write (m_tailPtr b) x) (λ _, bind (addElements 1) (λ _, ret true)) b.
Proof.
  unfold add, addElements, bind at 1. simpl. destruct (isFull b); [done|].
  unfold bind, get_st, modify, ret. destruct (write _ _ _) as [[[] b']|]; [|done].
  by case_match.
Qed.

Lemma remove_run b :
  remove b = if isEmpty b then Some (None, b)
             else bind (deref (m_headPtr b)) (λ x, bind (removeElements 1) (λ _, ret (Some x))) b.
Proof.
  unfold remove, removeElements, bind at 1. simpl. destruct (isEmpty b); [done|].
  unfold bind, get_st, modify, ret. destruct (deref _ _) as [[x b']|]; [|done].
  by case_match.
Qed.

(** Adding [i] items that already sit in the free slots after the tail. *)
Lemma represents_add_flat b q ys (i := length ys) :
  represents b q → i ≤ m_memoryNumElements b - m_tailPtr b →
  length q + i < m_memoryNumElements b →
  (∀ j, j < i → m_elements b !! (m_tailPtr b + j) = ys !! j) →
  represents (set_tail (advance (m_memoryNumElements b) (m_tailPtr b) i) b) (q ++ ys).
Proof.
  intros Hr Hflat Hroom Hys. pose proof (represents_count _ _ Hr) as Hc.
  pose proof Hr as [Hwf _]. pose proof (slot_count b Hwf) as Hsc. destruct Hwf as [Hsz Hh Ht Hu].
  apply represents_intro.
  - split; simpl; [done..| |done]. unfold advance. case_match eqn:E; rewrite ?Nat.leb_le, ?Nat.leb_gt in E; lia.
  - rewrite length_app. fold i. rewrite <-Hc in *. unfold count, advance in *. simpl.
    repeat (case_match; rewrite ?Nat.leb_le, ?Nat.leb_gt in *); lia.
  - intros j Hj. simpl. rewrite length_app in Hj. fold i in Hj.
    destruct (decide (j < length q)).
    + rewrite lookup_app_l by lia. by apply represents_lookup.
    + rewrite lookup_app_r by lia. rewrite <-Hys by lia. f_equal. rewrite Hc in Hsc.
      unfold slot in *. repeat (case_match; rewrite ?Nat.ltb_lt, ?Nat.ltb_ge in *); lia.
Qed.

Lemma represents_remove_flat b q i :
  represents b q → i ≤ length q → i ≤ m_memoryNumElements b - m_headPtr b →
  represents (set_head (advance (m_memoryNumElements b) (m_headPtr b) i) b) (drop i q).
Proof.
  intros Hr Hi Hflat. pose proof (represents_count _ _ Hr) as Hc.
  pose proof Hr as [Hwf _]. pose proof (slot_count b Hwf) as Hsc. pose proof (count_lt b Hwf).
  destruct Hwf as [Hsz Hh Ht Hu]. apply represents_intro.
  - split; simpl; [done| |done..]. unfold advance. case_match eqn:E; rewrite ?Nat.leb_le, ?Nat.leb_gt in E; lia.
  - rewrite length_drop, <-Hc. unfold count, advance in *. simpl.
    repeat (case_match; rewrite ?Nat.leb_le, ?Nat.leb_gt in *); lia.
  - intros j Hj. simpl. rewrite length_drop in Hj. rewrite lookup_drop.
    rewrite <-(represents_lookup b q (i + j)) by (done || lia). f_equal.
    unfold slot, advance in *. repeat (case_match; rewrite ?Nat.ltb_lt, ?Nat.ltb_ge, ?Nat.leb_le, ?Nat.leb_gt in *); lia.
Qed.

Lemma represents_write b q x :
  represents b q → length q + 1 < m_memoryNumElements b →
  represents (set_elements (<[m_tailPtr b:=x]> (m_elements b)) b) q.
Proof.
  intros Hr Hroom. pose proof (represents_count _ _ Hr) as Hc.
  pose proof Hr as [Hwf _]. pose proof (slot_count b Hwf) as Hsc. destruct Hwf as [Hsz Hh Ht Hu].
  apply represents_intro.
  - split; simpl; [by rewrite length_insert|done..].
  - done.
  - intros j Hj. simpl. rewrite list_lookup_insert_ne; [by apply represents_lookup|].
    rewrite <-Hsc. intros Heq. apply slot_inj in Heq; lia.
Qed.
End spec.

(** ** Refinement theorems *)

Section theorems.
Context {ITEM : Type}.
Implicit Types (b : RingBuffer ITEM) (q : list ITEM) (x : ITEM).

Lemma add_ok b q x :
  represents b q → length q + 1 < m_memoryNumElements b →
  wp (add x) (λ r b', r = true ∧ represents b' (q ++ [x]) ∧
                      m_memoryNumElements b' = m_memoryNumElements b) b.
Proof.
  intros Hr Hroom. pose proof Hr as [[Hsz Hh Ht Hu] _]. unfold wp. rewrite add_run, (isFull_spec b q Hr).
  rewrite bool_decide_eq_false_2 by lia.
  change (wp (write (m_tailPtr b) x;; addElements 1;; ret true) (λ r b', r = true ∧ represents b' (q ++ [x]) ∧
    m_memoryNumElements b' = m_memoryNumElements b) b).
  wp_step. apply wp_write; [lia|]. wp_step. apply wp_advance_tail. wp_steps.
  split; [done|]. split; [|done].
  apply (represents_add_flat (set_elements _ b) q [x]); [by apply represents_write|simpl; lia..|].
  intros j Hj. simpl in Hj. assert (j = 0) as -> by lia. simpl. rewrite Nat.add_0_r.
  by rewrite list_lookup_insert_eq by lia.
Qed.

Lemma remove_ok b x q :
  represents b (x :: q) →
  wp remove (λ r b', r = Some x ∧ represents b' q ∧
                     m_memoryNumElements b' = m_memoryNumElements b) b.
Proof.
  intros Hr. pose proof Hr as [[Hsz Hh Ht Hu] _]. unfold wp. rewrite remove_run, (isEmpty_spec b _ Hr).
  rewrite bool_decide_eq_false_2 by done.
  change (wp (bind (deref (m_headPtr b)) (λ x, removeElements 1;; ret (Some x))) (λ r b', r = Some x ∧
    represents b' q ∧ m_memoryNumElements b' = m_memoryNumElements b) b).
  wp_step. apply (wp_deref _ x).
  { change (Some x) with ((x :: q) !! 0). rewrite <-(represents_lookup b (x :: q) 0 Hr) by (simpl; lia). f_equal.
    unfold slot. rewrite Nat.add_0_r. destruct (Nat.ltb_spec (m_headPtr b) (m_memoryNumElements b)); lia. }
  wp_step. apply wp_advance_head. wp_steps. split; [done|]. split; [|done].
  by apply (represents_remove_flat b (x :: q) 1); [|simpl; lia..].
Qed.

(** The operations, and what each is on the queue of capacity [n - 1]. *)
Inductive rop := RAdd (x : ITEM) | RRemove | RClear.
Inductive rres := RB_bool (r : bool) | RB_item (r : option ITEM) | RB_unit.

Definition run_rop (o : rop) : ST (RingBuffer ITEM) rres :=
  match o with
  | RAdd x => r ← add x; ret (RB_bool r)
  | RRemove => r ← remove; ret (RB_item r)
  | RClear => clearTheBuffer;; ret RB_unit
  end.

Definition spec_rop (n : nat) (o : rop) (q : list ITEM) : list ITEM * rres :=
  match o with
  | RAdd x => if length q <? n - 1 then (q ++ [x], RB_bool true) else (q, RB_bool false)
  | RRemove => match q with [] => ([], RB_item None) | x :: q' => (q', RB_item (Some x)) end
  | RClear => ([], RB_unit)
  end.

Lemma rop_refines o b q :
  represents b q →
  wp (run_rop o) (λ r b', r = (spec_rop (m_memoryNumElements b) o q).2 ∧
     represents b' (spec_rop (m_memoryNumElements b) o q).1 ∧
     m_memoryNumElements b' = m_memoryNumElements b) b.
Proof.
  intros Hr. destruct o as [x| |]; simpl.
  - apply wp_bind. destruct (Nat.ltb_spec (length q) (m_memoryNumElements b - 1)).
    + eapply wp_mono; [apply (add_ok b q x Hr); lia|]. intros r b' (-> & ? & ?). by wp_steps.
    + unfold wp. rewrite add_run, (isFull_spec b q Hr).
      pose proof (represents_count _ _ Hr). pose proof (count_lt b (proj1 Hr)).
      rewrite bool_decide_eq_true_2 by lia. done.
  - apply wp_bind. destruct q as [|x q].
    + unfold wp. rewrite remove_run, (isEmpty_spec b _ Hr). done.
    + eapply wp_mono; [by apply (remove_ok b x q)|]. intros r b' (-> & ? & ?). by wp_steps.
  - unfold clearTheBuffer. wp_steps. split; [done|]. split; [|done]. destruct Hr as [[] _].
    apply represents_intro; [split; simpl; [done|lia..|done]|done|simpl; lia].
Qed.

Fixpoint run_rops (os : list rop) : ST (RingBuffer ITEM) (list rres) :=
  match os with
  | [] => ret []
  | o :: os => r ← run_rop o; rs ← run_rops os; ret (r :: rs)
  end.

Fixpoint spec_rops (n : nat) (os : list rop) (q : list ITEM) : list ITEM * list rres :=
  match os with
  | [] => (q, [])
  | o :: os => let '(q1, r) := spec_rop n o q in
               let '(q2, rs) := spec_rops n os q1 in (q2, r :: rs)
  end.

Lemma rops_refine os b q :
  represents b q →
  ∃ rs b', run_rops os b = Some (rs, b') ∧ rs = (spec_rops (m_memoryNumElements b) os q).2 ∧
           represents b' (spec_rops (m_memoryNumElements b) os q).1.
Proof.
  revert b q. induction os as [|o os IH]; intros b q Hr; [by exists [], b|].
  pose proof (rop_refines o b q Hr) as (r & b1 & Hrun & -> & Hr1 & Hn1)%wp_run.
  destruct (IH b1 _ Hr1) as (rs & b2 & Hrun2 & -> & Hr2). rewrite Hn1 in *. simpl. unfold bind.
  rewrite Hrun, Hrun2. simpl. destruct (spec_rop _ _ _) as [q1 r1], (spec_rops _ _ _) as [q2 rs2].
  simpl in *. eauto.
Qed.

Lemma new_represents n (mem : list ITEM) :
  0 < n → length mem = n → (Z.of_nat n < 2 ^ 32)%Z → represents (RingBuffer_new n mem) [].
Proof.
  intros. apply represents_intro; [split; simpl; [done|lia..|done]|done|simpl; lia].
Qed.

(** C8. From construction on, any sequence of add, remove and clearTheBuffer
    never reads or writes outside the supplied memory and behaves as a FIFO
    queue that holds at most [n - 1] items and drops nothing silently. *)
Theorem ringbuffer_refines n (mem : list ITEM) (os : list rop) :
  0 < n → length mem = n → (Z.of_nat n < 2 ^ 32)%Z →
  ∃ rs b', run_rops os (RingBuffer_new n mem) = Some (rs, b') ∧
           rs = (spec_rops n os []).2 ∧ represents b' (spec_rops n os []).1.
Proof.
  intros Hn Hlen Hu. apply (rops_refine os (RingBuffer_new n mem) []). by apply new_represents.
Qed.

(** The observers agree with the queue: emptiness, fullness, the counts
    (computed on 32-bit unsigned values that may wrap), the maximum, and the
    pointers to the first and the last item. *)
Theorem ringbuffer_observers b q :
  represents b q →
  isEmpty b = bool_decide (q = []) ∧
  isFull b = bool_decide (Z.of_nat (length q) = getMaxItems b) ∧
  getNumItems b = Z.of_nat (length q) ∧
  getMaxItems b = (Z.of_nat (m_memoryNumElements b) - 1)%Z ∧
  (peekHead b ≫= λ p, m_elements b !! p) = head q ∧
  (peekTail b ≫= λ p, m_elements b !! p) = last q.
Proof.
  intros Hr. pose proof Hr as [Hwf _]. pose proof Hwf as [Hsz Hh Ht Hu].
  assert (getMaxItems b = (Z.of_nat (m_memoryNumElements b) - 1)%Z) as Hmax.
  { unfold getMaxItems, wrap. apply Z.mod_small. lia. }
  split_and!; [by apply isEmpty_spec| |by apply getNumItems_spec|done| |].
  - rewrite (isFull_spec b q Hr), Hmax. apply bool_decide_ext. lia.
  - unfold peekHead. rewrite (isEmpty_spec b q Hr). case_bool_decide as Hq; [by subst|].
    destruct q as [|x q]; [done|]. simpl. change (Some x) with ((x :: q) !! 0).
    rewrite <-(represents_lookup b (x :: q) 0 Hr) by (simpl; lia).
    f_equal. unfold slot. case_match eqn:E; rewrite ?Nat.ltb_lt, ?Nat.ltb_ge in E; lia.
  - pose proof (represents_count _ _ Hr) as Hc. pose proof (slot_count b Hwf) as Hsc.
    unfold peekTail. rewrite (isEmpty_spec b q Hr). case_bool_decide as Hq; [by subst|].
    rewrite last_lookup. assert (0 < length q) by (destruct q; simpl; [done|lia]).
    rewrite <-(represents_lookup b q (pred (length q)) Hr) by lia. rewrite Hc in Hsc.
    unfold slot, m_endOfMemPtr in *. destruct (Nat.eqb_spec (m_tailPtr b) 0); simpl; f_equal;
      repeat (case_match; rewrite ?Nat.ltb_lt, ?Nat.ltb_ge in *); lia.
Qed.

(** The flat access pairs peekNextRemoveItems/removeElements and
    peekNextAddItems/addElements: the returned pointer and count denote exactly
    the items that come off next, respectively free slots that stay inside the
    memory, and committing any number up to the count removes that many from
    the front, respectively appends what was written there to the back. *)
Theorem ringbuffer_flat_access b q :
  represents b q →
  (∀ p c, peekNextRemoveItems b = Some (p, c) →
     (0 < c ≤ Z.of_nat (length q))%Z ∧
     (∀ i, (Z.of_nat i < c)%Z → m_elements b !! (p + i) = q !! i) ∧
     (∀ i, (Z.of_nat i ≤ c)%Z → wp (removeElements i) (λ _ b', represents b' (drop i q)) b)) ∧
  (∀ p c, peekNextAddItems b = Some (p, c) →
     (0 < c)%Z ∧ (Z.of_nat (length q) + c ≤ getMaxItems b)%Z ∧
     (Z.of_nat p + c ≤ Z.of_nat (m_memoryNumElements b))%Z ∧
     (∀ ys b', (Z.of_nat (length ys) ≤ c)%Z → represents b' q →
        m_tailPtr b' = p → m_memoryNumElements b' = m_memoryNumElements b →
        (∀ i, i < length ys → m_elements b' !! (p + i) = ys !! i) →
        wp (addElements (length ys)) (λ _ b'', represents b'' (q ++ ys)) b')).
Proof.
  intros Hr. pose proof Hr as [Hwf _]. pose proof (count_lt b Hwf) as Hclt. pose proof Hwf as [Hsz Hh Ht Hu].
  pose proof (represents_count _ _ Hr) as Hc. pose proof (slot_count b Hwf) as Hsc.
  assert (getMaxItems b = (Z.of_nat (m_memoryNumElements b) - 1)%Z) as Hmax.
  { unfold getMaxItems, wrap. apply Z.mod_small. lia. }
  split.
  - intros p c. unfold peekNextRemoveItems. rewrite (isEmpty_spec b q Hr), (getNumItems_spec b q Hr).
    case_bool_decide as Hq; [done|]. unfold m_endOfMemPtr, wrap. rewrite Z.mod_small by lia.
    assert (0 < length q) by (destruct q; simpl; [done|lia]).
    intros [= <- <-]. split_and!; [case_match eqn:E; rewrite ?Z.ltb_lt, ?Z.ltb_ge in E; lia..| |].
    + intros i Hi. rewrite <-(represents_lookup b q i Hr).
      * f_equal. unfold slot.
        repeat (case_match; rewrite ?Z.ltb_lt, ?Z.ltb_ge, ?Nat.ltb_lt, ?Nat.ltb_ge in *); lia.
      * case_match eqn:E'; rewrite ?Z.ltb_lt, ?Z.ltb_ge in E'; lia.
    + intros i Hi. apply wp_advance_head.
      apply represents_remove_flat; [done|..]; case_match eqn:E'; rewrite ?Z.ltb_lt, ?Z.ltb_ge in E'; lia.
  - intros p c. unfold peekNextAddItems. rewrite (isFull_spec b q Hr), (getNumItems_spec b q Hr), Hmax.
    case_bool_decide as Hq; [done|]. unfold m_endOfMemPtr, wrap. rewrite !Z.mod_small by lia.
    intros [= <- <-]. split_and!; [case_match eqn:E; rewrite ?Z.ltb_lt, ?Z.ltb_ge in E; lia..|].
    intros ys b' Hle Hr' Htl Hnum Hys. apply wp_advance_tail.
    apply represents_add_flat; [done|..|by intros; rewrite Htl; apply Hys]; rewrite ?Htl, ?Hnum;
      case_match eqn:E'; rewrite ?Z.ltb_lt, ?Z.ltb_ge in E'; lia.
Qed.
End theorems.

(** ** Witnesses *)

Definition mem0 : list nat := [100; 101; 102].

Lemma ringbuffer_refines_witness :
  ∃ rs b', run_rops [RAdd 1; RAdd 2; RAdd 3; RRemove; RAdd 4; RRemove; RRemove; RRemove] (RingBuffer_new 3 mem0) = Some (rs, b') ∧
    rs = [RB_bool true; RB_bool true; RB_bool false; RB_item (Some 1); RB_bool true;
          RB_item (Some 2); RB_item (Some 4); RB_item None] ∧ represents b' [].
Proof.
  apply (ringbuffer_refines 3 mem0 [RAdd 1; RAdd 2; RAdd 3; RRemove; RAdd 4; RRemove; RRemove; RRemove]);
    [lia|reflexivity|lia].
Defined.

(** A buffer whose contents wrap around the end of the memory. *)
Definition wrapped : RingBuffer nat := MkRingBuffer 3 1 4 [7; 100; 101; 6].

Lemma wrapped_represents : represents wrapped [6; 7].
Proof. split; [|reflexivity]. split; simpl; lia. Qed.

Lemma ringbuffer_observers_witness :
  getNumItems wrapped = 2%Z ∧ (peekTail wrapped ≫= λ p, m_elements wrapped !! p) = Some 7.
Proof.
  destruct (ringbuffer_observers wrapped [6; 7] wrapped_represents) as (_ & _ & H & _ & _ & H').
  split; [exact H|exact H'].
Defined.

Lemma ringbuffer_flat_access_witness :
  peekNextRemoveItems wrapped = Some (3, 1%Z) ∧
  wp (removeElements 1) (λ _ b', represents b' [7]) wrapped.
Proof.
  split; [reflexivity|].
  destruct (ringbuffer_flat_access wrapped [6; 7] wrapped_represents) as [H _].
  destruct (H 3 1%Z eq_refl) as (_ & _ & H'). apply (H' 1). lia.
Defined.
