(* ===== verification/RingBufferConc.v ===== *)
(** * Ring buffer: one producer, one consumer

    The header comment of src/src/Cpl/Container/RingBuffer.h claims that one
    producer and one consumer may share the buffer without a lock, because
    add() only moves the tail and remove() only moves the head.  Here the two
    methods are split into their shared-memory accesses and interleaved.

    The wrap at the end of the memory is two stores in the source
    ([++m_tailPtr], then [m_tailPtr = m_elements]); [split] selects between
    that and a single store of the wrapped value. *)

From Stdlib Require Import ZArith Lia.
From S2P Require Import Prelude RingBuffer.

Section spsc.
Context {ITEM : Type}.

(** Where each thread is inside its method. *)
Inductive ppc := PIdle | PWrite (x : ITEM) | PInc (x : ITEM) | PWrap.
Inductive cpc := CIdle | CRead | CInc (y : ITEM) | CWrap.

Record conc := Conc {
  buf : RingBuffer ITEM;
  prod : ppc;
  cons : cpc;
  added : list ITEM;
  removed : list ITEM
}.

Abbreviation inc p := (p + 1) (only parsing).

Inductive step (split : bool) : conc → conc → Prop :=
  (* add(): if ( isFull() ) return false *)
  | step_p_check b c a r x :
      isFull b = false →
      step split (Conc b PIdle c a r) (Conc b (PWrite x) c a r)
  (* *m_tailPtr = item *)
  | step_p_write b c a r x :
      m_tailPtr b < length (m_elements b) →
      step split (Conc b (PWrite x) c a r)
        (Conc (set_elements (<[m_tailPtr b := x]> (m_elements b)) b) (PInc x) c a r)
  (* ++m_tailPtr *)
  | step_p_inc b c a r x :
      split = true →
      step split (Conc b (PInc x) c a r) (Conc (set_tail (inc (m_tailPtr b)) b) PWrap c (a ++ [x]) r)
  (* if ( m_tailPtr >= m_endOfMemPtr ) m_tailPtr = m_elements *)
  | step_p_wrap b c a r :
      step split (Conc b PWrap c a r)
        (Conc (if m_endOfMemPtr b <=? m_tailPtr b then set_tail 0 b else b) PIdle c a r)
  (* the same as one store *)
  | step_p_inc1 b c a r x :
      split = false →
      step split (Conc b (PInc x) c a r)
        (Conc (set_tail (advance (m_memoryNumElements b) (m_tailPtr b) 1) b) PIdle c (a ++ [x]) r)
  (* remove(): if ( isEmpty() ) return false *)
  | step_c_check b p a r :
      isEmpty b = false →
      step split (Conc b p CIdle a r) (Conc b p CRead a r)
  (* dst = *m_headPtr *)
  | step_c_read b p a r y :
      m_elements b !! m_headPtr b = Some y →
      step split (Conc b p CRead a r) (Conc b p (CInc y) a r)
  (* ++m_headPtr *)
  | step_c_inc b p a r y :
      split = true →
      step split (Conc b p (CInc y) a r) (Conc (set_head (inc (m_headPtr b)) b) p CWrap a (r ++ [y]))
  | step_c_wrap b p a r :
      step split (Conc b p CWrap a r)
        (Conc (if m_endOfMemPtr b <=? m_headPtr b then set_head 0 b else b) p CIdle a r)
  | step_c_inc1 b p a r y :
      split = false →
      step split (Conc b p (CInc y) a r)
        (Conc (set_head (advance (m_memoryNumElements b) (m_headPtr b) 1) b) p CIdle a (r ++ [y])).

Definition init (n : nat) (mem : list ITEM) : conc :=
  Conc (RingBuffer_new n mem) PIdle CIdle [] [].

(** ** Single-store updates: the claim holds *)

(** The threads' knowledge is stable: what the producer saw (room) only the
    producer can invalidate, what the consumer saw (an item) only the
    consumer. *)
Record inv (s : conc) (q : list ITEM) : Prop := {
  inv_rep : represents (buf s) q;
  inv_hist : added s = removed s ++ q;
  inv_prod : match prod s with
             | PIdle => True
             | PWrite _ => length q + 1 < m_memoryNumElements (buf s)
             | PInc x => length q + 1 < m_memoryNumElements (buf s) ∧
                         m_elements (buf s) !! m_tailPtr (buf s) = Some x
             | PWrap => False
             end;
  inv_cons : match cons s with
             | CIdle => True
             | CRead => q ≠ []
             | CInc y => head q = Some y
             | CWrap => False
             end
}.

Lemma head_slot (b : RingBuffer ITEM) q : represents b q → q ≠ [] → m_elements b !! m_headPtr b = head q.
Proof.
  intros Hr Hq. destruct q as [|x q]; [done|]. simpl. change (Some x) with ((x :: q) !! 0).
  rewrite <-(represents_lookup b (x :: q) 0 Hr) by (simpl; lia). f_equal.
  destruct Hr as [[] _]. unfold slot. case_match eqn:E; rewrite ?Nat.ltb_lt, ?Nat.ltb_ge in E; lia.
Qed.

Lemma not_full_room (b : RingBuffer ITEM) q :
  represents b q → isFull b = false → length q + 1 < m_memoryNumElements b.
Proof.
  intros Hr. rewrite (isFull_spec b q Hr). intros Hf%bool_decide_eq_false.
  pose proof (represents_count _ _ Hr). pose proof (count_lt b (proj1 Hr)). lia.
Qed.

Lemma represents_snoc (b : RingBuffer ITEM) q x :
  represents b q → length q + 1 < m_memoryNumElements b → m_elements b !! m_tailPtr b = Some x →
  represents (set_tail (advance (m_memoryNumElements b) (m_tailPtr b) 1) b) (q ++ [x]).
Proof.
  intros Hr Hroom Hx. pose proof Hr as [[] _].
  apply (represents_add_flat b q [x]); [done|simpl; lia..|].
  intros j Hj. simpl in Hj. assert (j = 0) as -> by lia. by rewrite Nat.add_0_r.
Qed.

Lemma inv_step s s' q : inv s q → step false s s' → ∃ q', inv s' q'.
Proof.
  intros [Hr Hh Hp Hc] Hst. pose proof Hr as [[Hsz Hhd Htl _] _].
  inversion Hst; subst; simpl in *; try done.
  - exists q. split; simpl; [done..|by apply not_full_room|done].
  - exists q. split; simpl; [by apply represents_write|done| |done].
    split; [done|]. by rewrite list_lookup_insert_eq.
  - destruct Hp as [Hroom Hx]. exists (q ++ [x]). split; simpl.
    + by apply represents_snoc.
    + by rewrite app_assoc, Hh.
    + done.
    + destruct c; [done|by destruct q|by destruct q|done].
  - exists q. split; simpl; [done..|]. rewrite (isEmpty_spec b q Hr) in H. by apply bool_decide_eq_false in H.
  - exists q. split; simpl; [done..|]. by rewrite <-(head_slot b q).
  - destruct q as [|z q]; [done|]. injection Hc as ->. exists q. split; simpl.
    + apply (represents_remove_flat b (y :: q) 1); [done|simpl; lia..].
    + by rewrite Hh, <-app_assoc.
    + destruct p; simpl in *; naive_solver lia.
    + done.
Qed.

End spsc.

(** ** The two stores of the source: a race *)

(** With the two stores the source writes, there is an interleaving of one
    producer and one consumer in which the consumer removes three items when
    only two were added: the consumer runs while the tail is one past the end of the
    memory, wraps its own pointer, and then takes the buffer for non-empty. *)
Theorem spsc_two_store_race :
  ∃ s : conc, rtc (step true) (init 2 [7; 8]) s ∧ added s = [1; 2] ∧ removed s = [1; 2; 1].
Proof.
  eexists. split; [|split].
  - eapply rtc_l; [by apply (step_p_check true _ _ _ _ 1)|].
    eapply rtc_l; [apply step_p_write; simpl; lia|].
    eapply rtc_l; [by apply step_p_inc|]. eapply rtc_l; [apply step_p_wrap|]. simpl.
    eapply rtc_l; [by apply step_c_check|]. eapply rtc_l; [by apply step_c_read|].
    eapply rtc_l; [by apply step_c_inc|]. eapply rtc_l; [apply step_c_wrap|]. simpl.
    eapply rtc_l; [by apply (step_p_check true _ _ _ _ 2)|].
    eapply rtc_l; [apply step_p_write; simpl; lia|].
    eapply rtc_l; [by apply step_p_inc|]. simpl.
    eapply rtc_l; [by apply step_c_check|]. eapply rtc_l; [by apply step_c_read|].
    eapply rtc_l; [by apply step_c_inc|]. eapply rtc_l; [apply step_c_wrap|]. simpl.
    eapply rtc_l; [by apply step_c_check|]. eapply rtc_l; [by apply step_c_read|].
    eapply rtc_l; [by apply step_c_inc|]. apply rtc_refl.
  - reflexivity.
  - reflexivity.
Qed.

