(* ===== verification/Md5.v ===== *)
(** * MD5

    Models src/src/Cpl/Checksum/md5_aladdin_.c (and its wrapper Md5Aladdin.cpp):
    the incremental interface init / append / finish over a 64-byte block
    buffer and a 64-bit message length kept in two 32-bit words.  Bytes are
    [Z] values in [0, 256), words [Z] values in [0, 2^32). *)

From Stdlib Require Import ZArith Lia.
From S2P Require Import Prelude.
Local Open Scope Z_scope.

(** ** The compression function *)

Definition T_MASK : Z := 0xffffffff.
Definition t_xor (x : Z) : Z := Z.lxor T_MASK x.

Definition T1 : Z := t_xor 0x28955b87.
Definition T2 : Z := t_xor 0x173848a9.
Definition T3 : Z := 0x242070db.
Definition T4 : Z := t_xor 0x3e423111.
Definition T5 : Z := t_xor 0x0a83f050.
Definition T6 : Z := 0x4787c62a.
Definition T7 : Z := t_xor 0x57cfb9ec.
Definition T8 : Z := t_xor 0x02b96afe.
Definition T9 : Z := 0x698098d8.
Definition T10 : Z := t_xor 0x74bb0850.
Definition T11 : Z := t_xor 0x0000a44e.
Definition T12 : Z := t_xor 0x76a32841.
Definition T13 : Z := 0x6b901122.
Definition T14 : Z := t_xor 0x02678e6c.
Definition T15 : Z := t_xor 0x5986bc71.
Definition T16 : Z := 0x49b40821.
Definition T17 : Z := t_xor 0x09e1da9d.
Definition T18 : Z := t_xor 0x3fbf4cbf.
Definition T19 : Z := 0x265e5a51.
Definition T20 : Z := t_xor 0x16493855.
Definition T21 : Z := t_xor 0x29d0efa2.
Definition T22 : Z := 0x02441453.
Definition T23 : Z := t_xor 0x275e197e.
Definition T24 : Z := t_xor 0x182c0437.
Definition T25 : Z := 0x21e1cde6.
Definition T26 : Z := t_xor 0x3cc8f829.
Definition T27 : Z := t_xor 0x0b2af278.
Definition T28 : Z := 0x455a14ed.
Definition T29 : Z := t_xor 0x561c16fa.
Definition T30 : Z := t_xor 0x03105c07.
Definition T31 : Z := 0x676f02d9.
Definition T32 : Z := t_xor 0x72d5b375.
Definition T33 : Z := t_xor 0x0005c6bd.
Definition T34 : Z := t_xor 0x788e097e.
Definition T35 : Z := 0x6d9d6122.
Definition T36 : Z := t_xor 0x021ac7f3.
Definition T37 : Z := t_xor 0x5b4115bb.
Definition T38 : Z := 0x4bdecfa9.
Definition T39 : Z := t_xor 0x0944b49f.
Definition T40 : Z := t_xor 0x4140438f.
Definition T41 : Z := 0x289b7ec6.
Definition T42 : Z := t_xor 0x155ed805.
Definition T43 : Z := t_xor 0x2b10cf7a.
Definition T44 : Z := 0x04881d05.
Definition T45 : Z := t_xor 0x262b2fc6.
Definition T46 : Z := t_xor 0x1924661a.
Definition T47 : Z := 0x1fa27cf8.
Definition T48 : Z := t_xor 0x3b53a99a.
Definition T49 : Z := t_xor 0x0bd6ddbb.
Definition T50 : Z := 0x432aff97.
Definition T51 : Z := t_xor 0x546bdc58.
Definition T52 : Z := t_xor 0x036c5fc6.
Definition T53 : Z := 0x655b59c3.
Definition T54 : Z := t_xor 0x70f3336d.
Definition T55 : Z := t_xor 0x00100b82.
Definition T56 : Z := t_xor 0x7a7ba22e.
Definition T57 : Z := 0x6fa87e4f.
Definition T58 : Z := t_xor 0x01d3191f.
Definition T59 : Z := t_xor 0x5cfebceb.
Definition T60 : Z := 0x4e0811a1.
Definition T61 : Z := t_xor 0x08ac817d.
Definition T62 : Z := t_xor 0x42c50dca.
Definition T63 : Z := 0x2ad7d2bb.
Definition T64 : Z := t_xor 0x14792c6e.

Definition word_not (x : Z) : Z := Z.lxor T_MASK x.

Definition ROTATE_LEFT (x : Z) (n : Z) : Z :=
  Z.lor (u32 (Z.shiftl x n)) (Z.shiftr x (32 - n)).

Definition F_ (x y z : Z) : Z := Z.lor (Z.land x y) (Z.land (word_not x) z).
Definition G_ (x y z : Z) : Z := Z.lor (Z.land x z) (Z.land y (word_not z)).
Definition H_ (x y z : Z) : Z := Z.lxor (Z.lxor x y) z.
Definition I_ (x y z : Z) : Z := Z.lxor y (Z.lor x (word_not z)).

(** [t = a + f(b,c,d) + X[k] + Ti; a = ROTATE_LEFT(t, s) + b] *)
Definition SET (f : Z → Z → Z → Z) (X : nat → Z) (a b c d : Z) (k : nat) (s Ti : Z) : Z :=
  let t := u32 (a + f b c d + X k + Ti) in
  u32 (ROTATE_LEFT t s + b).

Definition round1 (X : nat → Z) (v : Z * Z * Z * Z) : Z * Z * Z * Z :=
  let '(a, b, c, d) := v in
  let a := SET F_ X a b c d 0 7 T1 in
  let d := SET F_ X d a b c 1 12 T2 in
  let c := SET F_ X c d a b 2 17 T3 in
  let b := SET F_ X b c d a 3 22 T4 in
  let a := SET F_ X a b c d 4 7 T5 in
  let d := SET F_ X d a b c 5 12 T6 in
  let c := SET F_ X c d a b 6 17 T7 in
  let b := SET F_ X b c d a 7 22 T8 in
  let a := SET F_ X a b c d 8 7 T9 in
  let d := SET F_ X d a b c 9 12 T10 in
  let c := SET F_ X c d a b 10 17 T11 in
  let b := SET F_ X b c d a 11 22 T12 in
  let a := SET F_ X a b c d 12 7 T13 in
  let d := SET F_ X d a b c 13 12 T14 in
  let c := SET F_ X c d a b 14 17 T15 in
  let b := SET F_ X b c d a 15 22 T16 in
  (a, b, c, d).

Definition round2 (X : nat → Z) (v : Z * Z * Z * Z) : Z * Z * Z * Z :=
  let '(a, b, c, d) := v in
  let a := SET G_ X a b c d 1 5 T17 in
  let d := SET G_ X d a b c 6 9 T18 in
  let c := SET G_ X c d a b 11 14 T19 in
  let b := SET G_ X b c d a 0 20 T20 in
  let a := SET G_ X a b c d 5 5 T21 in
  let d := SET G_ X d a b c 10 9 T22 in
  let c := SET G_ X c d a b 15 14 T23 in
  let b := SET G_ X b c d a 4 20 T24 in
  let a := SET G_ X a b c d 9 5 T25 in
  let d := SET G_ X d a b c 14 9 T26 in
  let c := SET G_ X c d a b 3 14 T27 in
  let b := SET G_ X b c d a 8 20 T28 in
  let a := SET G_ X a b c d 13 5 T29 in
  let d := SET G_ X d a b c 2 9 T30 in
  let c := SET G_ X c d a b 7 14 T31 in
  let b := SET G_ X b c d a 12 20 T32 in
  (a, b, c, d).

Definition round3 (X : nat → Z) (v : Z * Z * Z * Z) : Z * Z * Z * Z :=
  let '(a, b, c, d) := v in
  let a := SET H_ X a b c d 5 4 T33 in
  let d := SET H_ X d a b c 8 11 T34 in
  let c := SET H_ X c d a b 11 16 T35 in
  let b := SET H_ X b c d a 14 23 T36 in
  let a := SET H_ X a b c d 1 4 T37 in
  let d := SET H_ X d a b c 4 11 T38 in
  let c := SET H_ X c d a b 7 16 T39 in
  let b := SET H_ X b c d a 10 23 T40 in
  let a := SET H_ X a b c d 13 4 T41 in
  let d := SET H_ X d a b c 0 11 T42 in
  let c := SET H_ X c d a b 3 16 T43 in
  let b := SET H_ X b c d a 6 23 T44 in
  let a := SET H_ X a b c d 9 4 T45 in
  let d := SET H_ X d a b c 12 11 T46 in
  let c := SET H_ X c d a b 15 16 T47 in
  let b := SET H_ X b c d a 2 23 T48 in
  (a, b, c, d).

Definition round4 (X : nat → Z) (v : Z * Z * Z * Z) : Z * Z * Z * Z :=
  let '(a, b, c, d) := v in
  let a := SET I_ X a b c d 0 6 T49 in
  let d := SET I_ X d a b c 7 10 T50 in
  let c := SET I_ X c d a b 14 15 T51 in
  let b := SET I_ X b c d a 5 21 T52 in
  let a := SET I_ X a b c d 12 6 T53 in
  let d := SET I_ X d a b c 3 10 T54 in
  let c := SET I_ X c d a b 10 15 T55 in
  let b := SET I_ X b c d a 1 21 T56 in
  let a := SET I_ X a b c d 8 6 T57 in
  let d := SET I_ X d a b c 15 10 T58 in
  let c := SET I_ X c d a b 6 15 T59 in
  let b := SET I_ X b c d a 13 21 T60 in
  let a := SET I_ X a b c d 4 6 T61 in
  let d := SET I_ X d a b c 11 10 T62 in
  let c := SET I_ X c d a b 2 15 T63 in
  let b := SET I_ X b c d a 9 21 T64 in
  (a, b, c, d).

(** X[k]: the k-th little-endian word of the block. *)
Definition block_word (data : list Z) (k : nat) : Z :=
  let byte i := default 0 (data !! (4 * k + i)%nat) in
  byte 0%nat + Z.shiftl (byte 1%nat) 8 + Z.shiftl (byte 2%nat) 16 + Z.shiftl (byte 3%nat) 24.

Abbreviation regs := (Z * Z * Z * Z)%type.

Definition md5_process (abcd : regs) (data : list Z) : regs :=
  let '(a0, b0, c0, d0) := abcd in
  let X := block_word data in
  let '(a, b, c, d) := round4 X (round3 X (round2 X (round1 X abcd))) in
  (u32 (a0 + a), u32 (b0 + b), u32 (c0 + c), u32 (d0 + d)).

(** ** The incremental interface *)

Record md5_state := MkMd5 {
  count0 : Z;
  count1 : Z;
  abcd : regs;
  buf : list Z
}.

(** The caller's memory, before md5_init. *)
Definition md5_init (uninit : md5_state) : md5_state :=
  MkMd5 0 0 (0x67452301, t_xor 0x10325476, t_xor 0x67452301, 0x10325476) (buf uninit).

(** [for (; left >= 64; p += 64, left -= 64) md5_process(pms, p);] *)
Fixpoint md5_blocks (fuel : nat) (r : regs) (p : list Z) : regs * list Z :=
  match fuel with
  | O => (r, p)
  | S fuel =>
      if (64 <=? length p)%nat then md5_blocks fuel (md5_process r (take 64 p)) (drop 64 p)
      else (r, p)
  end.

(** [memcpy( buf + off, p, length p )] *)
Definition memcpy_at (buf : list Z) (off : nat) (p : list Z) : list Z :=
  take off buf ++ p ++ drop (off + length p) buf.

Definition md5_append (pms : md5_state) (data : list Z) : md5_state :=
  let nbytes := Z.of_nat (length data) in
  let offset := Z.to_nat (Z.land (Z.shiftr (count0 pms) 3) 63) in
  let nbits := u32 (Z.shiftl nbytes 3) in
  if nbytes <=? 0 then pms
  else
    let c1 := u32 (count1 pms + Z.shiftr nbytes 29) in
    let c0 := u32 (count0 pms + nbits) in
    let c1 := if c0 <? nbits then u32 (c1 + 1) else c1 in
    let finish r bf p :=
      let '(r, rest) := md5_blocks (length p) r p in
      MkMd5 c0 c1 r (if decide (rest = []) then bf else memcpy_at bf 0 rest) in
    if (offset =? 0)%nat then finish (abcd pms) (buf pms) data
    else
      let copy := (if 64 <? offset + length data then 64 - offset else length data)%nat in
      let bf := memcpy_at (buf pms) offset (take copy data) in
      if (offset + copy <? 64)%nat then MkMd5 c0 c1 (abcd pms) bf
      else finish (md5_process (abcd pms) bf) bf (drop copy data).

Definition pad : list Z := 0x80 :: repeat 0 63.

Definition word_bytes (w : Z) : list Z :=
  [Z.land w 0xff; Z.land (Z.shiftr w 8) 0xff; Z.land (Z.shiftr w 16) 0xff; Z.land (Z.shiftr w 24) 0xff].

Definition md5_finish (pms : md5_state) : md5_state * list Z :=
  let data := word_bytes (count0 pms) ++ word_bytes (count1 pms) in
  let padlen := Z.to_nat (Z.land (u32 (55 - Z.shiftr (count0 pms) 3)) 63 + 1) in
  let pms := md5_append pms (take padlen pad) in
  let pms := md5_append pms data in
  let '(a, b, c, d) := abcd pms in
  (pms, word_bytes a ++ word_bytes b ++ word_bytes c ++ word_bytes d).

(** ** Reference: RFC 1321 on a whole message *)

Definition iv : regs := (0x67452301, t_xor 0x10325476, t_xor 0x67452301, 0x10325476).

(** The message, a 1 bit, zeros up to 56 bytes mod 64, the length in bits as a
    64-bit little-endian number. *)
Definition padding (m : list Z) : list Z :=
  let bits := (8 * Z.of_nat (length m)) mod 2 ^ 64 in
  0x80 :: repeat 0 ((55 + 64 - length m mod 64) mod 64) ++
  word_bytes (bits mod 2 ^ 32) ++ word_bytes (bits / 2 ^ 32).

Definition regs_bytes (r : regs) : list Z :=
  let '(a, b, c, d) := r in word_bytes a ++ word_bytes b ++ word_bytes c ++ word_bytes d.

Definition md5_spec (m : list Z) : list Z :=
  let m' := m ++ padding m in regs_bytes (md5_blocks (length m') iv m').1.

(** ** Block lemmas *)

Lemma blocks_fuel n1 n2 r p :
  (length p ≤ n1)%nat → (length p ≤ n2)%nat → md5_blocks n1 r p = md5_blocks n2 r p.
Proof.
  revert n2 r p. induction n1 as [|n1 IH]; intros n2 r p H1 H2.
  - destruct p; [|simpl in H1; lia]. by destruct n2.
  - destruct n2 as [|n2]; [destruct p; [done|simpl in H2; lia]|]. cbn [md5_blocks].
    destruct (Nat.leb_spec 64 (length p)); [|done].
    apply IH; rewrite length_drop; lia.
Qed.

(** All blocks of a message. *)
Definition blocks (r : regs) (p : list Z) : regs * list Z := md5_blocks (length p) r p.

Lemma blocks_short r p : (length p < 64)%nat → blocks r p = (r, p).
Proof.
  unfold blocks. destruct p as [|x p]; [done|]. intros Hp. cbn [length md5_blocks].
  destruct (Nat.leb_spec 64 (S (length p))); [simpl in Hp; lia|done].
Qed.

Lemma blocks_long r p :
  (64 ≤ length p)%nat → blocks r p = blocks (md5_process r (take 64 p)) (drop 64 p).
Proof.
  unfold blocks. intros Hp. destruct (length p) as [|n] eqn:E; [lia|]. cbn [md5_blocks]. rewrite E.
  rewrite (proj2 (Nat.leb_le 64 (S n))) by lia.
  apply blocks_fuel; rewrite length_drop; lia.
Qed.

Lemma blocks_rest_length r p : length (blocks r p).2 = (length p mod 64)%nat.
Proof.
  remember (length p) as n eqn:Hn. revert r p Hn.
  induction (lt_wf n) as [n _ IH]; intros r p ->. destruct (decide (length p < 64)%nat).
  - rewrite blocks_short by done. symmetry. by apply Nat.mod_small.
  - rewrite blocks_long by lia. rewrite (IH (length p - 64)%nat); [|lia|by rewrite length_drop].
    replace (length p) with (length p - 64 + 1 * 64)%nat at 2 by lia. by rewrite Nat.Div0.mod_add.
Qed.

(** Hashing can be resumed at any point of the message. *)
Lemma blocks_app r p d : blocks r (p ++ d) = let '(r', rest) := blocks r p in blocks r' (rest ++ d).
Proof.
  remember (length p) as n eqn:Hn. revert r p Hn.
  induction (lt_wf n) as [n _ IH]; intros r p ->. destruct (decide (length p < 64)%nat).
  - by rewrite (blocks_short r p).
  - rewrite (blocks_long r p), blocks_long by (rewrite ?length_app; lia).
    rewrite take_app_le, drop_app_le by lia.
    apply (IH (length p - 64)%nat); [lia|by rewrite length_drop].
Qed.

(** ** The state represents a message *)

Record represents (s : md5_state) (m : list Z) : Prop := {
  rep_buf_len : length (buf s) = 64%nat;
  rep_count0 : count0 s = (8 * Z.of_nat (length m)) mod 2 ^ 32;
  rep_count1 : count1 s = ((8 * Z.of_nat (length m)) / 2 ^ 32) mod 2 ^ 32;
  rep_regs : abcd s = (blocks iv m).1;
  rep_rest : take (length m mod 64) (buf s) = (blocks iv m).2
}.

Lemma init_represents s : length (buf s) = 64%nat → represents (md5_init s) [].
Proof. by split. Qed.

Lemma offset_spec n : Z.to_nat (Z.land (Z.shiftr ((8 * Z.of_nat n) mod 2 ^ 32) 3) 63) = (n mod 64)%nat.
Proof.
  change 63 with (Z.ones 6). rewrite Z.land_ones, Z.shiftr_div_pow2 by lia.
  apply Nat2Z.inj. rewrite Nat2Z.inj_mod, Z2Nat.id by (apply Z.mod_pos_bound; lia).
  change (2 ^ 3) with 8. change (2 ^ 6) with 64. change (Z.of_nat 64) with 64.
  pose proof (Z.div_mod (8 * Z.of_nat n) (2 ^ 32)) as Hd.
  pose proof (Z.mod_pos_bound (8 * Z.of_nat n) (2 ^ 32)).
  set (q := 8 * Z.of_nat n / 2 ^ 32) in *. set (r := (8 * Z.of_nat n) mod 2 ^ 32) in *.
  replace (r / 8) with (Z.of_nat n + (- q * 2 ^ 23) * 64).
  - by rewrite Z.mod_add by lia.
  - apply Z.div_unique with (r := 0); lia.
Qed.

(** Adding two multi-word numbers: the low words, and the carry the code
    detects by comparing the sum with an operand. *)
Lemma carry_spec a b B :
  0 < B → 0 <= a → 0 <= b →
  (a + b) / B = a / B + b / B + (if (a mod B + b mod B) mod B <? b mod B then 1 else 0).
Proof.
  intros HB Ha Hb.
  pose proof (Z.div_mod a B) as Da. pose proof (Z.div_mod b B) as Db.
  pose proof (Z.mod_pos_bound a B HB). pose proof (Z.mod_pos_bound b B HB).
  set (x := a mod B) in *. set (y := b mod B) in *. set (p := a / B) in *. set (q := b / B) in *.
  replace (a + b) with (x + y + (p + q) * B) by lia. rewrite Z.div_add by lia.
  destruct (Z_lt_le_dec (x + y) B).
  - rewrite Z.mod_small, Z.div_small by lia. destruct (Z.ltb_spec (x + y) y); lia.
  - replace ((x + y) mod B) with (x + y - B) by (apply Z.mod_unique with 1; lia).
    replace ((x + y) / B) with 1 by (apply Z.div_unique with (x + y - B); lia).
    destruct (Z.ltb_spec (x + y - B) y); lia.
Qed.

Lemma append_counts l n (c1 := u32 (((8 * l) / 2 ^ 32) mod 2 ^ 32 + Z.shiftr n 29))
    (c0 := u32 ((8 * l) mod 2 ^ 32 + u32 (Z.shiftl n 3))) :
  0 <= l → 0 <= n →
  c0 = (8 * (l + n)) mod 2 ^ 32 ∧
  (if c0 <? u32 (Z.shiftl n 3) then u32 (c1 + 1) else c1) = ((8 * (l + n)) / 2 ^ 32) mod 2 ^ 32.
Proof.
  intros Hl Hn. unfold c0, c1, wrap. rewrite Z.shiftl_mul_pow2, Z.shiftr_div_pow2 by lia.
  change (2 ^ 3) with 8. replace (n / 2 ^ 29) with ((8 * n) / 2 ^ 32).
  2:{ change (2 ^ 32) with (8 * 2 ^ 29). by rewrite Z.div_mul_cancel_l by lia. }
  replace (n * 8) with (8 * n) by lia. rewrite <-Zplus_mod, <-Z.mul_add_distr_l. split; [done|].
  replace (8 * (l + n)) with (8 * l + 8 * n) by lia.
  rewrite (carry_spec (8 * l) (8 * n) (2 ^ 32)), <-Zplus_mod by lia.
  destruct (_ <? _).
  - by rewrite Zplus_mod_idemp_l, <-!Z.add_assoc, Zplus_mod_idemp_l.
  - by rewrite Zplus_mod_idemp_l, Z.add_0_r.
Qed.

(** ** append *)

Lemma memcpy_length b off p :
  length b = 64%nat → (off + length p ≤ 64)%nat → length (memcpy_at b off p) = 64%nat.
Proof. intros Hb Hp. unfold memcpy_at. rewrite !length_app, length_take, length_drop. lia. Qed.

Lemma memcpy_prefix b off p :
  (off ≤ length b)%nat → take (off + length p) (memcpy_at b off p) = take off b ++ p.
Proof.
  intros Hb. unfold memcpy_at. rewrite app_assoc, take_app_length'; [done|].
  rewrite length_app, length_take. lia.
Qed.

(** The part of md5_append after the partial block: full blocks, then the rest
    into the buffer. *)
Lemma append_tail c0 c1 r bf p m :
  length bf = 64%nat →
  c0 = (8 * Z.of_nat (length m)) mod 2 ^ 32 →
  c1 = ((8 * Z.of_nat (length m)) / 2 ^ 32) mod 2 ^ 32 →
  blocks iv m = blocks r p →
  represents (let '(r, rest) := md5_blocks (length p) r p in
              MkMd5 c0 c1 r (if decide (rest = []) then bf else memcpy_at bf 0 rest)) m.
Proof.
  intros Hbf H0 H1 Hbl. fold (blocks r p).
  pose proof (blocks_rest_length iv m) as Hlen. pose proof (Nat.mod_upper_bound (length m) 64).
  rewrite Hbl in Hlen. destruct (blocks r p) as [r' rest] eqn:E. cbn [snd] in Hlen.
  split; cbn [buf count0 count1 abcd]; rewrite ?Hbl; [|done..|].
  - case_decide; [done|]. apply memcpy_length; [done|lia].
  - rewrite <-Hlen. cbn [snd]. case_decide as Hr; [by subst|].
    change (length rest) with (0 + length rest)%nat. by rewrite memcpy_prefix by lia.
Qed.

Lemma append_represents s m d :
  represents s m → represents (md5_append s d) (m ++ d).
Proof.
  intros [Hb H0 H1 Hr Hrest]. unfold md5_append.
  destruct (Z.leb_spec (Z.of_nat (length d)) 0).
  { assert (d = []) as -> by (destruct d; [done|simpl in *; lia]). by rewrite app_nil_r. }
  rewrite H0, H1, offset_spec.
  destruct (append_counts (Z.of_nat (length m)) (Z.of_nat (length d))) as [Hc0 Hc1]; [lia..|].
  cbv zeta. rewrite Hc1, Hc0. rewrite <-Nat2Z.inj_add, <-length_app. clear Hc0 Hc1.
  pose proof (blocks_rest_length iv m) as Hlen. pose proof (Nat.mod_upper_bound (length m) 64).
  pose proof (blocks_app iv m d) as Happ. rewrite Hr. rewrite <-Hrest in Hlen.
  destruct (blocks iv m) as [r rest] eqn:E. cbn [fst snd] in *. subst rest.
  set (o := (length m mod 64)%nat) in *. destruct (Nat.eqb_spec o 0) as [Ho|Ho].
  - rewrite Ho in Happ. by apply append_tail.
  - set (copy := if (64 <? o + length d)%nat then (64 - o)%nat else length d).
    assert (copy ≤ length d ∧ o + copy ≤ 64 ∧ (o + copy < 64 → copy = length d))%nat as (Hc1 & Hc2 & Hc3).
    { unfold copy. destruct (Nat.ltb_spec 64 (o + length d)); lia. }
    assert (length (take copy d) = copy) as Htc by (rewrite length_take; lia).
    pose proof (memcpy_prefix (buf s) o (take copy d)) as Hpre. rewrite Htc in Hpre.
    pose proof (memcpy_length (buf s) o (take copy d) Hb) as Hml. rewrite Htc in Hml.
    destruct (Nat.ltb_spec (o + copy) 64).
    + assert (copy = length d) as Hcd by lia. rewrite Hcd in Hpre, Hml |- *.
      rewrite (take_ge d) in Hpre, Hml |- * by lia.
      assert (length (take o (buf s) ++ d) < 64)%nat by (rewrite length_app; lia).
      rewrite (blocks_short r (take o (buf s) ++ d)) in Happ by done.
      split; cbn [buf count0 count1 abcd]; [apply Hml; lia|done..|by rewrite Happ|].
      rewrite Happ. cbn [snd]. rewrite <-Hpre by lia. f_equal.
      rewrite length_app, <-Nat.Div0.add_mod_idemp_l. fold o. apply Nat.mod_small. lia.
    + assert (o + copy = 64)%nat as Hoc by lia. apply append_tail; [apply Hml; lia|done..|].
      rewrite Happ, blocks_long by (rewrite length_app; lia).
      rewrite Hoc, take_ge in Hpre by (rewrite Hml by lia; lia).
      rewrite take_app_ge, drop_app_ge by lia. rewrite Hlen.
      replace (64 - o)%nat with copy by lia. by rewrite Hpre by lia.
Qed.

Lemma fold_append_represents s m chunks :
  represents s m → represents (fold_left md5_append chunks s) (m ++ concat chunks).
Proof.
  revert s m. induction chunks as [|c cs IH]; intros s m Hs; simpl; [by rewrite app_nil_r|].
  rewrite app_assoc. by apply IH, append_represents.
Qed.

(** ** finish *)

Lemma padlen_spec n :
  Z.to_nat (Z.land (u32 (55 - Z.shiftr ((8 * Z.of_nat n) mod 2 ^ 32) 3)) 63 + 1)
  = S ((55 + 64 - n mod 64) mod 64).
Proof.
  pose proof (offset_spec n) as Ho. unfold wrap. change 63 with (Z.ones 6) in *.
  rewrite Z.land_ones in * by lia.
  set (c := Z.shiftr ((8 * Z.of_nat n) mod 2 ^ 32) 3) in *. change (2 ^ 6) with 64 in *.
  assert (c mod 64 = Z.of_nat (n mod 64)) as Hc.
  { rewrite <-Ho, Z2Nat.id; [done|]. apply Z.mod_pos_bound. lia. }
  assert (((55 - c) mod 2 ^ 32) mod 64 = (55 - c mod 64) mod 64) as ->.
  { change (2 ^ 32) with (64 * 2 ^ 26). rewrite Z.rem_mul_r by lia.
    rewrite Z.mul_comm, Z.mod_add, Z.mod_mod, Zminus_mod_idemp_r by lia. done. }
  rewrite Hc. pose proof (Nat.mod_upper_bound n 64) as Hr. clearbody c. clear Ho Hc.
  set (r := (n mod 64)%nat) in *. clearbody r. specialize (Hr ltac:(lia)).
  pose proof (Z.mod_pos_bound (55 - Z.of_nat r) 64 eq_refl).
  apply Nat2Z.inj. rewrite Nat2Z.inj_succ, Nat2Z.inj_mod, Z2Nat.id by lia. change (Z.of_nat 64) with 64.
  replace (Z.of_nat (55 + 64 - r)) with (55 - Z.of_nat r + 1 * 64) by lia.
  rewrite Z.mod_add by lia. lia.
Qed.

Lemma take_pad k : (k < 64)%nat → take (S k) pad = 0x80 :: repeat 0 k.
Proof.
  intros Hk. unfold pad. cbn [take]. f_equal.
  replace 63%nat with (k + (63 - k))%nat by lia. rewrite repeat_app, take_app_length'; [done|].
  by rewrite repeat_length.
Qed.

Lemma count_words n :
  let bits := (8 * Z.of_nat n) mod 2 ^ 64 in
  bits mod 2 ^ 32 = (8 * Z.of_nat n) mod 2 ^ 32 ∧
  bits / 2 ^ 32 = ((8 * Z.of_nat n) / 2 ^ 32) mod 2 ^ 32.
Proof.
  cbv zeta. change (2 ^ 64) with (2 ^ 32 * 2 ^ 32). rewrite Z.rem_mul_r by lia.
  set (q := 8 * Z.of_nat n). pose proof (Z.mod_pos_bound q (2 ^ 32) eq_refl). rewrite (Z.mul_comm (2 ^ 32)). split.
  - by rewrite Z.mod_add, Z.mod_mod by lia.
  - rewrite Z.div_add by lia. rewrite (Z.div_small (q mod 2 ^ 32)) by lia. lia.
Qed.

Lemma finish_spec s m : represents s m → (md5_finish s).2 = md5_spec m.
Proof.
  intros Hs. pose proof Hs as [_ H0 H1 _ _]. unfold md5_finish, md5_spec, padding.
  destruct (count_words (length m)) as [-> ->]. rewrite <-H0, <-H1.
  pose proof (padlen_spec (length m)) as Hpl. rewrite <-H0 in Hpl. rewrite Hpl, take_pad by (apply Nat.mod_upper_bound; lia).
  set (z := 0x80 :: repeat 0 _). set (len := word_bytes (count0 s) ++ word_bytes (count1 s)).
  pose proof (append_represents _ _ len (append_represents s m z Hs)) as [_ _ _ Hr _].
  rewrite <-app_assoc in Hr. change (0x80 :: _ ++ len) with (z ++ len).
  rewrite Hr. unfold blocks, regs_bytes. by destruct (md5_blocks _ _ _).1 as [[[??]?]?].
Qed.


Definition state0 : md5_state := MkMd5 17 4 (1, 2, 3, 4) (repeat 0xEE 64).

(** The digests of the test suite of RFC 1321 (A.5), in src/src/Cpl/Checksum/_0test. *)
Definition digest_of (s : string) : list Z :=
  md5_spec (map (λ c, Z.of_N (Ascii.N_of_ascii c)) (String.list_ascii_of_string s)).

Example md5_empty : digest_of "" =
  [0xd4;0x1d;0x8c;0xd9;0x8f;0x00;0xb2;0x04;0xe9;0x80;0x09;0x98;0xec;0xf8;0x42;0x7e].
Proof. vm_compute. reflexivity. Qed.

Example md5_alphabet : digest_of "abcdefghijklmnopqrstuvwxyz" =
  [0xc3;0xfc;0xd3;0xd7;0x61;0x92;0xe4;0x00;0x7d;0xfb;0x49;0x6c;0xca;0x67;0xe1;0x3b].
Proof. vm_compute. reflexivity. Qed.

Example md5_digits :
  digest_of "12345678901234567890123456789012345678901234567890123456789012345678901234567890" =
  [0x57;0xed;0xf4;0xa2;0x2b;0xe3;0xc9;0x55;0xac;0x49;0xda;0x2e;0x21;0x07;0xb6;0x7a].
Proof. vm_compute. reflexivity. Qed.

