(* ===== verification/Checksum.v ===== *)
(** * Checksums

    Models src/src/Cpl/Checksum: the interface Api16 / Api32 as a type class
    with its promise, and the three classes that implement it: Fletcher16,
    Crc16CcittFast and Crc32EthernetFast.  Bytes are [Z] values in [0, 256). *)

From Stdlib Require Import ZArith Lia.
From S2P Require Import Prelude.
Local Open Scope Z_scope.

(** ** The interface

    Api16.h, Api32.h: reset, accumulate, finalize (its value and the bytes it
    appends), isOkay.  The laws are the documented protocol: a message followed
    by its own checksum bytes passes the check, and accumulating piecewise is
    accumulating the whole. *)
Class Checksum (S : Type) := {
  cs_reset : S;
  cs_accumulate : S → list Z → S;
  cs_finalize : S → Z * list Z;
  cs_isOkay : S → bool
}.

Definition is_byte (b : Z) : Prop := 0 <= b < 256.

Class ChecksumOk (S : Type) `{Checksum S} := {
  cs_app s m m' : cs_accumulate s (m ++ m') = cs_accumulate (cs_accumulate s m) m';
  cs_check m : Forall is_byte m →
    cs_isOkay (cs_accumulate (cs_accumulate cs_reset m)
      (cs_finalize (cs_accumulate cs_reset m)).2) = true
}.

(** ** Fletcher16.cpp *)
Module Fletcher16.
Record t := Mk { m_sum1 : Z; m_sum2 : Z }.

Definition reset : t := Mk 0 0.

Definition accumulate_byte (s : t) (b : Z) : t :=
  let sum1 := u8 ((m_sum1 s + b) mod 255) in
  Mk sum1 (u8 ((m_sum2 s + sum1) mod 255)).

Definition accumulate (s : t) (bytes : list Z) : t := fold_left accumulate_byte bytes s.

Definition finalize (s : t) : Z * list Z :=
  let sumlo := u8 (255 - (m_sum1 s + m_sum2 s) mod 255) in
  let sumhi := u8 (255 - (m_sum1 s + sumlo) mod 255) in
  (u16 (sumlo + Z.shiftl sumhi 8), [sumlo; sumhi]).

Definition isOkay (s : t) : bool := (m_sum1 s =? 0) && (m_sum2 s =? 0).
End Fletcher16.

(** ** Crc16CcittFast.cpp *)
Module Crc16.
Definition table_ : list Z :=
  [0x0000; 0x1021; 0x2042; 0x3063; 0x4084; 0x50a5; 0x60c6; 0x70e7;
   0x8108; 0x9129; 0xa14a; 0xb16b; 0xc18c; 0xd1ad; 0xe1ce; 0xf1ef;
   0x1231; 0x0210; 0x3273; 0x2252; 0x52b5; 0x4294; 0x72f7; 0x62d6;
   0x9339; 0x8318; 0xb37b; 0xa35a; 0xd3bd; 0xc39c; 0xf3ff; 0xe3de;
   0x2462; 0x3443; 0x0420; 0x1401; 0x64e6; 0x74c7; 0x44a4; 0x5485;
   0xa56a; 0xb54b; 0x8528; 0x9509; 0xe5ee; 0xf5cf; 0xc5ac; 0xd58d;
   0x3653; 0x2672; 0x1611; 0x0630; 0x76d7; 0x66f6; 0x5695; 0x46b4;
   0xb75b; 0xa77a; 0x9719; 0x8738; 0xf7df; 0xe7fe; 0xd79d; 0xc7bc;
   0x48c4; 0x58e5; 0x6886; 0x78a7; 0x0840; 0x1861; 0x2802; 0x3823;
   0xc9cc; 0xd9ed; 0xe98e; 0xf9af; 0x8948; 0x9969; 0xa90a; 0xb92b;
   0x5af5; 0x4ad4; 0x7ab7; 0x6a96; 0x1a71; 0x0a50; 0x3a33; 0x2a12;
   0xdbfd; 0xcbdc; 0xfbbf; 0xeb9e; 0x9b79; 0x8b58; 0xbb3b; 0xab1a;
   0x6ca6; 0x7c87; 0x4ce4; 0x5cc5; 0x2c22; 0x3c03; 0x0c60; 0x1c41;
   0xedae; 0xfd8f; 0xcdec; 0xddcd; 0xad2a; 0xbd0b; 0x8d68; 0x9d49;
   0x7e97; 0x6eb6; 0x5ed5; 0x4ef4; 0x3e13; 0x2e32; 0x1e51; 0x0e70;
   0xff9f; 0xefbe; 0xdfdd; 0xcffc; 0xbf1b; 0xaf3a; 0x9f59; 0x8f78;
   0x9188; 0x81a9; 0xb1ca; 0xa1eb; 0xd10c; 0xc12d; 0xf14e; 0xe16f;
   0x1080; 0x00a1; 0x30c2; 0x20e3; 0x5004; 0x4025; 0x7046; 0x6067;
   0x83b9; 0x9398; 0xa3fb; 0xb3da; 0xc33d; 0xd31c; 0xe37f; 0xf35e;
   0x02b1; 0x1290; 0x22f3; 0x32d2; 0x4235; 0x5214; 0x6277; 0x7256;
   0xb5ea; 0xa5cb; 0x95a8; 0x8589; 0xf56e; 0xe54f; 0xd52c; 0xc50d;
   0x34e2; 0x24c3; 0x14a0; 0x0481; 0x7466; 0x6447; 0x5424; 0x4405;
   0xa7db; 0xb7fa; 0x8799; 0x97b8; 0xe75f; 0xf77e; 0xc71d; 0xd73c;
   0x26d3; 0x36f2; 0x0691; 0x16b0; 0x6657; 0x7676; 0x4615; 0x5634;
   0xd94c; 0xc96d; 0xf90e; 0xe92f; 0x99c8; 0x89e9; 0xb98a; 0xa9ab;
   0x5844; 0x4865; 0x7806; 0x6827; 0x18c0; 0x08e1; 0x3882; 0x28a3;
   0xcb7d; 0xdb5c; 0xeb3f; 0xfb1e; 0x8bf9; 0x9bd8; 0xabbb; 0xbb9a;
   0x4a75; 0x5a54; 0x6a37; 0x7a16; 0x0af1; 0x1ad0; 0x2ab3; 0x3a92;
   0xfd2e; 0xed0f; 0xdd6c; 0xcd4d; 0xbdaa; 0xad8b; 0x9de8; 0x8dc9;
   0x7c26; 0x6c07; 0x5c64; 0x4c45; 0x3ca2; 0x2c83; 0x1ce0; 0x0cc1;
   0xef1f; 0xff3e; 0xcf5d; 0xdf7c; 0xaf9b; 0xbfba; 0x8fd9; 0x9ff8;
   0x6e17; 0x7e36; 0x4e55; 0x5e74; 0x2e93; 0x3eb2; 0x0ed1; 0x1ef0].

Definition reset : Z := 0xFFFF.

(** [m_crc = table_[( m_crc >> 8 ^ *ptr ) & 0xffU] ^ ( m_crc << 8 )] *)
Definition accumulate_byte (m_crc b : Z) : Z :=
  u16 (Z.lxor (default 0 (table_ !! Z.to_nat (Z.land (Z.lxor (Z.shiftr m_crc 8) b) 0xff)))
              (Z.shiftl m_crc 8)).

Definition accumulate (m_crc : Z) (bytes : list Z) : Z := fold_left accumulate_byte bytes m_crc.

Definition finalize (m_crc : Z) : Z * list Z :=
  (m_crc, [Z.land (Z.shiftr m_crc 8) 0xFF; Z.land m_crc 0xFF]).

Definition isOkay (m_crc : Z) : bool := m_crc =? 0.
End Crc16.

(** ** Crc32EthernetFast.cpp *)
Module Crc32.
Definition table_ : list Z :=
  [0x00000000; 0x04C11DB7; 0x09823B6E; 0x0D4326D9; 0x130476DC; 0x17C56B6B; 0x1A864DB2; 0x1E475005;
   0x2608EDB8; 0x22C9F00F; 0x2F8AD6D6; 0x2B4BCB61; 0x350C9B64; 0x31CD86D3; 0x3C8EA00A; 0x384FBDBD;
   0x4C11DB70; 0x48D0C6C7; 0x4593E01E; 0x4152FDA9; 0x5F15ADAC; 0x5BD4B01B; 0x569796C2; 0x52568B75;
   0x6A1936C8; 0x6ED82B7F; 0x639B0DA6; 0x675A1011; 0x791D4014; 0x7DDC5DA3; 0x709F7B7A; 0x745E66CD;
   0x9823B6E0; 0x9CE2AB57; 0x91A18D8E; 0x95609039; 0x8B27C03C; 0x8FE6DD8B; 0x82A5FB52; 0x8664E6E5;
   0xBE2B5B58; 0xBAEA46EF; 0xB7A96036; 0xB3687D81; 0xAD2F2D84; 0xA9EE3033; 0xA4AD16EA; 0xA06C0B5D;
   0xD4326D90; 0xD0F37027; 0xDDB056FE; 0xD9714B49; 0xC7361B4C; 0xC3F706FB; 0xCEB42022; 0xCA753D95;
   0xF23A8028; 0xF6FB9D9F; 0xFBB8BB46; 0xFF79A6F1; 0xE13EF6F4; 0xE5FFEB43; 0xE8BCCD9A; 0xEC7DD02D;
   0x34867077; 0x30476DC0; 0x3D044B19; 0x39C556AE; 0x278206AB; 0x23431B1C; 0x2E003DC5; 0x2AC12072;
   0x128E9DCF; 0x164F8078; 0x1B0CA6A1; 0x1FCDBB16; 0x018AEB13; 0x054BF6A4; 0x0808D07D; 0x0CC9CDCA;
   0x7897AB07; 0x7C56B6B0; 0x71159069; 0x75D48DDE; 0x6B93DDDB; 0x6F52C06C; 0x6211E6B5; 0x66D0FB02;
   0x5E9F46BF; 0x5A5E5B08; 0x571D7DD1; 0x53DC6066; 0x4D9B3063; 0x495A2DD4; 0x44190B0D; 0x40D816BA;
   0xACA5C697; 0xA864DB20; 0xA527FDF9; 0xA1E6E04E; 0xBFA1B04B; 0xBB60ADFC; 0xB6238B25; 0xB2E29692;
   0x8AAD2B2F; 0x8E6C3698; 0x832F1041; 0x87EE0DF6; 0x99A95DF3; 0x9D684044; 0x902B669D; 0x94EA7B2A;
   0xE0B41DE7; 0xE4750050; 0xE9362689; 0xEDF73B3E; 0xF3B06B3B; 0xF771768C; 0xFA325055; 0xFEF34DE2;
   0xC6BCF05F; 0xC27DEDE8; 0xCF3ECB31; 0xCBFFD686; 0xD5B88683; 0xD1799B34; 0xDC3ABDED; 0xD8FBA05A;
   0x690CE0EE; 0x6DCDFD59; 0x608EDB80; 0x644FC637; 0x7A089632; 0x7EC98B85; 0x738AAD5C; 0x774BB0EB;
   0x4F040D56; 0x4BC510E1; 0x46863638; 0x42472B8F; 0x5C007B8A; 0x58C1663D; 0x558240E4; 0x51435D53;
   0x251D3B9E; 0x21DC2629; 0x2C9F00F0; 0x285E1D47; 0x36194D42; 0x32D850F5; 0x3F9B762C; 0x3B5A6B9B;
   0x0315D626; 0x07D4CB91; 0x0A97ED48; 0x0E56F0FF; 0x1011A0FA; 0x14D0BD4D; 0x19939B94; 0x1D528623;
   0xF12F560E; 0xF5EE4BB9; 0xF8AD6D60; 0xFC6C70D7; 0xE22B20D2; 0xE6EA3D65; 0xEBA91BBC; 0xEF68060B;
   0xD727BBB6; 0xD3E6A601; 0xDEA580D8; 0xDA649D6F; 0xC423CD6A; 0xC0E2D0DD; 0xCDA1F604; 0xC960EBB3;
   0xBD3E8D7E; 0xB9FF90C9; 0xB4BCB610; 0xB07DABA7; 0xAE3AFBA2; 0xAAFBE615; 0xA7B8C0CC; 0xA379DD7B;
   0x9B3660C6; 0x9FF77D71; 0x92B45BA8; 0x9675461F; 0x8832161A; 0x8CF30BAD; 0x81B02D74; 0x857130C3;
   0x5D8A9099; 0x594B8D2E; 0x5408ABF7; 0x50C9B640; 0x4E8EE645; 0x4A4FFBF2; 0x470CDD2B; 0x43CDC09C;
   0x7B827D21; 0x7F436096; 0x7200464F; 0x76C15BF8; 0x68860BFD; 0x6C47164A; 0x61043093; 0x65C52D24;
   0x119B4BE9; 0x155A565E; 0x18197087; 0x1CD86D30; 0x029F3D35; 0x065E2082; 0x0B1D065B; 0x0FDC1BEC;
   0x3793A651; 0x3352BBE6; 0x3E119D3F; 0x3AD08088; 0x2497D08D; 0x2056CD3A; 0x2D15EBE3; 0x29D4F654;
   0xC5A92679; 0xC1683BCE; 0xCC2B1D17; 0xC8EA00A0; 0xD6AD50A5; 0xD26C4D12; 0xDF2F6BCB; 0xDBEE767C;
   0xE3A1CBC1; 0xE760D676; 0xEA23F0AF; 0xEEE2ED18; 0xF0A5BD1D; 0xF464A0AA; 0xF9278673; 0xFDE69BC4;
   0x89B8FD09; 0x8D79E0BE; 0x803AC667; 0x84FBDBD0; 0x9ABC8BD5; 0x9E7D9662; 0x933EB0BB; 0x97FFAD0C;
   0xAFB010B1; 0xAB710D06; 0xA6322BDF; 0xA2F33668; 0xBCB4666D; 0xB8757BDA; 0xB5365D03; 0xB1F740B4].

Definition reset : Z := 0xFFFFFFFF.

(** [uint8_t temp = *ptr ^ ( m_crc >> 24 ); m_crc = table_[temp] ^ ( m_crc << 8 )] *)
Definition accumulate_byte (m_crc b : Z) : Z :=
  let temp := u8 (Z.lxor b (Z.shiftr m_crc 24)) in
  Z.lxor (default 0 (table_ !! Z.to_nat temp)) (u32 (Z.shiftl m_crc 8)).

Definition accumulate (m_crc : Z) (bytes : list Z) : Z := fold_left accumulate_byte bytes m_crc.

Definition finalize (m_crc : Z) : Z * list Z :=
  (m_crc, [Z.land (Z.shiftr m_crc 24) 0xFF; Z.land (Z.shiftr m_crc 16) 0xFF;
           Z.land (Z.shiftr m_crc 8) 0xFF; Z.land m_crc 0xFF]).

Definition isOkay (m_crc : Z) : bool := m_crc =? 0.
End Crc32.

#[global] Instance Fletcher16_checksum : Checksum Fletcher16.t :=
  {| cs_reset := Fletcher16.reset; cs_accumulate := Fletcher16.accumulate;
     cs_finalize := Fletcher16.finalize; cs_isOkay := Fletcher16.isOkay |}.

(** The two CRC classes have the same state type: a tag tells them apart. *)
Record crc16 := Crc16St { crc16_val : Z }.
Record crc32 := Crc32St { crc32_val : Z }.

#[global] Instance Crc16_checksum : Checksum crc16 :=
  {| cs_reset := Crc16St Crc16.reset;
     cs_accumulate s m := Crc16St (Crc16.accumulate (crc16_val s) m);
     cs_finalize s := Crc16.finalize (crc16_val s);
     cs_isOkay s := Crc16.isOkay (crc16_val s) |}.

#[global] Instance Crc32_checksum : Checksum crc32 :=
  {| cs_reset := Crc32St Crc32.reset;
     cs_accumulate s m := Crc32St (Crc32.accumulate (crc32_val s) m);
     cs_finalize s := Crc32.finalize (crc32_val s);
     cs_isOkay s := Crc32.isOkay (crc32_val s) |}.

(** ** CRC theory, for a register of [w] bits *)

Definition in_table (tbl : list Z) (i : Z) : Z := default 0 (tbl !! Z.to_nat i).

(** The byte step both classes take. *)
Definition crc_step (tbl : list Z) (w c b : Z) : Z :=
  Z.lxor (in_table tbl (Z.lxor b (Z.shiftr c (w - 8)))) (wrap w (Z.shiftl c 8)).

(** Reference: division by the polynomial, one bit at a time. *)
Definition crc_bit (w poly c : Z) : Z :=
  let c' := wrap w (Z.shiftl c 1) in
  if Z.testbit c (w - 1) then Z.lxor c' poly else c'.

Definition crc_byte (w poly c b : Z) : Z :=
  Nat.iter 8 (crc_bit w poly) (Z.lxor c (Z.shiftl b (w - 8))).

Definition bytes256 : list Z := Z.of_nat <$> seq 0 256.

(** What is checked of a table by computation. *)
Definition table_ok (tbl : list Z) (w poly : Z) : bool :=
  bool_decide (length tbl = 256%nat) &&
  bool_decide (NoDup ((λ x, x mod 256) <$> tbl)) &&
  forallb (λ x, (0 <=? x) && (x <? 2 ^ w)) tbl &&
  forallb (λ i, in_table tbl i =? crc_byte w poly 0 i) bytes256.

Lemma Z_lxor_land a b m : Z.land (Z.lxor a b) m = Z.lxor (Z.land a m) (Z.land b m).
Proof.
  apply Z.bits_inj'. intros n Hn. rewrite !Z.lxor_spec, !Z.land_spec, Z.lxor_spec.
  by destruct (Z.testbit a n), (Z.testbit b n), (Z.testbit m n).
Qed.

Lemma Z_lxor_mod a b n : 0 <= n → (Z.lxor a b) mod 2 ^ n = Z.lxor (a mod 2 ^ n) (b mod 2 ^ n).
Proof. intros. rewrite <-!Z.land_ones by done. apply Z_lxor_land. Qed.

Lemma Z_lxor_range a b n : 0 <= n → 0 <= a < 2 ^ n → 0 <= b < 2 ^ n → 0 <= Z.lxor a b < 2 ^ n.
Proof.
  intros Hn Ha Hb. rewrite <-(Z.mod_small a (2 ^ n)), <-(Z.mod_small b (2 ^ n)) by done.
  rewrite <-Z_lxor_mod by done. apply Z.mod_pos_bound. lia.
Qed.

Lemma Z_lxor_cancel_l a b c : Z.lxor a b = Z.lxor a c → b = c.
Proof.
  intros H. apply (f_equal (Z.lxor a)) in H.
  by rewrite <-!Z.lxor_assoc, Z.lxor_nilpotent, !Z.lxor_0_l in H.
Qed.

Lemma Z_lxor_cancel_r a b c : Z.lxor b a = Z.lxor c a → b = c.
Proof. rewrite !(Z.lxor_comm _ a). apply Z_lxor_cancel_l. Qed.

Section crc.
Context (tbl : list Z) (w poly : Z) (Hw : 16 <= w) (Htbl : table_ok tbl w poly = true).

Local Abbreviation T := (in_table tbl).

Lemma tbl_facts :
  length tbl = 256%nat ∧ NoDup ((λ x, x mod 256) <$> tbl) ∧
  (∀ i, is_byte i → 0 <= T i < 2 ^ w) ∧ (∀ i, is_byte i → T i = crc_byte w poly 0 i).
Proof.
  revert Htbl. unfold table_ok. rewrite !andb_true_iff, !bool_decide_eq_true.
  intros [[[Hlen Hnd] Hr] Hb]. split_and!; [done..| |].
  - intros i Hi. unfold in_table.
    destruct (lookup_lt_is_Some_2 tbl (Z.to_nat i)) as [x Hx]; [unfold is_byte in Hi; lia|].
    rewrite Hx. simpl. rewrite forallb_forall in Hr.
    apply list_elem_of_lookup_2, list_elem_of_In, Hr in Hx. lia.
  - intros i Hi. rewrite forallb_forall in Hb. apply Z.eqb_eq, Hb. apply list_elem_of_In.
    apply list_elem_of_fmap. exists (Z.to_nat i). unfold is_byte in Hi. split; [lia|].
    apply elem_of_seq. lia.
Qed.

Lemma T_low_inj i j : is_byte i → is_byte j → T i mod 256 = T j mod 256 → i = j.
Proof.
  destruct tbl_facts as (Hlen & Hnd & _). unfold is_byte, in_table. intros Hi Hj Heq.
  destruct (lookup_lt_is_Some_2 tbl (Z.to_nat i)) as [x Hx]; [lia|].
  destruct (lookup_lt_is_Some_2 tbl (Z.to_nat j)) as [y Hy]; [lia|].
  rewrite Hx, Hy in Heq. simpl in Heq.
  enough (Z.to_nat i = Z.to_nat j) by lia.
  eapply (NoDup_lookup _ _ _ (x mod 256) Hnd); rewrite list_lookup_fmap.
  - by rewrite Hx.
  - rewrite Hy. simpl. by rewrite Heq.
Qed.

Local Abbreviation hi c := (Z.shiftr c (w - 8)).

Lemma hi_byte c : in_range w c → is_byte (hi c).
Proof.
  unfold in_range, is_byte. intros Hc. rewrite Z.shiftr_div_pow2 by lia. split.
  - apply Z.div_pos; lia.
  - apply Z.div_lt_upper_bound; [lia|]. change 256 with (2 ^ 8). rewrite <-Z.pow_add_r by lia.
    replace (w - 8 + 8) with w by lia. lia.
Qed.

Lemma wrap_shift8 c : in_range w c → wrap w (Z.shiftl c 8) = (c mod 2 ^ (w - 8)) * 256.
Proof.
  intros Hc. unfold wrap. rewrite Z.shiftl_mul_pow2 by lia. change (2 ^ 8) with 256.
  replace (2 ^ w) with (2 ^ (w - 8) * 256).
  - by rewrite Z.mul_mod_distr_r by lia.
  - change 256 with (2 ^ 8). rewrite <-Z.pow_add_r by lia. f_equal. lia.
Qed.

Lemma xor_byte a b : is_byte a → is_byte b → is_byte (Z.lxor a b).
Proof. unfold is_byte. change 256 with (2 ^ 8). apply Z_lxor_range. lia. Qed.

Lemma step_range c b : in_range w c → is_byte b → in_range w (crc_step tbl w c b).
Proof.
  intros Hc Hb. apply Z_lxor_range; [lia| |].
  - apply tbl_facts. apply xor_byte; [done|by apply hi_byte].
  - unfold wrap. apply Z.mod_pos_bound. lia.
Qed.

(** The register and the byte can be told from the result. *)
Lemma step_index c b : in_range w c → (crc_step tbl w c b) mod 256 = T (Z.lxor b (hi c)) mod 256.
Proof.
  intros Hc. unfold crc_step. change 256 with (2 ^ 8) at 1 2. rewrite Z_lxor_mod by lia.
  rewrite wrap_shift8 by done. change (2 ^ 8) with 256. rewrite Z.mod_mul by lia. apply Z.lxor_0_r.
Qed.

Lemma step_inj c c' b b' :
  in_range w c → in_range w c' → is_byte b → is_byte b' →
  crc_step tbl w c b = crc_step tbl w c' b' → (b = b' ↔ c = c').
Proof.
  intros Hc Hc' Hb Hb' Heq. pose proof (f_equal (λ x, x mod 256) Heq) as Hlow. simpl in Hlow.
  rewrite !step_index in Hlow by done.
  apply T_low_inj in Hlow; [|apply xor_byte; [done|by apply hi_byte]..].
  unfold crc_step in Heq. rewrite Hlow in Heq. apply Z_lxor_cancel_l in Heq.
  rewrite !wrap_shift8 in Heq by done. split; intros <-.
  - apply Z_lxor_cancel_l in Hlow. rewrite !Z.shiftr_div_pow2 in Hlow by lia.
    rewrite (Z.div_mod c (2 ^ (w - 8))), (Z.div_mod c' (2 ^ (w - 8))) by lia. lia.
  - by apply Z_lxor_cancel_r in Hlow.
Qed.

Lemma fold_range m c :
  in_range w c → Forall is_byte m → in_range w (fold_left (crc_step tbl w) m c).
Proof.
  revert c. induction m as [|b m IH]; intros c Hc Hm; simpl; [done|].
  apply Forall_cons in Hm as [Hb Hm]. apply IH; [by apply step_range|done].
Qed.

Lemma fold_inj m c c' :
  in_range w c → in_range w c' → Forall is_byte m →
  fold_left (crc_step tbl w) m c = fold_left (crc_step tbl w) m c' → c = c'.
Proof.
  revert c c'. induction m as [|b m IH]; intros c c' Hc Hc' Hm; simpl; [done|].
  apply Forall_cons in Hm as [Hb Hm]. intros Heq.
  apply IH in Heq; [|by apply step_range|by apply step_range|done].
  by apply (step_inj c c' b b) in Heq as [Hcc _]; [apply Hcc|..].
Qed.

(** Two messages that differ in one byte have different registers. *)
Lemma fold_one_byte m1 m2 b b' c :
  in_range w c → Forall is_byte m1 → Forall is_byte m2 → is_byte b → is_byte b' → b ≠ b' →
  fold_left (crc_step tbl w) (m1 ++ b :: m2) c ≠ fold_left (crc_step tbl w) (m1 ++ b' :: m2) c.
Proof.
  intros Hc H1 H2 Hb Hb' Hne Heq. rewrite !fold_left_app in Heq. simpl in Heq.
  pose proof (fold_range m1 c Hc H1) as Hr. apply fold_inj in Heq; [|by apply step_range|by apply step_range|done].
  apply step_inj in Heq as [_ Hbb]; [|done..]. apply Hne. by apply Hbb.
Qed.

(** Feeding the register its own top byte shifts it out. *)
Lemma step_self c : in_range w c → crc_step tbl w c (hi c) = wrap w (Z.shiftl c 8).
Proof.
  intros Hc. unfold crc_step. rewrite Z.lxor_nilpotent.
  destruct tbl_facts as (_ & _ & _ & HT). rewrite HT by (unfold is_byte; lia).
  assert (∀ n, Nat.iter n (crc_bit w poly) 0 = 0) as H0.
  { induction n as [|n IH]; [done|]. simpl. rewrite IH. unfold crc_bit, wrap.
    rewrite Z.testbit_0_l, Z.shiftl_0_l. apply Z.mod_0_l. lia. }
  unfold crc_byte. rewrite Z.lxor_0_l, Z.shiftl_0_l, H0. apply Z.lxor_0_l.
Qed.

(** *** The table computes the polynomial division *)

Lemma crc_bit_lxor x y : crc_bit w poly (Z.lxor x y) = Z.lxor (crc_bit w poly x) (crc_bit w poly y).
Proof.
  unfold crc_bit. rewrite Z.lxor_spec. unfold wrap. rewrite Z.shiftl_lxor, Z_lxor_mod by lia.
  set (a := Z.shiftl x 1 mod 2 ^ w). set (b := Z.shiftl y 1 mod 2 ^ w).
  destruct (Z.testbit x (w - 1)), (Z.testbit y (w - 1)); simpl;
    apply Z.bits_inj'; intros n Hn; rewrite !Z.lxor_spec;
    destruct (Z.testbit a n), (Z.testbit b n), (Z.testbit poly n); done.
Qed.

Lemma crc_bits_lxor n x y :
  Nat.iter n (crc_bit w poly) (Z.lxor x y)
  = Z.lxor (Nat.iter n (crc_bit w poly) x) (Nat.iter n (crc_bit w poly) y).
Proof. induction n as [|n IH]; [done|]. simpl. by rewrite IH, crc_bit_lxor. Qed.

(** Bits that do not reach the top are only shifted. *)
Lemma crc_bits_low (n : nat) lo :
  Z.of_nat n <= w → 0 <= lo < 2 ^ (w - Z.of_nat n) →
  Nat.iter n (crc_bit w poly) lo = lo * 2 ^ Z.of_nat n.
Proof.
  induction n as [|n IH]; intros Hn Hlo; [simpl; lia|].
  assert (2 ^ (w - Z.of_nat n) = 2 * 2 ^ (w - Z.of_nat (S n))) as Hp.
  { rewrite <-Z.pow_succ_r by lia. f_equal. lia. }
  simpl. rewrite IH by lia. unfold crc_bit.
  assert (0 <= lo * 2 ^ Z.of_nat n < 2 ^ (w - 1)) as Hr.
  { split; [lia|]. replace (w - 1) with (w - Z.of_nat (S n) + Z.of_nat n) by lia.
    rewrite Z.pow_add_r by lia. apply Z.mul_lt_mono_pos_r; lia. }
  assert (Z.testbit (lo * 2 ^ Z.of_nat n) (w - 1) = false) as ->.
  { apply Z.testbit_false; [lia|]. by rewrite Z.div_small. }
  rewrite Z.shiftl_mul_pow2 by lia. unfold wrap. rewrite Z.mod_small.
  - rewrite Nat2Z.inj_succ, Z.pow_succ_r by lia. change (2 ^ 1) with 2. lia.
  - change (2 ^ 1) with 2. replace (2 ^ w) with (2 ^ (w - 1) * 2); [lia|].
    rewrite Z.mul_comm, <-Z.pow_succ_r by lia. f_equal. lia.
Qed.

Lemma step_bitwise c b : in_range w c → is_byte b → crc_step tbl w c b = crc_byte w poly c b.
Proof.
  intros Hc Hb. unfold crc_step, crc_byte. destruct tbl_facts as (_ & _ & _ & HT).
  rewrite HT by (apply xor_byte; [done|by apply hi_byte]). unfold crc_byte. rewrite Z.lxor_0_l.
  set (lo := c mod 2 ^ (w - 8)).
  assert (c = Z.lxor (Z.shiftl (hi c) (w - 8)) lo) as Hsplit.
  { unfold lo. rewrite <-Z.land_ones by lia. apply Z.bits_inj'. intros n Hn.
    rewrite Z.lxor_spec, Z.land_spec. destruct (Z_lt_le_dec n (w - 8)).
    - rewrite Z.shiftl_spec_low, Z.ones_spec_low by lia. by rewrite andb_true_r.
    - rewrite Z.shiftl_spec, Z.ones_spec_high, Z.shiftr_spec by lia.
      rewrite andb_false_r, xorb_false_r. f_equal. lia. }
  replace (Z.lxor c (Z.shiftl b (w - 8)))
    with (Z.lxor (Z.shiftl (Z.lxor b (hi c)) (w - 8)) lo).
  2:{ rewrite Hsplit at 2. rewrite Z.shiftl_lxor, !Z.lxor_assoc. rewrite Z.lxor_comm.
      rewrite Z.lxor_assoc. done. }
  rewrite crc_bits_lxor. f_equal. rewrite (crc_bits_low 8 lo) by (try apply Z.mod_pos_bound; lia).
  by rewrite wrap_shift8.
Qed.

Lemma fold_bitwise m c :
  in_range w c → Forall is_byte m →
  fold_left (crc_step tbl w) m c = fold_left (crc_byte w poly) m c.
Proof.
  revert c. induction m as [|b m IH]; intros c Hc Hm; simpl; [done|].
  apply Forall_cons in Hm as [Hb Hm]. rewrite IH; [|by apply step_range|done].
  by rewrite step_bitwise.
Qed.
End crc.

(** ** The two CRC classes *)

Definition poly16 : Z := 0x1021.
Definition poly32 : Z := 0x04C11DB7.

Lemma table16_ok : table_ok Crc16.table_ 16 poly16 = true.
Proof. vm_compute. reflexivity. Qed.

Lemma table32_ok : table_ok Crc32.table_ 32 poly32 = true.
Proof. vm_compute. reflexivity. Qed.

Lemma land_ff x : Z.land x 0xff = x mod 256.
Proof. change 0xff with (Z.ones 8). by rewrite Z.land_ones. Qed.

Lemma land_ff_byte x : is_byte x → Z.land x 0xff = x.
Proof. intros. rewrite land_ff. by apply Z.mod_small. Qed.

Lemma crc16_step c b : in_range 16 c → is_byte b → Crc16.accumulate_byte c b = crc_step Crc16.table_ 16 c b.
Proof.
  intros Hc Hb. unfold Crc16.accumulate_byte, crc_step. change (16 - 8) with 8.
  pose proof (hi_byte 16 ltac:(lia) c Hc) as Hhi. change (16 - 8) with 8 in Hhi.
  pose proof (xor_byte _ _ Hb Hhi) as Hx. rewrite Z.lxor_comm in Hx.
  rewrite land_ff_byte, (Z.lxor_comm (Z.shiftr c 8)) by done. unfold wrap at 1. rewrite Z_lxor_mod by lia.
  f_equal. apply Z.mod_small.
  apply (tbl_facts Crc16.table_ 16 poly16 table16_ok). by rewrite Z.lxor_comm.
Qed.

Lemma crc32_step c b : in_range 32 c → is_byte b → Crc32.accumulate_byte c b = crc_step Crc32.table_ 32 c b.
Proof.
  intros Hc Hb. unfold Crc32.accumulate_byte, crc_step. change (32 - 8) with 24.
  pose proof (hi_byte 32 ltac:(lia) c Hc) as Hhi. change (32 - 8) with 24 in Hhi.
  pose proof (xor_byte _ _ Hb Hhi) as Hx. unfold wrap at 1. by rewrite (Z.mod_small (Z.lxor b _)).
Qed.

Lemma fold_left_ext {A B} (f g : A → B → A) (P : A → Prop) (Q : B → Prop) m c :
  (∀ a b, P a → Q b → f a b = g a b ∧ P (g a b)) → P c → Forall Q m →
  fold_left f m c = fold_left g m c.
Proof.
  intros Hfg. revert c. induction m as [|b m IH]; intros c Hc Hm; simpl; [done|].
  apply Forall_cons in Hm as [Hb Hm]. destruct (Hfg c b Hc Hb) as [-> ?]. by apply IH.
Qed.

Lemma crc16_fold c m : in_range 16 c → Forall is_byte m →
  Crc16.accumulate c m = fold_left (crc_step Crc16.table_ 16) m c.
Proof.
  apply fold_left_ext. intros a b Ha Hb. split; [by apply crc16_step|].
  by apply (step_range _ 16 poly16 ltac:(lia) table16_ok).
Qed.

Lemma crc32_fold c m : in_range 32 c → Forall is_byte m →
  Crc32.accumulate c m = fold_left (crc_step Crc32.table_ 32) m c.
Proof.
  apply fold_left_ext. intros a b Ha Hb. split; [by apply crc32_step|].
  by apply (step_range _ 32 poly32 ltac:(lia) table32_ok).
Qed.

Lemma crc16_range c m : in_range 16 c → Forall is_byte m → in_range 16 (Crc16.accumulate c m).
Proof. intros. rewrite crc16_fold by done. by apply (fold_range _ 16 poly16 ltac:(lia) table16_ok). Qed.

Lemma crc32_range c m : in_range 32 c → Forall is_byte m → in_range 32 (Crc32.accumulate c m).
Proof. intros. rewrite crc32_fold by done. by apply (fold_range _ 32 poly32 ltac:(lia) table32_ok). Qed.

Lemma byte_of_land x : is_byte (Z.land x 0xff).
Proof. rewrite land_ff. unfold is_byte. apply Z.mod_pos_bound. lia. Qed.

Lemma crc16_bytes c : Forall is_byte (Crc16.finalize c).2.
Proof. repeat constructor; apply byte_of_land. Qed.

Lemma crc32_bytes c : Forall is_byte (Crc32.finalize c).2.
Proof. repeat constructor; apply byte_of_land. Qed.

(** Shifting the register out, one byte after the other. *)
Lemma shift_out w n c : 0 <= w → 0 <= n → wrap w (Z.shiftl (wrap w (Z.shiftl c n)) 8) = wrap w (Z.shiftl c (n + 8)).
Proof.
  intros. unfold wrap. rewrite !Z.shiftl_mul_pow2 by lia.
  rewrite Zmult_mod_idemp_l, Z.pow_add_r by lia. f_equal. lia.
Qed.

Lemma shift_hi w n c :
  0 <= n → n + 8 <= w → in_range w c →
  Z.shiftr (wrap w (Z.shiftl c n)) (w - 8) = Z.land (Z.shiftr c (w - 8 - n)) 0xff.
Proof.
  intros Hn Hw Hc. change 0xff with (Z.ones 8). apply Z.bits_inj'. intros i Hi.
  unfold wrap. rewrite Z.shiftr_spec, Z.land_spec, Z.shiftr_spec by lia.
  destruct (Z_lt_le_dec i 8).
  - rewrite Z.mod_pow2_bits_low, Z.shiftl_spec, Z.ones_spec_low, andb_true_r by lia. f_equal. lia.
  - by rewrite Z.mod_pow2_bits_high, Z.ones_spec_high, andb_false_r by lia.
Qed.

Lemma wrap_range w x : 0 <= w → in_range w (wrap w x).
Proof. intros. unfold in_range, wrap. apply Z.mod_pos_bound. lia. Qed.

Lemma wrap_out w c : 0 <= w → wrap w (Z.shiftl c w) = 0.
Proof. intros. unfold wrap. rewrite Z.shiftl_mul_pow2 by lia. apply Z.mod_mul. lia. Qed.

Lemma step_out tbl w poly n c :
  16 <= w → table_ok tbl w poly = true → 0 <= n → n + 8 <= w → in_range w c →
  crc_step tbl w (wrap w (Z.shiftl c n)) (Z.land (Z.shiftr c (w - 8 - n)) 0xff)
  = wrap w (Z.shiftl c (n + 8)).
Proof.
  intros Hw Ht Hn Hn8 Hc. rewrite <-shift_hi by done.
  rewrite (step_self tbl w poly Hw Ht) by (apply wrap_range; lia). by apply shift_out; lia.
Qed.

Lemma wrap_id w c : in_range w c → c = wrap w (Z.shiftl c 0).
Proof. intros Hc. unfold wrap. rewrite Z.shiftl_0_r. by rewrite Z.mod_small. Qed.

Lemma crc16_self c : in_range 16 c → Crc16.accumulate c (Crc16.finalize c).2 = 0.
Proof.
  intros Hc. rewrite crc16_fold by (done || apply crc16_bytes).
  pose proof (λ n, step_out Crc16.table_ 16 poly16 n c ltac:(lia) table16_ok) as Hs.
  pose proof (Hs 0 ltac:(lia) ltac:(lia) Hc) as H0. rewrite <-wrap_id in H0 by done.
  pose proof (Hs 8 ltac:(lia) ltac:(lia) Hc) as H1. change (16 - 8 - 8) with 0 in H1.
  rewrite Z.shiftr_0_r in H1. unfold Crc16.finalize. cbn [snd fold_left].
  change 8 with (16 - 8 - 0) at 1. rewrite H0. change (0 + 8) with 8. rewrite H1.
  apply (wrap_out 16). lia.
Qed.

Lemma crc32_self c : in_range 32 c → Crc32.accumulate c (Crc32.finalize c).2 = 0.
Proof.
  intros Hc. rewrite crc32_fold by (done || apply crc32_bytes).
  pose proof (λ n, step_out Crc32.table_ 32 poly32 n c ltac:(lia) table32_ok) as Hs.
  pose proof (Hs 0 ltac:(lia) ltac:(lia) Hc) as H0. rewrite <-wrap_id in H0 by done.
  pose proof (Hs 8 ltac:(lia) ltac:(lia) Hc) as H1. pose proof (Hs 16 ltac:(lia) ltac:(lia) Hc) as H2.
  pose proof (Hs 24 ltac:(lia) ltac:(lia) Hc) as H3. change (32 - 8 - 24) with 0 in H3.
  rewrite Z.shiftr_0_r in H3. unfold Crc32.finalize. cbn [snd fold_left].
  change 24 with (32 - 8 - 0) at 1. rewrite H0.
  change 16 with (32 - 8 - 8) at 1. change (0 + 8) with 8. rewrite H1.
  change (Z.shiftr c 8) with (Z.shiftr c (32 - 8 - 16)). change (8 + 8) with 16. rewrite H2.
  change (16 + 8) with 24. rewrite H3. apply (wrap_out 32). lia.
Qed.

Lemma reset16 : in_range 16 Crc16.reset.
Proof. unfold in_range, Crc16.reset. lia. Qed.
Lemma reset32 : in_range 32 Crc32.reset.
Proof. unfold in_range, Crc32.reset. lia. Qed.

(** ** Fletcher16 *)

Definition fletcher_ok (s : Fletcher16.t) : Prop :=
  0 <= Fletcher16.m_sum1 s < 255 ∧ 0 <= Fletcher16.m_sum2 s < 255.

Lemma u8_mod255 x : u8 (x mod 255) = x mod 255.
Proof. unfold wrap. apply Z.mod_small. pose proof (Z.mod_pos_bound x 255 eq_refl). lia. Qed.

Lemma fletcher_accumulate_ok s m : fletcher_ok s → fletcher_ok (Fletcher16.accumulate s m).
Proof.
  revert s. induction m as [|b m IH]; intros s Hs; simpl; [done|]. apply IH.
  unfold fletcher_ok, Fletcher16.accumulate_byte. simpl. rewrite !u8_mod255.
  split; apply Z.mod_pos_bound; lia.
Qed.

Lemma fletcher_self s : fletcher_ok s →
  Fletcher16.accumulate s (Fletcher16.finalize s).2 = Fletcher16.Mk 0 0.
Proof.
  destruct s as [a b]. intros [Ha Hb]. simpl in *.
  unfold Fletcher16.finalize, Fletcher16.accumulate_byte. simpl. rewrite !u8_mod255.
  pose proof (Z.mod_pos_bound (a + b) 255 eq_refl). pose proof (Z.div_mod (a + b) 255).
  set (x := (a + b) mod 255) in *. set (q := (a + b) / 255) in *.
  assert (u8 (255 - x) = 255 - x) as -> by (unfold wrap; apply Z.mod_small; lia).
  pose proof (Z.mod_pos_bound (a + (255 - x)) 255 eq_refl). pose proof (Z.div_mod (a + (255 - x)) 255).
  set (y := (a + (255 - x)) mod 255) in *. set (r := (a + (255 - x)) / 255) in *.
  assert (u8 (255 - y) = 255 - y) as -> by (unfold wrap; apply Z.mod_small; lia).
  assert ((b + y) mod 255 = 0) as ->.
  { apply Z.mod_divide; [lia|]. exists (q + 1 - r). lia. }
  assert ((y + (255 - y)) mod 255 = 0) as ->. { replace (y + (255 - y)) with 255 by lia. done. }
  done.
Qed.

(** ** The protocol *)

#[global] Instance Fletcher16_ok : ChecksumOk Fletcher16.t.
Proof.
  split.
  - intros. apply fold_left_app.
  - intros m _. cbn -[Fletcher16.accumulate Fletcher16.finalize Fletcher16.isOkay].
    by rewrite fletcher_self by (apply fletcher_accumulate_ok; unfold fletcher_ok; simpl; lia).
Qed.

#[global] Instance Crc16_ok : ChecksumOk crc16.
Proof.
  split.
  - intros. simpl. f_equal. apply fold_left_app.
  - intros m Hm. cbn -[Crc16.accumulate Crc16.finalize]. unfold Crc16.isOkay.
    rewrite crc16_self by (by apply crc16_range; [apply reset16|]). done.
Qed.

#[global] Instance Crc32_ok : ChecksumOk crc32.
Proof.
  split.
  - intros. simpl. f_equal. apply fold_left_app.
  - intros m Hm. cbn -[Crc32.accumulate Crc32.finalize]. unfold Crc32.isOkay.
    rewrite crc32_self by (by apply crc32_range; [apply reset32|]). done.
Qed.

(** Every checksum class keeps the protocol of Api16/Api32: a message of
    bytes followed by the bytes finalize() appends passes isOkay(). *)
Theorem checksum_append_verifies (m : list Z) :
  Forall is_byte m →
  Fletcher16.isOkay (Fletcher16.accumulate Fletcher16.reset
    (m ++ (Fletcher16.finalize (Fletcher16.accumulate Fletcher16.reset m)).2)) = true ∧
  Crc16.isOkay (Crc16.accumulate Crc16.reset
    (m ++ (Crc16.finalize (Crc16.accumulate Crc16.reset m)).2)) = true ∧
  Crc32.isOkay (Crc32.accumulate Crc32.reset
    (m ++ (Crc32.finalize (Crc32.accumulate Crc32.reset m)).2)) = true.
Proof.
  intros Hm. unfold Fletcher16.accumulate at 1, Crc16.accumulate at 1, Crc32.accumulate at 1.
  rewrite !fold_left_app. split_and!.
  - exact (cs_check (S := Fletcher16.t) m Hm).
  - exact (cs_check (S := crc16) m Hm).
  - exact (cs_check (S := crc32) m Hm).
Qed.

(** C16. The table-driven CRCs are the polynomial divisions their headers name:
    for every message the fast loop leaves the same register as shifting the
    message through bit by bit (CCITT x16+x12+x5+1 and the Ethernet
    polynomial, not reflected). *)
Theorem crc_table_is_division (m : list Z) :
  Forall is_byte m →
  Crc16.accumulate Crc16.reset m = fold_left (crc_byte 16 poly16) m Crc16.reset ∧
  Crc32.accumulate Crc32.reset m = fold_left (crc_byte 32 poly32) m Crc32.reset.
Proof.
  intros Hm. split.
  - rewrite crc16_fold by (done || apply reset16).
    by apply (fold_bitwise _ 16 poly16 ltac:(lia) table16_ok); [apply reset16|].
  - rewrite crc32_fold by (done || apply reset32).
    by apply (fold_bitwise _ 32 poly32 ltac:(lia) table32_ok); [apply reset32|].
Qed.

(** A record protected by a CRC detects the corruption of any single byte,
    of the data or of the stored CRC. *)
Theorem crc_detects_byte_error (m1 m2 : list Z) (b b' : Z) :
  Forall is_byte m1 → Forall is_byte m2 → is_byte b → is_byte b' → b ≠ b' →
  (Crc16.isOkay (Crc16.accumulate Crc16.reset (m1 ++ b :: m2)) = true →
   Crc16.isOkay (Crc16.accumulate Crc16.reset (m1 ++ b' :: m2)) = false) ∧
  (Crc32.isOkay (Crc32.accumulate Crc32.reset (m1 ++ b :: m2)) = true →
   Crc32.isOkay (Crc32.accumulate Crc32.reset (m1 ++ b' :: m2)) = false).
Proof.
  intros H1 H2 Hb Hb' Hne. unfold Crc16.isOkay, Crc32.isOkay.
  assert (∀ x, is_byte x → Forall is_byte (m1 ++ x :: m2)) as Hall.
  { intros x Hx. apply Forall_app. split; [done|by constructor]. }
  pose proof (fold_one_byte Crc16.table_ 16 poly16 ltac:(lia) table16_ok m1 m2 b b' _ reset16 H1 H2 Hb Hb' Hne).
  pose proof (fold_one_byte Crc32.table_ 32 poly32 ltac:(lia) table32_ok m1 m2 b b' _ reset32 H1 H2 Hb Hb' Hne).
  rewrite !crc16_fold, !crc32_fold by (apply reset16 || apply reset32 || by apply Hall).
  split; rewrite Z.eqb_eq, Z.eqb_neq; congruence.
Qed.

(** ** Witnesses *)

Lemma abc_bytes : Forall is_byte [97; 98; 99].
Proof. repeat constructor; lia. Qed.

Lemma checksum_append_verifies_witness :
  Crc32.isOkay (Crc32.accumulate Crc32.reset
    ([97; 98; 99] ++ (Crc32.finalize (Crc32.accumulate Crc32.reset [97; 98; 99])).2)) = true.
Proof. apply (checksum_append_verifies [97; 98; 99]). apply abc_bytes. Defined.

Lemma crc_table_is_division_witness :
  Crc16.accumulate Crc16.reset [97; 98; 99] = fold_left (crc_byte 16 poly16) [97; 98; 99] Crc16.reset.
Proof. apply (crc_table_is_division [97; 98; 99]). apply abc_bytes. Defined.

Lemma crc_detects_byte_error_witness :
  Crc16.isOkay (Crc16.accumulate Crc16.reset [97; 98; 99; 0x51; 0x4A]) = true ∧
  Crc16.isOkay (Crc16.accumulate Crc16.reset [97; 98; 98; 0x51; 0x4A]) = false.
Proof.
  assert (Crc16.isOkay (Crc16.accumulate Crc16.reset [97; 98; 99; 0x51; 0x4A]) = true) as H
    by (vm_compute; reflexivity).
  split; [exact H|].
  destruct (crc_detects_byte_error [97; 98] [0x51; 0x4A] 99 98) as [H16 _]; [..|exact (H16 H)];
    try (repeat constructor; lia); unfold is_byte; lia.
Defined.
