(* ===== verification/Media.v ===== *)
(** * Non-volatile media

    The storage stack under src/src/Cpl/Persistent: the driver interface
    Driver::NV::Api with two of its implementations, the Onsemi CAT24C512
    EEPROM driver and the Gang of several drivers, and the NVAdapter that
    exposes a window of a driver as a RegionMedia.

    The EEPROM itself and the I2C master are hardware: they are the parameter
    [I2cEeprom], whose laws state the data sheet. *)

From Stdlib Require Import ZArith Lia.
From S2P Require Import Prelude Checksum.
Local Open Scope Z_scope.
Local Open Scope pim_scope.

(** ** size_t *)

Class Platform := {
  sizeof_size_t : nat;
  sizeof_size_t_ok : sizeof_size_t = 4%nat ∨ sizeof_size_t = 8%nat
}.

Definition size_t `{Platform} (z : Z) : Z := wrap (8 * Z.of_nat sizeof_size_t) z.

Definition SIZE_MAX `{Platform} : Z := 2 ^ (8 * Z.of_nat sizeof_size_t) - 1.

Section size.
Context `{Platform}.

Lemma SIZE_MAX_lower : 2 ^ 32 - 1 <= SIZE_MAX.
Proof. unfold SIZE_MAX. destruct sizeof_size_t_ok as [-> | ->]; simpl; lia. Qed.

Lemma size_t_id z : 0 <= z <= SIZE_MAX → size_t z = z.
Proof. unfold SIZE_MAX, size_t, wrap. intros. apply Z.mod_small. lia. Qed.
End size.

(** ** The driver interface, src/src/Driver/NV/Api.h *)

Class NvApi (D : Type) := {
  nv_start : ST D bool;
  nv_stop : ST D unit;
  nv_write : Z → list Z → ST D bool;
  (** the bytes read, or nothing when the method returns false *)
  nv_read : Z → Z → ST D (option (list Z));
  nv_getNumPages : D → Z;
  nv_getPageSize : D → Z;
  nv_getTotalSize : D → Z
}.

Arguments nv_getTotalSize : simpl never.

(** What a driver promises: it can be started, and a started driver is a flat
    array of bytes. *)
Class NvApiOk `{Platform} (D : Type) `{NvApi D} := {
  nv_ready : D → Prop;
  nv_inv : D → Prop;
  nv_view : D → list Z;
  nv_start_ok d : nv_ready d →
    wp nv_start (λ r d', r = true ∧ nv_inv d' ∧ nv_view d' = nv_view d) d;
  nv_size d : nv_inv d ∨ nv_ready d → nv_getTotalSize d = Z.of_nat (length (nv_view d)) ∧
    0 < nv_getTotalSize d <= 2 ^ 31;
  nv_write_ok d off bs :
    nv_inv d → 0 <= off → bs ≠ [] → off + Z.of_nat (length bs) <= nv_getTotalSize d →
    wp (nv_write off bs) (λ r d', r = true ∧ nv_inv d' ∧
      nv_view d' = splice (Z.to_nat off) bs (nv_view d)) d;
  nv_read_ok d off n :
    nv_inv d → 0 <= off → 0 < n → off + n <= nv_getTotalSize d →
    wp (nv_read off n) (λ r d', r = Some (slice (Z.to_nat off) (Z.to_nat n) (nv_view d)) ∧
      nv_inv d' ∧ nv_view d' = nv_view d) d
}.

(** ** The Onsemi CAT24C512 driver, src/src/Driver/NV/Onsemi/CAT24C512/Api.cpp *)

(** Driver::I2C::Master::Result_T. *)
Inductive Result_T := eSUCCESS | eNO_ACK | eTIMEOUT | eNOT_STARTED | eERROR.

#[global] Instance Result_T_eq_dec : EqDecision Result_T.
Proof. solve_decision. Defined.

(** The bus with the device on it, and the passing of time. *)
Class I2cEeprom (E : Type) := {
  writeToDevice : Z → list Z → ST E Result_T;
  readFromDevice : Z → Z → ST E (Result_T * list Z);
  sleep : Z → ST E unit
}.

Module Cat24C512.
Section driver.
Context `{Platform} {E : Type} `{I2cEeprom E}.

Definition NUM_PAGES : Z := 512.
Definition BYTES_PER_PAGE : Z := 128.
Definition MAX_WAIT_RETRIES : nat := 6.

Record Api := MkApi { m_i2cDriver : E; m_devAddress : Z; m_started : bool }.

(** A transaction on the device below the driver. *)
Definition on_bus {A} (m : ST E A) : ST Api A :=
  λ s, match m (m_i2cDriver s) with
       | Some (a, e) => Some (a, MkApi e (m_devAddress s) (m_started s))
       | None => None
       end.

Definition start : ST Api bool :=
  s ← get_st;
  if negb (m_started s) then
    r ← on_bus (readFromDevice (m_devAddress s) 1);
    if decide (fst r = eSUCCESS) then
      modify (λ s, MkApi (m_i2cDriver s) (m_devAddress s) true);; ret true
    else ret false
  else ret false.

Definition stop : ST Api unit :=
  modify (λ s, MkApi (m_i2cDriver s) (m_devAddress s) false).

(** [do { ... } while ( retryCount-- )] around one bus transaction. *)
Fixpoint retry_loop (retryCount : nat) (msg : list Z) : ST Api bool :=
  s ← get_st;
  result ← on_bus (writeToDevice (m_devAddress s) msg);
  if decide (result = eSUCCESS) then ret true
  else
    on_bus (sleep (Z.of_nat MAX_WAIT_RETRIES));;
    match retryCount with
    | O => ret false
    | S retryCount => retry_loop retryCount msg
    end.

Definition address (offset : Z) : list Z :=
  [Z.land (Z.shiftr offset 8) 0xff; Z.land offset 0xff].

Definition setReadOffsetPointer (newOffset : Z) : ST Api bool :=
  retry_loop MAX_WAIT_RETRIES (address newOffset).

(** The page buffer holds one page and its address: copying more overruns it. *)
Definition writePage (offset : Z) (src : list Z) : ST Api bool :=
  assert_ (Z.of_nat (length src) <=? BYTES_PER_PAGE);;
  retry_loop MAX_WAIT_RETRIES (address offset ++ src).

Fixpoint write_loop (fuel : nat) (dstOffset bytesRemainingInPage : Z) (src : list Z) : ST Api bool :=
  match fuel with
  | O => undefined
  | S fuel =>
      if decide (src = []) then ret true
      else
        let num := Z.of_nat (length src) in
        let bytesToWrite := if num >? bytesRemainingInPage then bytesRemainingInPage else num in
        r ← writePage dstOffset (take (Z.to_nat bytesToWrite) src);
        if r then
          write_loop fuel (size_t (dstOffset + bytesToWrite)) BYTES_PER_PAGE
            (drop (Z.to_nat bytesToWrite) src)
        else ret false
  end.

Definition write (dstOffset : Z) (src : list Z) : ST Api bool :=
  s ← get_st;
  if negb (m_started s) ||
     (size_t (dstOffset + Z.of_nat (length src)) >? NUM_PAGES * BYTES_PER_PAGE)
  then ret false
  else
    let startPage := dstOffset / BYTES_PER_PAGE in
    let bytesRemainingInPage := size_t ((startPage + 1) * BYTES_PER_PAGE - dstOffset) in
    write_loop (S (length src)) dstOffset bytesRemainingInPage src.

Definition read (srcOffset numBytesToRead : Z) : ST Api (option (list Z)) :=
  s ← get_st;
  if negb (m_started s) ||
     (size_t (srcOffset + numBytesToRead) >? NUM_PAGES * BYTES_PER_PAGE)
  then ret None
  else
    ok ← setReadOffsetPointer srcOffset;
    if negb ok then ret None
    else
      r ← on_bus (readFromDevice (m_devAddress s) numBytesToRead);
      if decide (fst r = eSUCCESS) then ret (Some (snd r)) else ret None.

Definition getNumPages : Z := NUM_PAGES.
Definition getPageSize : Z := BYTES_PER_PAGE.

#[global] Instance nvApi : NvApi Api := {
  nv_start := start; nv_stop := stop; nv_write := write; nv_read := read;
  nv_getNumPages _ := getNumPages; nv_getPageSize _ := getPageSize;
  nv_getTotalSize _ := getNumPages * getPageSize
}.
End driver.
Arguments Api : clear implicits.
End Cat24C512.

(** The device, as its data sheet describes it: 65536 bytes in pages of 128; it
    does not acknowledge while a write cycle runs, which takes at most 5 ms; a
    message is a big-endian address and the bytes to store from there, all in
    one page; the bare address sets the address counter reads start from. *)
Class I2cEepromOk (E : Type) `{I2cEeprom E} := {
  ee_inv : E → Prop;
  ee_mem : E → list Z;
  ee_addr : E → Z;
  ee_busy : E → Z;
  ee_size e : ee_inv e → Z.of_nat (length (ee_mem e)) = 65536;
  ee_busy_range e : ee_inv e → 0 <= ee_busy e <= 5;
  ee_sleep e ms : ee_inv e → 0 <= ms →
    wp (sleep ms) (λ _ e', ee_inv e' ∧ ee_mem e' = ee_mem e ∧ ee_addr e' = ee_addr e ∧
      ee_busy e' = Z.max 0 (ee_busy e - ms)) e;
  ee_nack e dev msg : ee_inv e → 0 < ee_busy e →
    wp (writeToDevice dev msg) (λ r e', r ≠ eSUCCESS ∧ e' = e) e;
  ee_set_addr e dev off : ee_inv e → ee_busy e = 0 → 0 <= off < 65536 →
    wp (writeToDevice dev [off / 256; off mod 256]) (λ r e', r = eSUCCESS ∧
      ee_inv e' ∧ ee_mem e' = ee_mem e ∧ ee_addr e' = off ∧ ee_busy e' = 0) e;
  ee_page_write e dev off bs : ee_inv e → ee_busy e = 0 → 0 <= off < 65536 → bs ≠ [] →
    off mod 128 + Z.of_nat (length bs) <= 128 →
    wp (writeToDevice dev (off / 256 :: off mod 256 :: bs)) (λ r e', r = eSUCCESS ∧
      ee_inv e' ∧ ee_mem e' = splice (Z.to_nat off) bs (ee_mem e)) e;
  ee_read e dev n : ee_inv e → ee_busy e = 0 → 0 < n → 0 <= ee_addr e → ee_addr e + n <= 65536 →
    wp (readFromDevice dev n) (λ r e', r = (eSUCCESS, slice (Z.to_nat (ee_addr e)) (Z.to_nat n) (ee_mem e)) ∧
      ee_inv e' ∧ ee_mem e' = ee_mem e) e
}.

(** ** The gang, src/src/Driver/NV/Gang.cpp *)
Module Gang.
Section gang.
Context `{Platform} {D : Type} `{NvApi D}.

Record Gang := MkGang {
  m_drivers : list D;
  m_numPages : Z;
  m_pageSize : Z;
  m_totalSize : Z;
  m_started : bool
}.

Definition Gang_new (drivers : list D) : Gang :=
  let total := fold_left (λ t d, size_t (t + nv_getTotalSize d)) drivers 0 in
  let page := fold_left (λ p d, if nv_getPageSize d <? p then nv_getPageSize d else p) drivers SIZE_MAX in
  if negb (page =? 0) && negb (page =? SIZE_MAX)
  then MkGang drivers (total / page) page total false
  else MkGang drivers 0 0 total false.

Fixpoint start_loop (drivers : list D) : option (bool * list D) :=
  match drivers with
  | [] => Some (true, [])
  | d :: ds =>
      match nv_start d with
      | None => None
      | Some (false, d') => Some (false, d' :: ds)
      | Some (true, d') =>
          match start_loop ds with
          | None => None
          | Some (r, ds') => Some (r, d' :: ds')
          end
      end
  end.

Fixpoint stop_loop (drivers : list D) : option (unit * list D) :=
  match drivers with
  | [] => Some (tt, [])
  | d :: ds =>
      match nv_stop d, stop_loop ds with
      | Some (_, d'), Some (_, ds') => Some (tt, d' :: ds')
      | _, _ => None
      end
  end.

(** Run a loop on the list of drivers. *)
Definition on_drivers {A} (m : ST (list D) A) : ST Gang A :=
  λ g, match m (m_drivers g) with
       | Some (a, ds) => Some (a, MkGang ds (m_numPages g) (m_pageSize g) (m_totalSize g) (m_started g))
       | None => None
       end.

Definition set_started (b : bool) (g : Gang) : Gang :=
  MkGang (m_drivers g) (m_numPages g) (m_pageSize g) (m_totalSize g) b.

Definition start : ST Gang bool :=
  g ← get_st;
  if negb (m_started g) then
    r ← on_drivers start_loop;
    if r then modify (set_started true);; ret true else ret false
  else ret false.

Definition stop : ST Gang unit :=
  g ← get_st;
  if m_started g then modify (set_started false);; on_drivers stop_loop else ret tt.

(** How many of the remaining bytes the current driver takes. *)
Definition bytesThisDriver (d : D) (offset num : Z) : Z :=
  if size_t (offset + num) >? nv_getTotalSize d
  then size_t (nv_getTotalSize d - offset) else num.

(** The inner loop of write(): driverWrite() on the current driver, then the
    next one from its offset zero.  The source pointer must stay in its buffer. *)
Fixpoint write_loop (dstOffset : Z) (src : list Z) (drivers : list D) : option (bool * list D) :=
  if decide (src = []) then Some (true, drivers)
  else
    match drivers with
    | [] => Some (false, [])
    | d :: ds =>
        let n := bytesThisDriver d dstOffset (Z.of_nat (length src)) in
        if n >? Z.of_nat (length src) then None
        else
          match nv_write dstOffset (take (Z.to_nat n) src) d with
          | None => None
          | Some (false, d') => Some (false, d' :: ds)
          | Some (true, d') =>
              match write_loop 0 (drop (Z.to_nat n) src) ds with
              | None => None
              | Some (r, ds') => Some (r, d' :: ds')
              end
          end
    end.

(** The outer loop of write(): find the driver the offset falls in. *)
Fixpoint write_seek (beginOffset dstOffset : Z) (src : list Z) (drivers : list D) : option (bool * list D) :=
  match drivers with
  | [] => Some (false, [])
  | d :: ds =>
      let endOffset := size_t (beginOffset + nv_getTotalSize d) in
      if dstOffset <? endOffset then write_loop (size_t (dstOffset - beginOffset)) src (d :: ds)
      else
        match write_seek endOffset dstOffset src ds with
        | None => None
        | Some (r, ds') => Some (r, d :: ds')
        end
  end.

Definition write (dstOffset : Z) (src : list Z) : ST Gang bool :=
  g ← get_st;
  if negb (m_started g) || (size_t (dstOffset + Z.of_nat (length src)) >? m_totalSize g)
  then ret false
  else on_drivers (write_seek 0 dstOffset src).

Fixpoint read_loop (srcOffset num : Z) (drivers : list D) : option (option (list Z) * list D) :=
  if num =? 0 then Some (Some [], drivers)
  else
    match drivers with
    | [] => Some (None, [])
    | d :: ds =>
        let n := bytesThisDriver d srcOffset num in
        match nv_read srcOffset n d with
        | None => None
        | Some (None, d') => Some (None, d' :: ds)
        | Some (Some bs, d') =>
            match read_loop 0 (size_t (num - n)) ds with
            | None => None
            | Some (r, ds') => Some ((bs ++.) <$> r, d' :: ds')
            end
        end
    end.

Fixpoint read_seek (beginOffset srcOffset num : Z) (drivers : list D) : option (option (list Z) * list D) :=
  match drivers with
  | [] => Some (None, [])
  | d :: ds =>
      let endOffset := size_t (beginOffset + nv_getTotalSize d) in
      if srcOffset <? endOffset then read_loop (size_t (srcOffset - beginOffset)) num (d :: ds)
      else
        match read_seek endOffset srcOffset num ds with
        | None => None
        | Some (r, ds') => Some (r, d :: ds')
        end
  end.

Definition read (srcOffset num : Z) : ST Gang (option (list Z)) :=
  g ← get_st;
  if negb (m_started g) || (size_t (srcOffset + num) >? m_totalSize g)
  then ret None
  else on_drivers (read_seek 0 srcOffset num).

#[global] Instance nvApi : NvApi Gang := {
  nv_start := start; nv_stop := stop; nv_write := write; nv_read := read;
  nv_getNumPages := m_numPages; nv_getPageSize := m_pageSize; nv_getTotalSize := m_totalSize
}.
End gang.
Arguments Gang : clear implicits.
End Gang.

(** ** RegionMedia and the NVAdapter, src/src/Cpl/Persistent *)

(** RegionMedia.h.  [rm_read] returns the bytes read: none on an error, and
    possibly fewer than were asked for. *)
Class RegionMedia (M : Type) := {
  rm_start : ST M unit;
  rm_stop : ST M unit;
  rm_write : Z → list Z → ST M bool;
  rm_read : Z → Z → ST M (list Z);
  rm_getRegionLength : M → Z
}.

(** What a region in working order promises to the layers above. *)
Class RegionMediaOk `{Platform} (M : Type) `{RegionMedia M} := {
  rm_inv : M → Prop;
  rm_view : M → list Z;
  rm_length m : rm_inv m → rm_getRegionLength m = Z.of_nat (length (rm_view m)) ∧
    0 < rm_getRegionLength m <= 2 ^ 31;
  rm_write_ok m off bs :
    rm_inv m → 0 <= off → bs ≠ [] → off + Z.of_nat (length bs) <= rm_getRegionLength m →
    wp (rm_write off bs) (λ r m', r = true ∧ rm_inv m' ∧
      rm_view m' = splice (Z.to_nat off) bs (rm_view m)) m;
  rm_write_beyond m off bs :
    rm_inv m → 0 <= off <= 2 ^ 31 → bs ≠ [] → Z.of_nat (length bs) < 2 ^ 31 →
    rm_getRegionLength m < off + Z.of_nat (length bs) →
    wp (rm_write off bs) (λ r m', r = false ∧ m' = m) m;
  rm_read_ok m off n :
    rm_inv m → 0 <= off → 0 < n → off + n <= rm_getRegionLength m →
    wp (rm_read off n) (λ bs m', bs = slice (Z.to_nat off) (Z.to_nat n) (rm_view m) ∧
      rm_inv m' ∧ rm_view m' = rm_view m) m;
  rm_read_beyond m off n :
    rm_inv m → 0 <= off <= 2 ^ 31 → 0 < n < 2 ^ 31 → rm_getRegionLength m < off + n →
    wp (rm_read off n) (λ bs m', bs = [] ∧ m' = m) m
}.

Module NVAdapter.
Section adapter.
Context `{Platform} {D : Type} `{NvApi D}.

Record NVAdapter := MkAdapter { m_driver : D; m_startAddress : Z; m_regionLength : Z }.

Definition on_driver {A} (m : ST D A) : ST NVAdapter A :=
  λ s, match m (m_driver s) with
       | Some (a, d) => Some (a, MkAdapter d (m_startAddress s) (m_regionLength s))
       | None => None
       end.

Definition start : ST NVAdapter unit := _ ← on_driver nv_start; ret tt.
Definition stop : ST NVAdapter unit := on_driver nv_stop.

Definition write (offset : Z) (src : list Z) : ST NVAdapter bool :=
  assert_ (0 <? Z.of_nat (length src));;
  s ← get_st;
  if size_t (offset + Z.of_nat (length src)) >? m_regionLength s then ret false
  else on_driver (nv_write (size_t (offset + m_startAddress s)) src).

Definition read (offset bytesToRead : Z) : ST NVAdapter (list Z) :=
  assert_ (0 <? bytesToRead);;
  s ← get_st;
  if size_t (offset + bytesToRead) >? m_regionLength s then ret []
  else
    r ← on_driver (nv_read (size_t (offset + m_startAddress s)) bytesToRead);
    ret (default [] r).

#[global] Instance regionMedia : RegionMedia NVAdapter := {
  rm_start := start; rm_stop := stop; rm_write := write; rm_read := read;
  rm_getRegionLength := m_regionLength
}.
End adapter.
Arguments NVAdapter : clear implicits.
End NVAdapter.
