(* ===== verification/MediaSpec.v ===== *)
(** * Non-volatile media: the drivers keep their promises

    The EEPROM driver on any device that follows its data sheet is a flat byte
    array ([Cat24C512Ok]); a gang of flat arrays is the flat array of their
    concatenation ([GangOk]); an NVAdapter is an isolated window of one
    ([NVAdapterOk]).  The three compose. *)

From Stdlib Require Import ZArith Lia.
From S2P Require Import Prelude Checksum Media.
Local Open Scope Z_scope.
Local Open Scope pim_scope.

Ltac Zify.zify_post_hook ::= Z.div_mod_to_equations.

Arguments splice : simpl never.
Arguments slice : simpl never.

Lemma wp_get_st {S A} (k : S → ST S A) Q (s : S) : wp (k s) Q s → wp (bind get_st k) Q s.
Proof. done. Qed.

Lemma wp_bind_ret {S A B} (a : A) (k : A → ST S B) Q s : wp (k a) Q s → wp (bind (ret a) k) Q s.
Proof. done. Qed.

(** ** The EEPROM driver *)
Module Cat24C512Proofs.
Import Cat24C512.
Section proofs.
Context `{Platform} {E : Type} `{!I2cEeprom E, !I2cEepromOk E}.

Lemma wp_on_bus {A} (m : ST E A) Q (s : Api E) :
  wp m (λ a e, Q a (MkApi e (m_devAddress s) (m_started s))) (m_i2cDriver s) →
  wp (on_bus m) Q s.
Proof. unfold wp, on_bus. by destruct (m (m_i2cDriver s)) as [[a e]|]. Qed.

(** A transaction that the idle device accepts goes through: the first sleep
    outlasts the longest write cycle. *)
Lemma retry_ok k msg (Q : E → Prop) s :
  ee_inv (m_i2cDriver s) →
  (∀ e, ee_inv e → ee_mem e = ee_mem (m_i2cDriver s) → ee_busy e = 0 →
    wp (writeToDevice (m_devAddress s) msg) (λ r e', r = eSUCCESS ∧ Q e') e) →
  wp (retry_loop (S k) msg) (λ r s', r = true ∧ Q (m_i2cDriver s') ∧
    m_devAddress s' = m_devAddress s ∧ m_started s' = m_started s) s.
Proof.
  intros Hinv Hacc. set (e := m_i2cDriver s) in *.
  assert (∀ n s1, ee_inv (m_i2cDriver s1) → ee_mem (m_i2cDriver s1) = ee_mem e →
    ee_busy (m_i2cDriver s1) = 0 → m_devAddress s1 = m_devAddress s → m_started s1 = m_started s →
    wp (retry_loop n msg) (λ r s', r = true ∧ Q (m_i2cDriver s') ∧
      m_devAddress s' = m_devAddress s ∧ m_started s' = m_started s) s1) as Hidle.
  { intros n s1 Hi Hm Hb Hd Hst. destruct n; cbn [retry_loop];
      apply wp_get_st, wp_bind, wp_on_bus; rewrite Hd; (eapply wp_mono; [by apply Hacc|]);
      intros r e' [-> HQ]; rewrite decide_True by done; by apply wp_ret. }
  destruct (decide (ee_busy e = 0)) as [Hz|Hz]; [by apply Hidle|].
  pose proof (ee_busy_range e Hinv) as Hr. cbn [retry_loop].
  apply wp_get_st, wp_bind, wp_on_bus. eapply wp_mono; [apply ee_nack; fold e; [done|lia]|].
  intros r e' [Hn ->]. fold e. rewrite decide_False by done.
  apply wp_bind, wp_on_bus. eapply wp_mono; [apply ee_sleep; [done|lia]|].
  intros _ e' (Hi & Hm & Ha & Hb). cbn in Hm, Hb. apply Hidle; cbn; try done.
  rewrite Hb. unfold MAX_WAIT_RETRIES. lia.
Qed.

(** A started driver on a working device. *)
Definition cat_inv (s : Api E) : Prop := m_started s = true ∧ ee_inv (m_i2cDriver s).

Lemma address_spec off : 0 <= off < 65536 → address off = [off / 256; off mod 256].
Proof.
  intros. unfold address. rewrite !land_ff, Z.shiftr_div_pow2 by lia. change (2 ^ 8) with 256.
  rewrite (Z.mod_small (off / 256)) by lia. done.
Qed.

Lemma writePage_ok off bs s :
  cat_inv s → 0 <= off < 65536 → bs ≠ [] → off mod 128 + Z.of_nat (length bs) <= 128 →
  wp (writePage off bs) (λ r s', r = true ∧ cat_inv s' ∧
    ee_mem (m_i2cDriver s') = splice (Z.to_nat off) bs (ee_mem (m_i2cDriver s))) s.
Proof.
  intros [Hst Hinv] Hoff Hne Hlen. unfold writePage. apply wp_bind, wp_assert.
  { apply Z.leb_le. unfold BYTES_PER_PAGE. lia. }
  rewrite address_spec by done. unfold MAX_WAIT_RETRIES, cat_inv.
  eapply wp_mono; [eapply retry_ok with
    (Q := λ e, ee_inv e ∧ ee_mem e = splice (Z.to_nat off) bs (ee_mem (m_i2cDriver s))); [done|]|].
  - intros e Hi He Hb. rewrite <-He. by apply ee_page_write.
  - intros r s' (-> & [Hi Hm] & _ & Hs). by rewrite Hs.
Qed.

(** The page loop stores the bytes and ends within its fuel. *)
Lemma cat_write_loop_ok fuel off rem src s :
  cat_inv s → (length src < fuel)%nat → 0 <= off → off + Z.of_nat (length src) <= 65536 →
  (src ≠ [] → 0 < rem ∧ off mod 128 + rem = 128) →
  wp (write_loop fuel off rem src) (λ r s', r = true ∧ cat_inv s' ∧
    ee_mem (m_i2cDriver s') = splice (Z.to_nat off) src (ee_mem (m_i2cDriver s))) s.
Proof.
  revert off rem src s. induction fuel as [|fuel IH]; intros off rem src s Hi Hf Hoff Hle Hrem; [lia|].
  cbn [write_loop]. case_decide as Hs.
  { subst src. apply wp_ret. by rewrite splice_nil. }
  destruct (Hrem Hs) as [Hr0 Hr]. assert (length src ≠ 0%nat) by (by destruct src).
  set (num := Z.of_nat (length src)) in *. assert (num = Z.of_nat (length src)) as Hnum by done.
  set (n := if num >? rem then rem else num).
  assert (0 < n <= num ∧ n <= rem) as Hn by (unfold n; destruct (Z.gtb_spec num rem); lia).
  pose proof (length_take src (Z.to_nat n)) as Ht. pose proof (ee_size _ (proj2 Hi)) as Hsz.
  apply wp_bind. eapply wp_mono; [apply writePage_ok; [done|lia| |lia]|].
  { intros Hnil. rewrite Hnil in Ht. simpl in Ht. lia. }
  intros r s' (-> & Hi' & Hm). pose proof SIZE_MAX_lower. rewrite size_t_id by lia.
  eapply wp_mono; [apply IH; rewrite ?length_drop; try done; try lia|].
  - intros Hd. unfold BYTES_PER_PAGE. split; [lia|].
    assert (n = rem) as Hnr; [|lia].
    unfold n in *. destruct (Z.gtb_spec num rem) as [|Hge]; [done|].
    exfalso. apply Hd. apply drop_ge. lia.
  - intros r s'' (-> & Hi'' & Hm'). split_and!; [done..|].
    rewrite Hm', Hm. rewrite <-(take_drop (Z.to_nat n) src) at 3.
    rewrite <-splice_splice_app by (rewrite length_take, length_drop; lia).
    f_equal. rewrite length_take. lia.
Qed.

Lemma write_ok s off bs :
  cat_inv s → 0 <= off → bs ≠ [] → off + Z.of_nat (length bs) <= 65536 →
  wp (write off bs) (λ r s', r = true ∧ cat_inv s' ∧
    ee_mem (m_i2cDriver s') = splice (Z.to_nat off) bs (ee_mem (m_i2cDriver s))) s.
Proof.
  intros Hi Hoff Hne Hle. unfold write. apply wp_get_st. rewrite (proj1 Hi).
  pose proof SIZE_MAX_lower. rewrite size_t_id by lia.
  rewrite gtb_false by (unfold NUM_PAGES, BYTES_PER_PAGE; lia).
  cbn [negb orb]. unfold BYTES_PER_PAGE. rewrite size_t_id by lia.
  assert (length bs ≠ 0%nat) by (by destruct bs).
  apply cat_write_loop_ok; [done|lia..].
Qed.

Lemma read_ok s off n :
  cat_inv s → 0 <= off → 0 < n → off + n <= 65536 →
  wp (read off n) (λ r s',
    r = Some (slice (Z.to_nat off) (Z.to_nat n) (ee_mem (m_i2cDriver s))) ∧ cat_inv s' ∧
    ee_mem (m_i2cDriver s') = ee_mem (m_i2cDriver s)) s.
Proof.
  intros [Hst Hinv] Hoff Hn Hle. unfold read. apply wp_get_st. rewrite Hst.
  pose proof SIZE_MAX_lower. rewrite size_t_id by lia.
  rewrite gtb_false by (unfold NUM_PAGES, BYTES_PER_PAGE; lia).
  cbn [negb orb]. apply wp_bind. unfold setReadOffsetPointer, MAX_WAIT_RETRIES.
  eapply wp_mono; [eapply retry_ok with
    (Q := λ e, ee_inv e ∧ ee_mem e = ee_mem (m_i2cDriver s) ∧ ee_addr e = off ∧ ee_busy e = 0);
    [done|]|].
  { intros e Hi He Hb. rewrite address_spec by lia. rewrite <-He. apply ee_set_addr; [done..|lia]. }
  intros r s' (-> & (Hi & Hm & Ha & Hb) & Hd & Hs). cbn [negb].
  apply wp_bind, wp_on_bus. rewrite <-Hm, <-Ha.
  eapply wp_mono; [apply ee_read; [done|done|lia|lia|lia]|].
  intros [res bs] e' ([= -> ->] & Hi' & Hm'). cbn [fst snd]. rewrite decide_True by done.
  apply wp_ret. unfold cat_inv. cbn. split_and!; congruence || done.
Qed.

(** Constructed, on an idle device. *)
Definition cat_ready (s : Api E) : Prop :=
  m_started s = false ∧ ee_inv (m_i2cDriver s) ∧ ee_busy (m_i2cDriver s) = 0 ∧
  0 <= ee_addr (m_i2cDriver s) < 65536.

Lemma start_ok s :
  cat_ready s → wp start (λ r s', r = true ∧ cat_inv s' ∧
    ee_mem (m_i2cDriver s') = ee_mem (m_i2cDriver s)) s.
Proof.
  intros (Hst & Hi & Hb & Ha). unfold start. apply wp_get_st. rewrite Hst. cbn [negb].
  apply wp_bind, wp_on_bus. eapply wp_mono; [apply ee_read; [done|done|lia..]|].
  intros [r bs] e' ([= -> ->] & Hi' & Hm). cbn [fst]. rewrite decide_True by done.
  by apply wp_bind, wp_modify, wp_ret.
Qed.

#[global] Program Instance Cat24C512Ok : NvApiOk (Cat24C512.Api E) := {
  nv_ready := cat_ready;
  nv_inv := cat_inv;
  nv_view s := ee_mem (m_i2cDriver s)
}.
Next Obligation. intros d Hd. by apply start_ok. Qed.
Next Obligation. intros d [[_ Hd]|(_ & Hd & _)]; change (nv_getTotalSize d) with 65536; cbn beta; rewrite ee_size by done; lia. Qed.
Next Obligation. intros d off bs Hi Ho Hb Hl. by apply write_ok. Qed.
Next Obligation. intros d off n Hi Ho Hb Hl. by apply read_ok. Qed.
End proofs.
End Cat24C512Proofs.

(** ** The gang *)
Module GangProofs.
Import Gang.
Section proofs.
Context `{Platform} {D : Type} `{!NvApi D, !NvApiOk D}.

Definition flat (ds : list D) : list Z := concat (nv_view <$> ds).
Arguments flat : simpl never.
Definition total (ds : list D) : Z := Z.of_nat (length (flat ds)).

Definition gang_inv (g : Gang D) : Prop :=
  m_started g = true ∧ Forall nv_inv (m_drivers g) ∧
  m_totalSize g = total (m_drivers g) ∧ 0 < m_totalSize g <= 2 ^ 31.

Lemma total_cons d ds : nv_inv d ∨ nv_ready d → total (d :: ds) = nv_getTotalSize d + total ds.
Proof.
  intros Hd. destruct (nv_size d Hd) as [-> _]. unfold total, flat. cbn. rewrite length_app. lia.
Qed.

Lemma total_nonneg ds : 0 <= total ds.
Proof. unfold total. lia. Qed.

Lemma flat_cons d ds : flat (d :: ds) = nv_view d ++ flat ds.
Proof. done. Qed.

Lemma gang_write_loop_ok ds off src :
  Forall nv_inv ds → total ds <= 2 ^ 31 → 0 <= off → off + Z.of_nat (length src) <= total ds →
  (∀ d ds', ds = d :: ds' → off < nv_getTotalSize d) →
  ∃ ds', write_loop off src ds = Some (true, ds') ∧ Forall nv_inv ds' ∧
    flat ds' = splice (Z.to_nat off) src (flat ds).
Proof.
  revert off src. induction ds as [|d ds IH]; intros off src Hinv Hmax Hoff Hle Hin; cbn [write_loop];
    (case_decide as Hs; [subst; eexists; by rewrite splice_nil|]).
  { exfalso. unfold total, flat in Hle. cbn in Hle. destruct src; [done|]. cbn in Hle. lia. }
  apply Forall_cons in Hinv as [Hd Hds]. rewrite total_cons in Hle, Hmax by by left.
  specialize (Hin d ds eq_refl). destruct (nv_size d (or_introl Hd)) as [Hsz Hrng].
  pose proof SIZE_MAX_lower. pose proof (total_nonneg ds).
  assert (length src ≠ 0%nat) by (by destruct src).
  set (n := bytesThisDriver d off (Z.of_nat (length src))).
  assert (n = Z.min (Z.of_nat (length src)) (nv_getTotalSize d - off)) as Hn.
  { unfold n, bytesThisDriver. rewrite !size_t_id by lia. destruct (Z.gtb_spec (off + Z.of_nat (length src)) (nv_getTotalSize d)); lia. }
  rewrite gtb_false by lia.
  destruct (proj1 (wp_run _ _ _) (nv_write_ok d off (take (Z.to_nat n) src) Hd Hoff
    ltac:(intros Hx; apply (f_equal length) in Hx; rewrite length_take in Hx; cbn in Hx; lia)
    ltac:(rewrite length_take; lia))) as (r & d' & Hw & -> & Hd' & Hv).
  rewrite Hw. cbn.
  destruct (nv_size d' (or_introl Hd')) as [Hsz' _].
  destruct (IH 0 (drop (Z.to_nat n) src) Hds ltac:(lia) ltac:(lia) ltac:(rewrite length_drop; lia))
    as (ds' & Hl & Hi & Hf).
  { intros d2 ds2 ->. apply Forall_cons in Hds as [Hd2 _]. destruct (nv_size d2 (or_introl Hd2)). lia. }
  rewrite Hl. eexists. split; [done|]. split; [by constructor|].
  rewrite !flat_cons, Hf, Hv. destruct (Z.leb_spec (off + Z.of_nat (length src)) (nv_getTotalSize d)).
  - rewrite take_ge, drop_ge by lia. rewrite splice_nil. by rewrite splice_app_l by lia.
  - rewrite splice_app_straddle by lia. by replace (Z.to_nat n) with (length (nv_view d) - Z.to_nat off)%nat by lia.
Qed.

Lemma gang_read_loop_ok ds off num :
  Forall nv_inv ds → total ds <= 2 ^ 31 → 0 <= off → 0 <= num → off + num <= total ds →
  (∀ d ds', ds = d :: ds' → off < nv_getTotalSize d) →
  ∃ ds', read_loop off num ds = Some (Some (slice (Z.to_nat off) (Z.to_nat num) (flat ds)), ds') ∧
    Forall nv_inv ds' ∧ flat ds' = flat ds.
Proof.
  revert off num. induction ds as [|d ds IH]; intros off num Hinv Hmax Hoff Hnum Hle Hin; cbn [read_loop];
    (destruct (Z.eqb_spec num 0) as [->|Hnz]; [eexists; by unfold slice|]).
  { exfalso. unfold total, flat in Hle. cbn in Hle. lia. }
  apply Forall_cons in Hinv as [Hd Hds]. rewrite total_cons in Hle, Hmax by by left.
  specialize (Hin d ds eq_refl). destruct (nv_size d (or_introl Hd)) as [Hsz Hrng].
  pose proof SIZE_MAX_lower. pose proof (total_nonneg ds).
  set (n := bytesThisDriver d off num).
  assert (n = Z.min num (nv_getTotalSize d - off)) as Hn.
  { unfold n, bytesThisDriver. rewrite !size_t_id by lia. destruct (Z.gtb_spec (off + num) (nv_getTotalSize d)); lia. }
  destruct (proj1 (wp_run _ _ _) (nv_read_ok d off n Hd Hoff ltac:(lia) ltac:(lia)))
    as (r & d' & Hw & -> & Hd' & Hv).
  rewrite Hw. cbn. rewrite size_t_id by lia.
  destruct (IH 0 (num - n) Hds ltac:(lia) ltac:(lia) ltac:(lia) ltac:(lia)) as (ds' & Hl & Hi & Hf).
  { intros d2 ds2 ->. apply Forall_cons in Hds as [Hd2 _]. destruct (nv_size d2 (or_introl Hd2)). lia. }
  rewrite Hl. cbn. eexists. split; [|split; [by constructor|by rewrite !flat_cons, Hf, Hv]].
  do 3 f_equal. rewrite flat_cons. destruct (Z.leb_spec (off + num) (nv_getTotalSize d)).
  - rewrite slice_app_l by lia. replace (Z.to_nat (num - n)) with 0%nat by lia.
    replace (Z.to_nat n) with (Z.to_nat num) by lia. unfold slice at 2. by rewrite app_nil_r.
  - rewrite slice_app_straddle by lia. f_equal; f_equal; lia.
Qed.

Lemma gang_write_seek_ok ds b off src :
  Forall nv_inv ds → 0 <= b → b + total ds <= 2 ^ 31 → b <= off → src ≠ [] →
  off + Z.of_nat (length src) <= b + total ds →
  ∃ ds', write_seek b off src ds = Some (true, ds') ∧ Forall nv_inv ds' ∧
    flat ds' = splice (Z.to_nat (off - b)) src (flat ds).
Proof.
  revert b. induction ds as [|d ds IH]; intros b Hinv Hb Hmax Hoff Hne Hle; cbn [write_seek].
  { exfalso. unfold total, flat in Hle. cbn in Hle. destruct src; [done|]. cbn in Hle. lia. }
  pose proof Hinv as Hinv'. apply Forall_cons in Hinv as [Hd Hds].
  pose proof (total_cons d ds (or_introl Hd)) as Ht. destruct (nv_size d (or_introl Hd)) as [Hsz Hrng].
  pose proof SIZE_MAX_lower. pose proof (total_nonneg ds).
  rewrite !size_t_id by lia. destruct (Z.ltb_spec off (b + nv_getTotalSize d)).
  - apply gang_write_loop_ok; [done|lia..|]. intros ?? [= <- <-]. lia.
  - destruct (IH (b + nv_getTotalSize d)) as (ds' & -> & Hi & Hf); [done|lia|lia|lia|done|lia|].
    eexists. split; [done|]. split; [by constructor|]. rewrite !flat_cons, Hf.
    rewrite splice_app_r by lia. do 2 f_equal. lia.
Qed.

Lemma gang_read_seek_ok ds b off num :
  Forall nv_inv ds → 0 <= b → b + total ds <= 2 ^ 31 → b <= off → 0 < num →
  off + num <= b + total ds →
  ∃ ds', read_seek b off num ds = Some (Some (slice (Z.to_nat (off - b)) (Z.to_nat num) (flat ds)), ds') ∧
    Forall nv_inv ds' ∧ flat ds' = flat ds.
Proof.
  revert b. induction ds as [|d ds IH]; intros b Hinv Hb Hmax Hoff Hne Hle; cbn [read_seek].
  { exfalso. unfold total, flat in Hle. cbn in Hle. lia. }
  pose proof Hinv as Hinv'. apply Forall_cons in Hinv as [Hd Hds].
  pose proof (total_cons d ds (or_introl Hd)) as Ht. destruct (nv_size d (or_introl Hd)) as [Hsz Hrng].
  pose proof SIZE_MAX_lower. pose proof (total_nonneg ds).
  rewrite !size_t_id by lia. destruct (Z.ltb_spec off (b + nv_getTotalSize d)).
  - apply gang_read_loop_ok; [done|lia..|]. intros ?? [= <- <-]. lia.
  - destruct (IH (b + nv_getTotalSize d)) as (ds' & -> & Hi & Hf); [done|lia|lia|lia|done|lia|].
    eexists. split; [|split; [by constructor|by rewrite !flat_cons, Hf]].
    do 3 f_equal. rewrite flat_cons, slice_app_r by lia. f_equal. lia.
Qed.

Lemma gang_inv_drivers g ds :
  gang_inv g → Forall nv_inv ds → length (flat ds) = length (flat (m_drivers g)) →
  gang_inv (MkGang ds (m_numPages g) (m_pageSize g) (m_totalSize g) (m_started g)).
Proof. intros (? & ? & Ht & ?) ? Hl. unfold gang_inv, total in *. cbn. by rewrite Hl. Qed.

Lemma gang_write_ok g off bs :
  gang_inv g → 0 <= off → bs ≠ [] → off + Z.of_nat (length bs) <= m_totalSize g →
  wp (write off bs) (λ r g', r = true ∧ gang_inv g' ∧
    flat (m_drivers g') = splice (Z.to_nat off) bs (flat (m_drivers g))) g.
Proof.
  intros Hg Hoff Hne Hle. pose proof Hg as (Hst & Hds & Ht & Hr). pose proof SIZE_MAX_lower.
  unfold write. apply wp_get_st. rewrite Hst, size_t_id, gtb_false by lia. cbn [negb orb].
  destruct (gang_write_seek_ok (m_drivers g) 0 off bs Hds) as (ds' & Hw & Hi & Hf); [lia..|done|lia|].
  unfold wp, on_drivers. rewrite Hw. rewrite Z.sub_0_r in Hf. split_and!; [done| |done].
  apply gang_inv_drivers; [done..|]. rewrite Hf, length_splice; [done|]. unfold total in Ht. lia.
Qed.

Lemma gang_read_ok g off n :
  gang_inv g → 0 <= off → 0 < n → off + n <= m_totalSize g →
  wp (read off n) (λ r g', r = Some (slice (Z.to_nat off) (Z.to_nat n) (flat (m_drivers g))) ∧
    gang_inv g' ∧ flat (m_drivers g') = flat (m_drivers g)) g.
Proof.
  intros Hg Hoff Hn Hle. pose proof Hg as (Hst & Hds & Ht & Hr). pose proof SIZE_MAX_lower.
  unfold read. apply wp_get_st. rewrite Hst, size_t_id, gtb_false by lia. cbn [negb orb].
  destruct (gang_read_seek_ok (m_drivers g) 0 off n Hds) as (ds' & Hw & Hi & Hf); [lia..|].
  unfold wp, on_drivers. rewrite Hw, Z.sub_0_r. split_and!; [done| |done].
  apply gang_inv_drivers; [done..|]. by rewrite Hf.
Qed.

Definition gang_ready (g : Gang D) : Prop :=
  m_started g = false ∧ Forall nv_ready (m_drivers g) ∧
  m_totalSize g = total (m_drivers g) ∧ 0 < m_totalSize g <= 2 ^ 31.

Lemma gang_start_loop_ok ds :
  Forall nv_ready ds → ∃ ds', start_loop ds = Some (true, ds') ∧ Forall nv_inv ds' ∧ flat ds' = flat ds.
Proof.
  induction 1 as [|d ds Hd Hds (ds' & IH & Hi & Hf)]; cbn [start_loop]; [by eexists|].
  destruct (proj1 (wp_run _ _ _) (nv_start_ok d Hd)) as (r & d' & -> & -> & Hd' & Hv).
  rewrite IH. eexists. split; [done|]. split; [by constructor|]. by rewrite !flat_cons, Hf, Hv.
Qed.

Lemma gang_start_ok g :
  gang_ready g → wp start (λ r g', r = true ∧ gang_inv g' ∧ flat (m_drivers g') = flat (m_drivers g)) g.
Proof.
  intros (Hst & Hds & Ht & Hr). unfold start. apply wp_get_st. rewrite Hst. cbn [negb].
  destruct (gang_start_loop_ok _ Hds) as (ds' & Hl & Hi & Hf). apply wp_bind.
  unfold wp at 1, on_drivers. rewrite Hl. apply wp_bind, wp_modify, wp_ret.
  split_and!; [done| |done]. unfold gang_inv, total in *. cbn. by rewrite Hf.
Qed.

(** The constructor adds the sizes up. *)
Lemma Gang_new_total ds t :
  Forall nv_ready ds → 0 <= t → t + total ds <= 2 ^ 31 →
  fold_left (λ t d, size_t (t + nv_getTotalSize d)) ds t = t + total ds.
Proof.
  intros Hds. revert t. induction Hds as [|d ds Hd Hds IH]; intros t Ht Hle; cbn [fold_left].
  { unfold total, flat. cbn. lia. }
  pose proof SIZE_MAX_lower. pose proof (total_nonneg ds).
  rewrite total_cons in * by by right. destruct (nv_size d (or_intror Hd)).
  rewrite size_t_id by lia. rewrite IH; lia.
Qed.

Lemma Gang_new_ready ds :
  Forall nv_ready ds → 0 < total ds <= 2 ^ 31 → gang_ready (Gang_new ds).
Proof.
  intros Hds Hr. unfold Gang_new. rewrite Gang_new_total by (done || lia).
  by destruct (negb _ && negb _).
Qed.

#[global] Program Instance GangOk : NvApiOk (Gang.Gang D) := {
  nv_ready := gang_ready;
  nv_inv := gang_inv;
  nv_view g := flat (m_drivers g)
}.
Next Obligation. intros g Hg. by apply gang_start_ok. Qed.
Next Obligation. intros g [(_ & _ & Ht & Hr)|(_ & _ & Ht & Hr)]; exact (conj Ht Hr). Qed.
Next Obligation. intros g off bs Hi Ho Hb Hl. by apply gang_write_ok. Qed.
Next Obligation. intros g off n Hi Ho Hb Hl. by apply gang_read_ok. Qed.
End proofs.
End GangProofs.

(** ** The adapter *)
Module NVAdapterProofs.
Import NVAdapter.
Section proofs.
Context `{Platform} {D : Type} `{!NvApi D, !NvApiOk D}.

Definition adapter_inv (s : NVAdapter D) : Prop :=
  nv_inv (m_driver s) ∧ 0 <= m_startAddress s ∧ 0 < m_regionLength s ∧
  m_startAddress s + m_regionLength s <= nv_getTotalSize (m_driver s).

Definition window (s : NVAdapter D) : list Z :=
  slice (Z.to_nat (m_startAddress s)) (Z.to_nat (m_regionLength s)) (nv_view (m_driver s)).

Lemma wp_on_driver {A} (m : ST D A) Q (s : NVAdapter D) :
  wp m (λ a d, Q a (MkAdapter d (m_startAddress s) (m_regionLength s))) (m_driver s) →
  wp (on_driver m) Q s.
Proof. unfold wp, on_driver. by destruct (m (m_driver s)) as [[a d]|]. Qed.

Lemma slice_splice_window {A} (st n off : nat) (bs v : list A) :
  (off + length bs <= n)%nat → (st + n <= length v)%nat →
  slice st n (splice (st + off) bs v) = splice off bs (slice st n v).
Proof.
  intros. apply list_eq. intros i. rewrite lookup_slice.
  rewrite (lookup_splice off) by (rewrite length_slice; lia).
  rewrite lookup_slice. repeat case_decide; try done; try lia.
  - rewrite lookup_splice, decide_True by lia. f_equal. lia.
  - rewrite lookup_splice, decide_False by lia. done.
Qed.

Lemma slice_slice {A} (st n off m : nat) (v : list A) :
  (off + m <= n)%nat → slice off m (slice st n v) = slice (st + off) m v.
Proof.
  intros. apply list_eq. intros i. rewrite !lookup_slice.
  repeat case_decide; try done; try lia. f_equal. lia.
Qed.

Lemma adapter_sizes s :
  adapter_inv s → Z.of_nat (length (window s)) = m_regionLength s ∧ m_regionLength s <= 2 ^ 31 ∧
  m_startAddress s <= 2 ^ 31 ∧ nv_getTotalSize (m_driver s) = Z.of_nat (length (nv_view (m_driver s))).
Proof.
  intros (Hd & ? & ? & ?). destruct (nv_size _ (or_introl Hd)) as [Hs ?]. unfold window.
  rewrite length_slice; lia.
Qed.

Lemma adapter_inv_driver s d :
  adapter_inv s → nv_inv d → length (nv_view d) = length (nv_view (m_driver s)) →
  adapter_inv (MkAdapter d (m_startAddress s) (m_regionLength s)).
Proof.
  intros (Hd & ? & ? & Hle) Hd' Hl. destruct (nv_size _ (or_introl Hd)) as [Hs ?], (nv_size _ (or_introl Hd')) as [Hs' ?].
  unfold adapter_inv. cbn. split_and!; [done..|]. rewrite Hs', Hl. lia.
Qed.

Lemma nva_write_ok s off bs :
  adapter_inv s → 0 <= off → bs ≠ [] → off + Z.of_nat (length bs) <= m_regionLength s →
  wp (write off bs) (λ r s', r = true ∧ adapter_inv s' ∧
    window s' = splice (Z.to_nat off) bs (window s) ∧
    nv_view (m_driver s') = splice (Z.to_nat (m_startAddress s + off)) bs (nv_view (m_driver s))) s.
Proof.
  intros Hs Hoff Hne Hle. pose proof (adapter_sizes s Hs) as (Hw & ? & ? & Hv).
  pose proof Hs as (Hd & ? & ? & ?). pose proof SIZE_MAX_lower.
  assert (length bs ≠ 0%nat) by (by destruct bs).
  unfold write. apply wp_bind, wp_assert; [apply Z.ltb_lt; lia|]. apply wp_get_st.
  rewrite size_t_id, gtb_false by lia. apply wp_on_driver. rewrite size_t_id by lia.
  rewrite (Z.add_comm off).
  eapply wp_mono; [apply nv_write_ok; [done|lia|done|lia]|]. intros r d (-> & Hd' & Hv').
  split_and!; [done| | |done].
  - apply adapter_inv_driver; [done..|]. rewrite Hv', length_splice; [done|lia].
  - unfold window. cbn. rewrite Hv', Z2Nat.inj_add by lia. apply slice_splice_window; lia.
Qed.

Lemma nva_read_ok s off n :
  adapter_inv s → 0 <= off → 0 < n → off + n <= m_regionLength s →
  wp (read off n) (λ bs s', bs = slice (Z.to_nat off) (Z.to_nat n) (window s) ∧ adapter_inv s' ∧
    window s' = window s) s.
Proof.
  intros Hs Hoff Hn Hle. pose proof (adapter_sizes s Hs) as (Hw & ? & ? & Hv).
  pose proof Hs as (Hd & ? & ? & ?). pose proof SIZE_MAX_lower.
  unfold read. apply wp_bind, wp_assert; [apply Z.ltb_lt; lia|]. apply wp_get_st.
  rewrite size_t_id, gtb_false by lia. apply wp_bind, wp_on_driver. rewrite size_t_id by lia.
  eapply wp_mono; [apply nv_read_ok; [done|lia..]|]. intros r d (-> & Hd' & Hv'). apply wp_ret.
  unfold window. cbn. rewrite Hv', slice_slice by lia. split_and!; [f_equal; lia| |done].
  apply adapter_inv_driver; [done..|]. by rewrite Hv'.
Qed.

Lemma nva_write_beyond s off bs :
  adapter_inv s → 0 <= off <= 2 ^ 31 → bs ≠ [] → Z.of_nat (length bs) < 2 ^ 31 →
  m_regionLength s < off + Z.of_nat (length bs) →
  wp (write off bs) (λ r s', r = false ∧ s' = s) s.
Proof.
  intros Hs Hoff Hne Hlen Hgt. pose proof SIZE_MAX_lower. assert (length bs ≠ 0%nat) by (by destruct bs).
  unfold write. apply wp_bind, wp_assert; [apply Z.ltb_lt; lia|]. apply wp_get_st.
  by rewrite size_t_id, gtb_true by lia.
Qed.

Lemma nva_read_beyond s off n :
  adapter_inv s → 0 <= off <= 2 ^ 31 → 0 < n < 2 ^ 31 → m_regionLength s < off + n →
  wp (read off n) (λ bs s', bs = [] ∧ s' = s) s.
Proof.
  intros Hs Hoff Hn Hgt. pose proof SIZE_MAX_lower.
  unfold read. apply wp_bind, wp_assert; [apply Z.ltb_lt; lia|]. apply wp_get_st.
  by rewrite size_t_id, gtb_true by lia.
Qed.

#[global] Program Instance NVAdapterOk : RegionMediaOk (NVAdapter.NVAdapter D) := {
  rm_inv := adapter_inv;
  rm_view := window
}.
Next Obligation. intros s Hs. destruct (adapter_sizes s Hs) as (? & ? & _). destruct Hs as (_ & _ & ? & _). cbn. lia. Qed.
Next Obligation.
  intros s off bs Hi Ho Hb Hl. eapply wp_mono; [by apply nva_write_ok|]. naive_solver.
Qed.
Next Obligation. intros s off bs Hi Ho Hb Hl Hg. by apply nva_write_beyond. Qed.
Next Obligation. intros s off n Hi Ho Hb Hl. by apply nva_read_ok. Qed.
Next Obligation. intros s off n Hi Ho Hb Hl. by apply nva_read_beyond. Qed.
End proofs.
End NVAdapterProofs.

(** ** Programs on a driver *)

Inductive nv_op := NvWrite (off : Z) (bs : list Z) | NvRead (off n : Z).
Inductive nv_res := NvBool (r : bool) | NvBytes (r : option (list Z)).

Definition run_nv_op {D} `{NvApi D} (o : nv_op) : ST D nv_res :=
  match o with
  | NvWrite off bs => r ← nv_write off bs; ret (NvBool r)
  | NvRead off n => r ← nv_read off n; ret (NvBytes r)
  end.

Fixpoint run_nv {D} `{NvApi D} (os : list nv_op) : ST D (list nv_res) :=
  match os with
  | [] => ret []
  | o :: os => r ← run_nv_op o; rs ← run_nv os; ret (r :: rs)
  end.

(** The same on a plain array of bytes. *)
Definition flat_nv_op (o : nv_op) (v : list Z) : list Z * nv_res :=
  match o with
  | NvWrite off bs => (splice (Z.to_nat off) bs v, NvBool true)
  | NvRead off n => (v, NvBytes (Some (slice (Z.to_nat off) (Z.to_nat n) v)))
  end.

Fixpoint flat_nv (os : list nv_op) (v : list Z) : list Z * list nv_res :=
  match os with
  | [] => (v, [])
  | o :: os => let '(v1, r) := flat_nv_op o v in let '(v2, rs) := flat_nv os v1 in (v2, r :: rs)
  end.

Definition nv_op_in (total : Z) (o : nv_op) : Prop :=
  match o with
  | NvWrite off bs => 0 <= off ∧ bs ≠ [] ∧ off + Z.of_nat (length bs) <= total
  | NvRead off n => 0 <= off ∧ 0 < n ∧ off + n <= total
  end.

#[global] Instance nv_op_in_dec total o : Decision (nv_op_in total o).
Proof. destruct o; cbn; apply _. Defined.

Section programs.
Context `{Platform} {D : Type} `{!NvApi D, !NvApiOk D}.

Lemma run_nv_op_flat d o :
  nv_inv d → nv_op_in (nv_getTotalSize d) o →
  wp (run_nv_op o) (λ r d', nv_inv d' ∧ flat_nv_op o (nv_view d) = (nv_view d', r) ∧
    nv_getTotalSize d' = nv_getTotalSize d) d.
Proof.
  intros Hd Ho. destruct (nv_size d (or_introl Hd)) as [Hs _].
  destruct o as [off bs|off n]; cbn in Ho |- *; destruct Ho as (? & ? & ?); apply wp_bind.
  - eapply wp_mono; [by apply nv_write_ok|]. intros r d' (-> & Hd' & Hv). apply wp_ret.
    destruct (nv_size d' (or_introl Hd')) as [Hs' _]. split_and!; [done|by rewrite Hv|].
    rewrite Hs', Hv, length_splice; lia.
  - eapply wp_mono; [by apply nv_read_ok|]. intros r d' (-> & Hd' & Hv). apply wp_ret.
    destruct (nv_size d' (or_introl Hd')) as [Hs' _]. split_and!; [done|by rewrite Hv|].
    by rewrite Hs', Hv.
Qed.

Lemma run_nv_flat os d :
  nv_inv d → Forall (nv_op_in (nv_getTotalSize d)) os →
  wp (run_nv os) (λ rs d', nv_inv d' ∧ flat_nv os (nv_view d) = (nv_view d', rs)) d.
Proof.
  revert d. induction os as [|o os IH]; intros d Hd Hos; cbn [run_nv flat_nv].
  { by apply wp_ret. }
  apply Forall_cons in Hos as [Ho Hos]. apply wp_bind.
  eapply wp_mono; [by apply run_nv_op_flat|]. intros r d1 (Hd1 & Hf & Hs). rewrite Hf.
  apply wp_bind. eapply wp_mono; [apply IH; [done|by rewrite Hs]|]. intros rs d2 [Hd2 Hf2].
  apply wp_ret. by rewrite Hf2.
Qed.

Lemma start_run_nv_flat os d :
  nv_ready d → Forall (nv_op_in (nv_getTotalSize d)) os →
  wp (nv_start;; run_nv os) (λ rs d', nv_inv d' ∧ flat_nv os (nv_view d) = (nv_view d', rs)) d.
Proof.
  intros Hd Hos. apply wp_bind. eapply wp_mono; [by apply nv_start_ok|].
  intros r d' (-> & Hd' & Hv). rewrite <-Hv. apply run_nv_flat; [done|].
  destruct (nv_size d (or_intror Hd)) as [Hs _], (nv_size d' (or_introl Hd')) as [Hs' _].
  by rewrite Hs', Hv, <-Hs.
Qed.
End programs.

(** ** A device that follows the data sheet *)

Record chip := Chip { chip_mem : list Z; chip_addr : Z; chip_busy : Z }.

#[global] Instance chip_bus : I2cEeprom chip := {
  writeToDevice _ msg c :=
    if decide (chip_busy c = 0) then
      match msg with
      | [hi; lo] => Some (eSUCCESS, Chip (chip_mem c) (hi * 256 + lo) 0)
      | hi :: lo :: bs =>
          Some (eSUCCESS, Chip (splice (Z.to_nat (hi * 256 + lo)) bs (chip_mem c)) (chip_addr c) 5)
      | _ => Some (eERROR, c)
      end
    else Some (eNO_ACK, c);
  readFromDevice _ n c :=
    if decide (chip_busy c = 0)
    then Some ((eSUCCESS, slice (Z.to_nat (chip_addr c)) (Z.to_nat n) (chip_mem c)), c)
    else Some ((eNO_ACK, []), c);
  sleep ms c := Some (tt, Chip (chip_mem c) (chip_addr c) (Z.max 0 (chip_busy c - ms)))
}.

Lemma hi_lo off : off / 256 * 256 + off mod 256 = off.
Proof. lia. Qed.

#[global] Program Instance chip_ok : I2cEepromOk chip := {
  ee_inv c := Z.of_nat (length (chip_mem c)) = 65536 ∧ 0 <= chip_busy c <= 5;
  ee_mem := chip_mem;
  ee_addr := chip_addr;
  ee_busy := chip_busy
}.
Next Obligation. naive_solver. Qed.
Next Obligation. naive_solver. Qed.
Next Obligation. intros c ms [? ?] ?. unfold wp. cbn. split_and!; [done|lia|lia|done..]. Qed.
Next Obligation. intros c dev msg _ ?. unfold wp. cbn. by rewrite decide_False by lia. Qed.
Next Obligation.
  intros c dev off [? ?] Hb ?. unfold wp. cbn -[Z.div Z.modulo Z.mul Z.add].
  rewrite decide_True, hi_lo by done. split_and!; done || lia.
Qed.
Next Obligation.
  intros c dev off bs [? ?] Hb ? Hne ?. unfold wp. cbn -[Z.div Z.modulo Z.mul Z.add].
  rewrite decide_True by done. destruct bs as [|b bs]; [done|].
  cbn -[Z.div Z.modulo Z.mul Z.add]. rewrite hi_lo.
  rewrite length_splice by lia. split_and!; done || lia.
Qed.
Next Obligation. intros c dev n ? Hb ? ? ?. unfold wp. cbn. by rewrite decide_True by done. Qed.

#[global] Instance platform32 : Platform := { sizeof_size_t := 4; sizeof_size_t_ok := or_introl eq_refl }.

(** A blank device, erased to 0xFF. *)
Definition chip0 : chip := Chip (replicate (Z.to_nat 65536) 0xFF) 0 0.

(** ** Theorems *)

(** C17. The EEPROM driver is a flat 64 KB array.  After start() on an idle
    device that follows its data sheet, any sequence of in-range reads and
    writes of any length returns what the same sequence returns on an array of
    bytes: writes are cut at page boundaries and retried while the device is in
    a write cycle, no transfer is lost or refused. *)
Theorem eeprom_program_flat `{Platform} {E} `{!I2cEeprom E, !I2cEepromOk E} (e : E) (dev : Z) (os : list nv_op) :
  ee_inv e → ee_busy e = 0 → 0 <= ee_addr e < 65536 → Forall (nv_op_in 65536) os →
  wp (Cat24C512.start;; run_nv os)
    (λ rs s, flat_nv os (ee_mem e) = (ee_mem (Cat24C512.m_i2cDriver s), rs))
    (Cat24C512.MkApi e dev false).
Proof.
  intros Hi Hb Ha Hos.
  pose proof (start_run_nv_flat (D := Cat24C512.Api E) os (Cat24C512.MkApi e dev false)
    (conj eq_refl (conj Hi (conj Hb Ha))) Hos) as Hrun.
  eapply wp_mono; [exact Hrun|]. by intros rs s [_ Hf].
Qed.

Definition demo_ops : list nv_op :=
  [NvWrite 120 (replicate 20 7); NvWrite 127 [1; 2]; NvRead 126 4; NvRead 139 2].

Lemma eeprom_program_flat_witness :
  wp (Cat24C512.start;; run_nv demo_ops)
    (λ rs s, flat_nv demo_ops (ee_mem chip0) = (ee_mem (Cat24C512.m_i2cDriver s), rs))
    (Cat24C512.MkApi chip0 0x50 false)
  ∧ (flat_nv demo_ops (ee_mem chip0)).2
    = [NvBool true; NvBool true; NvBytes (Some [7; 1; 2; 7]); NvBytes (Some [7; 0xFF])].
Proof.
  split.
  - apply eeprom_program_flat.
    + split; [vm_compute; reflexivity|cbn; lia].
    + reflexivity.
    + cbn. lia.
    + apply (bool_decide_unpack _). vm_compute. reflexivity.
  - vm_compute. reflexivity.
Defined.

(** C18. A gang of drivers is one flat address space.  For any drivers that
    keep the driver contract, a Gang built over them and started serves any
    sequence of in-range reads and writes as an array that is the concatenation
    of the drivers' arrays, including transfers that span two or more drivers. *)
Theorem gang_program_flat `{Platform} {D} `{!NvApi D, !NvApiOk D} (ds : list D) (os : list nv_op) :
  Forall nv_ready ds → 0 < GangProofs.total ds <= 2 ^ 31 →
  Forall (nv_op_in (GangProofs.total ds)) os →
  wp (Gang.start;; run_nv os)
    (λ rs g, flat_nv os (concat (nv_view <$> ds)) = (concat (nv_view <$> Gang.m_drivers g), rs))
    (Gang.Gang_new ds).
Proof.
  intros Hds Hr Hos. pose proof (GangProofs.Gang_new_ready ds Hds Hr) as Hg.
  assert (Gang.m_drivers (Gang.Gang_new ds) = ds) as Hm.
  { unfold Gang.Gang_new. by destruct (negb _ && negb _). }
  pose proof Hg as (_ & _ & Ht & _). rewrite Hm in Ht.
  rewrite <-Ht in Hos.
  pose proof (start_run_nv_flat (D := Gang.Gang D) os (Gang.Gang_new ds) Hg Hos) as Hrun.
  eapply wp_mono; [exact Hrun|]. intros rs g [_ Hf]. cbn in Hf. by rewrite Hm in Hf.
Qed.

Definition two_chips : list (Cat24C512.Api chip) :=
  [Cat24C512.MkApi chip0 0x50 false; Cat24C512.MkApi chip0 0x51 false].

Definition gang_ops : list nv_op :=
  [NvWrite 65530 [1; 2; 3; 4; 5; 6; 7; 8; 9]; NvRead 65534 4; NvRead 131070 2].

Lemma gang_program_flat_witness :
  wp (Gang.start;; run_nv gang_ops)
    (λ rs g, flat_nv gang_ops (concat (nv_view <$> two_chips)) = (concat (nv_view <$> Gang.m_drivers g), rs))
    (Gang.Gang_new two_chips)
  ∧ (flat_nv gang_ops (concat (nv_view <$> two_chips))).2
    = [NvBool true; NvBytes (Some [5; 6; 7; 8]); NvBytes (Some [0xFF; 0xFF])].
Proof.
  assert (GangProofs.total two_chips = 131072) as Ht by (vm_compute; reflexivity).
  split.
  - apply gang_program_flat.
    + repeat constructor; vm_compute; congruence.
    + rewrite Ht. lia.
    + rewrite Ht. apply (bool_decide_unpack _). vm_compute. reflexivity.
  - vm_compute. reflexivity.
Defined.


Definition region0 : NVAdapter.NVAdapter (Cat24C512.Api chip) :=
  NVAdapter.MkAdapter (Cat24C512.MkApi chip0 0x50 true) 1000 64.

