(* ===== verification/Chunk.v ===== *)
(** * Chunks: CRC protected storage of a record

    Models src/src/Cpl/Persistent/CrcChunk.cpp and MirroredChunk.cpp over any
    RegionMedia.  A chunk frames the bytes of a Payload with a length and a
    CRC-32 (and, mirrored, with a transaction id, in two regions).  All chunks
    share one work buffer, [g_workBuffer_] (Private_.h), which is part of the
    state.

    A Payload (Payload.h) is its getData(), as a function from the space it is
    offered to the bytes it copies ([[]] when it refuses), and its putData(), a
    state transformer of the record behind it. *)

From Stdlib Require Import ZArith Lia.
From S2P Require Import Prelude Checksum Media.
Local Open Scope Z_scope.
Local Open Scope pim_scope.

(** OPTION_CPL_PERSISTENT_WORK_BUFFER_SIZE, sizeof( g_workBuffer_ ). *)
Definition WORK_BUFFER_SIZE : Z := 1024.

Definition CRC_SIZE : Z := 4.

Definition zeros : list Z := replicate (Z.to_nat WORK_BUFFER_SIZE) 0.

(** The read loop of loadData() and getTransactionId(): [dstPtr] is never
    advanced, every read lands at the start of the work buffer.  Yields the CRC
    register and the work buffer. *)
Section read_loop.
Context `{Platform} {M : Type} `{RegionMedia M}.

Fixpoint read_loop (fuel : nat) (offset dataRemaining : Z) (crc : Z) (work : list Z) : ST M (Z * list Z) :=
  if dataRemaining =? 0 then ret (crc, work)
  else
    match fuel with
    | O => undefined
    | S fuel =>
        bs ← rm_read offset dataRemaining;
        let bytesRead := Z.of_nat (length bs) in
        assert_ (bytesRead <=? dataRemaining);;
        let work := splice 0 bs work in
        if bytesRead =? 0 then ret (crc, work)
        else
          read_loop fuel (size_t (offset + bytesRead)) (size_t (dataRemaining - bytesRead))
            (Crc32.accumulate crc (take (length bs) work)) work
    end.
End read_loop.

(** ** CrcChunk.cpp *)
Module CrcChunk.
Section chunk.
Context `{Platform} {M : Type} `{RegionMedia M}.

Record CrcChunk := MkCrcChunk {
  m_region : M;
  m_dataLen : Z;
  g_workBuffer_ : list Z
}.

Definition on_region {A} (m : ST M A) : ST CrcChunk A :=
  λ s, match m (m_region s) with
       | Some (a, r) => Some (a, MkCrcChunk r (m_dataLen s) (g_workBuffer_ s))
       | None => None
       end.
Definition set_dataLen (n : Z) (s : CrcChunk) : CrcChunk :=
  MkCrcChunk (m_region s) n (g_workBuffer_ s).
Definition set_work (w : list Z) (s : CrcChunk) : CrcChunk :=
  MkCrcChunk (m_region s) (m_dataLen s) w.

Definition FRAME_OVERHEAD : Z := Z.of_nat sizeof_size_t + CRC_SIZE.

Definition start : ST CrcChunk unit :=
  on_region rm_start;;
  s ← get_st;
  modify (set_dataLen (size_t (rm_getRegionLength (m_region s) - FRAME_OVERHEAD))).

Definition stop : ST CrcChunk unit := on_region rm_stop.

Definition pushToRecord {P} (putData : list Z → P → bool * P) (p : P) : ST CrcChunk (bool * P) :=
  s ← get_st;
  ret (putData (take (Z.to_nat (m_dataLen s)) (g_workBuffer_ s)) p).

(** getData() copies into the work buffer, which its bytes must not overrun. *)
Definition pullFromRecord (getData : Z → list Z) : ST CrcChunk Z :=
  s ← get_st;
  let bs := getData (m_dataLen s) in
  assert_ (Z.of_nat (length bs) <=? WORK_BUFFER_SIZE);;
  modify (set_work (splice 0 bs (g_workBuffer_ s)));;
  ret (Z.of_nat (length bs)).

Definition getMetadataLength : Z := FRAME_OVERHEAD.

Definition loadData {P} (putData : list Z → P → bool * P) (p : P) (index : Z) : ST CrcChunk (bool * P) :=
  lenBytes ← on_region (rm_read index (Z.of_nat sizeof_size_t));
  if (length lenBytes =? sizeof_size_t)%nat then
    let datalen := of_le lenBytes in
    let dataRemaining := size_t (datalen + CRC_SIZE) in
    if (dataRemaining <=? WORK_BUFFER_SIZE) && (datalen <? dataRemaining) then
      let crc := Crc32.accumulate Crc32.reset lenBytes in
      s ← get_st;
      r ← on_region (read_loop (Z.to_nat dataRemaining)
            (size_t (index + Z.of_nat sizeof_size_t)) dataRemaining crc (g_workBuffer_ s));
      modify (set_work (snd r));;
      if Crc32.isOkay (fst r) then
        modify (set_dataLen datalen);;
        pushToRecord putData p
      else ret (false, p)
    else ret (false, p)
  else ret (false, p).

(** The CRC bytes, corrupted when the record is being erased. *)
Definition crcBuffer (crc : Z) (invalidate : bool) : list Z :=
  match snd (Crc32.finalize crc) with
  | b :: bs => (if invalidate then Z.lxor b 0xA5 else b) :: bs
  | [] => []
  end.

Definition updateData (getData : Z → list Z) (index : Z) (invalidate : bool) : ST CrcChunk bool :=
  modify (set_work zeros);;
  len ← pullFromRecord getData;
  if len =? 0 then ret false
  else
    (if invalidate then modify (set_work zeros) else ret tt);;
    modify (set_dataLen len);;
    s ← get_st;
    let lenBytes := le_bytes sizeof_size_t (m_dataLen s) in
    let data := take (Z.to_nat (m_dataLen s)) (g_workBuffer_ s) in
    let offset := index in
    r1 ← on_region (rm_write offset lenBytes);
    let crc := Crc32.accumulate Crc32.reset lenBytes in
    let offset := size_t (offset + Z.of_nat sizeof_size_t) in
    r2 ← on_region (rm_write offset data);
    let crc := Crc32.accumulate crc data in
    let offset := size_t (offset + m_dataLen s) in
    r3 ← on_region (rm_write offset (crcBuffer crc invalidate));
    ret (r1 && r2 && r3).
End chunk.
Arguments CrcChunk : clear implicits.
End CrcChunk.

(** ** MirroredChunk.cpp *)
Module MirroredChunk.
Section chunk.
Context `{Platform} {M : Type} `{RegionMedia M}.

(** [m_currentRegion] is null, &m_regionA or &m_regionB. *)
Inductive regionPtr := RegionA | RegionB.

Record MirroredChunk := MkMirrored {
  m_regionA : M;
  m_regionB : M;
  m_currentRegion : option regionPtr;
  m_transId : Z;
  m_dataLen : Z;
  g_workBuffer_ : list Z
}.

Definition region (r : regionPtr) (s : MirroredChunk) : M :=
  match r with RegionA => m_regionA s | RegionB => m_regionB s end.

Definition set_region (r : regionPtr) (m : M) (s : MirroredChunk) : MirroredChunk :=
  match r with
  | RegionA => MkMirrored m (m_regionB s) (m_currentRegion s) (m_transId s) (m_dataLen s) (g_workBuffer_ s)
  | RegionB => MkMirrored (m_regionA s) m (m_currentRegion s) (m_transId s) (m_dataLen s) (g_workBuffer_ s)
  end.

Definition set_current (r : option regionPtr) (t n : Z) (s : MirroredChunk) : MirroredChunk :=
  MkMirrored (m_regionA s) (m_regionB s) r t n (g_workBuffer_ s).

Definition set_work (w : list Z) (s : MirroredChunk) : MirroredChunk :=
  MkMirrored (m_regionA s) (m_regionB s) (m_currentRegion s) (m_transId s) (m_dataLen s) w.

Definition set_dataLen (n : Z) (s : MirroredChunk) : MirroredChunk :=
  set_current (m_currentRegion s) (m_transId s) n s.

Definition on_region {A} (r : regionPtr) (m : ST M A) : ST MirroredChunk A :=
  λ s, match m (region r s) with
       | Some (a, m') => Some (a, set_region r m' s)
       | None => None
       end.

Definition sizeof_uint64 : Z := 8.
Definition FRAME_OVERHEAD : Z := sizeof_uint64 + Z.of_nat sizeof_size_t + CRC_SIZE.

Definition start : ST MirroredChunk unit :=
  s ← get_st;
  assert_ (rm_getRegionLength (m_regionA s) =? rm_getRegionLength (m_regionB s));;
  on_region RegionA rm_start;;
  on_region RegionB rm_start;;
  modify (set_current None 0 0).

Definition stop : ST MirroredChunk unit :=
  on_region RegionA rm_stop;; on_region RegionB rm_stop.

Definition pushToRecord {P} (putData : list Z → P → bool * P) (p : P) : ST MirroredChunk (bool * P) :=
  s ← get_st;
  ret (putData (take (Z.to_nat (m_dataLen s)) (g_workBuffer_ s)) p).

Definition pullFromRecord (getData : Z → list Z) : ST MirroredChunk Z :=
  s ← get_st;
  let bs := getData (m_dataLen s) in
  assert_ (Z.of_nat (length bs) <=? WORK_BUFFER_SIZE);;
  modify (set_work (splice 0 bs (g_workBuffer_ s)));;
  ret (Z.of_nat (length bs)).

Definition getMetadataLength : Z := FRAME_OVERHEAD.

(** Returns the transaction id, zero for a bad frame, and the data length it
    read ([dataLen] is left as it was when the read fails). *)
Definition getTransactionId (r : regionPtr) (dataLen index : Z) : ST MirroredChunk (Z * Z) :=
  idBytes ← on_region r (rm_read index sizeof_uint64);
  if (length idBytes =? 8)%nat then
    let transId := of_le idBytes in
    let crc := Crc32.accumulate Crc32.reset idBytes in
    let offset := size_t (index + sizeof_uint64) in
    lenBytes ← on_region r (rm_read offset (Z.of_nat sizeof_size_t));
    if (length lenBytes =? sizeof_size_t)%nat then
      let dataLen := of_le lenBytes in
      let dataRemaining := size_t (dataLen + CRC_SIZE) in
      if (dataRemaining <=? WORK_BUFFER_SIZE) && (dataLen <? dataRemaining) then
        let crc := Crc32.accumulate crc lenBytes in
        s ← get_st;
        res ← on_region r (read_loop (Z.to_nat dataRemaining)
                (size_t (offset + Z.of_nat sizeof_size_t)) dataRemaining crc (g_workBuffer_ s));
        modify (set_work (snd res));;
        ret (if Crc32.isOkay (fst res) then (transId, dataLen) else (0, dataLen))
      else ret (0, dataLen)
    else ret (0, dataLen)
  else ret (0, dataLen).

(** [uninit]: the value of the uninitialised locals dataLenA and dataLenB. *)
Definition loadData {P} (uninit : Z) (putData : list Z → P → bool * P) (p : P) (index : Z) :
    ST MirroredChunk (bool * P) :=
  ta ← getTransactionId RegionA uninit index;
  tb ← getTransactionId RegionB uninit index;
  let '(transA, dataLenA) := ta in
  let '(transB, dataLenB) := tb in
  res ←
    (if (transA =? 0) && (transB =? 0) then
       s ← get_st;
       modify (set_current (Some RegionA) 0
         (size_t (rm_getRegionLength (m_regionA s) - FRAME_OVERHEAD)));;
       ret (false, p)
     else if transA >? transB then
       modify (set_current (Some RegionA) transA dataLenA);; pushToRecord putData p
     else
       modify (set_current (Some RegionB) transB dataLenB);; pushToRecord putData p);
  s ← get_st;
  assert_ (match m_currentRegion s with
           | Some r => m_dataLen s <=? rm_getRegionLength (region r s)
           | None => false
           end);;
  ret res.

Definition other (r : regionPtr) : regionPtr :=
  match r with RegionA => RegionB | RegionB => RegionA end.

(** One pass of the loop "Write the data twice!". *)
Definition update_pass (index : Z) (invalidate : bool) : ST MirroredChunk bool :=
  s0 ← get_st;
  cur ← lift_opt (m_currentRegion s0);
  let r := other cur in
  modify (set_current (Some r) (u64 (m_transId s0 + 1)) (m_dataLen s0));;
  s ← get_st;
  let idBytes := le_bytes 8 (m_transId s) in
  let lenBytes := le_bytes sizeof_size_t (m_dataLen s) in
  let data := take (Z.to_nat (m_dataLen s)) (g_workBuffer_ s) in
  let offset := index in
  r1 ← on_region r (rm_write offset idBytes);
  let crc := Crc32.accumulate Crc32.reset idBytes in
  let offset := size_t (offset + sizeof_uint64) in
  r2 ← on_region r (rm_write offset lenBytes);
  let crc := Crc32.accumulate crc lenBytes in
  let offset := size_t (offset + Z.of_nat sizeof_size_t) in
  r3 ← on_region r (rm_write offset data);
  let crc := Crc32.accumulate crc data in
  let offset := size_t (offset + m_dataLen s) in
  r4 ← on_region r (rm_write offset (CrcChunk.crcBuffer crc invalidate));
  ret (r1 && r2 && r3 && r4).

Definition updateData (getData : Z → list Z) (index : Z) (invalidate : bool) : ST MirroredChunk bool :=
  s ← get_st;
  assert_ (bool_decide (is_Some (m_currentRegion s)));;
  modify (set_work zeros);;
  len ← pullFromRecord getData;
  if len =? 0 then ret false
  else
    (if invalidate then modify (set_work zeros) else ret tt);;
    modify (set_dataLen len);;
    _ ← update_pass index invalidate;
    update_pass index invalidate.
End chunk.
Arguments MirroredChunk : clear implicits.
End MirroredChunk.
