(* ===== verification/ChunkSpec.v ===== *)
(** * Chunks: round trips, invalidation, corruption, power failure *)

From Stdlib Require Import ZArith Lia.
From S2P Require Import Prelude Checksum Media MediaSpec Chunk.
Local Open Scope Z_scope.
Local Open Scope pim_scope.

Arguments Crc32.accumulate : simpl never.
Arguments le_bytes : simpl never.
Arguments zeros : simpl never.

(** ** CRC-32 of framed data *)

Abbreviation crc_of m := (Crc32.accumulate Crc32.reset m).
Abbreviation crc_bytes m := (snd (Crc32.finalize (crc_of m))).

Lemma crc32_app c m m' : Crc32.accumulate c (m ++ m') = Crc32.accumulate (Crc32.accumulate c m) m'.
Proof. apply fold_left_app. Qed.

Lemma crc_sealed m : Forall is_byte m → Crc32.isOkay (crc_of (m ++ crc_bytes m)) = true.
Proof.
  intros Hm. rewrite crc32_app, crc32_self; [done|]. by apply crc32_range; [apply reset32|].
Qed.

(** A frame that passes stops passing when one byte of it changes. *)
Lemma crc_one_byte m1 m2 b b' :
  Forall is_byte m1 → Forall is_byte m2 → is_byte b → is_byte b' → b ≠ b' →
  Crc32.isOkay (crc_of (m1 ++ b :: m2)) = true → Crc32.isOkay (crc_of (m1 ++ b' :: m2)) = false.
Proof.
  intros H1 H2 Hb Hb' Hne. unfold Crc32.isOkay. rewrite Z.eqb_eq, Z.eqb_neq. intros H0 H0'.
  assert (∀ x, is_byte x → Forall is_byte (m1 ++ x :: m2)) by (intros; apply Forall_app_2; [done|by constructor]).
  rewrite crc32_fold in H0, H0' by (apply reset32 || auto).
  by eapply (fold_one_byte _ 32 poly32 ltac:(lia) table32_ok m1 m2 b b' Crc32.reset); [apply reset32|..|congruence].
Qed.

Lemma xor_A5_byte b : is_byte b → is_byte (Z.lxor b 0xA5) ∧ Z.lxor b 0xA5 ≠ b.
Proof.
  intros Hb. split; [apply xor_byte; [done|unfold is_byte; lia]|]. intros Heq.
  assert (Z.lxor b 0xA5 = Z.lxor b 0) as Hx by (by rewrite Z.lxor_0_r).
  by apply Z_lxor_cancel_l in Hx.
Qed.

Lemma crcBuffer_false m : CrcChunk.crcBuffer (crc_of m) false = crc_bytes m.
Proof. done. Qed.

Lemma crcBuffer_length c i : length (CrcChunk.crcBuffer c i) = 4%nat.
Proof. by destruct i. Qed.

Lemma crcBuffer_bytes c i : Forall is_byte (CrcChunk.crcBuffer c i).
Proof.
  pose proof (crc32_bytes c) as Hb. unfold CrcChunk.crcBuffer.
  destruct (Crc32.finalize c).2 as [|b bs]; [done|]. apply Forall_cons in Hb as [? ?].
  constructor; [|done]. destruct i; [by apply xor_A5_byte|done].
Qed.

Lemma crc_invalidated m :
  Forall is_byte m → Crc32.isOkay (crc_of (m ++ CrcChunk.crcBuffer (crc_of m) true)) = false.
Proof.
  intros Hm. pose proof (crc_sealed m Hm) as Hok. pose proof (crc32_bytes (crc_of m)) as Hb.
  unfold CrcChunk.crcBuffer. destruct (crc_bytes m) as [|b bs] eqn:E; [discriminate E|].
  apply Forall_cons in Hb as [Hb Hbs]. destruct (xor_A5_byte b Hb).
  by eapply (crc_one_byte m bs b).
Qed.

Lemma le_bytes_byte n z : Forall is_byte (le_bytes n z).
Proof. apply le_bytes_range. Qed.

Lemma zeros_byte : Forall is_byte zeros.
Proof. apply Forall_replicate. unfold is_byte. lia. Qed.

Lemma length_zeros : Z.of_nat (length zeros) = WORK_BUFFER_SIZE.
Proof. unfold zeros, WORK_BUFFER_SIZE. rewrite length_replicate. lia. Qed.

Lemma of_le_nonneg bs : Forall is_byte bs → 0 <= of_le bs.
Proof. induction 1 as [|b bs Hb _ IH]; simpl; [done|]. unfold is_byte in Hb. lia. Qed.

Lemma of_le_bound bs : Forall is_byte bs → of_le bs < 2 ^ (8 * Z.of_nat (length bs)).
Proof.
  induction 1 as [|b bs Hb _ IH]; [done|]. cbn [of_le length].
  replace (8 * Z.of_nat (S (length bs))) with (8 + 8 * Z.of_nat (length bs)) by lia.
  rewrite Z.pow_add_r by lia. change (2 ^ 8) with 256. unfold is_byte in Hb. lia.
Qed.

(** No header that only holds an acceptable length passes the CRC by itself. *)
Lemma short_header_bad `{Platform} lb :
  Forall is_byte lb → length lb = sizeof_size_t → of_le lb + CRC_SIZE <= WORK_BUFFER_SIZE →
  Crc32.isOkay (crc_of lb) = false.
Proof.
  intros Hb Hl Hn. pose proof (of_le_nonneg lb Hb) as H0.
  assert (∀ sz : nat, (sz = 4 ∨ sz = 8)%nat →
    forallb (λ n, negb (Crc32.isOkay (crc_of (le_bytes sz (Z.of_nat n))))) (seq 0 1021) = true) as Hall.
  { intros sz [-> | ->]; vm_compute; reflexivity. }
  specialize (Hall _ sizeof_size_t_ok). rewrite forallb_forall in Hall.
  assert (lb = le_bytes sizeof_size_t (of_le lb)) as Heq.
  { rewrite <-Hl. symmetry. by apply le_bytes_of_le. }
  rewrite Heq. apply negb_true_iff. unfold CRC_SIZE, WORK_BUFFER_SIZE in Hn.
  replace (of_le lb) with (Z.of_nat (Z.to_nat (of_le lb))) by lia. apply Hall.
  apply in_seq. lia.
Qed.

(** The guard on a length field, with its check for roll-over, accepts exactly
    the lengths whose data and CRC fit the work buffer. *)
Lemma length_guard `{Platform} n :
  0 <= n <= SIZE_MAX →
  (size_t (n + CRC_SIZE) <=? WORK_BUFFER_SIZE) && (n <? size_t (n + CRC_SIZE))
  = (n + CRC_SIZE <=? WORK_BUFFER_SIZE).
Proof.
  intros Hn. pose proof SIZE_MAX_lower. unfold CRC_SIZE, WORK_BUFFER_SIZE.
  destruct (decide (n + 4 <= SIZE_MAX)) as [Hs|Hs].
  - rewrite size_t_id by lia. destruct (Z.leb_spec (n + 4) 1024); [|done]. apply Z.ltb_lt. lia.
  - replace (n + 4 <=? 1024) with false by (symmetry; apply Z.leb_gt; lia).
    apply andb_false_iff. right. apply Z.ltb_ge. unfold size_t, wrap, SIZE_MAX in *.
    rewrite <-(Z.mod_add _ (-1)), Z.mod_small by lia. lia.
Qed.

Lemma length_field `{Platform} lb :
  Forall is_byte lb → length lb = sizeof_size_t → 0 <= of_le lb <= SIZE_MAX.
Proof.
  intros Hb Hl. split; [by apply of_le_nonneg|]. pose proof (of_le_bound lb Hb) as Hu.
  rewrite Hl in Hu. unfold SIZE_MAX. lia.
Qed.

(** ** The read loop on a working region *)
Section region.
Context `{Platform} {M : Type} `{!RegionMedia M, !RegionMediaOk M}.

Definition fits (m : M) (off n : Z) : bool := off + n <=? rm_getRegionLength m.

(** What the loop brings into the work buffer. *)
Definition raw (m : M) (off n : Z) : list Z :=
  if fits m off n then slice (Z.to_nat off) (Z.to_nat n) (rm_view m) else [].

Lemma read_loop_ok m off n crc work :
  rm_inv m → 0 <= off <= 2 ^ 31 → 0 < n <= WORK_BUFFER_SIZE → Z.of_nat (length work) = WORK_BUFFER_SIZE →
  wp (read_loop (Z.to_nat n) off n crc work) (λ r m',
    r = (Crc32.accumulate crc (raw m off n), splice 0 (raw m off n) work) ∧
    rm_inv m' ∧ rm_view m' = rm_view m) m.
Proof.
  intros Hm Hoff Hn Hwork. destruct (rm_length m Hm) as [Hl Hr]. unfold WORK_BUFFER_SIZE in *.
  pose proof SIZE_MAX_lower.
  destruct (Z.to_nat n) as [|k] eqn:Hk; [lia|]. cbn [read_loop].
  replace (n =? 0) with false by (symmetry; apply Z.eqb_neq; lia). unfold raw, fits.
  apply wp_bind. destruct (Z.leb_spec (off + n) (rm_getRegionLength m)) as [Hle|Hgt].
  - eapply wp_mono; [apply rm_read_ok; [done|lia..]|]. intros bs m' (-> & Hm' & Hv).
    assert (length (slice (Z.to_nat off) (Z.to_nat n) (rm_view m)) = Z.to_nat n) as Hlen
      by (apply length_slice; lia).
    rewrite Hlen. apply wp_bind, wp_assert; [apply Z.leb_le; lia|].
    replace (Z.of_nat (Z.to_nat n) =? 0) with false by (symmetry; apply Z.eqb_neq; lia).
    rewrite size_t_id by lia. rewrite (size_t_id (n - _)) by lia.
    replace (n - Z.of_nat (Z.to_nat n)) with 0 by lia.
    assert (∀ f o c w, read_loop (M := M) f o 0 c w = ret (c, w)) as Hdone by (by intros []).
    rewrite Hdone. apply wp_ret. split_and!; [|done..]. f_equal. f_equal.
    rewrite take_splice_0 by lia. apply take_ge. lia.
  - eapply wp_mono; [apply rm_read_beyond; [done|lia..]|]. intros bs m' [-> ->]. cbn [length].
    apply wp_bind, wp_assert; [apply Z.leb_le; lia|]. apply wp_ret. done.
Qed.

(** Writes one after the other accumulate in one splice: [w] is what was
    written from [off0] on so far. *)
Lemma write_next m0 m off0 w off bs :
  rm_inv m0 → rm_inv m → rm_view m = splice (Z.to_nat off0) w (rm_view m0) →
  0 <= off0 → off = off0 + Z.of_nat (length w) → bs ≠ [] →
  off + Z.of_nat (length bs) <= rm_getRegionLength m0 →
  wp (rm_write off bs) (λ r m', r = true ∧ rm_inv m' ∧
    rm_view m' = splice (Z.to_nat off0) (w ++ bs) (rm_view m0)) m.
Proof.
  intros Hm0 Hm Hv H0 -> Hne Hle. destruct (rm_length _ Hm0) as [Hl0 _], (rm_length _ Hm) as [Hl _].
  rewrite Hv, length_splice in Hl by lia.
  eapply wp_mono; [apply rm_write_ok; [done|lia|done|lia]|]. intros r m' (-> & Hm' & ->).
  split_and!; [done..|]. rewrite Hv, <-splice_splice_app by lia. f_equal. lia.
Qed.
End region.

Lemma nonempty_length {A} (l : list A) n : length l = n → n ≠ 0%nat → l ≠ [].
Proof. intros <- ? ->. done. Qed.

(** ** CrcChunk *)
Module CrcChunkProofs.
Import CrcChunk.
Section proofs.
Context `{Platform} {M : Type} `{!RegionMedia M, !RegionMediaOk M}.

Abbreviation SZ := (Z.of_nat sizeof_size_t).

Record inv (s : CrcChunk M) : Prop := {
  inv_media : rm_inv (m_region s);
  inv_bytes : Forall is_byte (rm_view (m_region s));
  inv_work : Z.of_nat (length (g_workBuffer_ s)) = WORK_BUFFER_SIZE
}.

Lemma inv_mk m n w :
  rm_inv m → Forall is_byte (rm_view m) → Z.of_nat (length w) = WORK_BUFFER_SIZE → inv (MkCrcChunk m n w).
Proof. by constructor. Qed.

Lemma crc_wp_on_region {A} (m : ST M A) Q (s : CrcChunk M) :
  wp m (λ a r, Q a (MkCrcChunk r (m_dataLen s) (g_workBuffer_ s))) (m_region s) → wp (on_region m) Q s.
Proof. unfold wp, on_region. by destruct (m (m_region s)) as [[a r]|]. Qed.

(** The frame of a record. *)
Definition frame (data : list Z) (invalidate : bool) : list Z :=
  let hdr := le_bytes sizeof_size_t (Z.of_nat (length data)) in
  hdr ++ data ++ crcBuffer (crc_of (hdr ++ data)) invalidate.

Lemma crc_length_frame data i : Z.of_nat (length (frame data i)) = FRAME_OVERHEAD + Z.of_nat (length data).
Proof.
  unfold frame, FRAME_OVERHEAD, CRC_SIZE. rewrite !length_app, length_le_bytes, crcBuffer_length. lia.
Qed.

Lemma crc_frame_bytes data i : Forall is_byte data → Forall is_byte (frame data i).
Proof.
  intros. unfold frame. repeat apply Forall_app_2; [apply le_bytes_byte|done|apply crcBuffer_bytes].
Qed.

(** What loadData finds at an index: the record, if the frame is good. *)
Definition stored (v : list Z) (index : Z) : option (list Z) :=
  let hdr := slice (Z.to_nat index) sizeof_size_t v in
  let n := of_le hdr in
  let body := slice (Z.to_nat (index + SZ)) (Z.to_nat (n + CRC_SIZE)) v in
  if (n + CRC_SIZE <=? WORK_BUFFER_SIZE) && (index + SZ + n + CRC_SIZE <=? Z.of_nat (length v)) &&
     Crc32.isOkay (crc_of (hdr ++ body))
  then Some (take (Z.to_nat n) body) else None.

Lemma crc_load_spec {P} (putData : list Z → P → bool * P) p index s :
  inv s → 0 <= index → index + SZ <= rm_getRegionLength (m_region s) →
  wp (loadData putData p index) (λ r s', inv s' ∧ rm_view (m_region s') = rm_view (m_region s) ∧
    match stored (rm_view (m_region s)) index with
    | Some data => r = putData data p ∧ m_dataLen s' = Z.of_nat (length data)
    | None => r = (false, p) ∧ m_dataLen s' = m_dataLen s
    end) s.
Proof.
  intros [Hm Hb Hw] Hi Hle. destruct (rm_length _ Hm) as [Hl Hr]. pose proof SIZE_MAX_lower as HM.
  assert (4 <= SZ <= 8) as Hsz by (destruct sizeof_size_t_ok as [-> | ->]; lia).
  unfold loadData. apply wp_bind, crc_wp_on_region.
  eapply wp_mono; [apply rm_read_ok; [done|lia..]|]. intros lb m1 (-> & Hm1 & Hv1).
  rewrite Nat2Z.id. unfold stored. set (v := rm_view (m_region s)) in *.
  set (hdr := slice (Z.to_nat index) sizeof_size_t v).
  assert (length hdr = sizeof_size_t) as Hlen by (apply length_slice; lia).
  rewrite Hlen, Nat.eqb_refl. set (n := of_le hdr).
  assert (Forall is_byte hdr) as Hhb by by apply Forall_slice.
  assert (0 <= n <= SIZE_MAX) as Hn by by apply length_field.
  rewrite length_guard by done. destruct (Z.leb_spec (n + CRC_SIZE) WORK_BUFFER_SIZE) as [Hn4|Hn4].
  2: { apply wp_ret. cbn. split_and!; [apply inv_mk; cbn; by rewrite ?Hv1|done..]. }
  unfold CRC_SIZE, WORK_BUFFER_SIZE in Hn4. rewrite size_t_id by (unfold CRC_SIZE; lia).
  rewrite size_t_id by lia. apply wp_get_st. cbn [g_workBuffer_]. apply wp_bind, crc_wp_on_region. cbn [m_region].
  eapply wp_mono; [apply read_loop_ok; unfold CRC_SIZE, WORK_BUFFER_SIZE; [done|lia..|done]|].
  intros r m2 (-> & Hm2 & Hv2). cbn [fst snd m_dataLen g_workBuffer_].
  apply wp_bind, wp_modify. cbn [set_work m_region m_dataLen].
  assert (raw m1 (index + SZ) (n + CRC_SIZE) = if index + SZ + n + CRC_SIZE <=? Z.of_nat (length v) then
    slice (Z.to_nat (index + SZ)) (Z.to_nat (n + CRC_SIZE)) v else []) as Hraw.
  { unfold raw, fits. destruct (rm_length _ Hm1) as [-> _]. by rewrite Hv1, Z.add_assoc. }
  rewrite Hraw, <-crc32_app. cbn [andb].
  destruct (Z.leb_spec (index + SZ + n + CRC_SIZE) (Z.of_nat (length v))) as [Hin|Hout]; cbn [andb].
  2: { rewrite app_nil_r, short_header_bad by done. apply wp_ret. cbn. rewrite splice_nil.
       split_and!; [apply inv_mk; cbn; by rewrite ?Hv2, ?Hv1|by rewrite Hv2, Hv1|done..]. }
  set (body := slice _ _ v).
  assert (length body = Z.to_nat (n + CRC_SIZE)) as Hbl by (apply length_slice; lia).
  assert (Z.of_nat (length (splice 0 body (g_workBuffer_ s))) = WORK_BUFFER_SIZE) as Hwl.
  { rewrite length_splice; [done|]. unfold WORK_BUFFER_SIZE, CRC_SIZE in *. lia. }
  destruct (Crc32.isOkay _).
  - apply wp_bind, wp_modify, wp_get_st, wp_ret. cbn. split_and!; [apply inv_mk; cbn; by rewrite ?Hv2, ?Hv1|by rewrite Hv2, Hv1| |].
    + f_equal. apply take_splice_0. unfold CRC_SIZE in *. lia.
    + rewrite length_take, Hbl. unfold CRC_SIZE. lia.
  - apply wp_ret. cbn. split_and!; [apply inv_mk; cbn; by rewrite ?Hv2, ?Hv1|by rewrite Hv2, Hv1|done|done].
Qed.

(** What updateData writes: the record, or zeros when it erases it. *)
Definition written (data : list Z) (invalidate : bool) : list Z :=
  if invalidate then replicate (length data) 0 else data.

Lemma length_written data i : length (written data i) = length data.
Proof. destruct i; [apply length_replicate|done]. Qed.

Lemma written_bytes data i : Forall is_byte data → Forall is_byte (written data i).
Proof. destruct i; [intros _; apply Forall_replicate; unfold is_byte; lia|done]. Qed.

(** The work buffer after pullFromRecord() and the optional memset. *)
Lemma work_written data (i : bool) :
  Z.of_nat (length data) <= WORK_BUFFER_SIZE →
  take (length data) (if i then zeros else splice 0 data zeros) = written data i ∧
  Z.of_nat (length (if i then zeros else splice 0 data zeros)) = WORK_BUFFER_SIZE.
Proof.
  intros Hle. pose proof length_zeros as Hz. destruct i; split; [|done| |].
  - unfold zeros, written. rewrite take_replicate. f_equal. unfold WORK_BUFFER_SIZE in *. lia.
  - rewrite take_splice_0 by done. by apply take_ge.
  - rewrite length_splice; [done|]. lia.
Qed.

Lemma crc_update_spec getData index invalidate s :
  let data := getData (m_dataLen s) in
  inv s → Forall is_byte data → data ≠ [] → Z.of_nat (length data) <= WORK_BUFFER_SIZE →
  0 <= index → index + FRAME_OVERHEAD + Z.of_nat (length data) <= rm_getRegionLength (m_region s) →
  wp (updateData getData index invalidate) (λ r s', r = true ∧ inv s' ∧
    m_dataLen s' = Z.of_nat (length data) ∧
    rm_view (m_region s') =
      splice (Z.to_nat index) (frame (written data invalidate) invalidate) (rm_view (m_region s))) s.
Proof.
  cbn zeta. set (data := getData (m_dataLen s)). intros [Hm Hb Hw] Hdb Hne Hmax Hi Hle.
  destruct (rm_length _ Hm) as [Hl Hr]. pose proof SIZE_MAX_lower as HM.
  assert (4 <= SZ <= 8) as Hsz by (destruct sizeof_size_t_ok as [-> | ->]; lia).
  assert (length data ≠ 0%nat) as Hlen by (by destruct data).
  unfold FRAME_OVERHEAD, CRC_SIZE in Hle.
  unfold updateData. apply wp_bind, wp_modify, wp_bind. unfold pullFromRecord. apply wp_get_st.
  cbn [set_work m_dataLen g_workBuffer_]. fold data. apply wp_bind, wp_assert; [by apply Z.leb_le|].
  apply wp_bind, wp_modify, wp_ret.
  replace (Z.of_nat (length data) =? 0) with false by (symmetry; apply Z.eqb_neq; lia).
  destruct (work_written data invalidate Hmax) as [Htake Hwl].
  set (work := if invalidate then zeros else splice 0 data zeros) in *.
  apply wp_bind.
  assert (∀ (k : CrcChunk M → Prop), k (MkCrcChunk (m_region s) (m_dataLen s) work) →
    wp (if invalidate then modify (set_work zeros) else ret tt) (λ _ s', k s')
      (set_work (splice 0 data zeros) (set_work zeros s))) as Hif.
  { intros k Hk. unfold work in Hk. destruct invalidate; [by apply wp_modify|by apply wp_ret]. }
  apply Hif. clear Hif. apply wp_bind, wp_modify, wp_get_st.
  cbn [set_dataLen m_dataLen g_workBuffer_ m_region]. rewrite Nat2Z.id, Htake.
  set (w := written data invalidate) in *.
  assert (length w = length data) as Hwlen by apply length_written.
  set (hdr := le_bytes sizeof_size_t (Z.of_nat (length data))).
  assert (length hdr = sizeof_size_t) as Hll by apply length_le_bytes.
  apply wp_bind, crc_wp_on_region. cbn [set_dataLen m_region m_dataLen g_workBuffer_].
  eapply wp_mono; [apply (write_next (m_region s) (m_region s) index []); try done|].
  { by rewrite splice_nil. } { cbn. lia. } { apply (nonempty_length _ _ Hll). lia. } { lia. }
  intros r1 m1 (-> & Hm1 & Hv1). cbn [app] in Hv1.
  apply wp_bind, crc_wp_on_region. cbn [m_region m_dataLen g_workBuffer_]. rewrite (size_t_id (index + SZ)) by lia.
  eapply wp_mono; [apply (write_next (m_region s) m1 index hdr); try done|].
  { lia. } { by apply (nonempty_length _ _ Hwlen). } { lia. }
  intros r2 m2 (-> & Hm2 & Hv2).
  apply wp_bind, crc_wp_on_region. cbn [m_region m_dataLen g_workBuffer_].
  rewrite <-crc32_app, size_t_id by lia. set (cb := crcBuffer _ _).
  assert (length cb = 4%nat) as Hcl by apply crcBuffer_length.
  eapply wp_mono; [apply (write_next (m_region s) m2 index (hdr ++ w)); try done|].
  { rewrite length_app. lia. } { lia. }
  intros r3 m3 (-> & Hm3 & Hv3). apply wp_ret. cbn [andb m_region m_dataLen g_workBuffer_].
  assert (rm_view m3 = splice (Z.to_nat index) (frame w invalidate) (rm_view (m_region s))) as Hfin.
  { rewrite Hv3. unfold frame. by rewrite Hwlen, <-app_assoc. }
  split_and!; [done| |done|done]. apply inv_mk; [done| |done].
  rewrite Hfin. apply Forall_splice; [done|]. apply crc_frame_bytes. by apply written_bytes.
Qed.

(** A frame in place is what loadData finds. *)
Lemma frame_splits data i v index :
  0 <= index → index + Z.of_nat (length (frame data i)) <= Z.of_nat (length v) →
  let v' := splice (Z.to_nat index) (frame data i) v in
  slice (Z.to_nat index) sizeof_size_t v' = le_bytes sizeof_size_t (Z.of_nat (length data)) ∧
  slice (Z.to_nat (index + SZ)) (length data + 4) v'
    = data ++ crcBuffer (crc_of (le_bytes sizeof_size_t (Z.of_nat (length data)) ++ data)) i.
Proof.
  intros Hi Hle v'. pose proof (crc_length_frame data i) as Hlf. unfold FRAME_OVERHEAD, CRC_SIZE in Hlf.
  pose proof (slice_splice_same (Z.to_nat index) (frame data i) v ltac:(lia)) as Hs. fold v' in Hs.
  replace (length (frame data i)) with (sizeof_size_t + (length data + 4))%nat in Hs by lia.
  rewrite slice_app in Hs. unfold frame in Hs.
  apply app_inj_1 in Hs as [H1 H2].
  - split; [done|]. rewrite <-H2. f_equal. lia.
  - rewrite length_le_bytes. apply length_slice. unfold v'. rewrite length_splice; lia.
Qed.

Lemma stored_frame data i v index :
  Forall is_byte data → 0 <= index → index + Z.of_nat (length (frame data i)) <= Z.of_nat (length v) →
  Z.of_nat (length data) + CRC_SIZE <= WORK_BUFFER_SIZE →
  stored (splice (Z.to_nat index) (frame data i) v) index = if i then None else Some data.
Proof.
  intros Hb Hi Hle Hmax. pose proof (crc_length_frame data i) as Hlf. unfold FRAME_OVERHEAD, CRC_SIZE in *.
  destruct (frame_splits data i v index Hi Hle) as [H1 H2]. unfold stored.
  pose proof SIZE_MAX_lower. unfold WORK_BUFFER_SIZE in *.
  assert (of_le (le_bytes sizeof_size_t (Z.of_nat (length data))) = Z.of_nat (length data)) as Hn.
  { rewrite of_le_le_bytes. apply size_t_id. lia. }
  rewrite H1, Hn. unfold CRC_SIZE. replace (Z.to_nat (Z.of_nat (length data) + 4)) with (length data + 4)%nat by lia.
  rewrite H2, length_splice by lia.
  replace (_ <=? 1024) with true by (symmetry; apply Z.leb_le; lia).
  replace (_ <=? Z.of_nat (length v)) with true by (symmetry; apply Z.leb_le; lia). cbn [andb].
  rewrite app_assoc. assert (Forall is_byte (le_bytes sizeof_size_t (Z.of_nat (length data)) ++ data)).
  { apply Forall_app_2; [apply le_bytes_byte|done]. }
  destruct i; [by rewrite crc_invalidated|]. rewrite crcBuffer_false, crc_sealed by done.
  by rewrite Nat2Z.id, take_app_length.
Qed.
End proofs.
End CrcChunkProofs.

(** ** MirroredChunk *)
Module MirroredProofs.
Import MirroredChunk.
Section proofs.
Context `{Platform} {M : Type} `{!RegionMedia M, !RegionMediaOk M}.

Abbreviation SZ := (Z.of_nat sizeof_size_t).

Implicit Types s : (MirroredChunk M).

Record inv s : Prop := {
  inv_A : rm_inv (m_regionA s);
  inv_B : rm_inv (m_regionB s);
  inv_same : rm_getRegionLength (m_regionA s) = rm_getRegionLength (m_regionB s);
  inv_bytesA : Forall is_byte (rm_view (m_regionA s));
  inv_bytesB : Forall is_byte (rm_view (m_regionB s));
  inv_work : Z.of_nat (length (g_workBuffer_ s)) = WORK_BUFFER_SIZE
}.

Lemma inv_region r s : inv s → rm_inv (region r s) ∧ Forall is_byte (rm_view (region r s)).
Proof. intros []. by destruct r. Qed.

Lemma inv_length r s : inv s → rm_getRegionLength (region r s) = rm_getRegionLength (m_regionA s).
Proof. intros []. by destruct r. Qed.

(** Replacing one region by one of the same length. *)
Lemma inv_set_region r m s :
  inv s → rm_inv m → Forall is_byte (rm_view m) → length (rm_view m) = length (rm_view (region r s)) →
  inv (set_region r m s).
Proof.
  intros Hs Hm Hb Hl. destruct (inv_region r s Hs) as [Hr _].
  destruct (rm_length _ Hm) as [E1 _], (rm_length _ Hr) as [E2 _].
  destruct Hs. destruct r; constructor; cbn in *; try done; lia.
Qed.

Lemma inv_set_work w s : inv s → Z.of_nat (length w) = WORK_BUFFER_SIZE → inv (set_work w s).
Proof. intros [] ?. by constructor. Qed.

Lemma inv_set_current c t n s : inv s → inv (set_current c t n s).
Proof. intros []. by constructor. Qed.

Lemma mirrored_wp_on_region {A} r (m : ST M A) Q (s : MirroredChunk M) :
  wp m (λ a m', Q a (set_region r m' s)) (region r s) → wp (on_region r m) Q s.
Proof. unfold wp, on_region. by destruct (m (region r s)) as [[a m']|]. Qed.

Lemma region_set r m s : region r (set_region r m s) = m.
Proof. by destruct r. Qed.

Lemma set_region_twice r m m' s : set_region r m (set_region r m' s) = set_region r m s.
Proof. by destruct r. Qed.

(** The frame of a copy. *)
Definition frame (t : Z) (data : list Z) (invalidate : bool) : list Z :=
  let hdr := le_bytes 8 t ++ le_bytes sizeof_size_t (Z.of_nat (length data)) in
  hdr ++ data ++ CrcChunk.crcBuffer (crc_of (hdr ++ data)) invalidate.

Lemma mirrored_length_frame t data i : Z.of_nat (length (frame t data i)) = FRAME_OVERHEAD + Z.of_nat (length data).
Proof.
  unfold frame, FRAME_OVERHEAD, CRC_SIZE, sizeof_uint64.
  rewrite !length_app, !length_le_bytes, crcBuffer_length. lia.
Qed.

Lemma mirrored_frame_bytes t data i : Forall is_byte data → Forall is_byte (frame t data i).
Proof.
  intros. unfold frame. repeat apply Forall_app_2; try apply le_bytes_byte; [done|apply crcBuffer_bytes].
Qed.

(** What getTransactionId finds in a region: the transaction id (zero for a
    bad frame), the length it read and the bytes it left in the work buffer. *)
Definition probe (m : M) (index : Z) : Z * Z * list Z :=
  let v := rm_view m in
  let idb := slice (Z.to_nat index) 8 v in
  let lb := slice (Z.to_nat (index + 8)) sizeof_size_t v in
  let n := of_le lb in
  if n + CRC_SIZE <=? WORK_BUFFER_SIZE then
    let body := raw m (index + 8 + SZ) (n + CRC_SIZE) in
    (if Crc32.isOkay (crc_of (idb ++ lb ++ body)) then of_le idb else 0, n, body)
  else (0, n, []).

Lemma probe_view m m' index :
  rm_inv m → rm_inv m' → rm_view m = rm_view m' → probe m index = probe m' index.
Proof.
  intros Hm Hm' Hv. unfold probe, raw, fits. destruct (rm_length _ Hm) as [-> _], (rm_length _ Hm') as [-> _].
  by rewrite Hv.
Qed.

Lemma probe_body_length m index : rm_inv m → 0 <= index → index + 8 + SZ <= rm_getRegionLength m →
  Forall is_byte (rm_view m) → Z.of_nat (length (snd (probe m index))) <= WORK_BUFFER_SIZE.
Proof.
  intros Hm Hi Hle Hb. destruct (rm_length _ Hm) as [Hl _]. unfold probe.
  set (n := of_le _). assert (0 <= n) by (apply of_le_nonneg; by apply Forall_slice).
  destruct (Z.leb_spec (n + CRC_SIZE) WORK_BUFFER_SIZE); cbn; [|unfold WORK_BUFFER_SIZE; lia].
  unfold raw, fits. destruct (Z.leb_spec (index + 8 + SZ + (n + CRC_SIZE)) (rm_getRegionLength m)).
  - rewrite length_slice; unfold CRC_SIZE, WORK_BUFFER_SIZE in *; lia.
  - cbn. unfold WORK_BUFFER_SIZE. lia.
Qed.

Lemma getTransactionId_spec r uninit index s :
  inv s → 0 <= index → index + 8 + SZ <= rm_getRegionLength (m_regionA s) →
  wp (getTransactionId r uninit index) (λ res s',
    res = fst (probe (region r s) index) ∧
    ∃ m, rm_inv m ∧ rm_view m = rm_view (region r s) ∧
      s' = set_work (splice 0 (snd (probe (region r s) index)) (g_workBuffer_ s)) (set_region r m s)) s.
Proof.
  intros Hs Hi Hle. destruct (inv_region r s Hs) as [Hm Hb]. rewrite <-(inv_length r s Hs) in Hle.
  destruct (rm_length _ Hm) as [Hl Hr]. pose proof SIZE_MAX_lower as HM.
  assert (4 <= SZ <= 8) as Hsz by (destruct sizeof_size_t_ok as [-> | ->]; lia).
  unfold getTransactionId, sizeof_uint64. apply wp_bind, mirrored_wp_on_region.
  eapply wp_mono; [apply rm_read_ok; [done|lia..]|]. intros ib m1 (-> & Hm1 & Hv1).
  change (Z.to_nat 8) with 8%nat. set (v := rm_view (region r s)) in *.
  set (idb := slice (Z.to_nat index) 8 v).
  assert (length idb = 8%nat) as Hidl by (apply length_slice; lia). rewrite Hidl. cbn [Nat.eqb].
  rewrite size_t_id by lia. destruct (rm_length _ Hm1) as [Hl1 _]. rewrite Hv1 in Hl1.
  apply wp_bind, mirrored_wp_on_region. rewrite region_set.
  eapply wp_mono; [apply rm_read_ok; [done|lia..]|]. intros lb m2 (-> & Hm2 & Hv2).
  rewrite set_region_twice, Nat2Z.id, Hv1.
  set (lb := slice (Z.to_nat (index + 8)) sizeof_size_t v).
  assert (length lb = sizeof_size_t) as Hlbl by (apply length_slice; lia).
  rewrite Hlbl, Nat.eqb_refl. unfold probe. fold v idb lb. set (n := of_le lb).
  assert (Forall is_byte lb) as Hlb by by apply Forall_slice.
  assert (0 <= n <= SIZE_MAX) as Hn by by apply length_field.
  assert (∀ w, set_work (g_workBuffer_ s) (set_region r w s) = set_region r w s) as Hsame by (by destruct r, s).
  rewrite length_guard by done. destruct (Z.leb_spec (n + CRC_SIZE) WORK_BUFFER_SIZE) as [Hn4|Hn4].
  2: { apply wp_ret. cbn [fst snd]. split; [done|]. exists m2. split_and!; [done|congruence|].
       by rewrite splice_nil, Hsame. }
  unfold CRC_SIZE, WORK_BUFFER_SIZE in Hn4. rewrite size_t_id by (unfold CRC_SIZE; lia).
  rewrite size_t_id by lia. apply wp_get_st. apply wp_bind, mirrored_wp_on_region. rewrite region_set.
  assert (g_workBuffer_ (set_region r m2 s) = g_workBuffer_ s) as -> by by destruct r.
  eapply wp_mono; [apply read_loop_ok; unfold CRC_SIZE, WORK_BUFFER_SIZE; [done|lia..|apply Hs]|].
  intros res m3 (-> & Hm3 & Hv3). cbn [fst snd]. rewrite set_region_twice.
  assert (raw m2 (index + 8 + SZ) (n + CRC_SIZE) = raw (region r s) (index + 8 + SZ) (n + CRC_SIZE)) as Hraw.
  { unfold raw, fits. destruct (rm_length _ Hm2) as [-> _]. by rewrite Hv2, Hv1, Hl. }
  apply wp_bind, wp_modify, wp_ret. fold CRC_SIZE. rewrite Hraw, <-!crc32_app, ?app_assoc. split.
  - by destruct (Crc32.isOkay _).
  - exists m3. split_and!; [done|congruence|done].
Qed.

(** The whole of loadData, in terms of what it finds in the two regions: the
    work buffer it hands over holds region B's bytes over region A's. *)
Lemma mirrored_load_spec {P} uninit (putData : list Z → P → bool * P) p index s :
  inv s → 0 <= index → index + FRAME_OVERHEAD <= rm_getRegionLength (m_regionA s) →
  let '(tA, nA, bA) := probe (m_regionA s) index in
  let '(tB, nB, bB) := probe (m_regionB s) index in
  let work := splice 0 bB (splice 0 bA (g_workBuffer_ s)) in
  let '(cur, t, n, r) :=
    if (tA =? 0) && (tB =? 0) then
      (RegionA, 0, rm_getRegionLength (m_regionA s) - FRAME_OVERHEAD, (false, p))
    else if tA >? tB then (RegionA, tA, nA, putData (take (Z.to_nat nA) work) p)
    else (RegionB, tB, nB, putData (take (Z.to_nat nB) work) p) in
  n <= rm_getRegionLength (m_regionA s) →
  wp (loadData uninit putData p index) (λ res s', res = r ∧ inv s' ∧
    rm_view (m_regionA s') = rm_view (m_regionA s) ∧ rm_view (m_regionB s') = rm_view (m_regionB s) ∧
    m_currentRegion s' = Some cur ∧ m_transId s' = t ∧ m_dataLen s' = n) s.
Proof.
  intros Hs Hi Hle. unfold FRAME_OVERHEAD, CRC_SIZE, sizeof_uint64 in Hle.
  assert (index + 8 + SZ <= rm_getRegionLength (m_regionA s)) as Hle' by lia.
  pose proof (inv_A s Hs) as HA. pose proof (inv_B s Hs) as HB. pose proof SIZE_MAX_lower as HM.
  destruct (rm_length _ HA) as [HlA HrA].
  pose proof (probe_body_length _ _ HA Hi Hle' (inv_bytesA s Hs)) as HbA.
  pose proof (probe_body_length _ index HB Hi ltac:(rewrite <-(inv_same s Hs); done) (inv_bytesB s Hs)) as HbB.
  destruct (probe (m_regionA s) index) as [[tA nA] bA] eqn:EA.
  destruct (probe (m_regionB s) index) as [[tB nB] bB] eqn:EB. cbn [snd] in HbA, HbB. cbn zeta.
  pose proof (inv_work s Hs) as Hwork.
  assert (∀ b w : list Z, Z.of_nat (length b) <= WORK_BUFFER_SIZE → Z.of_nat (length w) = WORK_BUFFER_SIZE →
    Z.of_nat (length (splice 0 b w)) = WORK_BUFFER_SIZE) as Hspl.
  { intros b w ? ?. rewrite length_splice; lia. }
  set (workA := splice 0 bA (g_workBuffer_ s)). set (work := splice 0 bB workA).
  match goal with |- match ?c with _ => _ end => destruct c as [[[cur t] n] r] eqn:Ec end. intros Hn.
  unfold loadData. apply wp_bind. eapply wp_mono; [by apply getTransactionId_spec|].
  intros ta s1 (-> & mA & HmA & HvA & ->). cbn [region] in *. rewrite EA. cbn [fst snd]. fold workA.
  set (s1 := set_work workA (set_region RegionA mA s)).
  assert (inv s1) as Hs1.
  { apply inv_set_work; [|by apply Hspl]. apply inv_set_region; [done|done|rewrite HvA; apply Hs|by rewrite HvA]. }
  apply wp_bind. eapply wp_mono; [apply getTransactionId_spec; [done|done|]|].
  { destruct (rm_length _ HmA) as [E _]. cbn. rewrite E, HvA, <-HlA. done. }
  intros tb s2 (-> & mB & HmB & HvB & ->). cbn [region] in *.
  change (m_regionB s1) with (m_regionB s) in *. rewrite EB. cbn [fst snd].
  change (g_workBuffer_ s1) with workA. fold work. set (s2 := set_work work (set_region RegionB mB s1)).
  assert (inv s2) as Hs2.
  { apply inv_set_work; [|by apply Hspl, Hspl]. apply inv_set_region; [done|done|rewrite HvB; apply Hs|by rewrite HvB]. }
  assert (rm_getRegionLength (m_regionA s2) = rm_getRegionLength (m_regionA s)) as HlA2.
  { cbn. destruct (rm_length _ HmA) as [E _]. rewrite E, HvA. done. }
  assert (rm_getRegionLength (m_regionB s2) = rm_getRegionLength (m_regionA s)) as HlB2.
  { rewrite <-(inv_same _ Hs2). done. }
  assert (rm_view (m_regionA s2) = rm_view (m_regionA s)) as HvA2 by done.
  assert (rm_view (m_regionB s2) = rm_view (m_regionB s)) as HvB2 by done.
  destruct ((tA =? 0) && (tB =? 0)); [|destruct (tA >? tB)]; injection Ec as <- <- <- <-; apply wp_bind.
  - apply wp_get_st, wp_bind, wp_modify, wp_ret. rewrite HlA2.
    unfold FRAME_OVERHEAD, CRC_SIZE, sizeof_uint64 in *. rewrite size_t_id by lia.
    apply wp_get_st, wp_bind, wp_assert; [cbn [set_current m_currentRegion m_dataLen region m_regionA]|].
    { apply Z.leb_le. change (rm_getRegionLength mA) with (rm_getRegionLength (m_regionA s2)). lia. }
    apply wp_ret. split_and!; try done. by apply inv_set_current.
  - apply wp_bind, wp_modify, wp_get_st, wp_ret.
    apply wp_get_st, wp_bind, wp_assert; [cbn [set_current m_currentRegion m_dataLen region m_regionA]|].
    { apply Z.leb_le. change (rm_getRegionLength mA) with (rm_getRegionLength (m_regionA s2)). lia. }
    apply wp_ret. split_and!; try done. by apply inv_set_current.
  - apply wp_bind, wp_modify, wp_get_st, wp_ret.
    apply wp_get_st, wp_bind, wp_assert; [cbn [set_current m_currentRegion m_dataLen region m_regionB]|].
    { apply Z.leb_le. change (rm_getRegionLength mB) with (rm_getRegionLength (m_regionB s2)). lia. }
    apply wp_ret. split_and!; try done. by apply inv_set_current.
Qed.

(** A frame in place. *)
Definition holds (m : M) (index t : Z) (data : list Z) (i : bool) : Prop :=
  slice (Z.to_nat index) (length (frame t data i)) (rm_view m) = frame t data i ∧
  0 <= index ∧ index + Z.of_nat (length (frame t data i)) <= Z.of_nat (length (rm_view m)).

Lemma probe_frame m index t data i :
  rm_inv m → holds m index t data i → in_range 64 t → Forall is_byte data →
  Z.of_nat (length data) + CRC_SIZE <= WORK_BUFFER_SIZE →
  ∃ cb, length cb = 4%nat ∧
    probe m index = (if i then 0 else t, Z.of_nat (length data), data ++ cb).
Proof.
  intros Hm (Hs & Hi & Hle) Ht Hb Hmax. destruct (rm_length _ Hm) as [Hl _].
  pose proof (mirrored_length_frame t data i) as Hlf. unfold FRAME_OVERHEAD, CRC_SIZE, sizeof_uint64 in *.
  pose proof SIZE_MAX_lower. unfold WORK_BUFFER_SIZE in *.
  assert (4 <= SZ <= 8) as Hsz by (destruct sizeof_size_t_ok as [-> | ->]; lia).
  replace (length (frame t data i)) with (8 + (sizeof_size_t + (length data + 4)))%nat in Hs by lia.
  rewrite !slice_app in Hs. unfold frame in Hs. cbn zeta in Hs.
  set (lb := le_bytes sizeof_size_t (Z.of_nat (length data))) in *.
  rewrite <-app_assoc in Hs.
  apply app_inj_1 in Hs as [H1 Hs]; [|rewrite length_slice, length_le_bytes; lia].
  apply app_inj_1 in Hs as [H2 H3]; [|unfold lb; rewrite length_slice, length_le_bytes; lia].
  set (cb := CrcChunk.crcBuffer _ i) in *.
  exists cb. split; [apply crcBuffer_length|]. unfold probe.
  replace (Z.to_nat (index + 8)) with (Z.to_nat index + 8)%nat by lia. rewrite H1, H2.
  assert (of_le lb = Z.of_nat (length data)) as Hn.
  { unfold lb. rewrite of_le_le_bytes. apply size_t_id. lia. }
  rewrite Hn. unfold CRC_SIZE, WORK_BUFFER_SIZE. replace (_ <=? 1024) with true by (symmetry; apply Z.leb_le; lia).
  assert (raw m (index + 8 + SZ) (Z.of_nat (length data) + 4) = data ++ cb) as Hraw.
  { unfold raw, fits. rewrite Hl. replace (_ <=? _) with true by (symmetry; apply Z.leb_le; lia).
    rewrite <-H3, <-slice_app. f_equal; lia. }
  rewrite Hraw. do 2 f_equal. rewrite of_le_le_bytes. unfold wrap. rewrite Z.mod_small by done.
  replace (le_bytes 8 t ++ lb ++ data ++ cb) with (((le_bytes 8 t ++ lb) ++ data) ++ cb) by (by rewrite <-!app_assoc).
  assert (Forall is_byte ((le_bytes 8 t ++ lb) ++ data)).
  { repeat apply Forall_app_2; try apply le_bytes_byte. done. }
  unfold cb. destruct i; [by rewrite crc_invalidated|]. by rewrite crcBuffer_false, crc_sealed.
Qed.

Lemma region_other_set r m s : region (other r) (set_region r m s) = region (other r) s.
Proof. by destruct r. Qed.

Lemma other_other r : other (other r) = r.
Proof. by destruct r. Qed.

(** One pass writes one frame, in the region that is not the current one. *)
Lemma update_pass_spec index i w cur s :
  inv s → m_currentRegion s = Some cur → 0 <= m_transId s →
  m_dataLen s = Z.of_nat (length w) → take (length w) (g_workBuffer_ s) = w →
  Forall is_byte w → w ≠ [] → 0 <= index →
  index + FRAME_OVERHEAD + Z.of_nat (length w) <= rm_getRegionLength (m_regionA s) →
  let t := u64 (m_transId s + 1) in
  wp (update_pass index i) (λ b s', b = true ∧ inv s' ∧ m_currentRegion s' = Some (other cur) ∧
    m_transId s' = t ∧ m_dataLen s' = m_dataLen s ∧ g_workBuffer_ s' = g_workBuffer_ s ∧
    region cur s' = region cur s ∧
    rm_getRegionLength (m_regionA s') = rm_getRegionLength (m_regionA s) ∧
    rm_view (region (other cur) s')
      = splice (Z.to_nat index) (frame t w i) (rm_view (region (other cur) s))) s.
Proof.
  intros Hs Hcur Ht Hn Hw Hwb Hne Hi Hle t. set (r := other cur).
  destruct (inv_region r s Hs) as [Hm Hb]. pose proof (inv_length r s Hs) as HlA.
  destruct (rm_length _ Hm) as [Hl Hr]. pose proof SIZE_MAX_lower as HM.
  assert (4 <= SZ <= 8) as Hsz by (destruct sizeof_size_t_ok as [-> | ->]; lia).
  rewrite <-HlA in Hle. unfold FRAME_OVERHEAD, CRC_SIZE, sizeof_uint64 in Hle.
  unfold update_pass, sizeof_uint64. apply wp_get_st. rewrite Hcur. apply wp_bind. eapply wp_lift_opt; [done|].
  fold r t. apply wp_bind, wp_modify, wp_get_st. set (s0 := set_current (Some r) t (m_dataLen s) s).
  assert (m_transId s0 = t ∧ m_dataLen s0 = Z.of_nat (length w) ∧ g_workBuffer_ s0 = g_workBuffer_ s) as (-> & -> & ->) by done.
  assert (region r s0 = region r s) as Hr0 by by destruct r.
  rewrite Nat2Z.id, Hw. set (idb := le_bytes 8 t). set (lb := le_bytes sizeof_size_t (Z.of_nat (length w))).
  assert (length idb = 8%nat) as Hil by apply length_le_bytes.
  assert (length lb = sizeof_size_t) as Hll by apply length_le_bytes.
  apply wp_bind, mirrored_wp_on_region. rewrite Hr0.
  eapply wp_mono; [apply (write_next (region r s) (region r s) index []);
    [done|done|by rewrite splice_nil|done|cbn; lia|apply (nonempty_length _ _ Hil); lia|lia]|].
  intros r1 m1 (-> & Hm1 & Hv1). cbn [app] in Hv1.
  apply wp_bind, mirrored_wp_on_region. rewrite region_set, (size_t_id (index + 8)) by lia.
  eapply wp_mono; [apply (write_next (region r s) m1 index idb);
    [done|done|done|done|lia|apply (nonempty_length _ _ Hll); lia|lia]|].
  intros r2 m2 (-> & Hm2 & Hv2). rewrite set_region_twice.
  apply wp_bind, mirrored_wp_on_region. rewrite region_set, (size_t_id (index + 8 + SZ)) by lia.
  eapply wp_mono; [apply (write_next (region r s) m2 index (idb ++ lb));
    [done|done|done|done|rewrite length_app; lia|done|lia]|].
  intros r3 m3 (-> & Hm3 & Hv3). rewrite set_region_twice.
  apply wp_bind, mirrored_wp_on_region. rewrite region_set, size_t_id by lia.
  rewrite <-!crc32_app, app_assoc. set (cb := CrcChunk.crcBuffer _ _).
  assert (length cb = 4%nat) as Hcl by apply crcBuffer_length.
  eapply wp_mono; [apply (write_next (region r s) m3 index ((idb ++ lb) ++ w));
    [done|done|done|done|rewrite !length_app; lia|apply (nonempty_length _ _ Hcl); lia|lia]|].
  intros r4 m4 (-> & Hm4 & Hv4). rewrite set_region_twice. apply wp_ret. cbn [andb].
  assert (rm_view m4 = splice (Z.to_nat index) (frame t w i) (rm_view (region r s))) as Hfin.
  { rewrite Hv4. unfold frame. by rewrite <-app_assoc. }
  pose proof (mirrored_length_frame t w i) as Hlf. unfold FRAME_OVERHEAD, CRC_SIZE, sizeof_uint64 in Hlf.
  assert (inv (set_region r m4 s0)) as Hinv.
  { apply inv_set_region; [by apply inv_set_current|done| |].
    - rewrite Hfin. apply Forall_splice; [done|by apply mirrored_frame_bytes].
    - rewrite Hr0, Hfin, length_splice; [done|lia]. }
  split_and!; try (by unfold r; destruct cur).
  rewrite <-(inv_length r _ Hinv), region_set. destruct (rm_length _ Hm4) as [-> _].
  rewrite Hfin, length_splice by lia. by rewrite <-Hl.
Qed.

(** updateData: both regions get a frame of the record, the one that was not
    current first, with consecutive transaction ids. *)
Lemma mirrored_update_spec getData index i cur s :
  let data := getData (m_dataLen s) in
  let w := CrcChunkProofs.written data i in
  inv s → m_currentRegion s = Some cur → 0 <= m_transId s → m_transId s + 2 < 2 ^ 64 →
  Forall is_byte data → data ≠ [] → Z.of_nat (length data) <= WORK_BUFFER_SIZE → 0 <= index →
  index + FRAME_OVERHEAD + Z.of_nat (length data) <= rm_getRegionLength (m_regionA s) →
  wp (updateData getData index i) (λ b s', b = true ∧ inv s' ∧ m_currentRegion s' = Some cur ∧
    m_transId s' = m_transId s + 2 ∧ m_dataLen s' = Z.of_nat (length data) ∧
    rm_getRegionLength (m_regionA s') = rm_getRegionLength (m_regionA s) ∧
    rm_view (region (other cur) s') =
      splice (Z.to_nat index) (frame (m_transId s + 1) w i) (rm_view (region (other cur) s)) ∧
    rm_view (region cur s') =
      splice (Z.to_nat index) (frame (m_transId s + 2) w i) (rm_view (region cur s))) s.
Proof.
  cbn zeta. set (data := getData (m_dataLen s)). intros Hs Hcur Ht0 Ht Hdb Hne Hmax Hi Hle.
  assert (length data ≠ 0%nat) as Hlen by (by destruct data).
  destruct (CrcChunkProofs.work_written data i Hmax) as [Htake Hwl].
  set (work := if i then zeros else splice 0 data zeros) in *.
  set (w := CrcChunkProofs.written data i) in *.
  assert (length w = length data) as Hwlen by apply CrcChunkProofs.length_written.
  assert (Forall is_byte w) as Hwb by by apply CrcChunkProofs.written_bytes.
  assert (w ≠ []) as Hwne by by apply (nonempty_length _ _ Hwlen).
  unfold updateData. apply wp_get_st, wp_bind, wp_assert; [by rewrite Hcur|].
  apply wp_bind, wp_modify, wp_bind. unfold pullFromRecord. apply wp_get_st.
  change (m_dataLen (set_work zeros s)) with (m_dataLen s). fold data.
  apply wp_bind, wp_assert; [by apply Z.leb_le|]. apply wp_bind, wp_modify, wp_ret.
  replace (Z.of_nat (length data) =? 0) with false by (symmetry; apply Z.eqb_neq; lia).
  apply wp_bind.
  assert (∀ (k : MirroredChunk M → Prop), k (set_work work s) →
    wp (if i then modify (set_work zeros) else ret tt) (λ _ s', k s')
      (set_work (splice 0 data (g_workBuffer_ (set_work zeros s))) (set_work zeros s))) as Hif.
  { intros k Hk. unfold work in Hk. destruct i; [by apply wp_modify|by apply wp_ret]. }
  apply Hif. clear Hif. apply wp_bind, wp_modify.
  set (s0 := set_dataLen (Z.of_nat (length data)) (set_work work s)).
  assert (inv s0) as Hs0 by (by apply inv_set_current, inv_set_work).
  apply wp_bind. eapply wp_mono; [apply (update_pass_spec index i w cur s0); try done; cbn [s0 set_dataLen m_dataLen]; rewrite ?Hwlen; done|].
  intros b1 s1 (-> & Hs1 & Hcur1 & Ht1 & Hd1 & Hw1 & Hreg1 & Hlen1 & Hv1).
  assert (u64 (m_transId s0 + 1) = m_transId s + 1) as E1 by (unfold wrap; apply Z.mod_small; cbn; lia).
  rewrite E1 in *.
  assert (u64 (m_transId s1 + 1) = m_transId s + 2) as E2 by (rewrite Ht1; unfold wrap; rewrite Z.mod_small; lia).
  eapply wp_mono; [apply (update_pass_spec index i w (other cur) s1); try done|].
  { lia. } { by rewrite Hd1, Hwlen. } { by rewrite Hw1, Hwlen. } { by rewrite Hwlen, Hlen1. }
  intros b2 s2 (-> & Hs2 & Hcur2 & Ht2 & Hd2 & Hw2 & Hreg2 & Hlen2 & Hv2).
  rewrite other_other in *. rewrite E2 in *.
  split; [done|]. split; [done|]. split; [done|]. split; [done|].
  split; [by rewrite Hd2, Hd1|]. split; [by rewrite Hlen2, Hlen1|]. split.
  - rewrite Hreg2, Hv1. by destruct cur.
  - rewrite Hv2, Hreg1. by destruct cur.
Qed.

(** A frame that was just written is in place. *)
Lemma holds_splice m index t data i v :
  rm_view m = splice (Z.to_nat index) (frame t data i) v → 0 <= index →
  index + Z.of_nat (length (frame t data i)) <= Z.of_nat (length v) → holds m index t data i.
Proof.
  intros Hv Hi Hle. unfold holds. rewrite Hv, length_splice by lia. split_and!; [|done..].
  apply slice_splice_same. lia.
Qed.
End proofs.
End MirroredProofs.
