(* ===== verification/ChunkTheorems.v ===== *)
(** * Chunks: the theorems

    What a record stored through a CrcChunk or a MirroredChunk can rely on, and
    three situations in which the code does not deliver it. *)

From Stdlib Require Import ZArith Lia.
From S2P Require Import Prelude Checksum Media MediaSpec Chunk ChunkSpec.
Local Open Scope Z_scope.
Local Open Scope pim_scope.

Abbreviation SZ := (Z.of_nat sizeof_size_t).

(** The conditions under which a record is written: the media and the work
    buffer are in order, the record provides at least one byte, and its frame
    fits the region behind [index]. *)
Section crc.
Context `{Platform} {M : Type} `{!RegionMedia M, !RegionMediaOk M}.

Record can_update (getData : Z → list Z) (index : Z) (s : CrcChunk.CrcChunk M) : Prop := {
  cu_inv : CrcChunkProofs.inv s;
  cu_bytes : Forall is_byte (getData (CrcChunk.m_dataLen s));
  cu_some : getData (CrcChunk.m_dataLen s) ≠ [];
  cu_buffer : Z.of_nat (length (getData (CrcChunk.m_dataLen s))) <= WORK_BUFFER_SIZE;
  cu_index : 0 <= index;
  cu_fits : index + CrcChunk.FRAME_OVERHEAD + Z.of_nat (length (getData (CrcChunk.m_dataLen s)))
            <= rm_getRegionLength (CrcChunk.m_region s)
}.

(** The frame an update leaves lies within the region. *)
Lemma update_fits getData index i s :
  can_update getData index s →
  let fr := CrcChunkProofs.frame (CrcChunkProofs.written (getData (CrcChunk.m_dataLen s)) i) i in
  index + Z.of_nat (length fr) <= Z.of_nat (length (rm_view (CrcChunk.m_region s))) ∧
  SZ <= Z.of_nat (length fr).
Proof.
  intros [] fr. destruct (rm_length _ (CrcChunkProofs.inv_media _ cu_inv0)) as [E _].
  unfold fr. rewrite CrcChunkProofs.crc_length_frame, CrcChunkProofs.length_written.
  unfold CrcChunk.FRAME_OVERHEAD, CRC_SIZE in *. lia.
Qed.

(** updateData() followed by loadData() on the same media, or on any media of
    the same size: the outcome is decided by what is stored there. *)
Lemma update_then_load {P} (putData : list Z → P → bool * P) p getData index i s :
  can_update getData index s →
  let fr := CrcChunkProofs.frame (CrcChunkProofs.written (getData (CrcChunk.m_dataLen s)) i) i in
  let v1 := splice (Z.to_nat index) fr (rm_view (CrcChunk.m_region s)) in
  wp (CrcChunk.updateData getData index i) (λ r s1, r = true ∧
    rm_inv (CrcChunk.m_region s1) ∧ Forall is_byte v1 ∧ rm_view (CrcChunk.m_region s1) = v1 ∧
    ∀ m n w, rm_inv m → Forall is_byte (rm_view m) → length (rm_view m) = length v1 →
    Z.of_nat (length w) = WORK_BUFFER_SIZE →
    wp (CrcChunk.loadData putData p index) (λ r2 s2,
      match CrcChunkProofs.stored (rm_view m) index with
      | Some data => r2 = putData data p ∧ CrcChunk.m_dataLen s2 = Z.of_nat (length data)
      | None => r2 = (false, p)
      end) (CrcChunk.MkCrcChunk m n w)) s.
Proof.
  intros Hu fr v1. destruct (update_fits _ _ i _ Hu) as [Hf Hsz]. fold fr in Hf, Hsz. destruct Hu.
  eapply wp_mono; [by apply CrcChunkProofs.crc_update_spec|].
  intros r s1 (-> & [Hm1 Hb1 _] & _ & Hv1). fold fr v1 in Hv1. rewrite Hv1 in Hb1.
  split_and!; try done. intros m n w Hm Hb Hl Hw. destruct (rm_length _ Hm) as [E _].
  eapply wp_mono; [apply CrcChunkProofs.crc_load_spec; [by apply CrcChunkProofs.inv_mk|done|]|].
  - cbn [CrcChunk.m_region]. rewrite E, Hl. unfold v1. rewrite length_splice; lia.
  - cbn [CrcChunk.m_region]. intros r2 s2 (_ & _ & Hr).
    by destruct (CrcChunkProofs.stored _ _); [|destruct Hr].
Qed.

(** C20. A record survives.  After updateData(), loadData() at the same index,
    by this chunk or by a chunk that was restarted, succeeds and hands exactly
    the record's bytes to the payload. *)
Theorem crc_chunk_roundtrip {P} (putData : list Z → P → bool * P) (p : P) getData index s :
  can_update getData index s →
  let data := getData (CrcChunk.m_dataLen s) in
  Z.of_nat (length data) + CRC_SIZE <= WORK_BUFFER_SIZE →
  wp (CrcChunk.updateData getData index false) (λ r s1, r = true ∧ ∀ n w,
    Z.of_nat (length w) = WORK_BUFFER_SIZE →
    wp (CrcChunk.loadData putData p index) (λ r2 s2,
      r2 = putData data p ∧ CrcChunk.m_dataLen s2 = Z.of_nat (length data))
      (CrcChunk.MkCrcChunk (CrcChunk.m_region s1) n w)) s.
Proof.
  intros Hu data Hmax. eapply wp_mono; [by apply (update_then_load putData p)|].
  intros r s1 (-> & Hm1 & Hb1 & Hv1 & Hload). split; [done|]. intros n w Hw.
  destruct (update_fits _ _ false _ Hu) as [Hf _]. destruct Hu.
  eapply wp_mono; [apply Hload; by rewrite ?Hv1|]. intros r2 s2. rewrite Hv1.
  by rewrite CrcChunkProofs.stored_frame.
Qed.

(** One byte of a stored frame, behind its length field, replaced. *)
Lemma stored_corrupt data v index k b x :
  Forall is_byte data → Forall is_byte v → 0 <= index →
  let fr := CrcChunkProofs.frame data false in
  index + Z.of_nat (length fr) <= Z.of_nat (length v) →
  Z.of_nat (length data) + CRC_SIZE <= WORK_BUFFER_SIZE →
  let v1 := splice (Z.to_nat index) fr v in
  (Z.to_nat index + sizeof_size_t <= k < Z.to_nat index + length fr)%nat →
  is_byte b → v1 !! k = Some x → b ≠ x →
  CrcChunkProofs.stored (<[k := b]> v1) index = None.
Proof.
  intros Hdb Hvb Hi fr Hle Hmax v1 Hk Hb Hx Hne.
  pose proof (CrcChunkProofs.crc_length_frame data false) as Hlf. fold fr in Hlf.
  unfold CrcChunk.FRAME_OVERHEAD, CRC_SIZE in Hlf, Hmax. pose proof SIZE_MAX_lower.
  destruct (CrcChunkProofs.frame_splits data false v index Hi Hle) as [H1 H2]. fold fr v1 in H1, H2.
  unfold CrcChunkProofs.stored.
  assert (slice (Z.to_nat index) sizeof_size_t (<[k := b]> v1) = slice (Z.to_nat index) sizeof_size_t v1) as ->.
  { apply list_eq. intros j. rewrite !lookup_slice. case_decide; [|done]. apply list_lookup_insert_ne. lia. }
  rewrite H1, of_le_le_bytes. fold (size_t (Z.of_nat (length data))).
  unfold WORK_BUFFER_SIZE in Hmax. rewrite size_t_id by lia.
  set (hdr := le_bytes sizeof_size_t (Z.of_nat (length data))) in *. unfold CRC_SIZE.
  replace (Z.to_nat (Z.of_nat (length data) + 4)) with (length data + 4)%nat by lia.
  set (j := (k - (Z.to_nat index + sizeof_size_t))%nat).
  set (body := data ++ CrcChunk.crcBuffer (crc_of (hdr ++ data)) false) in *.
  assert (slice (Z.to_nat (index + SZ)) (length data + 4) (<[k := b]> v1) = <[j := b]> body) as ->.
  { rewrite <-H2. apply list_eq. intros l. rewrite lookup_slice.
    destruct (decide (l = j)) as [->|].
    - assert (j < length data + 4)%nat by (unfold j; lia). rewrite decide_True by done.
      replace (Z.to_nat (index + SZ) + j)%nat with k by (unfold j; lia).
      rewrite !list_lookup_insert_eq; [done|rewrite length_slice by (unfold v1; rewrite length_splice; lia); lia|
        by eapply lookup_lt_Some].
    - rewrite (list_lookup_insert_ne _ j) by done. rewrite lookup_slice. case_decide; [|done].
      apply list_lookup_insert_ne. unfold j in *. lia. }
  assert (body !! j = Some x) as Hjx.
  { rewrite <-H2, lookup_slice, decide_True by (unfold j; lia).
    replace (Z.to_nat (index + SZ) + j)%nat with k by (unfold j; lia). done. }
  assert (Forall is_byte (hdr ++ data)) as Hhd by (apply Forall_app_2; [apply le_bytes_byte|done]).
  assert (Crc32.isOkay (crc_of (hdr ++ body)) = true) as Hok by (unfold body; rewrite app_assoc, crcBuffer_false; by apply crc_sealed).
  assert (Forall is_byte body) as Hbb by (apply Forall_app_2; [done|apply crcBuffer_bytes]).
  rewrite (insert_take_drop body j b) by (by eapply lookup_lt_Some).
  rewrite <-(take_drop_middle body j x Hjx), app_assoc in Hok.
  rewrite app_assoc, (crc_one_byte _ _ x b); [by rewrite andb_false_r|..]; try done.
  - apply Forall_app_2; [apply le_bytes_byte|by apply Forall_take].
  - by apply Forall_drop.
  - eapply Forall_lookup_1 in Hjx; [|done]. done.
Qed.


(** Records of 1021 to 1024 bytes are written but can never be read.
    updateData() accepts any record that fits the work buffer and returns true;
    loadData() then returns false, because the data and its CRC together exceed
    the work buffer. *)
Theorem crc_chunk_oversize_lost {P} (putData : list Z → P → bool * P) (p : P) getData index s :
  can_update getData index s →
  WORK_BUFFER_SIZE < Z.of_nat (length (getData (CrcChunk.m_dataLen s))) + CRC_SIZE →
  wp (CrcChunk.updateData getData index false) (λ r s1, r = true ∧
    wp (CrcChunk.loadData putData p index) (λ r2 _, r2 = (false, p)) s1) s.
Proof.
  intros Hu Hbig. destruct (update_fits _ _ false _ Hu) as [Hf Hsz]. destruct Hu.
  eapply wp_mono; [by apply CrcChunkProofs.crc_update_spec|].
  intros r s1 (-> & Hs1 & _ & Hv1). split; [done|].
  destruct (rm_length _ (CrcChunkProofs.inv_media _ Hs1)) as [E _].
  eapply wp_mono; [apply CrcChunkProofs.crc_load_spec; [done|done|]|].
  - rewrite E, Hv1, length_splice; lia.
  - intros r2 s2 (_ & _ & Hr). rewrite Hv1 in Hr.
    enough (CrcChunkProofs.stored (splice (Z.to_nat index) (CrcChunkProofs.frame
      (CrcChunkProofs.written (getData (CrcChunk.m_dataLen s)) false) false)
      (rm_view (CrcChunk.m_region s))) index = None) as Hn by (rewrite Hn in Hr; by destruct Hr).
    destruct (CrcChunkProofs.frame_splits _ false _ index cu_index0 Hf) as [H1 _].
    unfold CrcChunkProofs.stored. rewrite H1, of_le_le_bytes. unfold CrcChunkProofs.written.
    fold (size_t (Z.of_nat (length (getData (CrcChunk.m_dataLen s))))).
    pose proof SIZE_MAX_lower. unfold WORK_BUFFER_SIZE in *. rewrite size_t_id by lia.
    replace (_ <=? 1024) with false by (symmetry; apply Z.leb_gt; lia). done.
Qed.
End crc.

(** ** Short reads *)

(** A region in memory that returns at most [sr_max] bytes per read, which
    RegionMedia.h allows. *)
Record shortRegion := ShortRegion { sr_mem : list Z; sr_max : nat }.

#[global] Instance shortRegion_media : RegionMedia shortRegion := {
  rm_start := ret tt;
  rm_stop := ret tt;
  rm_write off bs s :=
    if off + Z.of_nat (length bs) <=? Z.of_nat (length (sr_mem s))
    then Some (true, ShortRegion (splice (Z.to_nat off) bs (sr_mem s)) (sr_max s))
    else Some (false, s);
  rm_read off n s :=
    if off + n <=? Z.of_nat (length (sr_mem s))
    then Some (take (sr_max s) (slice (Z.to_nat off) (Z.to_nat n) (sr_mem s)), s)
    else Some ([], s);
  rm_getRegionLength s := Z.of_nat (length (sr_mem s))
}.

(** A payload that keeps what it is given. *)
Definition keep (bs : list Z) (p : list Z) : bool * list Z := (true, bs).

(** Store [data] at offset 0 of a blank 64 byte region, restart, read it back. *)
Definition store_and_load (max : nat) (data : list Z) : option (bool * list Z) :=
  let s := CrcChunk.MkCrcChunk (ShortRegion (replicate 64 0) max) 52 zeros in
  match CrcChunk.updateData (λ _, data) 0 false s with
  | Some (true, s1) =>
      match CrcChunk.loadData keep [] 0 (CrcChunk.MkCrcChunk (CrcChunk.m_region s1) 52 zeros) with
      | Some (r, _) => Some r
      | None => None
      end
  | _ => None
  end.

(** Short reads corrupt the payload.  On a region that returns at most
    eight bytes per read, loadData() of an intact 10 byte record returns true,
    the CRC being right, and hands over other bytes: every read of the loop
    lands at the start of the work buffer.  With reads that return all the
    bytes asked for, the record comes back. *)
Theorem crc_chunk_short_read :
  store_and_load 8 [1; 2; 3; 4; 5; 6; 7; 8; 9; 10] = Some (true, [9; 10; 176; 102; 121; 43; 7; 8; 0; 0]) ∧
  store_and_load 64 [1; 2; 3; 4; 5; 6; 7; 8; 9; 10] = Some (true, [1; 2; 3; 4; 5; 6; 7; 8; 9; 10]).
Proof. split; vm_compute; reflexivity. Qed.

(** ** Mirrored chunks *)
Section mirrored.
Context `{Platform} {M : Type} `{!RegionMedia M, !RegionMediaOk M}.

(** A chunk object over the regions of [s], in any state (for instance newly
    constructed after a restart). *)
Definition restarted (s s' : MirroredChunk.MirroredChunk M) : Prop :=
  MirroredChunk.m_regionA s' = MirroredChunk.m_regionA s ∧
  MirroredChunk.m_regionB s' = MirroredChunk.m_regionB s ∧
  Z.of_nat (length (MirroredChunk.g_workBuffer_ s')) = WORK_BUFFER_SIZE.

Lemma restarted_inv s s' : MirroredProofs.inv s → restarted s s' → MirroredProofs.inv s'.
Proof. intros [] (EA & EB & Hw). constructor; rewrite ?EA, ?EB; done. Qed.

(** Loading when region B holds the newest good copy, or none is newer. *)
Lemma load_picks_B {P} uninit (putData : list Z → P → bool * P) p index t data s :
  MirroredProofs.inv s → MirroredProofs.holds (MirroredChunk.m_regionB s) index t data false →
  in_range 64 t → t ≠ 0 → Forall is_byte data →
  Z.of_nat (length data) + CRC_SIZE <= WORK_BUFFER_SIZE →
  fst (fst (MirroredProofs.probe (MirroredChunk.m_regionA s) index)) <= t →
  wp (MirroredChunk.loadData uninit putData p index) (λ r s', r = putData data p ∧
    MirroredProofs.inv s' ∧ MirroredChunk.m_currentRegion s' = Some MirroredChunk.RegionB ∧
    MirroredChunk.m_transId s' = t ∧ MirroredChunk.m_dataLen s' = Z.of_nat (length data)) s.
Proof.
  intros Hs Hh Ht Ht0 Hb Hmax HA.
  destruct (MirroredProofs.probe_frame _ _ _ _ _ (MirroredProofs.inv_B s Hs) Hh Ht Hb Hmax) as (cb & Hcb & EB).
  destruct Hh as (_ & Hi & Hle). destruct (rm_length _ (MirroredProofs.inv_B s Hs)) as [El _].
  rewrite MirroredProofs.mirrored_length_frame, <-El in Hle. rewrite <-(MirroredProofs.inv_same s Hs) in Hle.
  pose proof (MirroredProofs.mirrored_load_spec uninit putData p index s Hs Hi ltac:(lia)) as Hload.
  rewrite EB in Hload. destruct (MirroredProofs.probe (MirroredChunk.m_regionA s) index) as [[tA nA] bA].
  cbn [fst] in HA.
  replace (t =? 0) with false in Hload by (symmetry; by apply Z.eqb_neq). rewrite andb_false_r in Hload.
  rewrite gtb_false in Hload by done. unfold MirroredChunk.FRAME_OVERHEAD, MirroredChunk.sizeof_uint64 in Hle.
  unfold CRC_SIZE in Hle. specialize (Hload ltac:(lia)).
  eapply wp_mono; [exact Hload|]. intros r s' (-> & Hs' & _ & _ & ? & ? & ?). split_and!; try done.
  f_equal. rewrite Nat2Z.id, take_splice_0 by (rewrite length_app; lia). apply take_app_length.
Qed.

(** Loading when region A holds the newest good copy and region B an older
    good copy of the same record. *)
Lemma load_picks_A {P} uninit (putData : list Z → P → bool * P) p index t t' data s :
  MirroredProofs.inv s → MirroredProofs.holds (MirroredChunk.m_regionA s) index t data false →
  MirroredProofs.holds (MirroredChunk.m_regionB s) index t' data false →
  in_range 64 t → in_range 64 t' → t' < t → Forall is_byte data →
  Z.of_nat (length data) + CRC_SIZE <= WORK_BUFFER_SIZE →
  wp (MirroredChunk.loadData uninit putData p index) (λ r s', r = putData data p ∧
    MirroredProofs.inv s' ∧ MirroredChunk.m_currentRegion s' = Some MirroredChunk.RegionA ∧
    MirroredChunk.m_transId s' = t ∧ MirroredChunk.m_dataLen s' = Z.of_nat (length data)) s.
Proof.
  intros Hs HhA HhB Ht Ht' Hlt Hb Hmax.
  destruct (MirroredProofs.probe_frame _ _ _ _ _ (MirroredProofs.inv_A s Hs) HhA Ht Hb Hmax) as (ca & Hca & EA).
  destruct (MirroredProofs.probe_frame _ _ _ _ _ (MirroredProofs.inv_B s Hs) HhB Ht' Hb Hmax) as (cb & Hcb & EB).
  destruct HhA as (_ & Hi & Hle). destruct (rm_length _ (MirroredProofs.inv_A s Hs)) as [El _].
  rewrite MirroredProofs.mirrored_length_frame, <-El in Hle.
  pose proof (MirroredProofs.mirrored_load_spec uninit putData p index s Hs Hi ltac:(lia)) as Hload.
  rewrite EA, EB in Hload. unfold in_range in Ht'.
  replace (t =? 0) with false in Hload by (symmetry; apply Z.eqb_neq; lia). cbn [andb] in Hload.
  rewrite gtb_true in Hload by done. unfold MirroredChunk.FRAME_OVERHEAD, MirroredChunk.sizeof_uint64 in Hle.
  unfold CRC_SIZE in Hle. specialize (Hload ltac:(lia)).
  eapply wp_mono; [exact Hload|]. intros r s' (-> & Hs' & _ & _ & ? & ? & ?). split_and!; try done.
  f_equal. rewrite Nat2Z.id, take_splice_0 by (rewrite length_app; lia). apply take_app_length.
Qed.

(** Loading when neither region holds a good copy. *)
Lemma load_none {P} uninit (putData : list Z → P → bool * P) p index s :
  MirroredProofs.inv s → 0 <= index →
  index + MirroredChunk.FRAME_OVERHEAD <= rm_getRegionLength (MirroredChunk.m_regionA s) →
  fst (fst (MirroredProofs.probe (MirroredChunk.m_regionA s) index)) = 0 →
  fst (fst (MirroredProofs.probe (MirroredChunk.m_regionB s) index)) = 0 →
  wp (MirroredChunk.loadData uninit putData p index) (λ r s', r = (false, p) ∧
    MirroredProofs.inv s' ∧ MirroredChunk.m_currentRegion s' = Some MirroredChunk.RegionA ∧
    MirroredChunk.m_transId s' = 0) s.
Proof.
  intros Hs Hi Hle HA HB. pose proof (MirroredProofs.mirrored_load_spec uninit putData p index s Hs Hi Hle) as Hload.
  destruct (MirroredProofs.probe (MirroredChunk.m_regionA s) index) as [[tA nA] bA].
  destruct (MirroredProofs.probe (MirroredChunk.m_regionB s) index) as [[tB nB] bB].
  cbn [fst] in HA, HB. subst. cbn [Z.eqb andb] in Hload.
  specialize (Hload ltac:(unfold MirroredChunk.FRAME_OVERHEAD, MirroredChunk.sizeof_uint64, CRC_SIZE; lia)).
  eapply wp_mono; [exact Hload|]. naive_solver.
Qed.

Record can_update_m (getData : Z → list Z) (index : Z) (cur : MirroredChunk.regionPtr)
    (s : MirroredChunk.MirroredChunk M) : Prop := {
  cm_inv : MirroredProofs.inv s;
  cm_current : MirroredChunk.m_currentRegion s = Some cur;
  cm_trans : 0 <= MirroredChunk.m_transId s ∧ MirroredChunk.m_transId s + 2 < 2 ^ 64;
  cm_bytes : Forall is_byte (getData (MirroredChunk.m_dataLen s));
  cm_some : getData (MirroredChunk.m_dataLen s) ≠ [];
  cm_size : Z.of_nat (length (getData (MirroredChunk.m_dataLen s))) + CRC_SIZE <= WORK_BUFFER_SIZE;
  cm_index : 0 <= index;
  cm_fits : index + MirroredChunk.FRAME_OVERHEAD + Z.of_nat (length (getData (MirroredChunk.m_dataLen s)))
            <= rm_getRegionLength (MirroredChunk.m_regionA s)
}.

(** After an update both regions hold a frame. *)
Lemma update_holds getData index i cur s :
  can_update_m getData index cur s →
  let w := CrcChunkProofs.written (getData (MirroredChunk.m_dataLen s)) i in
  wp (MirroredChunk.updateData getData index i) (λ r s1, r = true ∧ MirroredProofs.inv s1 ∧
    rm_getRegionLength (MirroredChunk.m_regionA s1) = rm_getRegionLength (MirroredChunk.m_regionA s) ∧
    MirroredProofs.holds (MirroredChunk.region (MirroredChunk.other cur) s1) index (MirroredChunk.m_transId s + 1) w i ∧
    MirroredProofs.holds (MirroredChunk.region cur s1) index (MirroredChunk.m_transId s + 2) w i) s.
Proof.
  intros [] w. destruct cm_trans0. unfold CRC_SIZE in cm_size0.
  eapply wp_mono; [apply (MirroredProofs.mirrored_update_spec getData index i cur s); try done; lia|].
  intros r s1 (-> & Hs1 & _ & _ & _ & Hl & Hvo & Hvc). split_and!; try done.
  all: eapply MirroredProofs.holds_splice; [done|done|].
  all: rewrite MirroredProofs.mirrored_length_frame; unfold w; rewrite CrcChunkProofs.length_written.
  all: match goal with |- _ <= Z.of_nat (length (rm_view ?m)) =>
    destruct (rm_length m) as [<- _] end; [by apply MirroredProofs.inv_region|].
  all: rewrite MirroredProofs.inv_length by done; lia.
Qed.

(** C22. A mirrored record survives, and an erased one is gone.  After
    updateData(), loadData() by this chunk or by a restarted one hands exactly
    the record's bytes to the payload and continues with the second of the two
    transaction ids the update used; after updateData() with [invalidate] it
    returns false and hands over nothing. *)
Theorem mirrored_roundtrip {P} uninit (putData : list Z → P → bool * P) (p : P) getData index cur i s :
  can_update_m getData index cur s →
  let data := getData (MirroredChunk.m_dataLen s) in
  wp (MirroredChunk.updateData getData index i) (λ r s1, r = true ∧ ∀ s2, restarted s1 s2 →
    wp (MirroredChunk.loadData uninit putData p index) (λ r2 s3,
      if i then r2 = (false, p) ∧ MirroredChunk.m_transId s3 = 0
      else r2 = putData data p ∧ MirroredChunk.m_transId s3 = MirroredChunk.m_transId s + 2 ∧
           MirroredChunk.m_currentRegion s3 = Some cur) s2) s.
Proof.
  intros Hu data. eapply wp_mono; [by apply update_holds|]. destruct Hu. destruct cm_trans0.
  intros r s1 (-> & Hs1 & Hl & Ho & Hc). split; [done|]. intros s2 Hr.
  pose proof (restarted_inv _ _ Hs1 Hr) as Hs2. destruct Hr as (EA & EB & _).
  assert (∀ r, MirroredChunk.region r s1 = MirroredChunk.region r s2) as Er by (by intros []; cbn).
  rewrite !Er in *. fold data in Ho, Hc, cm_size0, cm_bytes0.
  assert (in_range 64 (MirroredChunk.m_transId s + 1) ∧ in_range 64 (MirroredChunk.m_transId s + 2)) as [R1 R2]
    by (unfold in_range; lia).
  pose proof (CrcChunkProofs.written_bytes data i cm_bytes0) as Hwb.
  assert (Z.of_nat (length (CrcChunkProofs.written data i)) + CRC_SIZE <= WORK_BUFFER_SIZE) as Hws
    by (by rewrite CrcChunkProofs.length_written).
  destruct i.
  - assert (∀ r, fst (fst (MirroredProofs.probe (MirroredChunk.region r s2) index)) = 0) as Hzero.
    { assert (∀ r t, in_range 64 t → MirroredProofs.holds (MirroredChunk.region r s2) index t (CrcChunkProofs.written data true) true →
        fst (fst (MirroredProofs.probe (MirroredChunk.region r s2) index)) = 0) as Hz.
      { intros r t Ht Hh. destruct (MirroredProofs.probe_frame _ _ _ _ _ (proj1 (MirroredProofs.inv_region r s2 Hs2)) Hh Ht Hwb Hws)
          as (cb & _ & ->). done. }
      intros r. destruct cur, r; cbn in Ho, Hc; eauto using Hz. }
    eapply wp_mono; [apply load_none; [done|done| |exact (Hzero MirroredChunk.RegionA)|exact (Hzero MirroredChunk.RegionB)]|].
    + rewrite EA, Hl. lia.
    + naive_solver.
  - cbn [CrcChunkProofs.written] in *. destruct cur; cbn [MirroredChunk.other MirroredChunk.region] in Ho, Hc.
    + eapply wp_mono; [eapply load_picks_A; try done; lia|]. naive_solver.
    + eapply wp_mono; [eapply load_picks_B; try done; [lia|]|naive_solver].
      destruct (MirroredProofs.probe_frame _ _ _ _ _ (MirroredProofs.inv_A s2 Hs2) Ho R1 Hwb Hws) as (cb & _ & ->).
      cbn. lia.
Qed.

(** Power failure while region A is being written.  If region B holds a
    good copy and region A, whatever the interrupted write left there, does not
    hold a good copy with a larger transaction id, loadData() of a restarted
    chunk hands over exactly B's record and continues from B's transaction. *)
Theorem mirrored_recovers_from_B {P} uninit (putData : list Z → P → bool * P) (p : P) index t data s :
  MirroredProofs.inv s → MirroredProofs.holds (MirroredChunk.m_regionB s) index t data false →
  in_range 64 t → t ≠ 0 → Forall is_byte data →
  Z.of_nat (length data) + CRC_SIZE <= WORK_BUFFER_SIZE →
  fst (fst (MirroredProofs.probe (MirroredChunk.m_regionA s) index)) <= t →
  wp (MirroredChunk.loadData uninit putData p index) (λ r s',
    r = putData data p ∧ MirroredChunk.m_currentRegion s' = Some MirroredChunk.RegionB ∧
    MirroredChunk.m_transId s' = t) s.
Proof.
  intros. eapply wp_mono; [by eapply load_picks_B|]. naive_solver.
Qed.
End mirrored.

(** ** Power failure while region B is being written *)

(** Two 64 byte regions of two blank devices. *)
Definition blank_region (dev : Z) : NVAdapter.NVAdapter (Cat24C512.Api chip) :=
  NVAdapter.MkAdapter (Cat24C512.MkApi chip0 dev true) 1000 64.

Definition blank_mirror : MirroredChunk.MirroredChunk (NVAdapter.NVAdapter (Cat24C512.Api chip)) :=
  MirroredChunk.MkMirrored (blank_region 0x50) (blank_region 0x51) None 0 0 zeros.

(** First start: there is nothing to load, the record [old] is stored.  Then
    an update to [new] begins with region B and the power fails after [k] bytes
    of its frame.  What loadData() of the restarted chunk returns. *)
Definition torn_update (old new : list Z) (k : nat) : option (bool * list Z) :=
  match (MirroredChunk.loadData 0 keep [] 0;; MirroredChunk.updateData (λ _, old) 0 false) blank_mirror with
  | Some (true, s1) =>
      let fr := MirroredProofs.frame (MirroredChunk.m_transId s1 + 1) new false in
      match NVAdapter.write 0 (take k fr) (MirroredChunk.m_regionB s1) with
      | Some (true, b) =>
          match MirroredChunk.loadData 0 keep []  0
                  (MirroredChunk.MkMirrored (MirroredChunk.m_regionA s1) b None 0 0 zeros) with
          | Some (r, _) => Some r
          | None => None
          end
      | _ => None
      end
  | _ => None
  end.


(** ** Witnesses *)

Lemma blank_region_ok dev : rm_inv (blank_region dev) ∧ Forall is_byte (rm_view (blank_region dev)).
Proof.
  split.
  - split; [split; [reflexivity|split; [vm_compute; reflexivity|cbn; lia]]|].
    change (nv_getTotalSize _) with 65536. cbn. lia.
  - apply Forall_slice, Forall_replicate. unfold is_byte. lia.
Qed.

Definition crc_demo : CrcChunk.CrcChunk (NVAdapter.NVAdapter (Cat24C512.Api chip)) :=
  CrcChunk.MkCrcChunk (blank_region 0x50) 56 zeros.

Lemma crc_demo_update : can_update (λ _, [1; 2; 3]) 5 crc_demo.
Proof.
  destruct (blank_region_ok 0x50) as [Hr Hb]. constructor.
  - apply CrcChunkProofs.inv_mk; [exact Hr|exact Hb|vm_compute; reflexivity].
  - repeat constructor; lia.
  - discriminate.
  - vm_compute. congruence.
  - lia.
  - vm_compute. congruence.
Qed.

Lemma crc_chunk_roundtrip_witness :
  wp (CrcChunk.updateData (λ _, [1; 2; 3]) 5 false) (λ r s1, r = true ∧ ∀ n w,
    Z.of_nat (length w) = WORK_BUFFER_SIZE →
    wp (CrcChunk.loadData keep [] 5) (λ r2 s2, r2 = (true, [1; 2; 3]) ∧ CrcChunk.m_dataLen s2 = 3)
      (CrcChunk.MkCrcChunk (CrcChunk.m_region s1) n w)) crc_demo.
Proof.
  eapply wp_mono;
    [apply (crc_chunk_roundtrip keep [] (λ _, [1; 2; 3]) 5 crc_demo crc_demo_update); vm_compute; congruence|].
  intros r s1 [Hr Hload]. split; [exact Hr|]. intros n w Hw.
  eapply wp_mono; [exact (Hload n w Hw)|]. intros r2 s2 H2. exact H2.
Defined.


Definition big_record : list Z := replicate 1022 9.

Definition big_demo : CrcChunk.CrcChunk (NVAdapter.NVAdapter (Cat24C512.Api chip)) :=
  CrcChunk.MkCrcChunk (NVAdapter.MkAdapter (Cat24C512.MkApi chip0 0x50 true) 1000 2048) 2040 zeros.

Lemma crc_chunk_oversize_lost_witness :
  wp (CrcChunk.updateData (λ _, big_record) 0 false) (λ r s1, r = true ∧
    wp (CrcChunk.loadData keep [] 0) (λ r2 _, r2 = (false, [])) s1) big_demo.
Proof.
  apply (crc_chunk_oversize_lost keep [] (λ _, big_record) 0 big_demo).
  - constructor.
    + apply CrcChunkProofs.inv_mk.
      * split; [split; [reflexivity|split; [vm_compute; reflexivity|cbn; lia]]|].
        change (nv_getTotalSize _) with 65536. cbn. lia.
      * apply Forall_slice, Forall_replicate. unfold is_byte. lia.
      * vm_compute. reflexivity.
    + apply Forall_replicate. unfold is_byte. lia.
    + discriminate.
    + vm_compute. congruence.
    + lia.
    + vm_compute. congruence.
  - vm_compute. reflexivity.
Defined.

Definition mirror_demo : MirroredChunk.MirroredChunk (NVAdapter.NVAdapter (Cat24C512.Api chip)) :=
  MirroredChunk.MkMirrored (blank_region 0x50) (blank_region 0x51) (Some MirroredChunk.RegionA) 0 44 zeros.

Lemma mirror_demo_inv : MirroredProofs.inv mirror_demo.
Proof.
  destruct (blank_region_ok 0x50), (blank_region_ok 0x51). constructor; done.
Qed.

Lemma mirrored_roundtrip_witness :
  wp (MirroredChunk.updateData (λ _, [1; 2; 3]) 5 false) (λ r s1, r = true ∧ ∀ s2, restarted s1 s2 →
    wp (MirroredChunk.loadData 0 keep [] 5) (λ r2 s3, r2 = (true, [1; 2; 3]) ∧
      MirroredChunk.m_transId s3 = 2 ∧ MirroredChunk.m_currentRegion s3 = Some MirroredChunk.RegionA) s2) mirror_demo.
Proof.
  assert (can_update_m (λ _, [1; 2; 3]) 5 MirroredChunk.RegionA mirror_demo) as Hu; [constructor|].
  - apply mirror_demo_inv.
  - reflexivity.
  - cbn. lia.
  - repeat constructor; lia.
  - discriminate.
  - vm_compute. congruence.
  - lia.
  - vm_compute. congruence.
  - pose proof (mirrored_roundtrip 0 keep [] (λ _, [1; 2; 3]) 5 MirroredChunk.RegionA false mirror_demo Hu) as Hrt.
    cbv zeta in Hrt. eapply wp_mono; [exact Hrt|].
    intros r s1 [Hr Hload]. split; [exact Hr|]. intros s2 Hs2.
    eapply wp_mono; [exact (Hload s2 Hs2)|]. intros r2 s3 H2. exact H2.
Defined.

(** Region B holds transaction 7, region A is blank. *)
Definition b_frame : list Z := MirroredProofs.frame 7 [1; 2; 3] false.

Definition recover_demo : MirroredChunk.MirroredChunk (NVAdapter.NVAdapter (Cat24C512.Api chip)) :=
  MirroredChunk.MkMirrored (blank_region 0x50)
    (NVAdapter.MkAdapter (Cat24C512.MkApi (Chip (splice 1000 b_frame (chip_mem chip0)) 0 0) 0x51 true) 1000 64)
    None 0 0 zeros.

Lemma mirrored_recovers_from_B_witness :
  wp (MirroredChunk.loadData 0 keep [] 0) (λ r s', r = (true, [1; 2; 3]) ∧
    MirroredChunk.m_currentRegion s' = Some MirroredChunk.RegionB ∧ MirroredChunk.m_transId s' = 7) recover_demo.
Proof.
  eapply wp_mono; [apply (mirrored_recovers_from_B 0 keep [] 0 7 [1; 2; 3] recover_demo)|intros r s' H2; exact H2].
  - destruct (blank_region_ok 0x50). constructor; try done.
    + apply Forall_slice, Forall_splice; [apply Forall_replicate; unfold is_byte; lia|].
      apply MirroredProofs.mirrored_frame_bytes. repeat constructor; lia.
  - split; [vm_compute; reflexivity|]. split; [lia|]. vm_compute. congruence.
  - unfold in_range. lia.
  - lia.
  - repeat constructor; lia.
  - vm_compute. congruence.
  - vm_compute. congruence.
Defined.
