(* ===== verification/Records.v ===== *)
(** * Records with an index: a persistent log

    Models src/src/Cpl/Persistent: DataRecord.cpp, IndexRecord.cpp and
    IndexedEntryRecord.cpp.  Entries of one size lie in a region as a ring, each
    in a chunk of its own with a running number, the index value; the place and
    the number of the latest entry are a second record, in another chunk.

    The two chunk handlers are any implementations of the class [Chunk], which
    [ChunkOk] gives its promise; CrcChunk is one.  The payload of an entry is the
    class [Payload].  [m_entryPayloadHandlerPtr] is an argument of what uses it:
    the state only knows whether it was set, for after the call that set it the
    object it points to may be gone. *)

From Stdlib Require Import ZArith Lia.
From S2P Require Import Prelude Media.
Local Open Scope Z_scope.
Local Open Scope pim_scope.

(** Chunk.h, and the region behind the chunk, which clearAllEntries writes. *)
Class Chunk (C : Type) := {
  ck_start : ST C unit;
  ck_stop : ST C unit;
  ck_loadData {P : Type} : (list Z → P → bool * P) → P → Z → ST C (bool * P);
  ck_updateData : (Z → list Z) → Z → bool → ST C bool;
  ck_getMetadataLength : Z;
  ck_region_write : Z → list Z → ST C bool;
  ck_region_length : C → Z
}.

(** Payload.h: [pl_getData d n] are the bytes [d] copies to [n] bytes of space,
    none for a failure. *)
Class Payload (D : Type) := {
  pl_getData : D → Z → list Z;
  pl_putData : list Z → D → bool * D
}.

(** ** IndexRecord.cpp *)
Module IndexRecord.
Section index.
Context `{Platform} {I : Type} `{Chunk I}.

Record IndexRecord := mkIndex {
  m_chunkHandler : I;
  m_started : bool;
  m_latest : Z;
  m_latestIndex : Z;
  m_validLatest : bool
}.

Definition on_chunk {A} (mm : ST I A) : ST IndexRecord A :=
  λ r, match mm (m_chunkHandler r) with
       | Some (a, c) => Some (a, mkIndex c (m_started r) (m_latest r) (m_latestIndex r) (m_validLatest r))
       | None => None
       end.

Definition set_started b r :=
  mkIndex (m_chunkHandler r) b (m_latest r) (m_latestIndex r) (m_validLatest r).
Definition set_latest offset index b r :=
  mkIndex (m_chunkHandler r) (m_started r) offset index b.

(** DataRecord::start, then the start of this class. *)
Definition start : ST IndexRecord unit :=
  r ← get_st;
  (if m_started r then ret tt else modify (set_started true);; on_chunk ck_start);;
  modify (λ r, set_latest (m_latest r) (m_latestIndex r) false r).

Definition stop : ST IndexRecord unit :=
  r ← get_st;
  if m_started r then modify (set_started false);; on_chunk ck_stop else ret tt.

Definition getLatestOffset (r : IndexRecord) : option (Z * Z) :=
  if m_validLatest r then Some (m_latest r, m_latestIndex r) else None.

Definition setLatestOffset (offset indexValue : Z) : ST IndexRecord unit :=
  modify (set_latest offset indexValue true).

Definition processNoValidData : ST IndexRecord bool := modify (set_latest 0 0 true);; ret true.

Definition getPayloadSize : Z := Z.of_nat sizeof_size_t + 8.

Definition getData (r : IndexRecord) (maxDstLen : Z) : list Z :=
  if negb (m_validLatest r) || (maxDstLen <? getPayloadSize) then []
  else le_bytes sizeof_size_t (m_latest r) ++ le_bytes 8 (m_latestIndex r).

(** The members putData sets: both values, and that they are valid. *)
Definition putData (src : list Z) (r : Z * Z * bool) : bool * (Z * Z * bool) :=
  if getPayloadSize <=? Z.of_nat (length src) then
    (true, (of_le (take sizeof_size_t src), of_le (take 8 (drop sizeof_size_t src)), true))
  else (false, r).

(** DataRecord::readFromMedia and writeToMedia. *)
Definition readFromMedia : ST IndexRecord bool :=
  r ← get_st;
  ' (ok, (offset, index, valid)) ←
    on_chunk (ck_loadData putData (m_latest r, m_latestIndex r, m_validLatest r) 0);
  modify (set_latest offset index valid);;
  if ok : bool then ret true else processNoValidData.

Definition writeToMedia : ST IndexRecord bool :=
  r ← get_st; on_chunk (ck_updateData (getData r) 0 false).
End index.
Arguments IndexRecord : clear implicits.
End IndexRecord.

(** ** IndexedEntryRecord.cpp *)
Module Entries.
Section entries.
Context `{Platform} {I C D : Type} `{!Chunk I, !Chunk C, !Payload D}.

(** IndexedEntryReader::EntryMarker_T *)
Record EntryMarker_T := mkMarker { indexValue : Z; mediaOffset : Z }.

Record IndexedEntryRecord := mkRecord {
  m_chunkHandler : C;
  m_started : bool;
  m_latestTimestamp : Z;
  m_entryTimestamp : Z;
  m_mpIndex : Z;
  m_indexRecord : IndexRecord.IndexRecord I;
  m_handlerSet : bool;
  m_entrySize : Z;
  m_maxEntries : Z;
  m_maxOffset : Z;
  m_latestOffset : Z
}.

Abbreviation Rec := IndexedEntryRecord.

Definition on_entries {A} (mm : ST C A) : ST Rec A :=
  λ r, match mm (m_chunkHandler r) with
       | Some (a, c) => Some (a, mkRecord c (m_started r) (m_latestTimestamp r) (m_entryTimestamp r)
           (m_mpIndex r) (m_indexRecord r) (m_handlerSet r) (m_entrySize r) (m_maxEntries r)
           (m_maxOffset r) (m_latestOffset r))
       | None => None
       end.

Definition on_index {A} (mm : ST (IndexRecord.IndexRecord I) A) : ST Rec A :=
  λ r, match mm (m_indexRecord r) with
       | Some (a, i) => Some (a, mkRecord (m_chunkHandler r) (m_started r) (m_latestTimestamp r)
           (m_entryTimestamp r) (m_mpIndex r) i (m_handlerSet r) (m_entrySize r) (m_maxEntries r)
           (m_maxOffset r) (m_latestOffset r))
       | None => None
       end.

Definition set_started b r := mkRecord (m_chunkHandler r) b (m_latestTimestamp r)
  (m_entryTimestamp r) (m_mpIndex r) (m_indexRecord r) (m_handlerSet r) (m_entrySize r)
  (m_maxEntries r) (m_maxOffset r) (m_latestOffset r).
Definition set_latest offset timestamp r := mkRecord (m_chunkHandler r) (m_started r) timestamp
  (m_entryTimestamp r) (m_mpIndex r) (m_indexRecord r) (m_handlerSet r) (m_entrySize r)
  (m_maxEntries r) (m_maxOffset r) offset.
Definition set_entryTimestamp timestamp r := mkRecord (m_chunkHandler r) (m_started r)
  (m_latestTimestamp r) timestamp (m_mpIndex r) (m_indexRecord r) (m_handlerSet r) (m_entrySize r)
  (m_maxEntries r) (m_maxOffset r) (m_latestOffset r).
Definition set_mpIndex n r := mkRecord (m_chunkHandler r) (m_started r) (m_latestTimestamp r)
  (m_entryTimestamp r) n (m_indexRecord r) (m_handlerSet r) (m_entrySize r) (m_maxEntries r)
  (m_maxOffset r) (m_latestOffset r).
Definition set_handler b r := mkRecord (m_chunkHandler r) (m_started r) (m_latestTimestamp r)
  (m_entryTimestamp r) (m_mpIndex r) (m_indexRecord r) b (m_entrySize r) (m_maxEntries r)
  (m_maxOffset r) (m_latestOffset r).

Definition getMetadataLength : Z := 8.

(** The constructor; the members it does not set have the values [start] gives
    them. *)
Definition IndexedEntryRecord_new (entryChunkHandler : C) (singleEntrySizeInBytes : Z)
    (secondaryRecord : IndexRecord.IndexRecord I) : option Rec :=
  let entrySize := size_t (singleEntrySizeInBytes + getMetadataLength + ck_getMetadataLength (C := C)) in
  let maxEntries := ck_region_length entryChunkHandler / entrySize in
  if 1 <=? maxEntries then
    Some (mkRecord entryChunkHandler false 0 0 0 secondaryRecord false entrySize maxEntries
      (size_t ((maxEntries - 1) * entrySize)) 0)
  else None.

(** ** The payload handler of the record *)

Definition getData (handler : option D) (timestamp maxDstLen : Z) : list Z :=
  match handler with
  | None => []
  | Some d =>
    if maxDstLen <? getMetadataLength then []
    else match pl_getData d (maxDstLen - getMetadataLength) with
         | [] => []
         | bs => le_bytes 8 timestamp ++ bs
         end
  end.

(** On the timestamp and the application's handler. *)
Definition putData (src : list Z) (r : Z * option D) : bool * (Z * option D) :=
  if Z.of_nat (length src) <? getMetadataLength then (false, r)
  else
    let timestamp := of_le (take 8 src) in
    match r.2 with
    | None => (true, (timestamp, None))
    | Some d => let '(ok, d) := pl_putData (drop 8 src) d in (ok, (timestamp, Some d))
    end.

Definition readFromMedia (handler : option D) (index : Z) : ST Rec (bool * option D) :=
  r ← get_st;
  ' (ok, (timestamp, handler)) ← on_entries (ck_loadData putData (m_entryTimestamp r, handler) index);
  modify (set_entryTimestamp timestamp);;
  ret (ok, handler).

Definition writeToMedia (handler : option D) (index : Z) : ST Rec bool :=
  r ← get_st; on_entries (ck_updateData (getData handler (m_entryTimestamp r)) index false).

(** ** The ring *)

Definition incrementOffset (r : Rec) (offsetToIncrement : Z) : Z :=
  let offset := size_t (offsetToIncrement + m_entrySize r) in
  if offset >? m_maxOffset r then 0 else offset.

Definition decrementOffset (r : Rec) (offsetToDecrement : Z) : Z :=
  let newOffset := size_t (offsetToDecrement - m_entrySize r) in
  if newOffset >? offsetToDecrement then m_maxOffset r else newOffset.

Fixpoint scan_loop (fuel : nat) (handler : option D) (offset : Z) : ST Rec unit :=
  r ← get_st;
  if offset <=? m_maxOffset r then
    match fuel with
    | O => undefined
    | S fuel =>
      ' (ok, handler) ← readFromMedia handler offset;
      r ← get_st;
      (if ok && ((m_entryTimestamp r >? m_latestTimestamp r) || (m_latestTimestamp r =? 0))
       then modify (set_latest offset (m_entryTimestamp r)) else ret tt);;
      scan_loop fuel handler (size_t (offset + m_entrySize r))
    end
  else ret tt.

Definition scanAllEntries (handler : option D) : ST Rec unit :=
  modify (set_latest 0 0);;
  r ← get_st;
  scan_loop (Z.to_nat (m_maxEntries r)) handler 0.

Definition verifyIndex : ST Rec unit :=
  modify (set_handler false);;
  r ← get_st;
  (match IndexRecord.getLatestOffset (m_indexRecord r) with
   | Some (offset, timestamp) => modify (set_latest offset timestamp)
   | None => ret tt
   end);;
  r ← get_st;
  ' (ok, _) ← readFromMedia None (m_latestOffset r);
  r ← get_st;
  if negb ok || negb (m_entryTimestamp r =? m_latestTimestamp r) then
    scanAllEntries None;;
    r ← get_st;
    on_index (IndexRecord.setLatestOffset (m_latestOffset r) (m_latestTimestamp r));;
    _ ← on_index IndexRecord.writeToMedia;
    ret tt
  else ret tt.

Definition start : ST Rec unit :=
  r ← get_st;
  (if m_started r then ret tt else modify (set_started true);; on_entries ck_start);;
  on_index IndexRecord.start;;
  modify (set_entryTimestamp 0);;
  modify (set_latest 0 0);;
  _ ← on_index IndexRecord.readFromMedia;
  verifyIndex;;
  modify (λ r, set_mpIndex (m_latestTimestamp r) r).

Definition stop : ST Rec unit :=
  on_index IndexRecord.stop;;
  r ← get_st;
  if m_started r then modify (set_started false);; on_entries ck_stop else ret tt.

(** ** Reading *)

(** The result, the payload as it was left, and the marker on success. *)
Definition getByOffset (offset : Z) (dst : D) : ST Rec (option EntryMarker_T * D) :=
  modify (set_handler true);;
  ' (ok, handler) ← readFromMedia (Some dst) offset;
  r ← get_st;
  ret (if ok : bool then Some (mkMarker (m_entryTimestamp r) offset) else None, default dst handler).

Definition getLatest (dst : D) : ST Rec (option EntryMarker_T * D) :=
  r ← get_st; getByOffset (m_latestOffset r) dst.

(** The loops of getNext and getPrevious: [step] moves on, [wanted] compares
    the timestamp. *)
Fixpoint search (n : nat) (step : Rec → Z → Z) (wanted : Z → bool) (offset : Z) (dst : D) :
    ST Rec (option EntryMarker_T * D) :=
  match n with
  | O => ret (None, dst)
  | S n =>
    ' (found, dst) ← getByOffset offset dst;
    r ← get_st;
    match found with
    | Some marker =>
      if wanted (m_entryTimestamp r) then ret (Some marker, dst)
      else search n step wanted (step r offset) dst
    | None => search n step wanted (step r offset) dst
    end
  end.

Definition getNext (newerThan : Z) (beginHereMarker : EntryMarker_T) (dst : D) :
    ST Rec (option EntryMarker_T * D) :=
  r ← get_st;
  search (Z.to_nat (m_maxEntries r - 1)) incrementOffset (λ t, t >? newerThan)
    (incrementOffset r (mediaOffset beginHereMarker)) dst.

Definition getPrevious (olderThan : Z) (beginHereMarker : EntryMarker_T) (dst : D) :
    ST Rec (option EntryMarker_T * D) :=
  r ← get_st;
  search (Z.to_nat (m_maxEntries r - 1)) decrementOffset (λ t, t <? olderThan)
    (decrementOffset r (mediaOffset beginHereMarker)) dst.

Definition getMaxIndex (r : Rec) : Z := size_t (m_maxEntries r - 1).

Definition getByBufferIndex (bufferIndex : Z) (dst : D) : ST Rec (option EntryMarker_T * D) :=
  r ← get_st;
  if bufferIndex >? getMaxIndex r then ret (None, dst)
  else
    let offset := size_t (size_t (bufferIndex + 1) * m_entrySize r) in
    getByOffset (if offset >? m_maxOffset r then 0 else offset) dst.

(** ** Writing *)

(** The first half of addEntry: the index is ahead of the entries. *)
Definition advanceIndex : ST Rec bool :=
  r ← get_st;
  let latestOffset := incrementOffset r (m_latestOffset r) in
  modify (set_entryTimestamp (u64 (m_latestTimestamp r + 1)));;
  r ← get_st;
  on_index (IndexRecord.setLatestOffset latestOffset (m_entryTimestamp r));;
  ok ← on_index IndexRecord.writeToMedia;
  if ok : bool then
    modify (set_latest latestOffset (m_entryTimestamp r));;
    modify (λ r, set_mpIndex (m_latestTimestamp r) r);;
    ret true
  else ret false.

Definition addEntry (src : D) : ST Rec bool :=
  ok ← advanceIndex;
  if ok : bool then
    modify (set_handler true);;
    r ← get_st;
    writeToMedia (Some src) (m_latestOffset r)
  else ret false.

(** The loop that clears the region, 128 bytes at a time. *)
Fixpoint clear_loop (fuel : nat) (offset : Z) : ST Rec bool :=
  r ← get_st;
  let regionLength := ck_region_length (m_chunkHandler r) in
  if offset <? regionLength then
    match fuel with
    | O => undefined
    | S fuel =>
      let len := Z.min (size_t (regionLength - offset)) 128 in
      result ← on_entries (ck_region_write offset (replicate (Z.to_nat len) 0));
      if result : bool then clear_loop fuel (size_t (offset + len)) else ret false
    end
  else ret true.

(** When the media fails, the scan runs with the handler of an earlier call: a
    pointer to an object that may be gone. *)
Definition clearAllEntries : ST Rec bool :=
  r ← get_st;
  result ← clear_loop (Z.to_nat (ck_region_length (m_chunkHandler r))) 0;
  modify (set_latest 0 0);;
  (if result : bool then ret tt
   else r ← get_st; if m_handlerSet r then undefined else scanAllEntries None);;
  r ← get_st;
  on_index (IndexRecord.setLatestOffset (m_latestOffset r) (m_latestTimestamp r));;
  _ ← on_index IndexRecord.writeToMedia;
  modify (λ r, set_mpIndex (m_latestTimestamp r) r);;
  ret result.
End entries.
Arguments IndexedEntryRecord : clear implicits.
End Entries.
