(* ===== verification/RecordsSpec.v ===== *)
(** * The index record and the places of the entries

    What a chunk promises to a record that keeps several frames in it
    ([ChunkOk]), that a CrcChunk keeps the promise, and what the operations of an
    IndexedEntryRecord do to the frames. *)

From Stdlib Require Import ZArith Lia.
From S2P Require Import Prelude Checksum Media MediaSpec Chunk ChunkSpec Records.
Local Open Scope Z_scope.
Local Open Scope pim_scope.

(** ** The promise of a chunk *)

(** What a load finds at a place of a given length: a record; nothing, whatever
    follows the place; or a frame that reaches beyond the place. *)
Inductive Slot := Good (d : list Z) | Bad | Foreign.

Definition capacity : Z := WORK_BUFFER_SIZE - CRC_SIZE.

Class ChunkOk `{Platform} (C : Type) `{!Chunk C} := {
  ck_ready : C → Prop;
  ck_inv : C → Prop;
  ck_slot : C → Z → Z → Slot;
  ck_room : C → Z;
  ck_zero : C → Z → Prop;
  ck_meta : 8 <= ck_getMetadataLength (C := C) <= 64;
  ck_length c : ck_inv c ∨ ck_ready c →
    ck_getMetadataLength (C := C) <= ck_region_length c <= 2 ^ 31;
  ck_start_ok c : ck_ready c →
    wp ck_start (λ _ c', ck_inv c' ∧ ck_region_length c' = ck_region_length c ∧
      (∀ idx n, ck_slot c' idx n = ck_slot c idx n) ∧
      ck_room c' = ck_region_length c - ck_getMetadataLength (C := C)) c;
  ck_load_ok {P} (putData : list Z → P → bool * P) p idx n c :
    ck_inv c → 0 <= idx → ck_getMetadataLength (C := C) <= n → idx + n <= ck_region_length c →
    ck_slot c idx n ≠ Foreign →
    wp (ck_loadData putData p idx) (λ r c', ck_inv c' ∧ ck_region_length c' = ck_region_length c ∧
      (∀ idx n, ck_slot c' idx n = ck_slot c idx n) ∧
      match ck_slot c idx n with
      | Good d => r = putData d p ∧ ck_room c' = Z.of_nat (length d)
      | _ => r = (false, p) ∧ ck_room c' = ck_room c
      end) c;
  ck_update_ok getData idx bs c :
    ck_inv c → getData (ck_room c) = bs → bs ≠ [] → Forall is_byte bs →
    Z.of_nat (length bs) <= capacity → 0 <= idx →
    idx + ck_getMetadataLength (C := C) + Z.of_nat (length bs) <= ck_region_length c →
    wp (ck_updateData getData idx false) (λ r c', r = true ∧ ck_inv c' ∧
      ck_region_length c' = ck_region_length c ∧ ck_room c' = Z.of_nat (length bs) ∧
      (∀ n, ck_getMetadataLength (C := C) + Z.of_nat (length bs) <= n → idx + n <= ck_region_length c →
         ck_slot c' idx n = Good bs) ∧
      ∀ idx' n', 0 <= idx' → ck_getMetadataLength (C := C) <= n' → idx' + n' <= ck_region_length c →
        (idx' + n' <= idx ∨ idx + ck_getMetadataLength (C := C) + Z.of_nat (length bs) <= idx') →
        ck_slot c' idx' n' = ck_slot c idx' n') c;
  ck_zero_0 c : ck_zero c 0;
  ck_write_ok off n c :
    ck_inv c → ck_zero c off → 0 <= off → 0 < n → off + n <= ck_region_length c →
    wp (ck_region_write off (replicate (Z.to_nat n) 0)) (λ r c', r = true ∧ ck_inv c' ∧
      ck_region_length c' = ck_region_length c ∧ ck_room c' = ck_room c ∧ ck_zero c' (off + n)) c;
  ck_zero_bad n idx k c :
    ck_inv c → ck_zero c n → n <= ck_region_length c → 0 <= idx →
    ck_getMetadataLength (C := C) <= k → idx + k <= n → ck_slot c idx k = Bad
}.

(** ** CrcChunk keeps it *)

(** A region that can be started, which keeps what it stores. *)
Class RegionStartOk `{Platform} (M : Type) `{!RegionMedia M, !RegionMediaOk M} := {
  rm_ready : M → Prop;
  rm_ready_length m : rm_ready m → rm_getRegionLength m = Z.of_nat (length (rm_view m)) ∧
    0 < rm_getRegionLength m <= 2 ^ 31;
  rm_start_ok m : rm_ready m →
    wp rm_start (λ _ m', rm_inv m' ∧ rm_view m' = rm_view m) m
}.

Section crc_chunk.
Context `{Platform} {M : Type} `{!RegionMedia M, !RegionMediaOk M, !RegionStartOk M}.
Import CrcChunk CrcChunkProofs.

Abbreviation SZ := (Z.of_nat sizeof_size_t).

Definition crc_region_write (off : Z) (bs : list Z) : ST (CrcChunk M) bool := on_region (rm_write off bs).

#[global] Instance CrcChunk_Chunk : Chunk (CrcChunk M) := {
  ck_start := CrcChunk.start;
  ck_stop := CrcChunk.stop;
  ck_loadData := @CrcChunk.loadData _ M _;
  ck_updateData := CrcChunk.updateData;
  ck_getMetadataLength := CrcChunk.FRAME_OVERHEAD;
  ck_region_write := crc_region_write;
  ck_region_length := λ c, rm_getRegionLength (m_region c)
}.

Definition crc_slot (c : CrcChunk M) (idx n : Z) : Slot :=
  let v := rm_view (m_region c) in
  let len := of_le (slice (Z.to_nat idx) sizeof_size_t v) in
  if WORK_BUFFER_SIZE <? len + CRC_SIZE then Bad
  else if SZ + len + CRC_SIZE <=? n then
    match stored v idx with Some d => Good d | None => Bad end
  else Foreign.

Definition crc_zero (c : CrcChunk M) (n : Z) : Prop :=
  take (Z.to_nat n) (rm_view (m_region c)) = replicate (Z.to_nat n) 0.

(** A slot is decided by its bytes. *)
Lemma stored_local v v' idx n :
  Forall is_byte v → length v' = length v → 0 <= idx → SZ + CRC_SIZE <= n → idx + n <= Z.of_nat (length v) →
  slice (Z.to_nat idx) (Z.to_nat n) v' = slice (Z.to_nat idx) (Z.to_nat n) v →
  of_le (slice (Z.to_nat idx) sizeof_size_t v') = of_le (slice (Z.to_nat idx) sizeof_size_t v) ∧
  (SZ + of_le (slice (Z.to_nat idx) sizeof_size_t v) + CRC_SIZE <= n → stored v' idx = stored v idx).
Proof.
  intros Hb Hl Hi Hn Hle E. unfold CRC_SIZE in *.
  assert (∀ o k, o + k <= n → 0 <= o → 0 <= k →
    slice (Z.to_nat (idx + o)) (Z.to_nat k) v' = slice (Z.to_nat (idx + o)) (Z.to_nat k) v) as Hsub.
  { intros o k Hok Ho Hk. apply list_eq. intros j. rewrite !lookup_slice. case_decide; [|done].
    assert (slice (Z.to_nat idx) (Z.to_nat n) v' !! (Z.to_nat o + j)%nat =
            slice (Z.to_nat idx) (Z.to_nat n) v !! (Z.to_nat o + j)%nat) as Ej by by rewrite E.
    rewrite !lookup_slice in Ej. rewrite !decide_True in Ej by lia.
    replace (Z.to_nat (idx + o) + j)%nat with (Z.to_nat idx + (Z.to_nat o + j))%nat by lia. done. }
  assert (slice (Z.to_nat idx) sizeof_size_t v' = slice (Z.to_nat idx) sizeof_size_t v) as Eh.
  { pose proof (Hsub 0 SZ) as H1. rewrite Z.add_0_r, Nat2Z.id in H1. apply H1; lia. }
  split; [by rewrite Eh|]. intros Hfit. unfold stored. rewrite Eh, Hl.
  assert (0 <= of_le (slice (Z.to_nat idx) sizeof_size_t v)) by by apply of_le_nonneg, Forall_slice.
  by rewrite Hsub by (unfold CRC_SIZE; lia).
Qed.

Lemma crc_slot_local c c' idx n :
  Forall is_byte (rm_view (m_region c)) →
  length (rm_view (m_region c')) = length (rm_view (m_region c)) →
  0 <= idx → FRAME_OVERHEAD <= n → idx + n <= Z.of_nat (length (rm_view (m_region c))) →
  slice (Z.to_nat idx) (Z.to_nat n) (rm_view (m_region c')) =
    slice (Z.to_nat idx) (Z.to_nat n) (rm_view (m_region c)) →
  crc_slot c' idx n = crc_slot c idx n.
Proof.
  intros Hb Hl Hi Hn Hle E. unfold FRAME_OVERHEAD in Hn.
  destruct (stored_local _ _ _ _ Hb Hl Hi Hn Hle E) as [E1 E2].
  unfold crc_slot. rewrite E1. case_match; [done|]. case_match eqn:H3; [|done].
  apply Z.leb_le in H3. by rewrite E2.
Qed.

Lemma crc_load_slot {P} (putData : list Z → P → bool * P) p idx n (c : CrcChunk M) :
  inv c → 0 <= idx → FRAME_OVERHEAD <= n → idx + n <= rm_getRegionLength (m_region c) →
  crc_slot c idx n ≠ Foreign →
  wp (CrcChunk.loadData putData p idx) (λ r c', inv c' ∧ rm_view (m_region c') = rm_view (m_region c) ∧
    match crc_slot c idx n with
    | Good d => r = putData d p ∧ m_dataLen c' = Z.of_nat (length d)
    | _ => r = (false, p) ∧ m_dataLen c' = m_dataLen c
    end) c.
Proof.
  intros Hc Hi Hn Hle Hs. unfold FRAME_OVERHEAD, CRC_SIZE in *.
  eapply wp_mono; [apply crc_load_spec; [done|done|lia]|]. intros r c' (Hc' & Hv & Hr).
  split; [done|]. split; [done|]. unfold crc_slot in *.
  set (len := of_le _) in *. destruct (Z.ltb_spec WORK_BUFFER_SIZE (len + CRC_SIZE)) as [Hw|Hw].
  - assert (stored (rm_view (m_region c)) idx = None) as E.
    { unfold stored. fold len. by rewrite (proj2 (Z.leb_gt _ _) Hw). }
    by rewrite E in Hr.
  - revert Hs Hr. case_match; [|done]. by destruct (stored _ idx).
Qed.

Lemma crc_length_same (c c' : CrcChunk M) :
  inv c → inv c' → length (rm_view (m_region c')) = length (rm_view (m_region c)) →
  rm_getRegionLength (m_region c') = rm_getRegionLength (m_region c).
Proof.
  intros Hc Hc' E. destruct (rm_length _ (inv_media _ Hc)) as [-> _].
  destruct (rm_length _ (inv_media _ Hc')) as [-> _]. by rewrite E.
Qed.

Lemma crc_slot_view (c c' : CrcChunk M) idx n :
  rm_view (m_region c') = rm_view (m_region c) → crc_slot c' idx n = crc_slot c idx n.
Proof. intros E. unfold crc_slot. by rewrite E. Qed.

Lemma zero_frame_rejected :
  Crc32.isOkay (crc_of (replicate (sizeof_size_t + 4) 0)) = false.
Proof. destruct sizeof_size_t_ok as [-> | ->]; by vm_compute. Qed.

Lemma of_le_zeros n : of_le (replicate n 0) = 0.
Proof. induction n as [|n IH]; [done|]. simpl. by rewrite IH. Qed.

Lemma slice_zero v n o k :
  take n v = replicate n 0 → (o + k <= n)%nat → slice o k v = replicate k 0.
Proof.
  intros Hz Hle. unfold slice.
  assert (take k (drop o v) = take k (drop o (take n v))) as ->.
  { rewrite skipn_firstn_comm, take_take. f_equal. lia. }
  rewrite Hz, drop_replicate, take_replicate. f_equal. lia.
Qed.

Definition crc_ready (c : CrcChunk M) : Prop :=
  rm_ready (m_region c) ∧ Forall is_byte (rm_view (m_region c)) ∧
  Z.of_nat (length (g_workBuffer_ c)) = WORK_BUFFER_SIZE ∧
  FRAME_OVERHEAD <= rm_getRegionLength (m_region c).

Definition crc_ok (c : CrcChunk M) : Prop :=
  inv c ∧ FRAME_OVERHEAD <= rm_getRegionLength (m_region c).

Lemma SZ_bounds : 4 <= SZ <= 8.
Proof. destruct sizeof_size_t_ok as [-> | ->]; lia. Qed.

Lemma crc_start (c : CrcChunk M) :
  crc_ready c →
  wp CrcChunk.start (λ _ c', crc_ok c' ∧
    rm_getRegionLength (m_region c') = rm_getRegionLength (m_region c) ∧
    (∀ idx n, crc_slot c' idx n = crc_slot c idx n) ∧
    m_dataLen c' = rm_getRegionLength (m_region c) - FRAME_OVERHEAD) c.
Proof.
  intros (Hr & Hb & Hw & Hl). unfold CrcChunk.start. apply wp_bind, crc_wp_on_region.
  eapply wp_mono; [by apply rm_start_ok|]. intros u m [Hm Hv].
  destruct (rm_ready_length _ Hr) as [E1 E2]. destruct (rm_length _ Hm) as [E3 _].
  assert (rm_getRegionLength m = rm_getRegionLength (m_region c)) as E by (rewrite E1, E3; by rewrite Hv).
  apply wp_bind, wp_gets, wp_modify. pose proof SZ_bounds. pose proof SIZE_MAX_lower.
  split_and!.
  - split; [apply inv_mk; simpl; [done|by rewrite Hv|done]|]. simpl. by rewrite E.
  - simpl. by rewrite E.
  - intros idx n. by apply crc_slot_view.
  - simpl. rewrite E. apply size_t_id. unfold FRAME_OVERHEAD, CRC_SIZE in *. lia.
Qed.

Lemma crc_update getData idx bs (c : CrcChunk M) :
  crc_ok c → getData (m_dataLen c) = bs → bs ≠ [] → Forall is_byte bs →
  Z.of_nat (length bs) <= capacity → 0 <= idx →
  idx + FRAME_OVERHEAD + Z.of_nat (length bs) <= rm_getRegionLength (m_region c) →
  wp (CrcChunk.updateData getData idx false) (λ r c', r = true ∧ crc_ok c' ∧
    rm_getRegionLength (m_region c') = rm_getRegionLength (m_region c) ∧
    m_dataLen c' = Z.of_nat (length bs) ∧
    (∀ n, FRAME_OVERHEAD + Z.of_nat (length bs) <= n → idx + n <= rm_getRegionLength (m_region c) →
       crc_slot c' idx n = Good bs) ∧
    ∀ idx' n', 0 <= idx' → FRAME_OVERHEAD <= n' → idx' + n' <= rm_getRegionLength (m_region c) →
      (idx' + n' <= idx ∨ idx + FRAME_OVERHEAD + Z.of_nat (length bs) <= idx') →
      crc_slot c' idx' n' = crc_slot c idx' n') c.
Proof.
  intros [Hc Hl] Hget Hne Hb Hcap Hi Hle. unfold capacity in Hcap.
  assert (CRC_SIZE = 4) as E4 by done. pose proof SZ_bounds as Hsz.
  destruct (rm_length _ (inv_media _ Hc)) as [E0 _].
  eapply wp_mono; [apply crc_update_spec; rewrite ?Hget; [done..|lia|done|done]|].
  rewrite Hget. intros r c' (-> & Hc' & Hd & Hv). unfold written in Hv.
  pose proof (crc_length_frame bs false) as Hf. rewrite E0 in *.
  assert (length (rm_view (m_region c')) = length (rm_view (m_region c))) as Hlen
    by (rewrite Hv; apply length_splice; lia).
  destruct (rm_length _ (inv_media _ Hc')) as [E1 _]. rewrite E1, Hlen.
  split_and!; [done| |done|done| |].
  - split; [done|]. by rewrite E1, Hlen.
  - intros n Hn Hin. unfold crc_slot. rewrite Hv.
    rewrite stored_frame by (done || lia).
    destruct (frame_splits bs false (rm_view (m_region c)) idx) as [-> _]; [done|lia|].
    rewrite of_le_le_bytes. change (wrap _ _) with (size_t (Z.of_nat (length bs))).
    pose proof SIZE_MAX_lower. rewrite size_t_id by (unfold WORK_BUFFER_SIZE in *; lia).
    rewrite (proj2 (Z.ltb_ge _ _)) by lia. unfold FRAME_OVERHEAD in *.
    by rewrite (proj2 (Z.leb_le _ _)) by lia.
  - intros idx' n' Hi' Hn' Hin' Hdis. apply crc_slot_local; [apply Hc|done|done|done|lia|].
    rewrite Hv. unfold FRAME_OVERHEAD in *. apply slice_splice_other; lia.
Qed.

Lemma crc_write_zero off n (c : CrcChunk M) :
  crc_ok c → crc_zero c off → 0 <= off → 0 < n → off + n <= rm_getRegionLength (m_region c) →
  wp (crc_region_write off (replicate (Z.to_nat n) 0)) (λ r c', r = true ∧ crc_ok c' ∧
    rm_getRegionLength (m_region c') = rm_getRegionLength (m_region c) ∧ m_dataLen c' = m_dataLen c ∧
    crc_zero c' (off + n)) c.
Proof.
  intros [Hc Hl] Hz Hoff Hn Hle. destruct (rm_length _ (inv_media _ Hc)) as [E0 _].
  apply crc_wp_on_region. eapply wp_mono.
  - apply rm_write_ok; [apply Hc|done| |by rewrite length_replicate; lia].
    intros E. apply (f_equal length) in E. rewrite length_replicate in E. simpl in E. lia.
  - intros r m (-> & Hm & Hv).
    assert (length (rm_view m) = length (rm_view (m_region c))) as Hlen
      by (rewrite Hv; apply length_splice; rewrite length_replicate; lia).
    destruct (rm_length _ Hm) as [E1 _]. simpl.
    assert (rm_getRegionLength m = rm_getRegionLength (m_region c)) as E by (rewrite E1, E0; lia).
    split_and!; [done| |done|done|].
    + split; [|simpl; by rewrite E]. apply inv_mk; [done| |apply Hc]. rewrite Hv.
      apply Forall_splice; [apply Hc|]. apply Forall_replicate. unfold is_byte. lia.
    + unfold crc_zero in *. simpl. rewrite Hv. unfold splice.
      rewrite app_assoc, Hz, <-replicate_add.
      replace (Z.to_nat off + Z.to_nat n)%nat with (Z.to_nat (off + n)) by lia.
      rewrite take_app_le by (rewrite length_replicate; lia). apply take_ge. rewrite length_replicate. lia.
Qed.

Lemma crc_zero_slot n idx k (c : CrcChunk M) :
  crc_zero c n → n <= Z.of_nat (length (rm_view (m_region c))) → 0 <= idx → FRAME_OVERHEAD <= k →
  idx + k <= n → crc_slot c idx k = Bad.
Proof.
  unfold crc_zero, crc_slot, FRAME_OVERHEAD. intros Hz Hn Hi Hk Hle. pose proof SZ_bounds as Hsz.
  assert (CRC_SIZE = 4) as E4 by done. rewrite E4 in *.
  rewrite (slice_zero _ _ _ _ Hz) by lia. rewrite of_le_zeros.
  rewrite (proj2 (Z.ltb_ge _ _)) by (unfold WORK_BUFFER_SIZE; lia).
  rewrite (proj2 (Z.leb_le _ _)) by lia. unfold stored. rewrite E4.
  rewrite (slice_zero _ _ (Z.to_nat idx) _ Hz) by lia. rewrite of_le_zeros.
  rewrite (slice_zero _ _ (Z.to_nat (idx + SZ)) _ Hz) by lia. rewrite <-replicate_add.
  change (Z.to_nat (0 + 4)) with 4%nat. rewrite zero_frame_rejected. by rewrite andb_false_r.
Qed.

#[global] Program Instance CrcChunk_Ok : ChunkOk (CrcChunk M) := {
  ck_ready := crc_ready;
  ck_inv := crc_ok;
  ck_slot := crc_slot;
  ck_room := m_dataLen;
  ck_zero := crc_zero
}.
Next Obligation. pose proof SZ_bounds. cbn. unfold FRAME_OVERHEAD, CRC_SIZE. lia. Qed.
Next Obligation.
  intros c [[Hc Hl]|(Hr & _ & _ & Hl)]; cbn in *; (split; [done|]).
  - apply (rm_length _ (inv_media _ Hc)).
  - apply (rm_ready_length _ Hr).
Qed.
Next Obligation. intros c Hc. by apply crc_start. Qed.
Next Obligation.
  intros P put p idx n c [Hc Hl] Hi Hn Hle Hs. cbn in *.
  eapply wp_mono; [by apply crc_load_slot|]. intros r c' (Hc' & Hv & Hr).
  assert (rm_getRegionLength (m_region c') = rm_getRegionLength (m_region c)) as E
    by (apply crc_length_same; [done..|by rewrite Hv]).
  split; [split; [done|by rewrite E]|]. split; [done|]. split; [|done].
  intros ? ?. by apply crc_slot_view.
Qed.
Next Obligation. intros getData idx bs c. apply crc_update. Qed.
Next Obligation. intros c. by unfold crc_zero. Qed.
Next Obligation. intros off n c. apply crc_write_zero. Qed.
Next Obligation.
  intros n idx k c [Hc Hl] Hz Hn Hi Hk Hle. cbn in *. apply crc_zero_slot with n; [done| |done..].
  by destruct (rm_length _ (inv_media _ Hc)) as [<- _].
Qed.
End crc_chunk.
