(* ===== verification/RecordsLog.v ===== *)
(** * The log behind an IndexedEntryRecord

    The entries that a ring of [N] places keeps are the latest ones of a log:
    entry number [t] is at place [t mod N].  [Ring] says that the media hold a
    log, and each operation of the record is specified on it. *)

From Stdlib Require Import ZArith Lia.
From S2P Require Import Prelude Checksum Media Chunk ChunkSpec Records RecordsSpec.
Local Open Scope Z_scope.
Local Open Scope pim_scope.

(** ** The log *)

Section log.
Context {D : Type}.

(** The number of the newest entry, and the entries that are kept, newest
    first. *)
Record log := mkLog { newest : Z; kept : list D }.

Implicit Types lg : log.

Record log_ok (N : Z) lg : Prop := {
  log_places : 1 <= N;
  log_newest : Z.of_nat (length (kept lg)) <= newest lg < 2 ^ 64;
  log_kept : Z.of_nat (length (kept lg)) <= N
}.

(** Entry number [t]. *)
Definition entry lg (t : Z) : option D :=
  if t <=? newest lg then kept lg !! Z.to_nat (newest lg - t) else None.

(** What is at place [q]. *)
Definition at_place (N : Z) lg (q : Z) : option (Z * D) :=
  let age := (newest lg - q) mod N in
  match kept lg !! Z.to_nat age with Some d => Some (newest lg - age, d) | None => None end.

Definition log_add (N : Z) (d : D) lg : log := mkLog (newest lg + 1) (take (Z.to_nat N) (d :: kept lg)).

(** The oldest entry is gone when the ring is full. *)
Definition log_torn (N : Z) lg : log := mkLog (newest lg) (take (Z.to_nat (N - 1)) (kept lg)).

(** A restart finds no number when it finds no entry. *)
Definition log_settle lg : log := match kept lg with [] => mkLog 0 [] | _ => lg end.

Lemma entry_bounds N lg t d :
  log_ok N lg → entry lg t = Some d → newest lg - N < t <= newest lg ∧ 1 <= t.
Proof.
  intros [H1 H2 H3]. unfold entry. case_match eqn:E; [|done]. apply Z.leb_le in E.
  intros Hd%lookup_lt_Some. lia.
Qed.

Lemma age_of N n t : 1 <= N → n - N < t <= n → (n - t mod N) mod N = n - t.
Proof.
  intros HN Ht. rewrite Zminus_mod_idemp_r. apply Z.mod_small. lia.
Qed.

Lemma at_place_entry N lg t d :
  log_ok N lg → entry lg t = Some d → at_place N lg (t mod N) = Some (t, d).
Proof.
  intros Hok He. destruct (entry_bounds _ _ _ _ Hok He) as [Hb _].
  unfold at_place. rewrite age_of by (apply Hok || done). unfold entry in He.
  rewrite (proj2 (Z.leb_le _ _)) in He by lia. rewrite He. f_equal. f_equal. lia.
Qed.

Lemma at_place_inv N lg q t d :
  log_ok N lg → 0 <= q < N → at_place N lg q = Some (t, d) → entry lg t = Some d ∧ t mod N = q.
Proof.
  intros [H1 H2 H3] Hq. unfold at_place, entry.
  pose proof (Z.mod_pos_bound (newest lg - q) N ltac:(lia)) as Hm.
  destruct (kept lg !! _) as [d'|] eqn:Hd; [|done]. intros [= <- <-].
  rewrite (proj2 (Z.leb_le _ _)) by lia. split.
  - rewrite <-Hd. f_equal. lia.
  - rewrite <-(Zminus_mod_idemp_r (newest lg)), Zminus_mod_idemp_r.
    replace (newest lg - (newest lg - q) mod N) with (q + ((newest lg - q) / N) * N).
    + rewrite Z.mod_add by lia. by apply Z.mod_small.
    + pose proof (Z.div_mod (newest lg - q) N ltac:(lia)). lia.
Qed.

(** The places of the newest entries. *)
Lemma at_place_newest N lg :
  log_ok N lg → at_place N lg (newest lg mod N) = (λ d, (newest lg, d)) <$> head (kept lg).
Proof.
  intros Hok. unfold at_place. rewrite age_of by (destruct Hok; lia). rewrite Z.sub_diag.
  destruct (kept lg) as [|d k]; simpl; [done|]. by rewrite Z.sub_0_r.
Qed.

Lemma log_add_ok N d lg : log_ok N lg → newest lg < 2 ^ 64 - 1 → log_ok N (log_add N d lg).
Proof.
  intros [H1 H2 H3] Hn. split; simpl; [done| |]; rewrite length_take; simpl; lia.
Qed.

Lemma log_torn_ok N lg : log_ok N lg → log_ok N (log_torn N lg).
Proof. intros [H1 H2 H3]. split; simpl; [done| |]; rewrite length_take; lia. Qed.

Lemma log_settle_ok N lg : log_ok N lg → log_ok N (log_settle lg).
Proof. intros Hok. unfold log_settle. destruct (kept lg); [|done]. destruct Hok. split; simpl; lia. Qed.

(** The age at a place after one more entry. *)
Lemma age_succ N n q :
  1 <= N → 0 <= q < N →
  (n + 1 - q) mod N = if decide (q = (n + 1) mod N) then 0 else (n - q) mod N + 1.
Proof.
  intros HN Hq. case_decide as E.
  - rewrite E, Zminus_mod_idemp_r, Z.sub_diag. apply Z.mod_0_l; lia.
  - replace (n + 1 - q) with (n - q + 1) by lia. rewrite <-Z.add_mod_idemp_l by lia.
    pose proof (Z.mod_pos_bound (n - q) N ltac:(lia)) as Hm.
    destruct (decide ((n - q) mod N + 1 = N)) as [Hw|Hw]; [|apply Z.mod_small; lia].
    exfalso. apply E. pose proof (Z.div_mod (n - q) N ltac:(lia)) as Hd.
    replace (n + 1) with (q + ((n - q) / N + 1) * N) by lia.
    rewrite Z.mod_add by lia. symmetry. by apply Z.mod_small.
Qed.

Lemma at_place_add N d lg q :
  log_ok N lg → 0 <= q < N →
  at_place N (log_add N d lg) q =
  if decide (q = (newest lg + 1) mod N) then Some (newest lg + 1, d) else at_place N lg q.
Proof.
  intros [H1 H2 H3] Hq. unfold at_place. simpl newest. rewrite age_succ by lia.
  pose proof (Z.mod_pos_bound (newest lg - q) N ltac:(lia)) as Hm. simpl kept.
  case_decide as E.
  - rewrite lookup_take_lt by lia. simpl. by rewrite Z.sub_0_r.
  - assert ((newest lg - q) mod N + 1 < N).
    { pose proof (age_succ N (newest lg) q ltac:(lia) Hq) as Ha. rewrite decide_False in Ha by done.
      pose proof (Z.mod_pos_bound (newest lg + 1 - q) N ltac:(lia)). lia. }
    rewrite lookup_take_lt by lia.
    replace (Z.to_nat ((newest lg - q) mod N + 1)) with (S (Z.to_nat ((newest lg - q) mod N))) by lia.
    simpl. destruct (kept lg !! _); [|done]. f_equal. f_equal. lia.
Qed.

Lemma at_place_torn N lg q :
  log_ok N lg → 0 <= q < N →
  at_place N (log_torn N lg) q = if decide (q = (newest lg + 1) mod N) then None else at_place N lg q.
Proof.
  intros [H1 H2 H3] Hq. unfold at_place. simpl.
  pose proof (age_succ N (newest lg) q ltac:(lia) Hq) as Ha.
  pose proof (Z.mod_pos_bound (newest lg - q) N ltac:(lia)) as Hm.
  case_decide as E.
  - rewrite lookup_take_ge; [done|].
    replace (newest lg + 1 - q) with (newest lg - q + 1) in Ha by lia.
    rewrite <-Z.add_mod_idemp_l in Ha by lia.
    destruct (decide ((newest lg - q) mod N = N - 1)); [lia|].
    rewrite Z.mod_small in Ha by lia. lia.
  - pose proof (Z.mod_pos_bound (newest lg + 1 - q) N ltac:(lia)).
    by rewrite lookup_take_lt by lia.
Qed.
End log.
Arguments log : clear implicits.

(** ** The media *)

Class PayloadOk (D : Type) `{!Payload D} := {
  pl_size : Z;
  pl_bytes : D → list Z;
  pl_size_ok : 0 < pl_size <= capacity - 8;
  pl_get_ok d n : pl_size <= n → pl_getData d n = pl_bytes d;
  pl_length d : Z.of_nat (length (pl_bytes d)) = pl_size;
  pl_byte d : Forall is_byte (pl_bytes d);
  pl_put_ok d d0 : pl_putData (pl_bytes d) d0 = (true, d)
}.

Import Entries.

Section ring.
Context `{Platform} {I C D : Type} `{!Chunk I, !ChunkOk I, !Chunk C, !ChunkOk C, !Payload D, !PayloadOk D}.
Implicit Types (r : IndexedEntryRecord I C) (lg : log D) (c : C) (i : I).

Abbreviation META := (ck_getMetadataLength (C := C)).

(** The bytes of an entry, and the length of its place. *)
Definition entry_bytes (t : Z) (d : D) : list Z := le_bytes 8 t ++ pl_bytes d.
Definition place : Z := pl_size (D := D) + 8 + META.

Definition slot_of (o : option (Z * D)) : Slot :=
  match o with Some (t, d) => Good (entry_bytes t d) | None => Bad end.

(** The chunk [c] holds the entries of [lg] in [N] places. *)
Record Media (N : Z) lg c : Prop := {
  media_log : log_ok N lg;
  media_fits : N * place <= ck_region_length c;
  media_slots q : 0 <= q < N → ck_slot c (q * place) place = slot_of (at_place N lg q)
}.

(** The members that depend on the sizes alone. *)
Record Geometry (N : Z) r : Prop := {
  geo_size : m_entrySize r = place;
  geo_entries : m_maxEntries r = N;
  geo_offset : m_maxOffset r = (N - 1) * place
}.

(** A started record over a log: its chunk accepts and offers whole entries. *)
Record Ring (N : Z) lg r : Prop := {
  ring_media : Media N lg (m_chunkHandler r);
  ring_geo : Geometry N r;
  ring_inv : ck_inv (m_chunkHandler r);
  ring_room : pl_size (D := D) + 8 <= ck_room (m_chunkHandler r)
}.

(** What reading leaves alone. *)
Record Still r r' : Prop := {
  still_started : m_started r' = m_started r;
  still_latest : m_latestTimestamp r' = m_latestTimestamp r;
  still_offset : m_latestOffset r' = m_latestOffset r;
  still_mp : m_mpIndex r' = m_mpIndex r;
  still_index : m_indexRecord r' = m_indexRecord r
}.

Lemma Still_refl r : Still r r.
Proof. by split. Qed.

Lemma Still_trans r1 r2 r3 : Still r1 r2 → Still r2 r3 → Still r1 r3.
Proof. intros [] []. split; congruence. Qed.

Lemma place_bounds : META + 9 <= place <= 1100 ∧ 8 <= META.
Proof.
  unfold place. pose proof (ck_meta (C := C)). pose proof (pl_size_ok (D := D)) as Hs.
  unfold capacity, WORK_BUFFER_SIZE, CRC_SIZE in Hs. lia.
Qed.

Lemma Ring_sizes N lg r :
  Ring N lg r → 1 <= N ∧ N * place <= ck_region_length (m_chunkHandler r) ∧
    ck_region_length (m_chunkHandler r) <= 2 ^ 31.
Proof.
  intros [[Hl Hf _] _ Hi _]. split; [apply Hl|]. split; [done|].
  apply (ck_length (C := C)). by left.
Qed.

Lemma Media_same N lg c c' :
  ck_region_length c' = ck_region_length c → (∀ idx n, ck_slot c' idx n = ck_slot c idx n) →
  Media N lg c → Media N lg c'.
Proof. intros El Es [H1 H2 H3]. split; [done|lia|]. intros q Hq. rewrite Es. by apply H3. Qed.

Lemma wp_on_entries {A} (mm : ST C A) r (Q : A → IndexedEntryRecord I C → Prop) :
  wp mm (λ a c, Q a (mkRecord c (m_started r) (m_latestTimestamp r) (m_entryTimestamp r)
    (m_mpIndex r) (m_indexRecord r) (m_handlerSet r) (m_entrySize r) (m_maxEntries r)
    (m_maxOffset r) (m_latestOffset r))) (m_chunkHandler r) → wp (on_entries mm) Q r.
Proof. unfold wp, on_entries. by destruct (mm (m_chunkHandler r)) as [[a c]|]. Qed.

Lemma wp_on_index {A} (mm : ST (IndexRecord.IndexRecord I) A) r (Q : A → IndexedEntryRecord I C → Prop) :
  wp mm (λ a x, Q a (mkRecord (m_chunkHandler r) (m_started r) (m_latestTimestamp r)
    (m_entryTimestamp r) (m_mpIndex r) x (m_handlerSet r) (m_entrySize r) (m_maxEntries r)
    (m_maxOffset r) (m_latestOffset r))) (m_indexRecord r) → wp (on_index mm) Q r.
Proof. unfold wp, on_index. by destruct (mm (m_indexRecord r)) as [[a x]|]. Qed.

Lemma length_entry_bytes t d : Z.of_nat (length (entry_bytes t d)) = pl_size (D := D) + 8.
Proof. unfold entry_bytes. rewrite length_app, length_le_bytes. pose proof (pl_length d). lia. Qed.

(** The payload handler takes an entry apart. *)
Lemma putData_entry t d ts h :
  0 <= t < 2 ^ 64 → putData (entry_bytes t d) (ts, h) = (true, (t, (λ _, d) <$> h)).
Proof.
  intros Ht. unfold putData, getMetadataLength. rewrite length_entry_bytes.
  pose proof (pl_size_ok (D := D)). rewrite (proj2 (Z.ltb_ge _ _)) by lia.
  assert (of_le (take 8 (entry_bytes t d)) = t) as ->.
  { unfold entry_bytes. rewrite take_app_le by by rewrite length_le_bytes.
    rewrite take_ge by by rewrite length_le_bytes. rewrite of_le_le_bytes.
    unfold wrap. apply Z.mod_small. change (8 * Z.of_nat 8) with 64. lia. }
  assert (drop 8 (entry_bytes t d) = pl_bytes d) as ->
    by by apply (drop_app_length' (le_bytes 8 t)).
  destruct h as [d0|]; cbn [snd fmap option_fmap option_map]; [|done]. by rewrite pl_put_ok.
Qed.

(** The state after a read at place [q]. *)
Lemma wp_read N lg r h q (Q : bool * option D → IndexedEntryRecord I C → Prop) :
  Ring N lg r → 0 <= q < N →
  (∀ r', Ring N lg r' → Still r r' → m_handlerSet r' = m_handlerSet r →
     match at_place N lg q with
     | Some (t, d) => m_entryTimestamp r' = t → Q (true, (λ _, d) <$> h) r'
     | None => m_entryTimestamp r' = m_entryTimestamp r → Q (false, h) r'
     end) →
  wp (readFromMedia h (q * place)) Q r.
Proof.
  intros HR Hq HQ. pose proof HR as [[Hl Hf Hs] [G1 G2 G3] Hi Hr]. pose proof place_bounds as Hp.
  unfold readFromMedia. apply wp_bind, wp_gets, wp_bind, wp_on_entries.
  assert (ck_slot (m_chunkHandler r) (q * place) place ≠ Foreign) as Hnf.
  { rewrite Hs by done. by destruct (at_place N lg q) as [[t d]|]. }
  eapply wp_mono; [apply (ck_load_ok (C := C) _ _ _ place); [done|nia|lia|nia|exact Hnf]|].
  intros [ok [ts h']] c (Hc & El & Es & Hm). rewrite Hs in Hm by done.
  apply wp_bind, wp_modify, wp_ret.
  specialize (HQ (set_entryTimestamp ts (mkRecord c (m_started r) (m_latestTimestamp r)
    (m_entryTimestamp r) (m_mpIndex r) (m_indexRecord r) (m_handlerSet r) (m_entrySize r)
    (m_maxEntries r) (m_maxOffset r) (m_latestOffset r)))).
  destruct (at_place N lg q) as [[t d]|] eqn:E; cbn [slot_of] in Hm; destruct Hm as [Hm Hroom].
  - destruct (at_place_inv _ _ _ _ _ Hl Hq E) as [He _].
    destruct (entry_bounds _ _ _ _ Hl He) as [Hb1 Hb2]. destruct (log_newest _ _ Hl).
    rewrite putData_entry in Hm by lia. injection Hm as -> -> ->.
    rewrite length_entry_bytes in Hroom. apply HQ; [|by split|done|done].
    split; simpl; [by eapply Media_same|by split|done|lia].
  - injection Hm as -> -> ->. apply HQ; [|by split|done|done].
    split; simpl; [by eapply Media_same|by split|done|lia].
Qed.

(** ** The ring of offsets *)

Lemma incrementOffset_place N lg r q :
  Ring N lg r → 0 <= q < N → incrementOffset r (q * place) = ((q + 1) mod N) * place.
Proof.
  intros HR Hq. destruct (Ring_sizes _ _ _ HR) as (HN & Hle & Hmax). destruct HR as [_ [G1 G2 G3] _ _].
  pose proof place_bounds as Hp. pose proof SIZE_MAX_lower. unfold incrementOffset. rewrite G1, G3.
  rewrite size_t_id by nia. replace (q * place + place) with ((q + 1) * place) by lia.
  destruct (decide (q + 1 = N)) as [E|E].
  - rewrite gtb_true by nia. rewrite E, Z.mod_same by lia. done.
  - rewrite gtb_false by nia. by rewrite Z.mod_small by lia.
Qed.

Lemma decrementOffset_place N lg r q :
  Ring N lg r → 0 <= q < N → decrementOffset r (q * place) = ((q - 1) mod N) * place.
Proof.
  intros HR Hq. destruct (Ring_sizes _ _ _ HR) as (HN & Hle & Hmax). destruct HR as [_ [G1 G2 G3] _ _].
  pose proof place_bounds as Hp. pose proof SIZE_MAX_lower. unfold decrementOffset. rewrite G1, G3.
  replace (q * place - place) with ((q - 1) * place) by lia.
  destruct (decide (q = 0)) as [->|E].
  - assert (size_t ((0 - 1) * place) = SIZE_MAX + 1 - place) as ->.
    { unfold size_t, SIZE_MAX, wrap in *. set (W := 2 ^ _) in *.
      symmetry. apply (Z.mod_unique_pos _ _ (-1)); lia. }
    rewrite gtb_true by nia. f_equal.
    rewrite <-(Z.mod_unique_pos (0 - 1) N (-1) (N - 1)) by lia. done.
  - rewrite size_t_id by nia. rewrite gtb_false by nia. by rewrite Z.mod_small by lia.
Qed.
End ring.
