(* ===== verification/RecordsOps.v ===== *)
(** * What the operations of an IndexedEntryRecord do to its log

    Reading and searching, the scan of all places, and the index record. *)

From Stdlib Require Import ZArith Lia.
From S2P Require Import Prelude Checksum Media Chunk ChunkSpec Records RecordsSpec RecordsLog.
Local Open Scope Z_scope.
Local Open Scope pim_scope.
Import Entries.

Section ops.
Context `{Platform} {I C D : Type} `{!Chunk I, !ChunkOk I, !Chunk C, !ChunkOk C, !Payload D, !PayloadOk D}.
Implicit Types (r : IndexedEntryRecord I C) (lg : log D).

(** ** Reading *)

(** The marker of entry [t]. *)
Definition marker_of (N t : Z) : EntryMarker_T := mkMarker t ((t mod N) * place (C := C) (D := D)).

Abbreviation PL := (place (C := C) (D := D)).

Lemma wp_getByOffset N lg r q dst (Q : option EntryMarker_T * D → IndexedEntryRecord I C → Prop) :
  Ring N lg r → 0 <= q < N →
  (∀ r', Ring N lg r' → Still r r' →
     match at_place N lg q with
     | Some (t, d) => m_entryTimestamp r' = t → Q (Some (marker_of N t), d) r'
     | None => Q (None, dst) r'
     end) →
  wp (getByOffset (q * PL) dst) Q r.
Proof.
  intros HR Hq HQ. unfold getByOffset. apply wp_bind, wp_modify, wp_bind.
  eapply (wp_read N lg); [|done|].
  { destruct HR as [H1 H2 H3 H4]. by split; [|destruct H2; split|..]. }
  intros r' HR' Hs _. specialize (HQ r' HR').
  assert (Still r r') as Hs' by (destruct Hs; by split).
  destruct (at_place N lg q) as [[t d]|] eqn:E.
  - intros Et. apply wp_bind, wp_gets, wp_ret. rewrite Et. simpl.
    destruct (at_place_inv _ _ _ _ _ (media_log _ _ _ (ring_media _ _ _ HR)) Hq E) as [_ Em].
    unfold marker_of in HQ. rewrite Em in HQ. by apply HQ.
  - intros _. apply wp_bind, wp_gets, wp_ret. by apply HQ.
Qed.

(** The search over places. *)
Fixpoint find_from (n : nat) (next : Z → Z) (wanted : Z → bool) (N : Z) lg (q : Z) : option (Z * D) :=
  match n with
  | O => None
  | S n =>
    match at_place N lg q with
    | Some (t, d) => if wanted t then Some (t, d) else find_from n next wanted N lg (next q)
    | None => find_from n next wanted N lg (next q)
    end
  end.

Lemma wp_search N lg n step next wanted : ∀ r q dst (Q : option EntryMarker_T * D → IndexedEntryRecord I C → Prop),
  (∀ r q, Ring N lg r → 0 <= q < N → step r (q * PL) = next q * PL ∧ 0 <= next q < N) →
  Ring N lg r → 0 <= q < N →
  (∀ r' dst', Ring N lg r' → Still r r' →
     Q (match find_from n next wanted N lg q with
        | Some (t, d) => (Some (marker_of N t), d)
        | None => (None, dst')
        end) r') →
  wp (search n step wanted (q * PL) dst) Q r.
Proof.
  induction n as [|n IH]; intros r q dst Q Hstep HR Hq HQ; simpl.
  { apply wp_ret. apply HQ; [done|apply Still_refl]. }
  apply wp_bind. eapply wp_getByOffset; [done..|]. intros r' HR' Hs.
  simpl in HQ. destruct (at_place N lg q) as [[t d]|].
  - intros Et. apply wp_bind, wp_gets. rewrite Et. destruct (wanted t).
    + apply wp_ret. by apply (HQ _ dst).
    + destruct (Hstep r' q HR' Hq) as [-> Hn]. apply IH; [done..|]. intros r2 dst2 HR2 Hs2.
      apply HQ; [done|]. by eapply Still_trans.
  - apply wp_bind, wp_gets. destruct (Hstep r' q HR' Hq) as [-> Hn]. apply IH; [done..|].
    intros r2 dst2 HR2 Hs2. apply HQ; [done|]. by eapply Still_trans.
Qed.

(** No entry is wanted: the search fails. *)
Lemma find_from_none N lg n next wanted q :
  log_ok N lg → (∀ q, 0 <= q < N → 0 <= next q < N) → 0 <= q < N →
  (∀ t d, entry lg t = Some d → wanted t = false) → find_from n next wanted N lg q = None.
Proof.
  intros Hok Hnext Hq Hw. revert q Hq. induction n as [|n IH]; intros q Hq; simpl; [done|].
  destruct (at_place N lg q) as [[t d]|] eqn:E; [|by apply IH, Hnext].
  destruct (at_place_inv _ _ _ _ _ Hok Hq E) as [He _]. rewrite (Hw _ _ He). by apply IH, Hnext.
Qed.

Lemma find_from_first N lg n next wanted t d :
  log_ok N lg → (0 < n)%nat → entry lg t = Some d → wanted t = true →
  find_from n next wanted N lg (t mod N) = Some (t, d).
Proof.
  intros Hok Hn He Hw. destruct n as [|n]; [lia|]. simpl. by rewrite (at_place_entry _ _ _ _ Hok He), Hw.
Qed.

(** Entries are numbered without gaps. *)
Lemma entry_convex lg t t1 t2 d1 d2 :
  entry lg t1 = Some d1 → entry lg t2 = Some d2 → t1 <= t <= t2 → is_Some (entry lg t).
Proof.
  unfold entry. intros H1 H2 Ht. case_match eqn:E1; [|done]. case_match eqn:E2; [|done].
  apply Z.leb_le in E1, E2. rewrite (proj2 (Z.leb_le _ _)) by lia.
  apply lookup_lt_is_Some. apply lookup_lt_Some in H1. lia.
Qed.

Lemma places_two N lg t t' d d' :
  log_ok N lg → entry lg t = Some d → entry lg t' = Some d' → t ≠ t' → (0 < Z.to_nat (N - 1))%nat.
Proof.
  intros Hok H1 H2 Hne. destruct (entry_bounds _ _ _ _ Hok H1) as [? _].
  destruct (entry_bounds _ _ _ _ Hok H2) as [? _]. lia.
Qed.

(** getNext from an entry that is still there finds the entry after it. *)
Lemma find_next N lg t d :
  log_ok N lg → entry lg t = Some d →
  find_from (Z.to_nat (N - 1)) (λ q, (q + 1) mod N) (λ t', t' >? t) N lg ((t mod N + 1) mod N) =
  (λ d', (t + 1, d')) <$> entry lg (t + 1).
Proof.
  intros Hok He. pose proof (log_places _ _ Hok) as HN. rewrite Z.add_mod_idemp_l by lia.
  destruct (entry lg (t + 1)) as [d'|] eqn:E'; simpl.
  - apply find_from_first; [done| |done|by apply gtb_true; lia].
    by eapply (places_two _ _ t (t + 1)); [..|lia].
  - apply find_from_none; [done|by intros; apply Z.mod_pos_bound; lia|by apply Z.mod_pos_bound; lia|].
    intros t' d' He'. apply gtb_false. destruct (decide (t' <= t)); [done|].
    destruct (entry_convex lg (t + 1) t t' d d') as [x Hx]; [done..|lia|]. congruence.
Qed.

Lemma find_previous N lg t d :
  log_ok N lg → entry lg t = Some d →
  find_from (Z.to_nat (N - 1)) (λ q, (q - 1) mod N) (λ t', t' <? t) N lg ((t mod N - 1) mod N) =
  (λ d', (t - 1, d')) <$> entry lg (t - 1).
Proof.
  intros Hok He. pose proof (log_places _ _ Hok) as HN. rewrite Zminus_mod_idemp_l.
  destruct (entry lg (t - 1)) as [d'|] eqn:E'; simpl.
  - apply find_from_first; [done| |done|by apply Z.ltb_lt; lia].
    by eapply (places_two _ _ t (t - 1)); [..|lia].
  - apply find_from_none; [done|by intros; apply Z.mod_pos_bound; lia|by apply Z.mod_pos_bound; lia|].
    intros t' d' He'. apply Z.ltb_ge. destruct (decide (t <= t')); [done|].
    destruct (entry_convex lg (t - 1) t' t d' d) as [x Hx]; [done..|lia|]. congruence.
Qed.

(** ** The scan of all places *)

(** What the scan has found in the first [k] places. *)
Definition scanned (N : Z) lg (k : Z) r : Prop :=
  match head (kept lg) with
  | None => m_latestOffset r = 0 ∧ m_latestTimestamp r = 0
  | Some _ =>
    if newest lg mod N <? k
    then m_latestOffset r = (newest lg mod N) * PL ∧ m_latestTimestamp r = newest lg
    else 0 <= m_latestTimestamp r < newest lg
  end.

Definition scan_frame r r' : Prop :=
  m_started r' = m_started r ∧ m_mpIndex r' = m_mpIndex r ∧ m_indexRecord r' = m_indexRecord r.

Lemma scanned_step N lg k r' r ok t d :
  log_ok N lg → 0 <= k < N → scanned N lg k r → Still r r' →
  match at_place N lg k with Some (t', d') => ok = true ∧ t = t' ∧ d = Some d' | None => ok = false end →
  m_entryTimestamp r' = t ∨ ok = false →
  scanned N lg (k + 1)
    (if ok && ((m_entryTimestamp r' >? m_latestTimestamp r') || (m_latestTimestamp r' =? 0))
     then set_latest (k * PL) (m_entryTimestamp r') r' else r').
Proof.
  intros Hok Hk Hsc [_ Et Eo _ _] Hat Hts. unfold scanned in *.
  pose proof (at_place_newest _ _ Hok) as Hnew. pose proof (log_newest _ _ Hok) as Hn.
  destruct (head (kept lg)) as [d0|] eqn:Hh.
  2:{ assert (kept lg = []) as Hnil by by destruct (kept lg).
    assert (at_place N lg k = None) as E by (unfold at_place; by rewrite Hnil).
    rewrite E in Hat. subst ok. simpl. by rewrite Et, Eo. }
  simpl in Hnew. assert (1 <= newest lg) as Hpos by (destruct (kept lg); simpl in *; [done|lia]).
  destruct (decide (k = newest lg mod N)) as [->|Hne].
  - rewrite Hnew in Hat. destruct Hat as (-> & -> & _). destruct Hts as [Hts|?]; [|done].
    rewrite Z.ltb_irrefl in Hsc. rewrite (proj2 (Z.ltb_lt _ _)) by lia.
    rewrite Hts, Et, (gtb_true (newest lg)) by lia. done.
  - assert ((newest lg mod N <? k + 1) = (newest lg mod N <? k)) as ->.
    { destruct (Z.ltb_spec (newest lg mod N) k); [apply Z.ltb_lt; lia|apply Z.ltb_ge; lia]. }
    destruct (at_place N lg k) as [[t' d']|] eqn:E; [|subst ok; simpl; by rewrite Et, Eo].
    destruct Hat as (-> & -> & _). destruct Hts as [Hts|?]; [|done].
    destruct (at_place_inv _ _ _ _ _ Hok Hk E) as [He Em].
    destruct (entry_bounds _ _ _ _ Hok He) as [Hb1 Hb2].
    assert (t' < newest lg) by (destruct (decide (t' = newest lg)) as [->|]; [done|lia]).
    rewrite Hts. destruct (newest lg mod N <? k).
    + destruct Hsc as [H1 H2]. rewrite Et, H2, gtb_false by lia.
      rewrite (proj2 (Z.eqb_neq _ _)) by lia. simpl. rewrite Et, Eo. done.
    + simpl. case_match; simpl; [lia|]. by rewrite Et.
Qed.

Lemma Ring_set_latest N lg r o t : Ring N lg r → Ring N lg (set_latest o t r).
Proof. intros [H1 [G1 G2 G3] H3 H4]. by split; [|split|..]. Qed.

Lemma wp_scan_loop N lg : ∀ fuel k r (Q : unit → IndexedEntryRecord I C → Prop),
  Ring N lg r → 0 <= k <= N → Z.of_nat fuel = N - k → scanned N lg k r →
  (∀ r', Ring N lg r' → scan_frame r r' → scanned N lg N r' → Q tt r') →
  wp (scan_loop fuel None (k * PL)) Q r.
Proof.
  induction fuel as [|fuel IH]; intros k r Q HR Hk Hf Hsc HQ; simpl; apply wp_bind, wp_gets;
    pose proof (place_bounds (C := C) (D := D)) as Hp;
    destruct (Ring_sizes _ _ _ HR) as (HN & Hle & Hmax); destruct (ring_geo _ _ _ HR) as [G1 G2 G3];
    rewrite G3.
  - rewrite (proj2 (Z.leb_gt _ _)) by nia. apply wp_ret. assert (k = N) as -> by lia. by apply HQ.
  - rewrite (proj2 (Z.leb_le _ _)) by nia. apply wp_bind. eapply wp_read; [done|lia|].
    intros r1 HR1 Hs1 _.
    assert (∀ ok t d, match at_place N lg k with
      | Some (t', d') => ok = true ∧ t = t' ∧ d = Some d' | None => ok = false end →
      m_entryTimestamp r1 = t ∨ ok = false →
      wp (r ← get_st;
        (if ok && ((m_entryTimestamp r >? m_latestTimestamp r) || (m_latestTimestamp r =? 0))
         then modify (set_latest (k * PL) (m_entryTimestamp r)) else ret tt);;
        scan_loop fuel None (size_t (k * PL + m_entrySize r))) Q r1) as Hstep.
    { intros ok t d Hat Hts. pose proof (scanned_step N lg k r1 r ok t d) as Hstep.
      specialize (Hstep ltac:(apply HR) ltac:(lia) Hsc Hs1 Hat Hts).
      apply wp_bind, wp_gets, wp_bind. destruct (ring_geo _ _ _ HR1) as [G1' _ _]. rewrite G1'.
      rewrite size_t_id by (pose proof SIZE_MAX_lower; nia).
      replace (k * PL + PL) with ((k + 1) * PL) by lia.
      destruct (ok && _).
      - apply wp_modify. apply IH; [by apply Ring_set_latest|lia|lia|done|].
        intros r' HR' (F1 & F2 & F3) Hsc'. apply HQ; [done| |done].
        destruct Hs1. split_and!; simpl in *; congruence.
      - apply wp_ret. apply IH; [done|lia|lia|done|]. intros r' HR' (F1 & F2 & F3) Hsc'.
        apply HQ; [done| |done]. destruct Hs1. split_and!; congruence. }
    destruct (at_place N lg k) as [[t d]|]; intros Et.
    + by apply (Hstep true t (Some d)); [|left].
    + by apply (Hstep false 0 None); [|right].
Qed.

(** The scan finds the newest entry. *)
Lemma wp_scanAllEntries N lg r (Q : unit → IndexedEntryRecord I C → Prop) :
  Ring N lg r →
  (∀ r', Ring N lg r' → scan_frame r r' →
     m_latestTimestamp r' = newest (log_settle lg) →
     m_latestOffset r' = (newest (log_settle lg) mod N) * PL → Q tt r') →
  wp (scanAllEntries None) Q r.
Proof.
  intros HR HQ. destruct (Ring_sizes _ _ _ HR) as (HN & _). unfold scanAllEntries.
  apply wp_bind, wp_modify, wp_bind, wp_gets. cbn [set_latest m_maxEntries].
  destruct (ring_geo _ _ _ HR) as [_ -> _].
  pose proof (log_newest _ _ (media_log _ _ _ (ring_media _ _ _ HR))) as Hn.
  change (wp (scan_loop (Z.to_nat N) None (0 * PL)) Q (set_latest 0 0 r)). eapply (wp_scan_loop N lg); [by apply Ring_set_latest|lia|lia| |].
  - unfold scanned. destruct (kept lg); simpl in *; [done|].
    rewrite (proj2 (Z.ltb_ge _ _)) by (apply Z.mod_pos_bound; lia). lia.
  - intros r' HR' (F1 & F2 & F3) Hsc. unfold scanned, log_settle in *.
    destruct (kept lg) as [|d k]; simpl in *.
    + destruct Hsc as [Ho Ht]. apply HQ; [done|by split_and!|by rewrite Ht|].
      simpl. rewrite Ho, Z.mod_0_l by lia. done.
    + rewrite (proj2 (Z.ltb_lt _ _)) in Hsc by (apply Z.mod_pos_bound; lia).
      destruct Hsc as [Ho Ht]. apply HQ; [done|by split_and!|done|done].
Qed.
End ops.
