(* ===== verification/RecordsTheorems.v ===== *)
(** * A persistent log: the theorems

    Start, addEntry and clearAllEntries on the log; programs on a record against
    the log, and the restart after a power failure. *)

From Stdlib Require Import ZArith Lia.
From S2P Require Import Prelude Checksum Media MediaSpec Chunk ChunkSpec Records RecordsSpec RecordsLog RecordsOps.
Local Open Scope Z_scope.
Local Open Scope pim_scope.
Import Entries.

Section records.
Context `{Platform} {I C D : Type} `{!Chunk I, !ChunkOk I, !Chunk C, !ChunkOk C, !Payload D, !PayloadOk D}.
Implicit Types (r : IndexedEntryRecord I C) (lg : log D) (x : IndexRecord.IndexRecord I).

Abbreviation PL := (place (C := C) (D := D)).
Abbreviation SZ := (Z.of_nat sizeof_size_t).

(** ** The index record *)

Definition index_bytes (offset t : Z) : list Z := le_bytes sizeof_size_t offset ++ le_bytes 8 t.
Definition index_place : Z := ck_getMetadataLength (C := I) + SZ + 8.
Definition index_slot (i : I) : Slot := ck_slot i 0 index_place.

Record Index_ok x : Prop := {
  index_inv : ck_inv (IndexRecord.m_chunkHandler x);
  index_fits : index_place <= ck_region_length (IndexRecord.m_chunkHandler x);
  index_room : SZ + 8 <= ck_room (IndexRecord.m_chunkHandler x)
}.

Lemma size_bounds : 4 <= SZ <= 8.
Proof. destruct sizeof_size_t_ok as [-> | ->]; lia. Qed.

Lemma length_index_bytes o t : Z.of_nat (length (index_bytes o t)) = SZ + 8.
Proof. unfold index_bytes. rewrite length_app, !length_le_bytes. lia. Qed.

Lemma wp_index_on_chunk {A} (mm : ST I A) x (Q : A → IndexRecord.IndexRecord I → Prop) :
  wp mm (λ a i, Q a (IndexRecord.mkIndex i (IndexRecord.m_started x) (IndexRecord.m_latest x)
    (IndexRecord.m_latestIndex x) (IndexRecord.m_validLatest x))) (IndexRecord.m_chunkHandler x) →
  wp (IndexRecord.on_chunk mm) Q x.
Proof. unfold wp, IndexRecord.on_chunk. by destruct (mm (IndexRecord.m_chunkHandler x)) as [[a i]|]. Qed.

(** The index record writes what it was set to. *)
Lemma wp_index_write x o t (Q : bool → IndexRecord.IndexRecord I → Prop) :
  Index_ok x → IndexRecord.getLatestOffset x = Some (o, t) →
  (∀ x', Index_ok x' → index_slot (IndexRecord.m_chunkHandler x') = Good (index_bytes o t) → Q true x') →
  wp IndexRecord.writeToMedia Q x.
Proof.
  intros [Hi Hf Hr] Hx HQ. unfold IndexRecord.getLatestOffset in Hx.
  destruct (IndexRecord.m_validLatest x) eqn:Hv; [|done]. injection Hx as Eo Et.
  pose proof size_bounds. pose proof (ck_meta (C := I)). unfold index_place in Hf.
  apply wp_bind, wp_gets, wp_index_on_chunk. unfold IndexRecord.getData.
  eapply wp_mono; [apply (ck_update_ok (C := I) _ _ (index_bytes o t)); [done| |..]|].
  - rewrite Hv. unfold IndexRecord.getPayloadSize. rewrite (proj2 (Z.ltb_ge _ _)) by lia.
    simpl. by rewrite Eo, Et.
  - intros E. apply (f_equal (λ l, Z.of_nat (length l))) in E. rewrite length_index_bytes in E.
    simpl in E. lia.
  - apply Forall_app_2; apply le_bytes_byte.
  - rewrite length_index_bytes. unfold capacity, WORK_BUFFER_SIZE, CRC_SIZE. lia.
  - lia.
  - rewrite length_index_bytes. lia.
  - intros ok c (-> & Hc & El & Hroom & Hs & _). rewrite length_index_bytes in *. apply HQ.
    + split; simpl; [done|unfold index_place; lia|lia].
    + simpl. unfold index_slot. apply Hs; unfold index_place; lia.
Qed.

(** The values an index record has stored, zeros for none. *)
Definition index_value (sl : Slot) (o t : Z) : Prop :=
  sl = Bad ∧ o = 0 ∧ t = 0 ∨
  sl = Good (index_bytes o t) ∧ 0 <= o <= SIZE_MAX ∧ 0 <= t < 2 ^ 64.

Lemma putData_index o t v :
  0 <= o <= SIZE_MAX → 0 <= t < 2 ^ 64 →
  IndexRecord.putData (index_bytes o t) v = (true, (o, t, true)).
Proof.
  intros Ho Ht. unfold IndexRecord.putData, IndexRecord.getPayloadSize.
  rewrite length_index_bytes, (proj2 (Z.leb_le _ _)) by lia. unfold index_bytes.
  rewrite (take_app_length' (le_bytes sizeof_size_t o)) by by rewrite length_le_bytes.
  rewrite (drop_app_length' (le_bytes sizeof_size_t o)) by by rewrite length_le_bytes.
  rewrite (take_ge (le_bytes 8 t)) by by rewrite length_le_bytes. rewrite !of_le_le_bytes.
  change (wrap (8 * Z.of_nat sizeof_size_t) o) with (size_t o). rewrite size_t_id by done.
  unfold wrap. rewrite Z.mod_small; [done|]. change (8 * Z.of_nat 8) with 64. lia.
Qed.

Lemma wp_index_read x o t (Q : bool → IndexRecord.IndexRecord I → Prop) :
  Index_ok x → index_value (index_slot (IndexRecord.m_chunkHandler x)) o t →
  (∀ x', Index_ok x' → IndexRecord.getLatestOffset x' = Some (o, t) →
     index_slot (IndexRecord.m_chunkHandler x') = index_slot (IndexRecord.m_chunkHandler x) → Q true x') →
  wp IndexRecord.readFromMedia Q x.
Proof.
  intros [Hi Hf Hr] Hv HQ. pose proof (ck_meta (C := I)). pose proof size_bounds.
  unfold IndexRecord.readFromMedia. apply wp_bind, wp_gets, wp_bind, wp_index_on_chunk.
  unfold index_slot in *.
  eapply wp_mono; [apply (ck_load_ok (C := I) _ _ _ index_place);
    [done|lia|unfold index_place; lia|lia|by destruct Hv as [[-> _]|[-> _]]]|].
  intros [ok [[o' t'] v]] c (Hc & El & Es & Hm). apply wp_bind, wp_modify.
  destruct Hv as [(E & -> & ->)|(E & Ho & Ht)]; rewrite E in Hm; destruct Hm as [Hm Hroom].
  - injection Hm as -> -> -> ->. unfold IndexRecord.processNoValidData.
    apply wp_bind, wp_modify, wp_ret. apply HQ; [|done|apply Es]. split; simpl; [done|lia|lia].
  - rewrite putData_index in Hm by done. injection Hm as -> -> -> ->. rewrite length_index_bytes in Hroom.
    apply wp_ret. apply HQ; [|done|apply Es]. split; simpl; [done|lia|lia].
Qed.

(** ** A record over a log *)

(** The index on the media: lost, or naming a place whose entry, if it has the
    number the index says, is the newest. *)
Inductive index_names (N : Z) lg : Slot → Prop :=
  | index_lost : index_names N lg Bad
  | index_named q t : 0 <= q < N → 0 <= t < 2 ^ 64 →
      (∀ d, at_place N lg q = Some (t, d) → t = newest lg) →
      index_names N lg (Good (index_bytes (q * PL) t)).

(** The record is started, the media hold the log and its index, and the
    members are those of the newest entry. *)
Record Log (N : Z) lg r : Prop := {
  log_ring : Ring N lg r;
  log_settled : kept lg = [] → newest lg = 0;
  log_index : Index_ok (m_indexRecord r);
  log_index_slot : index_slot (IndexRecord.m_chunkHandler (m_indexRecord r)) =
    Good (index_bytes ((newest lg mod N) * PL) (newest lg));
  log_timestamp : m_latestTimestamp r = newest lg;
  log_offset : m_latestOffset r = (newest lg mod N) * PL;
  log_mp : m_mpIndex r = newest lg
}.

Lemma place_value N lg r q :
  Ring N lg r → 0 <= q < N → 0 <= q * PL <= SIZE_MAX.
Proof.
  intros HR Hq. destruct (Ring_sizes _ _ _ HR) as (HN & Hle & Hmax).
  pose proof (place_bounds (C := C) (D := D)). pose proof SIZE_MAX_lower. nia.
Qed.

Lemma settle_newest lg : kept (log_settle lg) = [] → newest (log_settle lg) = 0.
Proof. unfold log_settle. destruct (kept lg) eqn:E; simpl; congruence. Qed.

(** The media of a log are those of the log without its numbers when it is
    empty. *)
Lemma Ring_settle N lg r : Ring N lg r → Ring N (log_settle lg) r.
Proof.
  unfold log_settle. destruct (kept lg) as [|d k] eqn:E; [|done].
  intros [[Hl Hf Hs] H2 H3 H4]. split; [|done..]. split; [|done|].
  - split; simpl; [apply Hl|lia|destruct Hl; lia].
  - intros q Hq. rewrite Hs by done. unfold at_place. by rewrite E.
Qed.

(** After the scan, or any other step that leaves the newest entry in the
    members, the index is written. *)
Lemma wp_update_index N lg r (Q : unit → IndexedEntryRecord I C → Prop) :
  Ring N lg r → Index_ok (m_indexRecord r) → (kept lg = [] → newest lg = 0) →
  m_latestTimestamp r = newest lg → m_latestOffset r = (newest lg mod N) * PL →
  (∀ r', Log N lg (set_mpIndex (newest lg) r') → m_latestTimestamp r' = newest lg → Q tt r') →
  wp (r ← get_st;
      on_index (IndexRecord.setLatestOffset (m_latestOffset r) (m_latestTimestamp r));;
      _ ← on_index IndexRecord.writeToMedia;
      ret tt) Q r.
Proof.
  intros HR Hx Hset Ht Ho HQ. apply wp_bind, wp_gets, wp_bind, wp_on_index. unfold IndexRecord.setLatestOffset.
  apply wp_modify, wp_bind, wp_on_index. cbn [m_indexRecord].
  eapply wp_index_write; [|done|].
  { destruct Hx as [H1 H2 H3]. by split. }
  intros x' Hx' Hsl. apply wp_ret. destruct HR as [H1 [G1 G2 G3] H3 H4]. rewrite Ht, Ho in Hsl.
  apply HQ; [|done]. by split; simpl in *.
Qed.

(** ** Start *)

(** A new record on chunks that are not started. *)
Record Fresh (N : Z) lg r : Prop := {
  fresh_started : m_started r = false;
  fresh_geo : Geometry N r;
  fresh_media : Media N lg (m_chunkHandler r);
  fresh_ready : ck_ready (m_chunkHandler r);
  fresh_index : ck_ready (IndexRecord.m_chunkHandler (m_indexRecord r));
  fresh_index_started : IndexRecord.m_started (m_indexRecord r) = false;
  fresh_index_fits : index_place <= ck_region_length (IndexRecord.m_chunkHandler (m_indexRecord r));
  fresh_index_slot : index_names N lg (index_slot (IndexRecord.m_chunkHandler (m_indexRecord r)))
}.

(** The index is believed when the entry it names has its number, and is
    replaced by a scan otherwise. *)
Lemma wp_verifyIndex N lg r o t (Q : unit → IndexedEntryRecord I C → Prop) :
  Ring N lg r → Index_ok (m_indexRecord r) →
  index_names N lg (index_slot (IndexRecord.m_chunkHandler (m_indexRecord r))) →
  index_value (index_slot (IndexRecord.m_chunkHandler (m_indexRecord r))) o t →
  IndexRecord.getLatestOffset (m_indexRecord r) = Some (o, t) →
  (∀ r', Log N (log_settle lg) (set_mpIndex (newest (log_settle lg)) r') →
     m_latestTimestamp r' = newest (log_settle lg) → Q tt r') →
  wp verifyIndex Q r.
Proof.
  intros HR Hx Hn Hv Ho HQ. destruct (Ring_sizes _ _ _ HR) as (HN & _ & _).
  pose proof (media_log _ _ _ (ring_media _ _ _ HR)) as Hok.
  assert (∃ q, 0 <= q < N ∧ o = q * PL ∧ ∀ d, at_place N lg q = Some (t, d) → t = newest lg ∧
    index_slot (IndexRecord.m_chunkHandler (m_indexRecord r)) = Good (index_bytes (q * PL) t))
    as (q & Hq & Eo & Hbelieved).
  { destruct Hv as [(E & -> & ->)|(E & Hob & Htb)].
    - exists 0. split_and!; [lia..|]. intros d Hd. exfalso.
      destruct (at_place_inv N lg 0 0 d Hok ltac:(lia) Hd) as [He _].
      destruct (entry_bounds _ _ _ _ Hok He). lia.
    - rewrite E in Hn |- *. inversion Hn as [|q t' Hq Ht Hnew Eb]. exists q.
      pose proof (f_equal (λ b, IndexRecord.putData b (0, 0, false)) Eb) as Ep.
      cbv beta in Ep. rewrite !putData_index in Ep by (done || by eapply place_value).
      injection Ep as Ep1 Ep2. rewrite <-Ep2 in *. split_and!; [lia..|done|]. intros d Hd.
      split; [by eapply Hnew|]. by rewrite Ep1. }
  unfold verifyIndex. apply wp_bind, wp_modify, wp_bind, wp_gets. cbn [set_handler m_indexRecord].
  rewrite Ho. apply wp_bind, wp_modify, wp_bind, wp_gets. cbn [set_latest m_latestOffset].
  rewrite Eo. apply wp_bind. eapply (wp_read N lg); [|done|].
  { apply Ring_set_latest. destruct HR as [H1 [G1 G2 G3] H3 H4]. by split; [|split|..]. }
  intros r1 HR1 [_ S1 S2 S3 S4] _. simpl in S1, S2, S3, S4.
  assert (∀ ok ts, (at_place N lg q = None → ok = false) →
    (∀ t' d, at_place N lg q = Some (t', d) → ok = true ∧ ts = t') → m_entryTimestamp r1 = ts →
    wp (r ← get_st;
      if negb ok || negb (m_entryTimestamp r =? m_latestTimestamp r) then
        scanAllEntries None;;
        r ← get_st;
        on_index (IndexRecord.setLatestOffset (m_latestOffset r) (m_latestTimestamp r));;
        _ ← on_index IndexRecord.writeToMedia;
        ret tt
      else ret tt) Q r1) as Hend.
  { intros ok ts Hnone Hsome Ets. apply wp_bind, wp_gets. rewrite Ets, S1.
    destruct (negb ok || negb (ts =? t)) eqn:Eb.
    - apply wp_bind. eapply wp_scanAllEntries; [done|]. intros r2 HR2 (_ & _ & F3) T2 O2.
      eapply wp_update_index; [by apply Ring_settle|by rewrite F3, S4|apply settle_newest|done|done|done].
    - apply orb_false_iff in Eb as [Eok Eeq]. apply negb_false_iff in Eok, Eeq. apply Z.eqb_eq in Eeq.
      destruct (at_place N lg q) as [[t' d]|] eqn:Ea; [|by rewrite Hnone in Eok].
      destruct (Hsome t' d eq_refl) as [_ E']. assert (t' = t) as -> by congruence.
      destruct (Hbelieved d eq_refl) as [Et Esl].
      destruct (at_place_inv _ _ _ _ _ Hok Hq Ea) as [He Em].
      assert (log_settle lg = lg) as Els.
      { unfold log_settle, entry in *. destruct (kept lg); [|done]. by case_match. }
      rewrite Els in HQ. apply wp_ret, HQ; [|by rewrite S1]. destruct HR1 as [H1 [G1 G2 G3] H3 H4].
      split; simpl; [by split; [|split|..]| |by rewrite S4| |by rewrite S1|by rewrite S2, <-Et, Em|done].
      + intros Hk. rewrite <-Els in Hk. rewrite <-Els. by apply settle_newest.
      + rewrite S4, <-Et, Em. done. }
  destruct (at_place N lg q) as [[t' d]|] eqn:Ea.
  - intros Ets. eapply Hend; [done| |done]. by intros ? ? [= <- <-].
  - intros _. by eapply Hend.
Qed.

Lemma wp_start N lg r (Q : unit → IndexedEntryRecord I C → Prop) :
  Fresh N lg r → (∀ r', Log N (log_settle lg) r' → Q tt r') → wp start Q r.
Proof.
  intros [Hst [G1 G2 G3] Hmed Hrdy Hix Hixst Hfits Hnames] HQ.
  pose proof (place_bounds (C := C) (D := D)) as Hp. pose proof (ck_meta (C := I)) as HmI.
  pose proof size_bounds. unfold start.
  apply wp_bind, wp_gets. rewrite Hst. apply wp_bind, wp_bind, wp_modify, wp_on_entries.
  cbn [set_started m_chunkHandler].
  eapply wp_mono; [by apply (ck_start_ok (C := C))|]. intros [] c (Hc & El & Es & Hroom).
  apply wp_bind, wp_on_index. cbn [set_started m_indexRecord]. unfold IndexRecord.start.
  apply wp_bind, wp_gets. rewrite Hixst. apply wp_bind, wp_bind, wp_modify, wp_index_on_chunk.
  cbn [IndexRecord.set_started IndexRecord.m_chunkHandler].
  eapply wp_mono; [by apply (ck_start_ok (C := I))|]. intros [] i (Hi & Eli & Esi & Hroomi).
  apply wp_modify. apply wp_bind, wp_modify. apply wp_bind, wp_modify. apply wp_bind, wp_on_index.
  match goal with |- wp _ _ (m_indexRecord ?r1) => set (r2 := r1) end.
  assert (Ring N lg r2) as HR2.
  { split; simpl; [by eapply Media_same|by split|done|]. rewrite Hroom.
    destruct Hmed as [Hl Hf _]. pose proof (log_places _ _ Hl). unfold place in *. nia. }
  assert (Index_ok (m_indexRecord r2)) as Hx2.
  { split; simpl; [done|by rewrite Eli|]. rewrite Hroomi. unfold index_place in Hfits. lia. }
  assert (index_slot (IndexRecord.m_chunkHandler (m_indexRecord r2)) =
    index_slot (IndexRecord.m_chunkHandler (m_indexRecord r))) as Esl2 by apply Esi.
  assert (∃ o t, index_value (index_slot (IndexRecord.m_chunkHandler (m_indexRecord r2))) o t)
    as (o & t & Hv).
  { rewrite Esl2. destruct Hnames as [|q t Hq Ht _]; [by exists 0, 0; left|].
    exists (q * PL), t. right. split; [done|]. split; [|done]. by apply (place_value N lg r2). }
  eapply wp_index_read; [done|done|]. intros x' Hx' Hget Hslot.
  clearbody r2. apply wp_bind.
  eapply wp_verifyIndex with (N := N) (lg := lg) (o := o) (t := t).
  - destruct HR2 as [H1 [G1' G2' G3'] H3 H4]. by split; [|split|..].
  - done.
  - simpl. by rewrite Hslot, Esl2.
  - simpl. by rewrite Hslot.
  - done.
  - intros r3 HL Et. apply wp_modify, HQ. by rewrite Et.
Qed.

(** ** Adding an entry *)

Lemma newest_place N lg : log_ok N lg → 0 <= newest lg mod N < N.
Proof. intros Hok. apply Z.mod_pos_bound. destruct Hok. lia. Qed.

(** After the first half the index is ahead of the entries. *)
Record Ahead (N : Z) lg r : Prop := {
  ahead_ring : Ring N lg r;
  ahead_index : Index_ok (m_indexRecord r);
  ahead_slot : index_slot (IndexRecord.m_chunkHandler (m_indexRecord r)) =
    Good (index_bytes (((newest lg + 1) mod N) * PL) (newest lg + 1));
  ahead_timestamp : m_latestTimestamp r = newest lg + 1;
  ahead_entry : m_entryTimestamp r = newest lg + 1;
  ahead_offset : m_latestOffset r = ((newest lg + 1) mod N) * PL;
  ahead_mp : m_mpIndex r = newest lg + 1
}.

Lemma wp_advanceIndex N lg r (Q : bool → IndexedEntryRecord I C → Prop) :
  Log N lg r → newest lg < 2 ^ 64 - 1 → (∀ r', Ahead N lg r' → Q true r') → wp advanceIndex Q r.
Proof.
  intros [HR Hset Hx Hsl Ht Ho Hm] Hmax HQ.
  pose proof (media_log _ _ _ (ring_media _ _ _ HR)) as Hok. pose proof (log_newest _ _ Hok).
  unfold advanceIndex. apply wp_bind, wp_gets. rewrite Ho.
  rewrite (incrementOffset_place _ _ _ _ HR) by by apply newest_place.
  rewrite Z.add_mod_idemp_l by (destruct Hok; lia).
  apply wp_bind, wp_modify, wp_bind, wp_gets, wp_bind, wp_on_index.
  cbn [set_entryTimestamp m_indexRecord m_entryTimestamp].
  assert (u64 (m_latestTimestamp r + 1) = newest lg + 1) as ->.
  { rewrite Ht. apply Z.mod_small. lia. }
  apply wp_modify, wp_bind, wp_on_index. cbn [m_indexRecord].
  eapply wp_index_write; [|done|].
  { destruct Hx as [H1 H2 H3]. by split. }
  intros x' Hx' Hsl'. apply wp_bind, wp_modify, wp_bind, wp_modify, wp_ret, HQ.
  destruct HR as [H1 [G1 G2 G3] H3 H4]. by split; simpl in *.
Qed.

(** Places lie in the region, apart from each other. *)
Lemma place_fits N L q :
  N * PL <= L → 0 <= q < N → 0 <= q * PL ∧ q * PL + PL <= L ∧
  PL = pl_size (D := D) + 8 + ck_getMetadataLength (C := C).
Proof. intros HL Hq. pose proof (place_bounds (C := C) (D := D)). split_and!; [nia|nia|done]. Qed.

Lemma places_apart q q' : q ≠ q' → q * PL + PL <= q' * PL ∨ q' * PL + PL <= q * PL.
Proof. intros Hq. pose proof (place_bounds (C := C) (D := D)). destruct (decide (q < q')); [left|right]; nia. Qed.

(** The entry is written to the place of the oldest one. *)
Lemma wp_write_entry N lg r d (Q : bool → IndexedEntryRecord I C → Prop) :
  Ahead N lg r → newest lg < 2 ^ 64 - 1 → (∀ r', Log N (log_add N d lg) r' → Q true r') →
  wp (modify (set_handler true);; r ← get_st; writeToMedia (Some d) (m_latestOffset r)) Q r.
Proof.
  intros [HR Hx Hsl Ht He Ho Hm] Hmax HQ. destruct (Ring_sizes _ _ _ HR) as (HN & Hle & Hlen).
  destruct HR as [[Hok Hf Hs] [G1 G2 G3] Hi Hr]. pose proof (log_newest _ _ Hok).
  pose proof (place_bounds (C := C) (D := D)) as Hp. pose proof (pl_size_ok (D := D)) as Hsz.
  pose proof (Z.mod_pos_bound (newest lg + 1) N ltac:(lia)) as Hq.
  destruct (place_fits _ _ _ Hf Hq) as (B1 & B2 & B3).
  apply wp_bind, wp_modify, wp_bind, wp_gets. unfold writeToMedia.
  apply wp_bind, wp_gets, wp_on_entries. cbn [set_handler m_latestOffset m_entryTimestamp m_chunkHandler].
  rewrite Ho, He.
  eapply wp_mono; [apply (ck_update_ok (C := C) _ _ (entry_bytes (newest lg + 1) d)); [done| |..]|].
  - unfold getData, getMetadataLength. rewrite (proj2 (Z.ltb_ge _ _)) by lia.
    rewrite pl_get_ok by lia. pose proof (pl_length d). unfold entry_bytes.
    destruct (pl_bytes d); [simpl in *; lia|done].
  - intros E. apply (f_equal (λ l, Z.of_nat (length l))) in E. rewrite length_entry_bytes in E.
    simpl in E. lia.
  - apply Forall_app_2; [apply le_bytes_byte|apply pl_byte].
  - rewrite length_entry_bytes. lia.
  - lia.
  - rewrite length_entry_bytes. lia.
  - intros ok c (-> & Hc & El & Hroom & Hown & Hother). rewrite length_entry_bytes in *.
    apply HQ. pose proof (log_add_ok _ d _ Hok Hmax) as Hok'.
    split; [| |exact Hx|exact Hsl|exact Ht|reflexivity|exact Hm].
    2:{ intros E. apply (f_equal length) in E. cbn [log_add kept] in E. rewrite length_take in E.
        cbn [length] in E. lia. }
    split; cbn [m_chunkHandler]; [|by split|done|lia]. split; [done|by rewrite El|].
    intros q Hq'. rewrite at_place_add by done.
    destruct (place_fits _ _ _ Hf Hq') as (B4 & B5 & _). case_decide as E.
    + subst q. apply Hown; lia.
    + rewrite <-Hs by done. apply Hother; [lia..|]. destruct (places_apart _ _ E); lia.
Qed.

Lemma wp_addEntry N lg r d (Q : bool → IndexedEntryRecord I C → Prop) :
  Log N lg r → newest lg < 2 ^ 64 - 1 → (∀ r', Log N (log_add N d lg) r' → Q true r') →
  wp (addEntry d) Q r.
Proof.
  intros HL Hmax HQ. unfold addEntry. apply wp_bind. eapply wp_advanceIndex; [done..|].
  intros r1 H1. by eapply wp_write_entry.
Qed.

(** ** Clearing *)

Definition log_empty : log D := mkLog 0 [].

Lemma wp_clear_loop N : ∀ fuel off r (Q : bool → IndexedEntryRecord I C → Prop),
  let c := m_chunkHandler r in
  Geometry N r → ck_inv c → ck_zero c off → 0 <= off <= ck_region_length c →
  ck_region_length c - off <= Z.of_nat fuel →
  (∀ r', Geometry N r' → Still r r' → ck_inv (m_chunkHandler r') →
     ck_region_length (m_chunkHandler r') = ck_region_length c → ck_room (m_chunkHandler r') = ck_room c →
     ck_zero (m_chunkHandler r') (ck_region_length c) → Q true r') →
  wp (clear_loop fuel off) Q r.
Proof.
  induction fuel as [|fuel IH]; intros off r Q c HG Hc Hz Hoff Hf HQ; simpl; apply wp_bind, wp_gets;
    change (m_chunkHandler r) with c.
  - rewrite (proj2 (Z.ltb_ge _ _)) by lia. apply wp_ret. assert (off = ck_region_length c) as -> by lia.
    by apply HQ.
  - destruct (Z.ltb_spec off (ck_region_length c)) as [Hlt|Hge].
    + pose proof (ck_length (C := C) c (or_introl Hc)) as Hlen. pose proof SIZE_MAX_lower.
      rewrite (size_t_id (_ - off)) by lia.
      apply wp_bind, wp_on_entries. change (m_chunkHandler r) with c.
      eapply wp_mono; [apply (ck_write_ok (C := C)); [done|done|lia..]|].
      intros ok c' (-> & Hc' & El & Er & Hz'). rewrite size_t_id by lia.
      apply IH; simpl; [by destruct HG; split|done|done|rewrite El; lia|rewrite El; lia|].
      intros r' HG' Hs' Hi' El' Er' Hz2. rewrite El in *. apply HQ; [done| |done|done|congruence|done].
      destruct Hs'. by split.
    + apply wp_ret. assert (off = ck_region_length c) as -> by lia. by apply HQ.
Qed.

Lemma wp_clearAllEntries N lg r (Q : bool → IndexedEntryRecord I C → Prop) :
  Log N lg r → (∀ r', Log N log_empty r' → Q true r') → wp clearAllEntries Q r.
Proof.
  intros [HR Hset Hx Hsl Ht Ho Hm] HQ. destruct (Ring_sizes _ _ _ HR) as (HN & Hle & Hlen).
  destruct HR as [[Hok Hf Hs] HG Hi Hr]. pose proof (place_bounds (C := C) (D := D)) as Hp.
  unfold clearAllEntries. apply wp_bind, wp_gets, wp_bind.
  eapply (wp_clear_loop N); [done|done|apply ck_zero_0| |lia|].
  { pose proof (ck_length (C := C) _ (or_introl Hi)). lia. }
  intros r1 HG1 [_ _ _ _ S5] Hi1 El1 Er1 Hz1. apply wp_bind, wp_modify, wp_bind, wp_ret, wp_bind, wp_gets.
  apply wp_bind, wp_on_index, wp_modify, wp_bind, wp_on_index.
  cbn [set_latest m_indexRecord m_latestOffset m_latestTimestamp].
  eapply wp_index_write; [|done|].
  { rewrite S5. destruct Hx as [H1 H2 H3]. by split. }
  intros x' Hx' Hsl'. apply wp_bind, wp_modify, wp_ret, HQ. destruct HG1 as [G1 G2 G3].
  split; simpl; try done; [|by rewrite Z.mod_0_l by lia..].
  split; simpl; [|by split|done|by rewrite Er1].
  split; [split; simpl; lia|by rewrite El1|]. intros q Hq.
  destruct (place_fits _ _ _ Hf Hq) as (B1 & B2 & _).
  by rewrite (ck_zero_bad (C := C) (ck_region_length (m_chunkHandler r))) by (done || lia).
Qed.
End records.
