(* ===== verification/RecordsLife.v ===== *)
(** * A persistent log through its life

    A record against the log: programs of adds, reads and clears, and restarts
    after a power failure at any point of addEntry. *)

From Stdlib Require Import ZArith Lia.
From S2P Require Import Prelude Checksum Media MediaSpec Chunk ChunkSpec Records RecordsSpec RecordsLog RecordsOps RecordsTheorems.
Local Open Scope Z_scope.
Local Open Scope pim_scope.
Import Entries.

Section life.
Context `{Platform} {I C D : Type} `{!Chunk I, !ChunkOk I, !Chunk C, !ChunkOk C, !Payload D, !PayloadOk D}.
Implicit Types (r : IndexedEntryRecord I C) (lg : log D).

Abbreviation PL := (place (C := C) (D := D)).
Abbreviation marker N t := (marker_of (C := C) (D := D) N t).

(** ** Programs *)

Inductive rop :=
  | OAdd (d : D)
  | OLatest
  | ONext (m : EntryMarker_T)
  | OPrevious (m : EntryMarker_T)
  | OIndex (bufferIndex : Z)
  | OClear.

Inductive rres := RBool (b : bool) | REntry (o : option (EntryMarker_T * D)).

Definition found (x : option EntryMarker_T * D) : rres :=
  REntry (match x.1 with Some m => Some (m, x.2) | None => None end).

(** [dst] is the payload that reads go to. *)
Definition run_op (dst : D) (o : rop) : ST (IndexedEntryRecord I C) rres :=
  match o with
  | OAdd d => ok ← addEntry d; ret (RBool ok)
  | OLatest => x ← getLatest dst; ret (found x)
  | ONext m => x ← getNext (indexValue m) m dst; ret (found x)
  | OPrevious m => x ← getPrevious (indexValue m) m dst; ret (found x)
  | OIndex b => x ← getByBufferIndex b dst; ret (found x)
  | OClear => ok ← clearAllEntries; ret (RBool ok)
  end.

Fixpoint run_ops (dst : D) (os : list rop) : ST (IndexedEntryRecord I C) (list rres) :=
  match os with
  | [] => ret []
  | o :: os => x ← run_op dst o; xs ← run_ops dst os; ret (x :: xs)
  end.

(** On the log: entry [t], with its marker. *)
Definition get_entry (N : Z) lg (t : Z) : rres :=
  REntry ((λ d, (marker N t, d)) <$> entry lg t).

Definition spec_op (N : Z) lg (o : rop) : log D * rres :=
  match o with
  | OAdd d => (log_add N d lg, RBool true)
  | OLatest => (lg, get_entry N lg (newest lg))
  | ONext m => (lg, get_entry N lg (indexValue m + 1))
  | OPrevious m => (lg, get_entry N lg (indexValue m - 1))
  | OIndex b =>
    (lg, REntry (if b <? N
      then (λ td, (marker N td.1, td.2)) <$> at_place N lg ((b + 1) mod N) else None))
  | OClear => (log_empty, RBool true)
  end.

Fixpoint spec_ops (N : Z) lg (os : list rop) : log D * list rres :=
  match os with
  | [] => (lg, [])
  | o :: os =>
    let '(lg, x) := spec_op N lg o in let '(lg, xs) := spec_ops N lg os in (lg, x :: xs)
  end.

(** A marker is that of an entry that is still there; the numbers do not run
    out. *)
Definition op_ok (N : Z) lg (o : rop) : Prop :=
  match o with
  | OAdd _ => newest lg < 2 ^ 64 - 1
  | ONext m | OPrevious m => is_Some (entry lg (indexValue m)) ∧ m = marker N (indexValue m)
  | OIndex b => 0 <= b
  | _ => True
  end.

Fixpoint ops_ok (N : Z) lg (os : list rop) : Prop :=
  match os with [] => True | o :: os => op_ok N lg o ∧ ops_ok N (spec_op N lg o).1 os end.

Lemma Log_read N lg r r' : Log N lg r → Ring N lg r' → Still r r' → Log N lg r'.
Proof.
  intros [_ H1 H2 H3 H4 H5 H6] HR [_ S1 S2 S3 S4]. split; [done|done|by rewrite S4|by rewrite S4| | |].
  - by rewrite S1.
  - by rewrite S2.
  - by rewrite S3.
Qed.

Lemma Log_ok N lg r : Log N lg r → log_ok N lg.
Proof. intros HL. apply HL. Qed.

(** Entry [t] is what its place holds. *)
Lemma wp_get_place N lg r t dst (Q : rres → IndexedEntryRecord I C → Prop) :
  Log N lg r → newest lg - N < t <= newest lg → (∀ r', Log N lg r' → Q (get_entry N lg t) r') →
  wp (x ← getByOffset ((t mod N) * PL) dst; ret (found x)) Q r.
Proof.
  intros HL Ht HQ. pose proof (Log_ok _ _ _ HL) as Hok. pose proof (log_places _ _ Hok).
  pose proof (Z.mod_pos_bound t N ltac:(lia)) as Hq.
  apply wp_bind. eapply wp_getByOffset; [apply HL|done|]. intros r' HR' Hs.
  assert (Log N lg r') as HL' by by eapply Log_read.
  specialize (HQ r' HL'). unfold get_entry in HQ.
  destruct (at_place N lg (t mod N)) as [[t' d]|] eqn:E.
  - destruct (at_place_inv _ _ _ _ _ Hok Hq E) as [He Em].
    destruct (entry_bounds _ _ _ _ Hok He) as [Hb _].
    assert (t' = t) as ->.
    { pose proof (age_of N (newest lg) t ltac:(lia) Ht) as A1.
      pose proof (age_of N (newest lg) t' ltac:(lia) Hb) as A2. rewrite Em in A2. lia. }
    intros _. apply wp_ret. by rewrite He in HQ.
  - apply wp_ret. destruct (entry lg t) as [d|] eqn:He; [|done].
    by rewrite (at_place_entry _ _ _ _ Hok He) in E.
Qed.

Lemma wp_search_op N lg r step next wanted q dst t (Q : rres → IndexedEntryRecord I C → Prop) :
  Log N lg r →
  (∀ r q, Ring N lg r → 0 <= q < N → step r (q * PL) = next q * PL ∧ 0 <= next q < N) →
  0 <= q < N →
  find_from (Z.to_nat (N - 1)) next wanted N lg q = (λ d, (t, d)) <$> entry lg t →
  (∀ r', Log N lg r' → Q (get_entry N lg t) r') →
  wp (x ← search (Z.to_nat (N - 1)) step wanted (q * PL) dst; ret (found x)) Q r.
Proof.
  intros HL Hstep Hq Hfind HQ. apply wp_bind.
  eapply wp_search; [exact Hstep|apply HL|done|]. intros r' dst' HR' Hs. rewrite Hfind.
  assert (Log N lg r') as HL' by by eapply Log_read.
  apply wp_ret. specialize (HQ r' HL'). unfold get_entry in HQ. by destruct (entry lg t).
Qed.

Lemma wp_index_op N lg r dst b (Q : rres → IndexedEntryRecord I C → Prop) :
  Log N lg r → 0 <= b → (∀ r', Log N lg r' → Q (spec_op N lg (OIndex b)).2 r') →
  wp (x ← getByBufferIndex b dst; ret (found x)) Q r.
Proof.
  intros HL Hb HQ. destruct (Ring_sizes _ _ _ (log_ring _ _ _ HL)) as (HN & Hle & Hmax).
  destruct (ring_geo _ _ _ (log_ring _ _ _ HL)) as [G1 G2 G3].
  pose proof (place_bounds (C := C) (D := D)) as Hp. pose proof SIZE_MAX_lower.
  assert (N <= 2 ^ 31) as HN' by nia.
  unfold getByBufferIndex, getMaxIndex. apply wp_bind_assoc. apply wp_bind, wp_gets.
  rewrite G1, G2, G3. rewrite (size_t_id (N - 1)) by lia. simpl in HQ.
  destruct (Z.ltb_spec b N) as [Hlt|Hge].
  2:{ rewrite gtb_true by lia. apply wp_bind, wp_ret, wp_ret. by apply HQ. }
  rewrite gtb_false by lia. rewrite (size_t_id (b + 1)), (size_t_id ((b + 1) * PL)) by nia.
  assert ((if (b + 1) * PL >? (N - 1) * PL then 0 else (b + 1) * PL) = ((b + 1) mod N) * PL) as ->.
  { destruct (decide (b + 1 = N)) as [E|E].
    - rewrite gtb_true by nia. rewrite E, Z.mod_same by lia. done.
    - rewrite gtb_false by nia. by rewrite Z.mod_small by lia. }
  apply wp_bind. eapply wp_getByOffset; [apply HL|apply Z.mod_pos_bound; lia|].
  intros r' HR' Hs. assert (Log N lg r') as HL' by by eapply Log_read.
  specialize (HQ r' HL'). destruct (at_place N lg _) as [[t d]|]; [intros _|]; by apply wp_ret.
Qed.

Lemma wp_run_op N lg r dst o (Q : rres → IndexedEntryRecord I C → Prop) :
  Log N lg r → op_ok N lg o → (∀ r', Log N (spec_op N lg o).1 r' → Q (spec_op N lg o).2 r') →
  wp (run_op dst o) Q r.
Proof.
  intros HL Ho HQ. pose proof (Log_ok _ _ _ HL) as Hok. pose proof (log_places _ _ Hok) as HN.
  destruct (ring_geo _ _ _ (log_ring _ _ _ HL)) as [G1 G2 G3].
  destruct o as [d| |m|m|b|]; simpl in *.
  - apply wp_bind. eapply wp_addEntry; [done..|]. intros r' HL'. by apply wp_ret, HQ.
  - unfold getLatest. apply wp_bind_assoc. apply wp_bind, wp_gets. rewrite (log_offset _ _ _ HL).
    eapply wp_get_place; [done|lia|done].
  - destruct Ho as [[d Hd] ->]. simpl in *. unfold getNext. apply wp_bind_assoc.
    apply wp_bind, wp_gets. simpl. rewrite G2.
    pose proof (Z.mod_pos_bound (indexValue m) N ltac:(lia)).
    rewrite (incrementOffset_place N lg) by (apply HL || lia).
    eapply wp_search_op with (next := λ q, (q + 1) mod N); [done| | |by eapply find_next|done].
    + intros r1 q HR1 Hq. split; [by eapply incrementOffset_place|apply Z.mod_pos_bound; lia].
    + apply Z.mod_pos_bound. lia.
  - destruct Ho as [[d Hd] ->]. simpl in *. unfold getPrevious. apply wp_bind_assoc.
    apply wp_bind, wp_gets. simpl. rewrite G2.
    pose proof (Z.mod_pos_bound (indexValue m) N ltac:(lia)).
    rewrite (decrementOffset_place N lg) by (apply HL || lia).
    eapply wp_search_op with (next := λ q, (q - 1) mod N); [done| | |by eapply find_previous|done].
    + intros r1 q HR1 Hq. split; [by eapply decrementOffset_place|apply Z.mod_pos_bound; lia].
    + apply Z.mod_pos_bound. lia.
  - by eapply wp_index_op.
  - apply wp_bind. eapply wp_clearAllEntries; [done|]. intros r' HL'. by apply wp_ret, HQ.
Qed.

Lemma wp_run_ops N dst os : ∀ lg r,
  Log N lg r → ops_ok N lg os →
  wp (run_ops dst os) (λ xs r', xs = (spec_ops N lg os).2 ∧ Log N (spec_ops N lg os).1 r') r.
Proof.
  induction os as [|o os IH]; intros lg r HL Hos; [by apply wp_ret|]. destruct Hos as [Ho Hos]. simpl.
  destruct (spec_op N lg o) as [lg1 x] eqn:E. apply wp_bind.
  eapply wp_run_op; [done..|]. intros r1 HL1. rewrite E in *. simpl in *.
  apply wp_bind. eapply wp_mono; [by apply IH|]. intros xs r2 [-> HL2].
  apply wp_ret. by destruct (spec_ops N lg1 os).
Qed.

(** ** Power failures *)

(** A new record on media with the entries [e] and the index [ix]. *)
Record PoweredUp (N : Z) (e : log D) (ix : Slot) r : Prop := {
  up_started : m_started r = false;
  up_geo : Geometry (D := D) N r;
  up_media : Media N e (m_chunkHandler r);
  up_ready : ck_ready (m_chunkHandler r);
  up_index : ck_ready (IndexRecord.m_chunkHandler (m_indexRecord r));
  up_index_started : IndexRecord.m_started (m_indexRecord r) = false;
  up_index_fits : index_place (I := I) <= ck_region_length (IndexRecord.m_chunkHandler (m_indexRecord r));
  up_index_slot : index_slot (IndexRecord.m_chunkHandler (m_indexRecord r)) = ix
}.

(** The index that names entry [t]. *)
Definition index_of (N t : Z) : Slot := Good (index_bytes ((t mod N) * PL) t).

(** What the media can hold when the power fails while [d] is added to [lg]: the
    entries, the index, and the log that should be found.  The index is written
    first; what is being written can be lost. *)
Inductive cut (N : Z) lg (d : D) : log D → Slot → log D → Prop :=
  | cut_before : cut N lg d lg (index_of N (newest lg)) lg
  | cut_index_lost : cut N lg d lg Bad lg
  | cut_between : cut N lg d lg (index_of N (newest lg + 1)) lg
  | cut_entry_lost :
      cut N lg d (log_torn N lg) (index_of N (newest lg + 1)) (log_settle (log_torn N lg))
  | cut_after :
      cut N lg d (log_add N d lg) (index_of N (newest lg + 1)) (log_add N d lg).

Lemma settled_log N lg r : Log N lg r → log_settle lg = lg.
Proof.
  intros HL. pose proof (log_settled _ _ _ HL) as Hs. destruct lg as [n k]. unfold log_settle. simpl in *.
  destruct k; [|done]. by rewrite Hs.
Qed.

Lemma newest_named N lg :
  log_ok N lg → index_names N lg (index_of N (newest lg)).
Proof.
  intros Hok. destruct (log_newest _ _ Hok). constructor; [by apply newest_place|lia|done].
Qed.

(** Nothing has the next number. *)
Lemma next_named N lg lg' :
  log_ok N lg → newest lg < 2 ^ 64 - 1 → log_ok N lg' → newest lg' = newest lg →
  index_names (C := C) N lg' (index_of N (newest lg + 1)).
Proof.
  intros Hok Hmax Hok' E. destruct (log_newest _ _ Hok). pose proof (log_places _ _ Hok).
  pose proof (Z.mod_pos_bound (newest lg + 1) N ltac:(lia)).
  constructor; [done|lia|]. intros d' Hd'.
  destruct (at_place_inv _ _ _ _ _ Hok' ltac:(done) Hd') as [He _].
  destruct (entry_bounds _ _ _ _ Hok' He). lia.
Qed.

Lemma wp_power_up N lg d e ix lg' r (Q : unit → IndexedEntryRecord I C → Prop) :
  log_ok N lg → log_settle lg = lg → newest lg < 2 ^ 64 - 1 → cut N lg d e ix lg' →
  PoweredUp N e ix r → (∀ r', Log N lg' r' → Q tt r') → wp start Q r.
Proof.
  intros Hok Hset Hmax Hcut [U1 U2 U3 U4 U5 U6 U7 U8] HQ.
  pose proof (media_log _ _ _ U3) as Hok'.
  assert (index_names (C := C) N e ix ∧ lg' = log_settle e) as [Hn ->].
  { destruct Hcut; (split; [|try done]).
    - by apply newest_named.
    - constructor.
    - by apply (next_named N lg lg).
    - by apply (next_named N lg (log_torn N lg)).
    - by apply (newest_named N (log_add N d lg)).
    - pose proof (log_places _ _ Hok). unfold log_settle, log_add. simpl.
      destruct (Z.to_nat N) eqn:E; [lia|done]. }
  eapply wp_start; [|exact HQ]. split; try done. by rewrite U8.
Qed.

(** What is on the media of a record. *)
Definition on_media (N : Z) (e : log D) (ix : Slot) r : Prop :=
  Media N e (m_chunkHandler r) ∧ index_slot (IndexRecord.m_chunkHandler (m_indexRecord r)) = ix.

(** C9. The record of indexed entries is a log: started on any media that hold
    the last [N] entries of a log, whatever its index record holds that does not
    name an older entry by its number, every program of adds, reads and clears
    succeeds and answers as on the log: the latest entry, the entry after or
    before one that was read and is still there, the entry at a place of the
    ring, each with its number and place; adding to a full ring replaces the
    oldest entry. *)
Theorem indexed_entries_are_a_log N lg r dst os :
  Fresh N lg r → ops_ok N (log_settle lg) os →
  ∃ r', (start;; run_ops dst os) r = Some ((spec_ops N (log_settle lg) os).2, r') ∧
    Log N (spec_ops N (log_settle lg) os).1 r'.
Proof.
  intros HF Hos. assert (wp (start;; run_ops dst os) (λ xs r',
    xs = (spec_ops N (log_settle lg) os).2 ∧ Log N (spec_ops N (log_settle lg) os).1 r') r) as Hw.
  { apply wp_bind. eapply wp_start; [done|]. intros r1 H1. by apply wp_run_ops. }
  apply wp_run in Hw as (xs & r' & Hr & -> & HL). by exists r'.
Qed.

End life.

(** ** A stale marker

    A reader whose entry has been overwritten is not given the next newer entry:
    in a ring of four that holds entries 4 to 7, getNext after entry 1, from the
    place of entry 1, yields entry 6. *)
Lemma stale_marker_skips_entries :
  let lg := mkLog 7 ["g"; "f"; "e"; "d"]%string in
  entry lg 4 = Some "d"%string ∧
  find_from 3 (λ q, (q + 1) mod 4) (λ t, t >? 1) 4 lg ((1 mod 4 + 1) mod 4) = Some (6, "f"%string).
Proof. done. Qed.

(** ** Entries of one byte on an EEPROM *)

Module OnEeprom.

#[global] Instance nvadapter_start `{Platform} {D} `{!NvApi D, !NvApiOk D} :
  RegionStartOk (NVAdapter.NVAdapter D).
Proof.
  refine {| rm_ready := λ s, nv_ready (NVAdapter.m_driver s) ∧ 0 <= NVAdapter.m_startAddress s ∧
    0 < NVAdapter.m_regionLength s ∧
    NVAdapter.m_startAddress s + NVAdapter.m_regionLength s <= nv_getTotalSize (NVAdapter.m_driver s) |}.
  - intros s (Hd & Ha & Hl & Hle). destruct (nv_size _ (or_intror Hd)) as [Hs ?]. cbn.
    unfold NVAdapterProofs.window. rewrite length_slice; lia.
  - intros s (Hd & Ha & Hl & Hle). destruct (nv_size _ (or_intror Hd)) as [Hs ?].
    cbn. unfold NVAdapter.start. apply wp_bind, NVAdapterProofs.wp_on_driver.
    eapply wp_mono; [by apply nv_start_ok|]. intros ok d (-> & Hd' & Hv). apply wp_ret.
    destruct (nv_size _ (or_introl Hd')) as [Hs' ?]. rewrite Hv in Hs'.
    unfold NVAdapterProofs.adapter_inv, NVAdapterProofs.window. cbn. rewrite Hv, Hs'.
    split_and!; [done..|lia|done].
Defined.

Definition flag_putData (src : list Z) (b : bool) : bool * bool :=
  match src with [z] => (true, negb (z =? 0)) | _ => (false, b) end.

#[global] Instance flag_payload : Payload bool := {
  pl_getData b n := if n <? 1 then [] else [Z.b2z b];
  pl_putData := flag_putData
}.

#[global] Program Instance flag_payload_ok : PayloadOk bool := {
  pl_size := 1;
  pl_bytes b := [Z.b2z b]
}.
Next Obligation. done. Qed.
Next Obligation. intros d n Hn. simpl. by rewrite (proj2 (Z.ltb_ge _ _)). Qed.
Next Obligation. done. Qed.
Next Obligation. intros d. constructor; [|constructor]. destruct d; done. Qed.
Next Obligation. by intros [] []. Qed.

Abbreviation Eeprom := (CrcChunk.CrcChunk (NVAdapter.NVAdapter (Cat24C512.Api chip))).

(** A chunk over a blank region of [n] bytes, not started. *)
Definition blank_chunk (dev n : Z) : Eeprom :=
  CrcChunk.MkCrcChunk (NVAdapter.MkAdapter (Cat24C512.MkApi chip0 dev false) 1000 n) 0 zeros.

(** Room for three entries and a rest. *)
Definition blank_record : IndexedEntryRecord Eeprom Eeprom :=
  default (mkRecord (blank_chunk 0x50 60) false 0 0 0
      (IndexRecord.mkIndex (blank_chunk 0x51 30) false 0 0 false) false 0 0 0 0)
    (IndexedEntryRecord_new (blank_chunk 0x50 60) 1
      (IndexRecord.mkIndex (blank_chunk 0x51 30) false 0 0 false)).

Lemma blank_ready dev n :
  0 < n <= 1000 → CrcChunk.FRAME_OVERHEAD <= n → crc_ready (blank_chunk dev n).
Proof.
  intros Hn Hf. split; [|split; [|split; [vm_compute; reflexivity|exact Hf]]].
  - split; [|cbn; change (nv_getTotalSize _) with 65536; lia].
    split; [reflexivity|split; [split; [vm_compute; reflexivity|cbn; lia]|split; [reflexivity|cbn; lia]]].
  - apply Forall_slice, Forall_replicate. unfold is_byte. lia.
Qed.

Lemma blank_record_fresh : Fresh (D := bool) 3 (mkLog 0 []) blank_record.
Proof.
  split.
  - vm_compute. reflexivity.
  - split; vm_compute; reflexivity.
  - split; [split; vm_compute; intuition congruence|vm_compute; congruence|].
    intros q Hq. assert (q = 0 ∨ q = 1 ∨ q = 2) as [->|[->| ->]] by lia; vm_compute; reflexivity.
  - apply (blank_ready 0x50 60); [lia|vm_compute; congruence].
  - apply (blank_ready 0x51 30); [lia|vm_compute; congruence].
  - vm_compute. reflexivity.
  - vm_compute. congruence.
  - assert (index_slot (IndexRecord.m_chunkHandler (m_indexRecord blank_record)) = Bad) as ->
      by (vm_compute; reflexivity).
    constructor.
Qed.
End OnEeprom.
Import OnEeprom.

Definition four_adds : list (rop (D := bool)) :=
  [OAdd true; OAdd false; OAdd true; OAdd true; OLatest;
   OPrevious (marker_of (C := Eeprom) (D := bool) 3 4); ONext (marker_of (C := Eeprom) (D := bool) 3 2);
   OIndex 1; OClear; OLatest].

Lemma indexed_entries_are_a_log_witness :
  (spec_ops (C := Eeprom) 3 (log_settle (mkLog 0 [])) four_adds).2 =
    [RBool true; RBool true; RBool true; RBool true;
     REntry (Some (mkMarker 4 17, true)); REntry (Some (mkMarker 3 0, true));
     REntry (Some (mkMarker 3 0, true)); REntry (Some (mkMarker 2 34, false)); RBool true; REntry None] ∧
  ∃ r', (start;; run_ops false four_adds) blank_record =
      Some ((spec_ops (C := Eeprom) 3 (log_settle (mkLog 0 [])) four_adds).2, r') ∧
    Log 3 (spec_ops (C := Eeprom) 3 (log_settle (mkLog 0 [])) four_adds).1 r'.
Proof.
  split; [vm_compute; reflexivity|].
  apply (indexed_entries_are_a_log 3 (mkLog 0 []) blank_record false four_adds).
  - exact blank_record_fresh.
  - vm_compute. intuition (congruence || eauto).
Defined.

Lemma blank_record_up : PoweredUp (D := bool) 3 (mkLog 0 []) Bad blank_record.
Proof.
  destruct blank_record_fresh as [H1 H2 H3 H4 H5 H6 H7 _]. split; try done.
Qed.

(** Records in use, over the log without entries and with one. *)
Lemma running_empty : ∃ r : IndexedEntryRecord Eeprom Eeprom, Log 3 (mkLog (D := bool) 0 []) r.
Proof.
  assert (wp start (λ _ r, Log 3 (mkLog (D := bool) 0 []) r) blank_record) as Hw
    by (by eapply wp_start; [exact blank_record_fresh|]).
  destruct (proj1 (wp_run _ _ _) Hw) as (u & r & _ & HL). by exists r.
Qed.

Lemma running_after_one :
  ∃ r : IndexedEntryRecord Eeprom Eeprom, Log 3 (log_add 3 true (mkLog 0 [])) r.
Proof.
  destruct running_empty as [r0 H0].
  assert (wp (addEntry true) (λ _ r, Log 3 (log_add 3 true (mkLog 0 [])) r) r0) as Hw
    by (by eapply wp_addEntry; [exact H0|simpl; lia|]).
  destruct (proj1 (wp_run _ _ _) Hw) as (u & r & _ & HL). by exists r.
Qed.

