(* ===== verification/Dm.v ===== *)
(** * Model points and their subscribers

    Models src/src/Cpl/Dm: ModelPointCommon_.cpp, Subscriber.cpp, EventLoop.cpp,
    the reference counter of Mp/RefCounter.cpp and the counting methods of
    Mp/Numeric.h.  A model point is a value with a lock, a valid state and a
    sequence number; a subscriber is in at most one list, that of the idle
    subscribers of its point or that of the pending notifications of its event
    loop.  A method that changes a point holds the lock of the model database (or
    the global lock, for the list of an event loop) from its start to its end, so
    a call is one step; copyDataAndStateFrom and readAndSync are two.  What other
    threads do between two steps is in DmSystem.  The pointers handed in are not
    null, and the hooks are those of ModelPointCommon_. *)

From Stdlib Require Import ZArith Lia.
From S2P Require Import Prelude.
Local Open Scope Z_scope.
Local Open Scope pim_scope.

(** Addresses of subscribers, model points and event loops. *)
Abbreviation sid := positive (only parsing).
Abbreviation mpid := positive (only parsing).
Abbreviation lid := positive (only parsing).

(** ** State *)

(** The states of a subscriber (State_T of ModelPointCommon_.cpp). *)
Inductive State_T :=
  | eSTATE_UNSUBSCRIBED
  | eSTATE_IDLE
  | eSTATE_NOTIFY_PENDING
  | eSTATE_NOTIFY_NOTIFYING
  | eSTATE_NOTIFY_PENDING_DETACH.

(** ModelPoint::Event_T *)
Inductive Event_T := eATTACH | eDETACH | eDATA_CHANGED | eNOTIFYING | eNOTIFY_COMPLETE.

(** ModelPoint::LockRequest_T *)
Inductive LockRequest_T := eNO_REQUEST | eLOCK | eUNLOCK.

#[global] Instance State_T_eq_dec : EqDecision State_T.
Proof. solve_decision. Defined.
#[global] Instance LockRequest_T_eq_dec : EqDecision LockRequest_T.
Proof. solve_decision. Defined.

(** What Item::m_inListPtr_ of a subscriber points to. *)
Inductive container := InPoint (m : mpid) | InLoop (l : lid).

#[global] Instance container_eq_dec : EqDecision container.
Proof. solve_decision. Defined.

(** SubscriberBase *)
Record Subscriber := mkSubscriber {
  m_state : State_T;
  m_point : option mpid;
  m_eventLoopHdl : lid;
  m_seqNumber : Z;
  m_inListPtr : option container
}.

(** ModelPointCommon_; the data is the [m_dataSize] bytes at [m_dataPtr]. *)
Record ModelPoint := mkModelPoint {
  m_subscribers : list sid;
  m_data : list Z;
  m_seqNum : Z;
  m_locked : bool;
  m_valid : bool
}.

(** The points of a database, the subscribers, and the list
    [m_pendingMpNotifications] of each event loop. *)
Record World := mkWorld {
  points : gmap mpid ModelPoint;
  subs : gmap sid Subscriber;
  pending : gmap lid (list sid)
}.

Abbreviation M := (ST World).

Definition SEQUENCE_NUMBER_UNKNOWN : Z := 0.

Definition on_points f (w : World) := mkWorld (f (points w)) (subs w) (pending w).
Definition on_subs f (w : World) := mkWorld (points w) (f (subs w)) (pending w).
Definition on_pending f (w : World) := mkWorld (points w) (subs w) (f (pending w)).

Definition point (m : mpid) : M ModelPoint := w ← get_st; lift_opt (points w !! m).
Definition sub (s : sid) : M Subscriber := w ← get_st; lift_opt (subs w !! s).
Definition loop (l : lid) : M (list sid) := w ← get_st; lift_opt (pending w !! l).

Definition upd_point (m : mpid) (f : ModelPoint → ModelPoint) : M unit :=
  p ← point m; modify (on_points <[m := f p]>).
Definition upd_sub (s : sid) (f : Subscriber → Subscriber) : M unit :=
  x ← sub s; modify (on_subs <[s := f x]>).
Definition upd_loop (l : lid) (f : list sid → list sid) : M unit :=
  q ← loop l; modify (on_pending <[l := f q]>).

Definition with_subscribers q p := mkModelPoint q (m_data p) (m_seqNum p) (m_locked p) (m_valid p).
Definition with_data d p := mkModelPoint (m_subscribers p) d (m_seqNum p) (m_locked p) (m_valid p).
Definition with_seqNum n p := mkModelPoint (m_subscribers p) (m_data p) n (m_locked p) (m_valid p).
Definition with_locked b p := mkModelPoint (m_subscribers p) (m_data p) (m_seqNum p) b (m_valid p).
Definition with_valid b p := mkModelPoint (m_subscribers p) (m_data p) (m_seqNum p) (m_locked p) b.

Definition with_state st x :=
  mkSubscriber st (m_point x) (m_eventLoopHdl x) (m_seqNumber x) (m_inListPtr x).
Definition with_point m x :=
  mkSubscriber (m_state x) m (m_eventLoopHdl x) (m_seqNumber x) (m_inListPtr x).
Definition with_seqNumber n x :=
  mkSubscriber (m_state x) (m_point x) (m_eventLoopHdl x) n (m_inListPtr x).
Definition with_mark c x :=
  mkSubscriber (m_state x) (m_point x) (m_eventLoopHdl x) (m_seqNumber x) c.

Definition setState_ (s : sid) (st : State_T) : M unit := upd_sub s (with_state st).
Definition setModelPoint_ (s : sid) (m : option mpid) : M unit := upd_sub s (with_point m).
Definition setSequenceNumber_ (s : sid) (n : Z) : M unit := upd_sub s (with_seqNumber n).

(** SubscriberBase::getModelPoint_: a fatal error when there is none. *)
Definition getModelPoint_ (s : sid) : M mpid := x ← sub s; lift_opt (m_point x).

(** ** The lists (Cpl::Container::DList of subscribers) *)

Definition container_put (c : container) (s : sid) : M unit :=
  match c with
  | InPoint m => upd_point m (λ p, with_subscribers (m_subscribers p ++ [s]) p)
  | InLoop l => upd_loop l (λ q, q ++ [s])
  end.

Definition container_drop (c : container) (s : sid) : M unit :=
  match c with
  | InPoint m => upd_point m (λ p, with_subscribers (filter (λ z, z ≠ s) (m_subscribers p)) p)
  | InLoop l => upd_loop l (filter (λ z, z ≠ s))
  end.

(** DList::put; Item::insert_ makes a double insertion a fatal error. *)
Definition DList_put (c : container) (s : sid) : M unit :=
  x ← sub s;
  match m_inListPtr x with
  | Some _ => undefined
  | None => upd_sub s (with_mark (Some c));; container_put c s
  end.

(** DList::remove: nothing happens when the item is not in this list. *)
Definition DList_remove (c : container) (s : sid) : M bool :=
  x ← sub s;
  if bool_decide (m_inListPtr x = Some c) then
    container_drop c s;; upd_sub s (with_mark None);; ret true
  else ret false.

Definition container_items (c : container) : M (list sid) :=
  match c with
  | InPoint m => p ← point m; ret (m_subscribers p)
  | InLoop l => loop l
  end.

(** DList::get *)
Definition DList_get (c : container) : M (option sid) :=
  q ← container_items c;
  match q with
  | [] => ret None
  | s :: _ => DList_remove c s;; ret (Some s)
  end.

(** ** EventLoop: the list of pending notifications *)

Definition addPendingChangingNotification_ (l : lid) (s : sid) : M unit := DList_put (InLoop l) s.

Definition removePendingChangingNotification_ (l : lid) (s : sid) : M unit :=
  DList_remove (InLoop l) s;; ret tt.

Definition isPendingPendingChangingNotifications (l : lid) : M bool :=
  q ← loop l; ret (match q with [] => false | _ => true end).

(** ** ModelPointCommon_: subscriptions *)

Definition transitionToNotifyPending (s : sid) : M unit :=
  x ← sub s;
  addPendingChangingNotification_ (m_eventLoopHdl x) s;;
  setState_ s eSTATE_NOTIFY_PENDING.

Definition transitionToSubscribed (m : mpid) (s : sid) : M unit :=
  DList_remove (InPoint m) s;;
  p ← point m;
  x ← sub s;
  if m_seqNum p =? m_seqNumber x then
    setState_ s eSTATE_IDLE;; DList_put (InPoint m) s
  else transitionToNotifyPending s.

(** A change of data in a state that is not idle is a fatal error. *)
Definition processSubscriptionEvent_ (m : mpid) (s : sid) (event : Event_T) : M unit :=
  x ← sub s;
  match m_state x with
  | eSTATE_UNSUBSCRIBED =>
    match event with
    | eATTACH => transitionToSubscribed m s
    | eDATA_CHANGED => undefined
    | _ => ret tt
    end
  | eSTATE_IDLE =>
    match event with
    | eATTACH => transitionToSubscribed m s
    | eDETACH => DList_remove (InPoint m) s;; setState_ s eSTATE_UNSUBSCRIBED
    | eDATA_CHANGED => transitionToNotifyPending s
    | _ => ret tt
    end
  | eSTATE_NOTIFY_PENDING =>
    match event with
    | eATTACH =>
      removePendingChangingNotification_ (m_eventLoopHdl x) s;; transitionToSubscribed m s
    | eDETACH =>
      removePendingChangingNotification_ (m_eventLoopHdl x) s;; setState_ s eSTATE_UNSUBSCRIBED
    | eNOTIFYING =>
      p ← point m;
      setSequenceNumber_ s (m_seqNum p);;
      setState_ s eSTATE_NOTIFY_NOTIFYING
    | eDATA_CHANGED => undefined
    | _ => ret tt
    end
  | eSTATE_NOTIFY_NOTIFYING =>
    match event with
    | eDETACH => setState_ s eSTATE_NOTIFY_PENDING_DETACH
    | eNOTIFY_COMPLETE => transitionToSubscribed m s
    | eDATA_CHANGED => undefined
    | _ => ret tt
    end
  | eSTATE_NOTIFY_PENDING_DETACH =>
    match event with
    | eATTACH => setState_ s eSTATE_NOTIFY_NOTIFYING
    | eNOTIFY_COMPLETE => setState_ s eSTATE_UNSUBSCRIBED
    | eDATA_CHANGED => undefined
    | _ => ret tt
    end
  end.

Definition attachSubscriber (m : mpid) (s : sid) (initialSeqNumber : Z) : M unit :=
  setSequenceNumber_ s initialSeqNumber;;
  setModelPoint_ s (Some m);;
  processSubscriptionEvent_ m s eATTACH.

Definition detachSubscriber (m : mpid) (s : sid) : M unit :=
  processSubscriptionEvent_ m s eDETACH;;
  setModelPoint_ s None.

(** ** ModelPointCommon_: changes *)

(** [m_seqNum] is a uint16_t that skips the unknown value. *)
Definition advance (n : Z) : Z :=
  let n := wrap 16 (n + 1) in
  if n =? SEQUENCE_NUMBER_UNKNOWN then SEQUENCE_NUMBER_UNKNOWN + 1 else n.

Definition advanceSequenceNumber (m : mpid) : M unit :=
  upd_point m (λ p, with_seqNum (advance (m_seqNum p)) p).

(** The loop of processChangeNotifications: every subscriber leaves the list, and
    none comes back to it, so it ends within its length. *)
Fixpoint notify_loop (fuel : nat) (m : mpid) : M unit :=
  match fuel with
  | O => undefined
  | S fuel =>
    item ← DList_get (InPoint m);
    match item with
    | None => ret tt
    | Some s => processSubscriptionEvent_ m s eDATA_CHANGED;; notify_loop fuel m
    end
  end.

Definition processChangeNotifications (m : mpid) : M unit :=
  advanceSequenceNumber m;;
  p ← point m;
  notify_loop (S (length (m_subscribers p))) m.

Definition processDataUpdated (m : mpid) : M unit :=
  upd_point m (with_valid true);; processChangeNotifications m.

Definition getSequenceNumber (m : mpid) : M Z := p ← point m; ret (m_seqNum p).

(** Both results of isNotValid: the state and the sequence number. *)
Definition isNotValid (m : mpid) : M (bool * Z) := p ← point m; ret (negb (m_valid p), m_seqNum p).

(** The default hook zeroes the data. *)
Definition hookSetInvalid (m : mpid) : M unit :=
  upd_point m (λ p, with_data (replicate (length (m_data p)) 0) p).

Definition testAndUpdateLock (m : mpid) (lockRequest : LockRequest_T) : M bool :=
  match lockRequest with
  | eUNLOCK => upd_point m (with_locked false);; ret true
  | eLOCK => upd_point m (with_locked true);; ret true
  | eNO_REQUEST => p ← point m; ret (negb (m_locked p))
  end.

Definition setInvalid (m : mpid) (lockRequest : LockRequest_T) : M Z :=
  ok ← testAndUpdateLock m lockRequest;
  (if ok : bool then
     p ← point m;
     if m_valid p then
       upd_point m (with_valid false);; hookSetInvalid m;; processChangeNotifications m
     else ret tt
   else ret tt);;
  getSequenceNumber m.

(** The bytes [copyDataTo_] hands out, and those [copyDataFrom_] takes: it copies
    [m_dataSize] bytes whatever the size of the source. *)
Definition copyDataTo_ (p : ModelPoint) (dstSize : nat) : M (list Z) :=
  assert_ (Nat.leb dstSize (length (m_data p)));; ret (take dstSize (m_data p)).

Definition copyDataFrom_ (m : mpid) (srcData : list Z) : M unit :=
  p ← point m;
  assert_ (Nat.leb (length srcData) (length (m_data p)));;
  if Nat.ltb (length srcData) (length (m_data p)) then undefined
  else upd_point m (with_data (take (length (m_data p)) srcData)).

(** memcmp of [m_dataSize] bytes. *)
Definition isDataEqual_ (p : ModelPoint) (otherData : list Z) : M bool :=
  if Nat.ltb (length otherData) (length (m_data p)) then undefined
  else ret (bool_decide (m_data p = take (length (m_data p)) otherData)).

(** The valid state, the bytes written to the destination when it is valid, and
    the sequence number. *)
Definition readData (m : mpid) (dstSize : nat) : M (bool * list Z * Z) :=
  p ← point m;
  d ← (if m_valid p then copyDataTo_ p dstSize else ret []);
  ret (m_valid p, d, m_seqNum p).

Definition writeData (m : mpid) (srcData : list Z) (lockRequest : LockRequest_T) : M Z :=
  ok ← testAndUpdateLock m lockRequest;
  (if ok : bool then
     p ← point m;
     same ← (if m_valid p then isDataEqual_ p srcData else ret false);
     if same : bool then ret tt
     else copyDataFrom_ m srcData;; processDataUpdated m
   else ret tt);;
  getSequenceNumber m.

(** The part of copyDataAndStateFrom that holds the lock. *)
Definition copyData (m src : mpid) (lockRequest : LockRequest_T) : M Z :=
  q ← point src; writeData m (m_data q) lockRequest.

(** Without other threads: the source is free between the question and the
    copy.  The lock request is not passed on when the source is invalid. *)
Definition copyDataAndStateFrom (m src : mpid) (lockRequest : LockRequest_T) : M Z :=
  ' (invalid, _) ← isNotValid src;
  if invalid : bool then setInvalid m eNO_REQUEST else copyData m src lockRequest.

Definition touch (m : mpid) : M Z := processChangeNotifications m;; getSequenceNumber m.

Definition setLockState (m : mpid) (lockRequest : LockRequest_T) : M Z :=
  (match lockRequest with
   | eLOCK => upd_point m (with_locked true)
   | eUNLOCK => upd_point m (with_locked false)
   | eNO_REQUEST => ret tt
   end);;
  getSequenceNumber m.

Definition isLocked (m : mpid) : M bool := p ← point m; ret (m_locked p).

(** ModelPointCommon_.h: what a callback uses to read its point and to accept
    the sequence number it has read. *)
Definition readAndSync (m : mpid) (dstSize : nat) (observerToSync : sid) : M (bool * list Z) :=
  ' (result, d, seqNum) ← readData m dstSize;
  attachSubscriber m observerToSync seqNum;;
  ret (result, d).

Definition isNotValidAndSync (m : mpid) (observerToSync : sid) : M bool :=
  ' (result, seqNum) ← isNotValid m;
  attachSubscriber m observerToSync seqNum;;
  ret result.

(** ** Export and import *)

Definition bool_byte (b : bool) : Z := if b then 1 else 0.

Definition getExternalSize (p : ModelPoint) (includeLockedState : bool) : nat :=
  let baseSize := (length (m_data p) + 1)%nat in
  if includeLockedState then (baseSize + 1)%nat else baseSize.

(** The bytes exportData writes to the destination, from its start; [None] for
    the result 0.  The size it compares the destination with leaves out the
    locked state. *)
Definition exportData (m : mpid) (maxDstLength : nat) (includeLockedState : bool)
    : M (option (list Z) * nat) :=
  p ← point m;
  if Nat.leb (getExternalSize p false) maxDstLength then
    let bytes := m_data p ++ [bool_byte (m_valid p)]
      ++ (if includeLockedState then [bool_byte (m_locked p)] else []) in
    ret (Some bytes, getExternalSize p includeLockedState)
  else ret (None, O).

(** A byte past the end of the source that is read is undefined. *)
Definition importData (m : mpid) (src : list Z) (includeLockedState : bool) : M nat :=
  p ← point m;
  if Nat.leb (getExternalSize p false) (length src) then
    let dataSize := length (m_data p) in
    upd_point m (with_data (take dataSize src));;
    v ← lift_opt (src !! dataSize);
    upd_point m (with_valid (negb (v =? 0)));;
    (if includeLockedState then
       k ← lift_opt (src !! S dataSize);
       upd_point m (with_locked (negb (k =? 0)))
     else ret tt);;
    processChangeNotifications m;;
    p ← point m;
    ret (getExternalSize p includeLockedState)
  else ret O.

(** ** EventLoop::processChangeNotifications

    In its three parts: each holds a lock, and other threads run between them. *)

Definition takeNotification (l : lid) : M (option sid) := DList_get (InLoop l).

Definition startNotification (s : sid) : M mpid :=
  m ← getModelPoint_ s;
  processSubscriptionEvent_ m s eNOTIFYING;;
  ret m.

Definition endNotification (m : mpid) (s : sid) : M unit :=
  processSubscriptionEvent_ m s eNOTIFY_COMPLETE.

(** The whole, for a callback of the client. *)
Definition loop_processChangeNotifications (callback : sid → mpid → M unit) (l : lid) : M unit :=
  o ← takeNotification l;
  match o with
  | None => ret tt
  | Some s =>
    m ← startNotification s;
    callback s m;;
    endNotification m s
  end.

(** ** Counters *)

(** A uint32_t stored in the four bytes of a point. *)
Definition u32_value (p : ModelPoint) : Z := of_le (m_data p).
Definition u32_store (z : Z) (p : ModelPoint) : ModelPoint := with_data (le_bytes 4 z) p.

(** RefCounter: the subscribers are told before the value changes; they look at
    it later, when the lock is free again. *)
Definition updateAndCheckForChangeNotification (m : mpid) (newValue : Z) : M unit :=
  p ← point m;
  let old := u32_value p in
  (if negb (m_valid p) || ((old =? 0) && negb (newValue =? 0)) || ((newValue =? 0) && negb (old =? 0))
   then processDataUpdated m else ret tt);;
  upd_point m (u32_store newValue).

Definition RefCounter_reset (m : mpid) (newValue : Z) (lockRequest : LockRequest_T) : M Z :=
  ok ← testAndUpdateLock m lockRequest;
  (if ok : bool then updateAndCheckForChangeNotification m newValue else ret tt);;
  getSequenceNumber m.

Definition RefCounter_increment (m : mpid) (incrementAmount : Z) (lockRequest : LockRequest_T) : M Z :=
  ok ← testAndUpdateLock m lockRequest;
  (if ok : bool then
     p ← point m;
     let newValue := u32 (u32_value p + incrementAmount) in
     let newValue := if newValue <? u32_value p then 2 ^ 32 - 1 else newValue in
     updateAndCheckForChangeNotification m newValue
   else ret tt);;
  getSequenceNumber m.

Definition RefCounter_decrement (m : mpid) (decrementAmount : Z) (lockRequest : LockRequest_T) : M Z :=
  ok ← testAndUpdateLock m lockRequest;
  (if ok : bool then
     p ← point m;
     let newValue := u32 (u32_value p - decrementAmount) in
     let newValue := if u32_value p <? newValue then 0 else newValue in
     updateAndCheckForChangeNotification m newValue
   else ret tt);;
  getSequenceNumber m.

(** Numeric<uint32_t>::increment and decrement wrap around. *)
Definition Numeric_increment (m : mpid) (incSize : Z) (lockRequest : LockRequest_T) : M Z :=
  p ← point m; writeData m (le_bytes 4 (u32 (u32_value p + incSize))) lockRequest.

Definition Numeric_decrement (m : mpid) (decSize : Z) (lockRequest : LockRequest_T) : M Z :=
  p ← point m; writeData m (le_bytes 4 (u32 (u32_value p - decSize))) lockRequest.
