(* ===== verification/DmSpec.v ===== *)
(** * What the calls of the data model do

    Each call of Dm.v as a total correctness statement: the lists keep holding
    exactly the subscribers marked for them, a subscription call changes one
    subscriber, and a change of a point moves every idle subscriber of it to the
    list of its event loop. *)

From Stdlib Require Import ZArith Lia.
From S2P Require Import Prelude Dm.
Local Open Scope Z_scope.
Local Open Scope pim_scope.

Implicit Types (w : World) (s : sid) (m : mpid) (l : lid) (c : container).

(** ** The lists and the marks *)

Definition items w c : list sid :=
  match c with
  | InPoint m => match points w !! m with Some p => m_subscribers p | None => [] end
  | InLoop l => default [] (pending w !! l)
  end.

(** The list [c] exists. *)
Definition has_list w c : Prop :=
  match c with
  | InPoint m => is_Some (points w !! m)
  | InLoop l => is_Some (pending w !! l)
  end.

(** Every list holds exactly the subscribers marked for it, once. *)
Record Lists_ok w : Prop := {
  lists_nodup c : NoDup (items w c);
  lists_mark c s : s ∈ items w c ↔ ∃ x, subs w !! s = Some x ∧ m_inListPtr x = Some c
}.

(** What a point is apart from its list of subscribers. *)
Definition content (p : ModelPoint) : list Z * Z * bool * bool :=
  (m_data p, m_seqNum p, m_locked p, m_valid p).

Definition same_content w w' : Prop := ∀ m, content <$> points w' !! m = content <$> points w !! m.
Definition same_loops w w' : Prop := ∀ l, is_Some (pending w' !! l) ↔ is_Some (pending w !! l).

Definition without s (q : list sid) : list sid := filter (λ z, z ≠ s) q.

Lemma same_content_lookup w w' m p :
  same_content w w' → points w !! m = Some p →
  ∃ p', points w' !! m = Some p' ∧ content p' = content p.
Proof.
  intros Hc Hp. specialize (Hc m). rewrite Hp in Hc. simpl in Hc.
  destruct (points w' !! m) as [p'|]; [|done]. injection Hc as E. exists p'. split; [done|].
  unfold content. congruence.
Qed.

Lemma has_list_same w w' c : same_content w w' → same_loops w w' → has_list w c → has_list w' c.
Proof.
  intros Hc Hl. destruct c as [m|l]; simpl.
  - intros [p Hp]. destruct (same_content_lookup _ _ _ _ Hc Hp) as (p' & -> & _). by eexists.
  - apply Hl.
Qed.

(** ** Running the accessors *)

Lemma wp_point w m p (Q : ModelPoint → World → Prop) :
  points w !! m = Some p → Q p w → wp (point m) Q w.
Proof. intros Hp HQ. unfold wp, point, bind, get_st, lift_opt. by rewrite Hp. Qed.

Lemma wp_sub w s x (Q : Subscriber → World → Prop) : subs w !! s = Some x → Q x w → wp (sub s) Q w.
Proof. intros Hs HQ. unfold wp, sub, bind, get_st, lift_opt. by rewrite Hs. Qed.

Lemma wp_loop w l q (Q : list sid → World → Prop) : pending w !! l = Some q → Q q w → wp (loop l) Q w.
Proof. intros Hl HQ. unfold wp, loop, bind, get_st, lift_opt. by rewrite Hl. Qed.

Lemma wp_upd_sub w s x f (Q : unit → World → Prop) :
  subs w !! s = Some x → Q tt (on_subs <[s := f x]> w) → wp (upd_sub s f) Q w.
Proof. intros Hs HQ. unfold upd_sub. apply wp_bind. eapply wp_sub; [done|]. exact HQ. Qed.

Lemma wp_upd_point w m p f (Q : unit → World → Prop) :
  points w !! m = Some p → Q tt (on_points <[m := f p]> w) → wp (upd_point m f) Q w.
Proof. intros Hp HQ. unfold upd_point. apply wp_bind. eapply wp_point; [done|]. exact HQ. Qed.

(** ** Putting in a list and taking out *)

(** A list with other contents. *)
Definition set_items c (q : list sid) w : World :=
  match c with
  | InPoint m => on_points (alter (with_subscribers q) m) w
  | InLoop l => on_pending <[l := q]> w
  end.

Lemma alter_as_insert {A} (f : A → A) (k : positive) (h : gmap positive A) a :
  h !! k = Some a → alter f k h = <[k := f a]> h.
Proof.
  intros Hk. apply map_eq. intros j. destruct (decide (j = k)) as [->|].
  - by rewrite lookup_alter_eq, lookup_insert_eq, Hk.
  - by rewrite lookup_alter_ne, lookup_insert_ne by done.
Qed.

Lemma items_set c c' q w :
  has_list w c → items (set_items c q w) c' = if decide (c' = c) then q else items w c'.
Proof.
  intros Hc. case_decide as E; [subst c'|].
  - destruct c as [m|l]; simpl in *.
    + destruct Hc as [p Hp]. by rewrite lookup_alter_eq, Hp.
    + by rewrite lookup_insert_eq.
  - destruct c as [m|l], c' as [m'|l']; simpl in *; try done.
    + by rewrite lookup_alter_ne by congruence.
    + by rewrite lookup_insert_ne by congruence.
Qed.

Lemma subs_set c q w : subs (set_items c q w) = subs w.
Proof. by destruct c. Qed.

Lemma content_set c q w : same_content w (set_items c q w).
Proof.
  intros m. destruct c as [m'|l]; [|done]. simpl. destruct (decide (m = m')) as [->|].
  - rewrite lookup_alter_eq. by destruct (points w !! m').
  - by rewrite lookup_alter_ne.
Qed.

Lemma loops_set c q w : has_list w c → same_loops w (set_items c q w).
Proof.
  intros Hc l. destruct c as [m'|l']; [done|]. simpl in *. destruct (decide (l = l')) as [->|].
  - rewrite lookup_insert_eq. split; [done|by eexists].
  - by rewrite lookup_insert_ne.
Qed.

Lemma wp_container_put c s w (Q : unit → World → Prop) :
  has_list w c → Q tt (set_items c (items w c ++ [s]) w) → wp (container_put c s) Q w.
Proof.
  intros Hc HQ. destruct c as [m|l]; destruct Hc as [p Hp]; simpl in *; rewrite Hp in HQ; simpl in HQ.
  - eapply wp_upd_point; [done|]. unfold on_points in *. by rewrite (alter_as_insert _ _ _ p) in HQ.
  - unfold upd_loop. apply wp_bind. by eapply wp_loop.
Qed.

Lemma wp_container_drop c s w (Q : unit → World → Prop) :
  has_list w c → Q tt (set_items c (without s (items w c)) w) → wp (container_drop c s) Q w.
Proof.
  intros Hc HQ. destruct c as [m|l]; destruct Hc as [p Hp]; simpl in *; rewrite Hp in HQ; simpl in HQ.
  - eapply wp_upd_point; [done|]. unfold on_points in *. by rewrite (alter_as_insert _ _ _ p) in HQ.
  - unfold upd_loop. apply wp_bind. by eapply wp_loop.
Qed.

(** ** One subscriber moves

    [Moves s x w w']: subscriber [s] is now [x] and in the list it is marked for;
    the other subscribers, their order and the points are as before. *)
Record Moves s (x : Subscriber) w w' : Prop := {
  moves_content : same_content w w';
  moves_loops : same_loops w w';
  moves_others s' : s' ≠ s → subs w' !! s' = subs w !! s';
  moves_order c : without s (items w' c) = without s (items w c);
  moves_sub : subs w' !! s = Some x;
  moves_lists : Lists_ok w'
}.

Lemma Moves_refl s x w : Lists_ok w → subs w !! s = Some x → Moves s x w w.
Proof. by split. Qed.

Lemma Moves_trans s x y w1 w2 w3 : Moves s x w1 w2 → Moves s y w2 w3 → Moves s y w1 w3.
Proof.
  intros [C1 L1 S1 O1 X1 W1] [C2 L2 S2 O2 X2 W2]. split; [| | | |done..].
  - intros m. by rewrite (C2 m), (C1 m).
  - intros l. etrans; [apply L2 | apply L1].
  - intros s' Hs. by rewrite S2, S1.
  - intros c. by rewrite O2, O1.
Qed.

Lemma moves_has_list s x w w' c : Moves s x w w' → has_list w c → has_list w' c.
Proof. intros H. apply has_list_same; apply H. Qed.

Lemma moves_point s x w w' m p :
  Moves s x w w' → points w !! m = Some p →
  ∃ p', points w' !! m = Some p' ∧ content p' = content p.
Proof. intros H. apply same_content_lookup, H. Qed.

Lemma without_id s q : s ∉ q → without s q = q.
Proof.
  intros H. unfold without. induction q as [|z q IH]; [done|].
  rewrite filter_cons_True; [|set_solver]. f_equal. apply IH. set_solver.
Qed.

Lemma without_snoc s q : without s (q ++ [s]) = without s q.
Proof. unfold without. rewrite filter_app, filter_cons_False by tauto. by rewrite app_nil_r. Qed.

Lemma without_without s q : without s (without s q) = without s q.
Proof.
  apply without_id. unfold without. rewrite list_elem_of_filter. tauto.
Qed.

Lemma NoDup_without s q : NoDup q → NoDup (without s q).
Proof. apply NoDup_filter. Qed.

(** A change of the record that leaves the mark. *)
Lemma wp_upd_sub_moves w s x f (Q : unit → World → Prop) :
  Lists_ok w → subs w !! s = Some x → m_inListPtr (f x) = m_inListPtr x →
  (∀ w', Moves s (f x) w w' → Q tt w') → wp (upd_sub s f) Q w.
Proof.
  intros [Hnd Hmk] Hx Hm HQ. eapply wp_upd_sub; [done|]. apply HQ. split; try done.
  - intros s' Hs. simpl. by rewrite lookup_insert_ne.
  - simpl. by rewrite lookup_insert_eq.
  - split; [apply Hnd|]. intros c s'. change (items (on_subs _ w) c) with (items w c).
    rewrite Hmk. simpl. destruct (decide (s' = s)) as [->|].
    + rewrite lookup_insert_eq, Hx. split; intros (y & [= <-] & ?); eexists; (split; [done|congruence]).
    + by rewrite lookup_insert_ne.
Qed.

(** The marks of [w] when [s] alone is marked otherwise, for [c] or nothing. *)
Lemma Lists_ok_remark w s x f c q o :
  Lists_ok w → subs w !! s = Some x → has_list w c → m_inListPtr (f x) = o →
  (∀ c', c' ≠ c → m_inListPtr x ≠ Some c' ∧ o ≠ Some c') →
  NoDup q → (s ∈ q ↔ o = Some c) → (∀ s', s' ≠ s → s' ∈ q ↔ s' ∈ items w c) →
  Lists_ok (set_items c q (on_subs <[s := f x]> w)).
Proof.
  intros [Hnd Hmk] Hx Hc Ho Hother Hq Hs Hq'.
  assert (∀ c', items (set_items c q (on_subs <[s:=f x]> w)) c' =
                if decide (c' = c) then q else items w c') as Hi.
  { intros c'. rewrite items_set by done. done. }
  split; intros c'; rewrite Hi; [by case_decide|]. intros s'. rewrite subs_set. simpl.
  destruct (decide (s' = s)) as [->|Hne].
  - rewrite lookup_insert_eq. case_decide as E; [subst c'|].
    + rewrite Hs. split; [intros ?; eexists; split; [done|congruence]|].
      intros (y & [= <-] & ?). congruence.
    + destruct (Hother c' E) as [H1 H2]. rewrite Hmk. split; intros (y & Hy & ?); exfalso.
      * congruence.
      * injection Hy as <-. congruence.
  - rewrite lookup_insert_ne by done. case_decide as E; [subst c'; rewrite Hq' by done|]; apply Hmk.
Qed.

Lemma wp_DList_put w c s x (Q : unit → World → Prop) :
  Lists_ok w → has_list w c → subs w !! s = Some x → m_inListPtr x = None →
  (∀ w', Moves s (with_mark (Some c) x) w w' → Q tt w') → wp (DList_put c s) Q w.
Proof.
  intros Hok Hc Hx Hm HQ. unfold DList_put. apply wp_bind. eapply wp_sub; [done|].
  rewrite Hm. apply wp_bind. eapply wp_upd_sub; [done|].
  assert (s ∉ items w c) as Hs.
  { intros (y & Hy & ?)%(lists_mark _ Hok). congruence. }
  apply wp_container_put; [by destruct c|].
  change (items (on_subs <[s:=with_mark (Some c) x]> w) c) with (items w c).
  apply HQ. split.
  - apply (content_set c _ (on_subs _ w)).
  - by apply (loops_set c _ (on_subs _ w)).
  - intros s' Hs'. rewrite subs_set. simpl. by rewrite lookup_insert_ne.
  - intros c'. rewrite items_set by done. case_decide as E; [subst c'|done]. apply without_snoc.
  - rewrite subs_set. simpl. by rewrite lookup_insert_eq.
  - eapply (Lists_ok_remark _ _ x _ _ _ (Some c)); try done.
    + intros c' ?. split; congruence.
    + apply NoDup_snoc. split; [done|apply Hok].
    + split; [done|]. intros _. apply elem_of_app. right. by apply list_elem_of_singleton.
    + intros s' ?. rewrite elem_of_app, list_elem_of_singleton. tauto.
Qed.

Lemma wp_DList_remove w c s x (Q : bool → World → Prop) :
  Lists_ok w → has_list w c → subs w !! s = Some x → m_inListPtr x = Some c →
  (∀ w', Moves s (with_mark None x) w w' → Q true w') → wp (DList_remove c s) Q w.
Proof.
  intros Hok Hc Hx Hm HQ. unfold DList_remove. apply wp_bind. eapply wp_sub; [done|].
  rewrite bool_decide_eq_true_2 by done. apply wp_bind. apply wp_container_drop; [done|].
  apply wp_bind. eapply wp_upd_sub; [by rewrite subs_set|]. apply wp_ret. apply HQ.
  assert (on_subs <[s:=with_mark None x]> (set_items c (without s (items w c)) w)
    = set_items c (without s (items w c)) (on_subs <[s:=with_mark None x]> w)) as ->
    by by destruct c.
  split.
  - apply (content_set c _ (on_subs _ w)).
  - by apply (loops_set c _ (on_subs _ w)).
  - intros s' Hs'. rewrite subs_set. simpl. by rewrite lookup_insert_ne.
  - intros c'. rewrite items_set by done. case_decide as E; [subst c'|done]. apply without_without.
  - rewrite subs_set. simpl. by rewrite lookup_insert_eq.
  - eapply (Lists_ok_remark _ _ x _ _ _ None); try done.
    + intros c' ?. split; congruence.
    + apply NoDup_without, Hok.
    + unfold without. rewrite list_elem_of_filter. split; [tauto|done].
    + intros s' ?. unfold without. rewrite list_elem_of_filter. tauto.
Qed.

Lemma wp_DList_remove_absent w c s x (Q : bool → World → Prop) :
  subs w !! s = Some x → m_inListPtr x ≠ Some c → Q false w → wp (DList_remove c s) Q w.
Proof.
  intros Hx Hm HQ. unfold DList_remove. apply wp_bind. eapply wp_sub; [done|].
  by rewrite bool_decide_eq_false_2.
Qed.

(** ** Subscription calls *)

(** Where a subscriber goes when its subscription to [m], whose state is [p],
    becomes effective. *)
Definition subscribed m (p : ModelPoint) (x : Subscriber) : Subscriber :=
  if m_seqNum p =? m_seqNumber x then with_state eSTATE_IDLE (with_mark (Some (InPoint m)) x)
  else with_state eSTATE_NOTIFY_PENDING (with_mark (Some (InLoop (m_eventLoopHdl x))) x).

Definition attached m n (p : ModelPoint) (x : Subscriber) : Subscriber :=
  let x := with_point (Some m) (with_seqNumber n x) in
  match m_state x with
  | eSTATE_NOTIFY_NOTIFYING => x
  | eSTATE_NOTIFY_PENDING_DETACH => with_state eSTATE_NOTIFY_NOTIFYING x
  | _ => subscribed m p x
  end.

Definition detached (x : Subscriber) : Subscriber :=
  with_point None
    match m_state x with
    | eSTATE_IDLE | eSTATE_NOTIFY_PENDING => with_state eSTATE_UNSUBSCRIBED (with_mark None x)
    | eSTATE_NOTIFY_NOTIFYING => with_state eSTATE_NOTIFY_PENDING_DETACH x
    | _ => x
    end.

(** The subscriber after its callback, for a point [m] in state [p]. *)
Definition completed m (p : ModelPoint) (x : Subscriber) : Subscriber :=
  match m_state x with
  | eSTATE_NOTIFY_NOTIFYING => subscribed m p x
  | eSTATE_NOTIFY_PENDING_DETACH => with_state eSTATE_UNSUBSCRIBED x
  | _ => x
  end.

(** Where the state of a subscriber of [m] says it is. *)
Definition placed m (x : Subscriber) : Prop :=
  match m_state x with
  | eSTATE_IDLE => m_inListPtr x = Some (InPoint m)
  | eSTATE_NOTIFY_PENDING =>
    m_inListPtr x = Some (InLoop (m_eventLoopHdl x)) ∨ m_inListPtr x = None
  | _ => m_inListPtr x = None
  end.

(** Takes the subscriber out of the list, when it is there. *)
Lemma wp_leave w s x c (Q : bool → World → Prop) :
  Lists_ok w → subs w !! s = Some x → has_list w c → (m_inListPtr x = None ∨ m_inListPtr x = Some c) →
  (∀ b w', Moves s (with_mark None x) w w' → Q b w') → wp (DList_remove c s) Q w.
Proof.
  intros Hok Hx Hc Hm HQ. destruct Hm as [Hm|Hm].
  - eapply wp_DList_remove_absent; [done|by rewrite Hm|]. apply HQ.
    replace (with_mark None x) with x; [by apply Moves_refl|]. destruct x; simpl in *. by subst.
  - eapply wp_DList_remove; naive_solver.
Qed.
Lemma wp_transitionToNotifyPending w s x (Q : unit → World → Prop) :
  Lists_ok w → subs w !! s = Some x → is_Some (pending w !! m_eventLoopHdl x) →
  m_inListPtr x = None →
  (∀ w', Moves s (with_state eSTATE_NOTIFY_PENDING
     (with_mark (Some (InLoop (m_eventLoopHdl x))) x)) w w' → Q tt w') →
  wp (transitionToNotifyPending s) Q w.
Proof.
  intros Hok Hx Hl Hm HQ. unfold transitionToNotifyPending. apply wp_bind.
  eapply wp_sub; [done|]. apply wp_bind. eapply wp_DList_put; [done..|].
  intros w1 H1. eapply wp_upd_sub_moves; [apply H1|apply H1|done|].
  intros w2 H2. apply HQ. by eapply Moves_trans.
Qed.

Lemma wp_transitionToSubscribed w s m p x (Q : unit → World → Prop) :
  Lists_ok w → subs w !! s = Some x → points w !! m = Some p →
  is_Some (pending w !! m_eventLoopHdl x) →
  (m_inListPtr x = None ∨ m_inListPtr x = Some (InPoint m)) →
  (∀ w', Moves s (subscribed m p x) w w' → Q tt w') → wp (transitionToSubscribed m s) Q w.
Proof.
  intros Hok Hx Hp Hl Hm HQ. unfold transitionToSubscribed. apply wp_bind.
  eapply wp_leave; [done..|by eexists|done|]. intros b w1 H1.
  destruct (moves_point _ _ _ _ _ _ H1 Hp) as (p1 & Hp1 & Ec). injection Ec as _ Eseq _ _.
  apply wp_bind. eapply wp_point; [done|]. apply wp_bind. eapply wp_sub; [apply H1|].
  revert HQ. unfold subscribed. rewrite Eseq. simpl. destruct (m_seqNum p =? m_seqNumber x); intros HQ.
  - apply wp_bind. eapply wp_upd_sub_moves; [apply H1|apply H1|done|]. intros w2 H2.
    pose proof (Moves_trans _ _ _ _ _ _ H1 H2) as H3.
    eapply wp_DList_put; [apply H3|by eapply moves_has_list; [exact H3|eexists]|apply H3|done|].
    intros w4 H4. apply HQ. by eapply Moves_trans.
  - eapply wp_transitionToNotifyPending; [apply H1|apply H1|by apply (moves_loops _ _ _ _ H1)|done|].
    intros w2 H2. apply HQ. by eapply Moves_trans.
Qed.

Lemma wp_setState w s x st (Q : unit → World → Prop) :
  Lists_ok w → subs w !! s = Some x →
  (∀ w', Moves s (with_state st x) w w' → Q tt w') → wp (setState_ s st) Q w.
Proof. intros. by eapply wp_upd_sub_moves. Qed.

Lemma wp_attach_event w s m p x (Q : unit → World → Prop) :
  Lists_ok w → subs w !! s = Some x → points w !! m = Some p →
  is_Some (pending w !! m_eventLoopHdl x) → placed m x →
  (∀ w', Moves s (attached m (m_seqNumber x) p (with_point (Some m) x)) w w' → Q tt w') →
  m_point x = Some m → wp (processSubscriptionEvent_ m s eATTACH) Q w.
Proof.
  intros Hok Hx Hp Hl Hpl HQ Hm.
  assert (with_point (Some m) (with_seqNumber (m_seqNumber x) (with_point (Some m) x)) = x) as Ex.
  { destruct x; simpl in *. by subst. }
  unfold attached in HQ. rewrite Ex in HQ. unfold placed in Hpl.
  unfold processSubscriptionEvent_. apply wp_bind. eapply wp_sub; [done|].
  destruct (m_state x) eqn:E; simpl in *.
  - eapply wp_transitionToSubscribed; eauto.
  - eapply wp_transitionToSubscribed; eauto.
  - apply wp_bind. unfold removePendingChangingNotification_. apply wp_bind.
    eapply wp_leave; [done..|tauto|]. intros b w1 H1. apply wp_ret.
    destruct (moves_point _ _ _ _ _ _ H1 Hp) as (p1 & Hp1 & Ec). injection Ec as _ Eseq _ _.
    eapply wp_transitionToSubscribed; [apply H1|apply H1|done|by apply (moves_loops _ _ _ _ H1)|by left|].
    intros w2 H2. apply HQ. eapply Moves_trans; [done|].
    revert H2. unfold subscribed. rewrite Eseq. simpl. by case_match.
  - apply wp_ret, HQ. by apply Moves_refl.
  - by eapply wp_setState.
Qed.

(** attachSubscriber on a subscriber of this point, or of none. *)
Lemma wp_attachSubscriber w s m p x n (Q : unit → World → Prop) :
  Lists_ok w → subs w !! s = Some x → points w !! m = Some p →
  is_Some (pending w !! m_eventLoopHdl x) → placed m x →
  (∀ w', Moves s (attached m n p x) w w' → Q tt w') → wp (attachSubscriber m s n) Q w.
Proof.
  intros Hok Hx Hp Hl Hpl HQ. unfold attachSubscriber. apply wp_bind.
  eapply wp_upd_sub_moves; [done..|]. intros w1 H1. apply wp_bind.
  eapply wp_upd_sub_moves; [apply H1|apply H1|done|]. intros w2 H2.
  pose proof (Moves_trans _ _ _ _ _ _ H1 H2) as H3.
  destruct (moves_point _ _ _ _ _ _ H3 Hp) as (p3 & Hp3 & Ec).
  eapply wp_attach_event; [apply H3|apply H3|done|by apply (moves_loops _ _ _ _ H3)|done| |done].
  intros w4 H4. apply HQ. eapply Moves_trans; [done|]. injection Ec as _ Eseq _ _.
  revert H4. unfold attached, subscribed. rewrite Eseq. simpl. by repeat case_match.
Qed.

Lemma wp_detachSubscriber w s m x (Q : unit → World → Prop) :
  Lists_ok w → subs w !! s = Some x → is_Some (points w !! m) →
  is_Some (pending w !! m_eventLoopHdl x) → placed m x →
  (∀ w', Moves s (detached x) w w' → Q tt w') → wp (detachSubscriber m s) Q w.
Proof.
  intros Hok Hx Hp Hl Hpl HQ. unfold detachSubscriber. apply wp_bind.
  eapply (wp_mono _ (λ _ w', Moves s (match m_state x with
    | eSTATE_IDLE | eSTATE_NOTIFY_PENDING => with_state eSTATE_UNSUBSCRIBED (with_mark None x)
    | eSTATE_NOTIFY_NOTIFYING => with_state eSTATE_NOTIFY_PENDING_DETACH x
    | _ => x end) w w')).
  2:{ intros _ w1 H1. eapply wp_upd_sub_moves; [apply H1|apply H1|done|].
    intros w2 H2. apply HQ. by eapply Moves_trans. }
  unfold processSubscriptionEvent_, placed in *. apply wp_bind. eapply wp_sub; [done|].
  destruct (m_state x) eqn:E.
  - apply wp_ret. by apply Moves_refl.
  - apply wp_bind. eapply wp_leave; [done..|by right|]. intros b w1 H1.
    eapply wp_setState; [apply H1..|]. intros w2 H2. by eapply Moves_trans.
  - apply wp_bind. unfold removePendingChangingNotification_. apply wp_bind.
    eapply wp_leave; [done..|tauto|]. intros b w1 H1. apply wp_ret.
    eapply wp_setState; [apply H1..|]. intros w2 H2. by eapply Moves_trans.
  - by eapply wp_setState.
  - apply wp_ret. by apply Moves_refl.
Qed.

(** A subscription takes effect again after the callback. *)
Lemma wp_endNotification w s m p x (Q : unit → World → Prop) :
  Lists_ok w → subs w !! s = Some x → points w !! m = Some p →
  is_Some (pending w !! m_eventLoopHdl x) → m_inListPtr x = None →
  m_state x = eSTATE_NOTIFY_NOTIFYING ∨ m_state x = eSTATE_NOTIFY_PENDING_DETACH →
  (∀ w', Moves s (completed m p x) w w' → Q tt w') → wp (endNotification m s) Q w.
Proof.
  intros Hok Hx Hp Hl Hm Hst HQ. unfold endNotification, processSubscriptionEvent_, completed in *.
  apply wp_bind. eapply wp_sub; [done|]. destruct Hst as [E|E]; rewrite E in *.
  - eapply wp_transitionToSubscribed; eauto.
  - by eapply wp_setState.
Qed.

Lemma wp_startNotification w s m p x (Q : mpid → World → Prop) :
  Lists_ok w → subs w !! s = Some x → points w !! m = Some p →
  m_point x = Some m → m_state x = eSTATE_NOTIFY_PENDING →
  (∀ w', Moves s (with_state eSTATE_NOTIFY_NOTIFYING (with_seqNumber (m_seqNum p) x)) w w' → Q m w') →
  wp (startNotification s) Q w.
Proof.
  intros Hok Hx Hp Hm Hst HQ. unfold startNotification, getModelPoint_. apply wp_bind, wp_bind.
  eapply wp_sub; [done|]. rewrite Hm. apply wp_ret, wp_bind.
  unfold processSubscriptionEvent_. apply wp_bind. eapply wp_sub; [done|]. rewrite Hst.
  apply wp_bind. eapply wp_point; [done|]. apply wp_bind.
  eapply wp_upd_sub_moves; [done..|]. intros w1 H1.
  eapply wp_setState; [apply H1..|]. intros w2 H2. apply wp_ret, HQ. by eapply Moves_trans.
Qed.

(** ** Changes *)

Definition notified (x : Subscriber) : Subscriber :=
  with_state eSTATE_NOTIFY_PENDING (with_mark (Some (InLoop (m_eventLoopHdl x))) x).

(** The subscribers [q] are in the lists of their event loops. *)
Record Notified (q : list sid) w w' : Prop := {
  notified_content : same_content w w';
  notified_loops : same_loops w w';
  notified_subs s : subs w' !! s = if decide (s ∈ q) then notified <$> subs w !! s else subs w !! s;
  notified_lists : Lists_ok w'
}.

(** The subscribers of a point are idle and have an event loop. *)
Definition idle_subscribers m w : Prop :=
  ∀ s x, subs w !! s = Some x → m_inListPtr x = Some (InPoint m) →
    m_state x = eSTATE_IDLE ∧ is_Some (pending w !! m_eventLoopHdl x).

Lemma items_point w m p : points w !! m = Some p → items w (InPoint m) = m_subscribers p.
Proof. intros Hp. simpl. by rewrite Hp. Qed.

Lemma wp_get_first w m s q (Q : option sid → World → Prop) :
  Lists_ok w → items w (InPoint m) = s :: q → is_Some (points w !! m) →
  (∀ x w', subs w !! s = Some x → m_inListPtr x = Some (InPoint m) →
    Moves s (with_mark None x) w w' → Q (Some s) w') → wp (DList_get (InPoint m)) Q w.
Proof.
  intros Hok Hq [p Hp] HQ. rewrite (items_point _ _ _ Hp) in Hq.
  assert (s ∈ items w (InPoint m)) as Hs by (rewrite (items_point _ _ _ Hp), Hq; left).
  apply (lists_mark _ Hok) in Hs as (x & Hx & Hm).
  unfold DList_get, container_items. apply wp_bind, wp_bind. eapply wp_point; [done|].
  apply wp_ret. rewrite Hq. apply wp_bind.
  eapply wp_DList_remove; [done|by eexists|done..|]. intros w' H. apply wp_ret. eauto.
Qed.

Lemma wp_notify_one w s m x (Q : unit → World → Prop) :
  Lists_ok w → subs w !! s = Some x → m_inListPtr x = None → m_state x = eSTATE_IDLE →
  is_Some (pending w !! m_eventLoopHdl x) → (∀ w', Moves s (notified x) w w' → Q tt w') →
  wp (processSubscriptionEvent_ m s eDATA_CHANGED) Q w.
Proof.
  intros Hok Hx Hm Hst Hl HQ. unfold processSubscriptionEvent_. apply wp_bind.
  eapply wp_sub; [done|]. rewrite Hst. by eapply wp_transitionToNotifyPending.
Qed.

(** Nobody is left in the list of the point, and everybody is told. *)
Lemma wp_notify_loop m q : ∀ fuel w (Q : unit → World → Prop),
  (length q < fuel)%nat → items w (InPoint m) = q → is_Some (points w !! m) →
  Lists_ok w → idle_subscribers m w → (∀ w', Notified q w w' → Q tt w') →
  wp (notify_loop fuel m) Q w.
Proof.
  induction q as [|s q IH]; intros fuel w Q Hf Hq Hp Hok Hid HQ;
    (destruct fuel as [|fuel]; [simpl in Hf; lia|]); simpl; apply wp_bind.
  - destruct Hp as [p Hp]. rewrite (items_point _ _ _ Hp) in Hq. apply wp_bind, wp_bind.
    eapply wp_point; [done|]. apply wp_ret. rewrite Hq. apply wp_ret, wp_ret, HQ. split; done.
  - eapply wp_get_first; [done..|]. intros x w1 Hx Hmx H1. apply wp_bind.
    destruct (Hid _ _ Hx Hmx) as [Hst Hl].
    eapply wp_notify_one; [apply H1|apply H1|done|done|by apply (moves_loops _ _ _ _ H1)|].
    intros w2 H2. pose proof (Moves_trans _ _ _ _ _ _ H1 H2) as [C3 L3 S3 O3 X3 W3].
    assert (NoDup (s :: q)) as [Hsq Hnd]%NoDup_cons by (rewrite <-Hq; apply Hok).
    assert (s ∉ items w2 (InPoint m)) as Hgone.
    { intros (y & Hy & Hm)%(lists_mark _ W3). rewrite X3 in Hy. by injection Hy as <-. }
    assert (items w2 (InPoint m) = q) as Hq2.
    { rewrite <-(without_id s (items w2 _)) by done. rewrite O3, Hq. unfold without.
      rewrite filter_cons_False by tauto. by apply without_id. }
    apply IH; [simpl in Hf; lia|done| |done| |].
    + by apply (has_list_same w w2 (InPoint m)).
    + intros s' y Hy Hm. destruct (decide (s' = s)) as [->|].
      { rewrite X3 in Hy. by injection Hy as <-. }
      rewrite S3 in Hy by done. destruct (Hid _ _ Hy Hm). by rewrite (L3 (m_eventLoopHdl y)).
    + intros w' [C4 L4 S4 W4]. apply HQ. split; [| | |done].
      * intros m'. by rewrite (C4 m'), (C3 m').
      * intros l. etrans; [apply L4|apply L3].
      * intros s'. rewrite S4. destruct (decide (s' = s)) as [->|Hne].
        -- rewrite decide_False by done. rewrite decide_True by set_solver. by rewrite X3, Hx.
        -- rewrite S3 by done. by repeat case_decide; set_solver.
Qed.

(** The effect of a call on point [m]: its fields are now those of [p], and when
    [told], all the subscribers that were idle are pending. *)
Record Effect m (told : bool) (p : ModelPoint) w w' : Prop := {
  effect_point : content <$> points w' !! m = Some (content p);
  effect_points m' : m' ≠ m → content <$> points w' !! m' = content <$> points w !! m';
  effect_loops : same_loops w w';
  effect_subs s : subs w' !! s =
    (λ x, if told && bool_decide (m_inListPtr x = Some (InPoint m)) then notified x else x)
      <$> subs w !! s;
  effect_lists : Lists_ok w'
}.

(** The fields of a point, but not its list, are replaced. *)
Definition Edited m (p : ModelPoint) w w' : Prop :=
  ∃ p0, points w !! m = Some p0 ∧ m_subscribers p = m_subscribers p0 ∧ w' = on_points <[m := p]> w.

Lemma Edited_refl m p w : points w !! m = Some p → Edited m p w w.
Proof.
  intros Hp. exists p. split_and!; [done..|]. destruct w. unfold on_points. simpl in *.
  by rewrite insert_id.
Qed.

Lemma Edited_point m p w w' : Edited m p w w' → points w' !! m = Some p.
Proof. intros (p0 & _ & _ & ->). apply lookup_insert_eq. Qed.

Lemma Edited_items m p w w' c : Edited m p w w' → items w' c = items w c.
Proof.
  intros (p0 & Hp0 & Hq & ->). destruct c as [m'|l]; [|done]. simpl.
  destruct (decide (m' = m)) as [->|]; [by rewrite lookup_insert_eq, Hp0|by rewrite lookup_insert_ne].
Qed.

Lemma Edited_subs m p w w' : Edited m p w w' → subs w' = subs w.
Proof. by intros (p0 & _ & _ & ->). Qed.

Lemma Edited_pending m p w w' : Edited m p w w' → pending w' = pending w.
Proof. by intros (p0 & _ & _ & ->). Qed.

Lemma Edited_lists m p w w' : Edited m p w w' → Lists_ok w → Lists_ok w'.
Proof.
  intros He [Hnd Hmk]. split; intros c; rewrite (Edited_items _ _ _ _ c He); [apply Hnd|].
  by rewrite (Edited_subs _ _ _ _ He).
Qed.

Lemma Edited_effect m p w w' : Edited m p w w' → Lists_ok w → Effect m false p w w'.
Proof.
  intros He Hok. split.
  - by rewrite (Edited_point _ _ _ _ He).
  - destruct He as (? & _ & _ & ->). intros m' ?. simpl. by rewrite lookup_insert_ne.
  - destruct He as (? & _ & _ & ->). done.
  - intros s. rewrite (Edited_subs _ _ _ _ He). simpl. by destruct (subs w !! s).
  - by eapply Edited_lists.
Qed.

(** A change of the fields of a point. *)
Lemma wp_edit w0 w m p f (Q : unit → World → Prop) :
  Edited m p w0 w → m_subscribers (f p) = m_subscribers p →
  (∀ w', Edited m (f p) w0 w' → Q tt w') → wp (upd_point m f) Q w.
Proof.
  intros He Hf HQ. eapply wp_upd_point; [by eapply Edited_point|]. apply HQ.
  destruct He as (p0 & Hp0 & Hq & ->). exists p0. split_and!; [done|congruence|].
  unfold on_points. simpl. by rewrite insert_insert_eq.
Qed.

Definition bump (p : ModelPoint) : ModelPoint := with_seqNum (advance (m_seqNum p)) p.

Lemma Edited_idle m p w0 w : Edited m p w0 w → idle_subscribers m w0 → idle_subscribers m w.
Proof.
  intros He H s x. rewrite (Edited_subs _ _ _ _ He), (Edited_pending _ _ _ _ He). apply H.
Qed.

Lemma wp_processChangeNotifications w0 w m p (Q : unit → World → Prop) :
  Edited m p w0 w → Lists_ok w0 → idle_subscribers m w0 →
  (∀ w', Effect m true (bump p) w0 w' → Q tt w') → wp (processChangeNotifications m) Q w.
Proof.
  intros He Hok Hid HQ. unfold processChangeNotifications, advanceSequenceNumber.
  apply wp_bind. eapply wp_edit; [done..|]. intros w1 H1. change (with_seqNum _ p) with (bump p) in H1.
  apply wp_bind. eapply wp_point; [by eapply Edited_point|].
  eapply wp_notify_loop with (q := items w0 (InPoint m)).
  - rewrite <-(items_point w1 m (bump p)) by by eapply Edited_point.
    rewrite (Edited_items _ _ _ _ _ H1). lia.
  - by eapply Edited_items.
  - rewrite (Edited_point _ _ _ _ H1). by eexists.
  - by eapply Edited_lists.
  - by eapply Edited_idle.
  - intros w' [C L S W]. apply HQ. split; [| | | |done].
    + by rewrite (C m), (Edited_point _ _ _ _ H1).
    + intros m' Hm'. rewrite (C m'). apply Edited_effect in H1; [|done]. by apply H1.
    + intros l. rewrite (L l). by rewrite (Edited_pending _ _ _ _ H1).
    + intros s. rewrite S, (Edited_subs _ _ _ _ H1).
      destruct (subs w0 !! s) as [x|] eqn:Hx; [|by case_decide].
      cbn [fmap option_fmap option_map andb].
      destruct (decide (m_inListPtr x = Some (InPoint m))) as [Hm|Hm].
      * rewrite bool_decide_eq_true_2 by done. rewrite decide_True; [done|].
        apply lists_mark; [done|]. eauto.
      * rewrite bool_decide_eq_false_2 by done. rewrite decide_False; [done|].
        intros (y & Hy & ?)%lists_mark; [congruence|done].
Qed.

(** A change of fields after the subscribers were told. *)
Lemma wp_edit_after w0 w m b p f (Q : unit → World → Prop) :
  Effect m b p w0 w →
  (∀ p', content p' = content p → content (f p') = content (f p) ∧ m_subscribers (f p') = m_subscribers p') →
  (∀ w', Effect m b (f p) w0 w' → Q tt w') → wp (upd_point m f) Q w.
Proof.
  intros [P0 P1 L S W] Hf HQ. destruct (points w !! m) as [p'|] eqn:Hp'; [|done].
  injection P0 as P0. destruct (Hf p') as [Hc Hs]; [unfold content; congruence|].
  eapply wp_edit; [by apply Edited_refl|done|]. intros w' He. apply HQ.
  pose proof (Edited_effect _ _ _ _ He W) as [P0' P1' L' S' W']. split; [| | | |done].
  - by rewrite P0', Hc.
  - intros m' Hm. by rewrite P1', P1.
  - intros l. etrans; [apply L'|apply L].
  - intros s. by rewrite (Edited_subs _ _ _ _ He).
Qed.
