(* ===== verification/DmCalls.v ===== *)
(** * Calls on a model point

    The calls a client makes on a point, and for each of them what it makes of
    the point as a function of the point alone: the new fields, and whether the
    subscribers are told.  [call_spec] shows that the code does exactly this. *)

From Stdlib Require Import ZArith Lia.
From S2P Require Import Prelude Dm DmSpec.
Local Open Scope Z_scope.
Local Open Scope pim_scope.

Implicit Types (w : World) (s : sid) (m : mpid) (l : lid) (k : LockRequest_T) (p : ModelPoint).

Inductive call :=
  | CWrite (m : mpid) (srcData : list Z) (k : LockRequest_T)
  | CInvalidate (m : mpid) (k : LockRequest_T)
  | CCopyData (m src : mpid) (k : LockRequest_T)
  | CTouch (m : mpid)
  | CSetLock (m : mpid) (k : LockRequest_T)
  | CImport (m : mpid) (src : list Z) (includeLockedState : bool)
  | CRefReset (m : mpid) (newValue : Z) (k : LockRequest_T)
  | CRefIncrement (m : mpid) (amount : Z) (k : LockRequest_T)
  | CRefDecrement (m : mpid) (amount : Z) (k : LockRequest_T)
  | CIncrement (m : mpid) (amount : Z) (k : LockRequest_T)
  | CDecrement (m : mpid) (amount : Z) (k : LockRequest_T).

Definition run_call (c : call) : M Z :=
  match c with
  | CWrite m d k => writeData m d k
  | CInvalidate m k => setInvalid m k
  | CCopyData m src k => copyData m src k
  | CTouch m => touch m
  | CSetLock m k => setLockState m k
  | CImport m d b => importData m d b;; getSequenceNumber m
  | CRefReset m n k => RefCounter_reset m n k
  | CRefIncrement m n k => RefCounter_increment m n k
  | CRefDecrement m n k => RefCounter_decrement m n k
  | CIncrement m n k => Numeric_increment m n k
  | CDecrement m n k => Numeric_decrement m n k
  end.

Definition call_point (c : call) : mpid :=
  match c with
  | CWrite m _ _ | CInvalidate m _ | CCopyData m _ _ | CTouch m | CSetLock m _ | CImport m _ _
  | CRefReset m _ _ | CRefIncrement m _ _ | CRefDecrement m _ _ | CIncrement m _ _
  | CDecrement m _ _ => m
  end.

(** ** What a call makes of its point *)

(** The point after the lock request, unless the call is refused. *)
Definition lock_result k p : option ModelPoint :=
  match k with
  | eUNLOCK => Some (with_locked false p)
  | eLOCK => Some (with_locked true p)
  | eNO_REQUEST => if m_locked p then None else Some p
  end.

Definition accepted k p (f : ModelPoint → bool * ModelPoint) : bool * ModelPoint :=
  match lock_result k p with Some p' => f p' | None => (false, p) end.

Definition write_result (d : list Z) k p : bool * ModelPoint :=
  accepted k p (λ p,
    if m_valid p && bool_decide (m_data p = d) then (false, p)
    else (true, bump (with_valid true (with_data d p)))).

Definition invalid_result k p : bool * ModelPoint :=
  accepted k p (λ p,
    if m_valid p then
      (true, bump (with_data (replicate (length (m_data p)) 0) (with_valid false p)))
    else (false, p)).

(** The subscribers of a counter of references care for zero or not zero. *)
Definition counted_result (newValue : Z) p : bool * ModelPoint :=
  if m_valid p && Bool.eqb (u32_value p =? 0) (newValue =? 0) then (false, u32_store newValue p)
  else (true, u32_store newValue (bump (with_valid true p))).

(** Saturating arithmetic. *)
Definition sat_add (a b : Z) : Z := Z.min (a + b) (2 ^ 32 - 1).
Definition sat_sub (a b : Z) : Z := Z.max (a - b) 0.

Definition import_result (src : list Z) (includeLockedState : bool) p : bool * ModelPoint :=
  let n := length (m_data p) in
  if Nat.leb (n + 1) (length src) then
    let p1 := with_valid (negb (default 0 (src !! n) =? 0)) (with_data (take n src) p) in
    let p2 := if includeLockedState
              then with_locked (negb (default 0 (src !! S n) =? 0)) p1 else p1 in
    (true, bump p2)
  else (false, p).

(** [src]: the other point of a copy. *)
Definition call_result (src : ModelPoint) (c : call) p : bool * ModelPoint :=
  match c with
  | CWrite _ d k => write_result d k p
  | CInvalidate _ k => invalid_result k p
  | CCopyData _ _ k => write_result (m_data src) k p
  | CTouch _ => (true, bump p)
  | CSetLock _ k =>
    (false, match k with
            | eLOCK => with_locked true p | eUNLOCK => with_locked false p | eNO_REQUEST => p end)
  | CImport _ d b => import_result d b p
  | CRefReset _ n k => accepted k p (counted_result n)
  | CRefIncrement _ n k => accepted k p (λ p, counted_result (sat_add (u32_value p) n) p)
  | CRefDecrement _ n k => accepted k p (λ p, counted_result (sat_sub (u32_value p) n) p)
  | CIncrement _ n k => write_result (le_bytes 4 (u32 (u32_value p + n))) k p
  | CDecrement _ n k => write_result (le_bytes 4 (u32 (u32_value p - n))) k p
  end.

Definition call_source (c : call) : mpid :=
  match c with CCopyData _ src _ => src | _ => call_point c end.

(** The data has the size of the point; a counter has four bytes. *)
Definition call_ok (src : ModelPoint) (c : call) p : bool :=
  let counter n := Nat.eqb (length (m_data p)) 4 && forallb (λ b, bool_decide (in_range 8 b)) (m_data p)
                   && bool_decide (in_range 32 n) in
  match c with
  | CWrite _ d _ => Nat.eqb (length d) (length (m_data p))
  | CCopyData _ _ _ => Nat.eqb (length (m_data src)) (length (m_data p))
  | CImport _ d b =>
    negb b || Nat.ltb (length d) (length (m_data p) + 1) || Nat.leb (length (m_data p) + 2) (length d)
  | CRefReset _ n _ | CRefIncrement _ n _ | CRefDecrement _ n _ | CIncrement _ n _
  | CDecrement _ n _ => counter n
  | _ => true
  end.

(** ** The calls one by one *)

Section calls.
Context (w0 : World) (m : mpid) (p0 : ModelPoint).
Hypothesis Hp0 : points w0 !! m = Some p0.
Hypothesis Hok : Lists_ok w0.
Hypothesis Hidle : idle_subscribers m w0.

(** The call ends with the effect [r] and returns the sequence number. *)
Definition Post (r : bool * ModelPoint) (n : Z) w : Prop :=
  Effect m r.1 r.2 w0 w ∧ n = m_seqNum r.2.

Lemma wp_getSequenceNumber b p w :
  Effect m b p w0 w → wp (getSequenceNumber m) (Post (b, p)) w.
Proof.
  intros H. unfold getSequenceNumber. apply wp_bind. pose proof (effect_point _ _ _ _ _ H) as Hc.
  destruct (points w !! m) as [p'|] eqn:Hp'; [|done]. injection Hc as _ E _ _.
  eapply wp_point; [done|]. by apply wp_ret.
Qed.

Lemma wp_seq_unchanged p w :
  Edited m p w0 w → wp (getSequenceNumber m) (Post (false, p)) w.
Proof. intros H. apply wp_getSequenceNumber. by apply Edited_effect. Qed.

Lemma wp_testAndUpdateLock k (Q : bool → World → Prop) :
  (∀ w, match lock_result k p0 with
        | Some p => Edited m p w0 w → Q true w
        | None => w = w0 → Q false w
        end) → wp (testAndUpdateLock m k) Q w0.
Proof.
  intros HQ. pose proof (Edited_refl _ _ _ Hp0) as He.
  destruct k; simpl in *; apply wp_bind.
  - eapply wp_point; [done|]. apply wp_ret. specialize (HQ w0). destruct (m_locked p0); auto.
  - eapply wp_edit; [done..|]. intros w H. apply wp_ret. by apply HQ.
  - eapply wp_edit; [done..|]. intros w H. apply wp_ret. by apply HQ.
Qed.

(** The frame of the calls with a lock request. *)
Lemma wp_locked_call k (body : M unit) f :
  (∀ p w, Edited m p w0 w →
     m_seqNum p = m_seqNum p0 → m_data p = m_data p0 → m_valid p = m_valid p0 →
     wp body (λ _, λ w', Effect m (f p).1 (f p).2 w0 w') w) →
  wp (ok ← testAndUpdateLock m k; (if ok : bool then body else ret tt);; getSequenceNumber m)
     (Post (accepted k p0 f)) w0.
Proof.
  intros Hbody. apply wp_bind. apply wp_testAndUpdateLock. intros w. unfold accepted.
  destruct (lock_result k p0) as [p|] eqn:E.
  - intros He. apply wp_bind. eapply wp_mono; [apply (Hbody p); [done|..]|].
    1-3: by destruct k; simpl in E; [destruct (m_locked p0)| |]; simplify_eq/=.
    intros u w' H. destruct (f p). by apply wp_getSequenceNumber.
  - intros ->. apply wp_bind, wp_ret. by apply wp_seq_unchanged, Edited_refl.
Qed.

Lemma wp_processDataUpdated p w (Q : unit → World → Prop) :
  Edited m p w0 w → (∀ w', Effect m true (bump (with_valid true p)) w0 w' → Q tt w') →
  wp (processDataUpdated m) Q w.
Proof.
  intros He HQ. unfold processDataUpdated. apply wp_bind. eapply wp_edit; [done..|].
  intros w1 H1. by eapply wp_processChangeNotifications.
Qed.

Lemma wp_copyDataFrom d p w (Q : unit → World → Prop) :
  Edited m p w0 w → length d = length (m_data p) →
  (∀ w', Edited m (with_data d p) w0 w' → Q tt w') → wp (copyDataFrom_ m d) Q w.
Proof.
  intros He Hd HQ. unfold copyDataFrom_. apply wp_bind.
  eapply wp_point; [by eapply Edited_point|]. rewrite Hd, Nat.leb_refl, Nat.ltb_irrefl.
  apply wp_bind, wp_ret. rewrite <-Hd, take_ge by done. by eapply wp_edit.
Qed.

Lemma wp_writeData d k :
  length d = length (m_data p0) → wp (writeData m d k) (Post (write_result d k p0)) w0.
Proof.
  intros Hd. unfold writeData, write_result. apply wp_locked_call. intros p w He _ Ed _.
  apply wp_bind. eapply wp_point; [by eapply Edited_point|]. rewrite <-Ed in Hd.
  apply wp_bind. eapply (wp_mono _ (λ b w', w' = w ∧ b = m_valid p && bool_decide (m_data p = d))).
  { destruct (m_valid p); [|by apply wp_ret]. unfold isDataEqual_. rewrite Hd, Nat.ltb_irrefl.
    apply wp_ret. rewrite <-Hd, take_ge by done. done. }
  intros b w1 [-> ->]. destruct (m_valid p && _).
  - apply wp_ret. by apply Edited_effect.
  - apply wp_bind. eapply wp_copyDataFrom; [done..|]. intros w1 H1. by eapply wp_processDataUpdated.
Qed.

Lemma wp_setInvalid k : wp (setInvalid m k) (Post (invalid_result k p0)) w0.
Proof.
  unfold setInvalid, invalid_result. apply wp_locked_call. intros p w He _ _ _.
  apply wp_bind. eapply wp_point; [by eapply Edited_point|]. destruct (m_valid p).
  - apply wp_bind. eapply wp_edit; [done..|]. intros w1 H1. apply wp_bind.
    unfold hookSetInvalid. eapply wp_edit; [done..|]. intros w2 H2.
    by eapply wp_processChangeNotifications.
  - apply wp_ret. by apply Edited_effect.
Qed.

Lemma wp_touch : wp (touch m) (Post (true, bump p0)) w0.
Proof.
  unfold touch. apply wp_bind. eapply wp_processChangeNotifications; [by apply Edited_refl|done..|].
  intros w1 H1. by apply wp_getSequenceNumber.
Qed.

Lemma wp_setLockState k : wp (setLockState m k) (Post (call_result p0 (CSetLock m k) p0)) w0.
Proof.
  pose proof (Edited_refl _ _ _ Hp0) as He. unfold setLockState. apply wp_bind. destruct k; simpl.
  - apply wp_ret. by apply wp_seq_unchanged.
  - eapply wp_edit; [done..|]. intros w H. by apply wp_seq_unchanged.
  - eapply wp_edit; [done..|]. intros w H. by apply wp_seq_unchanged.
Qed.

Lemma wp_count n p w (Q : unit → World → Prop) :
  Edited m p w0 w →
  (∀ w', Effect m (counted_result n p).1 (counted_result n p).2 w0 w' → Q tt w') →
  wp (updateAndCheckForChangeNotification m n) Q w.
Proof.
  intros He HQ. unfold updateAndCheckForChangeNotification, counted_result in *. apply wp_bind.
  eapply wp_point; [by eapply Edited_point|]. apply wp_bind.
  destruct (m_valid p), (u32_value p =? 0), (n =? 0); simpl in *.
  all: first
    [ apply wp_ret; eapply wp_edit; [done..|]; intros w1 H1; apply HQ; by apply Edited_effect
    | eapply wp_processDataUpdated; [done|]; intros w1 H1; eapply wp_edit_after; [done| |done];
      intros p' E; injection E as E1 E2 E3 E4; unfold content; simpl in *; by rewrite E2, E3, E4 ].
Qed.

Lemma of_le_256 d : Forall (in_range 8) d → 0 <= of_le d < 256 ^ Z.of_nat (length d).
Proof.
  induction 1 as [|b d Hb _ IH]; [done|]. unfold in_range in Hb. cbn [of_le length].
  rewrite Nat2Z.inj_succ, Z.pow_succ_r by lia. lia.
Qed.

Lemma in_range_of_le4 d :
  length d = 4%nat → forallb (λ b, bool_decide (in_range 8 b)) d = true → in_range 32 (of_le d).
Proof.
  intros Hl Hd. assert (Forall (in_range 8) d) as Hf.
  { apply Forall_forall. intros b Hb. rewrite forallb_forall in Hd.
    eapply bool_decide_eq_true_1, Hd. by apply list_elem_of_In. }
  pose proof (of_le_256 d Hf). unfold in_range. rewrite Hl in *. done.
Qed.

Lemma wp_importData d b :
  call_ok p0 (CImport m d b) p0 = true →
  wp (importData m d b;; getSequenceNumber m) (Post (import_result d b p0)) w0.
Proof.
  intros Hlen. pose proof (Edited_refl _ _ _ Hp0) as He. apply wp_bind.
  unfold importData, import_result, getExternalSize. apply wp_bind. eapply wp_point; [done|].
  simpl in Hlen. destruct (Nat.leb (length (m_data p0) + 1) (length d)) eqn:Hn.
  2:{ apply wp_ret. by apply wp_seq_unchanged. }
  apply Nat.leb_le in Hn.
  apply wp_bind. eapply wp_edit; [done..|]. intros w1 H1.
  destruct (lookup_lt_is_Some_2 d (length (m_data p0))) as [v Hv]; [lia|].
  apply wp_bind. eapply wp_lift_opt; [done|]. rewrite Hv. cbn [default].
  apply wp_bind. eapply wp_edit; [done..|]. intros w2 H2. apply wp_bind.
  set (p1 := with_valid _ _) in *.
  set (p2 := if b then with_locked (negb (default 0 (d !! S (length (m_data p0))) =? 0)) p1 else p1).
  eapply (wp_mono _ (λ _ w3, Edited m p2 w0 w3)).
  { destruct b; [|by apply wp_ret]. simpl in Hlen.
    assert (length (m_data p0) + 2 ≤ length d)%nat.
    { apply orb_true_iff in Hlen as [H|H]; [apply Nat.ltb_lt in H; lia|by apply Nat.leb_le]. }
    destruct (lookup_lt_is_Some_2 d (S (length (m_data p0)))) as [v' Hv']; [lia|].
    apply wp_bind. eapply wp_lift_opt; [done|]. unfold p2. rewrite Hv'.
    eapply wp_edit; [done..|]. intros w3 H3. done. }
  intros u w3 H3. apply wp_bind. eapply wp_processChangeNotifications; [done..|]. intros w4 H4.
  apply wp_bind. pose proof (effect_point _ _ _ _ _ H4) as Hc.
  destruct (points w4 !! m) as [p4|] eqn:Hp4; [|done].
  eapply wp_point; [done|]. apply wp_ret. by apply wp_getSequenceNumber.
Qed.

(** The comparisons with the old value find the overflow. *)
Lemma add_saturates a n :
  in_range 32 a → in_range 32 n →
  (if u32 (a + n) <? a then 2 ^ 32 - 1 else u32 (a + n)) = sat_add a n.
Proof.
  unfold in_range, wrap, sat_add. intros Ha Hn. destruct (decide (a + n < 2 ^ 32)).
  - rewrite Z.mod_small by lia. rewrite (proj2 (Z.ltb_ge _ _)) by lia. lia.
  - rewrite <-(Z.mod_unique_pos (a + n) (2 ^ 32) 1 (a + n - 2 ^ 32)) by lia.
    rewrite (proj2 (Z.ltb_lt _ _)) by lia. lia.
Qed.

Lemma sub_saturates a n :
  in_range 32 a → in_range 32 n →
  (if a <? u32 (a - n) then 0 else u32 (a - n)) = sat_sub a n.
Proof.
  unfold in_range, wrap, sat_sub. intros Ha Hn. destruct (decide (n <= a)).
  - rewrite Z.mod_small by lia. rewrite (proj2 (Z.ltb_ge _ _)) by lia. lia.
  - rewrite <-(Z.mod_unique_pos (a - n) (2 ^ 32) (-1) (a - n + 2 ^ 32)) by lia.
    rewrite (proj2 (Z.ltb_lt _ _)) by lia. lia.
Qed.

Lemma wp_RefCounter_reset n k :
  wp (RefCounter_reset m n k) (Post (accepted k p0 (counted_result n))) w0.
Proof.
  unfold RefCounter_reset. apply wp_locked_call. intros p w He _ _ _. by eapply wp_count.
Qed.

Lemma wp_RefCounter_move n k (move sat : Z → Z → Z) :
  (∀ a, in_range 32 a → move a n = sat a n) → in_range 32 (u32_value p0) →
  wp (ok ← testAndUpdateLock m k;
      (if ok : bool then p ← point m; updateAndCheckForChangeNotification m (move (u32_value p) n)
       else ret tt);; getSequenceNumber m)
     (Post (accepted k p0 (λ p, counted_result (sat (u32_value p) n) p))) w0.
Proof.
  intros Hmove Hv. apply wp_locked_call. intros p w He _ Hd _. apply wp_bind.
  eapply wp_point; [by eapply Edited_point|]. rewrite Hmove.
  - by eapply wp_count.
  - unfold u32_value. by rewrite Hd.
Qed.

Lemma wp_Numeric (f : Z → Z) k :
  length (m_data p0) = 4%nat →
  wp (p ← point m; writeData m (le_bytes 4 (f (u32_value p))) k)
     (Post (write_result (le_bytes 4 (f (u32_value p0))) k p0)) w0.
Proof.
  intros Hl. apply wp_bind. eapply wp_point; [done|]. apply wp_writeData.
  rewrite Hl. apply length_le_bytes.
Qed.
End calls.

(** ** All calls *)

(** A call ends, makes of its point what [call_result] says, tells the idle
    subscribers when it says so, and returns the sequence number. *)
Lemma call_spec w c p src :
  points w !! call_point c = Some p → points w !! call_source c = Some src →
  Lists_ok w → idle_subscribers (call_point c) w → call_ok src c p = true →
  wp (run_call c) (Post w (call_point c) (call_result src c p)) w.
Proof.
  intros Hp Hsrc Hok Hid Hc. destruct c; simpl call_point in *; simpl call_source in *;
    simpl run_call; simpl call_result.
  - apply wp_writeData; [done..|]. by apply Nat.eqb_eq.
  - by apply wp_setInvalid.
  - unfold copyData. apply wp_bind. eapply wp_point; [done|].
    apply wp_writeData; [done..|]. by apply Nat.eqb_eq.
  - by apply wp_touch.
  - by apply wp_setLockState.
  - by apply wp_importData.
  - by apply wp_RefCounter_reset.
  - simpl in Hc. rewrite !andb_true_iff in Hc. destruct Hc as [[Hl Hb] Hn].
    apply Nat.eqb_eq in Hl. apply bool_decide_eq_true_1 in Hn. unfold RefCounter_increment.
    apply (wp_RefCounter_move _ _ _ Hp Hok Hid amount k
      (λ a n, if u32 (a + n) <? a then 2 ^ 32 - 1 else u32 (a + n)) sat_add).
    + intros a Ha. by apply add_saturates.
    + by apply in_range_of_le4.
  - simpl in Hc. rewrite !andb_true_iff in Hc. destruct Hc as [[Hl Hb] Hn].
    apply Nat.eqb_eq in Hl. apply bool_decide_eq_true_1 in Hn. unfold RefCounter_decrement.
    apply (wp_RefCounter_move _ _ _ Hp Hok Hid amount k
      (λ a n, if a <? u32 (a - n) then 0 else u32 (a - n)) sat_sub).
    + intros a Ha. by apply sub_saturates.
    + by apply in_range_of_le4.
  - simpl in Hc. rewrite !andb_true_iff in Hc. destruct Hc as [[Hl Hb] Hn].
    apply Nat.eqb_eq in Hl. by apply (wp_Numeric _ _ _ Hp Hok Hid (λ a, u32 (a + amount))).
  - simpl in Hc. rewrite !andb_true_iff in Hc. destruct Hc as [[Hl Hb] Hn].
    apply Nat.eqb_eq in Hl. by apply (wp_Numeric _ _ _ Hp Hok Hid (λ a, u32 (a - amount))).
Qed.
