(* ===== verification/DmSystem.v ===== *)
(** * The data model at work

    Threads change points, and each event loop takes its notifications one by
    one and calls its subscribers.  A call of the data model is one step; between
    two steps of an event loop any other step may come.  [sys_step] runs a step,
    [allowed] is what clients have to keep to: a subscriber attaches and detaches
    in the thread of its event loop, and has at most one point. *)

From Stdlib Require Import ZArith Lia.
From S2P Require Import Prelude Dm DmSpec DmCalls.
Local Open Scope Z_scope.
Local Open Scope pim_scope.

Implicit Types (w : World) (s : sid) (m : mpid) (l : lid) (p : ModelPoint) (x : Subscriber).

(** ** Steps *)

(** Where an event loop is in EventLoop::processChangeNotifications. *)
Inductive Phase := PIdle | PGot (s : sid) | PCalling (s : sid) (m : mpid).

#[global] Instance Phase_eq_dec : EqDecision Phase.
Proof. solve_decision. Defined.

Record Sys := mkSys { world : World; phases : gmap lid Phase }.

Definition phase_of (y : Sys) l : Phase := default PIdle (phases y !! l).
Definition set_phase l (ph : Phase) (y : Sys) : Sys := mkSys (world y) (<[l := ph]> (phases y)).

Definition on_world {A} (mm : M A) : ST Sys A :=
  λ y, match mm (world y) with Some (a, w) => Some (a, mkSys w (phases y)) | None => None end.

Inductive label :=
  | LCall (c : call)
  | LAttach (l : lid) (m : mpid) (s : sid) (initialSeqNumber : Z)
  | LDetach (l : lid) (m : mpid) (s : sid)
  | LTake (l : lid)
  | LStart (l : lid)
  | LEnd (l : lid).

Definition sys_step (a : label) : ST Sys unit :=
  match a with
  | LCall c => on_world (run_call c);; ret tt
  | LAttach _ m s n => on_world (attachSubscriber m s n)
  | LDetach _ m s => on_world (detachSubscriber m s)
  | LTake l =>
    o ← on_world (takeNotification l);
    match o with Some s => modify (set_phase l (PGot s)) | None => ret tt end
  | LStart l =>
    y ← get_st;
    match phase_of y l with
    | PGot s => m ← on_world (startNotification s); modify (set_phase l (PCalling s m))
    | _ => undefined
    end
  | LEnd l =>
    y ← get_st;
    match phase_of y l with
    | PCalling s m => on_world (endNotification m s);; modify (set_phase l PIdle)
    | _ => undefined
    end
  end.

Fixpoint sys_run (t : list label) : ST Sys unit :=
  match t with [] => ret tt | a :: t => sys_step a;; sys_run t end.

(** ** The contract *)

(** A client of loop [l] runs: between notifications, or in a callback. *)
Definition client_runs (ph : Phase) : bool := match ph with PGot _ => false | _ => true end.

Definition has_point w m : bool := bool_decide (is_Some (points w !! m)).

(** A subscriber that detached in its callback attaches only to the same point
    again before the callback ends. *)
Definition may_attach (ph : Phase) m s x : bool :=
  match m_point x with
  | Some m' => bool_decide (m' = m)
  | None => bool_decide (m_state x ≠ eSTATE_NOTIFY_PENDING_DETACH) || bool_decide (ph = PCalling s m)
  end.

Definition may_detach m x : bool :=
  match m_point x with Some m' => bool_decide (m' = m) | None => true end.

Definition allowed (y : Sys) (a : label) : bool :=
  let w := world y in
  match a with
  | LCall c =>
    match points w !! call_point c, points w !! call_source c with
    | Some p, Some src => call_ok src c p
    | _, _ => false
    end
  | LAttach l m s _ =>
    match subs w !! s with
    | Some x => bool_decide (m_eventLoopHdl x = l) && client_runs (phase_of y l) && has_point w m
                && may_attach (phase_of y l) m s x
    | None => false
    end
  | LDetach l m s =>
    match subs w !! s with
    | Some x => bool_decide (m_eventLoopHdl x = l) && client_runs (phase_of y l) && has_point w m
                && may_detach m x
    | None => false
    end
  | LTake l => bool_decide (phase_of y l = PIdle) && bool_decide (is_Some (pending w !! l))
  | LStart l => match phase_of y l with PGot _ => true | _ => false end
  | LEnd l => match phase_of y l with PCalling _ _ => true | _ => false end
  end.

(** Every step of the trace is allowed in the state it starts from. *)
Fixpoint allowed_run (y : Sys) (t : list label) : bool :=
  match t with
  | [] => true
  | a :: t =>
    allowed y a && match sys_step a y with Some (_, y') => allowed_run y' t | None => true end
  end.

(** ** The invariant *)

(** What a loop in phase [ph] has to do with the subscriber [s]. *)
Inductive Role := RNone | RTaken | RCalled (m : mpid).

Definition role (ph : Phase) s : Role :=
  match ph with
  | PIdle => RNone
  | PGot s' => if decide (s' = s) then RTaken else RNone
  | PCalling s' m => if decide (s' = s) then RCalled m else RNone
  end.

Definition current (ph : Phase) : option sid :=
  match ph with PIdle => None | PGot s | PCalling s _ => Some s end.

(** The state of a subscriber says where it is: with its point, whose sequence
    number it has; in the list of its event loop; or in the hands of the loop. *)
Definition sub_ok (y : Sys) s x : Prop :=
  let r := role (phase_of y (m_eventLoopHdl x)) s in
  let mark := m_inListPtr x in
  is_Some (pending (world y) !! m_eventLoopHdl x) ∧
  match m_state x with
  | eSTATE_UNSUBSCRIBED => m_point x = None ∧ mark = None ∧ r = RNone
  | eSTATE_IDLE => ∃ m p, m_point x = Some m ∧ points (world y) !! m = Some p ∧
      m_seqNumber x = m_seqNum p ∧ mark = Some (InPoint m) ∧ r = RNone
  | eSTATE_NOTIFY_PENDING => ∃ m, m_point x = Some m ∧ is_Some (points (world y) !! m) ∧
      (mark = Some (InLoop (m_eventLoopHdl x)) ∧ r = RNone ∨ mark = None ∧ r = RTaken)
  | eSTATE_NOTIFY_NOTIFYING => ∃ m, m_point x = Some m ∧ is_Some (points (world y) !! m) ∧
      mark = None ∧ r = RCalled m
  | eSTATE_NOTIFY_PENDING_DETACH => ∃ m, m_point x = None ∧ is_Some (points (world y) !! m) ∧
      mark = None ∧ r = RCalled m
  end.

Record Inv (y : Sys) : Prop := {
  inv_lists : Lists_ok (world y);
  inv_sub s x : subs (world y) !! s = Some x → sub_ok y s x;
  inv_phase l s : current (phase_of y l) = Some s →
    ∃ x, subs (world y) !! s = Some x ∧ m_eventLoopHdl x = l;
  inv_seq m p : points (world y) !! m = Some p → 1 <= m_seqNum p < 2 ^ 16
}.

(** The constructors leave points without subscribers, subscribers without a
    point and event loops with nothing to do. *)
Definition booted (y : Sys) : bool :=
  let w := world y in
  bool_decide (phases y = ∅)
  && bool_decide (map_Forall (λ _ p, m_subscribers p = [] ∧ m_seqNum p = SEQUENCE_NUMBER_UNKNOWN + 1) (points w))
  && bool_decide (map_Forall (λ _ q, q = []) (pending w))
  && bool_decide (map_Forall (λ _ x, m_state x = eSTATE_UNSUBSCRIBED ∧ m_point x = None ∧
       m_inListPtr x = None ∧ is_Some (pending w !! m_eventLoopHdl x)) (subs w)).

Lemma booted_inv y : booted y = true → Inv y.
Proof.
  unfold booted. rewrite !andb_true_iff, !bool_decide_eq_true. intros [[[Hph Hp] Hq] Hs].
  assert (∀ l, phase_of y l = PIdle) as Hph'.
  { intros l. unfold phase_of. by rewrite Hph, lookup_empty. }
  assert (∀ c, items (world y) c = []) as Hi.
  { intros [m|l]; unfold items.
    - destruct (points (world y) !! m) eqn:E; [|done]. by apply (Hp _ _ E).
    - destruct (pending (world y) !! l) eqn:E; [|done]. by apply (Hq _ _ E). }
  split.
  - split; intros c; rewrite Hi; [constructor|]. intros s. split; [by intros ?%not_elem_of_nil|].
    intros (x & Hx & Hm). destruct (Hs _ _ Hx) as (_ & _ & ? & _). congruence.
  - intros s x Hx. destruct (Hs _ _ Hx) as (E & E1 & E2 & E3). unfold sub_ok.
    rewrite E, Hph'. done.
  - intros l s. by rewrite Hph'.
  - intros m p Hm. destruct (Hp _ _ Hm) as [_ ->]. done.
Qed.

(** ** Every step keeps it *)

Lemma wp_on_world {A} (mm : M A) y (Q : A → Sys → Prop) :
  wp mm (λ a w, Q a (mkSys w (phases y))) (world y) → wp (on_world mm) Q y.
Proof. unfold wp, on_world. by destruct (mm (world y)) as [[a w]|]. Qed.

Lemma advance_range n : 1 <= n < 2 ^ 16 → 1 <= advance n < 2 ^ 16.
Proof.
  intros Hn. unfold advance, wrap, SEQUENCE_NUMBER_UNKNOWN. cbv zeta. case_match eqn:E; [lia|].
  apply Z.eqb_neq in E. pose proof (Z.mod_pos_bound (n + 1) (2 ^ 16)). lia.
Qed.

Lemma sub_ok_placed y s x m :
  sub_ok y s x → (m_point x = Some m ∨ m_point x = None) → placed m x.
Proof.
  unfold sub_ok, placed. intros [_ H] Hm. destruct (m_state x).
  - tauto.
  - destruct H as (m' & p & Hx & _ & _ & Hk & _). rewrite Hk. f_equal. f_equal.
    destruct Hm; congruence.
  - destruct H as (m' & _ & _ & [[H _]|[H _]]); auto.
  - by destruct H as (m' & _ & _ & H & _).
  - by destruct H as (m' & _ & _ & H & _).
Qed.

(** What a subscriber sees of the rest. *)
Lemma sub_ok_frame y y' s x :
  same_content (world y) (world y') → same_loops (world y) (world y') →
  role (phase_of y' (m_eventLoopHdl x)) s = role (phase_of y (m_eventLoopHdl x)) s →
  sub_ok y s x → sub_ok y' s x.
Proof.
  intros Hc Hl Hr [Hq H]. unfold sub_ok. rewrite Hr. split; [by apply Hl|].
  assert (∀ m p, points (world y) !! m = Some p →
    ∃ p', points (world y') !! m = Some p' ∧ m_seqNum p' = m_seqNum p) as Hpt.
  { intros m p Hp. destruct (same_content_lookup _ _ _ _ Hc Hp) as (p' & ? & E).
    injection E as _ E _ _. eauto. }
  assert (∀ m, is_Some (points (world y) !! m) → is_Some (points (world y') !! m)) as Hpt'.
  { intros m [p Hp]. destruct (Hpt _ _ Hp) as (p' & ? & _). by eexists. }
  destruct (m_state x); [done| |naive_solver..].
  destruct H as (m & p & Hm & Hp & Hn & Hk & Hr'). destruct (Hpt _ _ Hp) as (p' & Hp' & E).
  exists m, p'. split_and!; [done..|congruence|done|done].
Qed.

(** A subscriber moves, and the phase of its event loop may change with it. *)
Lemma Moves_inv y y' s x0 x l :
  Inv y → subs (world y) !! s = Some x0 → m_eventLoopHdl x0 = l → m_eventLoopHdl x = l →
  Moves s x (world y) (world y') →
  (∀ l', l' ≠ l → phase_of y' l' = phase_of y l') →
  (∀ s', s' ≠ s → role (phase_of y' l) s' = role (phase_of y l) s') →
  (current (phase_of y' l) = Some s ∨ current (phase_of y' l) = current (phase_of y l)
     ∨ current (phase_of y' l) = None) →
  sub_ok y' s x → Inv y'.
Proof.
  intros [Wl Ws Wp Wq] Hx0 Hl0 Hl [C L S O X W] Hph Hrole Hcur Hnew. split; [done| | |].
  - intros s' x' Hx'. destruct (decide (s' = s)) as [->|Hne].
    { rewrite X in Hx'. by injection Hx' as <-. }
    rewrite S in Hx' by done. eapply sub_ok_frame; [exact C|exact L| |by apply Ws].
    destruct (decide (m_eventLoopHdl x' = l)) as [->|E]; [by apply Hrole|by rewrite Hph].
  - intros l' s' Hcs. assert (∃ x', subs (world y) !! s' = Some x' ∧ m_eventLoopHdl x' = l')
      as (x' & Hx' & El).
    { destruct (decide (l' = l)) as [->|E]; [|apply Wp; by rewrite <-Hph].
      destruct Hcur as [H|[H|H]]; [|by apply Wp; congruence|congruence].
      rewrite H in Hcs. injection Hcs as <-. eauto. }
    destruct (decide (s' = s)) as [->|Hne]; [|exists x'; by rewrite S]. exists x. split; [done|congruence].
  - intros m p Hp. specialize (C m). rewrite Hp in C. simpl in C.
    destruct (points (world y) !! m) as [p'|] eqn:Hp'; [|done]. injection C as _ E _ _. rewrite E. eauto.
Qed.

Lemma not_taken ph s : client_runs ph = true → role ph s ≠ RTaken.
Proof. destruct ph; simpl; [done|done|]. intros _. by case_decide. Qed.

(** An attached subscriber is idle in sync, or pending. *)
Lemma subscribed_ok y s x m p :
  points (world y) !! m = Some p → m_point x = Some m →
  is_Some (pending (world y) !! m_eventLoopHdl x) →
  role (phase_of y (m_eventLoopHdl x)) s = RNone → sub_ok y s (subscribed m p x).
Proof.
  intros Hp Hm Hl Hr. unfold subscribed, sub_ok. destruct (m_seqNum p =? m_seqNumber x) eqn:E; simpl.
  - split; [done|]. apply Z.eqb_eq in E. by exists m, p.
  - split; [done|]. exists m. split; [done|]. split; [by eexists|by left].
Qed.

(** sub_ok speaks of sequence numbers, so a world with the same points will do. *)
Lemma subscribed_content m p p' x : content p' = content p → subscribed m p' x = subscribed m p x.
Proof. intros E. injection E as _ E _ _. unfold subscribed. by rewrite E. Qed.

Lemma step_attach y l m s n :
  Inv y → allowed y (LAttach l m s n) = true → wp (sys_step (LAttach l m s n)) (λ _, Inv) y.
Proof.
  intros HI Ha. simpl in Ha. destruct (subs (world y) !! s) as [x|] eqn:Hx; [|done].
  rewrite !andb_true_iff in Ha. destruct Ha as [[[Hl Hc] Hm] Hat].
  apply bool_decide_eq_true in Hl, Hm. destruct Hm as [p Hp].
  pose proof (inv_sub _ HI _ _ Hx) as Hsub.
  assert (m_point x = Some m ∨ m_point x = None) as Hpt.
  { unfold may_attach in Hat. destruct (m_point x); [|by right]. apply bool_decide_eq_true in Hat.
    left. congruence. }
  assert (is_Some (pending (world y) !! m_eventLoopHdl x)) as Hq by apply Hsub.
  simpl. apply wp_on_world.
  eapply wp_attachSubscriber; [apply HI|done..|by eapply sub_ok_placed|].
  intros w' H. eapply Moves_inv with (s := s) (l := l); [done|done|done| |exact H|done|done|by right; left|].
  { unfold attached, subscribed. by repeat case_match. }
  destruct (moves_point _ _ _ _ _ _ H Hp) as (p' & Hp' & Ec).
  assert (is_Some (pending w' !! m_eventLoopHdl x)) as Hq' by by apply (moves_loops _ _ _ _ H).
  assert (m_state x = eSTATE_UNSUBSCRIBED ∨ m_state x = eSTATE_IDLE ∨ m_state x = eSTATE_NOTIFY_PENDING →
    role (phase_of y (m_eventLoopHdl x)) s = RNone) as Hr.
  { destruct Hsub as [_ Hsub]. destruct (m_state x); intros Hst.
    - tauto.
    - by destruct Hsub as (? & ? & ? & ? & ? & ? & ?).
    - destruct Hsub as (? & ? & ? & [[? ?]|[_ Ht]]); [done|]. rewrite Hl in Ht.
      by destruct (not_taken _ s Hc).
    - naive_solver.
    - naive_solver. }
  destruct Hsub as [_ Hsub]. unfold attached. simpl. destruct (m_state x) eqn:Hst.
  1-3: rewrite <-(subscribed_content m p p') by done; apply subscribed_ok; simpl; auto.
  - destruct Hsub as (m' & E & ? & ? & ?). destruct Hpt as [Hpt|Hpt]; [|congruence].
    assert (m' = m) as -> by congruence. unfold sub_ok. simpl. rewrite Hst.
    split; [done|]. exists m. split_and!; [done|by eexists|done..].
  - destruct Hsub as (m' & E & ? & ? & Hr'). unfold may_attach in Hat. rewrite E, Hst in Hat.
    simpl in Hat. apply bool_decide_eq_true in Hat. unfold sub_ok. simpl.
    split; [done|]. exists m. split_and!; [done|by eexists|done|].
    change (role (phase_of y (m_eventLoopHdl x)) s = RCalled m).
    rewrite Hl, Hat. simpl. by rewrite decide_True.
Qed.

Lemma step_detach y l m s :
  Inv y → allowed y (LDetach l m s) = true → wp (sys_step (LDetach l m s)) (λ _, Inv) y.
Proof.
  intros HI Ha. simpl in Ha. destruct (subs (world y) !! s) as [x|] eqn:Hx; [|done].
  rewrite !andb_true_iff in Ha. destruct Ha as [[[Hl Hc] Hm] Hat].
  apply bool_decide_eq_true in Hl, Hm. pose proof (inv_sub _ HI _ _ Hx) as Hsub.
  assert (m_point x = Some m ∨ m_point x = None) as Hpt.
  { unfold may_detach in Hat. destruct (m_point x); [|by right]. apply bool_decide_eq_true in Hat.
    left. congruence. }
  assert (is_Some (pending (world y) !! m_eventLoopHdl x)) as Hq by apply Hsub.
  simpl. apply wp_on_world.
  eapply wp_detachSubscriber; [apply HI|done..|by eapply sub_ok_placed|].
  intros w' H. eapply Moves_inv with (s := s) (l := l); [done|done|done| |exact H|done|done|by right; left|].
  { unfold detached. by repeat case_match. }
  assert (∀ m, is_Some (points (world y) !! m) → is_Some (points w' !! m)) as Hpts.
  { intros m' [p Hp]. destruct (moves_point _ _ _ _ _ _ H Hp) as (p' & ? & _). by eexists. }
  assert (is_Some (pending w' !! m_eventLoopHdl x)) as Hq' by by apply (moves_loops _ _ _ _ H).
  destruct Hsub as [_ Hsub]. unfold detached, sub_ok. destruct (m_state x) eqn:Hst; simpl;
    rewrite ?Hst; (split; [done|]).
  - tauto.
  - by destruct Hsub as (? & ? & ? & ? & ? & ? & ?).
  - destruct Hsub as (? & ? & ? & [[? ?]|[_ Ht]]); [done|]. rewrite Hl in Ht.
    by destruct (not_taken _ s Hc).
  - destruct Hsub as (m' & ? & ? & ? & ?). exists m'. auto.
  - destruct Hsub as (m' & ? & ? & ? & ?). exists m'. auto.
Qed.

Lemma phase_set l ph y l' :
  phase_of (set_phase l ph y) l' = if decide (l' = l) then ph else phase_of y l'.
Proof.
  unfold phase_of. simpl. case_decide as E; [subst l'; by rewrite lookup_insert_eq|].
  by rewrite lookup_insert_ne.
Qed.

Lemma role_other ph s s' : current ph = Some s → s' ≠ s → role ph s' = RNone.
Proof. destruct ph; simpl; intros [= ->] ?; by rewrite decide_False. Qed.

(** The loop takes the first of its list. *)
Lemma wp_takeNotification w l (Q : option sid → World → Prop) :
  Lists_ok w → is_Some (pending w !! l) →
  (items w (InLoop l) = [] → Q None w) →
  (∀ s x q w', items w (InLoop l) = s :: q → subs w !! s = Some x →
     m_inListPtr x = Some (InLoop l) → Moves s (with_mark None x) w w' → Q (Some s) w') →
  wp (takeNotification l) Q w.
Proof.
  intros Hok [q Hq] HN HS. unfold takeNotification, DList_get, container_items. apply wp_bind.
  eapply wp_loop; [done|]. assert (items w (InLoop l) = q) as Hi by (simpl; by rewrite Hq).
  destruct q as [|s q]; [by apply wp_ret, HN|].
  assert (s ∈ items w (InLoop l)) as Hs by (rewrite Hi; left).
  apply (lists_mark _ Hok) in Hs as (x & Hx & Hm).
  apply wp_bind. eapply wp_DList_remove; [done|by eexists|done..|].
  intros w' H. apply wp_ret. eauto.
Qed.

(** A subscriber in the list of a loop is pending there. *)
Lemma marked_pending y s x l :
  sub_ok y s x → m_inListPtr x = Some (InLoop l) →
  m_state x = eSTATE_NOTIFY_PENDING ∧ m_eventLoopHdl x = l ∧
  role (phase_of y l) s = RNone.
Proof.
  unfold sub_ok. intros [_ H] Hm. destruct (m_state x).
  - naive_solver.
  - destruct H as (? & ? & ? & ? & ? & ? & ?). congruence.
  - destruct H as (? & ? & ? & [[H1 H2]|[? ?]]); [|congruence]. rewrite H1 in Hm.
    injection Hm as <-. done.
  - naive_solver.
  - naive_solver.
Qed.

Lemma step_take y l : Inv y → allowed y (LTake l) = true → wp (sys_step (LTake l)) (λ _, Inv) y.
Proof.
  intros HI Ha. simpl in Ha. apply andb_true_iff in Ha as [Hph Hl].
  apply bool_decide_eq_true in Hph, Hl. simpl. apply wp_bind, wp_on_world.
  apply wp_takeNotification; [apply HI|done| |].
  { intros _. apply wp_ret. by destruct y. }
  intros s x q w' _ Hx Hm H. apply wp_modify.
  pose proof (inv_sub _ HI _ _ Hx) as Hsub. destruct (marked_pending _ _ _ _ Hsub Hm) as (Hst & El & _).
  eapply Moves_inv with (s := s) (l := l); [done|done|done| |exact H|..].
  - done.
  - intros l' ?. rewrite phase_set. by rewrite decide_False.
  - intros s' ?. rewrite phase_set, decide_True, Hph by done. by apply role_other with s.
  - left. by rewrite phase_set, decide_True.
  - unfold sub_ok in *. simpl. rewrite Hst in *. destruct Hsub as [Hq (m & Hm1 & [p Hp] & _)].
    split; [by apply (moves_loops _ _ _ _ H)|]. exists m.
    destruct (moves_point _ _ _ _ _ _ H Hp) as (p' & Hp' & _).
    split_and!; [done|by eexists|]. right. split; [done|].
    rewrite phase_set, El, decide_True by done. simpl. by rewrite decide_True.
Qed.

Lemma role_taken ph s : role ph s = RTaken → ph = PGot s.
Proof. destruct ph; simpl; [done| |]; case_decide; congruence. Qed.

Lemma role_called ph s m : role ph s = RCalled m → ph = PCalling s m.
Proof. destruct ph; simpl; [done| |]; case_decide; congruence. Qed.

(** The subscriber a loop has in its hands. *)
Lemma inv_got y l s :
  Inv y → phase_of y l = PGot s →
  ∃ x m, subs (world y) !! s = Some x ∧ m_eventLoopHdl x = l ∧ m_state x = eSTATE_NOTIFY_PENDING ∧
    m_inListPtr x = None ∧ m_point x = Some m ∧ is_Some (points (world y) !! m) ∧
    is_Some (pending (world y) !! l).
Proof.
  intros HI Hph. destruct (inv_phase _ HI l s) as (x & Hx & Hl); [by rewrite Hph|].
  pose proof (inv_sub _ HI _ _ Hx) as [Hq H]. rewrite Hl, Hph in *. simpl in H.
  rewrite decide_True in H by done. destruct (m_state x) eqn:Hst.
  - naive_solver.
  - by destruct H as (? & ? & ? & ? & ? & ? & ?).
  - destruct H as (m & ? & ? & [[? ?]|[? _]]); [done|]. by exists x, m.
  - naive_solver.
  - naive_solver.
Qed.

Lemma inv_calling y l s m :
  Inv y → phase_of y l = PCalling s m →
  ∃ x, subs (world y) !! s = Some x ∧ m_eventLoopHdl x = l ∧ m_inListPtr x = None ∧
    is_Some (points (world y) !! m) ∧ is_Some (pending (world y) !! l) ∧
    (m_state x = eSTATE_NOTIFY_NOTIFYING ∧ m_point x = Some m ∨
     m_state x = eSTATE_NOTIFY_PENDING_DETACH ∧ m_point x = None).
Proof.
  intros HI Hph. destruct (inv_phase _ HI l s) as (x & Hx & Hl); [by rewrite Hph|].
  pose proof (inv_sub _ HI _ _ Hx) as [Hq H]. rewrite Hl, Hph in *. simpl in H.
  rewrite decide_True in H by done. exists x. split; [done|]. split; [done|].
  destruct (m_state x) eqn:Hst.
  - naive_solver.
  - by destruct H as (? & ? & ? & ? & ? & ? & ?).
  - destruct H as (? & ? & ? & [[? ?]|[? ?]]); done.
  - destruct H as (m' & ? & ? & ? & [= <-]). tauto.
  - destruct H as (m' & ? & ? & ? & [= <-]). tauto.
Qed.

Lemma step_start y l : Inv y → allowed y (LStart l) = true → wp (sys_step (LStart l)) (λ _, Inv) y.
Proof.
  intros HI Ha. simpl in Ha. destruct (phase_of y l) as [|s|] eqn:Hph; [done| |done].
  destruct (inv_got _ _ _ HI Hph) as (x & m & Hx & Hl & Hst & Hm & Hpt & [p Hp] & Hq).
  simpl. apply wp_bind, wp_gets. rewrite Hph. apply wp_bind, wp_on_world.
  eapply wp_startNotification; [apply HI|done..|]. intros w' H. apply wp_modify.
  eapply Moves_inv with (s := s) (l := l); [done|done|done| |exact H|..].
  - done.
  - intros l' ?. rewrite phase_set. by rewrite decide_False.
  - intros s' ?. rewrite phase_set, decide_True, Hph by done.
    rewrite !role_other with (s := s); done.
  - left. by rewrite phase_set, decide_True.
  - unfold sub_ok. simpl. rewrite Hl. split; [by apply (moves_loops _ _ _ _ H)|]. exists m.
    destruct (moves_point _ _ _ _ _ _ H Hp) as (p' & Hp' & _).
    split_and!; [done|by eexists|done|]. rewrite phase_set, decide_True by done. simpl.
    by rewrite decide_True.
Qed.

Lemma step_end y l : Inv y → allowed y (LEnd l) = true → wp (sys_step (LEnd l)) (λ _, Inv) y.
Proof.
  intros HI Ha. simpl in Ha. destruct (phase_of y l) as [| |s m] eqn:Hph; [done|done|].
  destruct (inv_calling _ _ _ _ HI Hph) as (x & Hx & Hl & Hm & [p Hp] & Hq & Hst).
  simpl. apply wp_bind, wp_gets. rewrite Hph. apply wp_bind, wp_on_world.
  eapply wp_endNotification; [apply HI|done..|by rewrite Hl|done|tauto|]. intros w' H. apply wp_modify.
  eapply Moves_inv with (s := s) (l := l); [done|done|done| |exact H|..].
  - unfold completed, subscribed. by repeat case_match.
  - intros l' ?. rewrite phase_set. by rewrite decide_False.
  - intros s' ?. rewrite phase_set, decide_True, Hph by done. symmetry. by apply role_other with s.
  - right; right. by rewrite phase_set, decide_True.
  - destruct (moves_point _ _ _ _ _ _ H Hp) as (p' & Hp' & Ec).
    assert (role (phase_of (set_phase l PIdle (mkSys w' (phases y))) l) s = RNone) as Hr
      by by rewrite phase_set, decide_True.
    assert (is_Some (pending w' !! l)) as Hq' by by apply (moves_loops _ _ _ _ H).
    unfold completed. destruct Hst as [[Hst Hx1]|[Hst Hx1]]; rewrite Hst.
    + rewrite <-(subscribed_content m p p') by done. apply subscribed_ok; simpl; [done..|by rewrite Hl|].
      by rewrite Hl.
    + unfold sub_ok. simpl. by rewrite Hl.
Qed.

(** The subscribers in the list of a point are idle. *)
Lemma inv_idle y m : Inv y → idle_subscribers m (world y).
Proof.
  intros HI s x Hx Hm. destruct (inv_sub _ HI _ _ Hx) as [Hq H]. split; [|done].
  destruct (m_state x); try done.
  - naive_solver.
  - destruct H as (? & ? & ? & [[? _]|[? _]]); congruence.
  - naive_solver.
  - naive_solver.
Qed.

Lemma Effect_inv y w' m b p0 p :
  Inv y → points (world y) !! m = Some p0 → Effect m b p (world y) w' →
  1 <= m_seqNum p < 2 ^ 16 → (b = false → m_seqNum p = m_seqNum p0) →
  Inv (mkSys w' (phases y)).
Proof.
  intros HI Hp0 [E0 E1 L S W] Hr Hb.
  assert (∀ m', is_Some (points (world y) !! m') → is_Some (points w' !! m')) as Hpts.
  { intros m' [q Hq]. destruct (decide (m' = m)) as [->|Hne].
    - destruct (points w' !! m); [by eexists|done].
    - specialize (E1 _ Hne). rewrite Hq in E1. destruct (points w' !! m'); [by eexists|done]. }
  split; [done| | |].
  - intros s x' Hx'. simpl in Hx'. rewrite S in Hx'.
    destruct (subs (world y) !! s) as [x|] eqn:Hx; [|done]. injection Hx' as <-.
    pose proof (inv_sub _ HI _ _ Hx) as [Hq H].
    destruct (b && bool_decide (m_inListPtr x = Some (InPoint m))) eqn:Hn.
    + apply andb_true_iff in Hn as [-> Hm]. apply bool_decide_eq_true in Hm.
      destruct (inv_idle _ _ HI _ _ Hx Hm) as [Hst _]. rewrite Hst in H.
      destruct H as (m' & q & Hm1 & Hq1 & _ & _ & Hro). unfold sub_ok. simpl.
      split; [by apply L|]. exists m'. split_and!; [done|apply Hpts; by eexists|by left].
    + unfold sub_ok. simpl. split; [by apply L|]. destruct (m_state x) eqn:Hst.
      1,3-5: first [done | by destruct H as (m' & ? & ? & ?); exists m'; auto].
      destruct H as (m' & q & Hm1 & Hq1 & Hn1 & Hm2 & Hro).
      destruct (decide (m' = m)) as [->|Hne].
      * destruct b; [by rewrite Hm2, bool_decide_eq_true_2 in Hn|].
        destruct (points w' !! m) as [q'|] eqn:Hq'; [|done]. injection E0 as _ E _ _.
        exists m, q'. split_and!; [done..| |done|done]. rewrite Hp0 in Hq1. injection Hq1 as <-.
        rewrite E, Hb by done. done.
      * specialize (E1 _ Hne). rewrite Hq1 in E1. destruct (points w' !! m') as [q'|] eqn:Hq'; [|done].
        injection E1 as _ E _ _. exists m', q'. split_and!; [done..|congruence|done|done].
  - intros l s Hc. destruct (inv_phase _ HI l s Hc) as (x & Hx & Hl). simpl. rewrite S, Hx.
    eexists. split; [done|]. by case_match.
  - intros m' q Hq. simpl in Hq. destruct (decide (m' = m)) as [->|Hne].
    + rewrite Hq in E0. injection E0 as _ E _ _. by rewrite E.
    + specialize (E1 _ Hne). rewrite Hq in E1.
      destruct (points (world y) !! m') as [q'|] eqn:Hq'; [|done]. injection E1 as _ E _ _.
      rewrite E. by eapply inv_seq.
Qed.

(** Who tells nobody keeps the sequence number, who tells advances it. *)
Lemma call_result_seq src c p :
  m_seqNum (call_result src c p).2 =
  if (call_result src c p).1 then advance (m_seqNum p) else m_seqNum p.
Proof.
  destruct c; simpl call_result; unfold write_result, invalid_result, import_result, accepted,
    lock_result, counted_result; try done.
  all: repeat case_match; simplify_eq/=; done.
Qed.

Lemma step_call y c : Inv y → allowed y (LCall c) = true → wp (sys_step (LCall c)) (λ _, Inv) y.
Proof.
  intros HI Ha. simpl in Ha. destruct (points (world y) !! call_point c) as [p|] eqn:Hp; [|done].
  destruct (points (world y) !! call_source c) as [src|] eqn:Hsrc; [|done].
  simpl. apply wp_bind, wp_on_world. eapply wp_mono.
  - apply (call_spec _ _ p src); [done..|apply HI|by apply inv_idle|done].
  - intros n w' [HE _]. apply wp_ret. eapply Effect_inv; [exact HI|exact Hp|exact HE|..];
      rewrite call_result_seq.
    + pose proof (inv_seq _ HI _ _ Hp). destruct (call_result src c p).1; [by apply advance_range|done].
    + intros Hb. by rewrite Hb.
Qed.

Lemma step_inv y a : Inv y → allowed y a = true → wp (sys_step a) (λ _, Inv) y.
Proof.
  intros HI Ha. destruct a.
  - by apply step_call.
  - by apply step_attach.
  - by apply step_detach.
  - by apply step_take.
  - by apply step_start.
  - by apply step_end.
Qed.

Lemma run_inv t : ∀ y, Inv y → allowed_run y t = true → wp (sys_run t) (λ _, Inv) y.
Proof.
  induction t as [|a t IH]; intros y HI Ht; [done|]. simpl in *.
  apply andb_true_iff in Ht as [Ha Ht]. apply wp_bind.
  destruct (proj1 (wp_run _ _ _) (step_inv _ _ HI Ha)) as ([] & y' & Hs & HI').
  eapply wp_exact; [done|]. apply IH; [done|]. by rewrite Hs in Ht.
Qed.
