(* ===== verification/DmTheorems.v ===== *)
(** * What subscribers of model points can rely on

    Runs of the data model keep their contract, an event loop brings all its
    subscribers up to date, and a change during a callback is seen unless their
    number is a multiple of 65535. *)

From Stdlib Require Import ZArith Lia.
From S2P Require Import Prelude Dm DmSpec DmCalls DmSystem.
Local Open Scope Z_scope.
Local Open Scope pim_scope.

Implicit Types (w : World) (s : sid) (m : mpid) (l : lid) (p : ModelPoint) (x : Subscriber).

(** The states that allowed traces reach. *)
Definition reached (y : Sys) : Prop :=
  ∃ y0 t, booted y0 = true ∧ allowed_run y0 t = true ∧ sys_run t y0 = Some (tt, y).

Lemma reached_inv y : reached y → Inv y.
Proof.
  intros (y0 & t & Hb & Ht & Hr). pose proof (run_inv t _ (booted_inv _ Hb) Ht) as H.
  unfold wp in H. by rewrite Hr in H.
Qed.

(** ** An event loop works off its list *)

(** A callback that leaves its subscriber in sync, as reading and
    readAndSync do. *)
Definition polite (callback : sid → mpid → M unit) : Prop :=
  ∀ w s m x p, Lists_ok w → subs w !! s = Some x → points w !! m = Some p →
    m_state x = eSTATE_NOTIFY_NOTIFYING → m_point x = Some m → m_seqNumber x = m_seqNum p →
    m_inListPtr x = None → is_Some (pending w !! m_eventLoopHdl x) →
    wp (callback s m) (λ _ w', Moves s x w w') w.

Lemma polite_readAndSync dstSize :
  (∀ w m p, points w !! m = Some p → dstSize ≤ length (m_data p))%nat →
  polite (λ s m, readAndSync m dstSize s;; ret tt).
Proof.
  intros Hd w s m x p Hok Hx Hp Hst Hm Hn Hk Hl. apply wp_bind. unfold readAndSync, readData.
  apply wp_bind, wp_bind. eapply wp_point; [done|].
  eapply (wp_bind _ _ _ _). eapply (wp_mono _ (λ d w', w' = w)).
  { destruct (m_valid p); [|by apply wp_ret]. unfold copyDataTo_. apply wp_bind.
    eapply wp_assert; [apply Nat.leb_le; by eapply Hd|]. by apply wp_ret. }
  intros d w' ->. apply wp_ret, wp_bind.
  eapply wp_attachSubscriber; [done..|unfold placed; by rewrite Hst|].
  intros w' H. do 2 apply wp_ret. revert H. unfold attached. simpl. rewrite Hst.
  destruct x; simpl in *. by subst.
Qed.

(** The subscriber [x] of [m] is idle, and has the sequence number of [p]. *)
Definition in_sync m p x : Subscriber :=
  with_state eSTATE_IDLE (with_mark (Some (InPoint m)) (with_seqNumber (m_seqNum p) x)).

Lemma wp_pass callback w l s q (Q : unit → World → Prop) :
  polite callback → Lists_ok w → items w (InLoop l) = s :: q → is_Some (pending w !! l) →
  (∀ x, subs w !! s = Some x → m_inListPtr x = Some (InLoop l) →
     m_eventLoopHdl x = l ∧ m_state x = eSTATE_NOTIFY_PENDING ∧
     ∃ m p, m_point x = Some m ∧ points w !! m = Some p ∧
       ∀ w', Moves s (in_sync m p x) w w' → Q tt w') →
  wp (loop_processChangeNotifications callback l) Q w.
Proof.
  intros Hcb Hok Hi Hl HQ. unfold loop_processChangeNotifications. apply wp_bind.
  apply wp_takeNotification; [done..|by rewrite Hi|].
  intros s' x q' w1 Hi' Hx Hk H1. rewrite Hi in Hi'. injection Hi' as <- <-.
  destruct (HQ x Hx Hk) as (El & Hst & m & p & Hm & Hp & HQ'). clear HQ.
  destruct (moves_point _ _ _ _ _ _ H1 Hp) as (p1 & Hp1 & E1). injection E1 as _ E1 _ _.
  apply wp_bind. eapply wp_startNotification; [apply H1|apply H1|done..|]. intros w2 H2.
  pose proof (Moves_trans _ _ _ _ _ _ H1 H2) as H3. simpl in H3.
  destruct (moves_point _ _ _ _ _ _ H3 Hp) as (p3 & Hp3 & E3). injection E3 as _ E3 _ _.
  assert (is_Some (pending w2 !! l)) as Hl2 by by apply (moves_loops _ _ _ _ H3).
  apply wp_bind. eapply wp_mono;
    [eapply (Hcb w2 s m);
      [apply H3|apply H3|done|done|done|simpl; congruence|done|simpl; by rewrite El]|].
  intros u w4 H4. simpl in H4. pose proof (Moves_trans _ _ _ _ _ _ H3 H4) as H5.
  destruct (moves_point _ _ _ _ _ _ H5 Hp) as (p5 & Hp5 & E5). injection E5 as _ E5 _ _.
  eapply wp_endNotification; [apply H5|apply H5|done| |done|by left|].
  { simpl. rewrite El. by apply (moves_loops _ _ _ _ H4). }
  intros w6 H6. apply HQ'. pose proof (Moves_trans _ _ _ _ _ _ H5 H6) as H7.
  revert H7. unfold completed, subscribed. simpl. rewrite E5, E1, Z.eqb_refl. done.
Qed.

Fixpoint passes (n : nat) (callback : sid → mpid → M unit) (l : lid) : M unit :=
  match n with
  | O => ret tt
  | S n => loop_processChangeNotifications callback l;; passes n callback l
  end.

Lemma wp_passes callback l q : polite callback → ∀ y,
  Inv y → phase_of y l = PIdle → items (world y) (InLoop l) = q →
  wp (passes (length q) callback l)
     (λ _ w', Inv (mkSys w' (phases y)) ∧ same_content (world y) w' ∧ items w' (InLoop l) = [])
     (world y).
Proof.
  intros Hcb. induction q as [|s q IH]; intros y HI Hph Hi; [by destruct y|]. simpl. apply wp_bind.
  assert (is_Some (pending (world y) !! l)) as Hl.
  { simpl in Hi. destruct (pending (world y) !! l); [by eexists|done]. }
  eapply wp_pass; [done|apply HI|done..|]. intros x Hx Hk.
  pose proof (inv_sub _ HI _ _ Hx) as Hsub. destruct (marked_pending _ _ _ _ Hsub Hk) as (Hst & El & Hr).
  split; [done|]. split; [done|]. pose proof Hsub as [_ Hs]. rewrite Hst in Hs.
  destruct Hs as (m & Hm & [p Hp] & _). exists m, p. split; [done|]. split; [done|].
  intros w' H. assert (Inv (mkSys w' (phases y))) as HI'.
  { eapply Moves_inv with (s := s) (l := l); [exact HI|done..| |exact H|done|done|by right; left|].
    { done. }
    unfold sub_ok. simpl. rewrite El. split; [by apply (moves_loops _ _ _ _ H)|].
    destruct (moves_point _ _ _ _ _ _ H Hp) as (p' & Hp' & E). injection E as _ E _ _.
    exists m, p'. split_and!; [done..|]. by rewrite <-El in *. }
  assert (NoDup (s :: q)) as [Hsq _]%NoDup_cons by (rewrite <-Hi; apply HI).
  assert (items w' (InLoop l) = q) as Hi'.
  { rewrite <-(without_id s (items w' _)).
    - rewrite (moves_order _ _ _ _ H), Hi. unfold without. rewrite filter_cons_False by tauto.
      by apply without_id.
    - intros (z & Hz & Hkz)%lists_mark; [|apply H]. rewrite (moves_sub _ _ _ _ H) in Hz.
      by injection Hz as <-. }
  eapply wp_mono; [apply (IH (mkSys w' (phases y))); done|].
  intros u w2 (HI2 & Hc2 & Hi2). split_and!; [done| |done].
  intros m'. rewrite (Hc2 m'). apply (moves_content _ _ _ _ H).
Qed.

(** The subscriber has no subscription, or is with its point and has seen its
    last change. *)
Definition settled w x : Prop :=
  m_state x = eSTATE_UNSUBSCRIBED ∧ m_point x = None ∨
  m_state x = eSTATE_IDLE ∧ ∃ m p, m_point x = Some m ∧ points w !! m = Some p ∧
    m_seqNumber x = m_seqNum p ∧ m_inListPtr x = Some (InPoint m).

Lemma drained_settled y l s x :
  Inv y → phase_of y l = PIdle → items (world y) (InLoop l) = [] →
  subs (world y) !! s = Some x → m_eventLoopHdl x = l → settled (world y) x.
Proof.
  intros HI Hph Hi Hx El. pose proof (inv_sub _ HI _ _ Hx) as [_ H]. rewrite El, Hph in H. simpl in H.
  unfold settled. destruct (m_state x).
  - tauto.
  - destruct H as (m & p & ? & ? & ? & ? & _). right. split; [done|]. by exists m, p.
  - destruct H as (m & _ & _ & [[Hk _]|[_ ?]]); [|done].
    assert (s ∈ items (world y) (InLoop l)) as Hs by (apply lists_mark; [apply HI|]; eauto).
    rewrite Hi in Hs. by apply not_elem_of_nil in Hs.
  - naive_solver.
  - naive_solver.
Qed.

(** ** Changes during a callback *)

(** How often [c], and then all of [cs], tell the subscribers of [m]. *)
Definition tells w m (c : call) : nat :=
  match points w !! call_point c, points w !! call_source c with
  | Some p, Some src => if decide (call_point c = m) then Nat.b2n (call_result src c p).1 else O
  | _, _ => O
  end.

Fixpoint changes w m (cs : list call) : nat :=
  match cs with
  | [] => O
  | c :: cs =>
    (tells w m c + match run_call c w with Some (_, w') => changes w' m cs | None => O end)%nat
  end.

Lemma advance_mod n : 1 <= n < 2 ^ 16 → advance n = n mod 65535 + 1.
Proof.
  intros Hn. unfold advance, wrap, SEQUENCE_NUMBER_UNKNOWN. cbv zeta.
  destruct (decide (n = 65535)) as [->|]; [done|]. rewrite !Z.mod_small by lia.
  by rewrite (proj2 (Z.eqb_neq _ _)) by lia.
Qed.

Lemma advance_iter k n :
  1 <= n < 2 ^ 16 → Nat.iter k advance n = (n - 1 + Z.of_nat k) mod 65535 + 1.
Proof.
  intros Hn. induction k as [|k IH]; simpl.
  - rewrite Z.mod_small by lia. lia.
  - rewrite IH, advance_mod.
    + rewrite Z.add_mod_idemp_l by lia. f_equal. f_equal. lia.
    + pose proof (Z.mod_pos_bound (n - 1 + Z.of_nat k) 65535). lia.
Qed.

Lemma advance_returns k n :
  1 <= n < 2 ^ 16 → Nat.iter k advance n = n ↔ Z.of_nat k mod 65535 = 0.
Proof.
  intros Hn. rewrite advance_iter by done.
  pose proof (Z.mod_pos_bound (Z.of_nat k) 65535 eq_refl) as Hk.
  rewrite <-Z.add_mod_idemp_r by lia.
  assert (Hlt : (n - 1 + Z.of_nat k mod 65535 < 65535) ∨
                (65535 <= n - 1 + Z.of_nat k mod 65535)) by lia.
  destruct Hlt as [H|H].
  - rewrite (Z.mod_small (n - 1 + _)) by lia. lia.
  - rewrite <-(Z.mod_unique_pos (n - 1 + Z.of_nat k mod 65535) 65535 1
      (n - 1 + Z.of_nat k mod 65535 - 65535)) by lia. lia.
Qed.

(** A subscriber in its callback, since when its point changed [k] times. *)
Definition called_since k n s m l (y : Sys) : Prop :=
  phase_of y l = PCalling s m ∧
  ∃ x p, subs (world y) !! s = Some x ∧ m_state x = eSTATE_NOTIFY_NOTIFYING ∧
    m_point x = Some m ∧ m_seqNumber x = n ∧ m_eventLoopHdl x = l ∧ m_inListPtr x = None ∧
    points (world y) !! m = Some p ∧ m_seqNum p = Nat.iter k advance n.

Lemma called_call k n s m l y c :
  Inv y → called_since k n s m l y → allowed y (LCall c) = true →
  wp (sys_step (LCall c)) (λ _ y', Inv y' ∧ called_since (tells (world y) m c + k) n s m l y' ∧
    ∃ r, run_call c (world y) = Some (r, world y')) y.
Proof.
  intros HI (Hph & x & p & Hx & Hst & Hm & Hn & El & Hk & Hp & Hseq) Ha.
  pose proof (step_inv _ _ HI Ha) as Hstep. simpl in Ha. unfold tells.
  destruct (points (world y) !! call_point c) as [q|] eqn:Hq; [|done].
  destruct (points (world y) !! call_source c) as [src|] eqn:Hsrc; [|done].
  assert (wp (run_call c) (Post (world y) (call_point c) (call_result src c q)) (world y)) as Hc.
  { apply call_spec; [done..|apply HI|by apply inv_idle|done]. }
  apply wp_run in Hc as (r & w' & Hr & HE & _). simpl in *. unfold wp, bind, on_world in *.
  rewrite Hr in *. simpl in *. split; [exact Hstep|]. split; [|by eexists]. split; [exact Hph|].
  destruct HE as [E0 E1 _ S _]. exists x.
  assert (subs w' !! s = Some x) as Hx'.
  { rewrite S, Hx. simpl. by rewrite Hk, bool_decide_eq_false_2, andb_false_r. }
  case_decide as Em.
  - rewrite Em in *. rewrite Hq in Hp. injection Hp as ->.
    destruct (points w' !! m) as [p'|] eqn:Hp'; [|done]. injection E0 as _ Es _ _.
    exists p'. split_and!; [done..|]. rewrite Es, call_result_seq.
    destruct (call_result src c p).1; simpl; [by rewrite Hseq|done].
  - specialize (E1 m (not_eq_sym Em)). rewrite Hp in E1.
    destruct (points w' !! m) as [p'|] eqn:Hp'; [|done]. injection E1 as _ Es _ _.
    exists p'. split_and!; [done..|simpl; congruence].
Qed.

Lemma called_calls cs : ∀ k n s m l y,
  Inv y → called_since k n s m l y → allowed_run y (map LCall cs) = true →
  wp (sys_run (map LCall cs)) (λ _ y', Inv y' ∧
    called_since (changes (world y) m cs + k) n s m l y') y.
Proof.
  induction cs as [|c cs IH]; intros k n s m l y HI Hk Ha; [done|].
  cbn [map sys_run allowed_run changes] in *. apply andb_true_iff in Ha as [Ha1 Ha2].
  apply wp_bind.
  pose proof (called_call _ _ _ _ _ _ _ HI Hk Ha1) as H.
  apply wp_run in H as ([] & y' & Hs & HI' & Hk' & r & Hr). eapply wp_exact; [done|].
  rewrite Hs in Ha2. eapply wp_mono; [by apply (IH _ _ _ _ _ _ HI' Hk')|].
  intros _ y2 [HI2 H2]. split; [done|]. rewrite Hr.
  by replace (tells (world y) m c + changes (world y') m cs + k)%nat
    with (changes (world y') m cs + (tells (world y) m c + k))%nat by lia.
Qed.

(** The first and the last step of a notification. *)
Lemma start_called y l s m x :
  Inv y → phase_of y l = PGot s → subs (world y) !! s = Some x → m_point x = Some m →
  wp (sys_step (LStart l)) (λ _ y', ∃ n, 1 <= n < 2 ^ 16 ∧ called_since 0 n s m l y') y.
Proof.
  intros HI Hph Hx Hm. destruct (inv_got _ _ _ HI Hph) as (x' & m' & Hx' & El & Hst & Hk & Hm' & [p Hp] & Hq).
  assert (x' = x) as -> by congruence. assert (m' = m) as -> by congruence.
  simpl. apply wp_bind, wp_gets. rewrite Hph. apply wp_bind, wp_on_world.
  eapply wp_startNotification; [apply HI|done..|]. intros w' H. apply wp_modify.
  exists (m_seqNum p). split; [by eapply inv_seq|].
  split; [by rewrite phase_set, decide_True|].
  destruct (moves_point _ _ _ _ _ _ H Hp) as (p' & Hp' & E). injection E as _ E _ _.
  eexists _, p'. split; [apply H|]. simpl. by split_and!.
Qed.

Lemma end_called k n y l s m :
  Inv y → called_since k n s m l y → 1 <= n < 2 ^ 16 →
  wp (sys_step (LEnd l)) (λ _ y', ∃ x, subs (world y') !! s = Some x ∧
    m_state x = if Z.of_nat k mod 65535 =? 0 then eSTATE_IDLE else eSTATE_NOTIFY_PENDING) y.
Proof.
  intros HI (Hph & x & p & Hx & Hst & Hm & Hn & El & Hk & Hp & Hseq) Hr.
  destruct (inv_calling _ _ _ _ HI Hph) as (_ & _ & _ & _ & _ & Hq & _).
  simpl. apply wp_bind, wp_gets. rewrite Hph. apply wp_bind, wp_on_world.
  eapply wp_endNotification; [apply HI|done..|by rewrite El|done|by left|]. intros w' H.
  apply wp_modify. eexists. split; [apply H|]. unfold completed, subscribed.
  rewrite Hst, Hn, Hseq. pose proof (advance_returns k n Hr) as Hret.
  destruct (_ =? n) eqn:E1, (_ =? 0) eqn:E2; simpl; try done.
  - apply Z.eqb_eq in E1. apply Z.eqb_neq in E2. tauto.
  - apply Z.eqb_neq in E1. apply Z.eqb_eq in E2. tauto.
Qed.

Lemma wp_sys_run_app t1 t2 y (Q : unit → Sys → Prop) :
  wp (sys_run t1) (λ _ y', wp (sys_run t2) Q y') y → wp (sys_run (t1 ++ t2)) Q y.
Proof.
  revert y. induction t1 as [|a t1 IH]; intros y H; [done|]. simpl in *. apply wp_bind.
  apply wp_unbind in H. eapply wp_mono; [done|]. intros u y' H'. by apply IH.
Qed.

(** ** Export and import *)

Lemma wp_exportData w m p maxDstLength b (Q : option (list Z) * nat → World → Prop) :
  points w !! m = Some p → (getExternalSize p b ≤ maxDstLength)%nat →
  Q (Some (m_data p ++ [bool_byte (m_valid p)] ++ (if b then [bool_byte (m_locked p)] else [])),
     getExternalSize p b) w →
  wp (exportData m maxDstLength b) Q w.
Proof.
  intros Hp Hmax HQ. unfold exportData. apply wp_bind. eapply wp_point; [done|].
  rewrite (proj2 (Nat.leb_le _ _)); [by apply wp_ret|].
  unfold getExternalSize in *. destruct b; lia.
Qed.

Lemma bool_byte_back b : negb (bool_byte b =? 0) = b.
Proof. by destruct b. Qed.

(** What was exported makes the importing point the same. *)
Lemma import_exported p p' (b : bool) :
  length (m_data p') = length (m_data p) →
  import_result (m_data p ++ [bool_byte (m_valid p)] ++ (if b then [bool_byte (m_locked p)] else []))
    b p' =
  (true, mkModelPoint (m_subscribers p') (m_data p) (advance (m_seqNum p'))
     (if b then m_locked p else m_locked p') (m_valid p)).
Proof.
  intros Hl. unfold import_result. rewrite Hl, !length_app. cbn [length].
  rewrite (proj2 (Nat.leb_le _ _)) by lia. rewrite take_app_length.
  rewrite (lookup_app_r _ _ (length (m_data p))) by lia. rewrite Nat.sub_diag. simpl. rewrite bool_byte_back.
  destruct b; [|done]. rewrite lookup_app_r by lia.
  replace (S (length (m_data p)) - length (m_data p))%nat with 1%nat by lia. simpl.
  by rewrite bool_byte_back.
Qed.

Lemma import_exported_ok p p' m' (b : bool) :
  length (m_data p') = length (m_data p) →
  call_ok p' (CImport m' (m_data p ++ [bool_byte (m_valid p)] ++
    (if b then [bool_byte (m_locked p)] else [])) b) p' = true.
Proof.
  intros Hl. simpl. rewrite Hl, !length_app. destruct b; [|done]. simpl.
  apply orb_true_iff. right. apply Nat.leb_le. lia.
Qed.

(** ** The properties *)

(** A run that keeps the contract: two points, two event loops, a write to a
    point while its subscriber is called, and a detach in the callback. *)
Definition two_loops : Sys :=
  mkSys
    (mkWorld
       {[ 1%positive := mkModelPoint [] [0; 0; 0; 0] 1 false false;
          2%positive := mkModelPoint [] [7; 0; 0; 0] 1 false true ]}
       {[ 1%positive := mkSubscriber eSTATE_UNSUBSCRIBED None 1 0 None;
          2%positive := mkSubscriber eSTATE_UNSUBSCRIBED None 1 0 None;
          3%positive := mkSubscriber eSTATE_UNSUBSCRIBED None 2 0 None ]}
       {[ 1%positive := []; 2%positive := [] ]})
    ∅.

Definition subscribe_and_call : list label :=
  [LAttach 1 1 1 0; LAttach 1 1 2 1; LAttach 2 2 3 0; LTake 1;
   LCall (CWrite 1 [1; 2; 3; 4] eNO_REQUEST); LStart 1; LTake 2; LStart 2].

Definition change_and_end : list label :=
  [LCall (CWrite 1 [1; 2; 3; 5] eLOCK); LDetach 2 2 3; LEnd 2; LCall (CInvalidate 1 eNO_REQUEST);
   LEnd 1].

(** C11. Model points never abort, and what a subscriber is doing is always
    what its state says: for every interleaving of calls of threads with the
    steps of the event loops in which the clients keep to their contract, no
    list is broken and no transition is a fatal error; every subscriber without
    a subscription is in no list, an idle one is in the list of its point once
    and has the point's sequence number, a pending one is in the list of its
    event loop or just taken from it, and one that is called, or detached while
    it is called, is in no list and is the one its event loop calls. *)
Theorem subscribers_are_where_their_states_say y0 t :
  booted y0 = true → allowed_run y0 t = true →
  ∃ y, sys_run t y0 = Some (tt, y) ∧ Lists_ok (world y) ∧
    ∀ s x, subs (world y) !! s = Some x → sub_ok y s x.
Proof.
  intros Hb Ht. destruct (proj1 (wp_run _ _ _) (run_inv t _ (booted_inv _ Hb) Ht)) as ([] & y & Hr & HI).
  exists y. split; [done|]. split; [apply HI|apply HI].
Qed.

Lemma subscribers_are_where_their_states_say_witness :
  ∃ y, sys_run (subscribe_and_call ++ change_and_end) two_loops = Some (tt, y) ∧ Lists_ok (world y) ∧
    ∀ s x, subs (world y) !! s = Some x → sub_ok y s x.
Proof. apply subscribers_are_where_their_states_say; vm_compute; reflexivity. Defined.


(** The state after a trace, which is known to run. *)
Definition after (t : list label) (y : Sys) : Sys :=
  match sys_run t y with Some (_, y') => y' | None => y end.

Lemma reached_after t :
  allowed_run two_loops t = true → reached (after t two_loops).
Proof.
  intros Ht. exists two_loops, t. split; [by vm_compute|]. split; [done|]. unfold after.
  destruct (proj1 (wp_run _ _ _) (run_inv t two_loops (booted_inv two_loops eq_refl) Ht)) as ([] & y & Hr & _).
  by rewrite Hr.
Qed.

Lemma polite_nothing : polite (λ _ _, ret tt).
Proof. intros w s m x p Hok Hx _ _ _ _ _ _. apply wp_ret. by apply Moves_refl. Qed.


(** A change during a callback is notified again, unless the number of
    changes since the callback began is a multiple of 65535: the sequence number
    has sixteen bits, is never zero, and is all that is compared.  [cs] are the
    calls of any threads on any points while subscriber [s] of [m] is called. *)
Theorem change_during_callback y l s m x cs y1 :
  reached y → phase_of y l = PGot s → subs (world y) !! s = Some x → m_point x = Some m →
  sys_step (LStart l) y = Some (tt, y1) → allowed_run y1 (map LCall cs) = true →
  ∃ y2 x2, sys_run (map LCall cs ++ [LEnd l]) y1 = Some (tt, y2) ∧ subs (world y2) !! s = Some x2 ∧
    m_state x2 = if Z.of_nat (changes (world y1) m cs) mod 65535 =? 0
                 then eSTATE_IDLE else eSTATE_NOTIFY_PENDING.
Proof.
  intros Hy Hph Hx Hm Hs Hcs. apply reached_inv in Hy as HI.
  assert (Inv y1) as HI1.
  { assert (allowed y (LStart l) = true) as Ha by (simpl; by rewrite Hph).
    pose proof (step_inv _ _ HI Ha) as H. unfold wp in H. by rewrite Hs in H. }
  pose proof (start_called _ _ _ _ _ HI Hph Hx Hm) as H. unfold wp in H. rewrite Hs in H.
  destruct H as (n & Hn & H).
  assert (wp (sys_run (map LCall cs ++ [LEnd l])) (λ _ y2, ∃ x2, subs (world y2) !! s = Some x2 ∧
    m_state x2 = if Z.of_nat (changes (world y1) m cs) mod 65535 =? 0
                 then eSTATE_IDLE else eSTATE_NOTIFY_PENDING) y1) as Hw.
  { apply wp_sys_run_app. eapply wp_mono; [by apply called_calls|]. intros u y2 [HI2 H2].
    rewrite Nat.add_0_r in H2. cbn [sys_run]. apply wp_bind.
    eapply wp_mono; [by eapply end_called|]. done. }
  apply wp_run in Hw as ([] & y2 & Hr & x2 & ? & ?). by exists y2, x2.
Qed.

Definition callback_begins : Sys := after (take 5 subscribe_and_call) two_loops.

Lemma change_during_callback_witness :
  let y1 := after [LStart 1] callback_begins in
  let cs := [CWrite 1 [1; 2; 3; 5] eNO_REQUEST; CTouch 2; CInvalidate 1 eLOCK] in
  changes (world y1) 1 cs = 2%nat ∧
  ∃ y2 x2, sys_run (map LCall cs ++ [LEnd 1]) y1 = Some (tt, y2) ∧
    subs (world y2) !! 1%positive = Some x2 ∧
    m_state x2 = if Z.of_nat (changes (world y1) 1 cs) mod 65535 =? 0
                 then eSTATE_IDLE else eSTATE_NOTIFY_PENDING.
Proof.
  split; [vm_compute; reflexivity|].
  apply (change_during_callback callback_begins 1 1 1
    (mkSubscriber eSTATE_NOTIFY_PENDING (Some 1%positive) 1 0 None)).
  - apply reached_after. vm_compute. reflexivity.
  - vm_compute. reflexivity.
  - vm_compute. reflexivity.
  - reflexivity.
  - vm_compute. reflexivity.
  - vm_compute. reflexivity.
Defined.

(** C13. Every call on a point does what [call_result] says, in every reachable
    state: a write, an invalidation, a copy, a touch, an import, a locking or a
    counter call ends, changes the fields of its own point to those of the
    result and of no other, returns its sequence number, and makes every
    subscriber that was idle with the point pending in the list of its event
    loop exactly when the result says so: not for a refused call, nor for a
    write of the data the point has, nor for a counter of references that stays
    zero or stays not zero. *)
Theorem calls_change_points_as_specified y c p src :
  reached y → points (world y) !! call_point c = Some p →
  points (world y) !! call_source c = Some src → call_ok src c p = true →
  ∃ n w', run_call c (world y) = Some (n, w') ∧
    n = m_seqNum (call_result src c p).2 ∧
    Effect (call_point c) (call_result src c p).1 (call_result src c p).2 (world y) w'.
Proof.
  intros Hy Hp Hsrc Hc. apply reached_inv in Hy as HI.
  destruct (proj1 (wp_run _ _ _) (call_spec _ _ _ _ Hp Hsrc (inv_lists _ HI) (inv_idle _ _ HI) Hc))
    as (n & w' & Hr & HE & Hn). by exists n, w'.
Qed.

(** A counter that saturates and comes to life: its subscriber is told. *)
Lemma calls_change_points_as_specified_witness :
  let c := CRefIncrement 2 (2 ^ 32 - 1) eLOCK in
  let p := mkModelPoint [3%positive] [7; 0; 0; 0] 1 false true in
  ∃ n w', run_call c (world (after [LAttach 2 2 3 1] two_loops)) = Some (n, w') ∧
    n = m_seqNum (call_result p c p).2 ∧
    Effect 2 (call_result p c p).1 (call_result p c p).2
      (world (after [LAttach 2 2 3 1] two_loops)) w'.
Proof.
  apply calls_change_points_as_specified.
  - apply reached_after. vm_compute. reflexivity.
  - vm_compute. reflexivity.
  - vm_compute. reflexivity.
  - vm_compute. reflexivity.
Defined.

(** C24. Exporting a point and importing the bytes into another of the same
    size, with or without the lock, gives the other the data, the valid state
    and, with it, the lock, counts as a change, and reports the size both say
    they need. *)
Theorem export_then_import y m m' p p' max b :
  reached y → points (world y) !! m = Some p → points (world y) !! m' = Some p' →
  length (m_data p') = length (m_data p) → (getExternalSize p b ≤ max)%nat →
  ∃ bytes w',
    exportData m max b (world y) = Some ((Some bytes, getExternalSize p b), world y) ∧
    length bytes = getExternalSize p b ∧
    run_call (CImport m' bytes b) (world y) = Some (advance (m_seqNum p'), w') ∧
    content <$> points w' !! m' =
      Some (m_data p, advance (m_seqNum p'), (if b then m_locked p else m_locked p'), m_valid p).
Proof.
  intros Hy Hp Hp' Hl Hmax. apply reached_inv in Hy as HI.
  set (bytes := m_data p ++ [bool_byte (m_valid p)] ++ (if b then [bool_byte (m_locked p)] else [])).
  destruct (proj1 (wp_run _ _ _) (call_spec (world y) (CImport m' bytes b) p' p' Hp' Hp'
    (inv_lists _ HI) (inv_idle _ _ HI) (import_exported_ok p p' m' b Hl))) as (n & w' & Hr & HE & Hn).
  exists bytes, w'. simpl in HE, Hn. unfold bytes in HE, Hn. rewrite import_exported in HE, Hn by done.
  split_and!.
  - pose proof (wp_exportData (world y) m p max b (λ r w, r = (Some bytes, getExternalSize p b) ∧ w = world y)
      Hp Hmax (conj eq_refl eq_refl)) as H.
    apply wp_run in H as (r & w & -> & -> & ->). done.
  - unfold bytes, getExternalSize. rewrite !length_app. destruct b; simpl; lia.
  - by rewrite Hr, Hn.
  - apply HE.
Qed.

Lemma export_then_import_witness :
  let y := after (subscribe_and_call ++ change_and_end) two_loops in
  let p := mkModelPoint [] [7; 0; 0; 0] 1 false true in
  let p' := mkModelPoint [] [1; 2; 3; 5] 3 true true in
  ∃ bytes w',
    exportData 2 6 true (world y) = Some ((Some bytes, 6%nat), world y) ∧ length bytes = 6%nat ∧
    run_call (CImport 1 bytes true) (world y) = Some (4, w') ∧
    content <$> points w' !! 1%positive = Some ([7; 0; 0; 0], 4, false, true).
Proof.
  apply (export_then_import (after (subscribe_and_call ++ change_and_end) two_loops) 2 1
    (mkModelPoint [] [7; 0; 0; 0] 1 false true) (mkModelPoint [] [1; 2; 3; 5] 3 true true) 6 true).
  - apply reached_after. vm_compute. reflexivity.
  - vm_compute. reflexivity.
  - vm_compute. reflexivity.
  - reflexivity.
  - simpl. lia.
Defined.

(** The size is compared without the byte of the lock: with a destination one
    byte short, exportData writes past its end. *)
Lemma export_writes_past_the_end w m p :
  points w !! m = Some p →
  ∃ bytes, exportData m (getExternalSize p false) true w = Some ((Some bytes, length bytes), w) ∧
    length bytes = S (getExternalSize p false).
Proof.
  intros Hp. set (bytes := m_data p ++ [bool_byte (m_valid p)] ++ [bool_byte (m_locked p)]).
  assert (length bytes = getExternalSize p true) as E
    by (unfold bytes, getExternalSize; rewrite !length_app; simpl; lia).
  exists bytes. split; [|by rewrite E; unfold getExternalSize; lia].
  unfold exportData, point, bind, get_st, lift_opt, ret. rewrite Hp. cbv beta iota zeta.
  by rewrite Nat.leb_refl, E.
Qed.

(** A callback that detaches its subscriber and reads another point with
    readAndSync: the end of the callback puts the subscriber in the list of the
    old point, where no change of its point finds it. *)
Lemma attached_to_another_point_in_callback :
  let y := after (take 5 subscribe_and_call ++ [LCall (CTouch 2); LStart 1; LDetach 1 1 1]) two_loops in
  match (readAndSync 2 4 1;; endNotification 1 1;; touch 2) (world y) with
  | Some (_, w) => m_point <$> subs w !! 1%positive = Some (Some 2%positive) ∧
      m_inListPtr <$> subs w !! 1%positive = Some (Some (InPoint 1)) ∧
      m_state <$> subs w !! 1%positive = Some eSTATE_IDLE
  | None => False
  end.
Proof. vm_compute. done. Qed.

(** A copy of a valid source that becomes invalid between the question and the
    copy leaves a valid copy of zeros, and a locking copy of an invalid source
    does not lock. *)
Lemma copy_of_a_source_made_invalid :
  match (isNotValid 2;; setInvalid 2 eNO_REQUEST;; copyData 1 2 eNO_REQUEST) (world two_loops) with
  | Some (_, w) => content <$> points w !! 1%positive = Some ([0; 0; 0; 0], 2, false, true)
  | None => False
  end ∧
  match copyDataAndStateFrom 2 1 eLOCK (world two_loops) with
  | Some (_, w) => m_locked <$> points w !! 2%positive = Some false
  | None => False
  end.
Proof. vm_compute. done. Qed.
