(* ===== verification/DmDatabase.v ===== *)
(** * The database of model points

    Models src/src/Cpl/Dm/ModelDatabase.cpp: the list of points with their names,
    its one sort, look-up, traversal by name, and the update of a point from a
    JSON text.  The JSON library is a parameter, and so is the conversion of a
    value by the concrete class of the point. *)

From Stdlib Require Import ZArith Lia.
From stdpp Require Import sorting.
From S2P Require Import Prelude Dm.
Local Open Scope Z_scope.
Local Open Scope pim_scope.

(** ** The list of points *)

(** [globalDepth]: how often the calling thread holds [globalMutex_], which is
    recursive. *)
Record Database := mkDatabase {
  m_list : list (string * mpid);
  m_listSorted : bool;
  globalDepth : nat;
  model : World
}.

Definition strcmp_lt (a b : string) : bool :=
  match String.compare a b with Lt => true | _ => false end.

Definition with_list q d := mkDatabase q (m_listSorted d) (globalDepth d) (model d).
Definition with_sorted b d := mkDatabase (m_list d) b (globalDepth d) (model d).
Definition with_depth n d := mkDatabase (m_list d) (m_listSorted d) n (model d).
Definition with_model w d := mkDatabase (m_list d) (m_listSorted d) (globalDepth d) w.

Definition insert_ (mpToAdd : string * mpid) (d : Database) : Database :=
  with_list (mpToAdd :: m_list d) d.

(** The inner loop of sortList: the first item in the sorted list that the new
    one is smaller than is found, or the end. *)
Fixpoint sort_insert (item : string * mpid) (sortedList : list (string * mpid)) :=
  match sortedList with
  | [] => [item]
  | sortedItem :: rest =>
    if strcmp_lt item.1 sortedItem.1 then item :: sortedItem :: rest
    else sortedItem :: sort_insert item rest
  end.

Definition sortList (d : Database) : Database :=
  match m_list d with
  | [] => d
  | item :: rest => with_list (foldl (λ sorted i, sort_insert i sorted) [item] rest) d
  end.

Definition getFirstByName : ST Database (option (string * mpid)) :=
  d ← get_st;
  (if m_listSorted d then ret tt else modify (λ d, with_sorted true (sortList d)));;
  d ← get_st;
  ret (head (m_list d)).

(** The item behind [current] in the list. *)
Fixpoint next_in (current : mpid) (q : list (string * mpid)) : option (string * mpid) :=
  match q with
  | [] => None
  | i :: q => if decide (i.2 = current) then head q else next_in current q
  end.

Definition getNextByName (current : mpid) : ST Database (option (string * mpid)) :=
  d ← get_st; ret (next_in current (m_list d)).

Fixpoint find (modelPointName : string) (q : list (string * mpid)) : option mpid :=
  match q with
  | [] => None
  | item :: q => if String.eqb item.1 modelPointName then Some item.2 else find modelPointName q
  end.

Definition lookupModelPoint (modelPointName : string) : ST Database (option mpid) :=
  d ← get_st; ret (find modelPointName (m_list d)).

(** A client that visits the points by name, for [n] points at most. *)
Fixpoint visit_from (n : nat) (current : option (string * mpid)) : ST Database (list (string * mpid)) :=
  match n, current with
  | _, None => ret []
  | O, Some _ => undefined
  | S n, Some i => o ← getNextByName i.2; r ← visit_from n o; ret (i :: r)
  end.

Definition visit_by_name (n : nat) : ST Database (list (string * mpid)) :=
  i ← getFirstByName; visit_from n i.

(** ** Updates from JSON *)

Definition globalLock_ : ST Database unit := modify (λ d, with_depth (S (globalDepth d)) d).
Definition globalUnlock_ : ST Database unit := modify (λ d, with_depth (pred (globalDepth d)) d).

Definition on_model {A} (mm : M A) : ST Database A :=
  λ d, match mm (model d) with Some (a, w) => Some (a, with_model w d) | None => None end.

Section json.
Context {Val : Type}.

(** The elements of the document the code asks for; a null element is [None]. *)
Record Doc := mkDoc {
  doc_name : option string;
  doc_valid : option bool;
  doc_locked : option bool;
  doc_val : option Val
}.

Variable deserializeJson : string → option Doc.
(** ModelPoint::fromJSON_ of the concrete class; the sequence number, or a
    failure. *)
Variable fromJSON_ : mpid → Val → LockRequest_T → M (option Z).

(** The result [None] is false: every such return leaves the global lock. *)
Definition fromJSON (src : string) : ST Database (option (mpid * Z)) :=
  globalLock_;;
  match deserializeJson src with
  | None => ret None
  | Some doc =>
    match doc_name doc with
    | None => ret None
    | Some name =>
      o ← lookupModelPoint name;
      match o with
      | None => ret None
      | Some mp =>
        let lockAction := match doc_locked doc with
                          | Some b => if b then eLOCK else eUNLOCK | None => eNO_REQUEST end in
        ' (seqnum, parsed) ←
          (match doc_locked doc with
           | Some _ => n ← on_model (setLockState mp lockAction); ret (n, true)
           | None => ret (0, false)
           end);
        r ← (match doc_valid doc, doc_val doc with
             | Some false, _ => n ← on_model (setInvalid mp lockAction); ret (Some (n, true))
             | _, Some v =>
               n ← on_model (fromJSON_ mp v lockAction);
               ret (match n with Some n => Some (n, true) | None => None end)
             | _, None => ret (Some (seqnum, parsed))
             end);
        match r with
        | None => ret None
        | Some (seqnum, parsed) =>
          if parsed : bool then globalUnlock_;; ret (Some (mp, seqnum)) else ret None
        end
      end
    end
  end.
End json.
Arguments Doc : clear implicits.
Arguments mkDoc {Val}.

(** ** The sort *)

Definition name_le (a b : string * mpid) : Prop := strcmp_lt b.1 a.1 = false.

Lemma compare_lt_trans a b c : (a ?= b)%string = Lt → (b ?= c)%string = Lt → (a ?= c)%string = Lt.
Proof.
  revert b c. induction a as [|x a IH]; intros [|y b] [|z c]; simpl; try done.
  unfold Ascii.compare.
  destruct (N.compare_spec (Ascii.N_of_ascii x) (Ascii.N_of_ascii y)) as [E1|H1|H1]; try done;
  destruct (N.compare_spec (Ascii.N_of_ascii y) (Ascii.N_of_ascii z)) as [E2|H2|H2]; try done;
  destruct (N.compare_spec (Ascii.N_of_ascii x) (Ascii.N_of_ascii z)) as [E3|H3|H3];
    try done; try lia; eauto.
Qed.

Lemma name_le_iff a b : name_le a b ↔ (a.1 ?= b.1)%string ≠ Gt.
Proof.
  unfold name_le, strcmp_lt. rewrite String.compare_antisym.
  by destruct (a.1 ?= b.1)%string.
Qed.

#[global] Instance name_le_trans : Transitive name_le.
Proof.
  intros a b c. rewrite !name_le_iff. intros H1 H2 H3.
  destruct (a.1 ?= b.1)%string eqn:E1; [|clear H1|done].
  { apply String.compare_eq_iff in E1. rewrite <-E1 in H2. done. }
  destruct (b.1 ?= c.1)%string eqn:E2; [|clear H2|done].
  { apply String.compare_eq_iff in E2. rewrite E2, H3 in E1. done. }
  pose proof (compare_lt_trans _ _ _ E1 E2). congruence.
Qed.

Lemma sort_insert_perm i q : sort_insert i q ≡ₚ i :: q.
Proof.
  induction q as [|j q IH]; simpl; [done|]. case_match; [done|]. rewrite IH. apply perm_swap.
Qed.

Lemma sort_insert_sorted i q : StronglySorted name_le q → StronglySorted name_le (sort_insert i q).
Proof.
  induction 1 as [|j q Hq IH Hj]; simpl; [by repeat constructor|]. case_match eqn:E.
  - constructor; [by constructor|].
    assert (name_le i j) as Hij.
    { unfold name_le, strcmp_lt in *. rewrite String.compare_antisym.
      by destruct (i.1 ?= j.1)%string. }
    constructor; [done|]. eapply Forall_impl; [done|]. intros k Hk. by etrans.
  - constructor; [done|]. rewrite sort_insert_perm. by constructor.
Qed.

Lemma foldl_sort rest : ∀ q,
  StronglySorted name_le q →
  StronglySorted name_le (foldl (λ sorted i, sort_insert i sorted) q rest) ∧
  foldl (λ sorted i, sort_insert i sorted) q rest ≡ₚ q ++ rest.
Proof.
  induction rest as [|i rest IH]; intros q Hq; simpl; [by rewrite app_nil_r|].
  destruct (IH (sort_insert i q) (sort_insert_sorted i q Hq)) as [H1 H2]. split; [done|].
  rewrite H2, sort_insert_perm. simpl. by rewrite Permutation_middle.
Qed.

Lemma sortList_spec d :
  StronglySorted name_le (m_list (sortList d)) ∧ m_list (sortList d) ≡ₚ m_list d.
Proof.
  unfold sortList. destruct (m_list d) as [|i rest] eqn:E; [rewrite E; by repeat constructor|].
  simpl. apply (foldl_sort rest [i]). by repeat constructor.
Qed.

Lemma next_in_split a i b :
  NoDup (a ++ i :: b).*2 → next_in i.2 (a ++ i :: b) = head b.
Proof.
  induction a as [|j a IH]; simpl; intros [Hj Hn]%NoDup_cons; [by rewrite decide_True|].
  rewrite decide_False; [by apply IH|]. intros E. apply Hj. rewrite E, fmap_app.
  apply elem_of_app. right. left.
Qed.

Lemma visit_rest b : ∀ a d,
  m_list d = a ++ b → NoDup (m_list d).*2 → visit_from (length b) (head b) d = Some (b, d).
Proof.
  induction b as [|i b IH]; intros a d Hd Hn; [done|].
  cbn [length head visit_from]. unfold getNextByName, bind at 1 2, get_st, ret at 1.
  rewrite Hd in *. rewrite next_in_split by done. unfold bind.
  rewrite (IH (a ++ [i]) d); [done| |by rewrite Hd]. by rewrite <-app_assoc.
Qed.

(** Every point once, in the order of the names, the first time. *)
Lemma visit_by_name_spec d :
  m_listSorted d = false → NoDup (m_list d).*2 →
  ∃ q d', visit_by_name (length (m_list d)) d = Some (q, d') ∧
    q ≡ₚ m_list d ∧ StronglySorted name_le q ∧ m_list d' = q.
Proof.
  intros Hs Hn. destruct (sortList_spec d) as [H1 H2].
  exists (m_list (sortList d)), (with_sorted true (sortList d)).
  unfold visit_by_name, getFirstByName, bind, get_st, modify, ret. rewrite Hs.
  rewrite <-(Permutation_length H2).
  rewrite (visit_rest (m_list (sortList d)) []); [done|done|].
  simpl. by rewrite H2.
Qed.

(** The list is sorted once: a point that is created later comes first. *)
Lemma inserted_after_the_sort_comes_first w :
  let d0 := mkDatabase [("b"%string, 2%positive); ("a"%string, 1%positive)] false 0 w in
  match (getFirstByName;; modify (insert_ ("c"%string, 3%positive));; visit_by_name 3) d0 with
  | Some (q, _) => q.*1 = ["c"; "a"; "b"]%string
  | None => False
  end.
Proof. done. Qed.

(** ** The global lock *)

Section json_lock.
Context {Val : Type} (deserializeJson : string → option (Doc Val)).
Context (fromJSON_ : mpid → Val → LockRequest_T → M (option Z)).

(** The depth of the lock and the list do not change. *)
Definition depth_kept {A} (mm : ST Database A) : Prop :=
  ∀ d a d', mm d = Some (a, d') → globalDepth d' = globalDepth d.

Lemma depth_kept_ret {A} (a : A) : depth_kept (ret a).
Proof. by intros d a' d' [= -> ->]. Qed.

Lemma depth_kept_model {A} (mm : M A) : depth_kept (on_model mm).
Proof. intros d a d'. unfold on_model. by destruct (mm (model d)) as [[b w]|]; intros [= -> <-]. Qed.

Lemma run_bind {A B} (mm : ST Database A) (k : A → ST Database B) d b d' :
  bind mm k d = Some (b, d') → ∃ a d1, mm d = Some (a, d1) ∧ k a d1 = Some (b, d').
Proof. unfold bind. destruct (mm d) as [[a d1]|]; [|done]. by exists a, d1. Qed.

Lemma depth_kept_bind {A B} (mm : ST Database A) (k : A → ST Database B) :
  depth_kept mm → (∀ a, depth_kept (k a)) → depth_kept (bind mm k).
Proof.
  intros Hm Hk d b d' (a & d1 & H1 & H2)%run_bind. rewrite (Hk _ _ _ _ H2). by eapply Hm.
Qed.

Lemma depth_kept_use {A} (mm : ST Database A) d a d' :
  depth_kept mm → mm d = Some (a, d') → globalDepth d' = globalDepth d.
Proof. intros H. apply H. Qed.

(** A failed update returns with the global lock held once more than before. *)
Lemma fromJSON_lock src d r d' :
  fromJSON deserializeJson fromJSON_ src d = Some (r, d') →
  globalDepth d' = match r with None => S (globalDepth d) | Some _ => globalDepth d end.
Proof.
  unfold fromJSON, globalLock_. intros ([] & d1 & [= <-] & H)%run_bind.
  set (d1 := with_depth _ d) in H. assert (globalDepth d1 = S (globalDepth d)) as E1 by done.
  clearbody d1. destruct (deserializeJson src) as [doc|]; [|by injection H as <- <-].
  destruct (doc_name doc) as [name|]; [|by injection H as <- <-].
  apply run_bind in H as (o & d2 & H1 & H).
  apply run_bind in H1 as (d2' & d3 & [= <- <-] & [= <- <-]).
  destruct (find name (m_list d1)) as [mp|]; [|by injection H as <- <-]. cbv zeta in H.
  apply run_bind in H as ([seqnum parsed] & d2 & H2 & H). apply run_bind in H as (o & d3 & H3 & H).
  assert (globalDepth d3 = globalDepth d1) as E3.
  { trans (globalDepth d2); [eapply depth_kept_use; [|exact H3]|eapply depth_kept_use; [|exact H2]];
      repeat case_match; auto using depth_kept_ret, depth_kept_bind, depth_kept_model. }
  clear H2 H3. destruct o as [[n [|]]|]; injection H as <- <-; simpl; by rewrite E3, E1.
Qed.
End json_lock.
