(* ===== verification/RtosList.v ===== *)
(** * The lists of the RTOS kernel

    Models list.c and the access macros of list.h of the FreeRTOS kernel under
    src/src/Bsp/Adafruit/grand_central_m4/gcc/FreeRTOS/Source, on which
    Cpl::System runs on that board.  A list is a ring of items through an end
    marker embedded in the list head.

    The structures are kept as one map per member: a node is the end marker of
    a list or an item, and [pxNext h n] is the member pxNext of node [n]. *)

From Stdlib Require Import ZArith Lia.
From S2P Require Import Prelude.
Local Open Scope Z_scope.
Local Open Scope pim_scope.

Inductive node := End (l : positive) | Item (i : positive).

#[global] Instance node_eq_dec : EqDecision node.
Proof. solve_decision. Defined.

(** Function update, the assignment to one member of one object. *)
Definition upd {A B} `{EqDecision A} (f : A → B) (a : A) (b : B) : A → B :=
  λ x, if decide (x = a) then b else f x.

Record heap := Heap {
  pxNext : node → node;
  pxPrevious : node → node;
  xItemValue : node → Z;
  pvOwner : positive → positive;
  pvContainer : positive → option positive;
  uxNumberOfItems : positive → Z;
  pxIndex : positive → node
}.

Abbreviation L := (ST heap).

Definition set_next (n m : node) : L unit :=
  modify (λ h, Heap (upd (pxNext h) n m) (pxPrevious h) (xItemValue h) (pvOwner h) (pvContainer h) (uxNumberOfItems h) (pxIndex h)).
Definition set_previous (n m : node) : L unit :=
  modify (λ h, Heap (pxNext h) (upd (pxPrevious h) n m) (xItemValue h) (pvOwner h) (pvContainer h) (uxNumberOfItems h) (pxIndex h)).
Definition set_value (n : node) (v : Z) : L unit :=
  modify (λ h, Heap (pxNext h) (pxPrevious h) (upd (xItemValue h) n v) (pvOwner h) (pvContainer h) (uxNumberOfItems h) (pxIndex h)).
Definition set_container (i : positive) (c : option positive) : L unit :=
  modify (λ h, Heap (pxNext h) (pxPrevious h) (xItemValue h) (pvOwner h) (upd (pvContainer h) i c) (uxNumberOfItems h) (pxIndex h)).
Definition set_number (l : positive) (n : Z) : L unit :=
  modify (λ h, Heap (pxNext h) (pxPrevious h) (xItemValue h) (pvOwner h) (pvContainer h) (upd (uxNumberOfItems h) l n) (pxIndex h)).
Definition set_index (l : positive) (n : node) : L unit :=
  modify (λ h, Heap (pxNext h) (pxPrevious h) (xItemValue h) (pvOwner h) (pvContainer h) (uxNumberOfItems h) (upd (pxIndex h) l n)).

Definition portMAX_DELAY : Z := 0xffffffff.

Definition vListInitialise (pxList : positive) : L unit :=
  set_index pxList (End pxList);;
  set_value (End pxList) portMAX_DELAY;;
  set_next (End pxList) (End pxList);;
  set_previous (End pxList) (End pxList);;
  set_number pxList 0.

Definition vListInitialiseItem (pxItem : positive) : L unit := set_container pxItem None.

Definition vListInsertEnd (pxList pxNewListItem : positive) : L unit :=
  index ← gets (λ h, pxIndex h pxList);
  set_next (Item pxNewListItem) index;;
  prev ← gets (λ h, pxPrevious h index);
  set_previous (Item pxNewListItem) prev;;
  prev ← gets (λ h, pxPrevious h index);
  set_next prev (Item pxNewListItem);;
  set_previous index (Item pxNewListItem);;
  set_container pxNewListItem (Some pxList);;
  n ← gets (λ h, uxNumberOfItems h pxList);
  set_number pxList (u32 (n + 1)).

(** The for loop of vListInsert(). *)
Fixpoint insert_loop (fuel : nat) (pxIterator : node) (xValueOfInsertion : Z) : L node :=
  next ← gets (λ h, pxNext h pxIterator);
  v ← gets (λ h, xItemValue h next);
  if v <=? xValueOfInsertion then
    match fuel with
    | O => undefined
    | S fuel => insert_loop fuel next xValueOfInsertion
    end
  else ret pxIterator.

Definition vListInsert (pxList pxNewListItem : positive) : L unit :=
  xValueOfInsertion ← gets (λ h, xItemValue h (Item pxNewListItem));
  num ← gets (λ h, uxNumberOfItems h pxList);
  pxIterator ←
    (if xValueOfInsertion =? portMAX_DELAY then gets (λ h, pxPrevious h (End pxList))
     else insert_loop (Z.to_nat num) (End pxList) xValueOfInsertion);
  next ← gets (λ h, pxNext h pxIterator);
  set_next (Item pxNewListItem) next;;
  next ← gets (λ h, pxNext h (Item pxNewListItem));
  set_previous next (Item pxNewListItem);;
  set_previous (Item pxNewListItem) pxIterator;;
  set_next pxIterator (Item pxNewListItem);;
  set_container pxNewListItem (Some pxList);;
  n ← gets (λ h, uxNumberOfItems h pxList);
  set_number pxList (u32 (n + 1)).

Definition uxListRemove (pxItemToRemove : positive) : L Z :=
  c ← gets (λ h, pvContainer h pxItemToRemove);
  pxList ← lift_opt c;
  next ← gets (λ h, pxNext h (Item pxItemToRemove));
  prev ← gets (λ h, pxPrevious h (Item pxItemToRemove));
  set_previous next prev;;
  prev ← gets (λ h, pxPrevious h (Item pxItemToRemove));
  next ← gets (λ h, pxNext h (Item pxItemToRemove));
  set_next prev next;;
  index ← gets (λ h, pxIndex h pxList);
  (if decide (index = Item pxItemToRemove) then
     prev ← gets (λ h, pxPrevious h (Item pxItemToRemove));
     set_index pxList prev
   else ret tt);;
  set_container pxItemToRemove None;;
  n ← gets (λ h, uxNumberOfItems h pxList);
  set_number pxList (u32 (n - 1));;
  gets (λ h, uxNumberOfItems h pxList).

(** ** The access macros of list.h *)

Definition listLIST_IS_EMPTY (pxList : positive) : L bool := gets (λ h, uxNumberOfItems h pxList =? 0).

Definition listCURRENT_LIST_LENGTH (pxList : positive) : L Z := gets (λ h, uxNumberOfItems h pxList).

(** The owner of a node: the end marker has none. *)
Definition owner (n : node) : L positive :=
  match n with Item i => gets (λ h, pvOwner h i) | End _ => undefined end.

Definition listGET_OWNER_OF_HEAD_ENTRY (pxList : positive) : L positive :=
  n ← gets (λ h, pxNext h (End pxList)); owner n.

Definition listGET_ITEM_VALUE_OF_HEAD_ENTRY (pxList : positive) : L Z :=
  n ← gets (λ h, pxNext h (End pxList)); gets (λ h, xItemValue h n).

Definition listGET_OWNER_OF_NEXT_ENTRY (pxList : positive) : L positive :=
  index ← gets (λ h, pxIndex h pxList);
  next ← gets (λ h, pxNext h index);
  set_index pxList next;;
  (if decide (next = End pxList) then
     next ← gets (λ h, pxNext h next);
     set_index pxList next
   else ret tt);;
  index ← gets (λ h, pxIndex h pxList);
  owner index.

Definition listIS_CONTAINED_WITHIN (pxList pxListItem : positive) : L bool :=
  gets (λ h, bool_decide (pvContainer h pxListItem = Some pxList)).

(** ** Abstract lists

    A list is the sequence of its items and the position of its walking index:
    at the end marker ([None]) or at an item. *)

Record alist := AList { items : list positive; index : option positive }.

(** The item before [x], [None] for the first. *)
Fixpoint before (p : option positive) (x : positive) (xs : list positive) : option positive :=
  match xs with
  | [] => p
  | y :: ys => if decide (y = x) then p else before (Some y) x ys
  end.

Fixpoint insert_at (i x : positive) (xs : list positive) : list positive :=
  match xs with
  | [] => [x]
  | y :: ys => if decide (y = i) then x :: y :: ys else y :: insert_at i x ys
  end.

(** vListInsertEnd(): just before the walking index. *)
Definition al_insert_end (x : positive) (l : alist) : alist :=
  AList (match index l with None => items l ++ [x] | Some i => insert_at i x (items l) end) (index l).

(** vListInsert(): before the first item with a larger value. *)
Fixpoint sorted_insert (val : positive → Z) (x : positive) (xs : list positive) : list positive :=
  match xs with
  | [] => [x]
  | y :: ys => if val y <=? val x then y :: sorted_insert val x ys else x :: y :: ys
  end.

Definition al_insert (val : positive → Z) (x : positive) (l : alist) : alist :=
  AList (sorted_insert val x (items l)) (index l).

Definition al_remove (x : positive) (l : alist) : alist :=
  AList (filter (λ y, y ≠ x) (items l))
    (if decide (index l = Some x) then before None x (items l) else index l).

(** The item after the index, skipping the end marker. *)
Fixpoint after (i : positive) (xs : list positive) : option positive :=
  match xs with
  | [] => None
  | y :: ys => if decide (y = i) then head ys else after i ys
  end.

Definition al_next_item (l : alist) : option positive :=
  match index l with
  | None => head (items l)
  | Some i => match after i (items l) with Some y => Some y | None => head (items l) end
  end.

Definition al_next (l : alist) : alist := AList (items l) (al_next_item l).
