(* ===== verification/RtosListSpec.v ===== *)
(** * The kernel lists implement sequences with a walking index *)

From Stdlib Require Import ZArith Lia Sorted Permutation.
From S2P Require Import Prelude RtosList.
Local Open Scope Z_scope.
Local Open Scope pim_scope.

(** ** Chains *)

Definition link (h : heap) (a b : node) : Prop := pxNext h a = b ∧ pxPrevious h b = a.

Fixpoint chain (h : heap) (a : node) (xs : list positive) (b : node) : Prop :=
  match xs with
  | [] => link h a b
  | x :: xs => link h a (Item x) ∧ chain h (Item x) xs b
  end.

Lemma chain_app h a xs y ys b :
  chain h a (xs ++ y :: ys) b ↔ chain h a xs (Item y) ∧ chain h (Item y) ys b.
Proof. revert a. induction xs as [|x xs IH]; intros a; simpl; [done|]. rewrite IH. naive_solver. Qed.

Lemma chain_frame h h' a xs b :
  chain h a xs b →
  (∀ n, n = a ∨ n ∈ (Item <$> xs) → pxNext h' n = pxNext h n) →
  (∀ n, n ∈ (Item <$> xs) ∨ n = b → pxPrevious h' n = pxPrevious h n) →
  chain h' a xs b.
Proof.
  revert a. induction xs as [|x xs IH]; intros a; simpl.
  - intros [H1 H2] Hn Hp. split; [rewrite Hn|rewrite Hp]; auto.
  - intros [[H1 H2] Hc] Hn Hp. split.
    + split; [rewrite Hn|rewrite Hp]; auto. left. by left.
    + apply IH; [done| |].
      * intros n [->|Hin]; apply Hn; right; [by left|by right].
      * intros n [Hin| ->]; apply Hp; [left; by right|by right].
Qed.

(** The node before and the node after a position of a ring. *)
Definition lastn (l : positive) (xs : list positive) : node :=
  match last xs with Some x => Item x | None => End l end.
Definition headn (l : positive) (ys : list positive) : node :=
  match ys with y :: _ => Item y | [] => End l end.

Lemma lastn_snoc l xs x : lastn l (xs ++ [x]) = Item x.
Proof. unfold lastn. by rewrite last_snoc. Qed.

Lemma chain_split h l xs ys :
  chain h (End l) (xs ++ ys) (End l) → link h (lastn l xs) (headn l ys).
Proof.
  destruct xs as [|x xs _] using rev_ind; destruct ys as [|y ys]; rewrite ?app_nil_r, ?lastn_snoc; simpl.
  - done.
  - naive_solver.
  - rewrite chain_app. naive_solver.
  - rewrite <-app_assoc. simpl. rewrite chain_app. simpl. naive_solver.
Qed.

Lemma elem_item x (xs : list positive) : Item x ∈ (Item <$> xs) ↔ x ∈ xs.
Proof. rewrite list_elem_of_fmap. naive_solver. Qed.

Lemma lastn_notin l (xs ys : list positive) y : NoDup (xs ++ ys) → y ∈ ys → lastn l xs ≠ Item y.
Proof.
  intros Hnd Hy. unfold lastn. destruct (last xs) as [x|] eqn:E; [|done]. intros [= ->].
  apply last_Some_elem_of in E. apply NoDup_app in Hnd as (_ & H & _). by eapply H.
Qed.

Lemma headn_notin l (xs ys : list positive) x : NoDup (xs ++ ys) → x ∈ xs → headn l ys ≠ Item x.
Proof.
  intros Hnd Hx. destruct ys as [|y ys]; [done|]. intros [= ->].
  apply NoDup_app in Hnd as (_ & H & _). eapply H; [done|by left].
Qed.

(** The four assignments that put a free item between two neighbours. *)
Lemma chain_insert h h' l xs ys x :
  let p := lastn l xs in let q := headn l ys in
  chain h (End l) (xs ++ ys) (End l) → NoDup (xs ++ ys) → x ∉ xs ++ ys →
  pxNext h' p = Item x → pxNext h' (Item x) = q → pxPrevious h' q = Item x → pxPrevious h' (Item x) = p →
  (∀ n, n ≠ p → n ≠ Item x → pxNext h' n = pxNext h n) →
  (∀ n, n ≠ q → n ≠ Item x → pxPrevious h' n = pxPrevious h n) →
  chain h' (End l) (xs ++ x :: ys) (End l).
Proof.
  intros p q Hc Hnd Hx Hpn Hxn Hqp Hxp Hn Hp. rewrite not_elem_of_app in Hx. destruct Hx as [Hx1 Hx2].
  assert (chain h' (End l) xs (Item x) ∧ chain h' (Item x) ys (End l)) as [H1 H2]; [|by apply chain_app].
  split.
  - destruct xs as [|a xs _] using rev_ind; [by split|]. unfold p in *. rewrite lastn_snoc in *.
    apply chain_app. split; [|by split].
    rewrite <-app_assoc in Hc, Hnd. simpl in Hc, Hnd. apply chain_app in Hc as [Hc _].
    eapply chain_frame; [exact Hc| |].
    + intros n Hn'. apply Hn.
      * intros ->. destruct Hn' as [|Ha]; [done|]. rewrite elem_item in Ha.
        apply NoDup_app in Hnd as (_ & H & _). eapply H; [done|by left].
      * intros ->. destruct Hn' as [|Ha]; [done|]. rewrite elem_item in Ha. set_solver.
    + intros n Hn'. assert (∃ z, n = Item z ∧ z ∈ xs ++ [a]) as (z & -> & Hz).
      { destruct Hn' as [Hin| ->]; [|exists a; set_solver]. apply list_elem_of_fmap in Hin. set_solver. }
      apply Hp; [|set_solver]. intros E. symmetry in E. revert E. apply (headn_notin l (xs ++ [a])); [|done].
      by rewrite <-app_assoc.
  - destruct ys as [|b ys]; [by split|]. simpl in q. unfold q in *. simpl. split; [by split|].
    apply chain_app in Hc as [_ Hc]. eapply chain_frame; [exact Hc| |].
    + intros n Hn'. assert (∃ z, n = Item z ∧ z ∈ b :: ys) as (z & -> & Hz).
      { destruct Hn' as [->|Hin]; [exists b; set_solver|]. apply list_elem_of_fmap in Hin. set_solver. }
      apply Hn; [|set_solver]. intros E. symmetry in E. revert E. by apply (lastn_notin l xs (b :: ys)).
    + intros n Hn'. apply Hp.
      * intros ->. destruct Hn' as [Ha|]; [|done]. rewrite elem_item in Ha.
        apply NoDup_app in Hnd as (_ & _ & H). apply NoDup_cons in H. naive_solver.
      * intros ->. destruct Hn' as [Ha|]; [|done]. rewrite elem_item in Ha. set_solver.
Qed.

(** The two assignments that take an item out. *)
Lemma chain_remove h h' l xs ys x :
  let p := lastn l xs in let q := headn l ys in
  chain h (End l) (xs ++ x :: ys) (End l) → NoDup (xs ++ x :: ys) →
  pxNext h' p = q → pxPrevious h' q = p →
  (∀ n, n ≠ p → pxNext h' n = pxNext h n) → (∀ n, n ≠ q → pxPrevious h' n = pxPrevious h n) →
  chain h' (End l) (xs ++ ys) (End l).
Proof.
  intros p q Hc Hnd Hpn Hqp Hn Hp. apply chain_app in Hc as [Hc1 Hc2].
  assert (NoDup (xs ++ ys)) as Hnd'.
  { apply NoDup_middle in Hnd. naive_solver. }
  destruct xs as [|a xs _] using rev_ind; destruct ys as [|b ys]; rewrite ?app_nil_r;
    unfold p, q in *; rewrite ?lastn_snoc in *; simpl in *.
  - by split.
  - split; [by split|]. destruct Hc2 as [_ Hc2]. eapply chain_frame; [exact Hc2| |].
    + intros n Hn'. apply Hn. destruct Hn' as [->|Hin]; [done|]. apply list_elem_of_fmap in Hin. naive_solver.
    + intros n Hn'. apply Hp. intros ->. destruct Hn' as [Hin|]; [|done]. rewrite elem_item in Hin.
      apply NoDup_cons in Hnd' as [? _]. done.
  - apply chain_app. apply chain_app in Hc1 as [Hc1 _]. split; [|by split].
    rewrite app_nil_r in Hnd'. apply NoDup_snoc in Hnd' as [Ha _].
    eapply chain_frame; [exact Hc1| |].
    + intros n Hn'. apply Hn. intros ->. destruct Hn' as [|Hin]; [done|]. by rewrite elem_item in Hin.
    + intros n Hn'. apply Hp. destruct Hn' as [Hin| ->]; [|done]. apply list_elem_of_fmap in Hin. naive_solver.
  - rewrite <-app_assoc in *. simpl in *. apply chain_app. apply chain_app in Hc1 as [Hc1 _].
    destruct Hc2 as [_ Hc2]. pose proof Hnd' as Hnd2.
    apply NoDup_app in Hnd' as (_ & Hdis & Hnd'). apply NoDup_cons in Hnd' as [Hab Hnd'].
    apply NoDup_cons in Hnd' as [Hb _].
    split; [|split; [by split|]].
    + eapply chain_frame; [exact Hc1| |].
      * intros n Hn'. apply Hn. intros ->. destruct Hn' as [|Hin]; [done|]. rewrite elem_item in Hin. set_solver.
      * intros n Hn'. apply Hp. intros ->. destruct Hn' as [Hin|[= ->]]; [rewrite elem_item in Hin|]; set_solver.
    + eapply chain_frame; [exact Hc2| |].
      * intros n Hn'. apply Hn. intros ->. destruct Hn' as [[= ->]|Hin]; [set_solver|]. rewrite elem_item in Hin. set_solver.
      * intros n Hn'. apply Hp. intros ->. destruct Hn' as [Hin|]; [|done]. rewrite elem_item in Hin. set_solver.
Qed.

(** ** Representation *)

Definition inode (l : positive) (o : option positive) : node :=
  match o with Some i => Item i | None => End l end.

Abbreviation val h := (λ i, xItemValue h (Item i)).

Record rep1 (h : heap) (l : positive) (al : alist) : Prop := {
  r_chain : chain h (End l) (items al) (End l);
  r_nodup : NoDup (items al);
  r_cont : ∀ i, i ∈ items al → pvContainer h i = Some l;
  r_number : uxNumberOfItems h l = Z.of_nat (length (items al));
  r_bound : Z.of_nat (length (items al)) < 2 ^ 32;
  r_index : pxIndex h l = inode l (index al);
  r_index_in : ∀ i, index al = Some i → i ∈ items al;
  r_end : xItemValue h (End l) = portMAX_DELAY
}.

Record Rep (h : heap) (m : gmap positive alist) : Prop := {
  R_each : ∀ l al, m !! l = Some al → rep1 h l al;
  R_back : ∀ i l, pvContainer h i = Some l → ∃ al, m !! l = Some al ∧ i ∈ items al;
  R_values : ∀ i, 0 <= xItemValue h (Item i) <= portMAX_DELAY
}.

(** An operation on list [l] and item [x] leaves the other lists alone. *)
Record touches (h h' : heap) (l x : positive) (al : alist) : Prop := {
  t_next : ∀ n, n ≠ End l → (∀ i, n = Item i → i ∉ items al ∧ i ≠ x) → pxNext h' n = pxNext h n;
  t_prev : ∀ n, n ≠ End l → (∀ i, n = Item i → i ∉ items al ∧ i ≠ x) → pxPrevious h' n = pxPrevious h n;
  t_value : ∀ n, xItemValue h' n = xItemValue h n;
  t_cont : ∀ i, i ≠ x → pvContainer h' i = pvContainer h i;
  t_number : ∀ l', l' ≠ l → uxNumberOfItems h' l' = uxNumberOfItems h l';
  t_index : ∀ l', l' ≠ l → pxIndex h' l' = pxIndex h l'
}.

Lemma chain_disjoint h m l l' al al' i :
  Rep h m → m !! l = Some al → m !! l' = Some al' → i ∈ items al → i ∈ items al' → l = l'.
Proof.
  intros [He _ _] H1 H2 Hi Hi'. pose proof (r_cont _ _ _ (He _ _ H1) _ Hi).
  pose proof (r_cont _ _ _ (He _ _ H2) _ Hi'). congruence.
Qed.

Lemma Rep_step h h' m l x al al' :
  Rep h m → m !! l = Some al → touches h h' l x al → rep1 h' l al' →
  (pvContainer h x = None ∨ pvContainer h x = Some l) →
  (∀ i, i ≠ x → i ∈ items al' ↔ i ∈ items al) →
  (pvContainer h' x = None ∨ x ∈ items al') →
  Rep h' (<[l := al']> m).
Proof.
  intros HR Hl [Tn Tp Tv Tc Tnum Tidx] Hrep Hx Hsame Hx'. constructor.
  - intros l2 al2. rewrite lookup_insert. case_decide as El; [by intros [= <-]; subst|]. intros Hl2.
    destruct (R_each _ _ HR l2 al2 Hl2) as [C N K Nu B I II E].
    assert (∀ i, i ∈ items al2 → i ∉ items al ∧ i ≠ x) as Hdis.
    { intros i Hi. split; [intros Hi2; apply El; by eapply chain_disjoint|].
      intros ->. specialize (K x Hi). destruct Hx; congruence. }
    assert (∀ n, n = End l2 ∨ n ∈ (Item <$> items al2) → n ≠ End l ∧ ∀ i, n = Item i → i ∉ items al ∧ i ≠ x) as Hn.
    { intros n [->|Hin]; [naive_solver|]. apply list_elem_of_fmap in Hin as (i & -> & Hi). naive_solver. }
    constructor; try done.
    + eapply chain_frame; [exact C| |].
      * intros n H. destruct (Hn n H). by apply Tn.
      * intros n H. destruct (Hn n) as [? ?]; [naive_solver|]. by apply Tp.
    + intros i Hi. rewrite Tc; [by apply K|]. by apply Hdis.
    + by rewrite Tnum.
    + by rewrite Tidx.
    + by rewrite Tv.
  - intros i l2 Hi. destruct (decide (i = x)) as [->|Hne].
    + destruct Hx' as [Hx'|Hx']; [congruence|]. pose proof (r_cont _ _ _ Hrep x Hx') as Hc.
      assert (l2 = l) as -> by congruence. exists al'. split; [apply lookup_insert_eq|done].
    + rewrite Tc in Hi by done. destruct (R_back _ _ HR i l2 Hi) as (al2 & H2 & Hin).
      destruct (decide (l2 = l)) as [->|].
      * exists al'. rewrite lookup_insert_eq. split; [done|]. apply Hsame; [done|]. congruence.
      * exists al2. by rewrite lookup_insert_ne.
  - intros i. rewrite Tv. apply HR.
Qed.

(** ** Where items go *)

Lemma insert_at_split i x xs ys : i ∉ xs → insert_at i x (xs ++ i :: ys) = xs ++ x :: i :: ys.
Proof.
  induction xs as [|y xs IH]; simpl; intros Hi; [by rewrite decide_True|].
  rewrite decide_False by set_solver. rewrite IH; set_solver.
Qed.

Lemma insert_end_split al x :
  NoDup (items al) → (∀ i, index al = Some i → i ∈ items al) →
  ∃ xs ys, items al = xs ++ ys ∧ items (al_insert_end x al) = xs ++ x :: ys ∧
    ∀ l, headn l ys = inode l (index al).
Proof.
  intros Hnd Hin. unfold al_insert_end. destruct (index al) as [i|] eqn:E; simpl.
  - destruct (list_elem_of_split _ _ (Hin i eq_refl)) as (xs & ys & Heq). exists xs, (i :: ys).
    split_and!; [done| |done]. rewrite Heq in Hnd |- *. apply insert_at_split.
    apply NoDup_app in Hnd as (_ & H & _). intros Hi. eapply H; [done|by left].
  - exists (items al), []. by rewrite app_nil_r.
Qed.

Lemma sorted_insert_split (v : positive → Z) x xs :
  ∃ xs1 xs2, xs = xs1 ++ xs2 ∧ sorted_insert v x xs = xs1 ++ x :: xs2 ∧
    Forall (λ y, v y <= v x) xs1 ∧ (∀ y, head xs2 = Some y → v x < v y).
Proof.
  induction xs as [|y xs IH]; simpl.
  - by exists [], [].
  - destruct (Z.leb_spec (v y) (v x)).
    + destruct IH as (xs1 & xs2 & -> & -> & H1 & H2). exists (y :: xs1), xs2. split_and!; [done..| |done].
      by constructor.
    + exists [], (y :: xs). split_and!; [done..| ]. by intros ? [= <-].
Qed.

Lemma sorted_insert_ext v w x xs : (∀ i, v i = w i) → sorted_insert v x xs = sorted_insert w x xs.
Proof. intros H. induction xs as [|y xs IH]; simpl; [done|]. by rewrite !H, IH. Qed.

Lemma filter_middle x (xs ys : list positive) :
  NoDup (xs ++ x :: ys) → filter (λ y, y ≠ x) (xs ++ x :: ys) = xs ++ ys.
Proof.
  intros Hnd. apply NoDup_middle in Hnd as (H1 & H2 & _).
  rewrite filter_app, filter_cons_False by naive_solver.
  assert (∀ l : list positive, x ∉ l → filter (λ y, y ≠ x) l = l) as Hf.
  { intros l. induction l as [|y l IH]; intros Hn; [done|]. rewrite filter_cons_True by set_solver.
    f_equal. apply IH. set_solver. }
  by rewrite !Hf.
Qed.

Lemma before_middle p x xs ys :
  x ∉ xs → before p x (xs ++ x :: ys) = match last xs with Some y => Some y | None => p end.
Proof.
  revert p. induction xs as [|y xs IH]; simpl; intros p Hx; [by rewrite decide_True|].
  rewrite decide_False by set_solver. rewrite IH by set_solver. rewrite last_cons.
  by destruct (last xs).
Qed.

(** ** The operations *)

Ltac run_upd := unfold upd; repeat (first [rewrite decide_True by done | rewrite decide_False by done]).

Lemma upd_eq {A B} `{EqDecision A} (f : A → B) a b : upd f a b a = b.
Proof. unfold upd. by rewrite decide_True. Qed.

Lemma upd_ne {A B} `{EqDecision A} (f : A → B) a b x : x ≠ a → upd f a b x = f x.
Proof. intros. unfold upd. by rewrite decide_False. Qed.

(** What the two inserting operations have in common: the item was put between
    the neighbours [lastn l xs] and [headn l ys]. *)
Lemma Rep_inserted h h' m l x al xs ys al' :
  Rep h m → m !! l = Some al → pvContainer h x = None →
  items al = xs ++ ys → items al' = xs ++ x :: ys → index al' = index al →
  Z.of_nat (length (items al)) + 1 < 2 ^ 32 →
  let p := lastn l xs in let q := headn l ys in
  pxNext h' p = Item x → pxNext h' (Item x) = q → pxPrevious h' q = Item x → pxPrevious h' (Item x) = p →
  (∀ n, n ≠ p → n ≠ Item x → pxNext h' n = pxNext h n) →
  (∀ n, n ≠ q → n ≠ Item x → pxPrevious h' n = pxPrevious h n) →
  (∀ n, xItemValue h' n = xItemValue h n) →
  pvContainer h' = upd (pvContainer h) x (Some l) →
  uxNumberOfItems h' = upd (uxNumberOfItems h) l (u32 (uxNumberOfItems h l + 1)) →
  pxIndex h' = pxIndex h →
  Rep h' (<[l := al']> m).
Proof.
  intros HR Hl Hx Hi Hi' Hidx Hb p q H1 H2 H3 H4 Hn Hp Hv Hc Hnum Hix.
  destruct (R_each _ _ HR l al Hl) as [C N K Nu B I II E].
  assert (x ∉ items al) as Hxn by (intros Hin; specialize (K x Hin); congruence).
  rewrite Hi in *.
  assert (∀ n, n = p ∨ n = q → n = End l ∨ ∃ i, n = Item i ∧ i ∈ xs ++ ys) as Hpq.
  { intros n [->| ->]; unfold p, q, lastn, headn.
    - destruct (last xs) as [y|] eqn:Ey; [|by left]. right. exists y. split; [done|].
      apply elem_of_app. left. by apply last_Some_elem_of.
    - destruct ys as [|y ys]; [by left|]. right. exists y. set_solver. }
  eapply (Rep_step h h' m l x al al'); try done.
  - constructor; try done.
    + intros n Hne Hni. apply Hn; [|intros ->; by destruct (Hni x eq_refl)].
      intros ->. destruct (Hpq p (or_introl eq_refl)) as [?|(i & Ei & Hin)]; [done|]. destruct (Hni i Ei). by rewrite Hi in *.
    + intros n Hne Hni. apply Hp; [|intros ->; by destruct (Hni x eq_refl)].
      intros ->. destruct (Hpq q (or_intror eq_refl)) as [?|(i & Ei & Hin)]; [done|]. destruct (Hni i Ei). by rewrite Hi in *.
    + intros i Hne. rewrite Hc. by apply upd_ne.
    + intros l' Hne. rewrite Hnum. by apply upd_ne.
    + intros l' Hne. by rewrite Hix.
  - constructor; rewrite ?Hi'.
    + by eapply chain_insert.
    + apply NoDup_middle. rewrite not_elem_of_app in Hxn. naive_solver.
    + intros i Hin. rewrite Hc. unfold upd. case_decide; [done|]. apply K. set_solver.
    + rewrite Hnum, upd_eq, Nu. rewrite !length_app in *. simpl. unfold wrap.
      rewrite Z.mod_small by lia. lia.
    + rewrite !length_app in *. simpl. lia.
    + by rewrite Hix, I, Hidx.
    + intros i Hii. rewrite Hidx in Hii. specialize (II i Hii). set_solver.
    + by rewrite Hv.
  - by left.
  - intros i Hne. rewrite Hi, Hi'. set_solver.
  - right. rewrite Hi'. set_solver.
Qed.

Ltac run_list :=
  unfold bind, gets, set_next, set_previous, set_container, set_number, set_index, modify, ret;
  cbn [pxNext pxPrevious xItemValue pvOwner pvContainer uxNumberOfItems pxIndex].

Lemma insertEnd_run h l x p q :
  pxIndex h l = q → pxPrevious h q = p → q ≠ Item x →
  vListInsertEnd l x h = Some (tt,
    Heap (upd (upd (pxNext h) (Item x) q) p (Item x)) (upd (upd (pxPrevious h) (Item x) p) q (Item x))
      (xItemValue h) (pvOwner h) (upd (pvContainer h) x (Some l))
      (upd (uxNumberOfItems h) l (u32 (uxNumberOfItems h l + 1))) (pxIndex h)).
Proof.
  intros Hq Hp Hne. unfold vListInsertEnd. run_list. rewrite Hq, Hp.
  rewrite (upd_ne (pxPrevious h) (Item x) p q) by done. by rewrite Hp.
Qed.

Lemma insertEnd_ok h m l x al :
  Rep h m → m !! l = Some al → pvContainer h x = None → Z.of_nat (length (items al)) + 1 < 2 ^ 32 →
  wp (vListInsertEnd l x) (λ _ h', Rep h' (<[l := al_insert_end x al]> m) ∧
    (∀ n, xItemValue h' n = xItemValue h n) ∧ pvOwner h' = pvOwner h) h.
Proof.
  intros HR Hl Hx Hb. pose proof (R_each _ _ HR l al Hl) as [C N K Nu B I II E].
  destruct (insert_end_split al x N II) as (xs & ys & Hi & Hi' & Hq).
  assert (x ∉ xs ++ ys) as Hxn by (rewrite <-Hi; intros Hin; specialize (K x Hin); congruence).
  pose proof C as C'. rewrite Hi in C'. destruct (chain_split _ _ _ _ C') as [_ Hprev].
  assert (pxIndex h l = headn l ys) as Hidx by (by rewrite I, Hq).
  assert (headn l ys ≠ Item x) as Hqx by (destruct ys; [done|set_solver]).
  assert (lastn l xs ≠ Item x) as Hpx.
  { unfold lastn. destruct (last xs) as [y|] eqn:Ey; [|done]. apply last_Some_elem_of in Ey. set_solver. }
  eapply wp_exact; [by apply (insertEnd_run h l x (lastn l xs) (headn l ys))|]. split_and!; [|done|done].
  eapply (Rep_inserted h _ m l x al xs ys); try done; simpl.
  - apply upd_eq.
  - rewrite upd_ne by done. apply upd_eq.
  - apply upd_eq.
  - rewrite upd_ne by done. apply upd_eq.
  - intros n ? ?. by rewrite !upd_ne.
  - intros n ? ?. by rewrite !upd_ne.
Qed.

(** The loop of vListInsert() ends within the number of items, at the last item
    whose value is not larger. *)
Lemma insert_loop_ok h l v xs ys fuel :
  chain h (End l) (xs ++ ys) (End l) → xItemValue h (End l) = portMAX_DELAY → v < portMAX_DELAY →
  (length ys <= fuel)%nat →
  ∃ ys1 ys2, ys = ys1 ++ ys2 ∧ insert_loop fuel (lastn l xs) v h = Some (lastn l (xs ++ ys1), h) ∧
    Forall (λ y, xItemValue h (Item y) <= v) ys1 ∧ (∀ y, head ys2 = Some y → v < xItemValue h (Item y)).
Proof.
  intros Hc He Hv. revert xs fuel Hc. induction ys as [|y ys IH]; intros xs fuel Hc Hf;
    destruct (chain_split _ _ _ _ Hc) as [Hnext _]; simpl in Hnext.
  - exists [], []. split_and!; [done| |done|done].
    destruct fuel; cbn [insert_loop]; unfold bind, gets; rewrite Hnext, He;
      (destruct (Z.leb_spec portMAX_DELAY v); [lia|by rewrite app_nil_r]).
  - destruct fuel as [|fuel]; [simpl in Hf; lia|]. cbn [insert_loop]. unfold bind at 1 2, gets. rewrite Hnext.
    destruct (Z.leb_spec (xItemValue h (Item y)) v).
    + assert (chain h (End l) ((xs ++ [y]) ++ ys) (End l)) as Hc' by (by rewrite <-app_assoc).
      destruct (IH (xs ++ [y]) fuel Hc') as (ys1 & ys2 & -> & Hr & H1 & H2); [simpl in Hf; lia|].
      rewrite lastn_snoc in Hr. exists (y :: ys1), ys2. split_and!; [done| |by constructor|done].
      rewrite Hr, <-app_assoc. done.
    + exists [], (y :: ys). rewrite app_nil_r. split_and!; [done..|]. by intros ? [= <-].
Qed.

(** The two ways to split a list at a value agree. *)
Lemma split_unique (v : positive → Z) (b : Z) (xs1 xs2 ys1 ys2 : list positive) :
  xs1 ++ xs2 = ys1 ++ ys2 →
  Forall (λ y, v y <= b) xs1 → (∀ y, head xs2 = Some y → b < v y) →
  Forall (λ y, v y <= b) ys1 → (∀ y, head ys2 = Some y → b < v y) → xs1 = ys1 ∧ xs2 = ys2.
Proof.
  revert ys1. induction xs1 as [|x xs1 IH]; intros [|y ys1]; simpl; intros Heq H1 H2 H3 H4.
  - done.
  - subst. apply Forall_cons in H3 as [? _]. specialize (H2 y eq_refl). lia.
  - subst. apply Forall_cons in H1 as [? _]. specialize (H4 x eq_refl). lia.
  - injection Heq as -> Heq. apply Forall_cons in H1 as [_ H1], H3 as [_ H3].
    by destruct (IH ys1 Heq H1 H2 H3 H4) as [-> ->].
Qed.

Lemma insert_run h l x p q :
  pxNext h p = q → p ≠ Item x → q ≠ Item x →
  (if xItemValue h (Item x) =? portMAX_DELAY then gets (λ h, pxPrevious h (End l))
   else insert_loop (Z.to_nat (uxNumberOfItems h l)) (End l) (xItemValue h (Item x))) h = Some (p, h) →
  vListInsert l x h = Some (tt,
    Heap (upd (upd (pxNext h) (Item x) q) p (Item x)) (upd (upd (pxPrevious h) q (Item x)) (Item x) p)
      (xItemValue h) (pvOwner h) (upd (pvContainer h) x (Some l))
      (upd (uxNumberOfItems h) l (u32 (uxNumberOfItems h l + 1))) (pxIndex h)).
Proof.
  intros Hq Hpx Hqx Hit. unfold vListInsert. unfold bind at 1 2, gets at 1 2. unfold bind at 1.
  rewrite Hit. run_list. by rewrite Hq, upd_eq.
Qed.

Lemma insert_ok h m l x al :
  Rep h m → m !! l = Some al → pvContainer h x = None → Z.of_nat (length (items al)) + 1 < 2 ^ 32 →
  wp (vListInsert l x) (λ _ h', Rep h' (<[l := al_insert (val h) x al]> m) ∧
    (∀ n, xItemValue h' n = xItemValue h n) ∧ pvOwner h' = pvOwner h) h.
Proof.
  intros HR Hl Hx Hb. pose proof (R_each _ _ HR l al Hl) as [C N K Nu B I II E].
  destruct (sorted_insert_split (val h) x (items al)) as (xs & ys & Hi & Hi' & H1 & H2). simpl in H1, H2.
  assert (x ∉ xs ++ ys) as Hxn by (rewrite <-Hi; intros Hin; specialize (K x Hin); congruence).
  pose proof C as C'. rewrite Hi in C'. destruct (chain_split _ _ _ _ C') as [Hnext Hprev].
  assert (headn l ys ≠ Item x) as Hqx by (destruct ys; [done|set_solver]).
  assert (lastn l xs ≠ Item x) as Hpx.
  { unfold lastn. destruct (last xs) as [y|] eqn:Ey; [|done]. apply last_Some_elem_of in Ey. set_solver. }
  pose proof (R_values _ _ HR x) as Hvx.
  eapply wp_exact; [apply (insert_run h l x (lastn l xs) (headn l ys)); try done|].
  - destruct (Z.eqb_spec (xItemValue h (Item x)) portMAX_DELAY) as [Ev|Ev].
    + assert (ys = []) as ->.
      { destruct ys as [|y ys]; [done|]. specialize (H2 y eq_refl). pose proof (R_values _ _ HR y). lia. }
      unfold gets. by rewrite <-Hprev.
    + rewrite Nu. rewrite Hi in C |- *.
      destruct (insert_loop_ok h l (xItemValue h (Item x)) [] (xs ++ ys)
        (Z.to_nat (Z.of_nat (length (xs ++ ys)))) C E) as (zs1 & zs2 & Hz & Hr & H3 & H4); [lia..|].
      destruct (split_unique (val h) (xItemValue h (Item x)) xs ys zs1 zs2 Hz H1 H2 H3 H4) as [-> ->]. exact Hr.
  - split_and!; [|done|done]. eapply (Rep_inserted h _ m l x al xs ys); try done; simpl.
    + apply upd_eq.
    + rewrite upd_ne by done. apply upd_eq.
    + rewrite upd_ne by done. apply upd_eq.
    + apply upd_eq.
    + intros n ? ?. by rewrite !upd_ne.
    + intros n ? ?. by rewrite !upd_ne.
Qed.

Lemma uxListRemove_run h l x p q :
  pvContainer h x = Some l → pxNext h (Item x) = q → pxPrevious h (Item x) = p → p ≠ Item x → q ≠ Item x →
  uxListRemove x h = Some (u32 (uxNumberOfItems h l - 1),
    Heap (upd (pxNext h) p q) (upd (pxPrevious h) q p) (xItemValue h) (pvOwner h)
      (upd (pvContainer h) x None) (upd (uxNumberOfItems h) l (u32 (uxNumberOfItems h l - 1)))
      (if decide (pxIndex h l = Item x) then upd (pxIndex h) l p else pxIndex h)).
Proof.
  intros Hc Hq Hp Hpx Hqx. unfold uxListRemove, lift_opt. unfold bind at 1, gets at 1. rewrite Hc.
  run_list. rewrite Hq, Hp, (upd_ne (pxPrevious h) q p (Item x)) by done. rewrite Hp.
  case_decide; run_list; rewrite ?upd_eq, ?(upd_ne (pxPrevious h) q p (Item x)), ?Hp by done; done.
Qed.

Lemma uxListRemove_ok h m l x al :
  Rep h m → m !! l = Some al → x ∈ items al →
  wp (uxListRemove x) (λ r h', Rep h' (<[l := al_remove x al]> m) ∧
    r = Z.of_nat (length (items (al_remove x al))) ∧ pvContainer h' x = None ∧
    (∀ n, xItemValue h' n = xItemValue h n) ∧ pvOwner h' = pvOwner h) h.
Proof.
  intros HR Hl Hin. pose proof (R_each _ _ HR l al Hl) as [C N K Nu B I II E].
  destruct (list_elem_of_split _ _ Hin) as (xs & ys & Hi). pose proof C as C'. pose proof N as N'.
  rewrite Hi in C', N'. pose proof (filter_middle x xs ys N') as Hf. rewrite <-Hi in Hf.
  pose proof N' as (Hx1 & Hx2 & Nd)%NoDup_middle.
  assert (pxPrevious h (Item x) = lastn l xs) as Hprev.
  { destruct (chain_split h l xs (x :: ys) C') as [_ H]. done. }
  assert (pxNext h (Item x) = headn l ys) as Hnext.
  { rewrite cons_middle, app_assoc in C'. destruct (chain_split h l (xs ++ [x]) ys C') as [H _]. by rewrite lastn_snoc in H. }
  assert (headn l ys ≠ Item x) as Hqx by (destruct ys; [done|set_solver]).
  assert (lastn l xs ≠ Item x) as Hpx.
  { unfold lastn. destruct (last xs) as [y|] eqn:Ey; [|done]. apply last_Some_elem_of in Ey. set_solver. }
  assert (u32 (uxNumberOfItems h l - 1) = Z.of_nat (length (xs ++ ys))) as Hlen.
  { rewrite Nu, Hi in *. rewrite !length_app in *. simpl in *. unfold wrap. rewrite Z.mod_small by lia. lia. }
  eapply wp_exact; [by apply (uxListRemove_run h l x (lastn l xs) (headn l ys)); [apply K|..]|].
  assert (items (al_remove x al) = xs ++ ys) as Hi' by done.
  split_and!; [|by rewrite Hi'|simpl; apply upd_eq|done|done].
  assert (∀ n, n = lastn l xs ∨ n = headn l ys → n = End l ∨ ∃ i, n = Item i ∧ i ∈ items al) as Hpq.
  { rewrite Hi. intros n [->| ->]; unfold lastn, headn.
    - destruct (last xs) as [y|] eqn:Ey; [|by left]. right. exists y. split; [done|].
      apply elem_of_app. left. by apply last_Some_elem_of.
    - destruct ys as [|y ys]; [by left|]. right. exists y. set_solver. }
  eapply (Rep_step h _ m l x al); try done; simpl.
  - constructor; simpl; try done.
    + intros n Hne Hni. apply upd_ne. intros ->.
      destruct (Hpq _ (or_introl eq_refl)) as [?|(i & Ei & Hii)]; [done|]. by destruct (Hni i Ei).
    + intros n Hne Hni. apply upd_ne. intros ->.
      destruct (Hpq _ (or_intror eq_refl)) as [?|(i & Ei & Hii)]; [done|]. by destruct (Hni i Ei).
    + intros i Hne. by apply upd_ne.
    + intros l' Hne. by apply upd_ne.
    + intros l' Hne. case_decide; [by apply upd_ne|done].
  - constructor; simpl; rewrite ?Hf.
    + eapply (chain_remove h); [exact C'|done|apply upd_eq|apply upd_eq| |]; intros n ?; by apply upd_ne.
    + done.
    + intros i Hii. rewrite upd_ne; [apply K; rewrite Hi; set_solver|]. intros ->. set_solver.
    + by rewrite upd_eq.
    + rewrite Hi, !length_app in *. simpl in *. lia.
    + rewrite I. destruct (decide (index al = Some x)) as [Ex|Ex].
      * rewrite Ex. simpl. rewrite decide_True, upd_eq by done. rewrite Hi, before_middle by done.
        unfold lastn. by destruct (last xs).
      * rewrite decide_False; [done|]. destruct (index al); simpl; congruence.
    + intros i. destruct (decide (index al = Some x)) as [Ex|Ex].
      * rewrite Hi, before_middle by done. destruct (last xs) eqn:El; [|done]. intros [= <-].
        apply last_Some_elem_of in El. set_solver.
      * intros Hii. specialize (II i Hii). rewrite Hi in II. set_solver.
    + done.
  - right. by apply K.
  - intros i Hne. rewrite Hf, Hi. set_solver.
  - left. apply upd_eq.
Qed.

Lemma initialise_ok h m l :
  Rep h m → m !! l = None →
  wp (vListInitialise l) (λ _ h', Rep h' (<[l := AList [] None]> m) ∧
    (∀ i, xItemValue h' (Item i) = xItemValue h (Item i)) ∧ pvOwner h' = pvOwner h) h.
Proof.
  intros HR Hl. eapply wp_exact; [unfold vListInitialise, set_value; run_list; reflexivity|].
  split; [|split; [intros i; simpl; by rewrite upd_ne|done]]. cbn [pxNext pxPrevious xItemValue pvOwner pvContainer uxNumberOfItems pxIndex].
  constructor; simpl.
  - intros l2 al2. rewrite lookup_insert. case_decide as El.
    + intros [= <-]. subst. constructor; simpl; try done.
      * by split; simpl; rewrite upd_eq.
      * by apply NoDup_nil_2.
      * intros i Hi. by apply not_elem_of_nil in Hi.
      * by rewrite upd_eq.
      * by rewrite upd_eq.
      * by rewrite upd_eq.
    + intros Hl2. destruct (R_each _ _ HR l2 al2 Hl2) as [C N K Nu B I II E].
      assert (End l2 ≠ End l) by congruence.
      constructor; simpl; try done; try (by rewrite upd_ne).
      eapply chain_frame; [exact C| |]; simpl; intros n Hn; apply upd_ne.
      * destruct Hn as [->|Hin]; [done|]. apply list_elem_of_fmap in Hin as (? & -> & _). done.
      * destruct Hn as [Hin| ->]; [|done]. apply list_elem_of_fmap in Hin as (? & -> & _). done.
  - intros i l2 Hi. destruct (R_back _ _ HR i l2 Hi) as (al2 & H2 & Hin). exists al2.
    rewrite lookup_insert_ne; [done|]. congruence.
  - intros i. rewrite upd_ne by done. apply HR.
Qed.

(** ** Walking *)

Lemma after_middle i xs ys : i ∉ xs → after i (xs ++ i :: ys) = head ys.
Proof.
  induction xs as [|y xs IH]; simpl; intros Hi; [by rewrite decide_True|].
  rewrite decide_False by set_solver. apply IH. set_solver.
Qed.

Lemma set_index_Rep h m l al o :
  Rep h m → m !! l = Some al → (∀ i, o = Some i → i ∈ items al) →
  Rep (Heap (pxNext h) (pxPrevious h) (xItemValue h) (pvOwner h) (pvContainer h) (uxNumberOfItems h)
    (upd (pxIndex h) l (inode l o))) (<[l := AList (items al) o]> m).
Proof.
  intros HR Hl Ho. pose proof (R_each _ _ HR l al Hl) as [C N K Nu B I II E].
  constructor; simpl.
  - intros l2 al2. rewrite lookup_insert. case_decide as El.
    + intros [= <-]. subst. constructor; simpl; try done; [|by rewrite upd_eq].
      eapply chain_frame; [exact C|done..].
    + intros Hl2. destruct (R_each _ _ HR l2 al2 Hl2) as [C2 N2 K2 Nu2 B2 I2 II2 E2].
      constructor; simpl; try done; [|by rewrite upd_ne].
      eapply chain_frame; [exact C2|done..].
  - intros i l2 Hi. destruct (R_back _ _ HR i l2 Hi) as (al2 & H2 & Hin).
    destruct (decide (l2 = l)) as [->|].
    + eexists. rewrite lookup_insert_eq. split; [done|]. simpl. congruence.
    + exists al2. by rewrite lookup_insert_ne.
  - apply HR.
Qed.

Lemma next_node h l al :
  rep1 h l al → pxNext h (pxIndex h l) = match index al with
    | None => headn l (items al)
    | Some i => inode l (after i (items al))
    end.
Proof.
  intros [C N K Nu B I II E]. rewrite I. destruct (index al) as [i|]; simpl.
  - destruct (list_elem_of_split _ _ (II i eq_refl)) as (xs & ys & Heq). rewrite Heq in *.
    rewrite cons_middle, app_assoc in C. destruct (chain_split h l (xs ++ [i]) ys C) as [H _].
    rewrite lastn_snoc in H. rewrite H, after_middle; [by destruct ys|].
    apply NoDup_app in N as (_ & Hd & _). intros Hi. eapply Hd; [done|by left].
  - by destruct (chain_split h l [] (items al) C).
Qed.

Lemma after_in i xs y : after i xs = Some y → y ∈ xs.
Proof.
  induction xs as [|x xs IH]; simpl; [done|]. case_decide; [|set_solver].
  destruct xs; simpl; [done|]. intros [= ->]. set_solver.
Qed.

Lemma al_next_item_in l y : al_next_item l = Some y → y ∈ items l.
Proof.
  unfold al_next_item. assert (head (items l) = Some y → y ∈ items l) as Hh.
  { destruct (items l); simpl; [done|]. intros [= ->]. by left. }
  destruct (index l) as [i|]; [|done]. destruct (after i (items l)) eqn:E; [|done].
  intros [= <-]. by eapply after_in.
Qed.

(** Two heaps with the same members represent the same lists. *)
Lemma Rep_index_ext h h' m :
  Rep h m →
  (∀ n, pxNext h' n = pxNext h n ∧ pxPrevious h' n = pxPrevious h n ∧ xItemValue h' n = xItemValue h n) →
  (∀ i, pvContainer h' i = pvContainer h i) →
  (∀ l, uxNumberOfItems h' l = uxNumberOfItems h l ∧ pxIndex h' l = pxIndex h l) → Rep h' m.
Proof.
  intros HR Hn Hc Hl. constructor.
  - intros l al Hm. destruct (R_each _ _ HR l al Hm) as [C N K Nu B I II E].
    constructor; try done.
    + eapply chain_frame; [exact C|intros; apply Hn..].
    + intros i Hi. rewrite Hc. by apply K.
    + by rewrite (proj1 (Hl l)).
    + by rewrite (proj2 (Hl l)).
    + by rewrite (proj2 (proj2 (Hn (End l)))).
  - intros i l. rewrite Hc. apply HR.
  - intros i. rewrite (proj2 (proj2 (Hn _))). apply HR.
Qed.

Lemma next_entry_ok h m l al :
  Rep h m → m !! l = Some al → items al ≠ [] →
  ∃ y, al_next_item al = Some y ∧
    wp (listGET_OWNER_OF_NEXT_ENTRY l) (λ r h', Rep h' (<[l := al_next al]> m) ∧
      r = pvOwner h y ∧ xItemValue h' = xItemValue h ∧ pvOwner h' = pvOwner h) h.
Proof.
  intros HR Hl Hne. pose proof (R_each _ _ HR l al Hl) as Hr. pose proof (next_node h l al Hr) as Hn.
  destruct Hr as [C N K Nu B I II E].
  assert (pxNext h (End l) = headn l (items al)) as Hhead by (by destruct (chain_split h l [] (items al) C)).
  assert (∃ y, al_next_item al = Some y) as [y Hy].
  { unfold al_next_item. destruct (items al) as [|z zs]; [done|].
    destruct (index al) as [i|]; [|by eexists]. by destruct (after i (z :: zs)); eexists. }
  exists y. split; [done|]. pose proof (al_next_item_in al y Hy) as Hyin.
  pose proof (set_index_Rep h m l al (Some y) HR Hl ltac:(by intros ? [= <-])) as HR'.
  unfold listGET_OWNER_OF_NEXT_ENTRY. apply wp_bind, wp_gets, wp_bind, wp_gets, wp_bind. unfold set_index at 1.
  apply wp_modify, wp_bind.
  assert (∀ h', pxIndex h' l = Item y → pvOwner h' = pvOwner h → xItemValue h' = xItemValue h →
    Rep h' (<[l := al_next al]> m) →
    wp (bind (gets (λ h, pxIndex h l)) owner) (λ r h', Rep h' (<[l := al_next al]> m) ∧
      r = pvOwner h y ∧ xItemValue h' = xItemValue h ∧ pvOwner h' = pvOwner h) h') as Hfin.
  { intros h' H1 H2 H3 H4. apply wp_bind, wp_gets. rewrite H1. simpl. apply wp_gets. by rewrite H2. }
  assert (al_next al = AList (items al) (Some y)) as Hnx by (unfold al_next; by rewrite Hy).
  rewrite Hnx in *. case_decide as Hend.
  - apply wp_bind, wp_gets. simpl. unfold set_index. apply wp_modify. rewrite Hend, Hhead.
    assert (headn l (items al) = Item y) as ->.
    { rewrite Hn in Hend. unfold al_next_item in Hy. destruct (index al) as [i|].
      - destruct (after i (items al)); [done|]. by destruct (items al); simplify_eq/=.
      - by destruct (items al). }
    apply Hfin; simpl; [by rewrite upd_eq|done|done|].
    eapply Rep_index_ext; [exact HR'|done|done|]. intros l'. simpl. unfold upd. by case_decide.
  - apply wp_ret. assert (pxNext h (pxIndex h l) = Item y) as Hny.
    { rewrite Hn in Hend |- *. unfold al_next_item in Hy. destruct (index al) as [i|].
      - destruct (after i (items al)) as [z|]; [by simplify_eq/=|done].
      - destruct (items al); simplify_eq/=; done. }
    rewrite Hny. apply Hfin; simpl; [by rewrite upd_eq|done|done|exact HR'].
Qed.
