(* ===== verification/RtosListTheorems.v ===== *)
(** * The kernel lists: programs over lists, ordering, round robin *)

From Stdlib Require Import ZArith Lia Sorted.
From S2P Require Import Prelude RtosList RtosListSpec.
Local Open Scope Z_scope.
Local Open Scope pim_scope.

(** ** Programs over any number of lists and items *)

(** listSET_LIST_ITEM_OWNER(). *)
Definition set_owner (i o : positive) : L unit :=
  modify (λ h, Heap (pxNext h) (pxPrevious h) (xItemValue h) (upd (pvOwner h) i o) (pvContainer h) (uxNumberOfItems h) (pxIndex h)).

Inductive lop :=
  | LInit (l : positive)
  | LInitItem (x : positive)
  | LSetValue (x : positive) (v : Z)
  | LSetOwner (x o : positive)
  | LInsertEnd (l x : positive)
  | LInsert (l x : positive)
  | LRemove (x : positive)
  | LNextOwner (l : positive)
  | LHeadOwner (l : positive)
  | LHeadValue (l : positive)
  | LLength (l : positive)
  | LIsEmpty (l : positive)
  | LIsContained (l x : positive).

Inductive lres := LUnit | LZ (z : Z) | LOwner (o : positive) | LBool (b : bool).

Definition run_lop (o : lop) : L lres :=
  match o with
  | LInit l => vListInitialise l;; ret LUnit
  | LInitItem x => vListInitialiseItem x;; ret LUnit
  | LSetValue x v => set_value (Item x) v;; ret LUnit
  | LSetOwner x o => set_owner x o;; ret LUnit
  | LInsertEnd l x => vListInsertEnd l x;; ret LUnit
  | LInsert l x => vListInsert l x;; ret LUnit
  | LRemove x => n ← uxListRemove x; ret (LZ n)
  | LNextOwner l => o ← listGET_OWNER_OF_NEXT_ENTRY l; ret (LOwner o)
  | LHeadOwner l => o ← listGET_OWNER_OF_HEAD_ENTRY l; ret (LOwner o)
  | LHeadValue l => v ← listGET_ITEM_VALUE_OF_HEAD_ENTRY l; ret (LZ v)
  | LLength l => n ← listCURRENT_LIST_LENGTH l; ret (LZ n)
  | LIsEmpty l => b ← listLIST_IS_EMPTY l; ret (LBool b)
  | LIsContained l x => b ← listIS_CONTAINED_WITHIN l x; ret (LBool b)
  end.

Fixpoint run_lops (os : list lop) : L (list lres) :=
  match os with
  | [] => ret []
  | o :: os => r ← run_lop o; rs ← run_lops os; ret (r :: rs)
  end.

(** *** The abstract machine

    Sequences with a walking index, the values and the owners of the items.
    [None] is a program the kernel must not write: an item put in two lists, a
    list used before it is initialised, the head of an empty list. *)

Record astate := AState {
  a_lists : gmap positive alist;
  a_value : positive → Z;
  a_owner : positive → positive
}.

(** The list an item is in. *)
Definition container (m : gmap positive alist) (x : positive) : option positive :=
  (λ p, p.2.1) <$> list_find (λ p : positive * alist, x ∈ items p.2) (map_to_list m).

Definition with_list (a : astate) (l : positive) (al : alist) : astate :=
  AState (<[l := al]> (a_lists a)) (a_value a) (a_owner a).

Definition guarded {A} (b : bool) (o : option A) : option A := if b then o else None.

Definition free_for (a : astate) (al : alist) (x : positive) : bool :=
  bool_decide (container (a_lists a) x = None) && (Z.of_nat (length (items al)) + 1 <? 2 ^ 32).

Definition spec_lop (o : lop) (a : astate) : option (lres * astate) :=
  match o with
  | LInit l => guarded (bool_decide (a_lists a !! l = None)) (Some (LUnit, with_list a l (AList [] None)))
  | LInitItem x => guarded (bool_decide (container (a_lists a) x = None)) (Some (LUnit, a))
  | LSetValue x v => guarded ((0 <=? v) && (v <=? portMAX_DELAY))
      (Some (LUnit, AState (a_lists a) (upd (a_value a) x v) (a_owner a)))
  | LSetOwner x o => Some (LUnit, AState (a_lists a) (a_value a) (upd (a_owner a) x o))
  | LInsertEnd l x => al ← a_lists a !! l; guarded (free_for a al x)
      (Some (LUnit, with_list a l (al_insert_end x al)))
  | LInsert l x => al ← a_lists a !! l; guarded (free_for a al x)
      (Some (LUnit, with_list a l (al_insert (a_value a) x al)))
  | LRemove x => l ← container (a_lists a) x; al ← a_lists a !! l;
      Some (LZ (Z.of_nat (length (items (al_remove x al)))), with_list a l (al_remove x al))
  | LNextOwner l => al ← a_lists a !! l; y ← al_next_item al;
      Some (LOwner (a_owner a y), with_list a l (al_next al))
  | LHeadOwner l => al ← a_lists a !! l; y ← head (items al); Some (LOwner (a_owner a y), a)
  | LHeadValue l => al ← a_lists a !! l;
      Some (LZ (match head (items al) with Some y => a_value a y | None => portMAX_DELAY end), a)
  | LLength l => al ← a_lists a !! l; Some (LZ (Z.of_nat (length (items al))), a)
  | LIsEmpty l => al ← a_lists a !! l; Some (LBool (bool_decide (items al = [])), a)
  | LIsContained l x => Some (LBool (bool_decide (container (a_lists a) x = Some l)), a)
  end%stdpp.

Fixpoint spec_lops (os : list lop) (a : astate) : option (list lres * astate) :=
  match os with
  | [] => Some ([], a)
  | o :: os => '(r, a) ← spec_lop o a; '(rs, a) ← spec_lops os a; Some (r :: rs, a)
  end%stdpp.

(** *** Refinement *)

Record AR (h : heap) (a : astate) : Prop := {
  ar_lists : Rep h (a_lists a);
  ar_value : ∀ i, xItemValue h (Item i) = a_value a i;
  ar_owner : ∀ i, pvOwner h i = a_owner a i
}.

Lemma container_ok h m x : Rep h m → container m x = pvContainer h x.
Proof.
  intros HR. unfold container. destruct (list_find _ _) as [[n [l al]]|] eqn:E; simpl.
  - apply list_find_Some in E as (Hin & Hx & _). apply list_elem_of_lookup_2, elem_of_map_to_list in Hin.
    symmetry. by apply (r_cont _ _ _ (R_each _ _ HR l al Hin)).
  - destruct (pvContainer h x) as [l|] eqn:Hc; [|done]. exfalso.
    destruct (R_back _ _ HR x l Hc) as (al & Hl & Hin). apply list_find_None in E.
    rewrite Forall_forall in E. apply (E (l, al)); [|done]. by apply elem_of_map_to_list.
Qed.

Lemma owner_head h m l al y :
  Rep h m → m !! l = Some al → head (items al) = Some y → pxNext h (End l) = Item y.
Proof.
  intros HR Hl Hy. destruct (chain_split h l [] (items al)) as [Hn _]; [by apply (R_each _ _ HR)|].
  destruct (items al); simplify_eq/=. exact Hn.
Qed.

Lemma head_value h m l al :
  Rep h m → m !! l = Some al →
  xItemValue h (pxNext h (End l)) = match head (items al) with Some y => xItemValue h (Item y) | None => portMAX_DELAY end.
Proof.
  intros HR Hl. destruct (R_each _ _ HR l al Hl) as [C _ _ _ _ _ _ E].
  destruct (chain_split h l [] (items al) C) as [Hn _]. change (lastn l []) with (End l) in Hn. rewrite Hn.
  by destruct (items al).
Qed.

Lemma set_value_ok h m x v :
  Rep h m → 0 <= v <= portMAX_DELAY →
  wp (set_value (Item x) v) (λ _ h', Rep h' m ∧ (∀ i, xItemValue h' (Item i) = upd (λ i, xItemValue h (Item i)) x v i) ∧
    pvOwner h' = pvOwner h) h.
Proof.
  intros HR Hv. apply wp_modify. simpl.
  assert (∀ i, upd (xItemValue h) (Item x) v (Item i) = upd (λ i, xItemValue h (Item i)) x v i) as Hu.
  { intros i. unfold upd. repeat case_decide; congruence. }
  split; [|done]. constructor; simpl.
  - intros l al Hl. destruct (R_each _ _ HR l al Hl) as [C N K Nu B I II E].
    constructor; simpl; try done. by eapply chain_frame.
  - apply HR.
  - intros i. rewrite Hu. unfold upd. case_decide; [done|]. apply HR.
Qed.

Lemma initItem_ok h m x :
  Rep h m → pvContainer h x = None →
  wp (vListInitialiseItem x) (λ _ h', Rep h' m ∧ xItemValue h' = xItemValue h ∧ pvOwner h' = pvOwner h) h.
Proof.
  intros HR Hx. apply wp_modify. simpl. split; [|done]. eapply Rep_index_ext; [exact HR|done| |done].
  intros i. simpl. unfold upd. case_decide; congruence.
Qed.

Lemma free_for_ok h a al x :
  Rep h (a_lists a) → free_for a al x = true →
  pvContainer h x = None ∧ Z.of_nat (length (items al)) + 1 < 2 ^ 32.
Proof.
  intros HR [Hc%bool_decide_eq_true Hb%Z.ltb_lt]%andb_prop. by rewrite <-(container_ok h _ x HR).
Qed.

Lemma guarded_Some {A} b (o : option A) r : guarded b o = Some r ↔ b = true ∧ o = Some r.
Proof. destruct b; simpl; naive_solver. Qed.

Lemma al_insert_ext v w x al : (∀ i, v i = w i) → al_insert v x al = al_insert w x al.
Proof. intros H. unfold al_insert. f_equal. by apply sorted_insert_ext. Qed.

(** One operation. *)
Lemma refines_lop h a o r a' :
  AR h a → spec_lop o a = Some (r, a') → wp (run_lop o) (λ r' h', r' = r ∧ AR h' a') h.
Proof.
  intros [HR Hv Ho] Hs.
  destruct o; simpl in Hs |- *; apply wp_bind;
    repeat match goal with
    | H : (_ ≫= _) = Some _ |- _ => apply bind_Some in H as (? & ? & ?)
    | H : guarded _ _ = Some _ |- _ => apply guarded_Some in H as [? ?]
    end; simplify_eq.
  - case_bool_decide; [|done]. eapply wp_mono; [by apply initialise_ok|].
    intros _ h' (HR' & Hv' & Ho'). apply wp_ret. split; [done|]. constructor; simpl; [done|..];
      intros i; rewrite ?Hv', ?Ho'; auto.
  - case_bool_decide as Hc; [|done]. eapply wp_mono; [apply initItem_ok; [done|by rewrite <-(container_ok h (a_lists a'))]|].
    intros _ h' (HR' & Hv' & Ho'). apply wp_ret. split; [done|]. constructor; [done|..];
      intros i; rewrite ?Hv', ?Ho'; auto.
  - eapply wp_mono; [apply set_value_ok; [done|lia]|].
    intros _ h' (HR' & Hv' & Ho'). apply wp_ret. split; [done|]. constructor; simpl; [done|..]; intros i.
    + rewrite Hv'. unfold upd. case_decide; auto.
    + rewrite Ho'; auto.
  - apply wp_modify, wp_ret. split; [done|]. constructor; simpl; [|done|].
    + by eapply Rep_index_ext.
    + intros i. unfold upd. case_decide; auto.
  - destruct (free_for_ok h a _ _ HR ltac:(eassumption)). eapply wp_mono; [by apply insertEnd_ok|].
    intros _ h' (HR' & Hv' & Ho'). apply wp_ret. split; [done|]. constructor; simpl; [done|..];
      intros i; rewrite ?Hv', ?Ho'; auto.
  - destruct (free_for_ok h a _ _ HR ltac:(eassumption)). eapply wp_mono; [by apply insert_ok|].
    intros _ h' (HR' & Hv' & Ho'). apply wp_ret. split; [done|]. constructor; simpl.
    + by rewrite <-(al_insert_ext _ _ _ _ Hv).
    + intros i. by rewrite Hv'.
    + intros i. by rewrite Ho'.
  - rename select (container _ _ = Some _) into Hc. rewrite (container_ok h _ x HR) in Hc.
    destruct (R_back _ _ HR _ _ Hc) as (al & Hl & Hin). simplify_eq.
    eapply wp_mono; [by apply uxListRemove_ok|]. intros n h' (HR' & -> & _ & Hv' & Ho'). apply wp_ret.
    split; [done|]. constructor; simpl; [done|..]; intros i; rewrite ?Hv', ?Ho'; auto.
  - rename select (a_lists a !! _ = Some _) into Hl. rename select (al_next_item _ = Some _) into Hy.
    destruct (next_entry_ok h _ _ _ HR Hl) as (y & Hy' & Hwp).
    { intros Hn. apply al_next_item_in in Hy. rewrite Hn in Hy. by apply not_elem_of_nil in Hy. }
    simplify_eq. eapply wp_mono; [exact Hwp|]. intros o h' (HR' & -> & Hv' & Ho'). apply wp_ret.
    split; [by rewrite Ho|]. constructor; simpl; [done|..]; intros i; rewrite ?Hv', ?Ho'; auto.
  - unfold listGET_OWNER_OF_HEAD_ENTRY. apply wp_bind, wp_gets. erewrite owner_head by done.
    apply wp_gets, wp_ret. split; [by rewrite Ho|done].
  - unfold listGET_ITEM_VALUE_OF_HEAD_ENTRY. apply wp_bind, wp_gets, wp_gets, wp_ret.
    erewrite head_value by done. split; [|done]. by case_match; rewrite ?Hv.
  - apply wp_gets, wp_ret. split; [|done]. f_equal. by erewrite r_number by by apply (R_each _ _ HR).
  - apply wp_gets, wp_ret. split; [|done]. f_equal. erewrite r_number by by apply (R_each _ _ HR).
    by destruct (items _).
  - apply wp_gets, wp_ret. split; [|done]. f_equal. by rewrite (container_ok h).
Qed.

Lemma refines_lops os h a a' rs :
  AR h a → spec_lops os a = Some (rs, a') → wp (run_lops os) (λ rs' h', rs' = rs ∧ AR h' a') h.
Proof.
  revert h a rs. induction os as [|o os IH]; intros h a rs HR; simpl.
  - intros [= <- <-]. by apply wp_ret.
  - destruct (spec_lop o a) as [[r a1]|] eqn:E; [|done]. simpl. intros Hs.
    destruct (spec_lops os a1) as [[rs1 a2]|] eqn:E2; simplify_eq/=.
    apply wp_bind. eapply wp_mono; [by apply (refines_lop h a o r a1)|]. intros ? h1 [-> HR1].
    apply wp_bind. eapply wp_mono; [by apply (IH h1 a1 rs1)|]. intros ? h2 [-> HR2]. by apply wp_ret.
Qed.

(** Any program of list operations that the abstract machine of sequences
    accepts runs to completion on the linked structures, with the same results,
    and the structures represent the abstract lists afterwards. *)
Theorem rtos_list_program_refines (os : list lop) (h : heap) (a a' : astate) (rs : list lres) :
  AR h a → spec_lops os a = Some (rs, a') →
  ∃ h', run_lops os h = Some (rs, h') ∧ AR h' a'.
Proof.
  intros HR Hs. pose proof (refines_lops os h a a' rs HR Hs) as Hwp.
  apply wp_run in Hwp as (? & h' & Hrun & -> & HR'). eauto.
Qed.

(** ** vListInsert() keeps lists sorted *)

Lemma sorted_insert_stable (v : positive → Z) x zs :
  StronglySorted (λ a b, v a <= v b) zs →
  ∃ xs ys, zs = xs ++ ys ∧ sorted_insert v x zs = xs ++ x :: ys ∧
    Forall (λ y, v y <= v x) xs ∧ Forall (λ y, v x < v y) ys ∧
    StronglySorted (λ a b, v a <= v b) (xs ++ x :: ys).
Proof.
  induction 1 as [|z zs Hs (xs & ys & -> & Heq & Hle & Hlt & Hsort) Hall].
  - exists [], []. simpl. split_and!; auto. by repeat constructor.
  - simpl. destruct (Z.leb_spec (v z) (v x)).
    + exists (z :: xs), ys. simpl. rewrite Heq. split_and!; auto. constructor; [done|].
      rewrite Forall_app in Hall |- *. destruct Hall. split; [done|]. by constructor.
    + exists [], (z :: xs ++ ys). simpl. split_and!; auto.
      * constructor; [done|]. eapply Forall_impl; [exact Hall|]. simpl. lia.
      * constructor; [by constructor|]. constructor; [lia|]. eapply Forall_impl; [exact Hall|]. simpl. lia.
Qed.

(** Inserting an item in a list sorted by value keeps it sorted: the item
    goes after every item of smaller or equal value (first in, first out among
    equals) and before every item of larger value, also for the value
    portMAX_DELAY, which is not searched for; the walking index does not move. *)
Theorem vListInsert_stable (h : heap) (m : gmap positive alist) (l x : positive) (al : alist) :
  Rep h m → m !! l = Some al → pvContainer h x = None → Z.of_nat (length (items al)) + 1 < 2 ^ 32 →
  StronglySorted (λ a b, val h a <= val h b) (items al) →
  wp (vListInsert l x) (λ _ h', ∃ xs ys,
    items al = xs ++ ys ∧ Rep h' (<[l := AList (xs ++ x :: ys) (index al)]> m) ∧
    Forall (λ y, val h' y <= val h' x) xs ∧ Forall (λ y, val h' x < val h' y) ys ∧
    StronglySorted (λ a b, val h' a <= val h' b) (xs ++ x :: ys)) h.
Proof.
  intros HR Hl Hx Hb Hs. eapply wp_mono; [by apply insert_ok|]. intros _ h' (HR' & Hv & _).
  destruct (sorted_insert_stable (val h) x (items al) Hs) as (xs & ys & Hi & Heq & H1 & H2 & H3).
  simpl in Heq. exists xs, ys. unfold al_insert in HR'. rewrite Heq in HR'. split_and!; [done..| | |].
  - eapply Forall_impl; [exact H1|]. intros y. by rewrite !Hv.
  - eapply Forall_impl; [exact H2|]. intros y. by rewrite !Hv.
  - clear -H3 Hv. induction H3 as [|z zs ? IH Hf]; constructor; [done|].
    eapply Forall_impl; [exact Hf|]. intros y. by rewrite !Hv.
Qed.

(** ** Round robin *)

(** [n] calls of listGET_OWNER_OF_NEXT_ENTRY(). *)
Fixpoint next_owners (n : nat) (l : positive) : L (list positive) :=
  match n with
  | O => ret []
  | S n => o ← listGET_OWNER_OF_NEXT_ENTRY l; os ← next_owners n l; ret (o :: os)
  end.

Lemma next_owners_app n1 n2 l h xs ys h1 h2 :
  next_owners n1 l h = Some (xs, h1) → next_owners n2 l h1 = Some (ys, h2) →
  next_owners (n1 + n2) l h = Some (xs ++ ys, h2).
Proof.
  revert h xs. induction n1 as [|n1 IH]; intros h xs; simpl.
  - by intros [= <- <-].
  - unfold bind. destruct (listGET_OWNER_OF_NEXT_ENTRY l h) as [[o h']|]; [|done].
    destruct (next_owners n1 l h') as [[os h'']|] eqn:E; [|done]. intros [= <- <-] H2.
    by rewrite (IH h' os E H2).
Qed.

Lemma next_one h m l al y :
  Rep h m → m !! l = Some al → al_next_item al = Some y →
  ∃ h', listGET_OWNER_OF_NEXT_ENTRY l h = Some (pvOwner h y, h') ∧
    Rep h' (<[l := AList (items al) (Some y)]> m) ∧ pvOwner h' = pvOwner h.
Proof.
  intros HR Hl Hy. destruct (next_entry_ok h m l al HR Hl) as (y' & Hy' & Hwp).
  { intros Hn. apply al_next_item_in in Hy. rewrite Hn in Hy. by apply not_elem_of_nil in Hy. }
  simplify_eq. apply wp_run in Hwp as (o & h' & Hrun & HR' & -> & _ & Ho). exists h'.
  unfold al_next in HR'. by rewrite Hy in HR'.
Qed.

(** Walking from one item towards the end of the list. *)
Lemma walk h m l pre c zs post :
  Rep h m → m !! l = Some (AList (pre ++ c :: zs ++ post) (Some c)) →
  ∃ h' d, next_owners (length zs) l h = Some (pvOwner h <$> zs, h') ∧ last (c :: zs) = Some d ∧
    Rep h' (<[l := AList (pre ++ c :: zs ++ post) (Some d)]> m) ∧ pvOwner h' = pvOwner h.
Proof.
  revert h m pre c. induction zs as [|z zs IH]; intros h m pre c HR Hl; simpl.
  - exists h, c. split_and!; [done..| |done]. by rewrite insert_id.
  - destruct (next_one h m l _ z HR Hl) as (h1 & Hrun & HR1 & Ho1).
    { unfold al_next_item. simpl. rewrite after_middle; [done|].
      pose proof (r_nodup _ _ _ (R_each _ _ HR l _ Hl)) as N. simpl in N.
      apply NoDup_app in N as (_ & Hd & _). intros Hc. eapply Hd; [done|by left]. }
    simpl in HR1. rewrite cons_middle, app_assoc in HR1.
    destruct (IH h1 _ (pre ++ [c]) z HR1 (lookup_insert_eq _ _ _)) as (h2 & d & Hrun2 & Hd & HR2 & Ho2).
    exists h2, d. unfold bind. rewrite Hrun, Hrun2. simpl. rewrite Ho1.
    rewrite insert_insert_eq, <-app_assoc in HR2. split_and!; [done..|congruence].
Qed.

Lemma insert_end_current x xs c ys :
  c ∉ xs → al_insert_end x (AList (xs ++ c :: ys) (Some c)) = AList ((xs ++ [x]) ++ c :: ys) (Some c).
Proof. intros Hc. unfold al_insert_end. simpl. rewrite insert_at_split by done. by rewrite <-app_assoc. Qed.

(** From the current item, as many steps as the list is long visit every item
    once, in ring order, and end at the current item again. *)
Lemma full_turn h m l xs c ys :
  Rep h m → m !! l = Some (AList (xs ++ c :: ys) (Some c)) →
  ∃ h', next_owners (length ys + length (xs ++ [c])) l h = Some (pvOwner h <$> ys ++ xs ++ [c], h') ∧
    Rep h' m ∧ pvOwner h' = pvOwner h.
Proof.
  intros HR Hl. pose proof (walk h m l xs c ys []) as Hw. rewrite app_nil_r in Hw.
  destruct (Hw HR Hl) as (h1 & d & Hrun & Hd & HR1 & Ho1). clear Hw.
  destruct (xs ++ [c]) as [|f fs] eqn:Ef; [by destruct xs|].
  assert (xs ++ c :: ys = [] ++ f :: fs ++ ys) as Hring.
  { simpl. change (f :: fs ++ ys) with ((f :: fs) ++ ys). by rewrite <-Ef, <-app_assoc. }
  pose proof (r_nodup _ _ _ (R_each _ _ HR l _ Hl)) as N. simpl in N.
  assert (al_next_item (AList (xs ++ c :: ys) (Some d)) = Some f) as Hnext.
  { unfold al_next_item. cbn [index items].
    destruct (c :: ys) as [|e es _] using rev_ind; [done|]. rewrite last_snoc in Hd. injection Hd as ->.
    rewrite app_assoc, after_middle; [|rewrite app_assoc in N; by apply NoDup_snoc in N as [? _]].
    simpl. rewrite <-app_assoc, Hring. done. }
  destruct (next_one h1 _ l _ f HR1 (lookup_insert_eq _ _ _) Hnext) as (h2 & Hrun2 & HR2 & Ho2).
  rewrite insert_insert_eq in HR2. cbn [items] in HR2. rewrite Hring in HR2.
  destruct (walk h2 _ l [] f fs ys HR2 (lookup_insert_eq _ _ _)) as (h3 & d' & Hrun3 & Hd' & HR3 & Ho3).
  rewrite <-Ef, last_snoc in Hd'. injection Hd' as <-.
  rewrite insert_insert_eq, <-Hring, insert_id in HR3 by done. exists h3. split_and!; [|done|congruence].
  erewrite next_owners_app; [by rewrite fmap_app|exact Hrun|].
  simpl. unfold bind. rewrite Hrun2, Hrun3. simpl. by rewrite Ho2, Ho1.
Qed.

(** Round robin.  vListInsertEnd() puts a new item where it is reached
    last: when the walking index is at [c], the calls of
    listGET_OWNER_OF_NEXT_ENTRY() that follow visit every other item that was
    in the list exactly once, in ring order, then the new one, then [c]. *)
Theorem insert_end_round_robin (h : heap) (m : gmap positive alist) (l x c : positive) (xs ys : list positive) :
  Rep h m → m !! l = Some (AList (xs ++ c :: ys) (Some c)) → pvContainer h x = None →
  Z.of_nat (length (xs ++ c :: ys)) + 1 < 2 ^ 32 →
  wp (vListInsertEnd l x;; next_owners (length (xs ++ c :: ys) + 1) l)
    (λ os h', os = pvOwner h <$> ys ++ xs ++ [x; c] ∧
      Rep h' (<[l := AList (xs ++ x :: c :: ys) (Some c)]> m)) h.
Proof.
  intros HR Hl Hx Hb. apply wp_bind. eapply wp_mono; [by apply insertEnd_ok|].
  intros _ h1 (HR1 & _ & Ho). pose proof (r_nodup _ _ _ (R_each _ _ HR l _ Hl)) as N. simpl in N.
  rewrite insert_end_current in HR1.
  2:{ apply NoDup_app in N as (_ & Hd & _). intros Hc. eapply Hd; [done|by left]. }
  destruct (full_turn h1 _ l _ c ys HR1 (lookup_insert_eq _ _ _)) as (h2 & Hrun & HR2 & _).
  eapply wp_exact.
  - replace (length (xs ++ c :: ys) + 1)%nat with (length ys + length ((xs ++ [x]) ++ [c]))%nat; [exact Hrun|].
    rewrite !length_app. simpl. lia.
  - rewrite Ho. rewrite <-!app_assoc in *. done.
Qed.

(** ** Examples *)

(** Memory before any list is initialised. *)
Definition heap0 : heap :=
  Heap (λ _, End 1) (λ _, End 1) (λ _, 0) (λ i, i) (λ _, None) (λ _, 0) (λ _, End 1).
Definition astate0 : astate := AState ∅ (λ _, 0) (λ i, i).

Lemma AR_heap0 : AR heap0 astate0.
Proof. constructor; [|done..]. constructor; [|done|done]. intros l al Hl. simpl in Hl. by rewrite lookup_empty in Hl. Qed.

(** A delayed list with wake times 5, 9, 9 and a ready list walked to its second item. *)
Definition setup : list lop :=
  [LInit 1; LInit 2; LSetValue 10 9; LSetValue 11 5; LSetValue 12 9; LSetValue 13 9;
   LInsert 1 10; LInsert 1 11; LInsert 1 12;
   LInsertEnd 2 20; LInsertEnd 2 21; LInsertEnd 2 22; LNextOwner 2; LNextOwner 2].

Definition lists1 : gmap positive alist :=
  <[2%positive := AList [20; 21; 22]%positive (Some 21%positive)]>
  (<[1%positive := AList [11; 10; 12]%positive None]> ∅).

Lemma setup_ok :
  wp (run_lops setup) (λ _ h, Rep h lists1 ∧ (∀ x, val h x = upd (upd (upd (upd (λ _, 0) 10%positive 9) 11%positive 5) 12%positive 9) 13%positive 9 x)) heap0.
Proof.
  eapply wp_mono; [eapply refines_lops; [apply AR_heap0|vm_compute; reflexivity]|].
  intros ? h [_ [HR Hv _]]. split; [exact HR|]. intros x. by rewrite Hv.
Qed.

Lemma rtos_list_program_refines_witness :
  ∃ h' a', run_lops (setup ++ [LInsert 1 13; LRemove 10; LHeadOwner 1; LHeadValue 1; LIsContained 1 10;
                     LInsertEnd 2 10; LNextOwner 2; LNextOwner 2; LNextOwner 2; LLength 2]) heap0
    = Some (replicate 12 LUnit ++ [LOwner 20; LOwner 21; LUnit; LZ 3; LOwner 11; LZ 5; LBool false;
            LUnit; LOwner 22; LOwner 20; LOwner 10; LZ 4], h') ∧ AR h' a'.
Proof.
  edestruct (rtos_list_program_refines (setup ++ [LInsert 1 13; LRemove 10; LHeadOwner 1; LHeadValue 1; LIsContained 1 10;
                     LInsertEnd 2 10; LNextOwner 2; LNextOwner 2; LNextOwner 2; LLength 2])) as (h' & Hrun & HR);
    [apply AR_heap0|vm_compute; reflexivity|].
  exists h'. eexists. split; [exact Hrun|exact HR].
Defined.

(** Item 13, of value 9, goes behind the items 10 and 12 of the same value. *)
Lemma vListInsert_stable_witness :
  wp (run_lops setup) (λ _ h, wp (vListInsert 1 13) (λ _ h', ∃ xs ys,
    [11; 10; 12]%positive = xs ++ ys ∧ Rep h' (<[1%positive := AList (xs ++ 13%positive :: ys) None]> lists1) ∧
    Forall (λ y, val h' y <= val h' 13%positive) xs ∧ Forall (λ y, val h' 13%positive < val h' y) ys ∧
    StronglySorted (λ a b, val h' a <= val h' b) (xs ++ 13%positive :: ys)) h) heap0.
Proof.
  eapply wp_mono; [apply setup_ok|]. intros _ h [HR Hv].
  apply (vListInsert_stable h lists1 1 13 (AList [11; 10; 12]%positive None)); [done|done| |done|].
  - rewrite <-(container_ok h lists1 13 HR). reflexivity.
  - repeat constructor; rewrite !Hv; vm_compute; discriminate.
Defined.

Lemma insert_end_round_robin_witness :
  wp (run_lops setup) (λ _ h, wp (vListInsertEnd 2 30;; next_owners 4 2)
    (λ os h', os = pvOwner h <$> [22; 20; 30; 21]%positive ∧
      Rep h' (<[2%positive := AList [20; 30; 21; 22]%positive (Some 21%positive)]> lists1)) h) heap0.
Proof.
  eapply wp_mono; [apply setup_ok|]. intros _ h [HR _].
  apply (insert_end_round_robin h lists1 2 30 21 [20%positive] [22%positive]); [done|done| |done].
  rewrite <-(container_ok h lists1 30 HR). reflexivity.
Defined.
