(* ===== verification/RtosKernel.v ===== *)
(** * The RTOS kernel: tasks and the scheduler

    Models tasks.c of the FreeRTOS kernel under
    src/src/Bsp/Adafruit/grand_central_m4/gcc/FreeRTOS/Source, in the
    configuration of the Storm thermostat's FreeRTOSConfig.h: preemption and time
    slicing, five priorities, mutexes, vTaskSuspend(), vTaskDelete(), task
    notifications, generic task selection, no tickless idle, no static
    allocation, 32-bit ticks.

    The lists of the kernel are the abstract lists of RtosList.v, which list.c
    implements (RtosListTheorems.v).  Every list holds the items of one kind, so
    a list is a list of tasks and an item is a member of a task control block.

    A function is one transition of the kernel state: the source runs it in a
    critical section, in an interrupt, or with the scheduler suspended.  A yield
    ([portYIELD], the PendSV interrupt) is a request; the context switch it asks
    for, vTaskSwitchContext(), is a transition of its own. *)

From Stdlib Require Import ZArith Lia.
From S2P Require Import Prelude RtosList.
Local Open Scope Z_scope.
Local Open Scope pim_scope.

Definition configMAX_PRIORITIES : Z := 5.
Definition tskIDLE_PRIORITY : Z := 0.
Definition taskEVENT_LIST_ITEM_VALUE_IN_USE : Z := 0x80000000.
Definition taskNOT_WAITING_NOTIFICATION : Z := 0.
Definition taskWAITING_NOTIFICATION : Z := 1.
Definition taskNOTIFICATION_RECEIVED : Z := 2.

(** The lists of tasks.c, and the event lists of queues and event groups. *)
Inductive listid :=
  | pxReadyTasksLists (uxPriority : Z)
  | xDelayedTaskList1
  | xDelayedTaskList2
  | xPendingReadyList
  | xTasksWaitingTermination
  | xSuspendedTaskList
  | xTasksWaitingToSend (q : positive)
  | xTasksWaitingToReceive (q : positive)
  | xTasksWaitingForBits (g : positive).

#[global] Instance listid_eq_dec : EqDecision listid.
Proof. solve_decision. Defined.

Abbreviation task := positive (only parsing).

Record ListItem_t := ListItem { xItemValue : Z; pvContainer : option listid }.

Record TCB_t := TCB {
  xStateListItem : ListItem_t;
  xEventListItem : ListItem_t;
  uxPriority : Z;
  uxBasePriority : Z;
  uxMutexesHeld : Z;
  ulNotifiedValue : Z;
  ucNotifyState : Z
}.

(** The integer variables of tasks.c; [pendSV] is the pending bit of the PendSV
    interrupt, which portYIELD() sets. *)
Inductive var :=
  | xTickCount | uxTopReadyPriority | xSchedulerRunning | uxPendedTicks | xYieldPending
  | xNumOfOverflows | uxTaskNumber | xNextTaskUnblockTime | uxSchedulerSuspended
  | uxCurrentNumberOfTasks | uxDeletedTasksWaitingCleanUp | pendSV.

#[global] Instance var_eq_dec : EqDecision var.
Proof. solve_decision. Defined.

Record kernel := Kernel {
  tasks : gmap task TCB_t;
  lists : listid → alist;
  vars : var → Z;
  pxCurrentTCB : option task;
  pxDelayedTaskList : listid;
  pxOverflowDelayedTaskList : listid
}.

Abbreviation K := (ST kernel).

(** ** Access to the state *)

Definition rd (x : var) : K Z := gets (λ s, vars s x).

Definition wr (x : var) (v : Z) : K unit :=
  modify (λ s, Kernel (tasks s) (lists s) (upd (vars s) x v) (pxCurrentTCB s) (pxDelayedTaskList s) (pxOverflowDelayedTaskList s)).

Definition set_current (t : option task) : K unit :=
  modify (λ s, Kernel (tasks s) (lists s) (vars s) t (pxDelayedTaskList s) (pxOverflowDelayedTaskList s)).

Definition set_delayed (d o : listid) : K unit :=
  modify (λ s, Kernel (tasks s) (lists s) (vars s) (pxCurrentTCB s) d o).

Definition tcb (t : task) : K TCB_t := o ← gets (λ s, tasks s !! t); lift_opt o.

Definition put_tcb (t : task) (c : TCB_t) : K unit :=
  modify (λ s, Kernel (<[t := c]> (tasks s)) (lists s) (vars s) (pxCurrentTCB s) (pxDelayedTaskList s) (pxOverflowDelayedTaskList s)).

Definition put_list (l : listid) (al : alist) : K unit :=
  modify (λ s, Kernel (tasks s) (upd (lists s) l al) (vars s) (pxCurrentTCB s) (pxDelayedTaskList s) (pxOverflowDelayedTaskList s)).

(** A dereference of pxCurrentTCB. *)
Definition current : K task := o ← gets pxCurrentTCB; lift_opt o.

(** The two list items of a task. *)
Inductive kind := StateItem | EventItem.

Definition item (k : kind) (c : TCB_t) : ListItem_t :=
  match k with StateItem => xStateListItem c | EventItem => xEventListItem c end.

Definition set_item (k : kind) (i : ListItem_t) (c : TCB_t) : TCB_t :=
  match k with
  | StateItem => TCB i (xEventListItem c) (uxPriority c) (uxBasePriority c) (uxMutexesHeld c) (ulNotifiedValue c) (ucNotifyState c)
  | EventItem => TCB (xStateListItem c) i (uxPriority c) (uxBasePriority c) (uxMutexesHeld c) (ulNotifiedValue c) (ucNotifyState c)
  end.

Definition with_priority (p : Z) (c : TCB_t) : TCB_t :=
  TCB (xStateListItem c) (xEventListItem c) p (uxBasePriority c) (uxMutexesHeld c) (ulNotifiedValue c) (ucNotifyState c).
Definition with_base (p : Z) (c : TCB_t) : TCB_t :=
  TCB (xStateListItem c) (xEventListItem c) (uxPriority c) p (uxMutexesHeld c) (ulNotifiedValue c) (ucNotifyState c).
Definition with_mutexes (n : Z) (c : TCB_t) : TCB_t :=
  TCB (xStateListItem c) (xEventListItem c) (uxPriority c) (uxBasePriority c) n (ulNotifiedValue c) (ucNotifyState c).
Definition with_notified (n : Z) (c : TCB_t) : TCB_t :=
  TCB (xStateListItem c) (xEventListItem c) (uxPriority c) (uxBasePriority c) (uxMutexesHeld c) n (ucNotifyState c).
Definition with_notify (n : Z) (c : TCB_t) : TCB_t :=
  TCB (xStateListItem c) (xEventListItem c) (uxPriority c) (uxBasePriority c) (uxMutexesHeld c) (ulNotifiedValue c) n.

(** ** Lists *)

Definition values (k : kind) (s : kernel) (t : task) : Z :=
  match tasks s !! t with Some c => xItemValue (item k c) | None => 0 end.

Definition list_of (l : listid) : K alist := gets (λ s, lists s l).

Definition is_empty (l : listid) : K bool := gets (λ s, bool_decide (items (lists s l) = [])).

Definition list_length (l : listid) : K Z := gets (λ s, Z.of_nat (length (items (lists s l)))).

(** listGET_OWNER_OF_HEAD_ENTRY(), on a list that is not empty. *)
Definition head_owner (l : listid) : K task := al ← list_of l; lift_opt (head (items al)).

(** listSET_LIST_ITEM_VALUE(). *)
Definition set_value (k : kind) (t : task) (v : Z) : K unit :=
  c ← tcb t; put_tcb t (set_item k (ListItem v (pvContainer (item k c))) c).

Definition set_container (k : kind) (t : task) (l : option listid) : K unit :=
  c ← tcb t; put_tcb t (set_item k (ListItem (xItemValue (item k c)) l) c).

(** vListInsertEnd(), vListInsert() and uxListRemove() on the item of a task. *)
Definition listInsertEnd (k : kind) (l : listid) (t : task) : K unit :=
  al ← list_of l; put_list l (al_insert_end t al);; set_container k t (Some l).

Definition listInsert (k : kind) (l : listid) (t : task) : K unit :=
  al ← list_of l; v ← gets (values k); put_list l (al_insert v t al);; set_container k t (Some l).

Definition listRemove (k : kind) (t : task) : K Z :=
  c ← tcb t;
  l ← lift_opt (pvContainer (item k c));
  al ← list_of l;
  put_list l (al_remove t al);;
  set_container k t None;;
  list_length l.

(** ** The ready lists *)

Definition portYIELD : K unit := wr pendSV 1.

Definition taskRECORD_READY_PRIORITY (p : Z) : K unit :=
  top ← rd uxTopReadyPriority;
  if top <? p then wr uxTopReadyPriority p else ret tt.

Definition prvAddTaskToReadyList (t : task) : K unit :=
  c ← tcb t;
  taskRECORD_READY_PRIORITY (uxPriority c);;
  listInsertEnd StateItem (pxReadyTasksLists (uxPriority c)) t.

(** The while loop of taskSELECT_HIGHEST_PRIORITY_TASK(). *)
Fixpoint select_loop (fuel : nat) (uxTopPriority : Z) : K Z :=
  e ← is_empty (pxReadyTasksLists uxTopPriority);
  if e then
    assert_ (negb (uxTopPriority =? 0));;
    match fuel with
    | O => undefined
    | S fuel => select_loop fuel (uxTopPriority - 1)
    end
  else ret uxTopPriority.

Definition taskSELECT_HIGHEST_PRIORITY_TASK : K unit :=
  top ← rd uxTopReadyPriority;
  uxTopPriority ← select_loop (Z.to_nat top) top;
  al ← list_of (pxReadyTasksLists uxTopPriority);
  put_list (pxReadyTasksLists uxTopPriority) (al_next al);;
  t ← lift_opt (al_next_item al);
  set_current (Some t);;
  wr uxTopReadyPriority uxTopPriority.

Definition vTaskSwitchContext : K unit :=
  suspended ← rd uxSchedulerSuspended;
  if negb (suspended =? 0) then wr xYieldPending 1
  else wr xYieldPending 0;; taskSELECT_HIGHEST_PRIORITY_TASK.

(** prvGetTCBFromHandle(): NULL is the running task. *)
Definition prvGetTCBFromHandle (xHandle : option task) : K task :=
  match xHandle with None => current | Some t => ret t end.

Definition prvInitialiseTaskLists : K unit :=
  modify (λ s, Kernel (tasks s)
    (λ l, match l with
          | pxReadyTasksLists p =>
              if bool_decide (0 <= p < configMAX_PRIORITIES) then AList [] None else lists s l
          | xTasksWaitingToSend _ | xTasksWaitingToReceive _ | xTasksWaitingForBits _ => lists s l
          | _ => AList [] None
          end)
    (vars s) (pxCurrentTCB s) xDelayedTaskList1 xDelayedTaskList2).

(** The scheduling members that prvInitialiseNewTask() sets. *)
Definition prvInitialiseNewTask (p : Z) : TCB_t :=
  let p := if configMAX_PRIORITIES <=? p then configMAX_PRIORITIES - 1 else p in
  TCB (ListItem 0 None) (ListItem (u32 (configMAX_PRIORITIES - p)) None) p p 0 0 taskNOT_WAITING_NOTIFICATION.

Definition prvAddNewTaskToReadyList (pxNewTCB : task) : K unit :=
  n ← rd uxCurrentNumberOfTasks;
  wr uxCurrentNumberOfTasks (u32 (n + 1));;
  cur ← gets pxCurrentTCB;
  new ← tcb pxNewTCB;
  running ← rd xSchedulerRunning;
  match cur with
  | None =>
      set_current (Some pxNewTCB);;
      n ← rd uxCurrentNumberOfTasks;
      if n =? 1 then prvInitialiseTaskLists else ret tt
  | Some cur =>
      if running =? 0 then
        c ← tcb cur;
        if uxPriority c <=? uxPriority new then set_current (Some pxNewTCB) else ret tt
      else ret tt
  end;;
  n ← rd uxTaskNumber;
  wr uxTaskNumber (u32 (n + 1));;
  prvAddTaskToReadyList pxNewTCB;;
  if negb (running =? 0) then
    cur ← current;
    c ← tcb cur;
    if uxPriority c <? uxPriority new then portYIELD else ret tt
  else ret tt.

(** xTaskCreate(), from the allocated TCB on. *)
Definition xTaskCreate (t : task) (p : Z) : K unit :=
  put_tcb t (prvInitialiseNewTask p);; prvAddNewTaskToReadyList t.

(** vTaskStartScheduler(), up to the start of the first task: the idle task is
    created and the clock is set. *)
Definition vTaskStartScheduler (idle : task) : K unit :=
  xTaskCreate idle tskIDLE_PRIORITY;;
  wr xNextTaskUnblockTime portMAX_DELAY;;
  wr xSchedulerRunning 1;;
  wr xTickCount 0.

(** ** Delays and the tick *)

Definition prvResetNextTaskUnblockTime : K unit :=
  d ← gets pxDelayedTaskList;
  e ← is_empty d;
  if e then wr xNextTaskUnblockTime portMAX_DELAY
  else
    t ← head_owner d;
    c ← tcb t;
    wr xNextTaskUnblockTime (xItemValue (xStateListItem c)).

Definition taskSWITCH_DELAYED_LISTS : K unit :=
  d ← gets pxDelayedTaskList;
  o ← gets pxOverflowDelayedTaskList;
  e ← is_empty d;
  assert_ e;;
  set_delayed o d;;
  n ← rd xNumOfOverflows;
  wr xNumOfOverflows (n + 1);;
  prvResetNextTaskUnblockTime.

Definition prvAddCurrentTaskToDelayedList (xTicksToWait : Z) (xCanBlockIndefinitely : bool) : K unit :=
  xConstTickCount ← rd xTickCount;
  t ← current;
  _ ← listRemove StateItem t;
  if (xTicksToWait =? portMAX_DELAY) && xCanBlockIndefinitely then
    listInsertEnd StateItem xSuspendedTaskList t
  else
    let xTimeToWake := u32 (xConstTickCount + xTicksToWait) in
    set_value StateItem t xTimeToWake;;
    if xTimeToWake <? xConstTickCount then
      o ← gets pxOverflowDelayedTaskList;
      listInsert StateItem o t
    else
      d ← gets pxDelayedTaskList;
      listInsert StateItem d t;;
      next ← rd xNextTaskUnblockTime;
      if xTimeToWake <? next then wr xNextTaskUnblockTime xTimeToWake else ret tt.

(** Removes the event item of a task if it is in a list. *)
Definition remove_event_item (t : task) : K unit :=
  c ← tcb t;
  match pvContainer (xEventListItem c) with
  | Some _ => _ ← listRemove EventItem t; ret tt
  | None => ret tt
  end.

(** The for loop of xTaskIncrementTick(): unblocks the tasks whose time has
    come and returns xSwitchRequired. *)
Fixpoint unblock_loop (fuel : nat) (xConstTickCount : Z) (xSwitchRequired : bool) : K bool :=
  d ← gets pxDelayedTaskList;
  e ← is_empty d;
  if e then wr xNextTaskUnblockTime portMAX_DELAY;; ret xSwitchRequired
  else
    t ← head_owner d;
    c ← tcb t;
    let xItemValue := xItemValue (xStateListItem c) in
    if xConstTickCount <? xItemValue then
      wr xNextTaskUnblockTime xItemValue;; ret xSwitchRequired
    else
      match fuel with
      | O => undefined
      | S fuel =>
          _ ← listRemove StateItem t;
          remove_event_item t;;
          prvAddTaskToReadyList t;;
          cur ← current;
          c ← tcb t;
          cc ← tcb cur;
          unblock_loop fuel xConstTickCount (xSwitchRequired || (uxPriority cc <=? uxPriority c))
      end.

Definition xTaskIncrementTick : K bool :=
  suspended ← rd uxSchedulerSuspended;
  xSwitchRequired ←
    (if suspended =? 0 then
       tick ← rd xTickCount;
       let xConstTickCount := u32 (tick + 1) in
       wr xTickCount xConstTickCount;;
       (if xConstTickCount =? 0 then taskSWITCH_DELAYED_LISTS else ret tt);;
       next ← rd xNextTaskUnblockTime;
       xSwitchRequired ←
         (if next <=? xConstTickCount then
            d ← gets pxDelayedTaskList;
            al ← list_of d;
            unblock_loop (length (items al)) xConstTickCount false
          else ret false);
       cur ← current;
       c ← tcb cur;
       n ← list_length (pxReadyTasksLists (uxPriority c));
       ret (xSwitchRequired || (1 <? n))
     else
       p ← rd uxPendedTicks;
       wr uxPendedTicks (u32 (p + 1));;
       ret false);
  y ← rd xYieldPending;
  ret (xSwitchRequired || negb (y =? 0)).

Definition vTaskSuspendAll : K unit :=
  n ← rd uxSchedulerSuspended;
  wr uxSchedulerSuspended (u32 (n + 1)).

(** The while loop of xTaskResumeAll(); returns whether pxTCB is not NULL. *)
Fixpoint pending_loop (fuel : nat) (found : bool) : K bool :=
  e ← is_empty xPendingReadyList;
  if e then ret found
  else
    match fuel with
    | O => undefined
    | S fuel =>
        t ← head_owner xPendingReadyList;
        _ ← listRemove EventItem t;
        _ ← listRemove StateItem t;
        prvAddTaskToReadyList t;;
        cur ← current;
        c ← tcb t;
        cc ← tcb cur;
        (if uxPriority cc <=? uxPriority c then wr xYieldPending 1 else ret tt);;
        pending_loop fuel true
    end.

(** The do loop of xTaskResumeAll() over the ticks that were held back. *)
Fixpoint pended_ticks (n : nat) : K unit :=
  match n with
  | O => ret tt
  | S n =>
      b ← xTaskIncrementTick;
      (if b then wr xYieldPending 1 else ret tt);;
      pended_ticks n
  end.

Definition xTaskResumeAll : K bool :=
  n ← rd uxSchedulerSuspended;
  assert_ (negb (n =? 0));;
  wr uxSchedulerSuspended (n - 1);;
  if n - 1 =? 0 then
    num ← rd uxCurrentNumberOfTasks;
    if 0 <? num then
      al ← list_of xPendingReadyList;
      found ← pending_loop (length (items al)) false;
      (if found then prvResetNextTaskUnblockTime else ret tt);;
      uxPendedCounts ← rd uxPendedTicks;
      (if 0 <? uxPendedCounts then pended_ticks (Z.to_nat uxPendedCounts);; wr uxPendedTicks 0 else ret tt);;
      y ← rd xYieldPending;
      if negb (y =? 0) then portYIELD;; ret true else ret false
    else ret false
  else ret false.

Definition vTaskDelay (xTicksToDelay : Z) : K unit :=
  xAlreadyYielded ←
    (if 0 <? xTicksToDelay then
       n ← rd uxSchedulerSuspended;
       assert_ (n =? 0);;
       vTaskSuspendAll;;
       prvAddCurrentTaskToDelayedList xTicksToDelay false;;
       xTaskResumeAll
     else ret false);
  if negb xAlreadyYielded then portYIELD else ret tt.

(** Returns the new *pxPreviousWakeTime. *)
Definition vTaskDelayUntil (pxPreviousWakeTime xTimeIncrement : Z) : K Z :=
  assert_ (0 <? xTimeIncrement);;
  n ← rd uxSchedulerSuspended;
  assert_ (n =? 0);;
  vTaskSuspendAll;;
  xConstTickCount ← rd xTickCount;
  let xTimeToWake := u32 (pxPreviousWakeTime + xTimeIncrement) in
  let xShouldDelay :=
    if xConstTickCount <? pxPreviousWakeTime then
      (xTimeToWake <? pxPreviousWakeTime) && (xConstTickCount <? xTimeToWake)
    else (xTimeToWake <? pxPreviousWakeTime) || (xConstTickCount <? xTimeToWake) in
  (if xShouldDelay then prvAddCurrentTaskToDelayedList (u32 (xTimeToWake - xConstTickCount)) false else ret tt);;
  xAlreadyYielded ← xTaskResumeAll;
  (if negb xAlreadyYielded then portYIELD else ret tt);;
  ret xTimeToWake.

Definition xTaskGetTickCount : K Z := rd xTickCount.

(** ** Creation, deletion, suspension, priorities *)

(** prvDeleteTCB() frees the task control block. *)
Definition prvDeleteTCB (t : task) : K unit :=
  modify (λ s, Kernel (delete t (tasks s)) (lists s) (vars s) (pxCurrentTCB s) (pxDelayedTaskList s) (pxOverflowDelayedTaskList s)).

Definition vTaskDelete (xTaskToDelete : option task) : K unit :=
  t ← prvGetTCBFromHandle xTaskToDelete;
  _ ← listRemove StateItem t;
  remove_event_item t;;
  n ← rd uxTaskNumber;
  wr uxTaskNumber (u32 (n + 1));;
  cur ← gets pxCurrentTCB;
  (if decide (cur = Some t) then
     listInsertEnd StateItem xTasksWaitingTermination t;;
     n ← rd uxDeletedTasksWaitingCleanUp;
     wr uxDeletedTasksWaitingCleanUp (u32 (n + 1))
   else
     n ← rd uxCurrentNumberOfTasks;
     wr uxCurrentNumberOfTasks (u32 (n - 1));;
     prvDeleteTCB t;;
     prvResetNextTaskUnblockTime);;
  running ← rd xSchedulerRunning;
  if negb (running =? 0) then
    if decide (cur = Some t) then
      n ← rd uxSchedulerSuspended;
      assert_ (n =? 0);;
      portYIELD
    else ret tt
  else ret tt.

(** The while loop of prvCheckTasksWaitingTermination(), run by the idle task. *)
Fixpoint prvCheckTasksWaitingTermination (fuel : nat) : K unit :=
  n ← rd uxDeletedTasksWaitingCleanUp;
  if 0 <? n then
    match fuel with
    | O => undefined
    | S fuel =>
        t ← head_owner xTasksWaitingTermination;
        _ ← listRemove StateItem t;
        m ← rd uxCurrentNumberOfTasks;
        wr uxCurrentNumberOfTasks (u32 (m - 1));;
        wr uxDeletedTasksWaitingCleanUp (u32 (n - 1));;
        prvDeleteTCB t;;
        prvCheckTasksWaitingTermination fuel
    end
  else ret tt.

Inductive eTaskState := eRunning | eReady | eBlocked | eSuspended | eDeleted.

Definition eTaskGetState (t : task) : K eTaskState :=
  cur ← gets pxCurrentTCB;
  if decide (cur = Some t) then ret eRunning
  else
    c ← tcb t;
    d ← gets pxDelayedTaskList;
    o ← gets pxOverflowDelayedTaskList;
    let pxStateList := pvContainer (xStateListItem c) in
    if decide (pxStateList = Some d ∨ pxStateList = Some o) then ret eBlocked
    else if decide (pxStateList = Some xSuspendedTaskList) then
      match pvContainer (xEventListItem c) with None => ret eSuspended | Some _ => ret eBlocked end
    else if decide (pxStateList = Some xTasksWaitingTermination ∨ pxStateList = None) then ret eDeleted
    else ret eReady.

Definition uxTaskPriorityGet (xTask : option task) : K Z :=
  t ← prvGetTCBFromHandle xTask; c ← tcb t; ret (uxPriority c).

(** Moves a task between ready lists after a change of its priority. *)
Definition event_value_free (c : TCB_t) : bool :=
  Z.land (xItemValue (xEventListItem c)) taskEVENT_LIST_ITEM_VALUE_IN_USE =? 0.

Definition vTaskPrioritySet (xTask : option task) (uxNewPriority : Z) : K unit :=
  assert_ (uxNewPriority <? configMAX_PRIORITIES);;
  t ← prvGetTCBFromHandle xTask;
  c ← tcb t;
  let uxCurrentBasePriority := uxBasePriority c in
  if negb (uxCurrentBasePriority =? uxNewPriority) then
    cur ← current;
    cc ← tcb cur;
    let xYieldRequired :=
      if uxCurrentBasePriority <? uxNewPriority then
        if decide (t ≠ cur) then uxPriority cc <=? uxNewPriority else false
      else bool_decide (t = cur) in
    let uxPriorityUsedOnEntry := uxPriority c in
    (if uxBasePriority c =? uxPriority c then put_tcb t (with_priority uxNewPriority c) else ret tt);;
    c ← tcb t;
    put_tcb t (with_base uxNewPriority c);;
    c ← tcb t;
    (if event_value_free c then set_value EventItem t (u32 (configMAX_PRIORITIES - uxNewPriority)) else ret tt);;
    c ← tcb t;
    (if decide (pvContainer (xStateListItem c) = Some (pxReadyTasksLists uxPriorityUsedOnEntry)) then
       _ ← listRemove StateItem t;
       prvAddTaskToReadyList t
     else ret tt);;
    if xYieldRequired then portYIELD else ret tt
  else ret tt.

Definition vTaskSuspend (xTaskToSuspend : option task) : K unit :=
  t ← prvGetTCBFromHandle xTaskToSuspend;
  _ ← listRemove StateItem t;
  remove_event_item t;;
  listInsertEnd StateItem xSuspendedTaskList t;;
  c ← tcb t;
  (if ucNotifyState c =? taskWAITING_NOTIFICATION
   then put_tcb t (with_notify taskNOT_WAITING_NOTIFICATION c) else ret tt);;
  running ← rd xSchedulerRunning;
  (if negb (running =? 0) then prvResetNextTaskUnblockTime else ret tt);;
  cur ← gets pxCurrentTCB;
  if decide (cur = Some t) then
    if negb (running =? 0) then
      n ← rd uxSchedulerSuspended;
      assert_ (n =? 0);;
      portYIELD
    else
      n ← list_length xSuspendedTaskList;
      m ← rd uxCurrentNumberOfTasks;
      if n =? m then set_current None else vTaskSwitchContext
  else ret tt.

Definition prvTaskIsTaskSuspended (t : task) : K bool :=
  c ← tcb t;
  ret (bool_decide (pvContainer (xStateListItem c) = Some xSuspendedTaskList) &&
       bool_decide (pvContainer (xEventListItem c) ≠ Some xPendingReadyList) &&
       bool_decide (pvContainer (xEventListItem c) = None)).

Definition vTaskResume (t : task) : K unit :=
  cur ← gets pxCurrentTCB;
  if decide (cur ≠ Some t) then
    b ← prvTaskIsTaskSuspended t;
    if b then
      _ ← listRemove StateItem t;
      prvAddTaskToReadyList t;;
      cur ← current;
      c ← tcb t;
      cc ← tcb cur;
      if uxPriority cc <=? uxPriority c then portYIELD else ret tt
    else ret tt
  else ret tt.

Definition xTaskResumeFromISR (t : task) : K bool :=
  b ← prvTaskIsTaskSuspended t;
  if b then
    n ← rd uxSchedulerSuspended;
    if n =? 0 then
      cur ← current;
      c ← tcb t;
      cc ← tcb cur;
      _ ← listRemove StateItem t;
      prvAddTaskToReadyList t;;
      ret (uxPriority cc <=? uxPriority c)
    else
      listInsertEnd EventItem xPendingReadyList t;;
      ret false
  else ret false.

Definition xTaskGetCurrentTaskHandle : K (option task) := gets pxCurrentTCB.

Inductive SchedulerState := taskSCHEDULER_NOT_STARTED | taskSCHEDULER_RUNNING | taskSCHEDULER_SUSPENDED.

Definition xTaskGetSchedulerState : K SchedulerState :=
  running ← rd xSchedulerRunning;
  n ← rd uxSchedulerSuspended;
  ret (if running =? 0 then taskSCHEDULER_NOT_STARTED
       else if n =? 0 then taskSCHEDULER_RUNNING else taskSCHEDULER_SUSPENDED).

(** ** Event lists and timeouts *)

Definition vTaskPlaceOnEventList (pxEventList : listid) (xTicksToWait : Z) : K unit :=
  t ← current;
  listInsert EventItem pxEventList t;;
  prvAddCurrentTaskToDelayedList xTicksToWait true.

Definition vTaskPlaceOnUnorderedEventList (pxEventList : listid) (v xTicksToWait : Z) : K unit :=
  n ← rd uxSchedulerSuspended;
  assert_ (negb (n =? 0));;
  t ← current;
  set_value EventItem t (Z.lor v taskEVENT_LIST_ITEM_VALUE_IN_USE);;
  listInsertEnd EventItem pxEventList t;;
  prvAddCurrentTaskToDelayedList xTicksToWait true.

Definition xTaskRemoveFromEventList (pxEventList : listid) : K bool :=
  t ← head_owner pxEventList;
  _ ← listRemove EventItem t;
  n ← rd uxSchedulerSuspended;
  (if n =? 0 then
     _ ← listRemove StateItem t;
     prvAddTaskToReadyList t
   else listInsertEnd EventItem xPendingReadyList t);;
  cur ← current;
  c ← tcb t;
  cc ← tcb cur;
  if uxPriority cc <? uxPriority c then wr xYieldPending 1;; ret true else ret false.

(** pxEventListItem is the event item of task [t]. *)
Definition vTaskRemoveFromUnorderedEventList (t : task) (v : Z) : K unit :=
  n ← rd uxSchedulerSuspended;
  assert_ (negb (n =? 0));;
  set_value EventItem t (Z.lor v taskEVENT_LIST_ITEM_VALUE_IN_USE);;
  _ ← listRemove EventItem t;
  _ ← listRemove StateItem t;
  prvAddTaskToReadyList t;;
  cur ← current;
  c ← tcb t;
  cc ← tcb cur;
  if uxPriority cc <? uxPriority c then wr xYieldPending 1 else ret tt.

Record TimeOut_t := TimeOut { xOverflowCount : Z; xTimeOnEntering : Z }.

Definition vTaskInternalSetTimeOutState : K TimeOut_t :=
  n ← rd xNumOfOverflows;
  t ← rd xTickCount;
  ret (TimeOut n t).

Definition vTaskSetTimeOutState : K TimeOut_t :=
  n ← rd xNumOfOverflows;
  t ← rd xTickCount;
  ret (TimeOut n t).

(** Returns whether the time has expired, and the new *pxTimeOut and *pxTicksToWait. *)
Definition xTaskCheckForTimeOut (pxTimeOut : TimeOut_t) (pxTicksToWait : Z) : K (bool * TimeOut_t * Z) :=
  xConstTickCount ← rd xTickCount;
  n ← rd xNumOfOverflows;
  let xElapsedTime := u32 (xConstTickCount - xTimeOnEntering pxTimeOut) in
  if pxTicksToWait =? portMAX_DELAY then ret (false, pxTimeOut, pxTicksToWait)
  else if negb (n =? xOverflowCount pxTimeOut) && (xTimeOnEntering pxTimeOut <=? xConstTickCount)
  then ret (true, pxTimeOut, pxTicksToWait)
  else if xElapsedTime <? pxTicksToWait then
    o ← vTaskInternalSetTimeOutState;
    ret (false, o, u32 (pxTicksToWait - xElapsedTime))
  else ret (true, pxTimeOut, 0).

Definition vTaskMissedYield : K unit := wr xYieldPending 1.

Definition uxTaskResetEventItemValue : K Z :=
  t ← current;
  c ← tcb t;
  set_value EventItem t (u32 (configMAX_PRIORITIES - uxPriority c));;
  ret (xItemValue (xEventListItem c)).

(** ** Priority inheritance *)

Definition pvTaskIncrementMutexHeldCount : K (option task) :=
  cur ← gets pxCurrentTCB;
  match cur with
  | Some t => c ← tcb t; put_tcb t (with_mutexes (u32 (uxMutexesHeld c + 1)) c)
  | None => ret tt
  end;;
  gets pxCurrentTCB.

Definition xTaskPriorityInherit (pxMutexHolder : option task) : K bool :=
  match pxMutexHolder with
  | None => ret false
  | Some t =>
      cur ← current;
      cc ← tcb cur;
      c ← tcb t;
      if uxPriority c <? uxPriority cc then
        (if event_value_free c
         then set_value EventItem t (u32 (configMAX_PRIORITIES - uxPriority cc)) else ret tt);;
        c ← tcb t;
        (if decide (pvContainer (xStateListItem c) = Some (pxReadyTasksLists (uxPriority c))) then
           _ ← listRemove StateItem t;
           c ← tcb t;
           put_tcb t (with_priority (uxPriority cc) c);;
           prvAddTaskToReadyList t
         else put_tcb t (with_priority (uxPriority cc) c));;
        ret true
      else ret (uxBasePriority c <? uxPriority cc)
  end.

Definition xTaskPriorityDisinherit (pxMutexHolder : option task) : K bool :=
  match pxMutexHolder with
  | None => ret false
  | Some t =>
      cur ← gets pxCurrentTCB;
      assert_ (bool_decide (cur = Some t));;
      c ← tcb t;
      assert_ (negb (uxMutexesHeld c =? 0));;
      put_tcb t (with_mutexes (uxMutexesHeld c - 1) c);;
      if negb (uxPriority c =? uxBasePriority c) && (uxMutexesHeld c - 1 =? 0) then
        _ ← listRemove StateItem t;
        c ← tcb t;
        put_tcb t (with_priority (uxBasePriority c) c);;
        set_value EventItem t (u32 (configMAX_PRIORITIES - uxBasePriority c));;
        prvAddTaskToReadyList t;;
        ret true
      else ret false
  end.

Definition vTaskPriorityDisinheritAfterTimeout (pxMutexHolder : option task) (uxHighestPriorityWaitingTask : Z) : K unit :=
  match pxMutexHolder with
  | None => ret tt
  | Some t =>
      c ← tcb t;
      assert_ (negb (uxMutexesHeld c =? 0));;
      let uxPriorityToUse := Z.max (uxBasePriority c) uxHighestPriorityWaitingTask in
      if negb (uxPriority c =? uxPriorityToUse) && (uxMutexesHeld c =? 1) then
        cur ← gets pxCurrentTCB;
        assert_ (bool_decide (cur ≠ Some t));;
        let uxPriorityUsedOnEntry := uxPriority c in
        put_tcb t (with_priority uxPriorityToUse c);;
        (if event_value_free c
         then set_value EventItem t (u32 (configMAX_PRIORITIES - uxPriorityToUse)) else ret tt);;
        c ← tcb t;
        if decide (pvContainer (xStateListItem c) = Some (pxReadyTasksLists uxPriorityUsedOnEntry)) then
          _ ← listRemove StateItem t;
          prvAddTaskToReadyList t
        else ret tt
      else ret tt
  end.

(** ** Task notifications *)

Inductive eNotifyAction := eNoAction | eSetBits | eIncrement | eSetValueWithOverwrite | eSetValueWithoutOverwrite.

(** The switch of xTaskGenericNotify(): the new value, and xReturn. *)
Definition notify_value (ulValue : Z) (eAction : eNotifyAction) (c : TCB_t) : Z * bool :=
  match eAction with
  | eSetBits => (Z.lor (ulNotifiedValue c) ulValue, true)
  | eIncrement => (u32 (ulNotifiedValue c + 1), true)
  | eSetValueWithOverwrite => (ulValue, true)
  | eSetValueWithoutOverwrite =>
      if negb (ucNotifyState c =? taskNOTIFICATION_RECEIVED) then (ulValue, true) else (ulNotifiedValue c, false)
  | eNoAction => (ulNotifiedValue c, true)
  end.

(** Returns xReturn and *pulPreviousNotificationValue. *)
Definition xTaskGenericNotify (t : task) (ulValue : Z) (eAction : eNotifyAction) : K (bool * Z) :=
  c ← tcb t;
  let '(v, xReturn) := notify_value ulValue eAction c in
  put_tcb t (with_notified v (with_notify taskNOTIFICATION_RECEIVED c));;
  (if ucNotifyState c =? taskWAITING_NOTIFICATION then
     _ ← listRemove StateItem t;
     prvAddTaskToReadyList t;;
     c ← tcb t;
     assert_ (bool_decide (pvContainer (xEventListItem c) = None));;
     cur ← current;
     cc ← tcb cur;
     if uxPriority cc <? uxPriority c then portYIELD else ret tt
   else ret tt);;
  ret (xReturn, ulNotifiedValue c).

(** The part that xTaskGenericNotifyFromISR() and vTaskNotifyGiveFromISR()
    share: unblocks the task.  [woken] is *pxHigherPriorityTaskWoken, [None] for
    a NULL pointer; the new value is returned. *)
Definition notify_from_isr (t : task) (waiting : bool) (woken : option bool) : K (option bool) :=
  if waiting then
    c ← tcb t;
    assert_ (bool_decide (pvContainer (xEventListItem c) = None));;
    n ← rd uxSchedulerSuspended;
    (if n =? 0 then
       _ ← listRemove StateItem t;
       prvAddTaskToReadyList t
     else listInsertEnd EventItem xPendingReadyList t);;
    cur ← current;
    cc ← tcb cur;
    if uxPriority cc <? uxPriority c then
      match woken with
      | Some _ => ret (Some true)
      | None => wr xYieldPending 1;; ret None
      end
    else ret woken
  else ret woken.

Definition xTaskGenericNotifyFromISR (t : task) (ulValue : Z) (eAction : eNotifyAction) (woken : option bool) :
    K (bool * Z * option bool) :=
  c ← tcb t;
  let '(v, xReturn) := notify_value ulValue eAction c in
  put_tcb t (with_notified v (with_notify taskNOTIFICATION_RECEIVED c));;
  woken ← notify_from_isr t (ucNotifyState c =? taskWAITING_NOTIFICATION) woken;
  ret (xReturn, ulNotifiedValue c, woken).

Definition vTaskNotifyGiveFromISR (t : task) (woken : option bool) : K (option bool) :=
  c ← tcb t;
  put_tcb t (with_notified (u32 (ulNotifiedValue c + 1)) (with_notify taskNOTIFICATION_RECEIVED c));;
  notify_from_isr t (ucNotifyState c =? taskWAITING_NOTIFICATION) woken.

Definition xTaskNotifyStateClear (xTask : option task) : K bool :=
  t ← prvGetTCBFromHandle xTask;
  c ← tcb t;
  if ucNotifyState c =? taskNOTIFICATION_RECEIVED then
    put_tcb t (with_notify taskNOT_WAITING_NOTIFICATION c);; ret true
  else ret false.

(** The two critical sections of ulTaskNotifyTake(); between them the task is
    blocked when the value was zero and there is time to wait. *)
Definition ulTaskNotifyTake_enter (xTicksToWait : Z) : K unit :=
  t ← current;
  c ← tcb t;
  if ulNotifiedValue c =? 0 then
    put_tcb t (with_notify taskWAITING_NOTIFICATION c);;
    if 0 <? xTicksToWait then
      prvAddCurrentTaskToDelayedList xTicksToWait true;; portYIELD
    else ret tt
  else ret tt.

Definition ulTaskNotifyTake_exit (xClearCountOnExit : bool) : K Z :=
  t ← current;
  c ← tcb t;
  let ulReturn := ulNotifiedValue c in
  (if negb (ulReturn =? 0) then
     put_tcb t (with_notified (if xClearCountOnExit then 0 else ulReturn - 1) c)
   else ret tt);;
  c ← tcb t;
  put_tcb t (with_notify taskNOT_WAITING_NOTIFICATION c);;
  ret ulReturn.

(** The two critical sections of xTaskNotifyWait(). *)
Definition xTaskNotifyWait_enter (ulBitsToClearOnEntry xTicksToWait : Z) : K unit :=
  t ← current;
  c ← tcb t;
  if negb (ucNotifyState c =? taskNOTIFICATION_RECEIVED) then
    put_tcb t (with_notify taskWAITING_NOTIFICATION
      (with_notified (Z.land (ulNotifiedValue c) (Z.lxor portMAX_DELAY ulBitsToClearOnEntry)) c));;
    if 0 <? xTicksToWait then
      prvAddCurrentTaskToDelayedList xTicksToWait true;; portYIELD
    else ret tt
  else ret tt.

(** Returns xReturn and *pulNotificationValue. *)
Definition xTaskNotifyWait_exit (ulBitsToClearOnExit : Z) : K (bool * Z) :=
  t ← current;
  c ← tcb t;
  let received := ucNotifyState c =? taskNOTIFICATION_RECEIVED in
  (if received then
     put_tcb t (with_notified (Z.land (ulNotifiedValue c) (Z.lxor portMAX_DELAY ulBitsToClearOnExit)) c)
   else ret tt);;
  c' ← tcb t;
  put_tcb t (with_notify taskNOT_WAITING_NOTIFICATION c');;
  ret (received, ulNotifiedValue c).
