(* ===== verification/RtosKernelSpec.v ===== *)
(** * Invariants of the RTOS kernel

    The relation between the kernel's lists and its tasks, and what the list
    operations do to it. *)

From Stdlib Require Import ZArith Lia Sorted.
From S2P Require Import Prelude RtosList RtosListSpec RtosKernel.
Local Open Scope Z_scope.
Local Open Scope pim_scope.

(** ** Coherence of lists and items *)

(** The kind of item a list holds. *)
Definition kind_of (l : listid) : kind :=
  match l with
  | xPendingReadyList | xTasksWaitingToSend _ | xTasksWaitingToReceive _ | xTasksWaitingForBits _ => EventItem
  | _ => StateItem
  end.

Definition container (k : kind) (ts : gmap task TCB_t) (t : task) : option listid :=
  match ts !! t with Some c => pvContainer (item k c) | None => None end.

Record wf_alist (al : alist) : Prop := {
  al_nodup : NoDup (items al);
  al_index : ∀ i, index al = Some i → i ∈ items al
}.

Record coh (ts : gmap task TCB_t) (ls : listid → alist) : Prop := {
  coh_in : ∀ l t, t ∈ items (ls l) ↔ container (kind_of l) ts t = Some l;
  coh_kind : ∀ k t l, container k ts t = Some l → kind_of l = k;
  coh_wf : ∀ l, wf_alist (ls l)
}.

(** *** Abstract lists stay well formed *)

Lemma items_insert_end x al y :
  wf_alist al → y ∈ items (al_insert_end x al) ↔ y = x ∨ y ∈ items al.
Proof.
  intros [N I]. destruct (insert_end_split al x N I) as (xs & ys & -> & -> & _). set_solver.
Qed.

Lemma insert_end_wf x al : wf_alist al → x ∉ items al → wf_alist (al_insert_end x al).
Proof.
  intros Hw Hx. pose proof Hw as [N I]. split.
  - destruct (insert_end_split al x N I) as (xs & ys & Hi & -> & _). rewrite Hi in N, Hx.
    apply NoDup_middle. apply NoDup_app in N as (? & ? & ?). rewrite not_elem_of_app in Hx.
    split_and!; [by destruct Hx..|]. by apply NoDup_app.
  - intros i Hi. apply items_insert_end; [done|]. right. apply I. exact Hi.
Qed.

Lemma items_insert v x al y : y ∈ items (al_insert v x al) ↔ y = x ∨ y ∈ items al.
Proof.
  destruct (sorted_insert_split v x (items al)) as (xs & ys & Hi & Hs & _).
  unfold al_insert. simpl. rewrite Hs, Hi. set_solver.
Qed.

Lemma insert_wf v x al : wf_alist al → x ∉ items al → wf_alist (al_insert v x al).
Proof.
  intros [N I] Hx. split.
  - destruct (sorted_insert_split v x (items al)) as (xs & ys & Hi & Hs & _).
    unfold al_insert. simpl. rewrite Hs. rewrite Hi in N, Hx. apply NoDup_middle.
    rewrite not_elem_of_app in Hx. destruct Hx. apply NoDup_app in N as (? & ? & ?). split_and!; [done..|].
    by apply NoDup_app.
  - intros i Hi. apply items_insert. right. apply I. exact Hi.
Qed.

Lemma items_remove x al y : y ∈ items (al_remove x al) ↔ y ≠ x ∧ y ∈ items al.
Proof. unfold al_remove. simpl. by rewrite list_elem_of_filter. Qed.

Lemma before_in p x xs y : before p x xs = Some y → x ∈ xs → NoDup xs → y ∈ xs ∧ y ≠ x ∨ p = Some y.
Proof.
  revert p. induction xs as [|z xs IH]; intros p; simpl; [set_solver|].
  case_decide as Ez; [by right|]. intros Hb Hx [Hz N]%NoDup_cons.
  destruct (IH (Some z) Hb) as [[? ?]|[= ->]]; [set_solver|done| |]; set_solver.
Qed.

Lemma remove_wf x al : wf_alist al → wf_alist (al_remove x al).
Proof.
  intros [N I]. split.
  - by apply NoDup_filter.
  - intros i. unfold al_remove. simpl. rewrite list_elem_of_filter. case_decide as E.
    + intros Hb. pose proof (I x E). destruct (before_in _ _ _ _ Hb) as [[? ?]|?]; [done|done|done|done].
    + intros Hi. split; [congruence|]. by apply I.
Qed.

Lemma next_wf al : wf_alist al → wf_alist (al_next al).
Proof. intros [N I]. split; [done|]. intros i. simpl. apply al_next_item_in. Qed.

(** *** Coherence under the list operations *)

Lemma item_set_item k i c : item k (set_item k i c) = i.
Proof. by destruct k. Qed.

Lemma item_set_item_ne k k' i c : k ≠ k' → item k' (set_item k i c) = item k' c.
Proof. by destruct k, k'. Qed.

Lemma container_insert_eq k ts t c : container k (<[t := c]> ts) t = pvContainer (item k c).
Proof. unfold container. by rewrite lookup_insert_eq. Qed.

Lemma container_insert_ne k ts t t' c : t ≠ t' → container k (<[t := c]> ts) t' = container k ts t'.
Proof. intros H. unfold container. by rewrite lookup_insert_ne. Qed.

#[global] Instance kind_eq_dec : EqDecision kind.
Proof. solve_decision. Defined.

(** Updating the item of kind [k] of task [t] to container [o] changes only that. *)
Lemma container_set_item k k' ts t t' c v o :
  ts !! t = Some c →
  container k' (<[t := set_item k (ListItem v o) c]> ts) t' =
    if decide (k' = k ∧ t' = t) then o else container k' ts t'.
Proof.
  intros Hc. destruct (decide (t' = t)) as [->|Ht].
  - rewrite container_insert_eq. destruct (decide (k' = k)) as [->|Hk].
    + rewrite decide_True by done. by rewrite item_set_item.
    + rewrite decide_False by naive_solver. rewrite item_set_item_ne by done.
      unfold container. by rewrite Hc.
  - rewrite container_insert_ne by done. by rewrite decide_False by naive_solver.
Qed.

Lemma coh_remove ts ls k t c l :
  coh ts ls → ts !! t = Some c → pvContainer (item k c) = Some l →
  coh (<[t := set_item k (ListItem (xItemValue (item k c)) None) c]> ts) (upd ls l (al_remove t (ls l))).
Proof.
  intros [Hin Hk Hw] Hc Hl.
  assert (container k ts t = Some l) as Hcont by (unfold container; by rewrite Hc).
  pose proof (Hk _ _ _ Hcont) as Hkl. split.
  - intros l' t'. rewrite (container_set_item _ _ _ _ _ c) by done. unfold upd.
    destruct (decide (l' = l)) as [->|Hne].
    + rewrite items_remove, Hin, Hkl. destruct (decide (k = k ∧ t' = t)); [naive_solver|]. naive_solver.
    + rewrite Hin. destruct (decide (kind_of l' = k ∧ t' = t)) as [[Hk' ->]|]; [|done].
      rewrite Hk', Hcont. naive_solver.
  - intros k' t' l'. rewrite (container_set_item _ _ _ _ _ c) by done. case_decide; [done|]. apply Hk.
  - intros l'. unfold upd. case_decide; [apply remove_wf|]; apply Hw.
Qed.

Lemma coh_add ts ls k t c l al' v :
  coh ts ls → ts !! t = Some c → pvContainer (item k c) = None → kind_of l = k →
  wf_alist al' → (∀ y, y ∈ items al' ↔ y = t ∨ y ∈ items (ls l)) →
  coh (<[t := set_item k (ListItem v (Some l)) c]> ts) (upd ls l al').
Proof.
  intros [Hin Hk Hw] Hc Hn Hkl Hal Hitems.
  assert (container k ts t = None) as Hcont by (unfold container; by rewrite Hc). split.
  - intros l' t'. rewrite (container_set_item _ _ _ _ _ c) by done. unfold upd.
    destruct (decide (l' = l)) as [->|Hne].
    + rewrite Hitems, Hin, Hkl. destruct (decide (k = k ∧ t' = t)); naive_solver.
    + rewrite Hin. destruct (decide (kind_of l' = k ∧ t' = t)) as [[Hk' ->]|]; [|done].
      rewrite Hk', Hcont. naive_solver.
  - intros k' t' l'. rewrite (container_set_item _ _ _ _ _ c) by done. case_decide as E; [|apply Hk].
    intros [= <-]. naive_solver.
  - intros l'. unfold upd. case_decide; [done|]. apply Hw.
Qed.

(** A change of a task that keeps its containers. *)
Lemma coh_same ts ls t c c' :
  coh ts ls → ts !! t = Some c → (∀ k, pvContainer (item k c') = pvContainer (item k c)) →
  coh (<[t := c']> ts) ls.
Proof.
  intros [Hin Hk Hw] Hc Hs.
  assert (∀ k t', container k (<[t := c']> ts) t' = container k ts t') as Hsame.
  { intros k t'. destruct (decide (t' = t)) as [->|].
    - rewrite container_insert_eq, Hs. unfold container. by rewrite Hc.
    - by apply container_insert_ne. }
  split; [intros l t'; by rewrite Hsame|intros k t' l; rewrite Hsame; apply Hk|done].
Qed.

Lemma coh_ext ts ts' ls : coh ts ls → (∀ k t, container k ts' t = container k ts t) → coh ts' ls.
Proof. intros [Hin Hk Hw] He. split; [intros l t; by rewrite He|intros k t l; rewrite He; apply Hk|done]. Qed.

Lemma coh_next ts ls l : coh ts ls → coh ts (upd ls l (al_next (ls l))).
Proof.
  intros [Hin Hk Hw]. split; [|done|].
  - intros l' t. rewrite <-Hin. unfold upd. by case_decide; subst.
  - intros l'. unfold upd. case_decide; [apply next_wf|]; apply Hw.
Qed.

(** ** The invariant *)

Definition svalue (ts : gmap task TCB_t) (t : task) : Z :=
  match ts !! t with Some c => xItemValue (xStateListItem c) | None => 0 end.

Definition sorted_list (ts : gmap task TCB_t) (xs : list task) : Prop :=
  StronglySorted (λ a b, svalue ts a <= svalue ts b) xs.

(** A task control block is in order: its priorities are in range, it is in the
    ready list of its priority if it is in a ready list, and its state item is
    in a list unless it is the task [x] that is being moved. *)
Record tcb_ok (x : option task) (t : task) (c : TCB_t) : Prop := {
  t_prio : 0 <= uxPriority c < configMAX_PRIORITIES;
  t_base : 0 <= uxBasePriority c < configMAX_PRIORITIES;
  t_ready : ∀ p, pvContainer (xStateListItem c) = Some (pxReadyTasksLists p) → p = uxPriority c;
  t_state : pvContainer (xStateListItem c) = None ↔ x = Some t;
  t_svalue : in_range 32 (xItemValue (xStateListItem c));
  t_evalue : in_range 32 (xItemValue (xEventListItem c))
}.

Record inv (x : option task) (s : kernel) : Prop := {
  i_coh : coh (tasks s) (lists s);
  i_task : ∀ t c, tasks s !! t = Some c → tcb_ok x t c;
  i_top : 0 <= vars s uxTopReadyPriority < configMAX_PRIORITIES;
  i_ready : ∀ p, items (lists s (pxReadyTasksLists p)) ≠ [] → p <= vars s uxTopReadyPriority;
  i_ptr : (pxDelayedTaskList s, pxOverflowDelayedTaskList s) = (xDelayedTaskList1, xDelayedTaskList2) ∨
          (pxDelayedTaskList s, pxOverflowDelayedTaskList s) = (xDelayedTaskList2, xDelayedTaskList1);
  i_cur : ∀ t, pxCurrentTCB s = Some t → is_Some (tasks s !! t);
  i_sorted1 : sorted_list (tasks s) (items (lists s xDelayedTaskList1));
  i_sorted2 : sorted_list (tasks s) (items (lists s xDelayedTaskList2))
}.

(** What the list operations leave alone. *)
Record frame (s s' : kernel) : Prop := {
  f_cur : pxCurrentTCB s' = pxCurrentTCB s;
  f_delayed : pxDelayedTaskList s' = pxDelayedTaskList s;
  f_overflow : pxOverflowDelayedTaskList s' = pxOverflowDelayedTaskList s;
  f_vars : ∀ x, x ≠ uxTopReadyPriority → vars s' x = vars s x
}.

#[global] Instance frame_refl : Reflexive frame.
Proof. by split. Qed.
#[global] Instance frame_trans : Transitive frame.
Proof.
  intros s1 s2 s3 [C1 D1 O1 V1] [C2 D2 O2 V2]. split; [congruence..|]. intros x Hx. by rewrite V2, V1.
Qed.

Lemma i_delayed s x : inv x s → pxDelayedTaskList s ≠ pxOverflowDelayedTaskList s ∧
  kind_of (pxDelayedTaskList s) = StateItem ∧ kind_of (pxOverflowDelayedTaskList s) = StateItem ∧
  (∀ p, pxDelayedTaskList s ≠ pxReadyTasksLists p) ∧ (∀ p, pxOverflowDelayedTaskList s ≠ pxReadyTasksLists p) ∧
  sorted_list (tasks s) (items (lists s (pxDelayedTaskList s))) ∧
  sorted_list (tasks s) (items (lists s (pxOverflowDelayedTaskList s))).
Proof. intros H. destruct (i_ptr _ _ H) as [[= -> ->]|[= -> ->]]; split_and!; try done; apply H. Qed.

Lemma sorted_list_ext ts ts' xs :
  (∀ t, t ∈ xs → svalue ts' t = svalue ts t) → sorted_list ts xs → sorted_list ts' xs.
Proof.
  intros Hv. induction 1 as [|x xs Hs IH Hf]; [constructor|]. constructor.
  - apply IH. set_solver.
  - rewrite Forall_forall in Hf |- *. intros y Hy. rewrite !Hv by set_solver. by apply Hf.
Qed.

Lemma sorted_list_filter ts (P : task → Prop) `{!∀ x, Decision (P x)} xs : sorted_list ts xs → sorted_list ts (filter P xs).
Proof.
  induction 1 as [|x xs Hs IH Hf]; [constructor|]. rewrite filter_cons. case_decide; [|done]. constructor; [done|].
  rewrite Forall_forall in Hf |- *. intros y [_ Hy]%list_elem_of_filter. by apply Hf.
Qed.

Lemma sorted_list_insert ts v x xs :
  (∀ t, v t = svalue ts t) → sorted_list ts xs → sorted_list ts (sorted_insert v x xs).
Proof.
  intros Hv. induction 1 as [|y xs Hs IH Hf]; simpl; [by repeat constructor|].
  destruct (Z.leb_spec (v y) (v x)) as [Hle|Hlt]; rewrite !Hv in *.
  - constructor; [done|]. rewrite Forall_forall in Hf |- *. intros z Hz.
    assert (z = x ∨ z ∈ xs) as [->|Hz'].
    { destruct (sorted_insert_split v x xs) as (xs1 & xs2 & -> & Hsp & _). rewrite Hsp in Hz. set_solver. }
    + done.
    + by apply Hf.
  - constructor; [by constructor|]. constructor; [lia|]. eapply Forall_impl; [exact Hf|]. simpl. intros z ?. lia.
Qed.

Lemma svalue_insert ts t c t' :
  svalue (<[t := c]> ts) t' = if decide (t' = t) then xItemValue (xStateListItem c) else svalue ts t'.
Proof. unfold svalue. case_decide; [subst; by rewrite lookup_insert_eq|by rewrite lookup_insert_ne]. Qed.

Lemma svalue_same ts t c c' t' :
  ts !! t = Some c → xItemValue (xStateListItem c') = xItemValue (xStateListItem c) →
  svalue (<[t := c']> ts) t' = svalue ts t'.
Proof. intros Hc Hv. rewrite svalue_insert. case_decide; [subst|done]. unfold svalue. by rewrite Hc. Qed.

Lemma tcb_ok_other x y t c : tcb_ok x t c → x ≠ Some t → y ≠ Some t → tcb_ok y t c.
Proof. intros [] Hx Hy. split; [done..| |done|done]. naive_solver. Qed.

(** Replacing one task control block and one list. *)
Lemma inv_update x y s s' t c c' l al' :
  inv x s → tasks s !! t = Some c →
  tasks s' = <[t := c']> (tasks s) → (∀ l0, lists s' l0 = upd (lists s) l al' l0) →
  pxCurrentTCB s' = pxCurrentTCB s → pxDelayedTaskList s' = pxDelayedTaskList s →
  pxOverflowDelayedTaskList s' = pxOverflowDelayedTaskList s →
  (x = None ∨ x = Some t) → (y = None ∨ y = Some t) → tcb_ok y t c' →
  coh (tasks s') (lists s') →
  (xItemValue (xStateListItem c') = xItemValue (xStateListItem c) ∨ x = Some t) →
  vars s uxTopReadyPriority <= vars s' uxTopReadyPriority < configMAX_PRIORITIES →
  (∀ p, l = pxReadyTasksLists p → items al' ≠ [] → p <= vars s' uxTopReadyPriority) →
  (l = xDelayedTaskList1 ∨ l = xDelayedTaskList2 → sorted_list (<[t := c']> (tasks s)) (items al')) →
  inv y s'.
Proof.
  intros [Hcoh Htask Htop Hready Hptr Hcur Hs1 Hs2] Hc Et El Ec Ed Eo Hx Hy Hok Hcoh' Hv Htop' Hr Hs.
  assert (∀ l0, kind_of l0 = StateItem → sorted_list (tasks s) (items (lists s l0)) →
    sorted_list (<[t := c']> (tasks s)) (items (lists s l0))) as Hsame.
  { intros l0 Hk. apply sorted_list_ext. intros t' Ht'. destruct Hv as [Hv| ->]; [by eapply svalue_same|].
    rewrite svalue_insert. case_decide as E; [|done]. subst t'. exfalso.
    apply (coh_in _ _ Hcoh) in Ht'. unfold container in Ht'. rewrite Hc, Hk in Ht'. simpl in Ht'.
    pose proof (proj2 (t_state _ _ _ (Htask _ _ Hc)) eq_refl). congruence. }
  constructor; rewrite ?El, ?Ec, ?Ed, ?Eo; rewrite ?Et; try done.
  - by rewrite <-Et.
  - intros t' c2. rewrite lookup_insert. case_decide as E; [subst; by intros [= <-]|]. intros Hc2.
    apply (tcb_ok_other x); [by apply Htask|destruct Hx; congruence|destruct Hy; congruence].
  - lia.
  - intros p. rewrite El. unfold upd. case_decide as E; [by apply Hr|]. intros Hp. specialize (Hready p Hp). lia.
  - intros t' Ht'. rewrite lookup_insert. case_decide; [done|]. by apply Hcur.
  - unfold upd. case_decide as E; [apply Hs; naive_solver|]. by apply Hsame.
  - unfold upd. case_decide as E; [apply Hs; naive_solver|]. by apply Hsame.
Qed.

(** A change of one task control block that is not about lists. *)
Lemma inv_tcb x s t c c' s' :
  inv x s → tasks s !! t = Some c → (x = None ∨ x = Some t) →
  s' = Kernel (<[t := c']> (tasks s)) (lists s) (vars s) (pxCurrentTCB s) (pxDelayedTaskList s) (pxOverflowDelayedTaskList s) →
  tcb_ok x t c' → (∀ k, pvContainer (item k c') = pvContainer (item k c)) →
  (xItemValue (xStateListItem c') = xItemValue (xStateListItem c) ∨ x = Some t) →
  inv x s'.
Proof.
  intros Hi Hc Hx -> Hok Hk Hv. pose proof (i_top _ _ Hi).
  eapply (inv_update x x s _ t c c' xSuspendedTaskList (lists s xSuspendedTaskList)); simpl; try done.
  - intros l0. unfold upd. by case_decide; subst.
  - eapply coh_same; [apply Hi|done|done].
  - lia.
  - intros [|]; done.
Qed.

(** ** Rules for the list operations *)

Lemma wp_tcb s t c (Q : TCB_t → kernel → Prop) : tasks s !! t = Some c → Q c s → wp (tcb t) Q s.
Proof. intros Hc HQ. unfold tcb. apply wp_bind, wp_gets. rewrite Hc. by apply wp_ret. Qed.

Lemma wp_current s t (Q : task → kernel → Prop) : pxCurrentTCB s = Some t → Q t s → wp current Q s.
Proof. intros Hc HQ. unfold current. apply wp_bind, wp_gets. rewrite Hc. by apply wp_ret. Qed.

Lemma wp_set_container s k t c o (Q : unit → kernel → Prop) :
  tasks s !! t = Some c →
  Q tt (Kernel (<[t := set_item k (ListItem (xItemValue (item k c)) o) c]> (tasks s)) (lists s) (vars s)
    (pxCurrentTCB s) (pxDelayedTaskList s) (pxOverflowDelayedTaskList s)) →
  wp (set_container k t o) Q s.
Proof. intros Hc HQ. unfold set_container. apply wp_bind. eapply wp_tcb; [done|]. by apply wp_modify. Qed.

Lemma wp_set_value s k t c v (Q : unit → kernel → Prop) :
  tasks s !! t = Some c →
  Q tt (Kernel (<[t := set_item k (ListItem v (pvContainer (item k c))) c]> (tasks s)) (lists s) (vars s)
    (pxCurrentTCB s) (pxDelayedTaskList s) (pxOverflowDelayedTaskList s)) →
  wp (set_value k t v) Q s.
Proof. intros Hc HQ. unfold set_value. apply wp_bind. eapply wp_tcb; [done|]. by apply wp_modify. Qed.

(** The state after item [k] of task [t] left list [l], and after it entered [l]. *)
Definition detached (k : kind) (t : task) (c : TCB_t) (l : listid) (s : kernel) : kernel :=
  Kernel (<[t := set_item k (ListItem (xItemValue (item k c)) None) c]> (tasks s))
    (upd (lists s) l (al_remove t (lists s l))) (vars s) (pxCurrentTCB s) (pxDelayedTaskList s) (pxOverflowDelayedTaskList s).

Definition attached (k : kind) (t : task) (c : TCB_t) (l : listid) (al : alist) (s : kernel) : kernel :=
  Kernel (<[t := set_item k (ListItem (xItemValue (item k c)) (Some l)) c]> (tasks s))
    (upd (lists s) l al) (vars s) (pxCurrentTCB s) (pxDelayedTaskList s) (pxOverflowDelayedTaskList s).

Lemma wp_listRemove s k t c l (Q : Z → kernel → Prop) :
  tasks s !! t = Some c → pvContainer (item k c) = Some l →
  (∀ n, Q n (detached k t c l s)) → wp (listRemove k t) Q s.
Proof.
  intros Hc Hl HQ. unfold listRemove. apply wp_bind. eapply wp_tcb; [done|]. apply wp_bind.
  eapply wp_lift_opt; [done|]. apply wp_bind, wp_gets, wp_bind, wp_modify, wp_bind.
  eapply wp_set_container; [done|]. apply wp_gets. apply HQ.
Qed.

Lemma wp_listInsertEnd s k t c l (Q : unit → kernel → Prop) :
  tasks s !! t = Some c → Q tt (attached k t c l (al_insert_end t (lists s l)) s) → wp (listInsertEnd k l t) Q s.
Proof.
  intros Hc HQ. unfold listInsertEnd. apply wp_bind, wp_gets, wp_bind, wp_modify.
  by eapply wp_set_container.
Qed.

Lemma wp_listInsert s k t c l (Q : unit → kernel → Prop) :
  tasks s !! t = Some c → Q tt (attached k t c l (al_insert (values k s) t (lists s l)) s) → wp (listInsert k l t) Q s.
Proof.
  intros Hc HQ. unfold listInsert. apply wp_bind, wp_gets, wp_bind, wp_gets, wp_bind, wp_modify.
  by eapply wp_set_container.
Qed.

(** *** State items *)

Lemma detached_state s t c l :
  inv None s → tasks s !! t = Some c → pvContainer (xStateListItem c) = Some l →
  inv (Some t) (detached StateItem t c l s).
Proof.
  intros Hi Hc Hl. destruct (i_task _ _ Hi t c Hc) as [P B R S V E]. pose proof (i_top _ _ Hi).
  eapply (inv_update None (Some t) s _ t c _ l (al_remove t (lists s l))); simpl; try done; try lia; auto.
  - apply (coh_remove (tasks s) (lists s) StateItem); [apply Hi|done|done].
  - intros p -> Hne. apply Hi. intros Hn. apply Hne. by rewrite Hn.
  - intros Hd. apply (sorted_list_ext (tasks s)).
    + intros t' _. by eapply svalue_same.
    + unfold al_remove. simpl. apply sorted_list_filter. destruct Hd as [-> | ->]; apply Hi.
Qed.

(** Attaching a state item to a list that is not a ready list. *)
Lemma attached_state s t c l al :
  inv (Some t) s → tasks s !! t = Some c → kind_of l = StateItem → (∀ p, l ≠ pxReadyTasksLists p) →
  wf_alist al → (∀ y, y ∈ items al ↔ y = t ∨ y ∈ items (lists s l)) →
  (l = xDelayedTaskList1 ∨ l = xDelayedTaskList2 → sorted_list (tasks s) (items al)) →
  inv None (attached StateItem t c l al s).
Proof.
  intros Hi Hc Hk Hr Hw Hal Hs. destruct (i_task _ _ Hi t c Hc) as [P B R S V E]. pose proof (i_top _ _ Hi).
  eapply (inv_update (Some t) None s _ t c _ l al); simpl; try done; try lia; auto.
  - constructor; simpl; try done. intros p [= ->]. by destruct (Hr p).
  - apply (coh_add (tasks s) (lists s) StateItem); [apply Hi|done| |done..]. by apply S.
  - intros p ->. by destruct (Hr p).
  - intros Hd. eapply sorted_list_ext; [|by apply Hs]. intros t' _. by eapply svalue_same.
Qed.

(** The task is not in the list it is about to enter. *)
Lemma not_in_list s x t c l : inv x s → tasks s !! t = Some c →
  pvContainer (item (kind_of l) c) = None → t ∉ items (lists s l).
Proof.
  intros Hi Hc Hn Hin. apply (coh_in _ _ (i_coh _ _ Hi)) in Hin. unfold container in Hin. rewrite Hc in Hin. congruence.
Qed.

Lemma detached_none s t c : inv (Some t) s → tasks s !! t = Some c → pvContainer (xStateListItem c) = None.
Proof. intros Hi Hc. by apply (t_state _ _ _ (i_task _ _ Hi t c Hc)). Qed.

Lemma state_some s t c : inv None s → tasks s !! t = Some c → ∃ l, pvContainer (xStateListItem c) = Some l.
Proof.
  intros Hi Hc. destruct (pvContainer (xStateListItem c)) as [l|] eqn:E; [by eexists|].
  apply (t_state _ _ _ (i_task _ _ Hi t c Hc)) in E. done.
Qed.

Definition set_container_of (k : kind) (o : option listid) (c : TCB_t) : TCB_t :=
  set_item k (ListItem (xItemValue (item k c)) o) c.

Lemma remove_state_ok s t c l (Q : Z → kernel → Prop) :
  inv None s → tasks s !! t = Some c → pvContainer (xStateListItem c) = Some l →
  (∀ n s', inv (Some t) s' → tasks s' = <[t := set_container_of StateItem None c]> (tasks s) →
    lists s' = upd (lists s) l (al_remove t (lists s l)) → vars s' = vars s → frame s s' → Q n s') →
  wp (listRemove StateItem t) Q s.
Proof.
  intros Hi Hc Hl HQ. eapply wp_listRemove; [done|done|]. intros n.
  apply HQ; [by apply detached_state|done..].
Qed.

Lemma add_ready_ok s t c (Q : unit → kernel → Prop) :
  inv (Some t) s → tasks s !! t = Some c →
  let l := pxReadyTasksLists (uxPriority c) in
  (∀ s', inv None s' → tasks s' = <[t := set_container_of StateItem (Some l) c]> (tasks s) →
    lists s' = upd (lists s) l (al_insert_end t (lists s l)) → frame s s' → Q tt s') →
  wp (prvAddTaskToReadyList t) Q s.
Proof.
  intros Hi Hc l HQ. destruct (i_task _ _ Hi t c Hc) as [P B R S V E]. pose proof (i_top _ _ Hi).
  assert (pvContainer (xStateListItem c) = None) as Hn by (by apply S).
  pose proof (not_in_list s (Some t) t c l Hi Hc Hn) as Hnin.
  pose proof (coh_wf _ _ (i_coh _ _ Hi) l) as Hw.
  assert (∀ s1, tasks s1 = tasks s → lists s1 = lists s → frame s s1 →
    uxPriority c <= vars s1 uxTopReadyPriority < configMAX_PRIORITIES → vars s uxTopReadyPriority <= vars s1 uxTopReadyPriority →
    wp (listInsertEnd StateItem l t) Q s1) as Hins.
  { intros s1 Et El F Htop1 Htop2. eapply wp_listInsertEnd; [by rewrite Et|]. apply HQ.
    - destruct F. apply (inv_update (Some t) None s _ t c (set_container_of StateItem (Some l) c) l (al_insert_end t (lists s l)));
        simpl; rewrite ?Et, ?El; try done; try lia; auto.
      + constructor; simpl; try done. by intros p [= ->].
      + apply (coh_add (tasks s) (lists s) StateItem); [apply Hi|done|done|done| |].
        * by apply insert_end_wf.
        * intros y. by apply items_insert_end.
      + intros p [= <-] _. lia.
      + intros [|]; done.
    - simpl. by rewrite Et.
    - simpl. by rewrite El.
    - etrans; [exact F|by split]. }
  unfold prvAddTaskToReadyList. apply wp_bind. eapply wp_tcb; [done|]. apply wp_bind.
  unfold taskRECORD_READY_PRIORITY. apply wp_bind, wp_gets. destruct (Z.ltb_spec (vars s uxTopReadyPriority) (uxPriority c)).
  - apply wp_modify. apply Hins; simpl; rewrite ?upd_eq; try done; try lia.
    split; simpl; try done. intros x Hx. by rewrite upd_ne.
  - apply wp_ret. apply Hins; try done; lia.
Qed.

(** *** Event items *)

Lemma event_tcb_ok x t c v o :
  tcb_ok x t c → in_range 32 v → tcb_ok x t (set_item EventItem (ListItem v o) c).
Proof. intros [] Hv. by constructor. Qed.

Lemma detached_event x s t c l :
  inv x s → tasks s !! t = Some c → (x = None ∨ x = Some t) → pvContainer (xEventListItem c) = Some l →
  inv x (detached EventItem t c l s).
Proof.
  intros Hi Hc Hx Hl. pose proof (i_task _ _ Hi t c Hc) as Hok. pose proof (i_top _ _ Hi).
  assert (kind_of l = EventItem) as Hk.
  { apply (coh_kind _ _ (i_coh _ _ Hi) EventItem t). unfold container. by rewrite Hc. }
  eapply (inv_update x x s _ t c _ l (al_remove t (lists s l))); simpl; try done; try lia; auto.
  - apply event_tcb_ok; [done|]. apply Hok.
  - apply (coh_remove (tasks s) (lists s) EventItem); [apply Hi|done|done].
  - by intros p ->.
  - by intros [-> | ->].
Qed.

Lemma attached_event x s t c l al :
  inv x s → tasks s !! t = Some c → (x = None ∨ x = Some t) → pvContainer (xEventListItem c) = None →
  kind_of l = EventItem → wf_alist al → (∀ y, y ∈ items al ↔ y = t ∨ y ∈ items (lists s l)) →
  inv x (attached EventItem t c l al s).
Proof.
  intros Hi Hc Hx Hn Hk Hw Hal. pose proof (i_task _ _ Hi t c Hc) as Hok. pose proof (i_top _ _ Hi).
  eapply (inv_update x x s _ t c _ l al); simpl; try done; try lia; auto.
  - apply event_tcb_ok; [done|]. apply Hok.
  - by apply (coh_add (tasks s) (lists s) EventItem); [apply Hi|..].
  - by intros p ->.
  - by intros [-> | ->].
Qed.

Lemma remove_event_ok x s t c l (Q : Z → kernel → Prop) :
  inv x s → tasks s !! t = Some c → (x = None ∨ x = Some t) → pvContainer (xEventListItem c) = Some l →
  (∀ n s', inv x s' → tasks s' = <[t := set_container_of EventItem None c]> (tasks s) →
    lists s' = upd (lists s) l (al_remove t (lists s l)) → vars s' = vars s → frame s s' → Q n s') →
  wp (listRemove EventItem t) Q s.
Proof.
  intros Hi Hc Hx Hl HQ. eapply wp_listRemove; [done|done|]. intros n.
  apply HQ; [by apply detached_event|done..].
Qed.

Lemma remove_event_item_ok x s t c (Q : unit → kernel → Prop) :
  inv x s → tasks s !! t = Some c → (x = None ∨ x = Some t) →
  (∀ s', inv x s' → tasks s' = <[t := set_container_of EventItem None c]> (tasks s) →
    (∀ l, kind_of l = StateItem → lists s' l = lists s l) → vars s' = vars s → frame s s' → Q tt s') →
  wp (remove_event_item t) Q s.
Proof.
  intros Hi Hc Hx HQ. unfold remove_event_item. apply wp_bind. eapply wp_tcb; [done|].
  destruct (pvContainer (xEventListItem c)) as [l|] eqn:Hl.
  - apply wp_bind. eapply remove_event_ok; [done..|]. intros n s' Hi' Et El Ev F. apply wp_ret.
    apply HQ; try done. intros l' Hk. rewrite El, upd_ne; [done|]. intros ->.
    pose proof (coh_kind _ _ (i_coh _ _ Hi) EventItem t l) as Hk'. unfold container in Hk'. rewrite Hc in Hk'.
    specialize (Hk' Hl). congruence.
  - apply wp_ret. apply HQ; try done. rewrite insert_id; [done|]. rewrite Hc. f_equal. destruct c as [? [v o] ]. simpl in *.
    by subst o.
Qed.

Lemma insertEnd_event_ok x s t c l (Q : unit → kernel → Prop) :
  inv x s → tasks s !! t = Some c → (x = None ∨ x = Some t) → pvContainer (xEventListItem c) = None →
  kind_of l = EventItem →
  (∀ s', inv x s' → tasks s' = <[t := set_container_of EventItem (Some l) c]> (tasks s) →
    lists s' = upd (lists s) l (al_insert_end t (lists s l)) → vars s' = vars s → frame s s' → Q tt s') →
  wp (listInsertEnd EventItem l t) Q s.
Proof.
  intros Hi Hc Hx Hn Hk HQ. eapply wp_listInsertEnd; [done|].
  pose proof (coh_wf _ _ (i_coh _ _ Hi) l) as Hw.
  apply HQ; try done. apply attached_event; try done.
  - apply insert_end_wf; [done|]. eapply not_in_list; [done|done|by rewrite Hk].
  - intros y. by apply items_insert_end.
Qed.

Lemma insert_event_ok x s t c l (Q : unit → kernel → Prop) :
  inv x s → tasks s !! t = Some c → (x = None ∨ x = Some t) → pvContainer (xEventListItem c) = None →
  kind_of l = EventItem →
  (∀ s', inv x s' → tasks s' = <[t := set_container_of EventItem (Some l) c]> (tasks s) →
    lists s' = upd (lists s) l (al_insert (values EventItem s) t (lists s l)) → vars s' = vars s → frame s s' → Q tt s') →
  wp (listInsert EventItem l t) Q s.
Proof.
  intros Hi Hc Hx Hn Hk HQ. eapply wp_listInsert; [done|].
  pose proof (coh_wf _ _ (i_coh _ _ Hi) l) as Hw.
  apply HQ; try done. apply attached_event; try done.
  - apply insert_wf; [done|]. eapply not_in_list; [done|done|by rewrite Hk].
  - intros y. by apply items_insert.
Qed.
