(* ===== verification/RtosTime.v ===== *)
(** * The kernel's clock

    xTickCount is a 32-bit counter and a delayed task waits in one of two lists
    that are exchanged when it wraps.  Here the counter is related to an
    unbounded clock [T] and every delayed task to a deadline on that clock. *)

From Stdlib Require Import ZArith Lia Sorted.
From S2P Require Import Prelude RtosList RtosListSpec RtosKernel RtosKernelSpec.
Local Open Scope Z_scope.
Local Open Scope pim_scope.

(** ** Waking tasks *)

(** A task after its state item went to its ready list and its event item to none. *)
Definition woken (c : TCB_t) : TCB_t :=
  TCB (ListItem (xItemValue (xStateListItem c)) (Some (pxReadyTasksLists (uxPriority c))))
    (ListItem (xItemValue (xEventListItem c)) None)
    (uxPriority c) (uxBasePriority c) (uxMutexesHeld c) (ulNotifiedValue c) (ucNotifyState c).

Definition expired (d : listid) (tick : Z) (c : TCB_t) : bool :=
  bool_decide (pvContainer (xStateListItem c) = Some d) && (xItemValue (xStateListItem c) <=? tick).

Definition wake (d : listid) (tick : Z) (c : TCB_t) : TCB_t := if expired d tick c then woken c else c.

(** What a tick leaves alone. *)
Record tick_frame (s s' : kernel) : Prop := {
  tf_cur : pxCurrentTCB s' = pxCurrentTCB s;
  tf_delayed : pxDelayedTaskList s' = pxDelayedTaskList s;
  tf_overflow : pxOverflowDelayedTaskList s' = pxOverflowDelayedTaskList s;
  tf_vars : ∀ x, x ≠ uxTopReadyPriority → x ≠ xNextTaskUnblockTime → vars s' x = vars s x
}.

#[global] Instance tick_frame_trans : Transitive tick_frame.
Proof.
  intros s1 s2 s3 [C1 D1 O1 V1] [C2 D2 O2 V2]. split; [congruence..|]. intros x H1 H2. by rewrite V2, V1.
Qed.

Lemma frame_tick_frame s s' : frame s s' → tick_frame s s'.
Proof. intros [C D O V]. split; [done..|]. intros x H1 _. by apply V. Qed.

Lemma in_list s x l t : inv x s → t ∈ items (lists s l) → ∃ c, tasks s !! t = Some c ∧ pvContainer (item (kind_of l) c) = Some l.
Proof.
  intros Hi Hin. apply (coh_in _ _ (i_coh _ _ Hi)) in Hin. unfold container in Hin.
  destruct (tasks s !! t) as [c|]; [|done]. by exists c.
Qed.

Lemma list_in s x l t c : inv x s → tasks s !! t = Some c → pvContainer (item (kind_of l) c) = Some l → t ∈ items (lists s l).
Proof. intros Hi Hc Hl. apply (coh_in _ _ (i_coh _ _ Hi)). unfold container. by rewrite Hc. Qed.

Lemma head_is_min s x l t ts c :
  inv x s → kind_of l = StateItem → items (lists s l) = t :: ts → sorted_list (tasks s) (t :: ts) →
  tasks s !! t = Some c →
  ∀ t' c', tasks s !! t' = Some c' → pvContainer (xStateListItem c') = Some l →
    xItemValue (xStateListItem c) <= xItemValue (xStateListItem c').
Proof.
  intros Hi Hk Hl Hs Hc t' c' Hc' Hcont.
  assert (t' ∈ t :: ts) as Hin by (rewrite <-Hl; eapply list_in; [done|done|by rewrite Hk]).
  apply list_elem_of_In in Hin as [->|Hin]; [simplify_eq; lia|]. apply list_elem_of_In in Hin.
  apply StronglySorted_inv in Hs as [_ Hf]. rewrite Forall_forall in Hf. specialize (Hf t' Hin).
  unfold svalue in Hf. by rewrite Hc, Hc' in Hf.
Qed.

Lemma empty_none s x l t c : inv x s → kind_of l = StateItem → items (lists s l) = [] →
  tasks s !! t = Some c → pvContainer (xStateListItem c) ≠ Some l.
Proof.
  intros Hi Hk Hl Hc Hcont. pose proof (list_in s x l t c Hi Hc) as Hin. rewrite Hk, Hl in Hin.
  by apply Hin, not_elem_of_nil in Hcont.
Qed.

Lemma fmap_wake_id (ts : gmap task TCB_t) d tick :
  (∀ t c, ts !! t = Some c → expired d tick c = false) → wake d tick <$> ts = ts.
Proof.
  intros H. apply map_eq. intros t. rewrite lookup_fmap. destruct (ts !! t) as [c|] eqn:E; simpl; [|done].
  unfold wake. by rewrite (H t c E).
Qed.

(** *** The loop of xTaskIncrementTick() *)

(** The test of the switch flag over the tasks that wake. *)
Definition wakes_equal_or_higher (ts : gmap task TCB_t) (d : listid) (tick prio : Z) : Prop :=
  ∃ t c, ts !! t = Some c ∧ expired d tick c = true ∧ prio <= uxPriority c.

Definition loop_post (s : kernel) (d : listid) (tick : Z) (sw : bool) (prio : Z) (r : bool) (s' : kernel) : Prop :=
  inv None s' ∧ tick_frame s s' ∧ tasks s' = wake d tick <$> tasks s ∧
  (∀ t c, tasks s' !! t = Some c → pvContainer (xStateListItem c) = Some d →
    vars s' xNextTaskUnblockTime <= xItemValue (xStateListItem c) ∧ tick < xItemValue (xStateListItem c)) ∧
  (r = true ↔ sw = true ∨ wakes_equal_or_higher (tasks s) d tick prio) ∧
  (∀ l, kind_of l = StateItem → (∀ p, l ≠ pxReadyTasksLists p) → l ≠ d → lists s' l = lists s l).

Lemma inv_var y s x v : x ≠ uxTopReadyPriority → inv y s →
  inv y (Kernel (tasks s) (lists s) (upd (vars s) x v) (pxCurrentTCB s) (pxDelayedTaskList s) (pxOverflowDelayedTaskList s)).
Proof. intros Hx [C T Tp R P Cu S1 S2]. constructor; simpl; rewrite ?upd_ne by done; done. Qed.

(** The loop ends: nothing in the list has expired. *)
Lemma loop_end s d tick sw prio v :
  inv None s → d = pxDelayedTaskList s →
  (∀ t c, tasks s !! t = Some c → pvContainer (xStateListItem c) = Some d →
    v <= xItemValue (xStateListItem c) ∧ tick < xItemValue (xStateListItem c)) →
  wp (wr xNextTaskUnblockTime v;; ret sw) (loop_post s d tick sw prio) s.
Proof.
  intros Hi Hd Hv. apply wp_bind, wp_modify, wp_ret.
  assert (∀ t c, tasks s !! t = Some c → expired d tick c = false) as Hne.
  { intros t c Hc. unfold expired. case_bool_decide as E; [|done]. destruct (Hv t c Hc E). simpl. lia. }
  split_and!.
  - by apply inv_var.
  - split; try done. intros x _ Hx. simpl. by rewrite upd_ne.
  - simpl. by rewrite fmap_wake_id.
  - simpl. rewrite upd_eq. exact Hv.
  - split; [by left|]. intros [?|(t & c & Hc & He & _)]; [done|]. rewrite (Hne t c Hc) in He. done.
  - done.
Qed.

Lemma woken_eq c :
  set_container_of StateItem (Some (pxReadyTasksLists (uxPriority c)))
    (set_container_of EventItem None (set_container_of StateItem None c)) = woken c.
Proof. done. Qed.

Lemma wake_woken d tick c : (∀ p, d ≠ pxReadyTasksLists p) → wake d tick (woken c) = woken c.
Proof. intros Hd. unfold wake, expired. simpl. rewrite bool_decide_eq_false_2; [done|]. intros [= E]. by eapply Hd. Qed.

(** One iteration that wakes the head [t]. *)
Lemma wake_one {A} s t c l (k : K A) (Q : A → kernel → Prop) :
  inv None s → tasks s !! t = Some c → pvContainer (xStateListItem c) = Some l → (∀ p, l ≠ pxReadyTasksLists p) →
  (∀ s', inv None s' → frame s s' → tasks s' = <[t := woken c]> (tasks s) →
    lists s' l = al_remove t (lists s l) →
    (∀ l', kind_of l' = StateItem → (∀ p, l' ≠ pxReadyTasksLists p) → l' ≠ l → lists s' l' = lists s l') →
    wp k Q s') →
  wp (_ ← listRemove StateItem t; remove_event_item t;; prvAddTaskToReadyList t;; k) Q s.
Proof.
  intros Hi Hc Hl Hnr HQ.
  assert (kind_of l = StateItem) as Hk.
  { apply (coh_kind _ _ (i_coh _ _ Hi) StateItem t). unfold container. by rewrite Hc. }
  apply wp_bind. eapply remove_state_ok; [done..|].
  intros n s1 I1 T1 L1 V1 F1. apply wp_bind.
  eapply remove_event_item_ok; [exact I1|rewrite T1; apply lookup_insert_eq|by right|].
  intros s2 I2 T2 L2 V2 F2. rewrite T1, insert_insert_eq in T2.
  apply wp_bind. eapply add_ready_ok; [exact I2|rewrite T2; apply lookup_insert_eq|].
  intros s3 I3 T3 L3 F3. rewrite T2, insert_insert_eq in T3. simpl in L3. apply HQ.
  - done.
  - by do 2 (etrans; [eassumption|]).
  - exact T3.
  - rewrite L3, upd_ne by done. rewrite L2 by done. rewrite L1. apply upd_eq.
  - intros l' Hk' Hnr' Hne. rewrite L3, upd_ne by done. rewrite L2 by done. rewrite L1. by rewrite upd_ne.
Qed.

Lemma length_remove x al : wf_alist al → x ∈ items al → length (items al) = S (length (items (al_remove x al))).
Proof.
  intros [N _] Hin. destruct (list_elem_of_split _ _ Hin) as (xs & ys & Hi). unfold al_remove. simpl.
  rewrite Hi in N |- *. rewrite filter_middle by done. rewrite !length_app. simpl. lia.
Qed.

Lemma unblock_loop_ok fuel s d tick sw cur cc :
  inv None s → d = pxDelayedTaskList s → (length (items (lists s d)) <= fuel)%nat → in_range 32 tick →
  pxCurrentTCB s = Some cur → tasks s !! cur = Some cc →
  wp (unblock_loop fuel tick sw) (loop_post s d tick sw (uxPriority cc)) s.
Proof.
  revert s sw cc. induction fuel as [|fuel IH]; intros s sw cc Hi Hd Hf Ht Hcur Hcc.
  all: destruct (i_delayed _ _ Hi) as (_ & Hk & _ & Hnr & _ & Hsort & _); rewrite <-Hd in Hk, Hnr, Hsort.
  all: simpl; apply wp_bind, wp_gets; rewrite <-Hd; apply wp_bind, wp_gets.
  all: destruct (items (lists s d)) as [|t ts] eqn:Hitems;
    [rewrite bool_decide_eq_true_2 by done|rewrite bool_decide_eq_false_2 by done].
  1,3: apply loop_end; [done|done|]; intros t c Hc Hl; exfalso; by eapply empty_none.
  { simpl in Hf. lia. }
  destruct (in_list s None d t Hi) as (c & Hc & Hl); [rewrite Hitems; by left|]. rewrite Hk in Hl. simpl in Hl.
  pose proof (head_is_min s None d t ts c Hi Hk Hitems Hsort Hc) as Hmin.
  apply wp_bind. unfold head_owner. apply wp_bind, wp_gets. rewrite Hitems. apply wp_ret. apply wp_bind.
  eapply wp_tcb; [done|]. destruct (Z.ltb_spec tick (xItemValue (xStateListItem c))) as [Hlt|Hge].
  { apply loop_end; [done|done|]. intros t' c' Hc' Hl'. specialize (Hmin t' c' Hc' Hl'). lia. }
  eapply wake_one; [done..|]. intros s1 I1 F1 T1 L1 L1'.
  assert (expired d tick c = true) as Hexp.
  { unfold expired. rewrite bool_decide_eq_true_2 by done. simpl. lia. }
  apply wp_bind. eapply wp_current; [by rewrite (f_cur _ _ F1)|]. apply wp_bind.
  eapply wp_tcb; [rewrite T1; apply lookup_insert_eq|]. apply wp_bind.
  assert (∃ cc', tasks s1 !! cur = Some cc' ∧ uxPriority cc' = uxPriority cc) as (cc' & Hcc' & Hp).
  { rewrite T1, lookup_insert. case_decide; [subst|by eexists]. simplify_eq. by eexists. }
  eapply wp_tcb; [exact Hcc'|]. rewrite Hp. cbn [uxPriority woken].
  eapply wp_mono; [apply (IH s1 _ cc'); try done|].
  - by rewrite (f_delayed _ _ F1).
  - rewrite L1. pose proof (length_remove t (lists s d) (coh_wf _ _ (i_coh _ _ Hi) d)) as Hlen.
    rewrite Hitems in Hlen. specialize (Hlen ltac:(by left)). simpl in Hlen, Hf |- *. lia.
  - by rewrite (f_cur _ _ F1).
  - intros r s' (I' & F' & T' & N' & R' & L').
    assert (tasks s' = wake d tick <$> tasks s) as Hts.
    { rewrite T', T1, fmap_insert, wake_woken by done.
      replace (woken c) with (wake d tick c) by (unfold wake; by rewrite Hexp).
      rewrite <-fmap_insert. by rewrite insert_id. }
    split_and!; try done.
    + etrans; [by apply frame_tick_frame|done].
    + rewrite R', Hp, orb_true_iff, Z.leb_le. unfold wakes_equal_or_higher. split.
      * intros [[?|?]|(t' & c' & Hc' & He & Hle)]; [by left|by right; exists t, c|].
        right. rewrite T1, lookup_insert in Hc'. case_decide; [|by exists t', c'].
        simplify_eq. unfold expired in He. simpl in He. rewrite bool_decide_eq_false_2 in He; [done|].
        intros [= E]. by eapply Hnr.
      * intros [?|(t' & c' & Hc' & He & Hle)]; [by do 2 left|]. destruct (decide (t' = t)) as [->|Hne].
        -- simplify_eq. left. by right.
        -- right. exists t', c'. by rewrite T1, lookup_insert_ne.
    + intros l' Hk' Hnr' Hne. rewrite L' by done. by apply L1'.
Qed.

(** ** Deadlines on an unbounded clock *)

(** The period of the tick counter. *)
Definition EPOCH : Z := 2 ^ 32.

(** The time at which a task is due, when it waits in one of the delayed lists. *)
Definition deadline (T : Z) (s : kernel) (c : TCB_t) : option Z :=
  if decide (pvContainer (xStateListItem c) = Some (pxDelayedTaskList s)) then
    Some (T / EPOCH * EPOCH + xItemValue (xStateListItem c))
  else if decide (pvContainer (xStateListItem c) = Some (pxOverflowDelayedTaskList s)) then
    Some ((T / EPOCH + 1) * EPOCH + xItemValue (xStateListItem c))
  else None.

Record timed (T : Z) (s : kernel) : Prop := {
  tm_inv : inv None s;
  tm_pos : 0 <= T;
  tm_tick : vars s xTickCount = T mod EPOCH;
  tm_overflows : vars s xNumOfOverflows = T / EPOCH;
  tm_deadline : ∀ t c D, tasks s !! t = Some c → deadline T s c = Some D → T < D;
  tm_next : ∀ t c, tasks s !! t = Some c → pvContainer (xStateListItem c) = Some (pxDelayedTaskList s) →
    vars s xNextTaskUnblockTime <= xItemValue (xStateListItem c);
  tm_cur : is_Some (pxCurrentTCB s)
}.

Lemma epoch_next T : 0 <= T → T mod EPOCH + 1 < EPOCH →
  (T + 1) / EPOCH = T / EPOCH ∧ (T + 1) mod EPOCH = T mod EPOCH + 1.
Proof.
  intros HT Hm. unfold EPOCH in *. pose proof (Z.div_mod T (2 ^ 32)). pose proof (Z.mod_pos_bound T (2 ^ 32)).
  split; [symmetry; apply Z.div_unique with (T mod 2 ^ 32 + 1)|symmetry; apply Z.mod_unique with (T / 2 ^ 32)]; lia.
Qed.

Lemma epoch_wrap T : 0 <= T → T mod EPOCH + 1 = EPOCH →
  (T + 1) / EPOCH = T / EPOCH + 1 ∧ (T + 1) mod EPOCH = 0 ∧ T + 1 = (T / EPOCH + 1) * EPOCH.
Proof.
  intros HT Hm. unfold EPOCH in *. pose proof (Z.div_mod T (2 ^ 32)).
  split_and!; [symmetry; apply Z.div_unique with 0|symmetry; apply Z.mod_unique with (T / 2 ^ 32 + 1)|]; lia.
Qed.

Lemma epoch_bounds T : T = T / EPOCH * EPOCH + T mod EPOCH ∧ 0 <= T mod EPOCH < EPOCH.
Proof. unfold EPOCH. pose proof (Z.div_mod T (2 ^ 32)). pose proof (Z.mod_pos_bound T (2 ^ 32)). lia. Qed.

Definition second_half (tick : Z) : K bool :=
  next ← rd xNextTaskUnblockTime;
  xSwitchRequired ←
    (if next <=? tick then
       d ← gets pxDelayedTaskList;
       al ← list_of d;
       unblock_loop (length (items al)) tick false
     else ret false);
  cur ← current;
  c ← tcb cur;
  n ← list_length (pxReadyTasksLists (uxPriority c));
  ret (xSwitchRequired || (1 <? n)).

(** The tick after the counter and the lists have been advanced. *)
Lemma second_half_ok s tick cur cc :
  inv None s → in_range 32 tick → pxCurrentTCB s = Some cur → tasks s !! cur = Some cc →
  (∀ t c, tasks s !! t = Some c → pvContainer (xStateListItem c) = Some (pxDelayedTaskList s) →
    vars s xNextTaskUnblockTime <= xItemValue (xStateListItem c)) →
  let d := pxDelayedTaskList s in
  wp (second_half tick) (λ r s',
    inv None s' ∧ tick_frame s s' ∧ tasks s' = wake d tick <$> tasks s ∧
    (∀ t c, tasks s' !! t = Some c → pvContainer (xStateListItem c) = Some d →
      vars s' xNextTaskUnblockTime <= xItemValue (xStateListItem c) ∧ tick < xItemValue (xStateListItem c)) ∧
    (r = true ↔ wakes_equal_or_higher (tasks s) d tick (uxPriority cc) ∨
      (1 < length (items (lists s' (pxReadyTasksLists (uxPriority cc)))))%nat)) s.
Proof.
  intros Hi Htick Hcur Hcc Hnext d. unfold second_half. apply wp_bind, wp_gets, wp_bind.
  eapply (wp_mono _ (loop_post s d tick false (uxPriority cc))).
  { destruct (Z.leb_spec (vars s xNextTaskUnblockTime) tick) as [Hle|Hgt].
    - apply wp_bind, wp_gets, wp_bind, wp_gets. by eapply unblock_loop_ok.
    - apply wp_ret.
      assert (∀ t c, tasks s !! t = Some c → expired d tick c = false) as Hne.
      { intros t c Hc. unfold expired. case_bool_decide as E; [|done]. specialize (Hnext t c Hc E). simpl. lia. }
      split_and!; try done.
      + by rewrite fmap_wake_id.
      + intros t c Hc Hl. specialize (Hnext t c Hc Hl). lia.
      + split; [done|]. intros [|(t & c & Hc & He & _)]; [done|]. by rewrite (Hne t c Hc) in He. }
  intros sw s' (I' & F' & T' & N' & R' & L').
  assert (∃ cc', tasks s' !! cur = Some cc' ∧ uxPriority cc' = uxPriority cc) as (cc' & Hcc' & Hp).
  { rewrite T', lookup_fmap, Hcc. simpl. eexists; split; [done|]. unfold wake. by case_match. }
  apply wp_bind. eapply wp_current; [by rewrite (tf_cur _ _ F')|]. apply wp_bind. eapply wp_tcb; [done|].
  apply wp_bind, wp_gets, wp_ret. rewrite Hp. split_and!; try done.
  rewrite orb_true_iff, R', Z.ltb_lt. split; [intros [[|]|]|intros [|]]; try done; [by left|right; lia|by left; right|right; lia].
Qed.

(** What a tick does, [T] being the time before it. *)
Record tick_post (T : Z) (s : kernel) (prio : Z) (r : bool) (s' : kernel) : Prop := {
  tp_timed : timed (T + 1) s';
  tp_tasks : tasks s' = (λ c, if decide (deadline T s c = Some (T + 1)) then woken c else c) <$> tasks s;
  tp_same : ∀ t c, tasks s !! t = Some c → deadline T s c ≠ Some (T + 1) → deadline (T + 1) s' c = deadline T s c;
  tp_cur : pxCurrentTCB s' = pxCurrentTCB s;
  tp_vars : ∀ x, x ∉ [uxTopReadyPriority; xNextTaskUnblockTime; xTickCount; xNumOfOverflows] → vars s' x = vars s x;
  tp_switch : r = true ↔
    (∃ t c, tasks s !! t = Some c ∧ deadline T s c = Some (T + 1) ∧ prio <= uxPriority c) ∨
    (1 < length (items (lists s' (pxReadyTasksLists prio))))%nat ∨ vars s xYieldPending ≠ 0
}.

Lemma deadline_woken_none T s x c : inv x s → deadline T s (woken c) = None.
Proof.
  intros Hi. destruct (i_delayed _ _ Hi) as (_ & _ & _ & H1 & H2 & _). unfold deadline. simpl.
  rewrite !decide_False; [done|intros [= E]; by eapply H2|intros [= E]; by eapply H1].
Qed.

(** From the state after the counter and the lists have been advanced. *)
Lemma tick_finish T s s2 cur cc :
  timed T s → inv None s2 → tasks s2 = tasks s → pxCurrentTCB s2 = pxCurrentTCB s →
  pxCurrentTCB s = Some cur → tasks s !! cur = Some cc →
  vars s2 xTickCount = (T + 1) mod EPOCH → vars s2 xNumOfOverflows = (T + 1) / EPOCH →
  (∀ x, x ∉ [uxTopReadyPriority; xNextTaskUnblockTime; xTickCount; xNumOfOverflows] → vars s2 x = vars s x) →
  (∀ t c, tasks s !! t = Some c → deadline (T + 1) s2 c = deadline T s c) →
  (∀ t c, tasks s !! t = Some c → pvContainer (xStateListItem c) = Some (pxDelayedTaskList s2) →
    vars s2 xNextTaskUnblockTime <= xItemValue (xStateListItem c)) →
  wp (sw ← second_half ((T + 1) mod EPOCH); y ← rd xYieldPending; ret (sw || negb (y =? 0)))
    (tick_post T s (uxPriority cc)) s2.
Proof.
  intros Ht Hi2 Et Ec Hcur Hcc Htick Hovf Hvars Hdead Hnext. pose proof (epoch_bounds (T + 1)) as [HT HR].
  assert (in_range 32 ((T + 1) mod EPOCH)) as Hr by exact HR.
  destruct (i_delayed _ _ Hi2) as (Hdo & _).
  assert (∀ t c, tasks s !! t = Some c →
    expired (pxDelayedTaskList s2) ((T + 1) mod EPOCH) c = bool_decide (deadline T s c = Some (T + 1))) as Hexp.
  { intros t c Hc. pose proof (Hdead t c Hc) as Hd. unfold expired.
    pose proof (tm_deadline _ _ Ht t c) as Hlater.
    destruct (decide (pvContainer (xStateListItem c) = Some (pxDelayedTaskList s2))) as [E|E].
    - rewrite (bool_decide_eq_true_2 _ E). simpl. rewrite <-Hd in *. unfold deadline in Hlater |- *.
      rewrite decide_True in Hlater |- * by done. specialize (Hlater _ Hc eq_refl).
      case_bool_decide as E2; [injection E2; lia|]. apply Z.leb_gt. apply Znot_ge_lt. intros Hge. apply E2. f_equal. lia.
    - rewrite (bool_decide_eq_false_2 _ E). symmetry. apply bool_decide_eq_false_2. rewrite <-Hd. unfold deadline.
      rewrite decide_False by done. case_decide; [|done]. intros [= E2].
      destruct (t_svalue _ _ _ (i_task _ _ (tm_inv _ _ Ht) t c Hc)). lia. }
  apply wp_bind. eapply wp_mono; [apply (second_half_ok s2 _ cur cc); rewrite ?Et, ?Ec; done|].
  intros sw s3 (I3 & F3 & T3 & N3 & R3). rewrite Et in T3, R3. apply wp_bind, wp_gets, wp_ret. pose proof F3 as [C3 D3 O3 V3].
  assert (tasks s3 = (λ c, if decide (deadline T s c = Some (T + 1)) then woken c else c) <$> tasks s) as Hts.
  { rewrite T3. apply map_fmap_ext. intros t c Hc. unfold wake. rewrite (Hexp t c Hc).
    case_bool_decide; [by rewrite decide_True|by rewrite decide_False]. }
  assert (∀ c, deadline (T + 1) s3 c = deadline (T + 1) s2 c) as Hd3 by (intros c; unfold deadline; by rewrite D3, O3).
  split; try done.
  - split; try done.
    + pose proof (tm_pos _ _ Ht). lia.
    + by rewrite V3.
    + by rewrite V3.
    + intros t c D Hc HD. rewrite Hts, lookup_fmap in Hc. destruct (tasks s !! t) as [c0|] eqn:Hc0; [|done].
      injection Hc as <-. rewrite Hd3 in HD. case_decide as Ed.
      * by rewrite (deadline_woken_none _ _ _ _ Hi2) in HD.
      * rewrite (Hdead t c0 Hc0) in HD. pose proof (tm_deadline _ _ Ht t c0 D Hc0 HD).
        assert (D ≠ T + 1) by congruence. lia.
    + intros t c Hc Hl. rewrite D3 in Hl. by destruct (N3 t c Hc Hl).
    + by rewrite C3, Ec, Hcur.
  - intros t c Hc _. rewrite Hd3. by apply (Hdead t).
  - by rewrite C3.
  - intros x Hx. rewrite V3 by set_solver. by apply Hvars.
  - rewrite orb_true_iff, R3, negb_true_iff, Z.eqb_neq.
    assert (vars s3 xYieldPending = vars s xYieldPending) as Hy by (rewrite V3 by done; apply Hvars; set_solver).
    rewrite Hy. unfold wakes_equal_or_higher.
    assert ((∃ t c, tasks s !! t = Some c ∧ expired (pxDelayedTaskList s2) ((T + 1) mod EPOCH) c = true ∧ uxPriority cc <= uxPriority c) ↔
      (∃ t c, tasks s !! t = Some c ∧ deadline T s c = Some (T + 1) ∧ uxPriority cc <= uxPriority c)) as ->; [|tauto].
    split; intros (t & c & Hc & He & Hle); exists t, c; rewrite (Hexp t c Hc) in *; split_and!; try done;
      [by apply bool_decide_eq_true in He|by apply bool_decide_eq_true].
Qed.

(** Reads of a variable after assignments. *)
Ltac upd_simpl := repeat (rewrite upd_eq || rewrite upd_ne by done).

Lemma u32_tick T : u32 (T mod EPOCH + 1) = (T + 1) mod EPOCH.
Proof. unfold wrap, EPOCH. by rewrite Zplus_mod_idemp_l. Qed.

Lemma deadline_ptr T T' s s2 c :
  pxDelayedTaskList s2 = pxDelayedTaskList s → pxOverflowDelayedTaskList s2 = pxOverflowDelayedTaskList s →
  T' / EPOCH = T / EPOCH → deadline T' s2 c = deadline T s c.
Proof. intros H1 H2 H3. unfold deadline. by rewrite H1, H2, H3. Qed.

(** prvResetNextTaskUnblockTime() sets a time that no delayed task precedes. *)
Lemma reset_next_ok s (Q : unit → kernel → Prop) :
  inv None s →
  (∀ v, let s' := Kernel (tasks s) (lists s) (upd (vars s) xNextTaskUnblockTime v) (pxCurrentTCB s)
      (pxDelayedTaskList s) (pxOverflowDelayedTaskList s) in
    inv None s' →
    (∀ t c, tasks s !! t = Some c → pvContainer (xStateListItem c) = Some (pxDelayedTaskList s) →
      v <= xItemValue (xStateListItem c)) → Q tt s') →
  wp prvResetNextTaskUnblockTime Q s.
Proof.
  intros Hi HQ. destruct (i_delayed _ _ Hi) as (_ & Hk & _ & _ & _ & Hsort & _).
  unfold prvResetNextTaskUnblockTime. apply wp_bind, wp_gets, wp_bind, wp_gets.
  destruct (items (lists s (pxDelayedTaskList s))) as [|t ts] eqn:Hitems;
    [rewrite bool_decide_eq_true_2 by done|rewrite bool_decide_eq_false_2 by done].
  - apply wp_modify. apply HQ; [by apply inv_var|]. intros t c Hc Hl. exfalso. by eapply empty_none.
  - destruct (in_list s None (pxDelayedTaskList s) t Hi) as (c & Hc & Hl); [rewrite Hitems; by left|].
    apply wp_bind. unfold head_owner. apply wp_bind, wp_gets. rewrite Hitems. apply wp_ret. apply wp_bind.
    eapply wp_tcb; [done|]. apply wp_modify. apply HQ; [by apply inv_var|]. by eapply head_is_min.
Qed.

(** At the wrap of the counter no task is left in the current list. *)
Lemma wrap_empty T s : timed T s → T mod EPOCH + 1 = EPOCH → items (lists s (pxDelayedTaskList s)) = [].
Proof.
  intros Ht Hm. destruct (items _) as [|t ts] eqn:E; [done|]. exfalso. pose proof (tm_inv _ _ Ht) as Hi.
  destruct (i_delayed _ _ Hi) as (_ & Hk & _).
  destruct (in_list s None (pxDelayedTaskList s) t Hi) as (c & Hc & Hl); [rewrite E; by left|]. rewrite Hk in Hl. simpl in Hl.
  assert (deadline T s c = Some (T / EPOCH * EPOCH + xItemValue (xStateListItem c))) as Hd.
  { unfold deadline. by rewrite decide_True. }
  pose proof (tm_deadline _ _ Ht t c _ Hc Hd). pose proof (t_svalue _ _ _ (i_task _ _ Hi t c Hc)) as [_ Hv].
  pose proof (epoch_bounds T). unfold EPOCH in *. lia.
Qed.

Lemma inv_switch_lists s v1 v2 x1 x2 :
  inv None s → x1 ≠ uxTopReadyPriority → x2 ≠ uxTopReadyPriority →
  inv None (Kernel (tasks s) (lists s) (upd (upd (vars s) x1 v1) x2 v2) (pxCurrentTCB s)
    (pxOverflowDelayedTaskList s) (pxDelayedTaskList s)).
Proof.
  intros [C T Tp R P Cu S1 S2] H1 H2. constructor; simpl; rewrite ?upd_ne by done; try done.
  destruct P as [[= -> ->]|[= -> ->]]; auto.
Qed.

Lemma tick_ok T s cur cc :
  timed T s → vars s uxSchedulerSuspended = 0 → pxCurrentTCB s = Some cur → tasks s !! cur = Some cc →
  wp xTaskIncrementTick (tick_post T s (uxPriority cc)) s.
Proof.
  intros Ht Hs Hcur Hcc. pose proof (tm_inv _ _ Ht) as Hi. pose proof (tm_pos _ _ Ht) as Hpos.
  destruct (epoch_bounds T) as [Hq Hm]. unfold xTaskIncrementTick. apply wp_bind, wp_gets. rewrite Hs. simpl (0 =? 0).
  cbv iota. apply wp_bind. apply wp_bind, wp_gets. rewrite (tm_tick _ _ Ht), u32_tick. apply wp_bind, wp_modify.
  apply wp_bind.
  set (s1 := Kernel (tasks s) (lists s) (upd (vars s) xTickCount ((T + 1) mod EPOCH)) (pxCurrentTCB s)
    (pxDelayedTaskList s) (pxOverflowDelayedTaskList s)).
  assert (inv None s1) as Hi1 by (by apply inv_var).
  destruct (Z.eq_dec (T mod EPOCH + 1) EPOCH) as [Hwrap|Hnw].
  - destruct (epoch_wrap T Hpos Hwrap) as (Hd' & Hm' & HT'). rewrite Hm'. simpl (0 =? 0). cbv iota.
    pose proof (wrap_empty T s Ht Hwrap) as Hempty. destruct (i_delayed _ _ Hi) as (_ & Hk & _).
    unfold taskSWITCH_DELAYED_LISTS. apply wp_bind, wp_gets, wp_bind, wp_gets, wp_bind, wp_gets, wp_bind.
    eapply wp_assert; [simpl; by rewrite Hempty|]. apply wp_bind, wp_modify, wp_bind, wp_gets, wp_bind, wp_modify.
    eapply reset_next_ok; [by apply (inv_switch_lists s)|]. intros v s2 Hi2 Hv.
    pose proof (tick_finish T s s2 cur cc Ht) as Hfin. rewrite Hm' in Hfin.
    apply (wp_unbind (second_half 0)). apply Hfin; try done; simpl; upd_simpl; try done.
    + by rewrite (tm_overflows _ _ Ht), Hd'.
    + intros x Hx. by rewrite !upd_ne by set_solver.
    + intros t c Hc. pose proof (empty_none s None _ t c Hi Hk Hempty Hc) as Hno. unfold deadline. simpl. rewrite Hd'.
      by rewrite !(decide_False (P := pvContainer (xStateListItem c) = Some (pxDelayedTaskList s))) by done.
  - destruct (epoch_next T Hpos ltac:(lia)) as (Hd' & Hm').
    assert ((T + 1) mod EPOCH =? 0 = false) as -> by lia.
    apply wp_ret. pose proof (tick_finish T s s1 cur cc Ht) as Hfin.
    apply (wp_unbind (second_half ((T + 1) mod EPOCH))).
    apply Hfin; try done; simpl; upd_simpl; try done.
    + by rewrite Hd', (tm_overflows _ _ Ht).
    + intros x Hx. by rewrite upd_ne by set_solver.
    + intros t c Hc. by apply deadline_ptr.
    + apply Ht.
Qed.

(** ** Delaying *)

Lemma timed_var T s x v :
  timed T s → x ∉ [uxTopReadyPriority; xNextTaskUnblockTime; xTickCount; xNumOfOverflows] →
  timed T (Kernel (tasks s) (lists s) (upd (vars s) x v) (pxCurrentTCB s) (pxDelayedTaskList s) (pxOverflowDelayedTaskList s)).
Proof.
  intros [I P Tk O D N C] Hx. split; simpl; rewrite ?upd_ne by set_solver; try done.
  apply inv_var; [set_solver|done].
Qed.

(** A sorted insertion of the detached task [t] in one of the delayed lists. *)
Lemma insert_delayed_ok s t c l (Q : unit → kernel → Prop) :
  inv (Some t) s → tasks s !! t = Some c → l = xDelayedTaskList1 ∨ l = xDelayedTaskList2 →
  (∀ s', inv None s' → tasks s' = <[t := set_container_of StateItem (Some l) c]> (tasks s) → vars s' = vars s →
    frame s s' → Q tt s') →
  wp (listInsert StateItem l t) Q s.
Proof.
  intros Hi Hc Hl HQ. eapply wp_listInsert; [done|].
  assert (kind_of l = StateItem ∧ ∀ p, l ≠ pxReadyTasksLists p) as [Hk Hnr] by (by destruct Hl as [-> | ->]).
  apply HQ; try done. apply attached_state; try done.
  - apply insert_wf; [apply (coh_wf _ _ (i_coh _ _ Hi))|]. eapply not_in_list; [done..|].
    rewrite Hk. by eapply detached_none.
  - intros y. apply items_insert.
  - intros _. simpl. apply sorted_list_insert; [done|]. destruct Hl as [-> | ->]; apply Hi.
Qed.

(** The task control block of a task that delays until [v] in list [l]. *)
Definition delayed_tcb (v : Z) (l : listid) (c : TCB_t) : TCB_t := set_item StateItem (ListItem v (Some l)) c.

Record delay_post (T n : Z) (s : kernel) (t : task) (c : TCB_t) (s' : kernel) : Prop := {
  dp_timed : timed T s';
  dp_tasks : ∃ v l, tasks s' = <[t := delayed_tcb v l c]> (tasks s) ∧ deadline T s' (delayed_tcb v l c) = Some (T + n);
  dp_cur : pxCurrentTCB s' = pxCurrentTCB s;
  dp_delayed : pxDelayedTaskList s' = pxDelayedTaskList s;
  dp_overflow : pxOverflowDelayedTaskList s' = pxOverflowDelayedTaskList s;
  dp_vars : ∀ x, x ≠ xNextTaskUnblockTime → vars s' x = vars s x
}.

(** Assembles the clock invariant after a task has entered a delayed list. *)
Lemma timed_delayed T n s s' t c v l :
  timed T s → tasks s !! t = Some c → inv None s' → tasks s' = <[t := delayed_tcb v l c]> (tasks s) →
  pxCurrentTCB s' = pxCurrentTCB s → pxDelayedTaskList s' = pxDelayedTaskList s →
  pxOverflowDelayedTaskList s' = pxOverflowDelayedTaskList s →
  (∀ x, x ≠ xNextTaskUnblockTime → vars s' x = vars s x) →
  vars s' xNextTaskUnblockTime <= vars s xNextTaskUnblockTime →
  (l = pxDelayedTaskList s → vars s' xNextTaskUnblockTime <= v) →
  0 < n → deadline T s (delayed_tcb v l c) = Some (T + n) →
  delay_post T n s t c s'.
Proof.
  intros Ht Hc Hi Et Ec Ed Eo Hv Hn1 Hn2 Hn Hd.
  assert (∀ c, deadline T s' c = deadline T s c) as Hds by (intros c'; by apply deadline_ptr).
  split; try done.
  - destruct Ht as [I P Tk O D N C]. split; try done.
    + by rewrite Hv.
    + by rewrite Hv.
    + intros t' c' D' Hc' HD. rewrite Hds in HD. rewrite Et, lookup_insert in Hc'. case_decide; [|by eapply D].
      simplify_eq. lia.
    + intros t' c' Hc' Hl. rewrite Ed in Hl. rewrite Et, lookup_insert in Hc'. case_decide.
      * simplify_eq. simpl in Hl |- *. apply Hn2. congruence.
      * etrans; [exact Hn1|]. by eapply N.
    + by rewrite Ec.
  - exists v, l. split; [done|]. by rewrite Hds.
Qed.

Lemma wake_time T n : 0 <= T → 0 < n < EPOCH →
  let v := u32 (T mod EPOCH + n) in
  in_range 32 v ∧
  if v <? T mod EPOCH then (T / EPOCH + 1) * EPOCH + v = T + n else T / EPOCH * EPOCH + v = T + n.
Proof.
  intros HT Hn v. destruct (epoch_bounds T) as [Hq Hm]. unfold v, wrap, EPOCH in *. clear v.
  split; [apply Z.mod_pos_bound; lia|].
  destruct (Z.lt_ge_cases (T mod 2 ^ 32 + n) (2 ^ 32)).
  - rewrite Z.mod_small by lia. destruct (Z.ltb_spec (T mod 2 ^ 32 + n) (T mod 2 ^ 32)); lia.
  - assert ((T mod 2 ^ 32 + n) mod 2 ^ 32 = T mod 2 ^ 32 + n - 2 ^ 32) as ->.
    { symmetry. apply Z.mod_unique with 1; lia. }
    destruct (Z.ltb_spec (T mod 2 ^ 32 + n - 2 ^ 32) (T mod 2 ^ 32)); lia.
Qed.

(** prvAddCurrentTaskToDelayedList(), when the wait is not for ever. *)
Lemma delay_ok T n b s t c (Q : unit → kernel → Prop) :
  timed T s → pxCurrentTCB s = Some t → tasks s !! t = Some c → 0 < n < EPOCH → (n =? portMAX_DELAY) && b = false →
  (∀ s', delay_post T n s t c s' → Q tt s') →
  wp (prvAddCurrentTaskToDelayedList n b) Q s.
Proof.
  intros Ht Hcur Hc Hn Hb HQ. pose proof (tm_inv _ _ Ht) as Hi. destruct (state_some s t c Hi Hc) as [l0 Hl0].
  unfold prvAddCurrentTaskToDelayedList. apply wp_bind, wp_gets, wp_bind. eapply wp_current; [done|].
  apply wp_bind. eapply remove_state_ok; [done..|]. intros _ s1 I1 T1 L1 V1 F1. rewrite Hb.
  destruct (wake_time T n (tm_pos _ _ Ht) Hn) as [Hvr Hvd]. rewrite <-(tm_tick _ _ Ht) in Hvr, Hvd.
  set (v := u32 (vars s xTickCount + n)) in *.
  apply wp_bind. eapply wp_set_value; [rewrite T1; apply lookup_insert_eq|]. rewrite T1, insert_insert_eq.
  set (s2 := Kernel _ _ _ _ _ _).
  assert (inv (Some t) s2) as I2.
  { eapply (inv_tcb (Some t) s1 t _ _ s2); [done|rewrite T1; apply lookup_insert_eq|by right|unfold s2; by rewrite T1, insert_insert_eq|..].
    - destruct (i_task _ _ Hi t c Hc). by constructor.
    - by intros [].
    - by right. }
  assert (∀ l s', tasks s' = <[t := set_container_of StateItem (Some l) (set_item StateItem (ListItem v None) c)]> (tasks s2) →
    tasks s' = <[t := delayed_tcb v l c]> (tasks s)) as Hts.
  { intros l s' ->. simpl. by rewrite insert_insert_eq. }
  assert (tasks s2 !! t = Some (set_item StateItem (ListItem v None) c)) as Hc2 by (simpl; apply lookup_insert_eq).
  assert (frame s s2) as F2 by (destruct F1; by split).
  pose proof (i_ptr _ _ Hi) as Hptr. destruct (i_delayed _ _ Hi) as (Hdo & _).
  destruct (Z.ltb_spec v (vars s xTickCount)) as [Hlt|Hge].
  - apply wp_bind, wp_gets. eapply insert_delayed_ok; [exact I2|exact Hc2|..].
    { rewrite (f_overflow _ _ F2). destruct Hptr as [[= E1 E2]|[= E1 E2]]; rewrite E2; auto. }
    intros s3 I3 T3 V3 F3. apply HQ. rewrite (f_overflow _ _ F2) in T3. pose proof (frame_trans _ _ _ F2 F3) as F.
    eapply (timed_delayed T n s s3 t c v (pxOverflowDelayedTaskList s)); try done; try apply F; try lia.
    + by apply Hts.
    + intros x Hx. rewrite V3. simpl. by rewrite V1.
    + rewrite V3. simpl. by rewrite V1.
    + unfold deadline. simpl. rewrite decide_False by congruence. by rewrite decide_True, Hvd.
  - apply wp_bind, wp_gets, wp_bind. eapply insert_delayed_ok; [exact I2|exact Hc2|..].
    { rewrite (f_delayed _ _ F2). destruct Hptr as [[= E1 E2]|[= E1 E2]]; rewrite E1; auto. }
    intros s3 I3 T3 V3 F3. rewrite (f_delayed _ _ F2) in T3. pose proof (frame_trans _ _ _ F2 F3) as F.
    assert (vars s3 = vars s) as V by (rewrite V3; simpl; by rewrite V1).
    assert (deadline T s (delayed_tcb v (pxDelayedTaskList s) c) = Some (T + n)) as Hd.
    { unfold deadline. simpl. by rewrite decide_True, Hvd. }
    apply wp_bind, wp_gets. destruct (Z.ltb_spec v (vars s3 xNextTaskUnblockTime)) as [H1|H1].
    + apply wp_modify, HQ. eapply (timed_delayed T n s _ t c v (pxDelayedTaskList s)); simpl; try done; try apply F; try lia.
      * by apply inv_var.
      * by apply Hts.
      * intros x Hx. rewrite upd_ne by done. by rewrite V.
      * rewrite upd_eq. rewrite V in H1. lia.
    + apply wp_ret, HQ. eapply (timed_delayed T n s _ t c v (pxDelayedTaskList s)); simpl; try done; try apply F; try lia.
      * by apply Hts.
      * intros x Hx. by rewrite V.
      * by rewrite V.
Qed.
