(* ===== verification/RtosSched.v ===== *)
(** * Scheduling: sequences of ticks, resuming the scheduler, context switches *)

From Stdlib Require Import ZArith Lia Sorted.
From S2P Require Import Prelude RtosList RtosListSpec RtosKernel RtosKernelSpec RtosTime.
Local Open Scope Z_scope.
Local Open Scope pim_scope.

(** ** Several ticks *)

(** A task that is due within [k] ticks. *)
Definition due (T k : Z) (s : kernel) (c : TCB_t) : bool :=
  match deadline T s c with Some D => D <=? T + k | None => false end.

(** The variables a tick may change. *)
Abbreviation clock_vars := [uxTopReadyPriority; xNextTaskUnblockTime; xTickCount; xNumOfOverflows] (only parsing).

(** Time has advanced by [k] and exactly the tasks that were due have woken. *)
Record advanced (T k : Z) (s s' : kernel) : Prop := {
  ad_timed : timed (T + k) s';
  ad_tasks : tasks s' = (λ c, if due T k s c then woken c else c) <$> tasks s;
  ad_same : ∀ t c, tasks s !! t = Some c → due T k s c = false → deadline (T + k) s' c = deadline T s c
}.

Record ticks_post (T k : Z) (s s' : kernel) : Prop := {
  ts_adv : advanced T k s s';
  ts_cur : pxCurrentTCB s' = pxCurrentTCB s;
  ts_vars : ∀ x, x ∉ clock_vars → x ≠ xYieldPending → vars s' x = vars s x
}.

Lemma advanced_zero T s s' :
  timed T s → timed T s' → tasks s' = tasks s → pxDelayedTaskList s' = pxDelayedTaskList s →
  pxOverflowDelayedTaskList s' = pxOverflowDelayedTaskList s → advanced T 0 s s'.
Proof.
  intros Ht Ht' Et Ed Eo. split; try done.
  - by rewrite Z.add_0_r.
  - rewrite Et. symmetry. rewrite <-(map_fmap_id (tasks s)) at 2. apply map_fmap_ext. intros t c Hc. simpl.
    unfold due. destruct (deadline T s c) as [D|] eqn:E; [|done]. pose proof (tm_deadline _ _ Ht t c D Hc E).
    by rewrite (proj2 (Z.leb_gt D (T + 0))) by lia.
  - intros. rewrite Z.add_0_r. by apply deadline_ptr.
Qed.

Lemma ticks_zero T s : timed T s → ticks_post T 0 s s.
Proof. intros Ht. split; [by apply advanced_zero|done..]. Qed.

Lemma advanced_trans T k j s s1 s2 :
  0 <= k → 0 <= j → advanced T k s s1 → advanced (T + k) j s1 s2 → advanced T (k + j) s s2.
Proof.
  intros Hk Hj [Ht1 T1 S1] [Ht2 T2 S2]. rewrite <-Z.add_assoc in Ht2, S2.
  assert (∀ c, due T k s c = true → due T (k + j) s c = true) as Hnow.
  { intros c. unfold due. destruct (deadline T s c); [|done]. rewrite !Z.leb_le. lia. }
  assert (∀ t c, tasks s !! t = Some c → due T k s c = false → due (T + k) j s1 c = due T (k + j) s c) as Hlater.
  { intros t c Hc E. unfold due. rewrite (S1 t c Hc E). by rewrite Z.add_assoc. }
  split; try done.
  - rewrite T2, T1, <-map_fmap_compose. apply map_fmap_ext. intros t c Hc. simpl. destruct (due T k s c) eqn:E.
    + rewrite (Hnow c E). unfold due. by rewrite (deadline_woken_none _ _ _ _ (tm_inv _ _ Ht1)).
    + by rewrite (Hlater t c Hc E).
  - intros t c Hc Hd. assert (due T k s c = false) as E.
    { destruct (due T k s c) eqn:E; [|done]. by rewrite (Hnow c E) in Hd. }
    rewrite <-(S1 t c Hc E). apply (S2 t).
    + rewrite T1, lookup_fmap, Hc. simpl. by rewrite E.
    + by rewrite (Hlater t c Hc E).
Qed.

Lemma tick_advanced T s prio r s' : timed T s → tick_post T s prio r s' → advanced T 1 s s'.
Proof.
  intros Ht [Ht' Ts Sm _ _ _].
  assert (∀ t c, tasks s !! t = Some c → due T 1 s c = bool_decide (deadline T s c = Some (T + 1))) as Hdue.
  { intros t c Hc. unfold due. destruct (deadline T s c) as [D|] eqn:E; [|by rewrite bool_decide_eq_false_2].
    pose proof (tm_deadline _ _ Ht t c D Hc E). case_bool_decide as E2; [injection E2; lia|].
    apply Z.leb_gt. assert (D ≠ T + 1) by congruence. lia. }
  split; try done.
  - rewrite Ts. apply map_fmap_ext. intros t c Hc. rewrite (Hdue t c Hc).
    case_bool_decide; [by rewrite decide_True|by rewrite decide_False].
  - intros t c Hc Hd. rewrite (Hdue t c Hc) in Hd. apply bool_decide_eq_false in Hd. by apply (Sm t).
Qed.

Lemma ticks_step T k s s1 s2 prio r :
  timed T s → 0 <= k → tick_post T s prio r s1 → ticks_post (T + 1) k s1 s2 → ticks_post T (1 + k) s s2.
Proof.
  intros Ht Hk P1 [A2 C2 V2]. split.
  - eapply advanced_trans; [lia|done|by eapply tick_advanced|done].
  - rewrite C2. apply P1.
  - intros x H1 H2. rewrite V2 by done. by apply P1.
Qed.

Lemma ticks_var T k s s' v :
  ticks_post T k (Kernel (tasks s) (lists s) (upd (vars s) xYieldPending v) (pxCurrentTCB s)
    (pxDelayedTaskList s) (pxOverflowDelayedTaskList s)) s' → ticks_post T k s s'.
Proof.
  intros [[Ht Ts Sm] C V]. split; [by split|done|]. intros y Hy Hne. rewrite V by done. simpl. by rewrite upd_ne.
Qed.

Lemma timed_cur T s : timed T s → ∃ cur cc, pxCurrentTCB s = Some cur ∧ tasks s !! cur = Some cc.
Proof.
  intros Ht. destruct (tm_cur _ _ Ht) as [cur Hcur]. destruct (i_cur _ _ (tm_inv _ _ Ht) cur Hcur) as [cc Hcc]. eauto.
Qed.

Lemma pended_ticks_ok k T s :
  timed T s → vars s uxSchedulerSuspended = 0 →
  wp (pended_ticks k) (λ _ s', ticks_post T (Z.of_nat k) s s') s.
Proof.
  revert T s. induction k as [|k IH]; intros T s Ht Hs; [by apply wp_ret, ticks_zero|].
  destruct (timed_cur T s Ht) as (cur & cc & Hcur & Hcc). cbn [pended_ticks]. apply wp_bind.
  eapply wp_mono; [by eapply tick_ok|]. intros b s1 P1.
  assert (vars s1 uxSchedulerSuspended = 0) as Hs1 by (rewrite (tp_vars _ _ _ _ _ P1); [done|set_solver]).
  replace (Z.of_nat (S k)) with (1 + Z.of_nat k) by lia. apply wp_bind. destruct b.
  - apply wp_modify. eapply wp_mono; [apply (IH (T + 1))|].
    + apply timed_var; [apply P1|set_solver].
    + simpl. by rewrite upd_ne.
    + intros [] s2 P2. eapply ticks_step; [done|lia|exact P1|]. by eapply ticks_var.
  - apply wp_ret. eapply wp_mono; [apply (IH (T + 1)); [apply P1|done]|].
    intros [] s2 P2. eapply ticks_step; [done|lia|exact P1|exact P2].
Qed.

(** ** Resuming the scheduler *)

(** A task an interrupt has readied while the scheduler was suspended. *)
Definition pending (c : TCB_t) : bool := bool_decide (pvContainer (xEventListItem c) = Some xPendingReadyList).

Definition drain (c : TCB_t) : TCB_t := if pending c then woken c else c.

(** Waking tasks keeps the clock invariant. *)
Lemma timed_wake T s s' :
  timed T s → inv None s' →
  (∀ t c', tasks s' !! t = Some c' → ∃ c, tasks s !! t = Some c ∧ (c' = c ∨ c' = woken c)) →
  pxCurrentTCB s' = pxCurrentTCB s → pxDelayedTaskList s' = pxDelayedTaskList s →
  pxOverflowDelayedTaskList s' = pxOverflowDelayedTaskList s →
  (∀ x, x ∈ [xTickCount; xNumOfOverflows; xNextTaskUnblockTime] → vars s' x = vars s x) →
  timed T s'.
Proof.
  intros [I P Tk O D N C] I' Hts Ec Ed Eo Hv.
  assert (∀ c, deadline T s' c = deadline T s c) as Hds by (intros c; by apply deadline_ptr).
  split; rewrite ?Ec; try done.
  - rewrite Hv; [done|set_solver].
  - rewrite Hv; [done|set_solver].
  - intros t c' D' Hc' HD. destruct (Hts t c' Hc') as (c & Hc & [-> | ->]).
    + rewrite Hds in HD. by eapply D.
    + by rewrite (deadline_woken_none _ _ _ _ I') in HD.
  - intros t c' Hc' Hl. rewrite Hv by set_solver. destruct (Hts t c' Hc') as (c & Hc & [-> | ->]).
    + rewrite Ed in Hl. by eapply N.
    + destruct (i_delayed _ _ I') as (_ & _ & _ & Hnr & _). simpl in Hl. injection Hl as E. by destruct (Hnr _ (eq_sym E)).
Qed.

Lemma woken_idem c : woken (woken c) = woken c.
Proof. done. Qed.

Lemma drain_woken c : drain (woken c) = woken c.
Proof. done. Qed.

Record pending_post (s s' : kernel) : Prop := {
  pp_inv : inv None s';
  pp_tasks : tasks s' = drain <$> tasks s;
  pp_cur : pxCurrentTCB s' = pxCurrentTCB s;
  pp_delayed : pxDelayedTaskList s' = pxDelayedTaskList s;
  pp_overflow : pxOverflowDelayedTaskList s' = pxOverflowDelayedTaskList s;
  pp_vars : ∀ x, x ≠ uxTopReadyPriority → x ≠ xYieldPending → vars s' x = vars s x
}.

Lemma list_nil s l : inv None s → (∀ t c, tasks s !! t = Some c → pvContainer (item (kind_of l) c) ≠ Some l) →
  items (lists s l) = [].
Proof.
  intros Hi H. destruct (items (lists s l)) as [|t ts] eqn:E; [done|]. exfalso.
  destruct (in_list s None l t Hi) as (c & Hc & Hl); [rewrite E; by left|]. by eapply H.
Qed.

Lemma pending_loop_ok fuel s found cur :
  inv None s → pxCurrentTCB s = Some cur → (length (items (lists s xPendingReadyList)) <= fuel)%nat →
  wp (pending_loop fuel found) (λ _ s', pending_post s s') s.
Proof.
  revert s found. induction fuel as [|fuel IH]; intros s found Hi Hcur Hf.
  all: cbn [pending_loop]; apply wp_bind, wp_gets.
  all: destruct (items (lists s xPendingReadyList)) as [|t ts] eqn:Hitems;
    [rewrite bool_decide_eq_true_2 by done|rewrite bool_decide_eq_false_2 by done].
  1,3: apply wp_ret; split; try done; rewrite <-(map_fmap_id (tasks s)) at 1; apply map_fmap_ext; intros t c Hc;
    unfold drain, pending; rewrite bool_decide_eq_false_2; [done|]; intros Hl;
    pose proof (list_in s None xPendingReadyList t c Hi Hc Hl) as Hin; rewrite Hitems in Hin;
    by apply not_elem_of_nil in Hin.
  { simpl in Hf. lia. }
  destruct (in_list s None xPendingReadyList t Hi) as (c & Hc & Hl); [rewrite Hitems; by left|]. simpl in Hl.
  destruct (state_some s t c Hi Hc) as [l Hsl].
  apply wp_bind. unfold head_owner. apply wp_bind, wp_gets. rewrite Hitems. apply wp_ret.
  apply wp_bind. eapply remove_event_ok; [done|done|by left|done|]. intros _ s1 I1 T1 L1 V1 F1.
  apply wp_bind. eapply remove_state_ok; [exact I1|rewrite T1; apply lookup_insert_eq|exact Hsl|].
  intros _ s2 I2 T2 L2 V2 F2. rewrite T1, insert_insert_eq in T2.
  apply wp_bind. eapply add_ready_ok; [exact I2|rewrite T2; apply lookup_insert_eq|].
  intros s3 I3 T3 L3 F3. rewrite T2, insert_insert_eq in T3.
  pose proof (frame_trans _ _ _ (frame_trans _ _ _ F1 F2) F3) as [C3 D3 O3 V3].
  change (tasks s3 = <[t := woken c]> (tasks s)) in T3.
  assert (lists s3 xPendingReadyList = al_remove t (lists s xPendingReadyList)) as HL3.
  { rewrite L3, upd_ne by done. rewrite L2, upd_ne; [by rewrite L1, upd_eq|].
    intros <-. pose proof (coh_kind _ _ (i_coh _ _ Hi) StateItem t xPendingReadyList) as Hk. unfold container in Hk.
    rewrite Hc in Hk. by specialize (Hk Hsl). }
  apply wp_bind. eapply wp_current; [by rewrite C3|]. apply wp_bind.
  eapply wp_tcb; [rewrite T3; apply lookup_insert_eq|]. apply wp_bind.
  destruct (i_cur _ _ I3 cur) as [cc Hcc]; [by rewrite C3|]. eapply wp_tcb; [exact Hcc|].
  assert (∀ s4, inv None s4 → tasks s4 = tasks s3 → lists s4 = lists s3 → pxCurrentTCB s4 = pxCurrentTCB s3 →
    pxDelayedTaskList s4 = pxDelayedTaskList s3 → pxOverflowDelayedTaskList s4 = pxOverflowDelayedTaskList s3 →
    (∀ x, x ≠ xYieldPending → vars s4 x = vars s3 x) →
    wp (pending_loop fuel true) (λ _ s', pending_post s s') s4) as Hrec.
  { intros s4 I4 T4 L4 C4 D4 O4 V4. eapply wp_mono; [apply IH; [done|by rewrite C4, C3|]|].
    - rewrite L4, HL3. pose proof (length_remove t _ (coh_wf _ _ (i_coh _ _ Hi) xPendingReadyList)) as Hlen.
      rewrite Hitems in Hlen. specialize (Hlen ltac:(by left)). simpl in Hlen, Hf |- *. lia.
    - intros r s5 [I5 T5 C5 D5 O5 V5]. split; try done; try congruence.
      + rewrite T5, T4, T3, fmap_insert, drain_woken.
        replace (woken c) with (drain c); [rewrite <-fmap_insert; by rewrite insert_id|].
        unfold drain, pending. by rewrite bool_decide_eq_true_2.
      + intros x H1 H2. rewrite V5, V4, V3 by done. done. }
  apply wp_bind. destruct (uxPriority cc <=? _).
  - apply wp_modify. apply Hrec; try done; [by apply inv_var|]. intros x Hx. simpl. by rewrite upd_ne.
  - apply wp_ret. by apply Hrec.
Qed.

Record resume_post (T k : Z) (s : kernel) (r : bool) (s' : kernel) : Prop := {
  rp_timed : timed (T + k) s';
  rp_tasks : tasks s' = (λ c, if pending c || due T k s c then woken c else c) <$> tasks s;
  rp_same : ∀ t c, tasks s !! t = Some c → pending c || due T k s c = false → deadline (T + k) s' c = deadline T s c;
  rp_pending : items (lists s' xPendingReadyList) = [];
  rp_suspended : vars s' uxSchedulerSuspended = 0;
  rp_pended : vars s' uxPendedTicks = 0;
  rp_cur : pxCurrentTCB s' = pxCurrentTCB s;
  rp_yield : r = true → vars s' pendSV = 1;
  rp_vars : ∀ x, x ∈ [uxCurrentNumberOfTasks; xSchedulerRunning] → vars s' x = vars s x
}.

(** The state between the pending list and the pended ticks. *)
Lemma drained_post T s s1 s2 :
  timed T s → pending_post s s1 → inv None s2 → tasks s2 = tasks s1 → pxCurrentTCB s2 = pxCurrentTCB s1 →
  pxDelayedTaskList s2 = pxDelayedTaskList s1 → pxOverflowDelayedTaskList s2 = pxOverflowDelayedTaskList s1 →
  (∀ x, x ≠ xNextTaskUnblockTime → vars s2 x = vars s1 x) →
  (∀ t c, tasks s2 !! t = Some c → pvContainer (xStateListItem c) = Some (pxDelayedTaskList s2) →
    vars s2 xNextTaskUnblockTime <= xItemValue (xStateListItem c)) →
  timed T s2.
Proof.
  intros Ht [I1 T1 C1 D1 O1 V1] I2 Et Ec Ed Eo Ev Hn.
  assert (timed T s1) as Ht1.
  { apply (timed_wake T s); try done.
    - intros t c'. rewrite T1, lookup_fmap. destruct (tasks s !! t) as [c|]; [|done]. intros [= <-].
      exists c. split; [done|]. unfold drain. case_match; auto.
    - intros x Hx. apply V1; set_solver. }
  destruct Ht1 as [_ P Tk O D N C]. split; rewrite ?Ec; try done.
  - by rewrite Ev.
  - by rewrite Ev.
  - intros t c D' Hc HD. rewrite Et in Hc. apply (D t c); [done|]. rewrite <-HD. symmetry. by apply deadline_ptr.
Qed.

Lemma resume_assemble T k s s2 s3 :
  timed T s → timed T s2 → tasks s2 = drain <$> tasks s →
  pxDelayedTaskList s2 = pxDelayedTaskList s → pxOverflowDelayedTaskList s2 = pxOverflowDelayedTaskList s →
  pxCurrentTCB s2 = pxCurrentTCB s → ticks_post T k s2 s3 →
  tasks s3 = (λ c, if pending c || due T k s c then woken c else c) <$> tasks s ∧
  (∀ t c, tasks s !! t = Some c → pending c || due T k s c = false → deadline (T + k) s3 c = deadline T s c) ∧
  items (lists s3 xPendingReadyList) = [] ∧ pxCurrentTCB s3 = pxCurrentTCB s.
Proof.
  intros Ht Ht2 T2 D2 O2 C2 [[Ht3 T3 S3] C3 V3].
  assert (∀ c, deadline T s2 c = deadline T s c) as Hd by (intros c; by apply deadline_ptr).
  assert (∀ c, due T k s2 (woken c) = false) as Hw.
  { intros c. unfold due. by rewrite (deadline_woken_none _ _ _ _ (tm_inv _ _ Ht2)). }
  assert (tasks s3 = (λ c, if pending c || due T k s c then woken c else c) <$> tasks s) as Hts.
  { rewrite T3, T2, <-map_fmap_compose. apply map_fmap_ext. intros t c Hc. simpl. unfold drain.
    destruct (pending c); simpl; [by rewrite Hw|]. unfold due. by rewrite Hd. }
  split_and!; [done| | |congruence].
  - intros t c Hc [Hp Hdue]%orb_false_iff. rewrite <-Hd. apply (S3 t).
    + rewrite T2, lookup_fmap, Hc. simpl. unfold drain. by rewrite Hp.
    + rewrite <-Hdue. unfold due. by rewrite Hd.
  - apply list_nil; [apply Ht3|]. intros t c. rewrite Hts, lookup_fmap.
    destruct (tasks s !! t) as [c0|]; [|done]. intros [= <-]. destruct (pending c0) eqn:Hp; simpl; [done|].
    apply bool_decide_eq_false in Hp. by case_match.
Qed.

Lemma resume_all_ok T k s :
  timed T s → vars s uxSchedulerSuspended = 1 → 0 < vars s uxCurrentNumberOfTasks → vars s uxPendedTicks = k → 0 <= k →
  wp xTaskResumeAll (resume_post T k s) s.
Proof.
  intros Ht Hsus Hnum Hk Hk0. pose proof (tm_inv _ _ Ht) as Hi. destruct (timed_cur T s Ht) as (cur & cc & Hcur & Hcc).
  unfold xTaskResumeAll. apply wp_bind, wp_gets. rewrite Hsus. apply wp_bind. eapply wp_assert; [done|].
  apply wp_bind, wp_modify. simpl (1 - 1 =? 0). cbv iota. apply wp_bind, wp_gets. cbn [vars]. rewrite upd_ne by done.
  rewrite (proj2 (Z.ltb_lt 0 (vars s uxCurrentNumberOfTasks)) Hnum).
  set (s0 := Kernel _ _ _ _ _ _). assert (timed T s0) as Ht0 by (apply timed_var; [done|set_solver]).
  apply wp_bind, wp_gets, wp_bind.
  eapply wp_mono; [eapply (pending_loop_ok _ s0); [apply Ht0|done|done]|]. intros found s1 P1.
  pose proof P1 as [I1 T1 C1 D1 O1 V1]. simpl in T1, C1, D1, O1.
  apply wp_bind.
  eapply (wp_mono _ (λ _ s2, timed T s2 ∧ tasks s2 = tasks s1 ∧ pxCurrentTCB s2 = pxCurrentTCB s1 ∧
    pxDelayedTaskList s2 = pxDelayedTaskList s1 ∧ pxOverflowDelayedTaskList s2 = pxOverflowDelayedTaskList s1 ∧
    ∀ x, x ≠ xNextTaskUnblockTime → vars s2 x = vars s1 x)).
  { destruct found.
    - apply reset_next_ok; [done|]. intros v s2 I2 Hv.
      assert (∀ x, x ≠ xNextTaskUnblockTime → vars s2 x = vars s1 x) as Hx by (intros x Hx; simpl; by rewrite upd_ne).
      split_and!; try done. eapply (drained_post T s0 s1); try done.
    - apply wp_ret. split_and!; try done. eapply (drained_post T s0 s1); try done.
      intros t c Hc Hl. rewrite V1 by done. rewrite T1, lookup_fmap in Hc. destruct (tasks s !! t) as [c0|] eqn:E; [|done].
      injection Hc as <-. rewrite D1 in Hl. unfold drain in Hl |- *. destruct (pending c0).
      + exfalso. destruct (i_delayed _ _ Hi) as (_ & _ & _ & Hnr & _). simpl in Hl. injection Hl as E2. by destruct (Hnr _ (eq_sym E2)).
      + apply (tm_next _ _ Ht0 t); done. }
  intros _ s2 (Ht2 & T2 & C2 & D2 & O2 & V2). apply wp_bind, wp_gets.
  assert (vars s2 uxPendedTicks = k) as Hk2 by (rewrite V2, V1 by done; simpl; by rewrite upd_ne). rewrite Hk2.
  assert (vars s2 uxSchedulerSuspended = 0) as Hs2 by (rewrite V2, V1 by done; simpl; by rewrite upd_eq).
  apply wp_bind.
  eapply (wp_mono _ (λ _ s4, ∃ s3, ticks_post T k s2 s3 ∧ timed (T + k) s4 ∧ tasks s4 = tasks s3 ∧ lists s4 = lists s3 ∧
    pxDelayedTaskList s4 = pxDelayedTaskList s3 ∧ pxOverflowDelayedTaskList s4 = pxOverflowDelayedTaskList s3 ∧
    pxCurrentTCB s4 = pxCurrentTCB s3 ∧ vars s4 uxPendedTicks = 0 ∧ vars s4 uxSchedulerSuspended = 0 ∧
    ∀ x, x ∈ [uxCurrentNumberOfTasks; xSchedulerRunning] → vars s4 x = vars s x)).
  { assert (∀ x, x ∈ [uxCurrentNumberOfTasks; xSchedulerRunning] → vars s2 x = vars s x) as Hv.
    { intros x Hx. rewrite V2, V1 by set_solver. simpl. rewrite upd_ne by set_solver. done. }
    destruct (Z.ltb_spec 0 k).
    - apply wp_bind. eapply wp_mono; [apply (pended_ticks_ok _ T s2); done|]. intros [] s3 P3.
      rewrite Z2Nat.id in P3 by done. apply wp_modify. exists s3. split_and!; simpl; try done.
      + apply timed_var; [apply (ts_adv _ _ _ _ P3)|set_solver].
      + rewrite upd_ne by done. rewrite (ts_vars _ _ _ _ P3); [done|set_solver|done].
      + intros x Hx. rewrite upd_ne, (ts_vars _ _ _ _ P3) by set_solver. by apply Hv.
    - apply wp_ret. assert (k = 0) as -> by lia. exists s2. split_and!; try done; [by apply ticks_zero|by rewrite Z.add_0_r]. }
  intros _ s4 (s3 & P3 & Ht4 & T4 & L4 & D4 & O4 & C4 & Hp4 & Hs4 & Hv4).
  destruct (resume_assemble T k s s2 s3) as (A1 & A2 & A3 & A4); try congruence.
  assert (∀ c, deadline (T + k) s4 c = deadline (T + k) s3 c) as Hd4 by (intros c; by apply deadline_ptr).
  apply wp_bind, wp_gets. destruct (negb _).
  - apply wp_bind, wp_modify, wp_ret. split; simpl; upd_simpl; try done; try congruence.
    + apply timed_var; [done|set_solver].
    + intros t c Hc Hn. etrans; [|by eapply A2]. by rewrite <-Hd4.
    + intros x Hx. rewrite !upd_ne by set_solver. by apply Hv4.
  - apply wp_ret. split; try done; try congruence.
    + intros t c Hc Hn. rewrite Hd4. by eapply A2.
Qed.

(** ** Context switches *)

Lemma select_loop_ok s fuel p :
  (Z.to_nat p <= fuel)%nat → 0 <= p → (∃ q, 0 <= q <= p ∧ items (lists s (pxReadyTasksLists q)) ≠ []) →
  wp (select_loop fuel p) (λ r s', s' = s ∧ 0 <= r <= p ∧ items (lists s (pxReadyTasksLists r)) ≠ [] ∧
    ∀ q, r < q <= p → items (lists s (pxReadyTasksLists q)) = []) s.
Proof.
  revert p. induction fuel as [|fuel IH]; intros p Hf Hp (q & Hq & Hne).
  all: cbn [select_loop]; apply wp_bind, wp_gets; case_bool_decide as E;
    [|apply wp_ret; split_and!; [done|lia|lia|done|intros; lia]].
  all: assert (q ≠ p) by congruence.
  - lia.
  - apply wp_bind. eapply wp_assert; [rewrite negb_true_iff; lia|].
    eapply wp_mono; [apply (IH (p - 1)); [lia|lia|exists q; split; [lia|done]]|].
    intros r s' (-> & Hr & Hn & Hall). split_and!; [done|lia|lia|done|]. intros q' Hq'.
    destruct (Z.eq_dec q' p) as [->|]; [done|]. apply Hall. lia.
Qed.

(** Task [t] is ready. *)
Definition ready (s : kernel) (t : task) : Prop :=
  ∃ c p, tasks s !! t = Some c ∧ pvContainer (xStateListItem c) = Some (pxReadyTasksLists p).

Record switch_post (s s' : kernel) (p : Z) (t : task) : Prop := {
  sp_inv : inv None s';
  sp_tasks : tasks s' = tasks s;
  sp_cur : pxCurrentTCB s' = Some t;
  sp_delayed : pxDelayedTaskList s' = pxDelayedTaskList s;
  sp_overflow : pxOverflowDelayedTaskList s' = pxOverflowDelayedTaskList s;
  sp_vars : ∀ x, x ≠ uxTopReadyPriority → x ≠ xYieldPending → vars s' x = vars s x;
  sp_yield : vars s' xYieldPending = 0;
  sp_next : al_next_item (lists s (pxReadyTasksLists p)) = Some t;
  sp_lists : lists s' = upd (lists s) (pxReadyTasksLists p) (al_next (lists s (pxReadyTasksLists p)));
  sp_highest : ∀ q, items (lists s (pxReadyTasksLists q)) ≠ [] → q <= p
}.

Lemma al_next_item_some al : items al ≠ [] → ∃ t, al_next_item al = Some t.
Proof.
  intros Hne. unfold al_next_item. destruct (items al) as [|z zs]; [done|].
  destruct (index al) as [i|]; [|by eexists]. by destruct (after i (z :: zs)); eexists.
Qed.

Lemma ready_list s t : inv None s → ready s t → ∃ q, 0 <= q <= vars s uxTopReadyPriority ∧ items (lists s (pxReadyTasksLists q)) ≠ [].
Proof.
  intros Hi (c & p & Hc & Hl). exists p.
  assert (items (lists s (pxReadyTasksLists p)) ≠ []) as Hne.
  { intros E. pose proof (list_in s None (pxReadyTasksLists p) t c Hi Hc Hl) as Hin. rewrite E in Hin.
    by apply not_elem_of_nil in Hin. }
  destruct (i_task _ _ Hi t c Hc) as [P _ R _ _ _]. specialize (R p Hl). subst p.
  split; [split; [lia|by apply Hi]|done].
Qed.

Lemma switch_ok s t0 :
  inv None s → vars s uxSchedulerSuspended = 0 → ready s t0 →
  wp vTaskSwitchContext (λ _ s', ∃ p t, switch_post s s' p t) s.
Proof.
  intros Hi Hs Hr. destruct (ready_list s t0 Hi Hr) as (q & Hq & Hne). pose proof (i_top _ _ Hi) as Htop.
  unfold vTaskSwitchContext. apply wp_bind, wp_gets. rewrite Hs. simpl (negb (0 =? 0)). cbv iota.
  apply wp_bind, wp_modify. unfold taskSELECT_HIGHEST_PRIORITY_TASK. apply wp_bind, wp_gets. cbn [vars].
  rewrite upd_ne by done. set (s1 := Kernel _ _ _ _ _ _). assert (inv None s1) as Hi1 by (by apply inv_var).
  apply wp_bind. eapply wp_mono; [apply (select_loop_ok s1); [done|lia|by exists q]|].
  intros p s' (-> & Hp & Hpne & Hall). simpl in Hpne, Hall.
  destruct (al_next_item_some _ Hpne) as [t Ht].
  apply wp_bind, wp_gets, wp_bind, wp_modify, wp_bind. eapply wp_lift_opt; [exact Ht|].
  apply wp_bind, wp_modify, wp_modify. exists p, t.
  assert (∀ q, items (lists s (pxReadyTasksLists q)) ≠ [] → q <= p) as Hhigh.
  { intros q' Hq'. destruct (Z.le_gt_cases q' p); [done|]. exfalso. apply Hq', Hall. split; [done|]. by apply Hi. }
  destruct (in_list s None (pxReadyTasksLists p) t Hi) as (c & Hc & _); [by apply al_next_item_in|].
  split; simpl; upd_simpl; try done.
  - destruct Hi1 as [C T Tp R P Cu S1 S2]. constructor; simpl; upd_simpl; try done.
    + by apply coh_next.
    + lia.
    + intros q'. unfold upd at 1. case_decide as E; [injection E as ->; lia|]. apply Hhigh.
    + intros t' [= <-]. by eexists.
  - intros x H1 H2. by rewrite !upd_ne.
Qed.

(** *** Time slices *)

(** [n] context switches in a row; returns the tasks switched to. *)
Fixpoint switches (n : nat) : K (list (option task)) :=
  match n with
  | O => ret []
  | S n => vTaskSwitchContext;; t ← gets pxCurrentTCB; ts ← switches n; ret (t :: ts)
  end.

(** The abstract counterpart: the list is walked [n] times. *)
Fixpoint walk_items (n : nat) (al : alist) : list task :=
  match n, al_next_item al with
  | S n, Some t => t :: walk_items n (al_next al)
  | _, _ => []
  end.

Lemma walk_forward pre c zs post :
  NoDup (pre ++ c :: zs ++ post) →
  ∀ n, walk_items (length zs + n) (AList (pre ++ c :: zs ++ post) (Some c)) =
    zs ++ walk_items n (AList (pre ++ c :: zs ++ post) (last (c :: zs))).
Proof.
  revert pre c. induction zs as [|z zs IH]; intros pre c N n; [done|]. cbn [length Nat.add walk_items].
  assert (al_next_item (AList (pre ++ c :: (z :: zs) ++ post) (Some c)) = Some z) as Hn.
  { unfold al_next_item. cbn [index items]. rewrite after_middle; [done|].
    apply NoDup_app in N as (_ & Hd & _). intros Hc. eapply Hd; [done|by left]. }
  unfold al_next. rewrite Hn. cbn [items]. simpl. f_equal. rewrite cons_middle, app_assoc in N |- *.
  rewrite (IH (pre ++ [c]) z N). done.
Qed.

(** A full round visits every item once. *)
Lemma walk_round al : wf_alist al → walk_items (length (items al)) al ≡ₚ items al.
Proof.
  intros [N I]. destruct al as [xs [c|]]; cbn [items index] in *.
  - destruct (list_elem_of_split _ _ (I c eq_refl)) as (pre & ys & ->).
    pose proof (walk_forward pre c ys []) as Hw. rewrite app_nil_r in Hw.
    replace (length (pre ++ c :: ys)) with (length ys + length (pre ++ [c]))%nat by (rewrite !length_app; simpl; lia).
    rewrite (Hw N). clear Hw.
    destruct (pre ++ [c]) as [|f fs] eqn:Ef; [by destruct pre|].
    assert (pre ++ c :: ys = [] ++ f :: fs ++ ys) as Hring.
    { simpl. change (f :: fs ++ ys) with ((f :: fs) ++ ys). by rewrite <-Ef, <-app_assoc. }
    assert (al_next_item (AList (pre ++ c :: ys) (last (c :: ys))) = Some f) as Hnext.
    { unfold al_next_item. cbn [index items]. destruct (c :: ys) as [|e es _] eqn:E using rev_ind; [done|].
      rewrite last_snoc, app_assoc, after_middle; [|rewrite app_assoc in N; by apply NoDup_snoc in N as [? _]].
      simpl. rewrite <-app_assoc, Hring. done. }
    cbn [length walk_items]. rewrite Hnext. unfold al_next. rewrite Hnext. cbn [items]. rewrite Hring in N |- *.
    replace (length fs) with (length fs + 0)%nat by lia. rewrite (walk_forward [] f fs ys N). cbn [walk_items].
    rewrite app_nil_r. simpl. rewrite <-(Permutation_middle ys fs f). by rewrite Permutation_app_comm.
  - destruct xs as [|f fs]; [done|]. cbn [length walk_items]. unfold al_next_item, al_next, al_next_item. cbn [index items head].
    pose proof (walk_forward [] f fs []) as Hw. simpl in Hw. rewrite app_nil_r in Hw.
    replace (length fs) with (length fs + 0)%nat by lia. rewrite (Hw N). cbn [walk_items]. by rewrite app_nil_r.
Qed.
