(* ===== verification/RtosBoot.v ===== *)
(** * Creating tasks and starting the scheduler *)

From Stdlib Require Import ZArith Lia Sorted.
From S2P Require Import Prelude RtosList RtosListSpec RtosKernel RtosKernelSpec RtosTime RtosSched.
Local Open Scope Z_scope.
Local Open Scope pim_scope.

(** A task control block that is in no list joins the kernel. *)
Lemma inv_fresh s t c :
  inv None s → tasks s !! t = None → tcb_ok (Some t) t c → pvContainer (xEventListItem c) = None →
  inv (Some t) (Kernel (<[t := c]> (tasks s)) (lists s) (vars s) (pxCurrentTCB s) (pxDelayedTaskList s) (pxOverflowDelayedTaskList s)).
Proof.
  intros [C T Tp R P Cu S1 S2] Hn Hok He.
  assert (∀ k, pvContainer (item k c) = None) as Hnone.
  { intros []; [by apply (t_state _ _ _ Hok)|done]. }
  assert (∀ l t', t' ∈ items (lists s l) → svalue (<[t := c]> (tasks s)) t' = svalue (tasks s) t') as Hsv.
  { intros l t' Hin. rewrite svalue_insert. case_decide as E; [|done]. subst t'. apply (coh_in _ _ C) in Hin.
    unfold container in Hin. by rewrite Hn in Hin. }
  constructor; simpl; try done.
  - apply (coh_ext (tasks s)); [done|]. intros k t'. unfold container. rewrite lookup_insert. case_decide; [|done].
    subst t'. by rewrite Hn, Hnone.
  - intros t' c'. rewrite lookup_insert. case_decide; [by intros [= <-]; subst|]. intros Hc'.
    apply (tcb_ok_other None); [by apply T|done|congruence].
  - intros t' Ht'. rewrite lookup_insert. case_decide; [done|by apply Cu].
  - eapply sorted_list_ext; [apply Hsv|done].
  - eapply sorted_list_ext; [apply Hsv|done].
Qed.

(** The priority a task is created with. *)
Definition clamp (p : Z) : Z := if configMAX_PRIORITIES <=? p then configMAX_PRIORITIES - 1 else p.

Lemma new_tcb_ok t p : 0 <= p → tcb_ok (Some t) t (prvInitialiseNewTask p) ∧ uxPriority (prvInitialiseNewTask p) = clamp p.
Proof.
  intros Hp. assert (0 <= clamp p < configMAX_PRIORITIES) as Hc.
  { unfold clamp. destruct (Z.leb_spec configMAX_PRIORITIES p); unfold configMAX_PRIORITIES in *; lia. }
  split; [|done]. constructor; try done.
  unfold in_range, wrap. simpl. apply Z.mod_pos_bound. lia.
Qed.

(** A kernel before any task exists. *)
Record blank (s : kernel) : Prop := {
  bl_inv : inv None s;
  bl_tasks : tasks s = ∅;
  bl_num : vars s uxCurrentNumberOfTasks = 0;
  bl_cur : pxCurrentTCB s = None
}.

Lemma lists_empty s l : inv None s → (∀ t c, tasks s !! t = Some c → pvContainer (item (kind_of l) c) = None) → lists s l = AList [] None.
Proof.
  intros Hi He. assert (items (lists s l) = []) as E.
  { apply list_nil; [done|]. intros t c Hc Hl. by rewrite (He t c Hc) in Hl. }
  destruct (coh_wf _ _ (i_coh _ _ Hi) l) as [_ I]. destruct (lists s l) as [xs [i|]]; simpl in *; subst; [|done].
  specialize (I i eq_refl). by apply not_elem_of_nil in I.
Qed.

(** prvInitialiseTaskLists() in a kernel whose lists are still empty. *)
Lemma init_lists_inv s t c :
  inv (Some t) s → tasks s = {[ t := c ]} → (∀ k, pvContainer (item k c) = None) →
  wp prvInitialiseTaskLists (λ _ s', inv (Some t) s' ∧ tasks s' = tasks s ∧ vars s' = vars s ∧ pxCurrentTCB s' = pxCurrentTCB s) s.
Proof.
  intros Hi Ht Hn. pose proof Hi as [C T Tp R P Cu S1 S2]. apply wp_modify. split_and!; try done.
  assert (∀ l, items (lists s l) = []) as He.
  { intros l. destruct (items (lists s l)) as [|t' ts] eqn:E; [done|]. exfalso.
    destruct (in_list s (Some t) l t' Hi) as (c' & Hc' & Hl); [rewrite E; by left|].
    rewrite Ht in Hc'. apply lookup_singleton_Some in Hc' as [-> ->]. by rewrite Hn in Hl. }
  set (ls := λ l, _). assert (∀ l, items (ls l) = []) as He'.
  { intros l. unfold ls. destruct l; simpl; try done. by case_bool_decide. }
  assert (coh (tasks s) ls) as Hcoh.
  { split.
    - intros l t'. rewrite He', <-(coh_in _ _ C), He. done.
    - apply C.
    - intros l. split; [rewrite He'; constructor|]. intros i. unfold ls. pose proof (coh_wf _ _ C l) as [_ I].
      specialize (I i). rewrite He in I. destruct l; simpl; rewrite ?He; try done. case_bool_decide; [done|]. by rewrite He. }
  constructor; simpl; try done.
  - intros p. change (items (ls (pxReadyTasksLists p)) ≠ [] → p <= vars s uxTopReadyPriority). by rewrite He'.
  - by left.
  - constructor.
  - constructor.
Qed.

Lemma inv_current y s t : inv y s → is_Some (tasks s !! t) →
  inv y (Kernel (tasks s) (lists s) (vars s) (Some t) (pxDelayedTaskList s) (pxOverflowDelayedTaskList s)).
Proof. intros [C T Tp R P Cu S1 S2] Ht. constructor; simpl; try done. by intros t' [= <-]. Qed.

Record create_post (t : task) (p : Z) (s s' : kernel) : Prop := {
  cr_inv : inv None s';
  cr_cur : is_Some (pxCurrentTCB s');
  cr_tasks : tasks s' = <[t := set_container_of StateItem (Some (pxReadyTasksLists (clamp p))) (prvInitialiseNewTask p)]> (tasks s);
  cr_delayed : pxCurrentTCB s ≠ None → pxDelayedTaskList s' = pxDelayedTaskList s ∧ pxOverflowDelayedTaskList s' = pxOverflowDelayedTaskList s;
  cr_number : vars s' uxCurrentNumberOfTasks = u32 (vars s uxCurrentNumberOfTasks + 1);
  cr_vars : ∀ x, x ∉ [uxTopReadyPriority; uxCurrentNumberOfTasks; uxTaskNumber; pendSV] → vars s' x = vars s x
}.

Lemma create_ok s t p :
  inv None s → tasks s !! t = None → 0 <= p →
  (pxCurrentTCB s = None → tasks s = ∅ ∧ vars s uxCurrentNumberOfTasks = 0) →
  wp (xTaskCreate t p) (λ _ s', create_post t p s s') s.
Proof.
  intros Hi Hn Hp Hfirst. destruct (new_tcb_ok t p Hp) as [Hok Hprio]. set (c := prvInitialiseNewTask p) in *.
  unfold xTaskCreate. apply wp_bind, wp_modify. fold c. set (s1 := Kernel _ _ _ _ _ _).
  assert (inv (Some t) s1) as I1 by (by apply inv_fresh).
  unfold prvAddNewTaskToReadyList. apply wp_bind, wp_gets, wp_bind, wp_modify. set (s2 := Kernel _ _ _ _ _ _).
  assert (inv (Some t) s2) as I2 by (by apply inv_var).
  assert (tasks s2 !! t = Some c) as Hc2 by apply lookup_insert_eq.
  apply wp_bind, wp_gets, wp_bind. eapply wp_tcb; [exact Hc2|]. apply wp_bind, wp_gets, wp_bind.
  eapply (wp_mono _ (λ _ s3, inv (Some t) s3 ∧ tasks s3 = tasks s2 ∧ vars s3 = vars s2 ∧ is_Some (pxCurrentTCB s3) ∧
    (pxCurrentTCB s ≠ None → pxDelayedTaskList s3 = pxDelayedTaskList s ∧ pxOverflowDelayedTaskList s3 = pxOverflowDelayedTaskList s))).
  { cbn [pxCurrentTCB s1 s2]. destruct (pxCurrentTCB s) as [cur|] eqn:Hcur.
    - assert (is_Some (pxCurrentTCB s2)) as Hs2 by (by exists cur).
      destruct (_ =? 0); [|by apply wp_ret; split_and!].
      destruct (i_cur _ _ I2 cur) as [cc Hcc]; [done|].
      apply wp_bind. eapply wp_tcb; [exact Hcc|]. destruct (_ <=? _).
      + apply wp_modify. split_and!; try done. by apply inv_current; [|eexists].
      + apply wp_ret. by split_and!.
    - destruct (Hfirst eq_refl) as [Hempty Hnum]. apply wp_bind, wp_modify, wp_bind, wp_gets.
      match goal with |- wp (if ?b then _ else _) _ _ => replace b with true by (simpl; by rewrite upd_eq, Hnum) end.
      set (s3 := Kernel _ _ _ _ _ _).
      assert (inv (Some t) s3) as I3 by (apply (inv_current (Some t) s2); [done|by eexists]).
      eapply wp_mono; [apply (init_lists_inv s3 t c); [done| |]|].
      + simpl. by rewrite Hempty.
      + by intros [].
      + intros _ s4 (I4 & T4 & V4 & C4). split_and!; try done. rewrite C4. by eexists. }
  intros _ s3 (I3 & T3 & V3 & C3 & D3). apply wp_bind, wp_gets, wp_bind, wp_modify. set (s4 := Kernel _ _ _ _ _ _).
  assert (inv (Some t) s4) as I4 by (by apply inv_var). apply wp_bind.
  eapply (add_ready_ok s4 t c); [done|simpl; by rewrite T3|]. intros s5 I5 T5 L5 F5. pose proof F5 as [C5 De5 O5 V5].
  rewrite Hprio in T5. change (tasks s4) with (tasks s3) in T5. rewrite T3 in T5.
  change (tasks s2) with (<[t := c]> (tasks s)) in T5. rewrite insert_insert_eq in T5.
  assert (∀ s', inv None s' → tasks s' = tasks s5 → pxCurrentTCB s' = pxCurrentTCB s5 →
    pxDelayedTaskList s' = pxDelayedTaskList s5 → pxOverflowDelayedTaskList s' = pxOverflowDelayedTaskList s5 →
    (∀ x, x ≠ pendSV → vars s' x = vars s5 x) → create_post t p s s') as Hpost.
  { intros s' I' T' C' De' O' V'. split; try done.
    - by rewrite C', C5.
    - by rewrite T', T5.
    - intros Hcur. rewrite De', De5, O', O5. by apply D3.
    - rewrite V', V5 by done. simpl. rewrite upd_ne by done. rewrite V3. simpl. by rewrite upd_eq.
    - intros x Hx. rewrite V', V5 by set_solver. simpl. rewrite upd_ne by set_solver. rewrite V3. simpl.
      by rewrite upd_ne by set_solver. }
  destruct (negb _).
  - destruct C3 as [cur Hcur]. destruct (i_cur _ _ I5 cur) as [cc Hcc]; [by rewrite C5|].
    apply wp_bind. eapply wp_current; [by rewrite C5|]. apply wp_bind. eapply wp_tcb; [exact Hcc|].
    destruct (_ <? _); [apply wp_modify|apply wp_ret]; apply Hpost; try done; [by apply inv_var|].
    intros x Hx. simpl. by rewrite upd_ne.
  - apply wp_ret. by apply Hpost.
Qed.

(** Starting the scheduler in a kernel whose tasks are all ready starts the clock at 0. *)
Lemma start_scheduler_ok s idle :
  inv None s → tasks s !! idle = None → (pxCurrentTCB s = None → tasks s = ∅ ∧ vars s uxCurrentNumberOfTasks = 0) →
  (∀ t c, tasks s !! t = Some c → ∃ p, pvContainer (xStateListItem c) = Some (pxReadyTasksLists p)) →
  vars s xNumOfOverflows = 0 →
  wp (vTaskStartScheduler idle) (λ _ s', timed 0 s' ∧ ready s' idle ∧
    tasks s' = <[idle := set_container_of StateItem (Some (pxReadyTasksLists 0)) (prvInitialiseNewTask 0)]> (tasks s) ∧
    vars s' uxCurrentNumberOfTasks = u32 (vars s uxCurrentNumberOfTasks + 1) ∧
    (∀ x, x ∈ [uxSchedulerSuspended; uxPendedTicks; xYieldPending] → vars s' x = vars s x)) s.
Proof.
  intros Hi Hn Hfirst Hready Ho. unfold vTaskStartScheduler. apply wp_bind.
  eapply wp_mono; [by apply create_ok|]. intros _ s1 [I1 C1 T1 D1 N1 V1].
  apply wp_bind, wp_modify, wp_bind, wp_modify, wp_modify.
  cbn [tasks lists vars pxCurrentTCB pxDelayedTaskList pxOverflowDelayedTaskList]. set (s4 := Kernel _ _ _ _ _ _).
  assert (inv None s4) as I4.
  { apply (inv_var None (Kernel _ _ (upd (upd (vars s1) _ _) _ _) _ _ _)); [done|].
    apply (inv_var None (Kernel _ _ (upd (vars s1) _ _) _ _ _)); [done|]. by apply (inv_var None s1). }
  assert (∀ t c, tasks s4 !! t = Some c → ∃ p, pvContainer (xStateListItem c) = Some (pxReadyTasksLists p)) as Hr4.
  { intros t c. simpl. rewrite T1, lookup_insert. case_decide; [|by apply Hready]. intros [= <-]. by eexists. }
  assert (∀ t c, tasks s4 !! t = Some c → deadline 0 s4 c = None) as Hd4.
  { intros t c Hc. destruct (Hr4 t c Hc) as [p Hp]. unfold deadline. rewrite Hp.
    destruct (i_delayed _ _ I4) as (_ & _ & _ & H1 & H2 & _).
    rewrite !decide_False; [done|intros [= E]; by eapply H2|intros [= E]; by eapply H1]. }
  split_and!.
  - split; simpl; upd_simpl; try done.
    + rewrite V1 by set_solver. done.
    + intros t c D Hc HD. by rewrite (Hd4 t c Hc) in HD.
    + intros t c Hc Hl. destruct (Hr4 t c Hc) as [p Hp]. rewrite Hp in Hl. injection Hl as E.
      destruct (i_delayed _ _ I4) as (_ & _ & _ & H1 & _). by destruct (H1 p (eq_sym E)).
  - eexists _, _. simpl. rewrite T1. split; [apply lookup_insert_eq|done].
  - simpl. by rewrite T1.
  - simpl. upd_simpl. done.
  - intros x Hx. simpl. rewrite !upd_ne by set_solver. apply V1. set_solver.
Qed.

(** *** A system *)

(** The kernel before its first task, with all lists empty. *)
Definition kernel0 : kernel := Kernel ∅ (λ _, AList [] None) (λ _, 0) None xDelayedTaskList1 xDelayedTaskList2.

(** Two tasks of priority 2, one of priority 1, and the idle task. *)
Definition boot : K unit := xTaskCreate 2%positive 2;; xTaskCreate 3%positive 2;; xTaskCreate 4%positive 1;; vTaskStartScheduler 1%positive.

Definition booted : kernel := match boot kernel0 with Some (_, s) => s | None => kernel0 end.

Lemma kernel0_inv : inv None kernel0.
Proof.
  split; try done; [split; try done|by left|constructor..].
  - intros l t. simpl. split; [by intros ?%not_elem_of_nil|done].
  - intros l. by split; [constructor|].
Qed.

Definition all_ready (s : kernel) : Prop :=
  ∀ t c, tasks s !! t = Some c → ∃ p, pvContainer (xStateListItem c) = Some (pxReadyTasksLists p).

Lemma create_all_ready t p s s' : create_post t p s s' → all_ready s → all_ready s'.
Proof.
  intros P Hr t' c'. rewrite (cr_tasks _ _ _ _ P), lookup_insert. case_decide; [|by apply Hr]. intros [= <-]. by eexists.
Qed.

Lemma boot_ok : wp boot (λ _ s, timed 0 s) kernel0.
Proof.
  apply wp_bind. eapply wp_mono; [by apply (create_ok kernel0 2%positive 2 kernel0_inv)|]. intros [] s1 P1.
  pose proof (cr_tasks _ _ _ _ P1) as T1. pose proof (cr_cur _ _ _ _ P1) as [c1 C1].
  apply wp_bind. eapply wp_mono; [apply (create_ok s1 3%positive 2 (cr_inv _ _ _ _ P1)); [by rewrite T1|done|intros E; by rewrite C1 in E]|].
  intros [] s2 P2. pose proof (cr_tasks _ _ _ _ P2) as T2. pose proof (cr_cur _ _ _ _ P2) as [c2 C2].
  apply wp_bind. eapply wp_mono; [apply (create_ok s2 4%positive 1 (cr_inv _ _ _ _ P2)); [by rewrite T2, T1|done|intros E; by rewrite C2 in E]|].
  intros [] s3 P3. pose proof (cr_tasks _ _ _ _ P3) as T3. pose proof (cr_cur _ _ _ _ P3) as [c3 C3].
  eapply wp_mono; [apply (start_scheduler_ok s3 1%positive (cr_inv _ _ _ _ P3)); [by rewrite T3, T2, T1|intros E; by rewrite C3 in E| |]|by intros [] s4 [Ht _]].
  - by eapply create_all_ready, create_all_ready, create_all_ready.
  - rewrite (cr_vars _ _ _ _ P3), (cr_vars _ _ _ _ P2), (cr_vars _ _ _ _ P1) by set_solver. done.
Qed.

Lemma booted_timed : timed 0 booted.
Proof. pose proof boot_ok as H. unfold wp in H. unfold booted. by destruct (boot kernel0) as [[]|]. Qed.

(** What the system looks like, by evaluation. *)
Lemma booted_tcb t : t ∈ [1; 2; 3; 4]%positive → is_Some (tasks booted !! t).
Proof.
  intros Ht. assert (forallb (λ t, bool_decide (is_Some (tasks booted !! t))) [1; 2; 3; 4]%positive = true) as E by (vm_compute; reflexivity).
  rewrite forallb_forall in E. apply list_elem_of_In, E, bool_decide_eq_true in Ht. done.
Qed.

Lemma booted_ready t : t ∈ [1; 2; 3; 4]%positive → ready booted t.
Proof.
  intros Ht. destruct (booted_tcb t Ht) as [c Hc].
  assert (forallb (λ t, match tasks booted !! t with
    | Some c => match pvContainer (xStateListItem c) with Some (pxReadyTasksLists _) => true | _ => false end
    | None => false end) [1; 2; 3; 4]%positive = true) as E by (vm_compute; reflexivity).
  rewrite forallb_forall in E. apply list_elem_of_In, E in Ht. rewrite Hc in Ht.
  destruct (pvContainer (xStateListItem c)) as [[]|] eqn:El; try done. by exists c, uxPriority.
Qed.

Lemma booted_highest q : items (lists booted (pxReadyTasksLists q)) ≠ [] → q <= 2.
Proof. apply (i_ready _ _ (tm_inv _ _ booted_timed)). Qed.

#[global] Opaque booted.
