(* ===== verification/RtosKernelTheorems.v ===== *)
(** * What the scheduler guarantees *)

From Stdlib Require Import ZArith Lia Sorted.
From S2P Require Import Prelude RtosList RtosListSpec RtosKernel RtosKernelSpec RtosTime RtosSched RtosBoot.
Local Open Scope Z_scope.
Local Open Scope pim_scope.

(** ** Which task runs *)

(** A run of context switches walks the ready list of the highest priority. *)
Lemma switches_ok n s p t0 :
  inv None s → vars s uxSchedulerSuspended = 0 → t0 ∈ items (lists s (pxReadyTasksLists p)) →
  (∀ q, items (lists s (pxReadyTasksLists q)) ≠ [] → q <= p) →
  wp (switches n) (λ ts s', ts = Some <$> walk_items n (lists s (pxReadyTasksLists p)) ∧ tasks s' = tasks s) s.
Proof.
  revert s. induction n as [|n IH]; intros s Hi Hs Hin Hmax; [by apply wp_ret|].
  destruct (in_list s None (pxReadyTasksLists p) t0 Hi Hin) as (c0 & Hc0 & Hl0).
  cbn [switches]. apply wp_bind. eapply wp_mono; [apply (switch_ok s t0); [done|done|by exists c0, p]|].
  intros _ s1 (p' & t & [I1 T1 C1 D1 O1 V1 Y1 N1 L1 H1]).
  assert (p' = p) as ->.
  { assert (items (lists s (pxReadyTasksLists p)) ≠ []) as Hne by (intros E; rewrite E in Hin; by apply not_elem_of_nil in Hin).
    pose proof (H1 p Hne). pose proof (al_next_item_in _ _ N1) as Hin'.
    assert (items (lists s (pxReadyTasksLists p')) ≠ []) as Hne' by (intros E; rewrite E in Hin'; by apply not_elem_of_nil in Hin').
    specialize (Hmax p' Hne'). lia. }
  assert (∀ l, items (lists s1 l) = items (lists s l)) as Hitems.
  { intros l. rewrite L1. unfold upd. by case_decide; subst. }
  apply wp_bind, wp_gets, wp_bind. eapply wp_mono; [apply (IH s1); try done|].
  - by rewrite V1.
  - by rewrite Hitems.
  - intros q. rewrite Hitems. apply Hmax.
  - intros ts s2 [-> T2]. apply wp_ret. cbn [walk_items]. rewrite N1. cbn [fmap list_fmap].
    rewrite C1, L1, upd_eq. split; [done|]. by rewrite T2.
Qed.

(** C25. Fixed-priority preemptive scheduling.  When the scheduler is not
    suspended and a task is ready, vTaskSwitchContext() makes a ready task the
    running one, no ready task has a higher priority, it is the next of its
    ready list after the one that ran before, and no task control block
    changes.  While the scheduler is suspended the switch is only remembered. *)
Theorem switch_runs_highest (s : kernel) :
  inv None s → (∃ t, ready s t) →
  wp vTaskSwitchContext (λ _ s',
    inv None s' ∧ tasks s' = tasks s ∧
    if decide (vars s uxSchedulerSuspended = 0) then
      ∃ t c, pxCurrentTCB s' = Some t ∧ tasks s !! t = Some c ∧
        pvContainer (xStateListItem c) = Some (pxReadyTasksLists (uxPriority c)) ∧
        (∀ t' c' p, tasks s !! t' = Some c' → pvContainer (xStateListItem c') = Some (pxReadyTasksLists p) →
          uxPriority c' <= uxPriority c) ∧
        al_next_item (lists s (pxReadyTasksLists (uxPriority c))) = Some t ∧ vars s' xYieldPending = 0
    else pxCurrentTCB s' = pxCurrentTCB s ∧ vars s' xYieldPending = 1) s.
Proof.
  intros Hi [t0 Hr]. case_decide as Hs.
  - eapply wp_mono; [by apply (switch_ok s t0)|].
    intros _ s' (p & t & [I1 T1 C1 D1 O1 V1 Y1 N1 L1 H1]). split_and!; try done.
    destruct (in_list s None (pxReadyTasksLists p) t Hi) as (c & Hc & Hl); [by apply al_next_item_in|].
    pose proof (t_ready _ _ _ (i_task _ _ Hi t c Hc) p Hl) as ->. exists t, c. split_and!; try done.
    intros t' c' p' Hc' Hl'. pose proof (t_ready _ _ _ (i_task _ _ Hi t' c' Hc') p' Hl') as ->.
    apply H1. intros E. pose proof (list_in s None (pxReadyTasksLists (uxPriority c')) t' c' Hi Hc' Hl') as Hin.
    rewrite E in Hin. by apply not_elem_of_nil in Hin.
  - unfold vTaskSwitchContext. apply wp_bind, wp_gets. rewrite (proj2 (Z.eqb_neq _ _) Hs).
    apply wp_modify. split_and!; try done. by apply inv_var.
Qed.

Lemma switch_runs_highest_witness :
  inv None booted ∧ (∃ t, ready booted t) ∧
  wp vTaskSwitchContext (λ _ s', inv None s' ∧ vars s' xYieldPending = 0) booted.
Proof.
  assert (∃ t, ready booted t) as Hr by (exists 3%positive; apply booted_ready; set_solver).
  split_and!; [apply booted_timed|done|].
  eapply wp_mono; [apply (switch_runs_highest booted); [apply booted_timed|done]|].
  intros [] s' (Hi & _ & H). rewrite decide_True in H by (vm_compute; reflexivity).
  destruct H as (t & c & _ & _ & _ & _ & _ & Hy). done.
Defined.

(** C26. Time slicing is fair.  With [n] tasks ready at the highest priority
    and nothing else happening, [n] consecutive context switches give each of
    them the processor exactly once. *)
Theorem time_slices_fair (s : kernel) (p : Z) :
  inv None s → vars s uxSchedulerSuspended = 0 → items (lists s (pxReadyTasksLists p)) ≠ [] →
  (∀ q, items (lists s (pxReadyTasksLists q)) ≠ [] → q <= p) →
  wp (switches (length (items (lists s (pxReadyTasksLists p)))))
    (λ ts s', ts ≡ₚ Some <$> items (lists s (pxReadyTasksLists p)) ∧ tasks s' = tasks s) s.
Proof.
  intros Hi Hs Hne Hmax. destruct (items (lists s (pxReadyTasksLists p))) as [|t0 ts0] eqn:E; [done|]. rewrite <-E.
  eapply wp_mono; [apply (switches_ok _ s p t0); try done; rewrite E; by left|].
  intros ts s' [-> Ht]. split; [|done]. apply fmap_Permutation, walk_round, (coh_wf _ _ (i_coh _ _ Hi)).
Qed.

Lemma time_slices_fair_witness :
  items (lists booted (pxReadyTasksLists 2)) = [2; 3]%positive ∧
  wp (switches 2) (λ ts _, ts ≡ₚ [Some 2; Some 3]%positive) booted.
Proof.
  split; [vm_compute; reflexivity|].
  eapply wp_mono; [apply (time_slices_fair booted 2); [apply booted_timed|vm_compute; reflexivity|done|apply booted_highest]|].
  intros ts s' [Hp _]. exact Hp.
Defined.

(** ** Time *)

(** C27. The tick.  With [T] the number of ticks since the start, of which
    xTickCount keeps 32 bits, xTaskIncrementTick() readies exactly the tasks
    whose deadline is tick [T+1], takes them off the event lists they wait on,
    leaves every other task and deadline alone, also when the counter wraps and
    the two delayed lists change roles, and asks for a context switch exactly
    when a woken task has at least the priority of the running one, when the
    running task shares its priority, or when a yield is pending. *)
Theorem tick_wakes_exactly (T : Z) (s : kernel) (cur : task) (cc : TCB_t) :
  timed T s → vars s uxSchedulerSuspended = 0 → pxCurrentTCB s = Some cur → tasks s !! cur = Some cc →
  wp xTaskIncrementTick (λ r s',
    timed (T + 1) s' ∧ vars s' xTickCount = (T + 1) mod 2 ^ 32 ∧
    tasks s' = (λ c, if decide (deadline T s c = Some (T + 1)) then woken c else c) <$> tasks s ∧
    (∀ t c, tasks s !! t = Some c → deadline T s c ≠ Some (T + 1) → deadline (T + 1) s' c = deadline T s c) ∧
    (r = true ↔
      (∃ t c, tasks s !! t = Some c ∧ deadline T s c = Some (T + 1) ∧ uxPriority cc <= uxPriority c) ∨
      (1 < length (items (lists s' (pxReadyTasksLists (uxPriority cc)))))%nat ∨ vars s xYieldPending ≠ 0)) s.
Proof.
  intros Ht Hs Hcur Hcc. eapply wp_mono; [by eapply tick_ok|]. intros r s' [Ht' Ts Sm C V Sw].
  split_and!; try done. exact (tm_tick _ _ Ht').
Qed.

Lemma tick_wakes_exactly_witness :
  timed 0 booted ∧ wp xTaskIncrementTick (λ _ s', timed 1 s' ∧ vars s' xTickCount = 1) booted.
Proof.
  split; [apply booted_timed|]. destruct (booted_tcb 3%positive) as [c Hc]; [set_solver|].
  eapply wp_mono; [apply (tick_wakes_exactly 0 booted 3%positive c); [apply booted_timed|vm_compute; reflexivity..|done]|].
  intros r s' (Ht & Hv & _). done.
Defined.

(** *** Ticks and context switches in any order *)

Inductive kevent := Tick | Switch.

Definition run_event (e : kevent) : K unit :=
  match e with Tick => _ ← xTaskIncrementTick; ret tt | Switch => vTaskSwitchContext end.

Fixpoint run_events (es : list kevent) : K unit :=
  match es with [] => ret tt | e :: es => run_event e;; run_events es end.

Definition ticks_of (es : list kevent) : Z :=
  Z.of_nat (length (filter (λ e, match e with Tick => true | Switch => false end = true) es)).

Lemma ready_advanced T k s s' t : advanced T k s s' → ready s t → ready s' t.
Proof.
  intros A (c & p & Hc & Hl). exists (if due T k s c then woken c else c).
  exists (if due T k s c then uxPriority c else p). rewrite (ad_tasks _ _ _ _ A), lookup_fmap, Hc. simpl.
  by destruct (due T k s c).
Qed.

Lemma switch_advanced T s s' p t : timed T s → switch_post s s' p t → advanced T 0 s s'.
Proof.
  intros Ht [I1 T1 C1 D1 O1 V1 Y1 N1 L1 H1]. apply advanced_zero; try done.
  destruct Ht as [I P Tk O D N C]. split; try done.
  - by rewrite V1.
  - by rewrite V1.
  - intros t' c' D' Hc HD. rewrite T1 in Hc. rewrite (deadline_ptr T T s) in HD by done. by eapply D.
  - intros t' c' Hc Hl. rewrite T1 in Hc. rewrite D1 in Hl. rewrite V1 by done. by eapply N.
Qed.

Lemma run_events_ok es T s i :
  timed T s → vars s uxSchedulerSuspended = 0 → ready s i →
  wp (run_events es) (λ _ s', advanced T (ticks_of es) s s') s.
Proof.
  revert T s. induction es as [|e es IH]; intros T s Ht Hs Hr; [by apply wp_ret, advanced_zero|].
  destruct (timed_cur T s Ht) as (cur & cc & Hcur & Hcc). cbn [run_events]. apply wp_bind. destruct e; cbn [run_event].
  - apply wp_bind. eapply wp_mono; [by eapply tick_ok|]. intros r s1 P1. apply wp_ret.
    pose proof (tick_advanced _ _ _ _ _ Ht P1) as A1.
    eapply wp_mono; [apply (IH (T + 1) s1)|].
    + apply P1.
    + rewrite (tp_vars _ _ _ _ _ P1); [done|set_solver].
    + by eapply ready_advanced.
    + intros [] s2 A2. replace (ticks_of (Tick :: es)) with (1 + ticks_of es) by (unfold ticks_of; simpl; lia).
      eapply advanced_trans; [lia|unfold ticks_of; lia|done|done].
  - eapply wp_mono; [by apply (switch_ok s i); [apply Ht|..]|]. intros _ s1 (p & t & P1).
    pose proof (switch_advanced _ _ _ _ _ Ht P1) as A1. pose proof (ad_timed _ _ _ _ A1) as Ht1. rewrite Z.add_0_r in Ht1.
    eapply wp_mono; [apply (IH T s1 Ht1)|].
    + rewrite (sp_vars _ _ _ _ P1); done.
    + by eapply ready_advanced.
    + intros [] s2 A2. change (ticks_of (Switch :: es)) with (0 + ticks_of es).
      eapply advanced_trans; [lia|unfold ticks_of; lia|done|by rewrite Z.add_0_r].
Qed.

Lemma not_pending s t c : inv None s → items (lists s xPendingReadyList) = [] → tasks s !! t = Some c → pending c = false.
Proof.
  intros Hi He Hc. apply bool_decide_eq_false. intros Hl.
  pose proof (list_in s None xPendingReadyList t c Hi Hc Hl) as Hin. rewrite He in Hin. by apply not_elem_of_nil in Hin.
Qed.

(** The state of a kernel whose scheduler runs: nothing is held back. *)
Record running (s : kernel) : Prop := {
  rn_suspended : vars s uxSchedulerSuspended = 0;
  rn_pended : vars s uxPendedTicks = 0;
  rn_pending : items (lists s xPendingReadyList) = [];
  rn_tasks : 0 < vars s uxCurrentNumberOfTasks
}.

(** vTaskDelay() leaves the running task delayed and changes no other. *)
Lemma vTaskDelay_ok T n s t c :
  timed T s → running s → pxCurrentTCB s = Some t → tasks s !! t = Some c → 0 < n < EPOCH →
  wp (vTaskDelay n) (λ _ s', timed T s' ∧ vars s' uxSchedulerSuspended = 0 ∧
    ∃ v l, tasks s' = <[t := delayed_tcb v l c]> (tasks s) ∧ deadline T s' (delayed_tcb v l c) = Some (T + n)) s.
Proof.
  intros Ht [Hs Hp He Hn] Hcur Hc Hr. pose proof (tm_inv _ _ Ht) as Hi.
  unfold vTaskDelay. apply wp_bind. rewrite (proj2 (Z.ltb_lt 0 n)) by lia.
  apply wp_bind, wp_gets. rewrite Hs. apply wp_bind. eapply wp_assert; [done|].
  apply wp_bind. unfold vTaskSuspendAll. apply wp_bind, wp_gets. rewrite Hs. apply wp_modify. apply wp_bind.
  eapply (delay_ok T n false _ t c); [apply timed_var; [done|set_solver]|done|done|done|apply andb_false_r|].
  intros s2 [Ht2 (v & l & T2 & D2) C2 De2 O2 V2]. simpl in T2.
  eapply wp_mono; [apply (resume_all_ok T 0 s2)|]; try done.
  - rewrite V2 by done. simpl. by rewrite upd_eq.
  - rewrite V2 by done. simpl. by rewrite upd_ne.
  - rewrite V2 by done. simpl. by rewrite upd_ne.
  - intros r s3 [Ht3 T3 S3 _ Hs3 _ _ _]. rewrite Z.add_0_r in Ht3, S3.
    assert (∀ t' c', tasks s2 !! t' = Some c' → pending c' || due T 0 s2 c' = false) as Hno.
    { intros t' c' Hc'. apply orb_false_iff. split.
      - rewrite T2, lookup_insert in Hc'. case_decide; simplify_eq; [change (pending c = false)|];
          by eapply (not_pending s).
      - unfold due. destruct (deadline T s2 c') as [D|] eqn:E; [|done].
        pose proof (tm_deadline _ _ Ht2 t' c' D Hc' E). apply Z.leb_gt. lia. }
    assert (tasks s3 = tasks s2) as Hts.
    { rewrite T3. rewrite <-(map_fmap_id (tasks s2)) at 2. apply map_fmap_ext. intros t' c' Hc'. by rewrite (Hno t' c' Hc'). }
    assert (tasks s2 !! t = Some (delayed_tcb v l c)) as Hl2 by (rewrite T2; apply lookup_insert_eq).
    assert (deadline T s3 (delayed_tcb v l c) = Some (T + n)) as D3 by (rewrite (S3 t); [done|done|by eapply Hno]).
    destruct r; simpl.
    + apply wp_ret. split_and!; [done..|]. exists v, l. by rewrite Hts.
    + apply wp_modify. split_and!.
      * apply timed_var; [done|set_solver].
      * simpl. by rewrite upd_ne.
      * exists v, l. simpl. rewrite Hts. split; [done|]. by rewrite <-D3.
Qed.

(** C28. A delay lasts exactly as long as asked for.  A task that calls
    vTaskDelay([n]) at time [T] stays blocked, due at [T+n], through every
    sequence of ticks and context switches with fewer than [n] ticks, and is in
    the ready list of its priority after [n] ticks, whatever the value of the
    32-bit tick counter at the call. *)
Theorem delay_wakes_on_time (T n : Z) (s : kernel) (t i : task) (c : TCB_t) (es : list kevent) :
  timed T s → running s → pxCurrentTCB s = Some t → tasks s !! t = Some c → 0 < n < 2 ^ 32 →
  ready s i → i ≠ t →
  wp (vTaskDelay n;; run_events es) (λ _ s', timed (T + ticks_of es) s' ∧ ∃ c',
    tasks s' !! t = Some c' ∧
    (ticks_of es < n → deadline (T + ticks_of es) s' c' = Some (T + n)) ∧
    (n <= ticks_of es → pvContainer (xStateListItem c') = Some (pxReadyTasksLists (uxPriority c)))) s.
Proof.
  intros Ht Hrun Hcur Hc Hn Hi Hne. apply wp_bind. eapply wp_mono; [by apply (vTaskDelay_ok T n s t c)|].
  intros _ s1 (Ht1 & Hs1 & v & l & T1 & D1).
  assert (tasks s1 !! t = Some (delayed_tcb v l c)) as Hc1 by (rewrite T1; apply lookup_insert_eq).
  eapply wp_mono; [apply (run_events_ok es T s1 i Ht1 Hs1)|].
  - destruct Hi as (ci & p & Hci & Hl). exists ci, p. by rewrite T1, lookup_insert_ne.
  - intros [] s2 A. split; [apply A|]. eexists. split; [by rewrite (ad_tasks _ _ _ _ A), lookup_fmap, Hc1|].
    simpl. unfold due at 1 2. rewrite D1. destruct (Z.leb_spec (T + n) (T + ticks_of es)).
    + split; [lia|done].
    + split; [|lia]. intros _. rewrite (ad_same _ _ _ _ A t); [done|done|]. unfold due. rewrite D1. lia.
Qed.

Lemma delay_wakes_on_time_witness :
  wp (vTaskDelay 2;; run_events [Tick; Switch; Tick]) (λ _ s', ∃ c,
    tasks s' !! 3%positive = Some c ∧ pvContainer (xStateListItem c) = Some (pxReadyTasksLists 2)) booted ∧
  wp (vTaskDelay 2;; run_events [Switch; Tick]) (λ _ s', ∃ c, tasks s' !! 3%positive = Some c ∧ deadline 1 s' c = Some 2) booted.
Proof.
  destruct (booted_tcb 3%positive) as [c Hc]; [set_solver|].
  assert (uxPriority c = 2) as Hp.
  { assert (uxPriority <$> tasks booted !! 3%positive = Some 2) as E by (vm_compute; reflexivity).
    rewrite Hc in E. by injection E. }
  assert (running booted) as Hrun by (split; vm_compute; reflexivity).
  assert (ready booted 1%positive) as Hi by (apply booted_ready; set_solver).
  assert (pxCurrentTCB booted = Some 3%positive) as Hcur by (vm_compute; reflexivity).
  split; (eapply wp_mono; [apply (delay_wakes_on_time 0 2 booted 3%positive 1%positive c); [apply booted_timed|done|done|done|lia|done|done]|]).
  - intros [] s' (_ & c' & Hc' & _ & Hw). exists c'. rewrite Hp in Hw. split; [done|]. apply Hw. vm_compute. congruence.
  - intros [] s' (_ & c' & Hc' & Hw & _). exists c'. split; [done|]. apply Hw. vm_compute. reflexivity.
Defined.

(** No tick is lost while the scheduler is suspended.  xTaskResumeAll(),
    at the end of the outermost suspension during which [k] ticks were held
    back, brings the clock to [T+k], readies exactly the tasks that an
    interrupt had readied in the meantime and the tasks that became due, and
    leaves the deadlines of all others as they were. *)
Theorem resume_all_catches_up (T k : Z) (s : kernel) :
  timed T s → vars s uxSchedulerSuspended = 1 → 0 < vars s uxCurrentNumberOfTasks →
  vars s uxPendedTicks = k → 0 <= k →
  wp xTaskResumeAll (λ r s',
    timed (T + k) s' ∧ vars s' uxSchedulerSuspended = 0 ∧ vars s' uxPendedTicks = 0 ∧
    items (lists s' xPendingReadyList) = [] ∧
    (∀ t c, tasks s !! t = Some c →
      let woke := bool_decide (pvContainer (xEventListItem c) = Some xPendingReadyList) ||
        match deadline T s c with Some D => D <=? T + k | None => false end in
      tasks s' !! t = Some (if woke then woken c else c) ∧
      (woke = false → deadline (T + k) s' c = deadline T s c)) ∧
    (r = true → vars s' pendSV = 1)) s.
Proof.
  intros Ht Hs Hn Hk Hk0. eapply wp_mono; [by eapply resume_all_ok|].
  intros r s' [Ht' T' S' P' Hs' Hp' C' Y']. split_and!; try done. intros t c Hc woke. split.
  - by rewrite T', lookup_fmap, Hc.
  - by apply (S' t).
Qed.

(** The scheduler is suspended and two ticks are held back. *)
Definition suspended_with_ticks (s : kernel) : kernel :=
  Kernel (tasks s) (lists s) (upd (upd (vars s) uxSchedulerSuspended 1) uxPendedTicks 2)
    (pxCurrentTCB s) (pxDelayedTaskList s) (pxOverflowDelayedTaskList s).

Lemma suspended_with_ticks_timed T s : timed T s → timed T (suspended_with_ticks s).
Proof.
  intros Ht. pose proof (timed_var T s uxSchedulerSuspended 1 Ht ltac:(set_solver)) as H.
  exact (timed_var T _ uxPendedTicks 2 H ltac:(set_solver)).
Qed.

Lemma resume_all_catches_up_witness :
  wp xTaskResumeAll (λ _ s', timed 2 s' ∧ vars s' uxPendedTicks = 0) (suspended_with_ticks booted).
Proof.
  eapply wp_mono; [apply (resume_all_catches_up 0 2 (suspended_with_ticks booted));
    [apply suspended_with_ticks_timed, booted_timed|vm_compute; reflexivity..|lia]|].
  intros r s' (Ht & _ & Hp & _). done.
Defined.
