(* ===== verification/RtosSafety.v ===== *)
(** * The kernel services keep the kernel's invariant

    Every service of tasks.c that the queues and the application call is safe
    in the states its callers may call it in: it runs to its end, no assertion
    of the kernel fails, and the lists, the priorities and the clock stay
    consistent. *)

From Stdlib Require Import ZArith Lia Sorted.
From S2P Require Import Prelude RtosList RtosListSpec RtosKernel RtosKernelSpec RtosTime RtosSched RtosBoot.
Local Open Scope Z_scope.
Local Open Scope pim_scope.

(** ** Changes that keep the clock *)

(** A change of task control blocks keeps the clock invariant when every task
    keeps its state item or is not in a delayed list. *)
Lemma timed_keep T s s' :
  timed T s → inv None s' →
  (∀ t c', tasks s' !! t = Some c' →
    (∃ c, tasks s !! t = Some c ∧ xStateListItem c' = xStateListItem c) ∨ deadline T s c' = None) →
  is_Some (pxCurrentTCB s') → pxDelayedTaskList s' = pxDelayedTaskList s →
  pxOverflowDelayedTaskList s' = pxOverflowDelayedTaskList s →
  (∀ x, x ∈ [xTickCount; xNumOfOverflows; xNextTaskUnblockTime] → vars s' x = vars s x) →
  timed T s'.
Proof.
  intros [I P Tk O D N C] I' Hts Ec Ed Eo Hv.
  assert (∀ c, deadline T s' c = deadline T s c) as Hds by (intros c; by apply deadline_ptr).
  assert (∀ c c', xStateListItem c' = xStateListItem c → deadline T s c' = deadline T s c) as Hsame.
  { intros c c' E. unfold deadline. by rewrite E. }
  split; try done.
  - rewrite Hv; [done|set_solver].
  - rewrite Hv; [done|set_solver].
  - intros t c' D' Hc' HD. rewrite Hds in HD. destruct (Hts t c' Hc') as [(c & Hc & E)|E]; [|congruence].
    rewrite (Hsame _ _ E) in HD. by eapply D.
  - intros t c' Hc' Hl. rewrite Hv by set_solver. rewrite Ed in Hl. destruct (Hts t c' Hc') as [(c & Hc & E)|E].
    + rewrite E in Hl |- *. by eapply N.
    + unfold deadline in E. by rewrite decide_True in E.
Qed.

(** The usual case: one task changes. *)
Lemma timed_one T s s' t c c' :
  timed T s → inv None s' → tasks s' = <[t := c']> (tasks s) → tasks s !! t = Some c → frame s s' →
  xStateListItem c' = xStateListItem c ∨ deadline T s c' = None → timed T s'.
Proof.
  intros Ht I' Et Hc [Fc Fd Fo Fv] Hok. apply (timed_keep T s); try done.
  - intros t' c2. rewrite Et, lookup_insert. case_decide; [|by left; eexists].
    intros [= <-]. subst. destruct Hok; [left; by exists c|by right].
  - rewrite Fc. apply Ht.
  - intros x Hx. apply Fv. set_solver.
Qed.

Lemma deadline_state_none T s x c l :
  inv x s → pvContainer (xStateListItem c) = Some l → (∃ p, l = pxReadyTasksLists p) ∨ l = xSuspendedTaskList →
  deadline T s c = None.
Proof.
  intros Hi Hl Hk. unfold deadline. rewrite Hl.
  destruct (i_ptr _ _ Hi) as [[= -> ->]|[= -> ->]]; rewrite !decide_False; try done;
    intros [= ->]; destruct Hk as [[p ?]|?]; done.
Qed.

(** *** Rules for pieces of the services *)

(** The state item of a task goes from wherever it is to its ready list. *)
Lemma make_ready_ok {A} T s t c (k : K A) (Q : A → kernel → Prop) :
  timed T s → tasks s !! t = Some c →
  (∀ s', timed T s' → frame s s' →
    tasks s' = <[t := set_container_of StateItem (Some (pxReadyTasksLists (uxPriority c))) c]> (tasks s) →
    wp k Q s') →
  wp (_ ← listRemove StateItem t; prvAddTaskToReadyList t;; k) Q s.
Proof.
  intros Ht Hc HQ. pose proof (tm_inv _ _ Ht) as Hi. destruct (state_some s t c Hi Hc) as [l Hl].
  apply wp_bind. eapply remove_state_ok; [done..|]. intros _ s1 I1 T1 L1 V1 F1.
  apply wp_bind. eapply add_ready_ok; [exact I1|rewrite T1; apply lookup_insert_eq|].
  intros s2 I2 T2 L2 F2. rewrite T1, insert_insert_eq in T2. pose proof (frame_trans _ _ _ F1 F2) as F.
  apply HQ; try done. eapply timed_one; [done|done|exact T2|done|done|].
  right. eapply (deadline_state_none T s None); [done|done|]. left. by eexists.
Qed.

Lemma make_ready_end T s t c (Q : unit → kernel → Prop) :
  timed T s → tasks s !! t = Some c →
  (∀ s', timed T s' → frame s s' →
    tasks s' = <[t := set_container_of StateItem (Some (pxReadyTasksLists (uxPriority c))) c]> (tasks s) → Q tt s') →
  wp (_ ← listRemove StateItem t; prvAddTaskToReadyList t) Q s.
Proof.
  intros Ht Hc HQ. apply wp_seq_ret, wp_bind_assoc.
  eapply make_ready_ok; [done..|]. intros s' H1 H2 H3. apply wp_ret. by apply HQ.
Qed.

(** Waiting for ever: the state item goes to the suspended list. *)
Lemma insert_suspended_ok s t c (Q : unit → kernel → Prop) :
  inv (Some t) s → tasks s !! t = Some c →
  (∀ s', inv None s' → tasks s' = <[t := set_container_of StateItem (Some xSuspendedTaskList) c]> (tasks s) →
    vars s' = vars s → frame s s' → Q tt s') →
  wp (listInsertEnd StateItem xSuspendedTaskList t) Q s.
Proof.
  intros Hi Hc HQ. eapply wp_listInsertEnd; [done|]. pose proof (coh_wf _ _ (i_coh _ _ Hi) xSuspendedTaskList) as Hw.
  apply HQ; try done. apply attached_state; try done.
  - apply insert_end_wf; [done|]. eapply not_in_list; [done..|]. by eapply detached_none.
  - intros y. by apply items_insert_end.
  - by intros [|].
Qed.

(** Task [c] after it has left the ready lists: only where its state item is has changed. *)
Record blocked (c c' : TCB_t) : Prop := {
  bk_prio : uxPriority c' = uxPriority c;
  bk_base : uxBasePriority c' = uxBasePriority c;
  bk_mutexes : uxMutexesHeld c' = uxMutexesHeld c;
  bk_state : ∀ p, pvContainer (xStateListItem c') ≠ Some (pxReadyTasksLists p)
}.

(** Blocking the running task, for a time or for ever. *)
Lemma block_ok T n b s t c (Q : unit → kernel → Prop) :
  timed T s → pxCurrentTCB s = Some t → tasks s !! t = Some c → 0 < n < EPOCH →
  (∀ s' c', timed T s' → tasks s' = <[t := c']> (tasks s) → xEventListItem c' = xEventListItem c →
    blocked c c' → pxCurrentTCB s' = pxCurrentTCB s →
    (∀ x, x ≠ xNextTaskUnblockTime → x ≠ uxTopReadyPriority → vars s' x = vars s x) → Q tt s') →
  wp (prvAddCurrentTaskToDelayedList n b) Q s.
Proof.
  intros Ht Hcur Hc Hn HQ. destruct ((n =? portMAX_DELAY) && b) eqn:Hb.
  - pose proof (tm_inv _ _ Ht) as Hi. destruct (state_some s t c Hi Hc) as [l Hl].
    unfold prvAddCurrentTaskToDelayedList. apply wp_bind, wp_gets, wp_bind. eapply wp_current; [done|].
    apply wp_bind. eapply remove_state_ok; [done..|]. intros _ s1 I1 T1 L1 V1 F1. rewrite Hb.
    eapply insert_suspended_ok; [exact I1|rewrite T1; apply lookup_insert_eq|].
    intros s2 I2 T2 V2 F2. rewrite T1, insert_insert_eq in T2. pose proof (frame_trans _ _ _ F1 F2) as F.
    eapply (HQ s2); [|exact T2|done|done|apply F|intros x H1 H2; by apply F].
    eapply timed_one; [done|done|exact T2|done|done|]. right. eapply (deadline_state_none T s None); [done|done|by right].
  - eapply delay_ok; [done..|]. intros s' [Ht' (v & l & Ts & Dl) C' _ _ V'].
    eapply (HQ s'); [done|exact Ts|done| |done|].
    + split; try done. intros p Hp. rewrite (deadline_state_none T s' None _ _ (tm_inv _ _ Ht') Hp) in Dl; [done|].
      left. by eexists.
    + intros x H1 H2. by apply V'.
Qed.

(** ** The services *)

(** A task released by an event: ready at once, or parked on the pending list
    while the scheduler is suspended. *)
Definition released (suspended : Z) (c : TCB_t) : TCB_t :=
  if suspended =? 0 then woken c else set_container_of EventItem (Some xPendingReadyList) c.

Lemma remove_from_event_list_ok T s l t ts c cur cc (Q : bool → kernel → Prop) :
  timed T s → kind_of l = EventItem → l ≠ xPendingReadyList → items (lists s l) = t :: ts → tasks s !! t = Some c →
  pxCurrentTCB s = Some cur → tasks s !! cur = Some cc →
  (∀ s', timed T s' → pxCurrentTCB s' = pxCurrentTCB s →
    tasks s' = <[t := released (vars s uxSchedulerSuspended) c]> (tasks s) →
    (∀ x, x ≠ uxTopReadyPriority → x ≠ xYieldPending → vars s' x = vars s x) →
    Q (uxPriority cc <? uxPriority c) s') →
  wp (xTaskRemoveFromEventList l) Q s.
Proof.
  intros Ht Hk Hnp Hl Hc Hcur Hcc HQ. pose proof (tm_inv _ _ Ht) as Hi.
  assert (pvContainer (xEventListItem c) = Some l) as Hcl.
  { destruct (in_list s None l t Hi) as (c0 & Hc0 & Hl0); [rewrite Hl; by left|]. rewrite Hk in Hl0. by simplify_eq. }
  unfold xTaskRemoveFromEventList, head_owner. apply wp_bind, wp_bind, wp_gets. rewrite Hl. apply wp_ret.
  apply wp_bind. eapply remove_event_ok; [done|done|by left|done|]. intros _ s1 I1 T1 L1 V1 F1.
  assert (timed T s1) as Ht1 by (eapply timed_one; [done|done|exact T1|done|done|by left]).
  apply wp_bind, wp_gets. rewrite V1. apply wp_bind.
  eapply (wp_mono _ (λ _ s2, timed T s2 ∧ frame s s2 ∧ tasks s2 = <[t := released (vars s uxSchedulerSuspended) c]> (tasks s))).
  { unfold released. destruct (vars s uxSchedulerSuspended =? 0).
    - eapply make_ready_end; [exact Ht1|rewrite T1; apply lookup_insert_eq|]. intros s2 Ht2 F2 T2.
      rewrite T1, insert_insert_eq in T2. split_and!; [done|by etrans|exact T2].
    - eapply insertEnd_event_ok; [exact I1|rewrite T1; apply lookup_insert_eq|by left|done|done|].
      intros s2 I2 T2 L2 V2 F2. split_and!.
      + eapply timed_one; [exact Ht1|done|exact T2|rewrite T1; apply lookup_insert_eq|done|by left].
      + by etrans.
      + by rewrite T2, T1, insert_insert_eq. }
  intros _ s2 (Ht2 & F2 & T2). pose proof F2 as [C2 _ _ V2].
  assert (∃ cc', tasks s2 !! cur = Some cc' ∧ uxPriority cc' = uxPriority cc) as (cc' & Hcc' & Hp).
  { rewrite T2, lookup_insert. case_decide; [|by eexists]. simplify_eq. eexists; split; [done|]. unfold released. by case_match. }
  assert (uxPriority (released (vars s uxSchedulerSuspended) c) = uxPriority c) as Hp' by (unfold released; by case_match).
  apply wp_bind. eapply wp_current; [by rewrite C2|]. apply wp_bind.
  eapply wp_tcb; [rewrite T2; apply lookup_insert_eq|]. apply wp_bind. eapply wp_tcb; [done|]. rewrite Hp, Hp'.
  destruct (uxPriority cc <? uxPriority c) eqn:E.
  - apply wp_bind, wp_modify, wp_ret. apply HQ; simpl; try done.
    + apply timed_var; [done|set_solver].
    + intros x H1 H2. rewrite upd_ne by done. by apply V2.
  - apply wp_ret. apply HQ; try done. intros x H1 H2. by apply V2.
Qed.

Lemma place_on_event_list_ok T n s l t c (Q : unit → kernel → Prop) :
  timed T s → kind_of l = EventItem → pxCurrentTCB s = Some t → tasks s !! t = Some c →
  pvContainer (xEventListItem c) = None → 0 < n < EPOCH →
  (∀ s' c', timed T s' → tasks s' = <[t := c']> (tasks s) → pvContainer (xEventListItem c') = Some l →
    blocked c c' → pxCurrentTCB s' = pxCurrentTCB s →
    (∀ x, x ≠ xNextTaskUnblockTime → x ≠ uxTopReadyPriority → vars s' x = vars s x) → Q tt s') →
  wp (vTaskPlaceOnEventList l n) Q s.
Proof.
  intros Ht Hk Hcur Hc Hn Hr HQ. unfold vTaskPlaceOnEventList. apply wp_bind. eapply wp_current; [done|].
  apply wp_bind. eapply insert_event_ok; [apply Ht|done|by left|done|done|]. intros s1 I1 T1 L1 V1 F1.
  assert (timed T s1) as Ht1 by (eapply timed_one; [done|done|exact T1|done|done|by left]).
  eapply (block_ok T n true s1 t); [done|by rewrite (f_cur _ _ F1)|rewrite T1; apply lookup_insert_eq|done|].
  intros s2 c2 Ht2 T2 E2 P2 C2 V2. rewrite T1, insert_insert_eq in T2. eapply HQ; [done|exact T2|by rewrite E2|by destruct P2| |].
  - by rewrite C2, (f_cur _ _ F1).
  - intros x H1 H2. rewrite V2, V1; done.
Qed.

(** *** Changes of priority *)

(** [c'] differs from [c] in priorities, counters and the value of its event item. *)
Record same_place (c c' : TCB_t) : Prop := {
  sl_state : xStateListItem c' = xStateListItem c;
  sl_event : pvContainer (xEventListItem c') = pvContainer (xEventListItem c);
  sl_evalue : in_range 32 (xItemValue (xEventListItem c'));
  sl_prio : 0 <= uxPriority c' < configMAX_PRIORITIES;
  sl_base : 0 <= uxBasePriority c' < configMAX_PRIORITIES
}.

Definition with_tcb (t : task) (c : TCB_t) (s : kernel) : kernel :=
  Kernel (<[t := c]> (tasks s)) (lists s) (vars s) (pxCurrentTCB s) (pxDelayedTaskList s) (pxOverflowDelayedTaskList s).

Lemma same_place_refl T s t c : timed T s → tasks s !! t = Some c → same_place c c.
Proof. intros Ht Hc. by destruct (i_task _ _ (tm_inv _ _ Ht) t c Hc). Qed.

(** A task that is not in a ready list, or keeps its priority, changes in place. *)
Lemma with_tcb_ok T s t c c' :
  timed T s → tasks s !! t = Some c → same_place c c' →
  (∀ q, pvContainer (xStateListItem c) = Some (pxReadyTasksLists q) → uxPriority c' = uxPriority c) →
  timed T (with_tcb t c' s).
Proof.
  intros Ht Hc [SS SE SV SP SB] Hq. pose proof (tm_inv _ _ Ht) as Hi. destruct (i_task _ _ Hi t c Hc) as [P B R S V E].
  assert (inv None (with_tcb t c' s)) as Hi'.
  { eapply (inv_tcb None s t c c'); [done|done|by left|done| | |by left; rewrite SS].
    - constructor; rewrite ?SS; try done. intros q Hl. rewrite (Hq q Hl). by apply R.
    - intros []; simpl; by rewrite ?SS, ?SE. }
  eapply timed_one; [done|done|done|done|done|by left].
Qed.

(** A ready task whose priority has been changed moves to its new ready list. *)
Lemma move_ready_ok {A} T s t c c' q (k : K A) (Q : A → kernel → Prop) :
  timed T s → tasks s !! t = Some c → same_place c c' → pvContainer (xStateListItem c) = Some (pxReadyTasksLists q) →
  (∀ s', timed T s' → frame s s' →
    tasks s' = <[t := set_container_of StateItem (Some (pxReadyTasksLists (uxPriority c'))) c']> (tasks s) → wp k Q s') →
  wp (_ ← listRemove StateItem t; prvAddTaskToReadyList t;; k) Q (with_tcb t c' s).
Proof.
  intros Ht Hc [SS SE SV SP SB] Hl HQ. pose proof (tm_inv _ _ Ht) as Hi. destruct (i_task _ _ Hi t c Hc) as [P B R S V E].
  pose proof (i_top _ _ Hi). set (l := pxReadyTasksLists q) in *.
  apply wp_bind. eapply wp_listRemove; [simpl; apply lookup_insert_eq|simpl; by rewrite SS|]. intros _.
  set (s1 := detached _ _ _ _ _).
  assert (tasks s1 = <[t := set_container_of StateItem None c']> (tasks s)) as T1 by (simpl; by rewrite insert_insert_eq).
  assert (inv (Some t) s1) as I1.
  { eapply (inv_update None (Some t) s _ t c _ l (al_remove t (lists s l)) Hi Hc T1); try done; try (simpl; lia); auto.
    - constructor; simpl; rewrite ?SS; done.
    - rewrite T1. change (lists s1) with (upd (lists s) l (al_remove t (lists s l))).
      eapply (coh_ext (<[t := set_container_of StateItem None c]> (tasks s))).
      + apply (coh_remove (tasks s) (lists s) StateItem t c l); [apply Hi|done|done].
      + intros k' t'. unfold container. rewrite !lookup_insert. case_decide; [|done]. destruct k'; simpl; by rewrite ?SS, ?SE.
    - left. simpl. by rewrite SS.
    - intros p [= <-] Hne. simpl. apply Hi. intros En. apply Hne. unfold al_remove. simpl. unfold l in En |- *. by rewrite En.
    - by intros [|]. }
  apply wp_bind. eapply add_ready_ok; [exact I1|rewrite T1; apply lookup_insert_eq|].
  intros s2 I2 T2 L2 F2. rewrite T1, insert_insert_eq in T2.
  assert (frame s s2) as F by (etrans; [|exact F2]; by split).
  apply HQ; [|done|exact T2]. eapply timed_one; [done|done|exact T2|done|done|].
  right. eapply (deadline_state_none T s None); [done|done|]. left. by eexists.
Qed.

Lemma u32_event_value p : 0 <= p < configMAX_PRIORITIES → in_range 32 (u32 (configMAX_PRIORITIES - p)).
Proof. intros Hp. unfold in_range, wrap. apply Z.mod_pos_bound. lia. Qed.

(** Where the state item of a task is after its priority has become [p]. *)
Definition moved_to (p : Z) (c : TCB_t) : option listid :=
  if decide (pvContainer (xStateListItem c) = Some (pxReadyTasksLists (uxPriority c)))
  then Some (pxReadyTasksLists p) else pvContainer (xStateListItem c).

(** [c'] is task [c] with priority [p] and [n] mutexes held, in the list it then belongs in. *)
Record changed (p n : Z) (c c' : TCB_t) : Prop := {
  ch_prio : uxPriority c' = p;
  ch_base : uxBasePriority c' = uxBasePriority c;
  ch_mutexes : uxMutexesHeld c' = n;
  ch_state : pvContainer (xStateListItem c') = moved_to p c;
  ch_event : pvContainer (xEventListItem c') = pvContainer (xEventListItem c)
}.

Lemma event_same_place T s t c v :
  timed T s → tasks s !! t = Some c → in_range 32 v →
  same_place c (set_item EventItem (ListItem v (pvContainer (xEventListItem c))) c).
Proof. intros Ht Hc Hv. by destruct (i_task _ _ (tm_inv _ _ Ht) t c Hc). Qed.

Lemma frame_with_tcb t c s : frame s (with_tcb t c s).
Proof. by split. Qed.

(** The conditional update of the value of an event item. *)
Lemma set_event_value_ok {A} T s t c p (k : K A) (Q : A → kernel → Prop) :
  timed T s → tasks s !! t = Some c → 0 <= p < configMAX_PRIORITIES →
  (∀ c', same_place c c' → uxPriority c' = uxPriority c → uxBasePriority c' = uxBasePriority c →
    uxMutexesHeld c' = uxMutexesHeld c → timed T (with_tcb t c' s) → wp k Q (with_tcb t c' s)) →
  wp ((if event_value_free c then set_value EventItem t (u32 (configMAX_PRIORITIES - p)) else ret tt);; k) Q s.
Proof.
  intros Ht Hc Hp HQ. apply wp_bind. destruct (event_value_free c).
  - eapply wp_set_value; [done|]. pose proof (event_same_place T s t c _ Ht Hc (u32_event_value p Hp)) as Hsp.
    by apply (HQ _ Hsp); [..|eapply with_tcb_ok].
  - apply wp_ret. assert (with_tcb t c s = s) as E by (unfold with_tcb; rewrite insert_id by done; by destruct s).
    specialize (HQ c (same_place_refl T s t c Ht Hc) eq_refl eq_refl eq_refl). rewrite E in HQ. by apply HQ.
Qed.

Lemma inherit_ok T s h c cur cc (Q : bool → kernel → Prop) :
  timed T s → pxCurrentTCB s = Some cur → tasks s !! cur = Some cc → tasks s !! h = Some c →
  (∀ s' c', timed T s' → frame s s' → tasks s' = <[h := c']> (tasks s) →
    changed (Z.max (uxPriority c) (uxPriority cc)) (uxMutexesHeld c) c c' →
    Q (if uxPriority c <? uxPriority cc then true else uxBasePriority c <? uxPriority cc) s') →
  wp (xTaskPriorityInherit (Some h)) Q s.
Proof.
  intros Ht Hcur Hcc Hc HQ. pose proof (tm_inv _ _ Ht) as Hi. pose proof (t_prio _ _ _ (i_task _ _ Hi cur cc Hcc)) as Hpc.
  pose proof (i_task _ _ Hi h c Hc) as [P B R S V E].
  unfold xTaskPriorityInherit. apply wp_bind. eapply wp_current; [done|]. apply wp_bind. eapply wp_tcb; [done|].
  apply wp_bind. eapply wp_tcb; [done|]. destruct (Z.ltb_spec (uxPriority c) (uxPriority cc)) as [Hlt|Hge].
  - eapply set_event_value_ok; [done..|]. intros c1 Hsp P1 B1 M1 Ht1. pose proof Hsp as [SS SE SV SP SB].
    apply wp_bind. eapply wp_tcb; [simpl; apply lookup_insert_eq|]. rewrite SS, P1.
    assert (same_place c1 (with_priority (uxPriority cc) c1)) as Hsp1 by (by split).
    assert (Z.max (uxPriority c) (uxPriority cc) = uxPriority cc) as Hmax by lia.
    apply wp_bind. case_decide as Hl.
    + eapply (wp_mono _ (λ _ s', timed T s' ∧ frame s s' ∧ tasks s' = <[h := set_container_of StateItem
        (Some (pxReadyTasksLists (uxPriority cc))) (with_priority (uxPriority cc) c1)]> (tasks s))).
      * apply wp_bind. eapply (remove_state_ok (with_tcb h c1 s) h c1); [apply Ht1|apply lookup_insert_eq|by rewrite SS|].
        intros _ s2 I2 T2 L2 V2 F2. simpl in T2. rewrite insert_insert_eq in T2.
        apply wp_bind. eapply wp_tcb; [rewrite T2; apply lookup_insert_eq|].
        apply wp_bind, wp_modify. rewrite T2, insert_insert_eq. set (s3 := Kernel _ _ _ _ _ _).
        assert (inv (Some h) s3) as I3.
        { eapply (inv_tcb (Some h) s2 h (set_container_of StateItem None c1)); [done|rewrite T2; apply lookup_insert_eq|by right
            |unfold s3; by rewrite T2, insert_insert_eq| |by intros []|by right].
          constructor; simpl; rewrite ?SS; done. }
        eapply add_ready_ok; [exact I3|simpl; apply lookup_insert_eq|]. intros s4 I4 T4 L4 F4.
        simpl in T4. rewrite insert_insert_eq in T4.
        assert (frame s s4) as F.
        { etrans; [apply (frame_with_tcb h c1)|]. etrans; [exact F2|]. etrans; [|exact F4]. by split. }
        split_and!; [|done|exact T4]. eapply (timed_one T s s4 h c); [done|done|exact T4|done|done|].
        right. eapply (deadline_state_none T s None); [done|done|]. left. by eexists.
      * intros _ s' (Ht' & F' & T'). apply wp_ret. eapply HQ; [done|done|exact T'|]. rewrite Hmax.
        split; simpl; try done. unfold moved_to. by rewrite decide_True.
    + apply wp_modify. cbn [tasks lists vars pxCurrentTCB with_tcb]. rewrite insert_insert_eq.
      apply wp_ret. eapply (HQ _ (with_priority (uxPriority cc) c1)); [|by split|done|].
      * apply (with_tcb_ok T s h c); [done|done|split; simpl; try done; by rewrite B1|]. intros q Hq. exfalso. apply Hl. rewrite Hq. by rewrite (R q Hq).
      * rewrite Hmax. split; simpl; try done. unfold moved_to. by rewrite decide_False, SS.
  - apply wp_ret. eapply (HQ s c); [done|done|by rewrite insert_id|]. rewrite Z.max_l by lia. split; try done.
    unfold moved_to. by case_decide.
Qed.

Lemma disinherit_ok T s t c (Q : bool → kernel → Prop) :
  timed T s → pxCurrentTCB s = Some t → tasks s !! t = Some c → 0 < uxMutexesHeld c →
  pvContainer (xStateListItem c) = Some (pxReadyTasksLists (uxPriority c)) →
  let last := negb (uxPriority c =? uxBasePriority c) && (uxMutexesHeld c - 1 =? 0) in
  (∀ s' c', timed T s' → frame s s' → tasks s' = <[t := c']> (tasks s) →
    changed (if last then uxBasePriority c else uxPriority c) (uxMutexesHeld c - 1) c c' → Q last s') →
  wp (xTaskPriorityDisinherit (Some t)) Q s.
Proof.
  intros Ht Hcur Hc Hm Hl last HQ. pose proof (tm_inv _ _ Ht) as Hi. pose proof (i_task _ _ Hi t c Hc) as [P B R S V E].
  unfold xTaskPriorityDisinherit. apply wp_bind, wp_gets, wp_bind. eapply wp_assert; [by rewrite bool_decide_eq_true_2|].
  apply wp_bind. eapply wp_tcb; [done|]. apply wp_bind. eapply wp_assert; [rewrite negb_true_iff; lia|].
  apply wp_bind, wp_modify. fold last. set (c1 := with_mutexes (uxMutexesHeld c - 1) c).
  change (Kernel _ _ _ _ _ _) with (with_tcb t c1 s).
  assert (same_place c c1) as Hsp by (by split).
  pose proof (with_tcb_ok T s t c c1 Ht Hc Hsp ltac:(done)) as Ht1.
  destruct last eqn:El.
  - apply wp_bind. eapply (remove_state_ok (with_tcb t c1 s) t c1); [apply Ht1|apply lookup_insert_eq|done|].
    intros _ s2 I2 T2 L2 V2 F2. simpl in T2. rewrite insert_insert_eq in T2.
    apply wp_bind. eapply wp_tcb; [rewrite T2; apply lookup_insert_eq|].
    apply wp_bind, wp_modify. rewrite T2, insert_insert_eq.
    apply wp_bind. eapply wp_set_value; [simpl; apply lookup_insert_eq|]. cbn [tasks]. rewrite insert_insert_eq.
    set (s3 := Kernel _ _ _ _ _ _).
    assert (inv (Some t) s3) as I3.
    { eapply (inv_tcb (Some t) s2 t (set_container_of StateItem None c1)); [done|rewrite T2; apply lookup_insert_eq|by right
        |unfold s3; by rewrite T2, insert_insert_eq| |by intros []|by right].
      constructor; simpl; try done. by apply u32_event_value. }
    apply wp_bind. eapply add_ready_ok; [exact I3|simpl; apply lookup_insert_eq|]. intros s4 I4 T4 L4 F4.
    simpl in T4. rewrite insert_insert_eq in T4. apply wp_ret.
    assert (frame s s4) as F.
    { etrans; [apply (frame_with_tcb t c1)|]. etrans; [exact F2|]. etrans; [|exact F4]. by split. }
    eapply (HQ s4); [|done|exact T4|].
    + eapply (timed_one T s s4 t c); [done|done|exact T4|done|done|].
      right. eapply (deadline_state_none T s None); [done|done|]. left. by eexists.
    + split; simpl; try done. unfold moved_to. by rewrite decide_True.
  - apply wp_ret. eapply (HQ _ c1); [done|by split|done|]. split; try done. unfold moved_to. by rewrite decide_True.
Qed.

(** Ends a change of priority made in place: moves the task if it was ready. *)
Lemma move_if_ready_ok {A} T s t c c' (k : K A) (Q : A → kernel → Prop) :
  timed T s → tasks s !! t = Some c → same_place c c' →
  (∀ s' c2, timed T s' → frame s s' → tasks s' = <[t := c2]> (tasks s) →
    uxPriority c2 = uxPriority c' → uxBasePriority c2 = uxBasePriority c' → uxMutexesHeld c2 = uxMutexesHeld c' →
    pvContainer (xStateListItem c2) = moved_to (uxPriority c') c →
    pvContainer (xEventListItem c2) = pvContainer (xEventListItem c) → wp k Q s') →
  wp ((if decide (pvContainer (xStateListItem c') = Some (pxReadyTasksLists (uxPriority c))) then
        _ ← listRemove StateItem t; prvAddTaskToReadyList t else ret tt);; k) Q (with_tcb t c' s).
Proof.
  intros Ht Hc Hsp HQ. pose proof Hsp as [SS SE SV SP SB]. rewrite SS. case_decide as Hl.
  - assert (wp (_ ← listRemove StateItem t; prvAddTaskToReadyList t;; k) Q (with_tcb t c' s)) as H.
    { eapply move_ready_ok; [done..|]. intros s' Ht' F' T'. eapply HQ; [done|done|exact T'|done|done|done| |done].
      unfold moved_to. by rewrite decide_True. }
    by apply wp_bind_assoc.
  - apply wp_bind, wp_ret. eapply (HQ _ c'); [|by split|done|done|done|done| |done].
    + eapply with_tcb_ok; [done..|]. intros q Hq. exfalso. apply Hl. rewrite Hq. f_equal. f_equal.
      by apply (t_ready _ _ _ (i_task _ _ (tm_inv _ _ Ht) t c Hc)).
    + unfold moved_to. by rewrite decide_False, SS.
Qed.

Lemma disinherit_timeout_ok T s t c hp (Q : unit → kernel → Prop) :
  timed T s → pxCurrentTCB s ≠ Some t → tasks s !! t = Some c → 0 < uxMutexesHeld c → 0 <= hp < configMAX_PRIORITIES →
  let p := Z.max (uxBasePriority c) hp in
  (∀ s' c', timed T s' → frame s s' → tasks s' = <[t := c']> (tasks s) →
    changed (if uxMutexesHeld c =? 1 then p else uxPriority c) (uxMutexesHeld c) c c' → Q tt s') →
  wp (vTaskPriorityDisinheritAfterTimeout (Some t) hp) Q s.
Proof.
  intros Ht Hcur Hc Hm Hhp p HQ. pose proof (tm_inv _ _ Ht) as Hi. pose proof (i_task _ _ Hi t c Hc) as [P B R S V E].
  unfold vTaskPriorityDisinheritAfterTimeout. apply wp_bind. eapply wp_tcb; [done|].
  apply wp_bind. eapply wp_assert; [rewrite negb_true_iff; lia|]. fold p.
  assert (∀ x, x = uxPriority c → changed x (uxMutexesHeld c) c c) as Hsame.
  { intros x ->. split; try done. unfold moved_to. by case_decide. }
  destruct (Z.eqb_spec (uxPriority c) p) as [Ep|Ep]; simpl.
  { apply wp_ret. eapply (HQ s c); [done|done|by rewrite insert_id|]. apply Hsame. by case_match. }
  destruct (uxMutexesHeld c =? 1) eqn:Em.
  2:{ apply wp_ret. eapply (HQ s c); [done|done|by rewrite insert_id|]. by apply Hsame. }
  apply wp_bind, wp_gets, wp_bind. eapply wp_assert; [by rewrite bool_decide_eq_true_2|].
  apply wp_bind, wp_modify. change (Kernel _ _ _ _ _ _) with (with_tcb t (with_priority p c) s).
  assert (0 <= p < configMAX_PRIORITIES) as Hp by lia.
  assert (∀ c1, same_place c c1 → uxPriority c1 = p → uxBasePriority c1 = uxBasePriority c → uxMutexesHeld c1 = uxMutexesHeld c →
    wp (c' ← tcb t; if decide (pvContainer (xStateListItem c') = Some (pxReadyTasksLists (uxPriority c))) then
        _ ← listRemove StateItem t; prvAddTaskToReadyList t else ret tt) Q (with_tcb t c1 s)) as Hend.
  { intros c1 Hsp P1 B1 M1. apply wp_bind. eapply wp_tcb; [apply lookup_insert_eq|].
    pose proof (move_if_ready_ok T s t c c1 (ret tt) Q Ht Hc Hsp) as Hmv.
    apply wp_seq_ret, Hmv. intros s' c2 Ht' F' T' P2 B2 M2 S2 E2. apply wp_ret. eapply HQ; [done|done|exact T'|].
    split; congruence. }
  apply wp_bind. destruct (event_value_free c).
  - eapply wp_set_value; [simpl; apply lookup_insert_eq|]. cbn [tasks with_tcb]. rewrite insert_insert_eq.
    apply (Hend (set_item EventItem _ (with_priority p c))); try done. split; try done. by apply u32_event_value.
  - apply wp_ret. by apply (Hend (with_priority p c)).
Qed.

(** vTaskPrioritySet() changes the base priority; the priority in use follows
    unless the task runs at an inherited one. *)
Lemma priority_set_ok T s h t c p cur cc (Q : unit → kernel → Prop) :
  timed T s → pxCurrentTCB s = Some cur → tasks s !! cur = Some cc →
  (h = Some t ∨ h = None ∧ t = cur) → tasks s !! t = Some c → 0 <= p < configMAX_PRIORITIES →
  (∀ s' c', timed T s' → pxCurrentTCB s' = pxCurrentTCB s →
    (∀ x, x ≠ uxTopReadyPriority → x ≠ pendSV → vars s' x = vars s x) → tasks s' = <[t := c']> (tasks s) →
    uxBasePriority c' = p → uxPriority c' = (if uxBasePriority c =? uxPriority c then p else uxPriority c) →
    uxMutexesHeld c' = uxMutexesHeld c → pvContainer (xStateListItem c') = moved_to (uxPriority c') c →
    pvContainer (xEventListItem c') = pvContainer (xEventListItem c) → Q tt s') →
  wp (vTaskPrioritySet h p) Q s.
Proof.
  intros Ht Hcur Hcc Hh Hc Hp HQ. pose proof (tm_inv _ _ Ht) as Hi. pose proof (i_task _ _ Hi t c Hc) as [P B R S V E].
  unfold vTaskPrioritySet. apply wp_bind. eapply wp_assert; [lia|]. apply wp_bind.
  assert (wp (prvGetTCBFromHandle h) (λ t' s', t' = t ∧ s' = s) s) as Hget.
  { destruct Hh as [-> | [-> ->]]; simpl; [by apply wp_ret|]. by eapply wp_current. }
  eapply wp_mono; [exact Hget|]. intros ? ? [-> ->]. apply wp_bind. eapply wp_tcb; [done|].
  destruct (Z.eqb_spec (uxBasePriority c) p) as [Eb|Eb]; simpl.
  { apply wp_ret. apply (HQ s c); try done; [by rewrite insert_id| |].
    - destruct (Z.eqb_spec (uxBasePriority c) (uxPriority c)); lia.
    - unfold moved_to. by case_decide. }
  apply wp_bind. eapply wp_current; [done|]. apply wp_bind. eapply wp_tcb; [done|].
  set (y := if uxBasePriority c <? p then _ else _).
  set (c1 := with_base p (if uxBasePriority c =? uxPriority c then with_priority p c else c)).
  assert (uxPriority c1 = if uxBasePriority c =? uxPriority c then p else uxPriority c) as Hp1 by (unfold c1; by case_match).
  assert (∀ A (k : K A) Q', wp k Q' (with_tcb t c1 s) →
    wp ((if uxBasePriority c =? uxPriority c then put_tcb t (with_priority p c) else ret tt);;
        c ← tcb t; put_tcb t (with_base p c);; k) Q' s) as Hput.
  { intros A k Q' Hk. apply wp_bind. unfold c1 in Hk. destruct (uxBasePriority c =? uxPriority c).
    - apply wp_modify, wp_bind. eapply wp_tcb; [simpl; apply lookup_insert_eq|]. apply wp_bind, wp_modify.
      cbn [tasks lists vars pxCurrentTCB]. by rewrite insert_insert_eq.
    - apply wp_ret, wp_bind. eapply wp_tcb; [done|]. apply wp_bind, wp_modify. exact Hk. }
  apply Hput. apply wp_bind. eapply wp_tcb; [apply lookup_insert_eq|].
  assert (same_place c c1) as Hsp1 by (split; unfold c1; case_match; simpl; done).
  assert (∀ c2, same_place c c2 → uxPriority c2 = uxPriority c1 → uxBasePriority c2 = p → uxMutexesHeld c2 = uxMutexesHeld c →
    wp (c' ← tcb t;
        (if decide (pvContainer (xStateListItem c') = Some (pxReadyTasksLists (uxPriority c))) then
           _ ← listRemove StateItem t; prvAddTaskToReadyList t else ret tt);;
        if y then portYIELD else ret tt) Q (with_tcb t c2 s)) as Hend.
  { intros c2 Hsp P2 B2 M2. apply wp_bind. eapply wp_tcb; [apply lookup_insert_eq|].
    eapply (move_if_ready_ok T s t c c2); [done..|]. intros s' c3 Ht' F' T' P3 B3 M3 S3 E3. destruct y.
    - apply wp_modify. eapply HQ; [apply timed_var; [done|set_solver]|apply F'| |exact T'|congruence..].
      intros x H1 H2. simpl. rewrite upd_ne by done. by apply F'.
    - apply wp_ret. eapply HQ; [done|apply F'| |exact T'|congruence..]. intros x H1 H2. by apply F'. }
  apply wp_bind. destruct (event_value_free c1).
  - eapply wp_set_value; [apply lookup_insert_eq|]. cbn [tasks with_tcb]. rewrite insert_insert_eq.
    apply (Hend (set_item EventItem _ c1)); try done.
    + destruct Hsp1. split; try done. by apply u32_event_value.
    + unfold c1. simpl. by destruct (uxBasePriority c =? uxPriority c).
  - apply wp_ret. apply (Hend c1); try done. unfold c1. simpl. by destruct (uxBasePriority c =? uxPriority c).
Qed.

(** *** Suspension of single tasks *)

Lemma resume_task_ok T s t c cur cc :
  timed T s → pxCurrentTCB s = Some cur → tasks s !! cur = Some cc → tasks s !! t = Some c →
  wp (vTaskResume t) (λ _ s', (timed T s' ∧ (tasks s' = tasks s ∨
      pvContainer (xEventListItem c) = None ∧
      tasks s' = <[t := set_container_of StateItem (Some (pxReadyTasksLists (uxPriority c))) c]> (tasks s))) ∧
    pxCurrentTCB s' = pxCurrentTCB s ∧
    ∀ x, x ≠ uxTopReadyPriority → x ≠ pendSV → vars s' x = vars s x) s.
Proof.
  intros Ht Hcur Hcc Hc. unfold vTaskResume. apply wp_bind, wp_gets. case_decide as Hne; [|apply wp_ret; by auto].
  unfold prvTaskIsTaskSuspended. apply wp_bind, wp_bind. eapply wp_tcb; [done|]. apply wp_ret.
  destruct (_ && _) eqn:Eb; [|apply wp_ret; by auto].
  apply andb_true_iff in Eb as [_ Eb%bool_decide_eq_true]. eapply make_ready_ok; [done..|]. intros s1 Ht1 F1 T1. pose proof F1 as [C1 _ _ V1].
  apply wp_bind. eapply wp_current; [by rewrite C1|]. apply wp_bind. eapply wp_tcb; [rewrite T1; apply lookup_insert_eq|].
  destruct (i_cur _ _ (tm_inv _ _ Ht1) cur) as [cc' Hcc']; [by rewrite C1|]. apply wp_bind. eapply wp_tcb; [exact Hcc'|].
  destruct (_ <=? _).
  - apply wp_modify. split_and!; [apply timed_var; [done|set_solver]|by right|done|]. intros x H1 H2. simpl.
    rewrite upd_ne by done. by apply V1.
  - apply wp_ret. split_and!; [done|by right|done|]. intros x H1 H2. by apply V1.
Qed.

Lemma reset_next_timed T s :
  timed T s → wp prvResetNextTaskUnblockTime (λ _ s', timed T s' ∧ pxCurrentTCB s' = pxCurrentTCB s ∧ tasks s' = tasks s ∧
    ∀ x, x ≠ xNextTaskUnblockTime → vars s' x = vars s x) s.
Proof.
  intros Ht. apply reset_next_ok; [apply Ht|]. intros v s' Hi' Hv. destruct Ht as [I P Tk O D N C].
  assert (timed T s') as Ht' by (by split).
  split_and!; [exact Ht'|done|done|]. intros x Hx. simpl. by rewrite upd_ne.
Qed.

(** Task [c] after it has been suspended. *)
Record parked (c c' : TCB_t) : Prop := {
  pk_prio : uxPriority c' = uxPriority c;
  pk_base : uxBasePriority c' = uxBasePriority c;
  pk_mutexes : uxMutexesHeld c' = uxMutexesHeld c;
  pk_state : pvContainer (xStateListItem c') = Some xSuspendedTaskList;
  pk_event : pvContainer (xEventListItem c') = None
}.

Lemma suspend_task_ok T s t c cur :
  timed T s → pxCurrentTCB s = Some cur → tasks s !! t = Some c →
  (cur = t → vars s uxSchedulerSuspended = 0 ∧ vars s xSchedulerRunning ≠ 0) →
  wp (vTaskSuspend (Some t)) (λ _ s', (timed T s' ∧ (cur = t → vars s' pendSV = 1) ∧
      ∃ c', tasks s' = <[t := c']> (tasks s) ∧ parked c c') ∧ pxCurrentTCB s' = pxCurrentTCB s ∧
    ∀ x, x ≠ uxTopReadyPriority → x ≠ xNextTaskUnblockTime → x ≠ pendSV → vars s' x = vars s x) s.
Proof.
  intros Ht Hcur Hc Hself. pose proof (tm_inv _ _ Ht) as Hi. destruct (state_some s t c Hi Hc) as [l Hl].
  unfold vTaskSuspend. apply wp_bind, wp_ret, wp_bind. eapply remove_state_ok; [done..|]. intros _ s1 I1 T1 L1 V1 F1.
  apply wp_bind. eapply remove_event_item_ok; [exact I1|rewrite T1; apply lookup_insert_eq|by right|].
  intros s2 I2 T2 L2 V2 F2. rewrite T1, insert_insert_eq in T2.
  apply wp_bind. eapply insert_suspended_ok; [exact I2|rewrite T2; apply lookup_insert_eq|].
  intros s3 I3 T3 V3 F3. rewrite T2, insert_insert_eq in T3.
  pose proof (frame_trans _ _ _ (frame_trans _ _ _ F1 F2) F3) as F.
  assert (timed T s3) as Ht3.
  { eapply (timed_one T s s3 t c); [done|done|exact T3|done|done|]. right.
    eapply (deadline_state_none T s None); [done|done|by right]. }
  apply wp_bind. eapply wp_tcb; [rewrite T3; apply lookup_insert_eq|]. apply wp_bind.
  eapply (wp_mono _ (λ _ s4, (timed T s4 ∧ ∃ c', tasks s4 = <[t := c']> (tasks s) ∧ parked c c') ∧
    pxCurrentTCB s4 = pxCurrentTCB s ∧ vars s4 = vars s3)).
  { case_match; [|by apply wp_ret; split_and!; [done|eexists; split; [exact T3|done]|apply F|done]].
    apply wp_modify. split_and!; [|eexists; split; [by rewrite T3, insert_insert_eq|done]|apply F|done].
    apply (with_tcb_ok T s3 t (set_container_of StateItem (Some xSuspendedTaskList) (set_container_of EventItem None (set_container_of StateItem None c))));
      [done|rewrite T3; apply lookup_insert_eq| |done].
    destruct (i_task _ _ Hi t c Hc). by split. }
  intros _ s4 ([Ht4 E4] & C4 & V4). apply wp_bind, wp_gets, wp_bind.
  eapply (wp_mono _ (λ _ s5, timed T s5 ∧ tasks s5 = tasks s4 ∧ pxCurrentTCB s5 = pxCurrentTCB s ∧ ∀ x, x ≠ xNextTaskUnblockTime → vars s5 x = vars s4 x)).
  { destruct (negb _); [|by apply wp_ret]. eapply wp_mono; [by apply (reset_next_timed T)|].
    intros _ s5 (? & C5 & ? & ?). split_and!; [done|done|by rewrite C5|done]. }
  intros _ s5 (Ht5 & T5 & C5 & V5). rewrite <-T5 in E4.
  assert (∀ x, x ≠ uxTopReadyPriority → x ≠ xNextTaskUnblockTime → vars s5 x = vars s x) as V.
  { intros x H1 H2. rewrite V5, V4 by done. by apply F. }
  apply wp_bind, wp_gets. case_decide as Ed; [|apply wp_ret; split_and!; auto; intros ->; congruence].
  rewrite C5, Hcur in Ed. injection Ed as ->. destruct (Hself eq_refl) as [Hs Hr].
  assert (vars s4 xSchedulerRunning = vars s xSchedulerRunning) as -> by (rewrite V4; by apply F).
  rewrite (proj2 (Z.eqb_neq _ _) Hr). simpl. apply wp_bind, wp_gets. rewrite V by done. rewrite Hs.
  apply wp_bind. eapply wp_assert; [done|]. apply wp_modify.
  split_and!; [apply timed_var; [done|set_solver]|intros _; simpl; apply upd_eq|exact E4|done|].
  intros x H1 H2 H3. simpl. rewrite upd_ne by done. by apply V.
Qed.
