(* ===== verification/RtosServices.v ===== *)
(** * What the kernel's services guarantee to their callers

    Time-outs, priority inheritance, and the safety of every sequence of
    kernel calls. *)

From Stdlib Require Import ZArith Lia Sorted.
From S2P Require Import Prelude RtosList RtosListSpec RtosKernel RtosKernelSpec RtosTime RtosSched RtosBoot RtosSafety.
Local Open Scope Z_scope.
Local Open Scope pim_scope.

(** ** Time-outs *)

Lemma u32_sub_mod a b : u32 (a mod EPOCH - b mod EPOCH) = (a - b) mod EPOCH.
Proof. unfold wrap, EPOCH. by rewrite <-Zminus_mod. Qed.

(** A time-out expires exactly when its ticks have passed.  With the
    TimeOut_t filled in at tick [T0] and examined at tick [T], before the tick
    counter has overflowed twice, xTaskCheckForTimeOut() reports the time-out
    of [n] ticks exactly when [n] ticks have passed, and otherwise returns the
    ticks that remain and a TimeOut_t stamped with [T]; a wait of
    portMAX_DELAY never times out.  Nothing in the kernel changes. *)
Theorem timeout_exact (T0 T n : Z) (s0 s : kernel) :
  timed T0 s0 → timed T s → T0 <= T < (T0 / 2 ^ 32 + 2) * 2 ^ 32 → 0 <= n < 2 ^ 32 →
  wp vTaskSetTimeOutState (λ o _,
    wp (xTaskCheckForTimeOut o n) (λ '(expired, o', n') s', s' = s ∧
      if decide (n = portMAX_DELAY) then expired = false ∧ o' = o ∧ n' = n
      else (expired = true ↔ n <= T - T0) ∧
        (expired = false → n' = n - (T - T0) ∧ wp vTaskSetTimeOutState (λ o2 _, o2 = o') s)) s) s0.
Proof.
  intros Ht0 Ht HT Hn. apply wp_bind, wp_gets, wp_bind, wp_gets, wp_ret.
  apply wp_bind, wp_gets, wp_bind, wp_gets. cbn [xOverflowCount xTimeOnEntering].
  rewrite (tm_tick _ _ Ht0), (tm_tick _ _ Ht), (tm_overflows _ _ Ht0), (tm_overflows _ _ Ht), u32_sub_mod.
  pose proof (tm_pos _ _ Ht0) as Hp. unfold EPOCH in *.
  pose proof (Z.div_mod T (2 ^ 32) ltac:(lia)) as E. pose proof (Z.div_mod T0 (2 ^ 32) ltac:(lia)) as E0.
  pose proof (Z.mod_pos_bound T (2 ^ 32) ltac:(lia)). pose proof (Z.mod_pos_bound T0 (2 ^ 32) ltac:(lia)).
  assert (T / 2 ^ 32 = T0 / 2 ^ 32 ∨ T / 2 ^ 32 = T0 / 2 ^ 32 + 1) as Hq.
  { pose proof (Z.div_le_mono T0 T (2 ^ 32)). pose proof (Z.div_lt_upper_bound T (2 ^ 32) (T0 / 2 ^ 32 + 2)). lia. }
  case_decide as Hm.
  { rewrite (proj2 (Z.eqb_eq _ _) Hm). by apply wp_ret. }
  rewrite (proj2 (Z.eqb_neq _ _) Hm).
  destruct (negb (T / 2 ^ 32 =? T0 / 2 ^ 32) && (T0 mod 2 ^ 32 <=? T mod 2 ^ 32)) eqn:Ho.
  { apply wp_ret. split; [done|]. split; [|done]. lia. }
  assert (0 <= T - T0 < 2 ^ 32) as Hd.
  { apply andb_false_iff in Ho as [Ho|Ho]; [apply negb_false_iff in Ho|]; lia. }
  rewrite (Z.mod_small _ _ Hd). destruct (Z.ltb_spec (T - T0) n).
  - apply wp_bind. apply wp_bind, wp_gets, wp_bind, wp_gets, wp_ret. apply wp_ret. split; [done|]. split; [split; [done|lia]|].
    intros _. split; [unfold wrap; rewrite Z.mod_small; lia|].
    by apply wp_bind, wp_gets, wp_bind, wp_gets, wp_ret.
  - apply wp_ret. split; [done|]. split; [split; [lia|done]|done].
Qed.

Lemma timeout_exact_witness :
  wp vTaskSetTimeOutState (λ o _, wp (xTaskCheckForTimeOut o 7) (λ '(expired, o', n') _, expired = true ↔ 7 <= 0) booted) booted.
Proof.
  eapply wp_mono; [apply (timeout_exact 0 0 7 booted booted booted_timed booted_timed); (split; [lia|vm_compute; reflexivity])|].
  intros o s' Hw. eapply wp_mono; [exact Hw|]. intros [[e o'] n'] s2 [_ H]. rewrite decide_False in H by (vm_compute; congruence). apply H.
Defined.

(** ** Priority inheritance *)

Lemma list_not_ready_event l p : kind_of l = EventItem → l ≠ pxReadyTasksLists p.
Proof. by intros Hk ->. Qed.

(** C29. Priority inheritance bounds priority inversion.  When the running
    task finds a mutex held by a ready task, lends it its priority and blocks on
    the queue of the mutex, the task that runs next has at least the priority of
    the blocked one: no task of a priority in between runs while the holder has
    not given the mutex back.  The base priorities stay as they were. *)
Theorem inheritance_bounds_inversion (T n : Z) (s : kernel) (cur h : task) (cc c : TCB_t) (q : positive) :
  timed T s → vars s uxSchedulerSuspended = 0 → pxCurrentTCB s = Some cur → tasks s !! cur = Some cc →
  h ≠ cur → tasks s !! h = Some c → pvContainer (xStateListItem c) = Some (pxReadyTasksLists (uxPriority c)) →
  pvContainer (xEventListItem cc) = None → 0 < n < 2 ^ 32 →
  wp (_ ← xTaskPriorityInherit (Some h); vTaskPlaceOnEventList (xTasksWaitingToReceive q) n;; vTaskSwitchContext)
    (λ _ s', timed T s' ∧ ∃ t ct, pxCurrentTCB s' = Some t ∧ tasks s' !! t = Some ct ∧ t ≠ cur ∧
      uxPriority cc <= uxPriority ct ∧
      ∀ u cu, tasks s !! u = Some cu → ∃ cu', tasks s' !! u = Some cu' ∧
        uxPriority cu' = (if decide (u = h) then Z.max (uxPriority c) (uxPriority cc) else uxPriority cu) ∧
        uxBasePriority cu' = uxBasePriority cu) s.
Proof.
  intros Ht Hs Hcur Hcc Hne Hc Hl He Hn. apply wp_bind. eapply inherit_ok; [done..|].
  intros s1 c1 Ht1 [C1 D1 O1 V1] T1 [P1 B1 M1 S1 E1]. apply wp_bind.
  assert (tasks s1 !! cur = Some cc) as Hcc1 by (by rewrite T1, lookup_insert_ne).
  eapply (place_on_event_list_ok T n s1 (xTasksWaitingToReceive q) cur cc); [done|done|by rewrite C1|done..|].
  intros s2 cc2 Ht2 T2 L2 [P2 B2 M2 S2] C2 V2.
  assert (tasks s2 !! h = Some c1) as Hh2 by (rewrite T2, lookup_insert_ne by done; rewrite T1; apply lookup_insert_eq).
  assert (pvContainer (xStateListItem c1) = Some (pxReadyTasksLists (uxPriority c1))) as Hl1.
  { rewrite S1, P1. unfold moved_to. by rewrite decide_True. }
  pose proof (tm_inv _ _ Ht2) as Hi2.
  eapply wp_mono; [apply (switch_ok s2 h); [done|by rewrite V2, V1|by eexists _, _]|].
  intros _ s3 (p & t & P3). pose proof P3 as [I3 T3 C3 D3 O3 V3 Y3 N3 L3 H3].
  assert (timed T s3) as Ht3.
  { eapply (timed_keep T s2 s3); try done.
    - intros t' c'. rewrite T3. left. by eexists.
    - intros x Hx. apply V3; set_solver. }
  split; [done|].
  pose proof (list_in s2 None (pxReadyTasksLists (uxPriority c1)) h c1 Hi2 Hh2 Hl1) as Hin1.
  destruct (in_list s2 None (pxReadyTasksLists p) t Hi2) as (ct & Hct & Hlt); [by apply al_next_item_in|].
  pose proof (t_ready _ _ _ (i_task _ _ Hi2 t ct Hct) p Hlt) as ->.
  exists t, ct. split_and!; [done|by rewrite T3| | |].
  - intros ->. rewrite T2, lookup_insert_eq in Hct. injection Hct as <-. by eapply S2.
  - enough (uxPriority c1 <= uxPriority ct) by lia. apply H3. intros E. rewrite E in Hin1. by apply not_elem_of_nil in Hin1.
  - intros u cu Hu. rewrite T3, T2, T1. destruct (decide (u = cur)) as [->|Hu1].
    + exists cc2. rewrite lookup_insert_eq, decide_False by done. simplify_eq. by split_and!.
    + rewrite lookup_insert_ne by done. rewrite lookup_insert. case_decide as Hu2; case_decide; try congruence.
      * subst u. exists c1. simplify_eq. by split_and!.
      * by exists cu.
Qed.

Lemma inheritance_bounds_inversion_witness :
  wp (_ ← xTaskPriorityInherit (Some 4%positive); vTaskPlaceOnEventList (xTasksWaitingToReceive 1) 10;; vTaskSwitchContext)
    (λ _ s', ∃ t ct, pxCurrentTCB s' = Some t ∧ tasks s' !! t = Some ct ∧ t ≠ 3%positive ∧ 2 <= uxPriority ct) booted.
Proof.
  destruct (booted_tcb 3%positive) as [cc Hcc]; [set_solver|]. destruct (booted_tcb 4%positive) as [c Hc]; [set_solver|].
  assert ((λ c, (uxPriority c, pvContainer (xEventListItem c))) <$> tasks booted !! 3%positive = Some (2, None)) as E3 by (vm_compute; reflexivity).
  assert (bool_decide ((λ c, pvContainer (xStateListItem c)) <$> tasks booted !! 4%positive =
    (λ c, Some (pxReadyTasksLists (uxPriority c))) <$> tasks booted !! 4%positive) = true) as E4 by (vm_compute; reflexivity).
  apply bool_decide_eq_true in E4. rewrite Hcc in E3. rewrite Hc in E4. injection E3 as Hp He. injection E4 as Hl.
  eapply wp_mono; [apply (inheritance_bounds_inversion 0 10 booted 3%positive 4%positive cc c 1%positive);
    [apply booted_timed|vm_compute; reflexivity..|done|done|done|done|done|lia]|].
  intros [] s' (_ & t & ct & H1 & H2 & H3 & H4 & _). exists t, ct. by rewrite Hp in H4.
Defined.

(** Giving the last mutex back restores the priority.  When the running
    task, which holds mutexes, gives one back, its priority becomes its base
    priority if that was the last mutex it held and stays as it is otherwise;
    the task ends in the ready list of its priority, and a context switch is
    asked for exactly when its priority has changed. *)
Theorem give_restores_priority (T : Z) (s : kernel) (t : task) (c : TCB_t) :
  timed T s → pxCurrentTCB s = Some t → tasks s !! t = Some c → 0 < uxMutexesHeld c →
  pvContainer (xStateListItem c) = Some (pxReadyTasksLists (uxPriority c)) →
  wp (xTaskPriorityDisinherit (Some t)) (λ yield s', timed T s' ∧ pxCurrentTCB s' = Some t ∧
    ∃ c', tasks s' = <[t := c']> (tasks s) ∧ uxMutexesHeld c' = uxMutexesHeld c - 1 ∧
      uxBasePriority c' = uxBasePriority c ∧
      uxPriority c' = (if uxMutexesHeld c =? 1 then uxBasePriority c else uxPriority c) ∧
      pvContainer (xStateListItem c') = Some (pxReadyTasksLists (uxPriority c')) ∧
      (yield = true ↔ uxPriority c' ≠ uxPriority c)) s.
Proof.
  intros Ht Hcur Hc Hm Hl. eapply disinherit_ok; [done..|]. intros s' c' Ht' F T' [P' B' M' S' E'].
  split; [done|]. split; [by rewrite (f_cur _ _ F)|]. exists c'. split_and!; try done.
  - rewrite P'. destruct (Z.eqb_spec (uxPriority c) (uxBasePriority c)), (Z.eqb_spec (uxMutexesHeld c - 1) 0),
      (Z.eqb_spec (uxMutexesHeld c) 1); simpl; lia.
  - rewrite S', P'. unfold moved_to. by rewrite decide_True.
  - rewrite P'. destruct (Z.eqb_spec (uxPriority c) (uxBasePriority c)), (_ =? 0); simpl; split; congruence.
Qed.

Lemma give_restores_priority_witness :
  wp (_ ← pvTaskIncrementMutexHeldCount; xTaskPriorityDisinherit (Some 3%positive)) (λ _ s', timed 0 s') booted.
Proof.
  destruct (booted_tcb 3%positive) as [c Hc]; [set_solver|].
  assert (bool_decide ((λ c, (uxMutexesHeld c, pvContainer (xStateListItem c))) <$> tasks booted !! 3%positive =
    (λ c, (0, Some (pxReadyTasksLists (uxPriority c)))) <$> tasks booted !! 3%positive) = true) as E by (vm_compute; reflexivity).
  assert (pxCurrentTCB booted = Some 3%positive) as Hcur by (vm_compute; reflexivity).
  apply bool_decide_eq_true in E. rewrite Hc in E. injection E as Hm Hl. pose proof booted_timed as Ht.
  generalize dependent booted. intros s Hc Hcur Ht.
  apply wp_bind. apply wp_bind, wp_gets. rewrite Hcur. apply wp_bind. apply wp_bind. eapply wp_tcb; [done|].
  apply wp_modify, wp_gets. rewrite Hm.
  assert (timed 0 (with_tcb 3%positive (with_mutexes 1 c) s)) as Ht'.
  { eapply with_tcb_ok; [done|done| |done]. by destruct (same_place_refl 0 s 3%positive c Ht Hc). }
  eapply wp_mono; [apply (give_restores_priority 0 _ 3%positive (with_mutexes 1 c) Ht')|].
  - done.
  - apply lookup_insert_eq.
  - simpl. lia.
  - done.
  - by intros y s' [H _].
Defined.

(** ** Every sequence of kernel calls is safe *)

Inductive kcall :=
  | CreateTask (t : task) (p : Z)
  | SwitchContext
  | IncrementTick
  | SuspendAll
  | ResumeAll
  | Delay (n : Z)
  | PlaceOnEventList (l : listid) (n : Z)
  | RemoveFromEventList (l : listid)
  | Inherit (h : task)
  | Disinherit (h : task)
  | DisinheritAfterTimeout (h : task) (p : Z)
  | PrioritySet (h : option task) (p : Z)
  | Suspend (t : task)
  | Resume (t : task)
  | MissedYield.

Definition run_kcall (k : kcall) : K unit :=
  match k with
  | CreateTask t p => xTaskCreate t p
  | SwitchContext => vTaskSwitchContext
  | IncrementTick => _ ← xTaskIncrementTick; ret tt
  | SuspendAll => vTaskSuspendAll
  | ResumeAll => _ ← xTaskResumeAll; ret tt
  | Delay n => vTaskDelay n
  | PlaceOnEventList l n => vTaskPlaceOnEventList l n
  | RemoveFromEventList l => _ ← xTaskRemoveFromEventList l; ret tt
  | Inherit h => _ ← xTaskPriorityInherit (Some h); ret tt
  | Disinherit h => _ ← xTaskPriorityDisinherit (Some h); ret tt
  | DisinheritAfterTimeout h p => vTaskPriorityDisinheritAfterTimeout (Some h) p
  | PrioritySet h p => vTaskPrioritySet h p
  | Suspend t => vTaskSuspend (Some t)
  | Resume t => vTaskResume t
  | MissedYield => vTaskMissedYield
  end.

Definition event_list (l : listid) : Prop := kind_of l = EventItem ∧ l ≠ xPendingReadyList.

(** Where the callers of the kernel may make a call: the conditions its
    configASSERTs and its comments ask for. *)
Definition guard (k : kcall) (s : kernel) : Prop :=
  match k with
  | CreateTask t p => tasks s !! t = None ∧ 0 <= p
  | SwitchContext => ∃ t, ready s t
  | IncrementTick | SuspendAll | MissedYield => True
  | ResumeAll => 0 < vars s uxSchedulerSuspended
  | Delay n => n = 0 ∨ 0 < n < EPOCH ∧ vars s uxSchedulerSuspended = 0
  | PlaceOnEventList l n => event_list l ∧ 0 < n < EPOCH ∧
      ∃ t c, pxCurrentTCB s = Some t ∧ tasks s !! t = Some c ∧ pvContainer (xEventListItem c) = None
  | RemoveFromEventList l => event_list l ∧ items (lists s l) ≠ []
  | Inherit h => is_Some (tasks s !! h)
  | Disinherit h => pxCurrentTCB s = Some h ∧ ∃ c, tasks s !! h = Some c ∧ 0 < uxMutexesHeld c ∧
      pvContainer (xStateListItem c) = Some (pxReadyTasksLists (uxPriority c))
  | DisinheritAfterTimeout h p => pxCurrentTCB s ≠ Some h ∧ 0 <= p < configMAX_PRIORITIES ∧
      ∃ c, tasks s !! h = Some c ∧ 0 < uxMutexesHeld c
  | PrioritySet h p => 0 <= p < configMAX_PRIORITIES ∧ match h with Some t => is_Some (tasks s !! t) | None => True end
  | Suspend t => is_Some (tasks s !! t) ∧
      (pxCurrentTCB s = Some t → vars s uxSchedulerSuspended = 0 ∧ vars s xSchedulerRunning ≠ 0)
  | Resume t => is_Some (tasks s !! t)
  end.

(** The kernel is consistent, at some time. *)
Definition good (s : kernel) : Prop := ∃ T, timed T s ∧ 0 <= vars s uxPendedTicks.

Definition kstep (s s' : kernel) : Prop := ∃ k, guard k s ∧ run_kcall k s = Some (tt, s').

Lemma good_keep T s s' : timed T s' → 0 <= vars s uxPendedTicks → vars s' uxPendedTicks = vars s uxPendedTicks → good s'.
Proof. intros Ht Hp E. exists T. by rewrite E. Qed.

Lemma create_timed T s s' t p : timed T s → create_post t p s s' → timed T s'.
Proof.
  intros Ht [I1 C1 T1 D1 N1 V1]. destruct (tm_cur _ _ Ht) as [cur Hcur]. destruct D1 as [D1 O1]; [by rewrite Hcur|].
  eapply (timed_keep T s s'); try done.
  - intros t' c'. rewrite T1, lookup_insert. case_decide; [|left; by eexists]. intros [= <-]. right.
    eapply (deadline_state_none T s None); [apply Ht|done|left; by eexists].
  - intros x Hx. apply V1. set_solver.
Qed.

Lemma switch_good s : good s → guard SwitchContext s → wp vTaskSwitchContext (λ _ s', good s') s.
Proof.
  intros (T & Ht & Hp) [t0 Hr]. destruct (decide (vars s uxSchedulerSuspended = 0)) as [Hs|Hs].
  - eapply wp_mono; [by apply (switch_ok s t0); [apply Ht|..]|]. intros _ s' (p & t & [I1 T1 C1 D1 O1 V1 Y1 N1 L1 H1]).
    eapply (good_keep T s s'); [|done|by apply V1]. eapply (timed_keep T s s'); try done.
    + intros t' c'. rewrite T1. left. by eexists.
    + intros x Hx. apply V1; set_solver.
  - unfold vTaskSwitchContext. apply wp_bind, wp_gets. rewrite (proj2 (Z.eqb_neq _ _) Hs).
    apply wp_modify. exists T. split; [apply timed_var; [done|set_solver]|]. simpl. by rewrite upd_ne.
Qed.

Lemma tick_good s : good s → wp xTaskIncrementTick (λ _ s', good s') s.
Proof.
  intros (T & Ht & Hp). destruct (timed_cur T s Ht) as (cur & cc & Hcur & Hcc).
  destruct (decide (vars s uxSchedulerSuspended = 0)) as [Hs|Hs].
  - eapply wp_mono; [by eapply tick_ok|]. intros r s' P. eapply (good_keep _ s s'); [apply P|done|]. apply P. set_solver.
  - unfold xTaskIncrementTick. apply wp_bind, wp_gets. rewrite (proj2 (Z.eqb_neq _ _) Hs).
    wp_pure.
    exists T. split; [apply timed_var; [done|set_solver]|]. simpl. rewrite upd_eq. apply Z.mod_pos_bound. lia.
Qed.

Lemma resume_all_good s : good s → guard ResumeAll s → wp xTaskResumeAll (λ _ s', good s') s.
Proof.
  intros (T & Ht & Hp) Hg. simpl in Hg.
  destruct (decide (vars s uxSchedulerSuspended = 1)) as [Hs|Hs]; [destruct (Z.ltb_spec 0 (vars s uxCurrentNumberOfTasks)) as [Hn|Hn]|].
  - eapply wp_mono; [by eapply resume_all_ok|]. intros r s' P. eexists. split; [apply P|]. by rewrite (rp_pended _ _ _ _ _ P).
  - unfold xTaskResumeAll. apply wp_bind, wp_gets. rewrite Hs. apply wp_bind. eapply wp_assert; [done|].
    apply wp_bind, wp_modify. simpl (1 - 1 =? 0). cbv iota. apply wp_bind, wp_gets. cbn [vars]. rewrite upd_ne by done.
    rewrite (proj2 (Z.ltb_ge 0 (vars s uxCurrentNumberOfTasks)) Hn). apply wp_ret.
    exists T. split; [apply timed_var; [done|set_solver]|]. simpl. by rewrite upd_ne.
  - unfold xTaskResumeAll. apply wp_bind, wp_gets, wp_bind. eapply wp_assert; [apply negb_true_iff, Z.eqb_neq; lia|].
    apply wp_bind, wp_modify. rewrite (proj2 (Z.eqb_neq _ _)) by lia. apply wp_ret.
    exists T. split; [apply timed_var; [done|set_solver]|]. simpl. by rewrite upd_ne.
Qed.

Lemma yield_good s : good s → wp portYIELD (λ _ s', good s') s.
Proof. intros (T & Ht & Hp). apply wp_modify. exists T. split; [apply timed_var; [done|set_solver]|]. simpl. by rewrite upd_ne. Qed.

Lemma delay_good s n : good s → guard (Delay n) s → wp (vTaskDelay n) (λ _ s', good s') s.
Proof.
  intros Hgood [->|[Hn Hs]]; [by apply wp_bind, wp_ret, yield_good|]. destruct Hgood as (T & Ht & Hp).
  destruct (timed_cur T s Ht) as (cur & cc & Hcur & Hcc).
  unfold vTaskDelay. apply wp_bind. rewrite (proj2 (Z.ltb_lt 0 n)) by lia.
  apply wp_bind, wp_gets. rewrite Hs. apply wp_bind. eapply wp_assert; [done|].
  apply wp_bind. unfold vTaskSuspendAll. apply wp_bind, wp_gets. rewrite Hs. apply wp_modify. apply wp_bind.
  eapply (delay_ok T n false _ cur cc); [apply timed_var; [done|set_solver]|done|done|done|apply andb_false_r|].
  intros s2 [Ht2 _ C2 De2 O2 V2]. eapply wp_mono; [apply resume_all_good|].
  - eapply (good_keep T s s2); [done..|]. rewrite V2 by done. simpl. by rewrite upd_ne.
  - simpl. rewrite V2 by done. simpl. by rewrite upd_eq.
  - intros [] s3 Hg; [by apply wp_ret|by apply yield_good].
Qed.

Lemma kcall_good k s : good s → guard k s → wp (run_kcall k) (λ _ s', good s') s.
Proof.
  intros Hgood Hg. pose proof Hgood as (T & Ht & Hp). destruct (timed_cur T s Ht) as (cur & cc & Hcur & Hcc).
  destruct k as [t p| | | | |n|l n|l|h|h|h p|h p|t|t|]; simpl in *.
  - destruct Hg as [Hn Hpr]. eapply wp_mono; [apply create_ok; [apply Ht|done|done|intros E; by rewrite Hcur in E]|].
    intros [] s' P. eapply (good_keep T s s'); [by eapply create_timed|done|]. apply P. set_solver.
  - by apply switch_good.
  - apply wp_bind. eapply wp_mono; [by apply tick_good|]. intros r s' H. by apply wp_ret.
  - apply wp_bind, wp_gets, wp_modify. exists T. split; [apply timed_var; [done|set_solver]|]. simpl. by rewrite upd_ne.
  - apply wp_bind. eapply wp_mono; [by apply resume_all_good|]. intros r s' H. by apply wp_ret.
  - by apply delay_good.
  - destruct Hg as ([Hk Hl] & Hn & t & c & Ht1 & Hc & He). eapply (place_on_event_list_ok T n s l t c); [done..|].
    intros s' c' Ht' _ _ _ _ V'. eapply (good_keep T s s'); [done..|]. by apply V'.
  - destruct Hg as ([Hk Hl] & Hne). destruct (items (lists s l)) as [|t ts] eqn:E; [done|]. apply wp_bind.
    destruct (in_list s None l t (tm_inv _ _ Ht)) as (c & Hc & _); [rewrite E; by left|].
    eapply remove_from_event_list_ok; [done..|]. intros s' Ht' _ _ V'. apply wp_ret.
    eapply (good_keep T s s'); [done..|]. by apply V'.
  - destruct Hg as [c Hc]. apply wp_bind. eapply inherit_ok; [done..|]. intros s' c' Ht' F _ _. apply wp_ret.
    eapply (good_keep T s s'); [done..|]. by apply F.
  - destruct Hg as (Hh & c & Hc & Hm & Hl). apply wp_bind. eapply disinherit_ok; [done..|]. intros s' c' Ht' F _ _.
    apply wp_ret. eapply (good_keep T s s'); [done..|]. by apply F.
  - destruct Hg as (Hh & Hpr & c & Hc & Hm). eapply disinherit_timeout_ok; [done..|]. intros s' c' Ht' F _ _.
    eapply (good_keep T s s'); [done..|]. by apply F.
  - destruct Hg as (Hpr & Hh). destruct h as [t|].
    + destruct Hh as [c Hc]. eapply (priority_set_ok T s _ t c); [done|done|done|by left|done|done|].
      intros s' c' Ht' _ V' _ _ _ _ _ _. eapply (good_keep T s s'); [done..|]. by apply V'.
    + eapply (priority_set_ok T s _ cur cc); [done|done|done|by right|done|done|].
      intros s' c' Ht' _ V' _ _ _ _ _ _. eapply (good_keep T s s'); [done..|]. by apply V'.
  - destruct Hg as ([c Hc] & Hg). eapply wp_mono; [apply (suspend_task_ok T s t c cur); try done; intros ->; by apply Hg|].
    intros [] s' ([Ht' _] & _ & V'). eapply (good_keep T s s'); [done..|]. by apply V'.
  - destruct Hg as [c Hc]. eapply wp_mono; [by apply (resume_task_ok T s t c cur cc)|].
    intros [] s' ([Ht' _] & _ & V'). eapply (good_keep T s s'); [done..|]. by apply V'.
  - apply wp_modify. exists T. split; [apply timed_var; [done|set_solver]|]. simpl. by rewrite upd_ne.
Qed.

(** C31. The kernel stays consistent through every sequence of calls.  From a
    consistent kernel, after any number of calls to the services of tasks.c,
    each made where its assertions allow it, the kernel is consistent: every
    task is in exactly the list its state asks for, the ready lists are those of
    the priorities, the delayed lists are sorted and no deadline is missed; and
    every next call made where it is allowed runs to its end. *)
Theorem kernel_stays_consistent (s0 s : kernel) (k : kcall) :
  good s0 → rtc kstep s0 s → good s ∧ (guard k s → ∃ s', run_kcall k s = Some (tt, s') ∧ good s').
Proof.
  intros Hg Hr. assert (good s) as Hs.
  { induction Hr as [s|s s1 s2 (k' & Hk & E) _ IH]; [done|]. apply IH.
    pose proof (kcall_good k' s Hg Hk) as Hw. unfold wp in Hw. by rewrite E in Hw. }
  split; [done|]. intros Hk. pose proof (kcall_good k s Hs Hk) as Hw. unfold wp in Hw.
  destruct (run_kcall k s) as [[[] s']|]; [|done]. by exists s'.
Qed.

Lemma kernel_stays_consistent_witness : good booted ∧ ∃ s', run_kcall (Delay 5) booted = Some (tt, s') ∧ good s'.
Proof.
  assert (good booted) as Hg.
  { exists 0. split; [apply booted_timed|]. assert (vars booted uxPendedTicks = 0) as -> by (vm_compute; reflexivity). lia. }
  split; [done|]. apply (kernel_stays_consistent booted booted (Delay 5) Hg); [apply rtc_refl|].
  right. split; [unfold EPOCH; lia|vm_compute; reflexivity].
Defined.
