(* ===== verification/RtosQueue.v ===== *)
(** * Queues, semaphores and mutexes of the RTOS kernel

    Models queue.c of the FreeRTOS kernel under
    src/src/Bsp/Adafruit/grand_central_m4/gcc/FreeRTOS/Source, in the
    configuration of the Storm thermostat's FreeRTOSConfig.h: preemption, mutexes,
    recursive mutexes and counting semaphores, no queue sets, no co-routines, no
    timers, no registry.

    A queue is a control block beside the kernel of RtosKernel.v; its two lists
    of waiting tasks are event lists of that kernel.  Pointers into the storage
    area are offsets from pcHead.  The functions that may block are written as
    the steps between which interrupts and other tasks can run: a critical
    section, a call to the kernel, or an access of the task to what only it
    changes.  [next] says how such a function goes on. *)

From Stdlib Require Import ZArith Lia.
From S2P Require Import Prelude RtosList RtosKernel.
Local Open Scope Z_scope.
Local Open Scope pim_scope.

Definition queueUNLOCKED : Z := -1.
Definition queueLOCKED_UNMODIFIED : Z := 0.

Inductive position := queueSEND_TO_BACK | queueSEND_TO_FRONT | queueOVERWRITE.

#[global] Instance position_eq_dec : EqDecision position.
Proof. solve_decision. Defined.

(** The members with two uses: pcTail is pxMutexHolder and the union [u] holds
    uxRecursiveCallCount when pcHead is NULL, which marks a mutex. *)
Inductive role :=
  | Storage (pcTail pcReadFrom : Z)
  | Mutex (pxMutexHolder : option task) (uxRecursiveCallCount : Z).

(** [area] are the bytes from pcHead on. *)
Record Queue_t := Queue {
  use : role;
  area : list Z;
  pcWriteTo : Z;
  uxMessagesWaiting : Z;
  uxLength : Z;
  uxItemSize : Z;
  cRxLock : Z;
  cTxLock : Z
}.

Record rtos := Rtos { kern : kernel; queues : gmap positive Queue_t }.

Abbreviation R := (ST rtos).

(** ** Access to the state *)

Definition on_kernel {A} (m : K A) : R A :=
  λ s, match m (kern s) with Some (a, k) => Some (a, Rtos k (queues s)) | None => None end.

Definition queue (x : positive) : R Queue_t := o ← gets (λ s, queues s !! x); lift_opt o.

Definition put_queue (x : positive) (q : Queue_t) : R unit :=
  modify (λ s, Rtos (kern s) (<[x := q]> (queues s))).

Definition update (x : positive) (f : Queue_t → Queue_t) : R unit := q ← queue x; put_queue x (f q).

Definition with_use v q := Queue v (area q) (pcWriteTo q) (uxMessagesWaiting q) (uxLength q) (uxItemSize q) (cRxLock q) (cTxLock q).
Definition with_area v q := Queue (use q) v (pcWriteTo q) (uxMessagesWaiting q) (uxLength q) (uxItemSize q) (cRxLock q) (cTxLock q).
Definition with_write v q := Queue (use q) (area q) v (uxMessagesWaiting q) (uxLength q) (uxItemSize q) (cRxLock q) (cTxLock q).
Definition with_messages v q := Queue (use q) (area q) (pcWriteTo q) v (uxLength q) (uxItemSize q) (cRxLock q) (cTxLock q).
Definition with_rx v q := Queue (use q) (area q) (pcWriteTo q) (uxMessagesWaiting q) (uxLength q) (uxItemSize q) v (cTxLock q).
Definition with_tx v q := Queue (use q) (area q) (pcWriteTo q) (uxMessagesWaiting q) (uxLength q) (uxItemSize q) (cRxLock q) v.

(** The conversion to int8_t. *)
Definition int8 (z : Z) : Z := (z + 128) mod 256 - 128.

(** The members pcTail and u.pcReadFrom of a queue that is not a mutex, and the
    members pxMutexHolder and u.uxRecursiveCallCount of a mutex. *)
Definition storage (q : Queue_t) : R (Z * Z) :=
  match use q with Storage pcTail pcReadFrom => ret (pcTail, pcReadFrom) | Mutex _ _ => undefined end.

Definition mutex (q : Queue_t) : R (option task * Z) :=
  match use q with Mutex h n => ret (h, n) | Storage _ _ => undefined end.

Definition is_mutex (q : Queue_t) : bool := match use q with Mutex _ _ => true | Storage _ _ => false end.

Definition set_read (x : positive) (v : Z) : R unit :=
  update x (λ q, match use q with Storage t _ => with_use (Storage t v) q | Mutex _ _ => q end).

Definition set_holder (x : positive) (h : option task) : R unit :=
  update x (λ q, match use q with Mutex _ n => with_use (Mutex h n) q | Storage _ _ => q end).

Definition set_count (x : positive) (n : Z) : R unit :=
  update x (λ q, match use q with Mutex h _ => with_use (Mutex h n) q | Storage _ _ => q end).

(** memcpy() of one item to and from an offset of the storage area. *)
Definition memcpy_to (x : positive) (off : Z) (src : list Z) : R unit :=
  q ← queue x;
  let n := Z.to_nat (uxItemSize q) in
  assert_ ((0 <=? off) && (off + uxItemSize q <=? Z.of_nat (length (area q))) && Nat.leb n (length src));;
  put_queue x (with_area (splice (Z.to_nat off) (take n src) (area q)) q).

Definition memcpy_from (x : positive) (off : Z) : R (list Z) :=
  q ← queue x;
  assert_ ((0 <=? off) && (off + uxItemSize q <=? Z.of_nat (length (area q))));;
  ret (slice (Z.to_nat off) (Z.to_nat (uxItemSize q)) (area q)).

(** ** Creation *)

(** xQueueGenericReset(): a queue with waiting senders lets one of them go. *)
Definition xQueueGenericReset (x : positive) (xNewQueue : bool) : R unit :=
  q ← queue x;
  _ ← storage q;
  put_queue x (Queue (Storage (u32 (uxLength q * uxItemSize q)) (u32 ((uxLength q - 1) * uxItemSize q)))
    (area q) 0 0 (uxLength q) (uxItemSize q) queueUNLOCKED queueUNLOCKED);;
  if xNewQueue then
    on_kernel (put_list (xTasksWaitingToSend x) (AList [] None));;
    on_kernel (put_list (xTasksWaitingToReceive x) (AList [] None))
  else
    e ← on_kernel (is_empty (xTasksWaitingToSend x));
    if e : bool then ret tt
    else
      b ← on_kernel (xTaskRemoveFromEventList (xTasksWaitingToSend x));
      if b : bool then on_kernel portYIELD else ret tt.

(** The members that are not set before the reset have any value. *)
Definition prvInitialiseNewQueue (x : positive) (uxQueueLength uxItemSize : Z) (pucQueueStorage : list Z) : R unit :=
  put_queue x (Queue (Storage 0 0) pucQueueStorage 0 0 uxQueueLength uxItemSize 0 0);;
  xQueueGenericReset x true.

(** [malloc n] are the bytes of the storage area that pvPortMalloc() returns
    when it is asked for [n] of them beside the control block, which is at [x];
    [None] is NULL.  The result is the handle. *)
Definition xQueueGenericCreate (malloc : Z → option (list Z)) (x : positive) (uxQueueLength uxItemSize : Z)
    : R (option positive) :=
  assert_ (0 <? uxQueueLength);;
  let xQueueSizeInBytes := if uxItemSize =? 0 then 0 else u32 (uxQueueLength * uxItemSize) in
  match malloc xQueueSizeInBytes with
  | Some pucQueueStorage => prvInitialiseNewQueue x uxQueueLength uxItemSize pucQueueStorage;; ret (Some x)
  | None => ret None
  end.

Definition xQueueCreateCountingSemaphore (malloc : Z → option (list Z)) (x : positive)
    (uxMaxCount uxInitialCount : Z) : R (option positive) :=
  assert_ (negb (uxMaxCount =? 0));;
  assert_ (uxInitialCount <=? uxMaxCount);;
  xHandle ← xQueueGenericCreate malloc x uxMaxCount 0;
  (match xHandle with Some x => update x (with_messages uxInitialCount) | None => ret tt end);;
  ret xHandle.

(** ** Data *)

(** Returns xYieldRequired. *)
Definition prvCopyDataToQueue (x : positive) (pvItemToQueue : list Z) (xPosition : position) : R bool :=
  q ← queue x;
  let n := uxMessagesWaiting q in
  ' (xReturn, n) ←
    (if uxItemSize q =? 0 then
       match use q with
       | Mutex pxMutexHolder _ =>
           xReturn ← on_kernel (xTaskPriorityDisinherit pxMutexHolder);
           set_holder x None;;
           ret (xReturn, n)
       | Storage _ _ => ret (false, n)
       end
     else
       ' (pcTail, pcReadFrom) ← storage q;
       match xPosition with
       | queueSEND_TO_BACK =>
           memcpy_to x (pcWriteTo q) pvItemToQueue;;
           let w := pcWriteTo q + uxItemSize q in
           update x (with_write (if pcTail <=? w then 0 else w));;
           ret (false, n)
       | _ =>
           memcpy_to x pcReadFrom pvItemToQueue;;
           let r := pcReadFrom - uxItemSize q in
           set_read x (if r <? 0 then pcTail - uxItemSize q else r);;
           ret (false, if bool_decide (xPosition = queueOVERWRITE) && (0 <? n) then n - 1 else n)
       end);
  update x (with_messages (u32 (n + 1)));;
  ret xReturn.

(** Returns the item, no bytes for a semaphore. *)
Definition prvCopyDataFromQueue (x : positive) : R (list Z) :=
  q ← queue x;
  if uxItemSize q =? 0 then ret []
  else
    ' (pcTail, pcReadFrom) ← storage q;
    let r := pcReadFrom + uxItemSize q in
    let r := if pcTail <=? r then 0 else r in
    set_read x r;;
    memcpy_from x r.

Definition prvIsQueueEmpty (x : positive) : R bool := q ← queue x; ret (uxMessagesWaiting q =? 0).

Definition prvIsQueueFull (x : positive) : R bool := q ← queue x; ret (uxMessagesWaiting q =? uxLength q).

Definition uxQueueMessagesWaiting (x : positive) : R Z := q ← queue x; ret (uxMessagesWaiting q).

Definition uxQueueSpacesAvailable (x : positive) : R Z := q ← queue x; ret (u32 (uxLength q - uxMessagesWaiting q)).

Definition xQueueGetMutexHolder (x : positive) : R (option task) :=
  q ← queue x; ret (match use q with Mutex h _ => h | Storage _ _ => None end).

(** ** Locks of a queue *)

Definition prvLockQueue (x : positive) : R unit :=
  q ← queue x;
  (if cRxLock q =? queueUNLOCKED then update x (with_rx queueLOCKED_UNMODIFIED) else ret tt);;
  if cTxLock q =? queueUNLOCKED then update x (with_tx queueLOCKED_UNMODIFIED) else ret tt.

(** The while loops of prvUnlockQueue(), over [n] held back events. *)
Fixpoint unlock_loop (n : nat) (l : listid) : R unit :=
  match n with
  | O => ret tt
  | S n =>
      e ← on_kernel (is_empty l);
      if e : bool then ret tt
      else
        b ← on_kernel (xTaskRemoveFromEventList l);
        (if b : bool then on_kernel vTaskMissedYield else ret tt);;
        unlock_loop n l
  end.

(** The two critical sections of prvUnlockQueue(). *)
Definition prvUnlockQueue_tx (x : positive) : R unit :=
  q ← queue x;
  unlock_loop (Z.to_nat (cTxLock q)) (xTasksWaitingToReceive x);;
  update x (with_tx queueUNLOCKED).

Definition prvUnlockQueue_rx (x : positive) : R unit :=
  q ← queue x;
  unlock_loop (Z.to_nat (cRxLock q)) (xTasksWaitingToSend x);;
  update x (with_rx queueUNLOCKED).

(** ** Calls from interrupts

    The results are xReturn and whether *pxHigherPriorityTaskWoken is set. *)

Definition unblock_from_isr (l : listid) : R bool :=
  e ← on_kernel (is_empty l);
  if e : bool then ret false else on_kernel (xTaskRemoveFromEventList l).

Definition xQueueGenericSendFromISR (x : positive) (pvItemToQueue : list Z) (xCopyPosition : position) : R (bool * bool) :=
  q ← queue x;
  assert_ (negb (bool_decide (xCopyPosition = queueOVERWRITE) && negb (uxLength q =? 1)));;
  if (uxMessagesWaiting q <? uxLength q) || bool_decide (xCopyPosition = queueOVERWRITE) then
    let cTxLock := cTxLock q in
    _ ← prvCopyDataToQueue x pvItemToQueue xCopyPosition;
    if cTxLock =? queueUNLOCKED then
      woken ← unblock_from_isr (xTasksWaitingToReceive x);
      ret (true, woken)
    else update x (with_tx (int8 (cTxLock + 1)));; ret (true, false)
  else ret (false, false).

Definition xQueueGiveFromISR (x : positive) : R (bool * bool) :=
  q ← queue x;
  assert_ (uxItemSize q =? 0);;
  assert_ (match use q with Mutex (Some _) _ => false | _ => true end);;
  if uxMessagesWaiting q <? uxLength q then
    let cTxLock := cTxLock q in
    update x (with_messages (u32 (uxMessagesWaiting q + 1)));;
    if cTxLock =? queueUNLOCKED then
      woken ← unblock_from_isr (xTasksWaitingToReceive x);
      ret (true, woken)
    else update x (with_tx (int8 (cTxLock + 1)));; ret (true, false)
  else ret (false, false).

(** The first result is the item, if there is one. *)
Definition xQueueReceiveFromISR (x : positive) : R (option (list Z) * bool) :=
  q ← queue x;
  if 0 <? uxMessagesWaiting q then
    let cRxLock := cRxLock q in
    item ← prvCopyDataFromQueue x;
    update x (with_messages (u32 (uxMessagesWaiting q - 1)));;
    if cRxLock =? queueUNLOCKED then
      woken ← unblock_from_isr (xTasksWaitingToSend x);
      ret (Some item, woken)
    else update x (with_rx (int8 (cRxLock + 1)));; ret (Some item, false)
  else ret (None, false).

Definition xQueuePeekFromISR (x : positive) : R (option (list Z)) :=
  q ← queue x;
  assert_ (negb (uxItemSize q =? 0));;
  if 0 <? uxMessagesWaiting q then
    ' (_, pcOriginalReadPosition) ← storage q;
    item ← prvCopyDataFromQueue x;
    set_read x pcOriginalReadPosition;;
    ret (Some item)
  else ret None.

(** ** Functions that may block *)

Inductive api :=
  | Send (pvItemToQueue : list Z) (xCopyPosition : position)
  | Receive
  | Peek
  | SemaphoreTake (recursive : bool).

(** A call in progress: its arguments and local variables.  [xTimeOut] is set
    when xEntryTimeSet is. *)
Record call := Call {
  c_api : api;
  c_queue : positive;
  xTicksToWait : Z;
  xTimeOut : option TimeOut_t;
  xInheritanceOccurred : bool
}.

(** What a call does after it has unlocked the queue. *)
Inductive after := ToBlock | ToRetry | ToGiveUp.

(** Where a call is. *)
Inductive pc :=
  | Section_ (* the critical section at the top of the loop *)
  | SuspendAll | LockQueue | CheckForTimeOut | TestQueue | Inherit | PlaceOnEventList
  | UnlockTx (a : after) | UnlockRx (a : after) | ResumeAll (a : after)
  | YieldWithinAPI
  | TestAgain | DisinheritAfterTimeout
  | CountUp (* uxRecursiveCallCount++ after the mutex was taken *).

Inductive result := pdPASS (item : list Z) | pdFAIL | errQUEUE_FULL | errQUEUE_EMPTY.

Inductive next := Go (p : pc) (c : call) | Return (r : result).

Definition with_ticks (o : TimeOut_t) (n : Z) (c : call) : call :=
  Call (c_api c) (c_queue c) n (Some o) (xInheritanceOccurred c).
Definition with_inheritance (b : bool) (c : call) : call :=
  Call (c_api c) (c_queue c) (xTicksToWait c) (xTimeOut c) b.

(** The end of a first critical section that found nothing to do: [r] is the
    error when the caller does not wait. *)
Definition section_waits (r : result) (c : call) : R next :=
  if xTicksToWait c =? 0 then ret (Return r)
  else
    match xTimeOut c with
    | Some _ => ret (Go SuspendAll c)
    | None => o ← on_kernel vTaskInternalSetTimeOutState; ret (Go SuspendAll (with_ticks o (xTicksToWait c) c))
    end.

(** Unblocks the first task of an event list and yields to it if it is more
    important than the caller. *)
Definition unblock_one (l : listid) : R unit :=
  e ← on_kernel (is_empty l);
  if e : bool then ret tt
  else
    b ← on_kernel (xTaskRemoveFromEventList l);
    if b : bool then on_kernel portYIELD else ret tt.

Definition xQueueGenericSend_section (pvItemToQueue : list Z) (xCopyPosition : position) (c : call) : R next :=
  let x := c_queue c in
  q ← queue x;
  if (uxMessagesWaiting q <? uxLength q) || bool_decide (xCopyPosition = queueOVERWRITE) then
    xYieldRequired ← prvCopyDataToQueue x pvItemToQueue xCopyPosition;
    e ← on_kernel (is_empty (xTasksWaitingToReceive x));
    (if negb e then
       b ← on_kernel (xTaskRemoveFromEventList (xTasksWaitingToReceive x));
       if b : bool then on_kernel portYIELD else ret tt
     else if xYieldRequired : bool then on_kernel portYIELD else ret tt);;
    ret (Return (pdPASS []))
  else section_waits errQUEUE_FULL c.

Definition xQueueReceive_section (c : call) : R next :=
  let x := c_queue c in
  q ← queue x;
  if 0 <? uxMessagesWaiting q then
    item ← prvCopyDataFromQueue x;
    update x (with_messages (u32 (uxMessagesWaiting q - 1)));;
    unblock_one (xTasksWaitingToSend x);;
    ret (Return (pdPASS item))
  else section_waits errQUEUE_EMPTY c.

Definition xQueuePeek_section (c : call) : R next :=
  let x := c_queue c in
  q ← queue x;
  if 0 <? uxMessagesWaiting q then
    item ←
      (match use q with
       | Storage _ pcOriginalReadPosition =>
           item ← prvCopyDataFromQueue x;
           set_read x pcOriginalReadPosition;;
           ret item
       | Mutex _ _ => prvCopyDataFromQueue x
       end);
    unblock_one (xTasksWaitingToReceive x);;
    ret (Return (pdPASS item))
  else section_waits errQUEUE_EMPTY c.

Definition xQueueSemaphoreTake_section (recursive : bool) (c : call) : R next :=
  let x := c_queue c in
  q ← queue x;
  if 0 <? uxMessagesWaiting q then
    update x (with_messages (u32 (uxMessagesWaiting q - 1)));;
    (match use q with
     | Mutex _ _ => h ← on_kernel pvTaskIncrementMutexHeldCount; set_holder x h
     | Storage _ _ => ret tt
     end);;
    unblock_one (xTasksWaitingToSend x);;
    ret (if recursive then Go CountUp c else Return (pdPASS []))
  else
    assert_ (negb (xTicksToWait c =? 0) || negb (xInheritanceOccurred c));;
    section_waits errQUEUE_EMPTY c.

Definition prvGetDisinheritPriorityAfterTimeout (x : positive) : R Z :=
  n ← on_kernel (list_length (xTasksWaitingToReceive x));
  if 0 <? n then
    t ← on_kernel (head_owner (xTasksWaitingToReceive x));
    c ← on_kernel (tcb t);
    ret (u32 (configMAX_PRIORITIES - xItemValue (xEventListItem c)))
  else ret tskIDLE_PRIORITY.

(** The list a call waits in, and the test before it does. *)
Definition waits_in (c : call) : listid :=
  match c_api c with
  | Send _ _ => xTasksWaitingToSend (c_queue c)
  | _ => xTasksWaitingToReceive (c_queue c)
  end.

Definition must_wait (c : call) : R bool :=
  match c_api c with Send _ _ => prvIsQueueFull (c_queue c) | _ => prvIsQueueEmpty (c_queue c) end.

Definition is_take (a : api) : bool := match a with SemaphoreTake _ => true | _ => false end.

(** One step of a call.  The steps after the first critical section are the same
    in all four functions but for the list and the test; only the functions that
    receive look again after a time-out, and only xQueueSemaphoreTake() deals
    with the priority of a holder. *)
Definition call_step (p : pc) (c : call) : R next :=
  let x := c_queue c in
  match p with
  | Section_ =>
      match c_api c with
      | Send pvItemToQueue xCopyPosition => xQueueGenericSend_section pvItemToQueue xCopyPosition c
      | Receive => xQueueReceive_section c
      | Peek => xQueuePeek_section c
      | SemaphoreTake recursive => xQueueSemaphoreTake_section recursive c
      end
  | SuspendAll => on_kernel vTaskSuspendAll;; ret (Go LockQueue c)
  | LockQueue => prvLockQueue x;; ret (Go CheckForTimeOut c)
  | CheckForTimeOut =>
      o ← lift_opt (xTimeOut c);
      ' (expired, o, n) ← on_kernel (xTaskCheckForTimeOut o (xTicksToWait c));
      let c := with_ticks o n c in
      ret (if expired : bool then Go (UnlockTx ToGiveUp) c else Go TestQueue c)
  | TestQueue =>
      b ← must_wait c;
      q ← queue x;
      ret (if b : bool then Go (if is_take (c_api c) && is_mutex q then Inherit else PlaceOnEventList) c
           else Go (UnlockTx ToRetry) c)
  | Inherit =>
      q ← queue x;
      ' (h, _) ← mutex q;
      b ← on_kernel (xTaskPriorityInherit h);
      ret (Go PlaceOnEventList (with_inheritance b c))
  | PlaceOnEventList =>
      on_kernel (vTaskPlaceOnEventList (waits_in c) (xTicksToWait c));;
      ret (Go (UnlockTx ToBlock) c)
  | UnlockTx a => prvUnlockQueue_tx x;; ret (Go (UnlockRx a) c)
  | UnlockRx a => prvUnlockQueue_rx x;; ret (Go (ResumeAll a) c)
  | ResumeAll a =>
      xAlreadyYielded ← on_kernel xTaskResumeAll;
      ret (match a with
           | ToBlock => Go (if xAlreadyYielded : bool then Section_ else YieldWithinAPI) c
           | ToRetry => Go Section_ c
           | ToGiveUp => match c_api c with Send _ _ => Return errQUEUE_FULL | _ => Go TestAgain c end
           end)
  | YieldWithinAPI => on_kernel portYIELD;; ret (Go Section_ c)
  | TestAgain =>
      e ← prvIsQueueEmpty x;
      ret (if e : bool then
             if is_take (c_api c) && xInheritanceOccurred c then Go DisinheritAfterTimeout c else Return errQUEUE_EMPTY
           else Go Section_ c)
  | DisinheritAfterTimeout =>
      uxHighestWaitingPriority ← prvGetDisinheritPriorityAfterTimeout x;
      q ← queue x;
      ' (h, _) ← mutex q;
      on_kernel (vTaskPriorityDisinheritAfterTimeout h uxHighestWaitingPriority);;
      ret (Return errQUEUE_EMPTY)
  | CountUp =>
      q ← queue x;
      ' (_, n) ← mutex q;
      set_count x (u32 (n + 1));;
      ret (Return (pdPASS []))
  end.

(** Functions that the application calls. *)
Inductive request :=
  | QueueGenericSend (pvItemToQueue : list Z) (xTicksToWait : Z) (xCopyPosition : position)
  | QueueReceive (xTicksToWait : Z)
  | QueuePeek (xTicksToWait : Z)
  | QueueSemaphoreTake (xTicksToWait : Z)
  | QueueTakeMutexRecursive (xTicksToWait : Z)
  | QueueGiveMutexRecursive.

(** The assertion of the functions that may block. *)
Definition may_wait (xTicksToWait : Z) : R unit :=
  st ← on_kernel xTaskGetSchedulerState;
  assert_ (match st with taskSCHEDULER_SUSPENDED => xTicksToWait =? 0 | _ => true end).

Definition start_call (a : api) (x : positive) (xTicksToWait : Z) : R next :=
  may_wait xTicksToWait;; ret (Go Section_ (Call a x xTicksToWait None false)).

(** A function up to its first critical section. *)
Definition begin_call (x : positive) (r : request) : R next :=
  q ← queue x;
  match r with
  | QueueGenericSend item ticks pos =>
      assert_ (negb (bool_decide (pos = queueOVERWRITE) && negb (uxLength q =? 1)));;
      start_call (Send item pos) x ticks
  | QueueReceive ticks => start_call Receive x ticks
  | QueuePeek ticks => start_call Peek x ticks
  | QueueSemaphoreTake ticks =>
      assert_ (uxItemSize q =? 0);;
      start_call (SemaphoreTake false) x ticks
  | QueueTakeMutexRecursive ticks =>
      ' (h, n) ← mutex q;
      cur ← on_kernel xTaskGetCurrentTaskHandle;
      if bool_decide (h = cur) then set_count x (u32 (n + 1));; ret (Return (pdPASS []))
      else
        assert_ (uxItemSize q =? 0);;
        start_call (SemaphoreTake true) x ticks
  | QueueGiveMutexRecursive =>
      ' (h, n) ← mutex q;
      cur ← on_kernel xTaskGetCurrentTaskHandle;
      if bool_decide (h = cur) then
        set_count x (u32 (n - 1));;
        if u32 (n - 1) =? 0 then start_call (Send [] queueSEND_TO_BACK) x 0 else ret (Return (pdPASS []))
      else ret (Return pdFAIL)
  end.

(** ** Mutexes *)

(** The mutex is given once so that it can be taken; the call does not block. *)
Definition prvInitialiseMutex (x : positive) : R unit :=
  update x (with_use (Mutex None 0));;
  n ← begin_call x (QueueGenericSend [] 0 queueSEND_TO_BACK);
  match n with
  | Go p c => _ ← call_step p c; ret tt
  | Return _ => ret tt
  end.

Definition xQueueCreateMutex (malloc : Z → option (list Z)) (x : positive) : R (option positive) :=
  xHandle ← xQueueGenericCreate malloc x 1 0;
  (match xHandle with Some x => prvInitialiseMutex x | None => ret tt end);;
  ret xHandle.

Definition vQueueDelete (x : positive) : R unit :=
  _ ← queue x; modify (λ s, Rtos (kern s) (delete x (queues s))).
