(* ===== verification/RtosQueueKernel.v ===== *)
(** * What the queues rely on from the kernel

    The calls of queue.c and of the interrupts to tasks.c, in terms of which
    tasks wait for which queue, which are ready, and how many mutexes each
    holds. *)

From Stdlib Require Import ZArith Lia.
From S2P Require Import Prelude RtosList RtosListSpec RtosKernel RtosKernelSpec RtosTime RtosSched RtosBoot RtosSafety RtosServices RtosQueue.
Local Open Scope Z_scope.
Local Open Scope pim_scope.

(** The two lists of tasks that wait for a queue. *)
Inductive dir := ToSend | ToReceive.

#[global] Instance dir_eq_dec : EqDecision dir.
Proof. solve_decision. Defined.

Definition wlist (d : dir) (x : positive) : listid :=
  match d with ToSend => xTasksWaitingToSend x | ToReceive => xTasksWaitingToReceive x end.

#[global] Instance wlist_inj : Inj2 (=) (=) (=) wlist.
Proof. by intros [] ? [] ? [= ->]. Qed.

Lemma wlist_kind d x : kind_of (wlist d x) = EventItem.
Proof. by destruct d. Qed.

Lemma wlist_pending d x : wlist d x ≠ xPendingReadyList.
Proof. by destruct d. Qed.

#[export] Hint Resolve wlist_kind wlist_pending : rtos.

(** ** Views of the tasks *)

Definition readyc (c : TCB_t) : Prop := ∃ p, pvContainer (xStateListItem c) = Some (pxReadyTasksLists p).

Definition waits (c : TCB_t) : option listid := pvContainer (xEventListItem c).

(** The list the event item of a task is in, and the mutexes a task holds. *)
Definition waiting (s : kernel) (t : task) : option listid := container EventItem (tasks s) t.

Definition mutexes (s : kernel) (t : task) : Z :=
  match tasks s !! t with Some c => uxMutexesHeld c | None => 0 end.

(** Not waiting for a queue. *)
Definition queue_free (o : option listid) : Prop := ∀ d x, o ≠ Some (wlist d x).

Record task_ok (c : TCB_t) : Prop := {
  tk_ready : readyc c → waits c = None;
  tk_own : uxMutexesHeld c = 0 → uxPriority c = uxBasePriority c
}.

(** The kernel is consistent, ready tasks wait for nothing, a task without a
    mutex has its own priority, and the idle task is ready. *)
Record KInv (idle : task) (s : kernel) : Prop := {
  ki_good : good s;
  ki_number : 0 < vars s uxCurrentNumberOfTasks;
  ki_running : vars s xSchedulerRunning ≠ 0;
  ki_task : ∀ t c, tasks s !! t = Some c → task_ok c;
  ki_idle : ready s idle
}.

(** A change that makes no task wait for a queue and blocks none, with the
    exception of task [o]. *)
Record calm_but (o : option task) (s s' : kernel) : Prop := {
  cm_cur : pxCurrentTCB s' = pxCurrentTCB s;
  cm_dom : ∀ t, is_Some (tasks s' !! t) ↔ is_Some (tasks s !! t);
  cm_waits : ∀ t, o ≠ Some t → waiting s' t = waiting s t ∨ queue_free (waiting s' t);
  cm_ready : ∀ t, o ≠ Some t → ready s t → ready s' t
}.

Abbreviation calm := (calm_but None).

(** And that changes the mutexes a task holds by [n t], leaves the scheduler as
    it is and no request to switch undone. *)
Record shifts (o : option task) (n : task → Z) (s s' : kernel) : Prop := {
  sh_calm : calm_but o s s';
  sh_mutexes : ∀ t, mutexes s' t = mutexes s t + n t;
  sh_suspended : vars s' uxSchedulerSuspended = vars s uxSchedulerSuspended;
  sh_pend : vars s pendSV ≠ 0 → vars s' pendSV ≠ 0
}.

Definition none_held (t : task) : Z := 0.

Definition one_held (n : Z) (t t' : task) : Z := if decide (t' = t) then n else 0.

Abbreviation quiet := (shifts None none_held).

#[global] Instance calm_refl o : Reflexive (calm_but o).
Proof. split; auto. Qed.

#[global] Instance calm_trans o : Transitive (calm_but o).
Proof.
  intros s1 s2 s3 [C1 D1 W1 R1] [C2 D2 W2 R2]. split; [congruence| | |auto].
  - intros t. by rewrite D2.
  - intros t Ht. destruct (W2 t Ht) as [E|?]; [|by right]. rewrite E. auto.
Qed.

Lemma calm_weaken o s s' : calm s s' → calm_but o s s'.
Proof. intros [C D W Rd]. split; [done|done|intros; by apply W|intros; by apply Rd]. Qed.

#[global] Instance quiet_refl : Reflexive quiet.
Proof. split; [done|intros; unfold none_held; lia|done|auto]. Qed.

#[global] Instance quiet_trans : Transitive quiet.
Proof.
  intros s1 s2 s3 [C1 M1 S1 P1] [C2 M2 S2 P2]. split; [by etrans| |congruence|auto].
  intros t. rewrite M2, M1. unfold none_held. lia.
Qed.

(** ** Changes of single control blocks *)

Record fine (c c' : TCB_t) : Prop := {
  fn_ready : readyc c → readyc c';
  fn_waits : waits c' = waits c ∨ queue_free (waits c');
  fn_ok : task_ok c → task_ok c'
}.

#[global] Instance fine_refl : Reflexive fine.
Proof. split; auto. Qed.

Lemma queue_free_none : queue_free None.
Proof. by intros d x. Qed.

Lemma queue_free_pending : queue_free (Some xPendingReadyList).
Proof. intros [] x; done. Qed.

#[export] Hint Resolve queue_free_none queue_free_pending : rtos.

Lemma fine_woken c : fine c (woken c).
Proof.
  split; simpl; [by eexists|right; apply queue_free_none|]. intros [_ O]. split; [done|exact O].
Qed.

Lemma fine_released n c l : task_ok c → waits c = Some l → fine c (released n c).
Proof.
  intros Hok Hw. unfold released. case_match; [apply fine_woken|]. split; simpl; [auto|right; apply queue_free_pending|].
  intros [R O]. split; [|exact O]. intros Hr. exfalso. destruct Hok as [R' _]. rewrite R' in Hw; [done|]. exact Hr.
Qed.

(** A change of priority or of the mutexes held that keeps the places. *)
Lemma fine_changed p n c c' q :
  tcb_ok None q c → changed p n c c' → (n = 0 → p = uxBasePriority c) → fine c c'.
Proof.
  intros Hc [Hp Hb Hm Hs He] Hown.
  assert (readyc c' ↔ readyc c) as Hr.
  { unfold readyc. rewrite Hs. unfold moved_to. case_decide as E; [|done]. rewrite E. split; intros _; eauto. }
  split; [by apply Hr|left; exact He|]. intros [R O]. split.
  - intros Hr'. unfold waits in *. rewrite He. apply R. by apply Hr.
  - intros E. rewrite Hp, Hb. apply Hown. congruence.
Qed.

(** ** From control blocks to the views *)

Lemma waiting_lookup s t c : tasks s !! t = Some c → waiting s t = waits c.
Proof. intros E. unfold waiting, container. by rewrite E. Qed.

Lemma waiting_some s t l : waiting s t = Some l → ∃ c, tasks s !! t = Some c ∧ waits c = Some l.
Proof. unfold waiting, container. destruct (tasks s !! t) as [c|]; [|done]. eauto. Qed.

Lemma ready_lookup s t c : tasks s !! t = Some c → ready s t ↔ readyc c.
Proof. intros E. unfold ready, readyc. rewrite E. split; [intros (? & p & [= ->] & ?)|intros [p ?]]; eauto. Qed.

Lemma ready_waits idle s t : KInv idle s → ready s t → waiting s t = None.
Proof.
  intros K (c & p & Hc & Hp). rewrite (waiting_lookup _ _ _ Hc). eapply tk_ready; [by eapply ki_task|]. by exists p.
Qed.

Lemma mutexes_lookup s t c : tasks s !! t = Some c → mutexes s t = uxMutexesHeld c.
Proof. intros E. unfold mutexes. by rewrite E. Qed.

Lemma waiting_list s d x t : inv None s → waiting s t = Some (wlist d x) ↔ t ∈ items (lists s (wlist d x)).
Proof. intros Hi. by rewrite (coh_in _ _ (i_coh _ _ Hi)), wlist_kind. Qed.

Lemma forall2_l {A B} (P : A → B → Prop) (m1 : gmap task A) (m2 : gmap task B) t a :
  map_Forall2 (λ _, P) m1 m2 → m1 !! t = Some a → ∃ b, m2 !! t = Some b ∧ P a b.
Proof. intros Hf E. pose proof (Hf t) as H. rewrite E in H. inversion H; subst. eauto. Qed.

Lemma forall2_r {A B} (P : A → B → Prop) (m1 : gmap task A) (m2 : gmap task B) t b :
  map_Forall2 (λ _, P) m1 m2 → m2 !! t = Some b → ∃ a, m1 !! t = Some a ∧ P a b.
Proof. intros Hf E. pose proof (Hf t) as H. rewrite E in H. inversion H; subst. eauto. Qed.

Lemma calm_tasks s s' :
  pxCurrentTCB s' = pxCurrentTCB s → map_Forall2 (λ _, fine) (tasks s) (tasks s') → calm s s'.
Proof.
  intros Hc Hf. split; [done|..].
  - intros t. split; intros [c Ht]; [apply (forall2_r _ _ _ _ _ Hf) in Ht|apply (forall2_l _ _ _ _ _ Hf) in Ht];
      destruct Ht as (? & ? & _); eauto.
  - intros t _. unfold waiting, container. destruct (Hf t) as [c c' []|]; auto.
  - intros t _ (c & p & Ht & Hp). destruct (forall2_l _ _ _ _ _ Hf Ht) as (c' & Ht' & [R _ _]).
    destruct R as [p' ?]; [by exists p|]. by exists c', p'.
Qed.

Lemma kinv_tasks idle s s' :
  KInv idle s → good s' → (∀ x, x ∈ [uxCurrentNumberOfTasks; xSchedulerRunning] → vars s' x = vars s x) →
  map_Forall2 (λ _, fine) (tasks s) (tasks s') → KInv idle s'.
Proof.
  intros [G N Rn T I] G' V Hf. split; [done|by rewrite V by set_solver|by rewrite V by set_solver|..].
  - intros t c' Hc'. destruct (forall2_r _ _ _ _ _ Hf Hc') as (c & Hc & [_ _ O]). apply O. by eapply T.
  - apply (cm_ready _ _ _ (calm_tasks s (Kernel (tasks s') (lists s') (vars s') (pxCurrentTCB s)
      (pxDelayedTaskList s') (pxOverflowDelayedTaskList s')) eq_refl Hf)) in I; [exact I|done].
Qed.

Lemma fine_one (ts : gmap task TCB_t) t c c' : ts !! t = Some c → fine c c' → map_Forall2 (λ _, fine) ts (<[t := c']> ts).
Proof.
  intros Hc Hf i. destruct (decide (i = t)) as [->|Hne].
  - rewrite lookup_insert_eq, Hc. by constructor.
  - rewrite lookup_insert_ne by done. destruct (ts !! i); by constructor.
Qed.

Lemma fine_fmap (ts : gmap task TCB_t) f : (∀ t c, ts !! t = Some c → fine c (f c)) → map_Forall2 (λ _, fine) ts (f <$> ts).
Proof. intros Hf i. rewrite lookup_fmap. destruct (ts !! i) as [c|] eqn:E; constructor. by eapply Hf. Qed.

(** ** The calls *)

(** What follows from a change of control blocks that is fine for each. *)
Lemma kinv_quiet idle s s' T :
  KInv idle s → timed T s' → 0 <= vars s' uxPendedTicks →
  (∀ x, x ∈ [uxCurrentNumberOfTasks; xSchedulerRunning; uxSchedulerSuspended] → vars s' x = vars s x) →
  (vars s pendSV ≠ 0 → vars s' pendSV ≠ 0) → pxCurrentTCB s' = pxCurrentTCB s →
  map_Forall2 (λ _, fine) (tasks s) (tasks s') →
  (∀ t c c', tasks s !! t = Some c → tasks s' !! t = Some c' → uxMutexesHeld c' = uxMutexesHeld c) →
  KInv idle s' ∧ quiet s s'.
Proof.
  intros K Ht Hp V Hpend Hc Hf Hm. split; [|split].
  - eapply kinv_tasks; [done|by exists T|intros x Hx; apply V; set_solver|done].
  - by apply calm_tasks.
  - intros t. unfold mutexes, none_held. destruct (tasks s !! t) as [c|] eqn:E.
    + destruct (forall2_l _ _ _ _ _ Hf E) as (c' & E' & _). rewrite E', (Hm t c c'); [lia|done|done].
    + destruct (tasks s' !! t) as [c'|] eqn:E'; [|done].
      destruct (forall2_r _ _ _ _ _ Hf E') as (c & ? & _). congruence.
  - apply V. set_solver.
  - exact Hpend.
Qed.

(** The variables that the invariant does not speak of. *)
Lemma kinv_var idle s x v :
  x ∈ [xYieldPending; pendSV; uxSchedulerSuspended] → KInv idle s →
  KInv idle (Kernel (tasks s) (lists s) (upd (vars s) x v) (pxCurrentTCB s) (pxDelayedTaskList s) (pxOverflowDelayedTaskList s)).
Proof.
  intros Hx [(T & Ht & Hp) N Rn Tk I]. split; [|simpl; rewrite upd_ne by set_solver; done|simpl; rewrite upd_ne by set_solver; done|done|done].
  exists T. simpl. rewrite upd_ne by set_solver. split; [|done]. apply timed_var; [done|set_solver].
Qed.

Lemma quiet_var s x v :
  x ≠ uxSchedulerSuspended → (x = pendSV → v ≠ 0) →
  quiet s (Kernel (tasks s) (lists s) (upd (vars s) x v) (pxCurrentTCB s) (pxDelayedTaskList s) (pxOverflowDelayedTaskList s)).
Proof.
  intros Hx Hv. split; [by split; auto|intros t; unfold mutexes, none_held; simpl; lia|simpl; by rewrite upd_ne|].
  simpl. intros Hp. destruct (decide (pendSV = x)) as [<-|]; [rewrite upd_eq; auto|by rewrite upd_ne].
Qed.

Lemma k_suspend_all idle s :
  KInv idle s → vars s uxSchedulerSuspended = 0 →
  wp vTaskSuspendAll (λ _ s', KInv idle s' ∧ calm s s' ∧ (∀ t, mutexes s' t = mutexes s t) ∧
    vars s' uxSchedulerSuspended = 1 ∧ vars s' pendSV = vars s pendSV) s.
Proof.
  intros K Hs. unfold vTaskSuspendAll. apply wp_bind, wp_gets. rewrite Hs. apply wp_modify.
  split_and!; [by apply kinv_var; [set_solver|]|by split; auto|done|simpl; by rewrite upd_eq|simpl; by rewrite upd_ne].
Qed.

Lemma k_yield idle s : KInv idle s → wp portYIELD (λ _ s', KInv idle s' ∧ quiet s s' ∧ vars s' pendSV = 1) s.
Proof.
  intros K. apply wp_modify. split_and!; [by apply kinv_var; [set_solver|]|by apply quiet_var|simpl; by rewrite upd_eq].
Qed.

Lemma k_missed_yield idle s : KInv idle s → wp vTaskMissedYield (λ _ s', KInv idle s' ∧ quiet s s') s.
Proof.
  intros K. apply wp_modify. split; [by apply kinv_var; [set_solver|]|by apply quiet_var].
Qed.

Lemma kinv_timed idle s : KInv idle s → ∃ T, timed T s ∧ 0 <= vars s uxPendedTicks.
Proof. by intros [? _ _ _ _]. Qed.

Lemma kinv_inv idle s : KInv idle s → inv None s.
Proof. intros [(T & Ht & _) _ _ _ _]. apply Ht. Qed.

Lemma kinv_cur idle s : KInv idle s → ∃ t c, pxCurrentTCB s = Some t ∧ tasks s !! t = Some c.
Proof. intros [(T & Ht & _) _ _ _ _]. by eapply timed_cur. Qed.

(** Unblocking the first task that waits for a queue. *)
Lemma k_remove idle s d x t ts :
  KInv idle s → items (lists s (wlist d x)) = t :: ts →
  wp (xTaskRemoveFromEventList (wlist d x)) (λ _ s', KInv idle s' ∧ quiet s s' ∧ queue_free (waiting s' t)) s.
Proof.
  intros K Hl. destruct (kinv_timed _ _ K) as (T & Ht & Hp). destruct (kinv_cur _ _ K) as (cur & cc & Hcur & Hcc).
  destruct (in_list s None (wlist d x) t (kinv_inv _ _ K)) as (c & Hc & Hw); [rewrite Hl; by left|].
  rewrite wlist_kind in Hw. pose proof (ki_task _ _ K _ _ Hc) as Hok.
  eapply (remove_from_event_list_ok T s (wlist d x) t ts c cur cc); auto with rtos.
  intros s' Ht' C' T' V'.
  destruct (kinv_quiet idle s s' T) as [K' Q']; try done.
  - by rewrite V'.
  - intros y Hy. apply V'; set_solver.
  - by rewrite V'.
  - rewrite T'. eapply fine_one; [done|]. by eapply fine_released.
  - intros t' c1 c2 E1. rewrite T', lookup_insert. case_decide; [|congruence]. intros [= <-]. subst.
    assert (c1 = c) as -> by congruence. unfold released. by case_match.
  - split_and!; [done|done|]. rewrite (waiting_lookup s' t (released (vars s uxSchedulerSuspended) c)) by (rewrite T'; apply lookup_insert_eq).
    unfold released. case_match; [apply queue_free_none|apply queue_free_pending].
Qed.

Lemma k_tick idle s : KInv idle s → wp xTaskIncrementTick (λ _ s', KInv idle s' ∧ quiet s s') s.
Proof.
  intros K. destruct (kinv_timed _ _ K) as (T & Ht & Hp). destruct (kinv_cur _ _ K) as (cur & cc & Hcur & Hcc).
  destruct (decide (vars s uxSchedulerSuspended = 0)) as [Hs|Hs].
  - eapply wp_mono; [by eapply tick_ok|]. intros r s' [P1 P2 _ P4 P5 _]. eapply (kinv_quiet idle s s'); try done.
    + by rewrite P5 by set_solver.
    + intros x Hx. apply P5. set_solver.
    + by rewrite P5 by set_solver.
    + rewrite P2. apply fine_fmap. intros t c _. case_decide; [apply fine_woken|done].
    + intros t c c' Hc. rewrite P2, lookup_fmap, Hc. intros [= <-]. by case_decide.
  - unfold xTaskIncrementTick. apply wp_bind, wp_gets. rewrite (proj2 (Z.eqb_neq _ _) Hs). wp_pure.
    eapply (kinv_quiet idle s _ T); simpl; try done.
    + apply timed_var; [done|set_solver].
    + rewrite upd_eq. apply Z.mod_pos_bound. lia.
    + intros x Hx. rewrite upd_ne; [done|]. intros ->. set_solver.
    + intros t. destruct (tasks s !! t); by constructor.
    + congruence.
Qed.

Lemma k_resume_all idle s :
  KInv idle s → vars s uxSchedulerSuspended = 1 →
  wp xTaskResumeAll (λ r s', KInv idle s' ∧ calm s s' ∧ (∀ t, mutexes s' t = mutexes s t) ∧
    vars s' uxSchedulerSuspended = 0 ∧ (r = true → vars s' pendSV = 1)) s.
Proof.
  intros K Hs. destruct (kinv_timed _ _ K) as (T & Ht & Hp).
  eapply wp_mono; [eapply (resume_all_ok T); [done|done|apply K|done|done]|].
  intros r s' [P1 P2 _ _ P5 P6 P7 P8 P9].
  assert (map_Forall2 (λ _, fine) (tasks s) (tasks s')) as Hf.
  { rewrite P2. apply fine_fmap. intros t c _. case_match; [apply fine_woken|done]. }
  split_and!; [|by apply calm_tasks| |done|done].
  - eapply kinv_tasks; [done| |done|done]. eexists. split; [exact P1|]. by rewrite P6.
  - intros t. unfold mutexes. rewrite P2, lookup_fmap. destruct (tasks s !! t) as [c|]; [|done]. simpl. by case_match.
Qed.

Lemma k_switch idle s :
  KInv idle s → wp vTaskSwitchContext (λ _ s', KInv idle s' ∧ tasks s' = tasks s ∧
    vars s' uxSchedulerSuspended = vars s uxSchedulerSuspended ∧
    if decide (vars s uxSchedulerSuspended = 0) then ∃ t, pxCurrentTCB s' = Some t ∧ ready s' t
    else pxCurrentTCB s' = pxCurrentTCB s) s.
Proof.
  intros K. case_decide as Hs.
  - pose proof K as [(T & Ht & Hp) N Rn Tk I].
    eapply wp_mono; [eapply wp_mono; [by eapply (switch_ok s idle); [apply Ht|..]|intros r s' H; exact H]|].
    intros _ s' (p & t & [I1 T1 C1 D1 O1 V1 Y1 N1 L1 H1]).
    assert (good s') as G'.
    { exists T. split; [|by rewrite V1]. eapply (timed_keep T s s'); try done.
      - intros t' c'. rewrite T1. left. by eexists.
      - intros x Hx. apply V1; set_solver. }
    split_and!; [|done|by rewrite V1|].
    + eapply kinv_tasks; [done|done|intros x Hx; apply V1; set_solver|]. rewrite T1. intros t'. destruct (tasks s !! t'); by constructor.
    + exists t. split; [done|]. apply al_next_item_in in N1.
      destruct (in_list s None _ t (tm_inv _ _ Ht) N1) as (c & Hc & Hl). exists c, p. by rewrite T1.
  - unfold vTaskSwitchContext. apply wp_bind, wp_gets. rewrite (proj2 (Z.eqb_neq _ _) Hs). simpl. apply wp_modify.
    split_and!; [by apply kinv_var; [set_solver|]|done|simpl; by rewrite upd_ne|done].
Qed.

(** *** Blocking *)

(** One task other than the idle task has changed and is no longer ready. *)
Lemma kinv_blocked idle s s' T t c c' :
  KInv idle s → timed T s' → 0 <= vars s' uxPendedTicks →
  (∀ x, x ∈ [uxCurrentNumberOfTasks; xSchedulerRunning] → vars s' x = vars s x) →
  pxCurrentTCB s' = pxCurrentTCB s → tasks s' = <[t := c']> (tasks s) → tasks s !! t = Some c → t ≠ idle →
  ¬ readyc c' → uxMutexesHeld c' = uxMutexesHeld c → uxPriority c' = uxPriority c → uxBasePriority c' = uxBasePriority c →
  KInv idle s' ∧ calm_but (Some t) s s' ∧ (∀ t', mutexes s' t' = mutexes s t') ∧ waiting s' t = waits c'.
Proof.
  intros [G N Rn Tk I] Ht Hp V Hcur E Hc Hne Hr Hm Hpr Hb.
  assert (∀ t', t' ≠ t → tasks s' !! t' = tasks s !! t') as Eo by (intros; by rewrite E, lookup_insert_ne).
  assert (tasks s' !! t = Some c') as Et by (rewrite E; apply lookup_insert_eq).
  split_and!.
  - split; [by exists T|by rewrite V by set_solver|by rewrite V by set_solver| |].
    + intros t' c1. destruct (decide (t' = t)) as [->|]; [|rewrite Eo by done; apply Tk].
      rewrite Et. intros [= <-]. destruct (Tk _ _ Hc) as [_ O]. split; [done|]. rewrite Hm, Hpr, Hb. exact O.
    + destruct I as (ci & p & Hci & Hpi). exists ci, p. by rewrite Eo.
  - split; [done|..].
    + intros t'. destruct (decide (t' = t)) as [->|]; [rewrite Et, Hc; split; eauto|by rewrite Eo].
    + intros t' Hx. left. unfold waiting, container. rewrite Eo; [done|congruence].
    + intros t' Hx (c1 & p & Hc1 & Hp1). exists c1, p. rewrite Eo; [done|congruence].
  - intros t'. unfold mutexes. destruct (decide (t' = t)) as [->|]; [by rewrite Et, Hc|by rewrite Eo].
  - by apply waiting_lookup.
Qed.

Lemma k_place idle s t d x n :
  KInv idle s → pxCurrentTCB s = Some t → t ≠ idle → waiting s t = None → 0 < n < EPOCH →
  wp (vTaskPlaceOnEventList (wlist d x) n) (λ _ s', KInv idle s' ∧ calm_but (Some t) s s' ∧
    (∀ t', mutexes s' t' = mutexes s t') ∧ waiting s' t = Some (wlist d x) ∧
    vars s' uxSchedulerSuspended = vars s uxSchedulerSuspended) s.
Proof.
  intros K Hcur Hne Hw Hn. destruct (kinv_timed _ _ K) as (T & Ht & Hp).
  destruct (kinv_cur _ _ K) as (cur & c & Hcur' & Hc). assert (cur = t) as -> by congruence.
  rewrite (waiting_lookup _ _ _ Hc) in Hw.
  eapply (place_on_event_list_ok T n s (wlist d x) t c); auto with rtos.
  intros s' c' Ht' E' Hl [P B M St] C' V'.
  destruct (kinv_blocked idle s s' T t c c') as (K' & Q' & M' & W'); try done.
  - by rewrite V'.
  - intros y Hy. apply V'; set_solver.
  - intros [p Hp']. by destruct (St p).
  - split_and!; [done|done|done|by rewrite W'|by rewrite V'].
Qed.

Lemma k_delay idle s t n :
  KInv idle s → vars s uxSchedulerSuspended = 0 → pxCurrentTCB s = Some t → t ≠ idle → 0 <= n < EPOCH →
  wp (vTaskDelay n) (λ _ s', KInv idle s' ∧ calm_but (Some t) s s' ∧ (∀ t', mutexes s' t' = mutexes s t') ∧
    vars s' uxSchedulerSuspended = 0 ∧ vars s' pendSV = 1 ∧ (waiting s' t = waiting s t ∨ queue_free (waiting s' t))) s.
Proof.
  intros K Hs Hcur Hne Hn. unfold vTaskDelay. destruct (Z.ltb_spec 0 n) as [Hpos|].
  - apply wp_bind, wp_bind, wp_gets. rewrite Hs. apply wp_bind. eapply wp_assert; [done|]. apply wp_bind.
    eapply wp_mono; [by eapply k_suspend_all|]. intros _ s1 (K1 & Q1 & M1 & S1 & P1).
    destruct (kinv_timed _ _ K1) as (T & Ht & Hp). destruct (kinv_cur _ _ K1) as (cur & c & Hcur1 & Hc).
    assert (cur = t) as -> by (rewrite (cm_cur _ _ _ Q1) in Hcur1; congruence).
    apply wp_bind. eapply (block_ok T n false s1 t c); [done|done|done|lia|].
    intros s2 c' Ht2 E2 Ev2 [P B M St] C2 V2.
    destruct (kinv_blocked idle s1 s2 T t c c') as (K2 & Q2 & M2 & W2); try done.
    { by rewrite V2. }
    { intros y Hy. apply V2; set_solver. }
    { intros [p Hp']. by destruct (St p). }
    eapply wp_mono; [eapply k_resume_all; [exact K2|by rewrite V2]|]. intros r s3 (K3 & Q3 & M3 & S3 & P3).
    assert (calm_but (Some t) s s3) as Q by (etrans; [by apply calm_weaken|]; etrans; [done|by apply calm_weaken]).
    assert (∀ t', mutexes s3 t' = mutexes s t') as M' by (intros; by rewrite M3, M2, M1).
    assert (waiting s3 t = waiting s t ∨ queue_free (waiting s3 t)) as W.
    { destruct (cm_waits _ _ _ Q3 t) as [E|?]; [done| |by right]. rewrite E, W2. unfold waits. rewrite Ev2.
      pose proof (waiting_lookup _ _ _ Hc) as W0. unfold waits in W0. rewrite <-W0. by apply Q1. }
    destruct r; simpl.
    + apply wp_ret. split_and!; auto.
    + eapply wp_mono; [by eapply k_yield|]. intros [] s4 (K4 & [C4 M4 S4 _] & P4).
      split_and!; [done|etrans; [done|by apply calm_weaken]|intros; rewrite M4, M'; unfold none_held; lia|by rewrite S4|done|].
      destruct (cm_waits _ _ _ C4 t) as [E|?]; [done| |by right]. by rewrite E.
  - apply wp_bind, wp_ret. simpl. eapply wp_mono; [by eapply k_yield|]. intros [] s4 (K4 & [C4 M4 S4 _] & P4).
    split_and!; [done|by apply calm_weaken|intros; rewrite M4; unfold none_held; lia|by rewrite S4|done|by apply C4].
Qed.

(** *** Mutexes *)

Lemma k_take_mutex idle s t :
  KInv idle s → pxCurrentTCB s = Some t → 0 <= mutexes s t < 2 ^ 32 - 1 →
  wp pvTaskIncrementMutexHeldCount (λ r s', r = Some t ∧ KInv idle s' ∧ shifts None (one_held 1 t) s s') s.
Proof.
  intros K Hcur Hm. destruct (kinv_timed _ _ K) as (T & Ht & Hp).
  destruct (kinv_cur _ _ K) as (cur & c & Hcur' & Hc). assert (cur = t) as -> by congruence.
  rewrite (mutexes_lookup _ _ _ Hc) in Hm.
  unfold pvTaskIncrementMutexHeldCount. apply wp_bind, wp_gets. rewrite Hcur. apply wp_bind, wp_bind. eapply wp_tcb; [done|].
  apply wp_modify, wp_gets. set (c' := with_mutexes _ c). change (Kernel _ _ _ _ _ _) with (with_tcb t c' s).
  assert (u32 (uxMutexesHeld c + 1) = uxMutexesHeld c + 1) as Eu by (apply Z.mod_small; lia).
  destruct (same_place_refl T s t c Ht Hc) as [S1 S2 S3 S4 S5].
  assert (timed T (with_tcb t c' s)) as Ht' by (eapply with_tcb_ok; [done|done|by split|done]).
  assert (fine c c') as Hf.
  { split; [done|by left|]. intros [R' O']. split; [done|]. simpl. lia. }
  split_and!; [done| |split].
  - eapply kinv_tasks; [done|by exists T|done|]. by eapply fine_one.
  - apply calm_tasks; [done|]. by eapply fine_one.
  - intros t'. unfold mutexes, one_held. simpl. rewrite lookup_insert.
    destruct (decide (t = t')) as [<-|Hne]; [rewrite Hc, decide_True by done; simpl; lia|].
    rewrite decide_False by done. lia.
  - done.
  - done.
Qed.

Lemma k_inherit idle s h :
  KInv idle s → match h with Some t => 0 < mutexes s t | None => True end →
  wp (xTaskPriorityInherit h) (λ _ s', KInv idle s' ∧ quiet s s') s.
Proof.
  intros K Hm. destruct h as [h|]; [|by apply wp_ret].
  destruct (kinv_timed _ _ K) as (T & Ht & Hp). destruct (kinv_cur _ _ K) as (cur & cc & Hcur & Hcc).
  assert (∃ c, tasks s !! h = Some c) as [c Hc].
  { unfold mutexes in Hm. destruct (tasks s !! h); [eauto|lia]. }
  rewrite (mutexes_lookup _ _ _ Hc) in Hm.
  eapply (inherit_ok T s h c cur cc); [done..|]. intros s' c' Ht' F T' Hch.
  eapply (kinv_quiet idle s s' T); try done.
  - by rewrite (f_vars _ _ F).
  - intros y Hy. apply (f_vars _ _ F). set_solver.
  - by rewrite (f_vars _ _ F).
  - apply F.
  - rewrite T'. eapply fine_one; [done|]. eapply fine_changed; [exact (i_task _ _ (kinv_inv _ _ K) h c Hc)|done|lia].
  - intros t c1 c2 E1. rewrite T', lookup_insert. case_decide; [|congruence]. intros [= <-]. subst.
    assert (c1 = c) as -> by congruence. by destruct Hch.
Qed.

Lemma k_disinherit idle s t :
  KInv idle s → pxCurrentTCB s = Some t → ready s t → 0 < mutexes s t →
  wp (xTaskPriorityDisinherit (Some t)) (λ _ s', KInv idle s' ∧ shifts None (one_held (-1) t) s s') s.
Proof.
  intros K Hcur Hr Hm. destruct (kinv_timed _ _ K) as (T & Ht & Hp).
  destruct (kinv_cur _ _ K) as (cur & c & Hcur' & Hc). assert (cur = t) as -> by congruence.
  rewrite (mutexes_lookup _ _ _ Hc) in Hm. destruct (proj1 (ready_lookup _ _ _ Hc) Hr) as [p Hpl].
  pose proof (i_task _ _ (kinv_inv _ _ K) t c Hc) as Hok.
  eapply (disinherit_ok T s t c); [done|done|done|done|by rewrite <-(t_ready _ _ _ Hok p Hpl)|].
  intros s' c' Ht' F T' Hch.
  assert (map_Forall2 (λ _, fine) (tasks s) (tasks s')) as Hf.
  { rewrite T'. eapply fine_one; [done|]. eapply fine_changed; [done|exact Hch|]. intros E.
    destruct (Z.eqb_spec (uxPriority c) (uxBasePriority c)) as [->|]; simpl; [by case_match|]. by rewrite E. }
  split; [|split].
  - eapply kinv_tasks; [done| |intros y Hy; apply (f_vars _ _ F); set_solver|done].
    exists T. split; [done|]. by rewrite (f_vars _ _ F).
  - apply calm_tasks; [apply F|done].
  - intros t'. unfold mutexes, one_held. rewrite T', lookup_insert.
    destruct (decide (t = t')) as [<-|]; [rewrite Hc, decide_True by done; rewrite (ch_mutexes _ _ _ _ Hch); lia|].
    rewrite decide_False by done. lia.
  - by apply F.
  - by rewrite (f_vars _ _ F).
Qed.

(** *** Time-outs *)

Lemma k_check_time_out o n s :
  0 <= n < EPOCH →
  wp (xTaskCheckForTimeOut o n) (λ r s', s' = s ∧ let '(expired, _, n') := r in
    0 <= n' < EPOCH ∧ (expired = false → 0 < n') ∧ (n = portMAX_DELAY → expired = false ∧ n' = n)) s.
Proof.
  intros Hn. unfold xTaskCheckForTimeOut. apply wp_bind, wp_gets, wp_bind, wp_gets. cbv zeta.
  set (e := u32 _). assert (0 <= e < EPOCH) as He by apply (Z.mod_pos_bound _ (2 ^ 32)), eq_refl.
  destruct (Z.eqb_spec n portMAX_DELAY) as [->|Hne].
  { apply wp_ret. split_and!; try done; lia. }
  destruct (_ && _); [apply wp_ret; split_and!; try done; lia|].
  destruct (Z.ltb_spec e n).
  - apply wp_bind. unfold vTaskInternalSetTimeOutState. wp_pure. split; [done|].
    assert (u32 (n - e) = n - e) as -> by (apply Z.mod_small; unfold EPOCH in *; lia). split_and!; [lia|lia|lia|done].
  - apply wp_ret. split_and!; try done; lia.
Qed.

(** *** What the application does *)

Lemma k_priority_set idle s h p :
  KInv idle s → 0 <= p < configMAX_PRIORITIES → match h with Some t => is_Some (tasks s !! t) | None => True end →
  wp (vTaskPrioritySet h p) (λ _ s', KInv idle s' ∧ calm s s' ∧ (∀ t, mutexes s' t = mutexes s t) ∧
    vars s' uxSchedulerSuspended = vars s uxSchedulerSuspended) s.
Proof.
  intros K Hpr Hh. destruct (kinv_timed _ _ K) as (T & Ht & Hp). destruct (kinv_cur _ _ K) as (cur & cc & Hcur & Hcc).
  assert (∃ t c, (h = Some t ∨ h = None ∧ t = cur) ∧ tasks s !! t = Some c) as (t & c & Hor & Hc).
  { destruct h as [t|]; [destruct Hh as [c ?]; exists t, c|exists cur, cc]; auto. }
  eapply (priority_set_ok T s h t c p cur cc); [done..|].
  intros s' c' Ht' C' V' T' B' P' M' St' E'.
  assert (map_Forall2 (λ _, fine) (tasks s) (tasks s')) as Hf.
  { rewrite T'. eapply fine_one; [done|]. assert (readyc c' ↔ readyc c) as Hr.
    { unfold readyc. rewrite St'. unfold moved_to. case_decide as E; [|done]. rewrite E. split; intros _; eauto. }
    split; [by apply Hr|left; exact E'|]. intros [R O]. split.
    - intros ?. unfold waits. rewrite E'. apply R. by apply Hr.
    - rewrite M'. intros E0. rewrite B', P', O by done. by rewrite Z.eqb_refl. }
  split_and!; [|by apply calm_tasks| |by apply V'].
  - eapply kinv_tasks; [done| |intros x Hx; apply V'; set_solver|done]. exists T. split; [done|]. by rewrite V'.
  - intros t'. unfold mutexes. rewrite T', lookup_insert. case_decide; [subst; by rewrite Hc|done].
Qed.

Lemma k_suspend idle s t :
  KInv idle s → vars s uxSchedulerSuspended = 0 → is_Some (tasks s !! t) → t ≠ idle →
  wp (vTaskSuspend (Some t)) (λ _ s', KInv idle s' ∧ calm_but (Some t) s s' ∧ (∀ t', mutexes s' t' = mutexes s t') ∧
    vars s' uxSchedulerSuspended = 0 ∧ waiting s' t = None ∧ (pxCurrentTCB s = Some t → vars s' pendSV = 1)) s.
Proof.
  intros K Hs [c Hc] Hne. destruct (kinv_timed _ _ K) as (T & Ht & Hp). destruct (kinv_cur _ _ K) as (cur & cc & Hcur & Hcc).
  eapply wp_mono; [eapply (suspend_task_ok T s t c cur); [done..|]; intros _; split; [done|apply K]|].
  intros _ s' ((Ht' & Hpend & c' & T' & [P B M St E]) & C' & V').
  destruct (kinv_blocked idle s s' T t c c') as (K' & Q' & M' & W'); try done.
  - by rewrite V'.
  - intros x Hx. apply V'; set_solver.
  - intros [p Hp']. congruence.
  - split_and!; [done|done|done|by rewrite V'|by rewrite W'|]. rewrite Hcur. intros [= ->]. by apply Hpend.
Qed.

Lemma k_resume idle s t :
  KInv idle s → is_Some (tasks s !! t) →
  wp (vTaskResume t) (λ _ s', KInv idle s' ∧ calm s s' ∧ (∀ t', mutexes s' t' = mutexes s t') ∧
    vars s' uxSchedulerSuspended = vars s uxSchedulerSuspended) s.
Proof.
  intros K [c Hc]. destruct (kinv_timed _ _ K) as (T & Ht & Hp). destruct (kinv_cur _ _ K) as (cur & cc & Hcur & Hcc).
  eapply wp_mono; [by eapply (resume_task_ok T s t c cur cc)|]. intros _ s' ((Ht' & Hts) & C' & V').
  assert (map_Forall2 (λ _, fine) (tasks s) (tasks s') ∧ ∀ t', mutexes s' t' = mutexes s t') as [Hf Hm].
  { destruct Hts as [E|[Hn E]].
    - split; [rewrite E; intros t'; destruct (tasks s !! t'); by constructor|intros; unfold mutexes; by rewrite E].
    - split.
      + rewrite E. eapply fine_one; [done|]. split; [by eexists|by left|]. intros [R O]. by split.
      + intros t'. unfold mutexes. rewrite E, lookup_insert. case_decide; [subst; by rewrite Hc|done]. }
  split_and!; [|by apply calm_tasks|done|by apply V'].
  eapply kinv_tasks; [done| |intros x Hx; apply V'; set_solver|done]. exists T. split; [done|]. by rewrite V'.
Qed.
