(* ===== verification/RtosQueueData.v ===== *)
(** * The data of a queue

    The storage area of a queue as a ring of items: what is in a queue, and how
    the functions of queue.c that copy items change it. *)

From Stdlib Require Import ZArith Lia.
From stdpp Require Import list.
From S2P Require Import Prelude RtosList RtosKernel RtosQueue.
Local Open Scope Z_scope.
Local Open Scope pim_scope.

(** ** Rules for the state *)

Lemma wp_on_kernel {A} (m : K A) (Q : A → rtos → Prop) s :
  wp m (λ a k, Q a (Rtos k (queues s))) (kern s) → wp (on_kernel m) Q s.
Proof. unfold wp, on_kernel. by destruct (m (kern s)) as [[a k]|]. Qed.

Lemma wp_queue x q (Q : Queue_t → rtos → Prop) s : queues s !! x = Some q → Q q s → wp (queue x) Q s.
Proof. intros E. unfold queue, wp, bind, gets. by rewrite E. Qed.

Lemma wp_update_queue x q f (Q : unit → rtos → Prop) s :
  queues s !! x = Some q → Q tt (Rtos (kern s) (<[x := f q]> (queues s))) → wp (update x f) Q s.
Proof. intros E H. apply wp_bind. by eapply wp_queue. Qed.

(** ** The ring *)

Definition slot (q : Queue_t) (i : Z) : list Z :=
  slice (Z.to_nat (uxItemSize q * i)) (Z.to_nat (uxItemSize q)) (area q).

(** The items of a queue whose read pointer is at item [r]. *)
Definition ring (q : Queue_t) (r : Z) (n : nat) : list (list Z) :=
  (λ i, slot q ((r + 1 + Z.of_nat i) mod uxLength q)) <$> seq 0 n.

(** What is in a queue; a semaphore holds items of no bytes. *)
Definition contents (q : Queue_t) : list (list Z) :=
  let n := Z.to_nat (uxMessagesWaiting q) in
  if uxItemSize q =? 0 then replicate n []
  else match use q with Storage _ rd => ring q (rd / uxItemSize q) n | Mutex _ _ => [] end.

Record ring_ok (q : Queue_t) (tail rd : Z) : Prop := {
  rg_size : 0 < uxItemSize q;
  rg_area : Z.of_nat (length (area q)) = uxLength q * uxItemSize q;
  rg_tail : tail = uxLength q * uxItemSize q;
  rg_read : ∃ r, 0 <= r < uxLength q ∧ rd = uxItemSize q * r ∧
    pcWriteTo q = uxItemSize q * ((r + 1 + uxMessagesWaiting q) mod uxLength q)
}.

(** A queue is well formed. *)
Record queue_ok (q : Queue_t) : Prop := {
  q_length : 0 < uxLength q < 2 ^ 32;
  q_messages : 0 <= uxMessagesWaiting q <= uxLength q;
  q_rx : -1 <= cRxLock q <= 127;
  q_tx : -1 <= cTxLock q <= 127;
  q_use : match use q with
    | Storage tail rd => uxItemSize q = 0 ∨ ring_ok q tail rd
    | Mutex h _ => uxItemSize q = 0 ∧ uxLength q = 1 ∧ (h = None ↔ uxMessagesWaiting q = 1)
    end
}.

(** What the functions that copy items leave as it is. *)
Record same_shape (q q' : Queue_t) : Prop := {
  ss_length : uxLength q' = uxLength q;
  ss_size : uxItemSize q' = uxItemSize q;
  ss_rx : cRxLock q' = cRxLock q;
  ss_tx : cTxLock q' = cTxLock q
}.

#[global] Instance same_shape_refl : Reflexive same_shape.
Proof. by split. Qed.

(** *** Arithmetic of the ring *)

Lemma mod_inj c i j n : 0 <= i < n → 0 <= j < n → (c + i) mod n = (c + j) mod n → i = j.
Proof.
  intros Hi Hj E. assert ((i - j) mod n = 0) as Hm.
  { replace (i - j) with ((c + i) - (c + j)) by lia. rewrite Zminus_mod, E, Z.sub_diag. by apply Z.mod_0_l; lia. }
  apply Z.mod_divide in Hm; [|lia]. destruct Hm as [k Hk]. destruct (decide (k = 0)) as [->|]; [lia|]. nia.
Qed.

Lemma mod_wrap a n : 0 <= a < n → (if n <=? a + 1 then 0 else a + 1) = (a + 1) mod n.
Proof.
  intros Ha. destruct (Z.leb_spec n (a + 1)).
  - replace (a + 1) with n by lia. by rewrite Z_mod_same_full.
  - by rewrite Z.mod_small by lia.
Qed.

Lemma mod_prev a n : 0 <= a < n → (if a - 1 <? 0 then n - 1 else a - 1) = (a - 1) mod n.
Proof.
  intros Ha. destruct (Z.ltb_spec (a - 1) 0).
  - replace (a - 1) with (n - 1 + (-1) * n) by lia. rewrite Z_mod_plus_full. by rewrite Z.mod_small by lia.
  - by rewrite Z.mod_small by lia.
Qed.

(** The size of an item times an index that steps around the ring. *)
Lemma scale_wrap sz a n : 0 < sz → 0 <= a < n →
  (if n * sz <=? sz * a + sz then 0 else sz * a + sz) = sz * ((a + 1) mod n).
Proof.
  intros Hs Ha. rewrite <-mod_wrap by done.
  destruct (Z.leb_spec (n * sz) (sz * a + sz)), (Z.leb_spec n (a + 1)); nia.
Qed.

Lemma scale_prev sz a n : 0 < sz → 0 <= a < n →
  (if sz * a - sz <? 0 then n * sz - sz else sz * a - sz) = sz * ((a - 1) mod n).
Proof.
  intros Hs Ha. rewrite <-mod_prev by done.
  destruct (Z.ltb_spec (sz * a - sz) 0), (Z.ltb_spec (a - 1) 0); nia.
Qed.

(** *** Slots *)

Section slots.
Variable q : Queue_t.
Hypothesis size_pos : 0 < uxItemSize q.
Hypothesis area_size : Z.of_nat (length (area q)) = uxLength q * uxItemSize q.
Implicit Types i j : Z.

Lemma slot_fits i : 0 <= i < uxLength q → 0 <= uxItemSize q * i ∧
  uxItemSize q * i + uxItemSize q <= Z.of_nat (length (area q)).
Proof. intros Hi. rewrite area_size. nia. Qed.

(** The area after an item was written to slot [i]. *)
Definition written (i : Z) (item : list Z) : list Z :=
  splice (Z.to_nat (uxItemSize q * i)) item (area q).

Lemma length_stored i item :
  0 <= i < uxLength q → length item = Z.to_nat (uxItemSize q) → length (written i item) = length (area q).
Proof. intros Hi Hl. pose proof (slot_fits i Hi). apply length_splice. lia. Qed.

Lemma slot_written_same i item :
  0 <= i < uxLength q → length item = Z.to_nat (uxItemSize q) → slot (with_area (written i item) q) i = item.
Proof.
  intros Hi Hl. pose proof (slot_fits i Hi). unfold slot. simpl. rewrite <-Hl. apply slice_splice_same. lia.
Qed.

Lemma slot_written_other i j item :
  0 <= i < uxLength q → 0 <= j < uxLength q → i ≠ j → length item = Z.to_nat (uxItemSize q) →
  slot (with_area (written i item) q) j = slot q j.
Proof.
  intros Hi Hj Hne Hl. pose proof (slot_fits i Hi). pose proof (slot_fits j Hj). unfold slot. simpl.
  apply slice_splice_other; [lia|]. nia.
Qed.
End slots.

Lemma ring_ext q q' r n :
  uxLength q' = uxLength q →
  (∀ i : nat, (i < n)%nat → slot q' ((r + 1 + Z.of_nat i) mod uxLength q) = slot q ((r + 1 + Z.of_nat i) mod uxLength q)) →
  ring q' r n = ring q r n.
Proof.
  intros El Hs. unfold ring. rewrite El. apply list_fmap_ext. intros k i Hk. apply lookup_seq in Hk as [-> Hk]. simpl. by apply Hs.
Qed.

Lemma ring_S q r n : ring q r (S n) = ring q r n ++ [slot q ((r + 1 + Z.of_nat n) mod uxLength q)].
Proof. unfold ring. rewrite seq_S, fmap_app. done. Qed.

Lemma ring_cons q r n : 0 < uxLength q →
  ring q r (S n) = slot q ((r + 1) mod uxLength q) :: ring q ((r + 1) mod uxLength q) n.
Proof.
  intros Hl. unfold ring. simpl. f_equal; [by rewrite Z.add_0_r|]. rewrite <-fmap_S_seq, <-list_fmap_compose.
  apply list_fmap_ext. intros k i _. simpl. f_equal.
  rewrite <-(Zplus_mod_idemp_l ((r + 1) mod uxLength q + 1)), (Zplus_mod_idemp_l (r + 1) 1), Zplus_mod_idemp_l. f_equal. lia.
Qed.

(** ** Copying items *)

Definition put (pos : position) (item : list Z) (xs : list (list Z)) : list (list Z) :=
  match pos with
  | queueSEND_TO_BACK => xs ++ [item]
  | queueSEND_TO_FRONT => item :: xs
  | queueOVERWRITE => [item]
  end.

(** When an item may be put into a queue: there is room, or the queue has one
    place and its item is replaced. *)
Definition may_put (q : Queue_t) (pos : position) : Prop :=
  match pos with
  | queueOVERWRITE => uxLength q = 1 ∧ 0 < uxItemSize q
  | _ => uxMessagesWaiting q < uxLength q
  end.

Lemma contents_length q : queue_ok q → is_mutex q = false → length (contents q) = Z.to_nat (uxMessagesWaiting q).
Proof.
  intros [_ _ _ _ U] Hm. unfold contents, is_mutex in *. destruct (use q); [|done].
  destruct (uxItemSize q =? 0); [apply length_replicate|]. unfold ring. by rewrite length_fmap, length_seq.
Qed.

Lemma ring_written q r n w item :
  0 < uxItemSize q → Z.of_nat (length (area q)) = uxLength q * uxItemSize q →
  0 <= w < uxLength q → length item = Z.to_nat (uxItemSize q) →
  (∀ i : nat, (i < n)%nat → (r + 1 + Z.of_nat i) mod uxLength q ≠ w) →
  ring (with_area (written q w item) q) r n = ring q r n.
Proof.
  intros Hs Ha Hw Hl Hne. apply ring_ext; [done|]. intros i Hi.
  apply slot_written_other; try done; [apply Z.mod_pos_bound; lia|]. intros E. by apply (Hne i).
Qed.

Lemma wp_memcpy_to x q s i item (Q : unit → rtos → Prop) :
  queues s !! x = Some q → 0 < uxItemSize q → Z.of_nat (length (area q)) = uxLength q * uxItemSize q →
  0 <= i < uxLength q → length item = Z.to_nat (uxItemSize q) →
  Q tt (Rtos (kern s) (<[x := with_area (written q i item) q]> (queues s))) →
  wp (memcpy_to x (uxItemSize q * i) item) Q s.
Proof.
  intros E Hs Ha Hi Hl HQ. destruct (slot_fits q Hs Ha i Hi). apply wp_bind. eapply wp_queue; [done|].
  apply wp_bind. eapply wp_assert.
  - rewrite !andb_true_iff, !Z.leb_le, Nat.leb_le. lia.
  - unfold put_queue. apply wp_modify. rewrite take_ge by lia. exact HQ.
Qed.

Lemma wp_memcpy_from x q s i (Q : list Z → rtos → Prop) :
  queues s !! x = Some q → 0 < uxItemSize q → Z.of_nat (length (area q)) = uxLength q * uxItemSize q →
  0 <= i < uxLength q → Q (slot q i) s → wp (memcpy_from x (uxItemSize q * i)) Q s.
Proof.
  intros E Hs Ha Hi HQ. destruct (slot_fits q Hs Ha i Hi). apply wp_bind. eapply wp_queue; [done|].
  apply wp_bind. eapply wp_assert; [|by apply wp_ret]. rewrite !andb_true_iff, !Z.leb_le. lia.
Qed.

(** The queue after an item went to the back and to the front. *)
Definition backed (item : list Z) (q : Queue_t) (r : Z) : Queue_t :=
  let w := (r + 1 + uxMessagesWaiting q) mod uxLength q in
  with_messages (uxMessagesWaiting q + 1)
    (with_write (uxItemSize q * ((w + 1) mod uxLength q)) (with_area (written q w item) q)).

Definition fronted (item : list Z) (q : Queue_t) (tail r n : Z) : Queue_t :=
  with_messages (n + 1)
    (with_use (Storage tail (uxItemSize q * ((r - 1) mod uxLength q))) (with_area (written q r item) q)).

Lemma ring_messages v q r n : ring (with_messages v q) r n = ring q r n.
Proof. done. Qed.

Lemma read_index q r : 0 < uxItemSize q → (uxItemSize q * r) / uxItemSize q = r.
Proof. intros Hs. rewrite Z.mul_comm. apply Z.div_mul. lia. Qed.

Lemma contents_ring q tail rd r :
  0 < uxItemSize q → use q = Storage tail rd → rd = uxItemSize q * r →
  contents q = ring q r (Z.to_nat (uxMessagesWaiting q)).
Proof.
  intros Hs Hu ->. unfold contents. rewrite (proj2 (Z.eqb_neq _ _)), Hu by lia. by rewrite read_index.
Qed.

Lemma backed_ok item q tail rd r :
  queue_ok q → use q = Storage tail rd → ring_ok q tail rd → 0 <= r < uxLength q → rd = uxItemSize q * r →
  pcWriteTo q = uxItemSize q * ((r + 1 + uxMessagesWaiting q) mod uxLength q) →
  length item = Z.to_nat (uxItemSize q) → uxMessagesWaiting q < uxLength q →
  queue_ok (backed item q r) ∧ contents (backed item q r) = contents q ++ [item].
Proof.
  intros [L M X Tx U] Hu [S A Tl _] Hr Hrd Hw Hl Hroom.
  set (w := (r + 1 + uxMessagesWaiting q) mod uxLength q) in *.
  assert (0 <= w < uxLength q) as Hwr by (apply Z.mod_pos_bound; lia). split.
  - split; unfold backed; simpl; [done|lia|done|done|]. rewrite Hu. right. split; simpl; [done| |done|].
    + fold w. rewrite length_stored by done. done.
    + exists r. split_and!; [lia|lia|done|]. fold w. f_equal. unfold w. rewrite Zplus_mod_idemp_l. f_equal. lia.
  - rewrite (contents_ring q tail rd r) by done.
    rewrite (contents_ring (backed item q r) tail rd r) by (done || by simpl).
    unfold backed at 2. simpl uxMessagesWaiting. rewrite Z2Nat.inj_add, Nat.add_1_r, ring_S by lia. f_equal.
    + change (ring (with_area (written q w item) q) r (Z.to_nat (uxMessagesWaiting q)) = ring q r (Z.to_nat (uxMessagesWaiting q))).
      apply ring_written; try done. intros i Hi E. apply mod_inj in E; lia.
    + change (uxLength (backed item q r)) with (uxLength q). rewrite Z2Nat.id by lia. fold w.
      change (slot (backed item q r) w) with (slot (with_area (written q w item) q) w). by rewrite slot_written_same.
Qed.

Lemma fronted_ok item q tail rd r n :
  queue_ok q → use q = Storage tail rd → ring_ok q tail rd → 0 <= r < uxLength q → rd = uxItemSize q * r →
  length item = Z.to_nat (uxItemSize q) → 0 <= n < uxLength q →
  pcWriteTo q = uxItemSize q * ((r + 1 + n) mod uxLength q) →
  queue_ok (fronted item q tail r n) ∧ contents (fronted item q tail r n) = item :: ring q r (Z.to_nat n).
Proof.
  intros [L M X Tx U] Hu [S A Tl _] Hr Hrd Hl Hn Hw.
  assert (0 <= (r - 1) mod uxLength q < uxLength q) as Hp by (apply Z.mod_pos_bound; lia). split.
  - split; unfold fronted; simpl; [done|lia|done|done|]. right. split; simpl; [done|by rewrite length_stored|done|].
    exists ((r - 1) mod uxLength q). split_and!; [lia|lia|done|]. rewrite Hw. f_equal.
    replace ((r - 1) mod uxLength q + 1 + (n + 1)) with ((r - 1) mod uxLength q + (n + 2)) by lia.
    rewrite Zplus_mod_idemp_l. f_equal. lia.
  - rewrite (contents_ring _ tail (uxItemSize q * ((r - 1) mod uxLength q)) ((r - 1) mod uxLength q)) by (done || by simpl).
    unfold fronted at 2. simpl uxMessagesWaiting. rewrite Z2Nat.inj_add, Nat.add_1_r by lia.
    rewrite ring_cons by (simpl; lia). change (uxLength (fronted item q tail r n)) with (uxLength q).
    assert (((r - 1) mod uxLength q + 1) mod uxLength q = r) as ->.
    { rewrite Zplus_mod_idemp_l. replace (r - 1 + 1) with r by lia. by apply Z.mod_small. }
    change (slot (fronted item q tail r n) r) with (slot (with_area (written q r item) q) r).
    rewrite slot_written_same by done. f_equal.
    change (ring (with_area (written q r item) q) r (Z.to_nat n) = ring q r (Z.to_nat n)).
    apply ring_written; try done. intros i Hi E.
    replace r with ((r + 0) mod uxLength q) in E at 2 by (rewrite Z.add_0_r; by apply Z.mod_small).
    rewrite <-Z.add_assoc in E. destruct (decide (1 + Z.of_nat i = uxLength q)) as [|Hne]; [lia|].
    apply mod_inj in E; lia.
Qed.

Lemma contents_semaphore q : uxItemSize q = 0 → contents q = replicate (Z.to_nat (uxMessagesWaiting q)) [].
Proof. intros E. unfold contents. by rewrite E. Qed.

Lemma semaphore_ok n q :
  queue_ok q → uxItemSize q = 0 → is_mutex q = false → 0 <= n <= uxLength q → queue_ok (with_messages n q).
Proof.
  intros [L M X Tx U] E Hm Hn. split; simpl; try done. unfold is_mutex in Hm. destruct (use q); [|done]. by left.
Qed.

(** A copy of an item into the queue. *)
Record copied (pos : position) (item : list Z) (q q' : Queue_t) : Prop := {
  cp_ok : queue_ok q';
  cp_shape : same_shape q q';
  cp_mutex : is_mutex q' = false;
  cp_contents : contents q' = put pos item (contents q)
}.

Lemma copy_to_ok x q s pos item :
  queues s !! x = Some q → queue_ok q → is_mutex q = false → may_put q pos → length item = Z.to_nat (uxItemSize q) →
  wp (prvCopyDataToQueue x item pos) (λ r s', r = false ∧
    ∃ q', s' = Rtos (kern s) (<[x := q']> (queues s)) ∧ copied pos item q q') s.
Proof.
  intros E Hok Hm Hput Hl. pose proof Hok as [L M X Tx U].
  unfold prvCopyDataToQueue. apply wp_bind. eapply wp_queue; [done|]. apply wp_bind.
  unfold is_mutex in Hm. destruct (use q) as [tail rd|] eqn:Hu; [|done].
  destruct (Z.eqb_spec (uxItemSize q) 0) as [Ez|Ez].
  - apply wp_ret. apply wp_bind. eapply wp_update_queue; [done|]. apply wp_ret. split; [done|].
    assert (item = []) as -> by (apply nil_length_inv; by rewrite Hl, Ez).
    assert (uxMessagesWaiting q < uxLength q ∧ put pos [] (contents q) = replicate (S (Z.to_nat (uxMessagesWaiting q))) [])
      as [Hroom Ep].
    { rewrite contents_semaphore by done. destruct pos; simpl in Hput |- *; [|done|lia]. by rewrite <-replicate_cons_app. }
    assert (u32 (uxMessagesWaiting q + 1) = uxMessagesWaiting q + 1) as -> by (apply Z.mod_small; lia).
    eexists. split; [done|]. split; [apply semaphore_ok; try done; [unfold is_mutex; by rewrite Hu|lia]|done|unfold is_mutex; simpl; by rewrite Hu|].
    rewrite Ep, contents_semaphore by done. simpl uxMessagesWaiting. by rewrite Z2Nat.inj_add, Nat.add_1_r by lia.
  - destruct U as [U|Hr]; [done|]. pose proof Hr as [S A Tl (r & Hrr & Hrd & Hw)].
    apply wp_bind. unfold storage. rewrite Hu. apply wp_ret. destruct pos; simpl in Hput.
    + apply wp_bind. rewrite Hw. eapply wp_memcpy_to; try done. { apply Z.mod_pos_bound. lia. }
      apply wp_bind. eapply wp_update_queue; [apply lookup_insert_eq|]. apply wp_ret. cbn [kern queues].
      apply wp_bind. eapply wp_update_queue; [apply lookup_insert_eq|]. apply wp_ret. split; [done|]. simpl.
      rewrite !insert_insert_eq. rewrite Tl, scale_wrap by (done || by apply Z.mod_pos_bound; lia).
      assert (u32 (uxMessagesWaiting q + 1) = uxMessagesWaiting q + 1) as -> by (apply Z.mod_small; lia).
      eexists. split; [done|]. destruct (backed_ok item q tail rd r) as [B1 B2]; try done.
      split; [exact B1|done|unfold is_mutex; simpl; by rewrite Hu|exact B2].
    + apply wp_bind. rewrite Hrd. eapply wp_memcpy_to; try done.
      apply wp_bind. unfold set_read. eapply wp_update_queue; [apply lookup_insert_eq|]. apply wp_ret. cbn [kern queues].
      apply wp_bind. eapply wp_update_queue; [apply lookup_insert_eq|]. apply wp_ret. split; [done|].
      simpl. rewrite Hu, !insert_insert_eq. rewrite Tl, scale_prev by done.
      assert (u32 (uxMessagesWaiting q + 1) = uxMessagesWaiting q + 1) as -> by (apply Z.mod_small; lia).
      eexists. split; [done|]. destruct (fronted_ok item q tail rd r (uxMessagesWaiting q)) as [B1 B2]; try done; [lia|].
      rewrite <-Tl. split; [exact B1|done|done|]. rewrite (contents_ring q tail rd r) by done. exact B2.
    + apply wp_bind. rewrite Hrd. eapply wp_memcpy_to; try done.
      apply wp_bind. unfold set_read. eapply wp_update_queue; [apply lookup_insert_eq|]. apply wp_ret. cbn [kern queues].
      apply wp_bind. eapply wp_update_queue; [apply lookup_insert_eq|]. apply wp_ret. split; [done|].
      simpl. rewrite Hu, !insert_insert_eq. rewrite Tl, scale_prev by done. destruct Hput as [El _].
      assert (r = 0) as -> by lia.
      assert ((if 0 <? uxMessagesWaiting q then uxMessagesWaiting q - 1 else uxMessagesWaiting q) = 0) as ->.
      { destruct (Z.ltb_spec 0 (uxMessagesWaiting q)); lia. }
      eexists. split; [done|]. destruct (fronted_ok item q tail rd 0 0) as [B1 B2]; try done; [by rewrite Hw, El, !Z.mod_1_r|].
      rewrite <-Tl. split; [exact B1|done|done|exact B2].
Qed.

(** The queue after its first item was taken out of the storage area. *)
Lemma copy_from_ok x q s item items (Q : list Z → rtos → Prop) :
  queues s !! x = Some q → queue_ok q → is_mutex q = false → contents q = item :: items →
  (∀ q', queue_ok (with_messages (uxMessagesWaiting q - 1) q') → same_shape q q' → is_mutex q' = false →
    uxMessagesWaiting q' = uxMessagesWaiting q → contents (with_messages (uxMessagesWaiting q - 1) q') = items →
    (∀ v, use q = Storage v.1 v.2 → (match use q' with Storage t _ => with_use (Storage t v.2) q' | Mutex _ _ => q' end) = q) →
    Q item (Rtos (kern s) (<[x := q']> (queues s)))) →
  wp (prvCopyDataFromQueue x) Q s.
Proof.
  intros E Hok Hm Hc HQ. pose proof Hok as [L M X Tx U]. pose proof (contents_length q Hok Hm) as Hlen. rewrite Hc in Hlen. simpl in Hlen.
  unfold prvCopyDataFromQueue. apply wp_bind. eapply wp_queue; [done|].
  pose proof Hm as Hm'. unfold is_mutex in Hm'. destruct (use q) as [tail rd|] eqn:Hu; [|done].
  destruct (Z.eqb_spec (uxItemSize q) 0) as [Ez|Ez].
  - apply wp_ret. pose proof Hc as Hc'. rewrite contents_semaphore in Hc by done.
    destruct (Z.to_nat (uxMessagesWaiting q)) as [|n] eqn:En; [done|]. injection Hc as <- <-.
    enough (Q [] (Rtos (kern s) (<[x := q]> (queues s)))) as H by (rewrite insert_id in H by done; by destruct s).
    apply HQ; try done; [apply semaphore_ok; [done..|lia]| |].
    + rewrite contents_semaphore by done. simpl. by replace (Z.to_nat (uxMessagesWaiting q - 1)) with n by lia.
    + intros [t r] [= -> ->]. rewrite Hu. simpl. destruct q; simpl in *; by subst.
  - destruct U as [U|Hr]; [done|]. pose proof Hr as [Sz A Tl (r & Hrr & Hrd & Hw)].
    apply wp_bind. unfold storage. rewrite Hu. apply wp_ret. rewrite Hrd, Tl, scale_wrap by done.
    apply wp_bind. unfold set_read. eapply wp_update_queue; [done|]. rewrite Hu.
    set (q' := with_use _ q). assert (0 <= (r + 1) mod uxLength q < uxLength q) as Hp by (apply Z.mod_pos_bound; lia).
    rewrite (contents_ring q tail rd r) in Hc by done.
    replace (Z.to_nat (uxMessagesWaiting q)) with (S (Z.to_nat (uxMessagesWaiting q - 1))) in Hc by lia.
    rewrite ring_cons in Hc by lia. injection Hc as Hitem Hitems.
    eapply (wp_memcpy_from x q'); [apply lookup_insert_eq|done|done|done|].
    change (slot q' ((r + 1) mod uxLength q)) with (slot q ((r + 1) mod uxLength q)). rewrite Hitem.
    apply HQ; try done.
    + split; simpl; try done; [lia|]. right. split; simpl; try done. exists ((r + 1) mod uxLength q). split_and!; try lia.
      rewrite Hw. f_equal. replace ((r + 1) mod uxLength q + 1 + (uxMessagesWaiting q - 1)) with ((r + 1) mod uxLength q + uxMessagesWaiting q) by lia.
      by rewrite Zplus_mod_idemp_l.
    + rewrite (contents_ring _ tail (uxItemSize q * ((r + 1) mod uxLength q)) ((r + 1) mod uxLength q)) by (done || by simpl; rewrite ?Tl).
      exact Hitems.
    + intros [t r'] [= -> ->]. simpl. destruct q; simpl in *; by subst.
Qed.
