(* ===== verification/RtosQueueSystem.v ===== *)
(** * Tasks and interrupts around queues

    Any number of tasks that call the functions of queue.c, step by step,
    interrupted by the tick, by interrupt handlers that use the queues, and by
    context switches: what may happen when ([allowed]), what each step does
    ([sys_step]) and tells about the queues ([event]), and the state of the
    queues that this must agree with ([spec_event]). *)

From Stdlib Require Import ZArith Lia.
From S2P Require Import Prelude RtosList RtosKernel RtosQueue RtosQueueData.
Local Open Scope Z_scope.
Local Open Scope pim_scope.

(** The kernel with its queues, and for each task the call it is in. *)
Record sys := Sys { rt : rtos; calls : gmap task (pc * call) }.

Abbreviation k_of S := (kern (rt S)).

Inductive label :=
  | Begin (x : positive) (r : request) (* the running task calls a function of queue.c *)
  | Step (* it goes on with the call it is in *)
  | SendFromISR (x : positive) (item : list Z) (pos : position)
  | GiveFromISR (x : positive)
  | ReceiveFromISR (x : positive)
  | Tick
  | Switch (* the PendSV interrupt *)
  | DelayTask (n : Z) (* the running task calls a function of tasks.c *)
  | SetPriority (h : option task) (p : Z)
  | SuspendTask (t : task)
  | ResumeTask (t : task).

(** What a step tells about a queue; [who] is [None] for an interrupt. *)
Inductive event :=
  | Put (who : option task) (x : positive) (pos : position) (item : list Z)
  | Got (who : option task) (x : positive) (item : list Z)
  | Peeked (x : positive) (item : list Z)
  | WasFull (x : positive)
  | WasEmpty (x : positive).

(** ** Steps *)

Definition on_rt {A} (m : R A) : ST sys A :=
  λ s, match m (rt s) with Some (a, r) => Some (a, Sys r (calls s)) | None => None end.

Definition running_task : ST sys task := on_rt (on_kernel current).

Definition set_call (t : task) (o : option (pc * call)) : ST sys unit :=
  modify (λ s, Sys (rt s) (partial_alter (λ _, o) t (calls s))).

Definition proceed (t : task) (n : next) : ST sys unit :=
  set_call t (match n with Go p c => Some (p, c) | Return _ => None end).

Definition event_of (t : task) (p : pc) (c : call) (n : next) : option event :=
  let x := c_queue c in
  match p, n with
  | Section_, Return (pdPASS item) =>
      Some (match c_api c with
            | Send item pos => Put (Some t) x pos item
            | Peek => Peeked x item
            | _ => Got (Some t) x item
            end)
  | Section_, Go CountUp _ => Some (Got (Some t) x [])
  | Section_, Return errQUEUE_FULL => Some (WasFull x)
  | Section_, Return errQUEUE_EMPTY | TestAgain, Return errQUEUE_EMPTY => Some (WasEmpty x)
  | _, _ => None
  end.

(** An interrupt handler asks for a context switch when it has to. *)
Definition yield_from_isr (woken : bool) : ST sys unit :=
  if woken then on_rt (on_kernel portYIELD) else ret tt.

Definition sys_step (l : label) : ST sys (option event) :=
  match l with
  | Begin x r =>
      t ← running_task;
      n ← on_rt (begin_call x r);
      proceed t n;;
      ret None
  | Step =>
      t ← running_task;
      o ← gets (λ s, calls s !! t);
      ' (p, c) ← lift_opt o;
      n ← on_rt (call_step p c);
      proceed t n;;
      ret (event_of t p c n)
  | SendFromISR x item pos =>
      ' (ok, woken) ← on_rt (xQueueGenericSendFromISR x item pos);
      yield_from_isr woken;;
      ret (if ok : bool then Some (Put None x pos item) else Some (WasFull x))
  | GiveFromISR x =>
      ' (ok, woken) ← on_rt (xQueueGiveFromISR x);
      yield_from_isr woken;;
      ret (if ok : bool then Some (Put None x queueSEND_TO_BACK []) else Some (WasFull x))
  | ReceiveFromISR x =>
      ' (item, woken) ← on_rt (xQueueReceiveFromISR x);
      yield_from_isr woken;;
      ret (match item with Some item => Some (Got None x item) | None => Some (WasEmpty x) end)
  | Tick => b ← on_rt (on_kernel xTaskIncrementTick); yield_from_isr b;; ret None
  | Switch => on_rt (on_kernel (wr pendSV 0;; vTaskSwitchContext));; ret None
  | DelayTask n => on_rt (on_kernel (vTaskDelay n));; ret None
  | SetPriority h p => on_rt (on_kernel (vTaskPrioritySet h p));; ret None
  | SuspendTask t => on_rt (on_kernel (vTaskSuspend (Some t)));; ret None
  | ResumeTask t => on_rt (on_kernel (vTaskResume t));; ret None
  end.

(** The events of a run. *)
Fixpoint sys_run (ls : list label) : ST sys (list event) :=
  match ls with
  | [] => ret []
  | l :: ls => e ← sys_step l; es ← sys_run ls; ret (option_list e ++ es)
  end.

(** ** What may happen *)

Definition ticks_ok (n : Z) : bool := (0 <=? n) && (n <=? portMAX_DELAY).

(** A mutex is taken at once or waited for without limit. *)
Definition mutex_ticks_ok (n : Z) : bool := (n =? 0) || (n =? portMAX_DELAY).

Definition item_ok (q : Queue_t) (item : list Z) (pos : position) : bool :=
  bool_decide (length item = Z.to_nat (uxItemSize q)) &&
  match pos with queueOVERWRITE => (uxLength q =? 1) && (0 <? uxItemSize q) | _ => true end.

(** The contract of the functions of queue.c: data go through queues, mutexes
    are given by the task that holds them. *)
Definition request_ok (t : task) (q : Queue_t) (r : request) : bool :=
  match r with
  | QueueGenericSend item ticks pos =>
      item_ok q item pos && ticks_ok ticks &&
      match use q with Mutex h _ => bool_decide (h = Some t) | Storage _ _ => true end
  | QueueReceive ticks | QueuePeek ticks => negb (is_mutex q) && ticks_ok ticks
  | QueueSemaphoreTake ticks =>
      (uxItemSize q =? 0) && ticks_ok ticks && (negb (is_mutex q) || mutex_ticks_ok ticks)
  | QueueTakeMutexRecursive ticks => is_mutex q && mutex_ticks_ok ticks
  | QueueGiveMutexRecursive => is_mutex q
  end.

(** The running task, when no context switch is due. *)
Definition free_to_run (s : sys) : option task :=
  if vars (k_of s) pendSV =? 0 then pxCurrentTCB (k_of s) else None.

(** It is not the idle task and not in a call. *)
Definition may_call (idle : task) (s : sys) : option task :=
  match free_to_run s with
  | Some t => if bool_decide (t ≠ idle ∧ calls s !! t = None) then Some t else None
  | None => None
  end.

(** The 8-bit counts of a locked queue must not overflow. *)
Definition allowed (idle : task) (s : sys) (l : label) : bool :=
  match l with
  | Begin x r =>
      match may_call idle s, queues (rt s) !! x with Some t, Some q => request_ok t q r | _, _ => false end
  | Step => match free_to_run s with Some t => bool_decide (is_Some (calls s !! t)) | None => false end
  | SendFromISR x item pos =>
      match queues (rt s) !! x with
      | Some q => negb (is_mutex q) && item_ok q item pos && (cTxLock q <? 127)
      | None => false
      end
  | GiveFromISR x =>
      match queues (rt s) !! x with
      | Some q => negb (is_mutex q) && (uxItemSize q =? 0) && (cTxLock q <? 127)
      | None => false
      end
  | ReceiveFromISR x =>
      match queues (rt s) !! x with
      | Some q => negb (is_mutex q) && (cRxLock q <? 127)
      | None => false
      end
  | Tick => true
  | Switch => negb (vars (k_of s) pendSV =? 0)
  | DelayTask n => bool_decide (is_Some (may_call idle s)) && ticks_ok n
  | SetPriority h p =>
      bool_decide (is_Some (may_call idle s)) && (0 <=? p) && (p <? configMAX_PRIORITIES) &&
      match h with Some t => bool_decide (is_Some (tasks (k_of s) !! t)) | None => true end
  | SuspendTask t => bool_decide (is_Some (may_call idle s) ∧ t ≠ idle ∧ is_Some (tasks (k_of s) !! t))
  | ResumeTask t => bool_decide (is_Some (may_call idle s) ∧ is_Some (tasks (k_of s) !! t))
  end.

(** A run in which every step is allowed. *)
Fixpoint allowed_run (idle : task) (s : sys) (ls : list label) : bool :=
  match ls with
  | [] => true
  | l :: ls =>
      allowed idle s l && match sys_step l s with Some (_, s') => allowed_run idle s' ls | None => true end
  end.

(** ** What the queues are for their users *)

Inductive aqueue :=
  | AQueue (capacity : Z) (items : list (list Z))
  | AMutex (holder : option task).

Definition abs_queue (q : Queue_t) : aqueue :=
  match use q with Mutex h _ => AMutex h | Storage _ _ => AQueue (uxLength q) (contents q) end.

Definition abs (s : sys) : gmap positive aqueue := abs_queue <$> queues (rt s).

(** A bounded queue of items, and a mutex that only its holder gives back. *)
Definition spec_event (e : event) (m : gmap positive aqueue) : option (gmap positive aqueue) :=
  match e with
  | Put who x pos item =>
      match m !! x with
      | Some (AQueue n items) =>
          if match pos with queueOVERWRITE => n =? 1 | _ => Z.of_nat (length items) <? n end
          then Some (<[x := AQueue n (put pos item items)]> m) else None
      | Some (AMutex (Some t)) => if decide (who = Some t) then Some (<[x := AMutex None]> m) else None
      | _ => None
      end
  | Got who x item =>
      match m !! x with
      | Some (AQueue n (i :: items)) => if decide (i = item) then Some (<[x := AQueue n items]> m) else None
      | Some (AMutex None) => match who with Some t => Some (<[x := AMutex (Some t)]> m) | None => None end
      | _ => None
      end
  | Peeked x item =>
      match m !! x with
      | Some (AQueue n (i :: items)) => if decide (i = item) then Some m else None
      | _ => None
      end
  | WasFull x =>
      match m !! x with
      | Some (AQueue n items) => if Z.of_nat (length items) =? n then Some m else None
      | _ => None
      end
  | WasEmpty x => match m !! x with Some (AQueue _ []) | Some (AMutex (Some _)) => Some m | _ => None end
  end.

Fixpoint spec_run (es : list event) (m : gmap positive aqueue) : option (gmap positive aqueue) :=
  match es with
  | [] => Some m
  | e :: es => match spec_event e m with Some m => spec_run es m | None => None end
  end.
