(* ===== verification/RtosQueueInv.v ===== *)
(** * The invariant of tasks, interrupts and queues

    What holds between any two steps of RtosQueueSystem.v: where every call is,
    who is in which list of waiting tasks, which queue is locked, who holds which
    mutex, and that there is a task about to come for everything a waiting task
    could take. *)

From Stdlib Require Import ZArith Lia.
From stdpp Require Import gmap.
From S2P Require Import Prelude RtosList RtosListSpec RtosKernel RtosKernelSpec RtosTime RtosSched RtosBoot RtosSafety RtosServices RtosQueue RtosQueueKernel RtosQueueData RtosQueueSystem.
Local Open Scope Z_scope.
Local Open Scope pim_scope.

#[global] Instance api_eq_dec : EqDecision api.
Proof. solve_decision. Defined.

#[global] Instance after_eq_dec : EqDecision after.
Proof. solve_decision. Defined.

#[global] Instance pc_eq_dec : EqDecision pc.
Proof. solve_decision. Defined.

(** ** Where a call is *)

(** Between vTaskSuspendAll() and xTaskResumeAll(). *)
Definition in_section (p : pc) : bool :=
  match p with
  | LockQueue | CheckForTimeOut | TestQueue | Inherit | PlaceOnEventList | UnlockTx _ | UnlockRx _ | ResumeAll _ => true
  | _ => false
  end.

Definition locked_tx (p : pc) : bool :=
  match p with CheckForTimeOut | TestQueue | Inherit | PlaceOnEventList | UnlockTx _ => true | _ => false end.

Definition locked_rx (p : pc) : bool := match p with UnlockRx _ => true | _ => locked_tx p end.

(** The task has put itself in the list of waiting tasks and still runs. *)
Definition blocked_pc (p : pc) : bool :=
  match p with UnlockTx ToBlock | UnlockRx ToBlock | ResumeAll ToBlock | YieldWithinAPI => true | _ => false end.

(** Where a task can be in the list of waiting tasks. *)
Definition may_wait_pc (p : pc) : bool := match p with Section_ => true | _ => blocked_pc p end.

(** On the way to the first critical section. *)
Definition claiming (p : pc) : bool :=
  match p with
  | Section_ | YieldWithinAPI => true
  | UnlockTx a | UnlockRx a | ResumeAll a => match a with ToBlock | ToRetry => true | ToGiveUp => false end
  | _ => false
  end.

(** After a time-out. *)
Definition gave_up (p : pc) : bool :=
  match p with
  | UnlockTx ToGiveUp | UnlockRx ToGiveUp | ResumeAll ToGiveUp | TestAgain | DisinheritAfterTimeout => true
  | _ => false
  end.

Definition api_dir (a : api) : dir := match a with Send _ _ => ToSend | _ => ToReceive end.

Lemma waits_in_eq c : waits_in c = wlist (api_dir (c_api c)) (c_queue c).
Proof. unfold waits_in. by destruct (c_api c). Qed.

(** ** Counts *)

(** What a task that waits in direction [d] could take, and what was held back
    while the queue was locked. *)
Definition avail (d : dir) (q : Queue_t) : Z :=
  match d with ToReceive => uxMessagesWaiting q | ToSend => uxLength q - uxMessagesWaiting q end.

Definition held_back (d : dir) (q : Queue_t) : Z :=
  Z.max 0 (match d with ToReceive => cTxLock q | ToSend => cRxLock q end).

(** A task about to try in direction [d] on queue [x]. *)
Definition claimant (s : sys) (d : dir) (x : positive) (t : task) : bool :=
  match calls s !! t with
  | Some (p, c) => claiming p && bool_decide (api_dir (c_api c) = d ∧ c_queue c = x ∧ waiting (k_of s) t ≠ Some (wlist d x))
  | None => false
  end.

Definition claimants (s : sys) (d : dir) (x : positive) : gset task :=
  filter (λ t, claimant s d x t = true) (dom (calls s)).

Definition holder (q : Queue_t) : option task := match use q with Mutex h _ => h | Storage _ _ => None end.

(** The mutexes a task holds. *)
Definition held (s : sys) (t : task) : gset positive :=
  dom (filter (λ xq : positive * Queue_t, holder xq.2 = Some t) (queues (rt s))).

(** ** The invariant *)

(** A call of task [t] at [p] on queue [q] is one that the contract allows. *)
Record call_ok (t : task) (p : pc) (c : call) (q : Queue_t) : Prop := {
  co_ticks : 0 <= xTicksToWait c < EPOCH;
  co_timeout : p ≠ Section_ → p ≠ CountUp → is_Some (xTimeOut c);
  co_waits : p = TestQueue ∨ p = Inherit ∨ p = PlaceOnEventList → 0 < xTicksToWait c;
  co_api : match c_api c with
    | Send item pos => item_ok q item pos = true ∧ (is_mutex q = true → p = Section_ ∧ holder q = Some t)
    | Receive | Peek => is_mutex q = false
    | SemaphoreTake recursive => uxItemSize q = 0 ∧ (recursive = true → is_mutex q = true) ∧
        (is_mutex q = true → xTicksToWait c = portMAX_DELAY ∧ gave_up p = false ∨
          xTicksToWait c = 0 ∧ (p = Section_ ∨ p = CountUp))
    end;
  co_inherited : xInheritanceOccurred c = true → is_mutex q = true ∧ is_take (c_api c) = true ∧ xTicksToWait c = portMAX_DELAY;
  co_inherit : p = Inherit → is_mutex q = true ∧ is_take (c_api c) = true;
  co_count : p = CountUp → c_api c = SemaphoreTake true;
  co_disinherit : p ≠ DisinheritAfterTimeout
}.

Definition locked (b : bool) (n : Z) : Prop := if b then 0 <= n else n = queueUNLOCKED.

(** Queue [x] is locked where the call of the running task says so. *)
Definition locks_ok (o : option (pc * call)) (x : positive) (q : Queue_t) : Prop :=
  match o with
  | Some (p, c) =>
      locked (bool_decide (c_queue c = x) && locked_tx p) (cTxLock q) ∧
      locked (bool_decide (c_queue c = x) && locked_rx p) (cRxLock q)
  | None => cTxLock q = queueUNLOCKED ∧ cRxLock q = queueUNLOCKED
  end.

Record Inv (idle t : task) (s : sys) : Prop := {
  v_kernel : KInv idle (k_of s);
  v_cur : pxCurrentTCB (k_of s) = Some t;
  v_queue : ∀ x q, queues (rt s) !! x = Some q → queue_ok q;
  v_number : Z.of_nat (size (dom (queues (rt s)))) < 2 ^ 32 - 1;
  v_idle : calls s !! idle = None;
  v_call : ∀ t' p c, calls s !! t' = Some (p, c) →
    is_Some (tasks (k_of s) !! t') ∧ ∃ q, queues (rt s) !! c_queue c = Some q ∧ call_ok t' p c q;
  v_other : ∀ t' p c, calls s !! t' = Some (p, c) → t' ≠ t → in_section p = false;
  v_suspended : vars (k_of s) uxSchedulerSuspended =
    match calls s !! t with Some (p, _) => if in_section p then 1 else 0 | None => 0 end;
  v_locks : ∀ x q, queues (rt s) !! x = Some q → locks_ok (calls s !! t) x q;
  v_running : vars (k_of s) uxSchedulerSuspended ≠ 0 ∨ vars (k_of s) pendSV = 0 →
    (∃ p c, calls s !! t = Some (p, c) ∧ blocked_pc p = true) ∨ ready (k_of s) t;
  v_waiting : ∀ t' d x, waiting (k_of s) t' = Some (wlist d x) →
    ∃ p c, calls s !! t' = Some (p, c) ∧ api_dir (c_api c) = d ∧ c_queue c = x ∧ may_wait_pc p = true;
  v_wake : ∀ d x q, queues (rt s) !! x = Some q → (∃ t', waiting (k_of s) t' = Some (wlist d x)) →
    avail d q <= Z.of_nat (size (claimants s d x)) + held_back d q;
  v_seen : ∀ p c q, calls s !! t = Some (p, c) → p = Inherit ∨ p = PlaceOnEventList →
    queues (rt s) !! c_queue c = Some q → avail (api_dir (c_api c)) q <= held_back (api_dir (c_api c)) q;
  v_mutexes : ∀ t', is_Some (tasks (k_of s) !! t') → mutexes (k_of s) t' = Z.of_nat (size (held s t'));
  v_holder : ∀ x q h, queues (rt s) !! x = Some q → holder q = Some h → is_Some (tasks (k_of s) !! h)
}.

(** ** Facts about sets of claimants *)

Lemma claimants_spec s d x t : t ∈ claimants s d x ↔ claimant s d x t = true.
Proof.
  unfold claimants. rewrite elem_of_filter, elem_of_dom. split; [by intros [? _]|]. intros H. split; [done|].
  unfold claimant in H. destruct (calls s !! t); [by eexists|done].
Qed.

Lemma claimant_intro s t p c :
  calls s !! t = Some (p, c) → claiming p = true → waiting (k_of s) t ≠ Some (wlist (api_dir (c_api c)) (c_queue c)) →
  t ∈ claimants s (api_dir (c_api c)) (c_queue c).
Proof. intros E Hp Hw. apply claimants_spec. unfold claimant. rewrite E, Hp. simpl. by apply bool_decide_eq_true. Qed.

Lemma claimant_elim s d x t : t ∈ claimants s d x →
  ∃ p c, calls s !! t = Some (p, c) ∧ claiming p = true ∧ api_dir (c_api c) = d ∧ c_queue c = x ∧
    waiting (k_of s) t ≠ Some (wlist d x).
Proof.
  intros H%claimants_spec. unfold claimant in H. destruct (calls s !! t) as [[p c]|]; [|done].
  apply andb_true_iff in H as [H1 H2%bool_decide_eq_true]. eauto.
Qed.

(** A task that waits is no claimant. *)
Lemma waiting_no_claimant s d x t : waiting (k_of s) t = Some (wlist d x) → t ∉ claimants s d x.
Proof. intros Hw Hc. destruct (claimant_elim _ _ _ _ Hc) as (p & c & _ & _ & _ & _ & H). done. Qed.

Lemma elem_in_size (X : gset positive) x : x ∈ X → (0 < size X)%nat.
Proof. intros H. destruct (size X) eqn:E; [|lia]. apply size_empty_inv in E. set_solver. Qed.

Section sizes.
Implicit Types X Y : gset task.

Lemma size_keep X Y : X ⊆ Y → Z.of_nat (size X) <= Z.of_nat (size Y).
Proof. intros H. apply inj_le. by apply subseteq_size. Qed.

Lemma size_lose X Y t : X ∖ {[ t ]} ⊆ Y → Z.of_nat (size X) - 1 <= Z.of_nat (size Y).
Proof.
  intros H. assert (X ⊆ {[ t ]} ∪ Y) as H'.
  { intros a Ha. destruct (decide (a = t)) as [->|Hne]; [set_solver|]. apply elem_of_union_r, H. set_solver. }
  apply subseteq_size in H'. pose proof (size_union_alt {[ t ]} Y) as E.
  pose proof (subseteq_size (Y ∖ {[ t ]}) Y ltac:(set_solver)). rewrite size_singleton in E. lia.
Qed.

Lemma size_gain X Y t : X ∪ {[ t ]} ⊆ Y → t ∉ X → Z.of_nat (size X) + 1 <= Z.of_nat (size Y).
Proof.
  intros H Ht. apply subseteq_size in H. rewrite size_union in H by set_solver. rewrite size_singleton in H. lia.
Qed.

Lemma size_swap X Y t t' : (X ∖ {[ t ]}) ∪ {[ t' ]} ⊆ Y → t' ∉ X → Z.of_nat (size X) <= Z.of_nat (size Y).
Proof.
  intros H Ht. assert (t' ∉ X ∖ {[ t ]}) as Hn by set_solver.
  pose proof (size_gain (X ∖ {[ t ]}) Y t' H Hn). pose proof (size_lose X (X ∖ {[ t ]}) t ltac:(done)). lia.
Qed.
End sizes.

(** ** How a step keeps the invariant *)

(** A change of a queue by task [t]. *)
Record qframe (t : task) (q q' : Queue_t) : Prop := {
  qf_ok : queue_ok q';
  qf_length : uxLength q' = uxLength q;
  qf_size : uxItemSize q' = uxItemSize q;
  qf_mutex : is_mutex q' = is_mutex q;
  qf_holder : ∀ h, h ≠ t → holder q' = Some h ↔ holder q = Some h
}.

Lemma qframe_refl t q : queue_ok q → qframe t q q.
Proof. by split. Qed.

Lemma call_ok_frame t t' p c q q' : t' ≠ t → qframe t q q' → call_ok t' p c q → call_ok t' p c q'.
Proof.
  intros Hne [_ L Sz M H] [T Ti W A I J C D]. split; try done; rewrite ?M; try done.
  destruct (c_api c); rewrite ?M, ?Sz; try done.
  unfold item_ok in *. rewrite Sz, L. split; [apply A|]. intros Hm. rewrite H by done. by apply A.
Qed.

(** A call stays allowed when only where it is changes. *)
Lemma call_ok_refl_queue t p c q q' :
  uxLength q' = uxLength q → uxItemSize q' = uxItemSize q → is_mutex q' = is_mutex q → holder q' = holder q →
  call_ok t p c q → call_ok t p c q'.
Proof.
  intros L Sz M H [T Ti W A I J C D]. split; try done; rewrite ?M; try done.
  destruct (c_api c); rewrite ?M, ?Sz; try done. unfold item_ok in *. rewrite Sz, L, H. apply A.
Qed.

Section step.
Variable (idle t : task) (s s' : sys).
Hypothesis HI : Inv idle t s.
Hypothesis Hcalm : calm_but (Some t) (k_of s) (k_of s').
Hypothesis Hcalls : ∀ t', t' ≠ t → calls s' !! t' = calls s !! t'.

Lemma waiting_back t' d x :
  t' ≠ t → waiting (k_of s') t' = Some (wlist d x) → waiting (k_of s) t' = Some (wlist d x).
Proof.
  intros Hne Hw. destruct (cm_waits _ _ _ Hcalm t') as [E|E]; [congruence|by rewrite <-E|by destruct (E d x)].
Qed.

Lemma claimants_others d x : claimants s d x ∖ {[ t ]} ⊆ claimants s' d x.
Proof.
  intros t' [Hc Hne]%elem_of_difference. apply not_elem_of_singleton in Hne.
  destruct (claimant_elim _ _ _ _ Hc) as (p & c & E & Hp & <- & <- & Hw).
  apply (claimant_intro s' t' p c); [by rewrite Hcalls|done|]. intros Hw'. by apply Hw, waiting_back.
Qed.

(** A task that was waiting and has been released has become a claimant. *)
Lemma claimants_released d x t1 :
  t1 ≠ t → waiting (k_of s) t1 = Some (wlist d x) → queue_free (waiting (k_of s') t1) → t1 ∈ claimants s' d x.
Proof.
  intros Hne Hw Hf. destruct (v_waiting _ _ _ HI _ _ _ Hw) as (p & c & E & <- & <- & Hp).
  apply (claimant_intro s' t1 p c); [by rewrite Hcalls| |by apply Hf].
  by destruct p as [| | | | | | |[]|[]|[]| | | |].
Qed.

Lemma Inv_intro :
  KInv idle (k_of s') →
  map_Forall2 (λ _, qframe t) (queues (rt s)) (queues (rt s')) →
  (∀ p c, calls s' !! t = Some (p, c) → t ≠ idle ∧ ∃ q, queues (rt s') !! c_queue c = Some q ∧ call_ok t p c q) →
  vars (k_of s') uxSchedulerSuspended =
    match calls s' !! t with Some (p, _) => if in_section p then 1 else 0 | None => 0 end →
  (∀ x q, queues (rt s') !! x = Some q → locks_ok (calls s' !! t) x q) →
  (vars (k_of s') uxSchedulerSuspended ≠ 0 ∨ vars (k_of s') pendSV = 0 →
    (∃ p c, calls s' !! t = Some (p, c) ∧ blocked_pc p = true) ∨ ready (k_of s') t) →
  (∀ d x, waiting (k_of s') t = Some (wlist d x) →
    ∃ p c, calls s' !! t = Some (p, c) ∧ api_dir (c_api c) = d ∧ c_queue c = x ∧ may_wait_pc p = true) →
  (∀ d x q, queues (rt s') !! x = Some q → (∃ t', waiting (k_of s') t' = Some (wlist d x)) →
    avail d q <= Z.of_nat (size (claimants s' d x)) + held_back d q) →
  (∀ p c q, calls s' !! t = Some (p, c) → p = Inherit ∨ p = PlaceOnEventList →
    queues (rt s') !! c_queue c = Some q → avail (api_dir (c_api c)) q <= held_back (api_dir (c_api c)) q) →
  (∀ t', is_Some (tasks (k_of s') !! t') → mutexes (k_of s') t' = Z.of_nat (size (held s' t'))) →
  Inv idle t s'.
Proof.
  intros K Hq Hown Hsus Hlocks Hrun Hwait Hwake Hseen Hmut.
  assert (dom (queues (rt s')) = dom (queues (rt s))) as Hdom.
  { apply set_eq. intros x. rewrite !elem_of_dom. pose proof (Hq x) as H. inversion H; split; intros [? ?]; congruence || by eexists. }
  assert (pxCurrentTCB (k_of s') = Some t) as Hcur by (rewrite (cm_cur _ _ _ Hcalm); apply HI).
  assert (is_Some (tasks (k_of s') !! t)) as Htd.
  { destruct (kinv_cur _ _ K) as (t1 & c1 & E1 & E2). assert (t1 = t) as -> by congruence. by eexists. }
  split; try done.
  - intros x q' E. destruct (forall2_r _ _ _ _ _ Hq E) as (q & _ & F). apply F.
  - rewrite Hdom. apply HI.
  - destruct (calls s' !! idle) as [[p c]|] eqn:E; [|done]. exfalso. destruct (decide (idle = t)) as [->|Hne].
    + by destruct (Hown _ _ E).
    + rewrite Hcalls, (v_idle _ _ _ HI) in E by done. done.
  - intros t' p c E. destruct (decide (t' = t)) as [->|Hne]; [split; [done|by apply Hown]|].
    rewrite Hcalls in E by done. destruct (v_call _ _ _ HI _ _ _ E) as (Ht' & q & E' & Hok). split; [by apply Hcalm|].
    destruct (forall2_l _ _ _ _ _ Hq E') as (q' & E2 & F). exists q'. split; [done|]. by eapply call_ok_frame.
  - intros t' p c E Hne. rewrite Hcalls in E by done. by eapply (v_other _ _ _ HI).
  - intros t' d x Hw. destruct (decide (t' = t)) as [->|Hne]; [by apply Hwait|].
    rewrite Hcalls by done. apply HI. by apply waiting_back.
  - intros x q' h E Hh. destruct (decide (h = t)) as [->|Hne]; [done|].
    destruct (forall2_r _ _ _ _ _ Hq E) as (q & E' & F). apply (qf_holder _ _ _ F) in Hh; [|done].
    apply Hcalm. by eapply (v_holder _ _ _ HI).
Qed.
End step.

(** *** The bound on what waiting tasks could take *)

(** [L] are the claimants that leave, [G] those that come. *)
Lemma wake_gen s s' d x q q' (L G : gset task) :
  avail d q <= Z.of_nat (size (claimants s d x)) + held_back d q →
  claimants s d x ∖ L ∪ G ⊆ claimants s' d x → G ## claimants s d x →
  avail d q' - held_back d q' + Z.of_nat (size L) <= avail d q - held_back d q + Z.of_nat (size G) →
  avail d q' <= Z.of_nat (size (claimants s' d x)) + held_back d q'.
Proof.
  intros Hw Hsub Hdis Hle. apply subseteq_size in Hsub. rewrite size_union in Hsub by set_solver.
  assert (size (claimants s d x) <= size (claimants s d x ∖ L) + size L)%nat; [|lia].
  rewrite Nat.add_comm. pose proof (size_union_alt L (claimants s d x)) as E.
  pose proof (subseteq_size (claimants s d x) (L ∪ claimants s d x) ltac:(set_solver)). lia.
Qed.

Lemma held_spec s t x : x ∈ held s t ↔ ∃ q, queues (rt s) !! x = Some q ∧ holder q = Some t.
Proof.
  unfold held. rewrite elem_of_dom. split.
  - intros [q [E H]%map_lookup_filter_Some]. by exists q.
  - intros (q & E & H). exists q. by apply map_lookup_filter_Some.
Qed.

(** The mutexes of a task after queue [x] has changed. *)
Lemma held_insert s s' x q' t : queues (rt s') = <[x := q']> (queues (rt s)) →
  ∀ y, y ∈ held s' t ↔ (y = x ∧ holder q' = Some t) ∨ (y ≠ x ∧ y ∈ held s t).
Proof.
  intros E y. rewrite !held_spec, E. setoid_rewrite lookup_insert_Some. split; cbn.
  - intros (q & [[-> ->]|[N1 N2]] & Hh); [by left|right]. split; [done|eauto].
  - intros [[-> Hh]|[Hne (q & N & Hh)]]; [exists q'|exists q]; split; auto.
Qed.

Lemma held_same s s' x q q' t :
  queues (rt s) !! x = Some q → queues (rt s') = <[x := q']> (queues (rt s)) → holder q' = holder q → held s' t = held s t.
Proof.
  intros Eq E H. apply set_eq. intros y. rewrite (held_insert s s' x q' t E y), !held_spec, H. split.
  - intros [[-> ?]|[_ ?]]; eauto.
  - intros (q0 & Hy & ?). destruct (decide (y = x)) as [->|]; [left; split; congruence|right; eauto].
Qed.

Section local.
Variable (idle t : task) (s : sys) (k' : kernel) (x : positive) (q q' : Queue_t) (o' : option (pc * call)).
Let s' := Sys (Rtos k' (<[x := q']> (queues (rt s)))) (partial_alter (λ _, o') t (calls s)).
Hypothesis HI : Inv idle t s.
Hypothesis Hq : queues (rt s) !! x = Some q.
Hypothesis HK : KInv idle k'.
Hypothesis Hcalm : calm_but (Some t) (k_of s) k'.
Hypothesis Hframe : qframe t q q'.

Lemma local_calls t' : t' ≠ t → calls s' !! t' = calls s !! t'.
Proof. intros Hne. simpl. by rewrite lookup_partial_alter_ne. Qed.

Lemma local_own : calls s' !! t = o'.
Proof. simpl. by rewrite lookup_partial_alter_eq. Qed.

(** What a change of one queue and of the call of the running task has to show. *)
Lemma local_step :
  (∀ p c, o' = Some (p, c) → t ≠ idle ∧ ∃ q, queues (rt s') !! c_queue c = Some q ∧ call_ok t p c q) →
  vars k' uxSchedulerSuspended = match o' with Some (p, _) => if in_section p then 1 else 0 | None => 0 end →
  (∀ x1 q1, x1 ≠ x → locks_ok (calls s !! t) x1 q1 → locks_ok o' x1 q1) → locks_ok o' x q' →
  (vars k' uxSchedulerSuspended ≠ 0 ∨ vars k' pendSV = 0 →
    (∃ p c, o' = Some (p, c) ∧ blocked_pc p = true) ∨ ready k' t) →
  (∀ d x, waiting k' t = Some (wlist d x) →
    ∃ p c, o' = Some (p, c) ∧ api_dir (c_api c) = d ∧ c_queue c = x ∧ may_wait_pc p = true) →
  (∀ d x1, x1 ≠ x → waiting k' t = Some (wlist d x1) → waiting (k_of s) t = Some (wlist d x1)) →
  (∀ d x1, x1 ≠ x → t ∈ claimants s d x1 → t ∈ claimants s' d x1) →
  (∀ d, (∃ t', waiting k' t' = Some (wlist d x)) → avail d q' <= Z.of_nat (size (claimants s' d x)) + held_back d q') →
  (∀ p c q, o' = Some (p, c) → p = Inherit ∨ p = PlaceOnEventList →
    queues (rt s') !! c_queue c = Some q → avail (api_dir (c_api c)) q <= held_back (api_dir (c_api c)) q) →
  (∀ t', is_Some (tasks k' !! t') → mutexes k' t' = Z.of_nat (size (held s' t'))) →
  Inv idle t s'.
Proof.
  intros Hown Hsus Hlocks Hlock Hrun Hwait Hback Hclaim Hwake Hseen Hmut.
  eapply (Inv_intro idle t s s' HI Hcalm local_calls); rewrite ?local_own; try done.
  - intros y. simpl. destruct (decide (y = x)) as [->|Hne].
    + rewrite lookup_insert_eq, Hq. by constructor.
    + rewrite lookup_insert_ne by done. destruct (queues (rt s) !! y) as [qy|] eqn:Ey; constructor.
      apply qframe_refl. by eapply (v_queue _ _ _ HI).
  - intros y qy Ey. simpl in Ey. apply lookup_insert_Some in Ey as [[<- <-]|[Hne Ey]]; [done|].
    apply Hlocks; [done|]. by apply (v_locks _ _ _ HI).
  - intros d y qy Ey [t' Hw]. simpl in Ey. apply lookup_insert_Some in Ey as [[<- <-]|[Hne Ey]]; [apply Hwake; eauto|].
    apply (wake_gen s s' d y qy qy ∅ ∅).
    + apply (v_wake _ _ _ HI); [done|]. exists t'. destruct (decide (t' = t)) as [->|Hnt]; [by apply Hback|].
      by apply (waiting_back t s s' Hcalm).
    + intros t1 [[H1 _]%elem_of_difference|H1%not_elem_of_empty]%elem_of_union; [|done]. destruct (decide (t1 = t)) as [->|Hnt]; [by apply Hclaim|].
      apply (claimants_others t s s' Hcalm local_calls). apply elem_of_difference. split; [done|]. by apply not_elem_of_singleton.
    + set_solver.
    + lia.
Qed.

(** The bound for queue [x]: [lost] tells whether the running task has stopped
    being about to try, [G] are tasks that were released. *)
Lemma local_wake d (lost : bool) (G : gset task) :
  (waiting k' t = Some (wlist d x) → waiting (k_of s) t = Some (wlist d x)) →
  (lost = false → t ∈ claimants s d x → t ∈ claimants s' d x) →
  (∀ t1, t1 ∈ G → waiting (k_of s) t1 = Some (wlist d x) ∧ t1 ∈ claimants s' d x) →
  avail d q' - held_back d q' + (if lost then 1 else 0) <= avail d q - held_back d q + Z.of_nat (size G) →
  (∃ t', waiting k' t' = Some (wlist d x)) →
  avail d q' <= Z.of_nat (size (claimants s' d x)) + held_back d q'.
Proof.
  clear HK Hframe. intros Hback Hkeep HG Hle [t' Hw].
  apply (wake_gen s s' d x q q' (if lost then {[ t ]} else ∅) G).
  - apply (v_wake _ _ _ HI); [done|]. exists t'. destruct (decide (t' = t)) as [->|Hne]; [by apply Hback|].
    by apply (waiting_back t s s' Hcalm).
  - intros t1 [[H1 H2]%elem_of_difference|H1]%elem_of_union; [|by apply HG].
    destruct (decide (t1 = t)) as [->|Hnt]; [destruct lost; [set_solver|by apply Hkeep]|].
    apply (claimants_others t s s' Hcalm local_calls). apply elem_of_difference. split; [done|]. by apply not_elem_of_singleton.
  - intros t1 H1 H2. destruct (HG t1 H1) as [H3 _]. by apply (waiting_no_claimant s d x t1).
  - destruct lost; rewrite ?size_singleton, ?size_empty; lia.
Qed.
End local.
