(* ===== verification/RtosQueueSteps.v ===== *)
(** * Every step keeps the invariant

    The steps of RtosQueueSystem.v one by one: each runs to its end, keeps the
    invariant of RtosQueueInv.v, and tells about the queues what has become of
    them. *)

From Stdlib Require Import ZArith Lia.
From stdpp Require Import gmap.
From S2P Require Import Prelude RtosList RtosListSpec RtosKernel RtosKernelSpec RtosTime RtosSched RtosBoot RtosSafety RtosServices RtosQueue RtosQueueKernel RtosQueueData RtosQueueSystem RtosQueueInv.
Local Open Scope Z_scope.
Local Open Scope pim_scope.

Definition agrees (e : option event) (s s' : sys) : Prop :=
  match e with Some e => spec_event e (abs s) = Some (abs s') | None => abs s' = abs s end.

Definition next_call (n : next) : option (pc * call) := match n with Go p c => Some (p, c) | Return _ => None end.

(** ** Rules for the state *)

Lemma wp_on_rt {A} (m : R A) (Q : A → sys → Prop) s :
  wp m (λ a r, Q a (Sys r (calls s))) (rt s) → wp (on_rt m) Q s.
Proof. unfold wp, on_rt. by destruct (m (rt s)) as [[a r]|]. Qed.

Lemma wp_on_rt_kernel {A} (m : K A) (Q : A → sys → Prop) s :
  wp m (λ a k, Q a (Sys (Rtos k (queues (rt s))) (calls s))) (k_of s) → wp (on_rt (on_kernel m)) Q s.
Proof. intros H. by apply wp_on_rt, wp_on_kernel. Qed.

Lemma wp_running idle t s (Q : task → sys → Prop) : Inv idle t s → Q t s → wp running_task Q s.
Proof.
  intros HI H. apply wp_on_rt_kernel. eapply wp_current; [apply HI|]. by destruct s as [[]].
Qed.

Lemma wp_step idle t s p c (Q : option event → sys → Prop) :
  Inv idle t s → calls s !! t = Some (p, c) →
  wp (call_step p c) (λ n r, Q (event_of t p c n) (Sys r (partial_alter (λ _, next_call n) t (calls s)))) (rt s) →
  wp (sys_step Step) Q s.
Proof.
  intros HI E H. apply wp_bind. eapply wp_running; [done|]. apply wp_bind, wp_gets. rewrite E. apply wp_bind, wp_ret.
  apply wp_bind, wp_on_rt. eapply wp_mono; [exact H|]. intros n r HQ. apply wp_bind, wp_modify, wp_ret. exact HQ.
Qed.

(** ** The running task *)

Section running.
Variable (idle t : task) (s : sys) (p : pc) (c : call) (q : Queue_t).
Hypothesis HI : Inv idle t s.
Hypothesis Hcall : calls s !! t = Some (p, c).
Hypothesis Hq : queues (rt s) !! c_queue c = Some q.

Lemma not_idle : t ≠ idle.
Proof. intros ->. pose proof (v_idle _ _ _ HI). congruence. Qed.

Lemma own_ok : call_ok t p c q.
Proof. destruct (v_call _ _ _ HI _ _ _ Hcall) as (_ & q0 & E & H). by simplify_eq. Qed.

Lemma own_suspended : vars (k_of s) uxSchedulerSuspended = if in_section p then 1 else 0.
Proof. rewrite (v_suspended _ _ _ HI), Hcall. done. Qed.

Lemma own_ready : blocked_pc p = false → in_section p = true ∨ vars (k_of s) pendSV = 0 → ready (k_of s) t.
Proof.
  intros Hb Hor. destruct (v_running _ _ _ HI) as [(p0 & c0 & E & ?)|?]; [|congruence|done].
  destruct Hor as [E|?]; [left|by right]. rewrite own_suspended, E. done.
Qed.

Lemma own_waiting : blocked_pc p = false → in_section p = true ∨ vars (k_of s) pendSV = 0 → waiting (k_of s) t = None.
Proof. intros Hb Hor. eapply ready_waits; [apply HI|]. by apply own_ready. Qed.

Lemma own_lock x1 q1 : x1 ≠ c_queue c → locks_ok (calls s !! t) x1 q1 → cTxLock q1 = queueUNLOCKED ∧ cRxLock q1 = queueUNLOCKED.
Proof. intros Hne. rewrite Hcall. simpl. by rewrite bool_decide_eq_false_2 by congruence. Qed.

Lemma other_lock o' x1 q1 :
  (∀ p' c', o' = Some (p', c') → c_queue c' = c_queue c) →
  x1 ≠ c_queue c → locks_ok (calls s !! t) x1 q1 → locks_ok o' x1 q1.
Proof.
  intros Ho Hne H. destruct (own_lock x1 q1 Hne H) as [E1 E2]. destruct o' as [[p' c']|]; [|by split].
  simpl. rewrite bool_decide_eq_false_2 by (rewrite (Ho p' c'); congruence). done.
Qed.

Lemma own_claim d x1 : t ∈ claimants s d x1 → claiming p = true ∧ api_dir (c_api c) = d ∧ c_queue c = x1.
Proof. intros (p0 & c0 & E & ? & ? & ? & _)%claimant_elim. by simplify_eq. Qed.

(** The running task moves on and changes one queue. *)
Lemma own_step k' q' o' :
  let s' := Sys (Rtos k' (<[c_queue c := q']> (queues (rt s)))) (partial_alter (λ _, o') t (calls s)) in
  KInv idle k' → calm_but (Some t) (k_of s) k' → qframe t q q' →
  (∀ p' c', o' = Some (p', c') → api_dir (c_api c') = api_dir (c_api c) ∧ c_queue c' = c_queue c ∧ call_ok t p' c' q') →
  vars k' uxSchedulerSuspended = match o' with Some (p, _) => if in_section p then 1 else 0 | None => 0 end →
  locks_ok o' (c_queue c) q' →
  (vars k' uxSchedulerSuspended ≠ 0 ∨ vars k' pendSV = 0 →
    (∃ p c, o' = Some (p, c) ∧ blocked_pc p = true) ∨ ready k' t) →
  (∀ d x, waiting k' t = Some (wlist d x) → d = api_dir (c_api c) ∧ x = c_queue c ∧
    ∃ p' c', o' = Some (p', c') ∧ may_wait_pc p' = true) →
  (∀ d, (∃ t', waiting k' t' = Some (wlist d (c_queue c))) →
    avail d q' <= Z.of_nat (size (claimants s' d (c_queue c))) + held_back d q') →
  (∀ p' c', o' = Some (p', c') → p' = Inherit ∨ p' = PlaceOnEventList →
    avail (api_dir (c_api c)) q' <= held_back (api_dir (c_api c)) q') →
  (∀ t', is_Some (tasks k' !! t') → mutexes k' t' = Z.of_nat (size (held s' t'))) →
  Inv idle t s'.
Proof.
  intros s' HK Hcalm Hf Ho Hsus Hlock Hrun Hwait Hwake Hseen Hmut.
  apply (local_step idle t s k' (c_queue c) q q' o' HI Hq HK Hcalm Hf); try done.
  - intros p' c' E. split; [apply not_idle|]. destruct (Ho _ _ E) as (_ & Ex & Hc). exists q'. split; [|done].
    rewrite Ex. apply lookup_insert_eq.
  - intros x1 q1. apply other_lock. intros p' c' E. by destruct (Ho _ _ E) as (_ & ? & _).
  - intros d x Hw. destruct (Hwait d x Hw) as (-> & -> & p' & c' & E & ?). destruct (Ho _ _ E) as (? & ? & _). eauto 10.
  - intros d x1 Hne Hw. by destruct (Hwait d x1 Hw) as (_ & ? & _).
  - intros d x1 Hne Hc. destruct (own_claim _ _ Hc) as (_ & _ & ?). congruence.
  - intros p' c' q1 E Hp Hq1. destruct (Ho _ _ E) as (Ed & Ex & _). rewrite Ex in Hq1. simpl in Hq1.
    rewrite lookup_insert_eq in Hq1. simplify_eq. rewrite Ed. by eapply Hseen.
Qed.

(** Only the place of the call changes. *)
Lemma pc_move o' :
  let s' := Sys (rt s) (partial_alter (λ _, o') t (calls s)) in
  blocked_pc p = false → in_section p = true ∨ vars (k_of s) pendSV = 0 →
  (∀ p' c', o' = Some (p', c') → c_api c' = c_api c ∧ c_queue c' = c_queue c ∧ call_ok t p' c' q) →
  in_section p = match o' with Some (p', _) => in_section p' | None => false end →
  locked_tx p = match o' with Some (p', _) => locked_tx p' | None => false end →
  locked_rx p = match o' with Some (p', _) => locked_rx p' | None => false end →
  (claiming p = true → match o' with Some (p', _) => claiming p' = true | None => False end ∨
    avail (api_dir (c_api c)) q <= 0) →
  (∀ p' c', o' = Some (p', c') → p' = Inherit ∨ p' = PlaceOnEventList →
    avail (api_dir (c_api c)) q <= held_back (api_dir (c_api c)) q) →
  Inv idle t s'.
Proof.
  intros s' Hb Hor Ho Hsec Htx Hrx Hcl Hseen.
  assert (s' = Sys (Rtos (k_of s) (<[c_queue c := q]> (queues (rt s)))) (partial_alter (λ _, o') t (calls s))) as Es.
  { unfold s'. rewrite insert_id by done. by destruct (rt s). }
  pose proof (own_waiting Hb Hor) as Hw. pose proof (own_ready Hb Hor) as Hr. rewrite Es.
  apply own_step; try done.
  - apply HI.
  - apply qframe_refl. by eapply (v_queue _ _ _ HI).
  - intros p' c' E. destruct (Ho _ _ E) as (Ea & ? & ?). by rewrite Ea.
  - rewrite own_suspended, Hsec. by destruct o' as [[]|].
  - pose proof (v_locks _ _ _ HI _ _ Hq) as Hl. rewrite Hcall in Hl. simpl in Hl.
    rewrite bool_decide_eq_true_2 in Hl by done. simpl in Hl. rewrite Htx, Hrx in Hl.
    destruct o' as [[p' c']|]; [|done]. simpl. rewrite bool_decide_eq_true_2; [done|]. by destruct (Ho _ _ eq_refl) as (_ & ? & _).
  - auto.
  - intros d x E. congruence.
  - intros d Hex. destruct (decide (d = api_dir (c_api c) ∧ claiming p = true)) as [[-> Hp]|Hn].
    + destruct (Hcl Hp) as [Hc|Hz]; [|unfold held_back; lia]. destruct o' as [[p' c']|] eqn:Eo; [|done].
      eapply (local_wake idle t s (k_of s) (c_queue c) q q (Some (p', c')) HI Hq (calm_refl _ _) _ false ∅); [done| |set_solver|rewrite size_empty; lia|done].
      intros _ _. destruct (Ho _ _ eq_refl) as (Ea & Ex & _). rewrite <-Ea, <-Ex.
      apply (claimant_intro _ t p' c'); [simpl; by rewrite lookup_partial_alter_eq|done|]. simpl. by rewrite Hw.
    + eapply (local_wake idle t s (k_of s) (c_queue c) q q o' HI Hq (calm_refl _ _) _ false ∅); [done| |set_solver|rewrite size_empty; lia|done].
      intros _ H. destruct (own_claim _ _ H) as (? & ? & _). by destruct Hn.
  - intros t' Ht'. rewrite (v_mutexes _ _ _ HI t' Ht'). do 2 f_equal. symmetry. by eapply held_same.
Qed.
End running.

(** ** How a call goes on *)

Lemma call_ok_go t p p' c q :
  call_ok t p c q → p ≠ Section_ → p ≠ CountUp → p' ≠ CountUp → p' ≠ DisinheritAfterTimeout →
  (p' = TestQueue ∨ p' = Inherit ∨ p' = PlaceOnEventList → 0 < xTicksToWait c) →
  (p' = Inherit → is_mutex q = true ∧ is_take (c_api c) = true) →
  (gave_up p' = true → gave_up p = true ∨ is_mutex q = false ∨ xTicksToWait c ≠ portMAX_DELAY) →
  call_ok t p' c q.
Proof.
  intros [T Ti W A I J C D] N1 N2 N3 N4 Hw Hi Hg. split; try done.
  - intros _ _. by apply Ti.
  - destruct (c_api c); [|done|done|].
    + destruct A as [? A]. split; [done|]. intros Hm. by destruct (A Hm).
    + destruct A as (? & ? & A). split_and!; [done|done|]. intros Hm. destruct (A Hm) as [[E G]|[_ [?|?]]]; [|done|done].
      left. split; [done|]. destruct (gave_up p'); [|done]. destruct (Hg eq_refl) as [?|[?|?]]; congruence.
Qed.

Lemma call_ok_ticks t p c q o n :
  call_ok t p c q → p ≠ Section_ → p ≠ CountUp → 0 <= n < EPOCH → (xTicksToWait c = portMAX_DELAY → n = portMAX_DELAY) →
  (p = TestQueue ∨ p = Inherit ∨ p = PlaceOnEventList → 0 < n) → call_ok t p (with_ticks o n c) q.
Proof.
  intros [T Ti W A I J C D] N1 N2 Hn Hmax Hw. split; simpl; try done.
  - destruct (c_api c); [done..|]. destruct A as (? & ? & A). split_and!; [done|done|]. intros Hm.
    destruct (A Hm) as [[E G]|[_ [?|?]]]; [left; auto|done|done].
  - intros E. destruct (I E) as (? & ? & ?). auto.
Qed.

Lemma call_ok_inherit t c q b : call_ok t Inherit c q → call_ok t Inherit (with_inheritance b c) q.
Proof.
  intros [T Ti W A I J C D]. split; simpl; try done. intros _. destruct (J eq_refl) as [Hm Ht]. split_and!; [done|done|].
  destruct (c_api c); try done. destruct A as (_ & _ & A). destruct (A Hm) as [[? _]|[_ [?|?]]]; done.
Qed.

(** A mutex is not given again by a call that has to wait. *)
Lemma call_ok_not_section t p c q : call_ok t p c q → p ≠ Section_ → is_mutex q = true → is_take (c_api c) = true.
Proof. intros [_ _ _ A _ _ _ _] N Hm. destruct (c_api c); [|congruence|congruence|done]. by destruct (proj2 A Hm). Qed.

(** ** What steps tell *)

Lemma abs_insert s s' x q' :
  queues (rt s') = <[x := q']> (queues (rt s)) → abs s' = <[x := abs_queue q']> (abs s).
Proof. intros E. unfold abs. by rewrite E, fmap_insert. Qed.

Lemma abs_lookup s x q : queues (rt s) !! x = Some q → abs s !! x = Some (abs_queue q).
Proof. intros E. unfold abs. by rewrite lookup_fmap, E. Qed.

Lemma abs_same s s' x q q' :
  queues (rt s) !! x = Some q → queues (rt s') = <[x := q']> (queues (rt s)) → abs_queue q' = abs_queue q → abs s' = abs s.
Proof. intros E E' H. rewrite (abs_insert s s' x q' E'), H. apply insert_id. by apply abs_lookup. Qed.

(** A queue that only differs in its locks or in the count of a recursive mutex. *)
Record alike (q q' : Queue_t) : Prop := {
  al_ok : queue_ok q';
  al_length : uxLength q' = uxLength q;
  al_size : uxItemSize q' = uxItemSize q;
  al_mutex : is_mutex q' = is_mutex q;
  al_holder : holder q' = holder q;
  al_messages : uxMessagesWaiting q' = uxMessagesWaiting q;
  al_abs : abs_queue q' = abs_queue q
}.

Lemma alike_refl q : queue_ok q → alike q q.
Proof. by split. Qed.

Lemma alike_frame t q q' : alike q q' → qframe t q q'.
Proof. intros [? ? ? ? H ? ?]. split; try done. intros h _. by rewrite H. Qed.

Lemma alike_avail d q q' : alike q q' → avail d q' = avail d q.
Proof. intros [_ L _ _ _ M _]. destruct d; simpl; by rewrite ?L, M. Qed.

Lemma alike_call t p c q q' : alike q q' → call_ok t p c q → call_ok t p c q'.
Proof. intros [? ? ? ? ? ? ?]. by apply call_ok_refl_queue. Qed.

Lemma alike_ring q q' :
  area q' = area q → uxLength q' = uxLength q → uxItemSize q' = uxItemSize q → ∀ r n, ring q' r n = ring q r n.
Proof. intros A L Sz r n. unfold ring, slot. by rewrite A, L, Sz. Qed.

(** The locks change. *)
Definition with_locks (rx tx : Z) (q : Queue_t) : Queue_t :=
  Queue (use q) (area q) (pcWriteTo q) (uxMessagesWaiting q) (uxLength q) (uxItemSize q) rx tx.

Lemma alike_locks rx tx q : queue_ok q → -1 <= rx <= 127 → -1 <= tx <= 127 → alike q (with_locks rx tx q).
Proof.
  intros [L M X Tx U] Hr Ht. split; try done. split; try done. simpl. destruct (use q); [|done].
  destruct U as [?|[S A Tl Rd]]; [by left|right]. by split.
Qed.
