(* ===== verification/RtosQueueMoves.v ===== *)
(** * A call on its way to block and back

    The steps of a call of queue.c between its critical sections: it locks the
    queue, looks whether it still has to wait, puts itself in the list of
    waiting tasks, and unlocks. *)

From Stdlib Require Import ZArith Lia.
From stdpp Require Import gmap.
From S2P Require Import Prelude RtosList RtosListSpec RtosKernel RtosKernelSpec RtosTime RtosSched RtosBoot RtosSafety RtosServices RtosQueue RtosQueueKernel RtosQueueData RtosQueueSystem RtosQueueInv RtosQueueSteps.
Local Open Scope Z_scope.
Local Open Scope pim_scope.

(** What every step of the running task [t] has to establish. *)
Definition kept (idle t : task) (s : sys) (e : option event) (s' : sys) : Prop := Inv idle t s' ∧ agrees e s s'.

Lemma rtos_eta r : Rtos (kern r) (queues r) = r.
Proof. by destruct r. Qed.

Section moves.
Variable (idle t : task) (s : sys) (c : call) (q : Queue_t).
Hypothesis Hq : queues (rt s) !! c_queue c = Some q.
Hypothesis Hpend : vars (k_of s) pendSV = 0.

Lemma step_check_time_out :
  Inv idle t s → calls s !! t = Some (CheckForTimeOut, c) → wp (sys_step Step) (kept idle t s) s.
Proof.
  intros HI Hc. pose proof (own_ok _ _ _ _ _ _ HI Hc Hq) as Hok.
  destruct (co_timeout _ _ _ _ Hok) as [o Ho]; [done..|].
  eapply wp_step; [done..|]. simpl. apply wp_bind. eapply wp_lift_opt; [done|]. apply wp_bind, wp_on_kernel.
  eapply wp_mono; [apply k_check_time_out, Hok|]. intros [[expired o'] n] k' [-> (Hn & Hpos & Hmax)].
  apply wp_ret. split; [|by destruct expired]. simpl. rewrite rtos_eta.
  apply (pc_move idle t s CheckForTimeOut c q HI Hc Hq); try done; [by left| |by destruct expired..|].
  - intros p' c' E. destruct expired; injection E as <- <-; (split_and!; [done|done|]).
    + apply call_ok_ticks; try done; [|intros Em; destruct (Hmax Em) as [_ ->]; exact Em|by intros [|[]]].
      eapply call_ok_go; try done; [by intros [|[]]|]. intros _. right; right. intros E. by destruct (Hmax E).
    + eapply call_ok_go; try (eapply call_ok_ticks; [exact Hok|..]); try done; [intros Em; destruct (Hmax Em) as [_ ->]; exact Em|by intros [|[]]|]. intros _. by apply Hpos.
  - intros p' c' E [->| ->]; by destruct expired.
Qed.

Lemma step_test_queue :
  Inv idle t s → calls s !! t = Some (TestQueue, c) → wp (sys_step Step) (kept idle t s) s.
Proof.
  intros HI Hc. pose proof (own_ok _ _ _ _ _ _ HI Hc Hq) as Hok. pose proof (v_queue _ _ _ HI _ _ Hq) as Hqok.
  eapply wp_step; [done..|]. simpl. apply wp_bind.
  assert (wp (must_wait c) (λ b r, r = rt s ∧ (b = true → avail (api_dir (c_api c)) q = 0)) (rt s)) as Hw.
  { unfold must_wait. destruct (c_api c); (apply wp_bind; eapply wp_queue; [done|apply wp_ret; split; [done|]]; simpl;
      intros H%Z.eqb_eq; lia). }
  eapply wp_mono; [exact Hw|]. intros b r [-> Hb]. apply wp_bind. eapply wp_queue; [done|]. apply wp_ret.
  set (n := if b then _ else _). split; [|by destruct b]. simpl.
  apply (pc_move idle t s TestQueue c q HI Hc Hq); try done; [by left| |by subst n; destruct b, (is_take (c_api c) && is_mutex q)..|].
  - intros p' c' E. pose proof (co_waits _ _ _ _ Hok (or_introl eq_refl)) as Ht.
    assert (c' = c ∧ (p' = UnlockTx ToRetry ∨ p' = PlaceOnEventList ∨ p' = Inherit ∧ is_take (c_api c) && is_mutex q = true)) as [-> Hp'].
    { subst n. destruct b; [destruct (is_take (c_api c) && is_mutex q)|]; injection E as <- <-; auto. }
    split_and!; [done|done|]. rewrite andb_true_iff in Hp'.
    eapply call_ok_go; try done; naive_solver.
  - intros p' c' E Hp'. subst n. unfold held_back. destruct b; [rewrite Hb by done; lia|]. injection E as <- <-. by destruct Hp'.
Qed.

Lemma step_test_again :
  Inv idle t s → calls s !! t = Some (TestAgain, c) → wp (sys_step Step) (kept idle t s) s.
Proof.
  intros HI Hc. pose proof (own_ok _ _ _ _ _ _ HI Hc Hq) as Hok. pose proof (v_queue _ _ _ HI _ _ Hq) as Hqok.
  eapply wp_step; [done..|]. simpl. unfold prvIsQueueEmpty. apply wp_bind, wp_bind. eapply wp_queue; [done|]. apply wp_ret, wp_ret.
  assert (is_mutex q = false ∨ is_take (c_api c) = false) as Hno.
  { destruct (is_mutex q) eqn:Hm; [right|by left]. pose proof (co_api _ _ _ _ Hok) as A.
    destruct (c_api c); try done. destruct A as (_ & _ & A). by destruct (A Hm) as [[_ ?]|[_ [?|?]]]. }
  assert (is_take (c_api c) && xInheritanceOccurred c = false) as ->.
  { destruct (xInheritanceOccurred c) eqn:Ei; [|apply andb_false_r]. destruct (co_inherited _ _ _ _ Hok Ei) as (? & ? & _).
    destruct Hno; congruence. }
  destruct (Z.eqb_spec (uxMessagesWaiting q) 0) as [Em|Em].
  - split; simpl.
    + apply (pc_move idle t s TestAgain c q HI Hc Hq); try done. by right.
    + rewrite (abs_lookup _ _ _ Hq). unfold abs_queue. destruct Hqok as [_ _ _ _ U]. destruct (use q) as [|h n] eqn:Hu.
      * unfold contents. rewrite Em, Hu. by destruct (uxItemSize q =? 0).
      * destruct U as (_ & _ & U). destruct h; [done|]. destruct U as [U _]. by rewrite U in Em.
  - split; [|done]. simpl.
    apply (pc_move idle t s TestAgain c q HI Hc Hq); try done; [by right| |].
    + intros p' c' [= <- <-]. split_and!; [done|done|]. eapply call_ok_go; try done; naive_solver.
    + intros p' c' [= <- <-] [|]; done.
Qed.

(** *** Steps that change the kernel or the locks *)

Lemma own_alike p k' q' o' :
  let s' := Sys (Rtos k' (<[c_queue c := q']> (queues (rt s)))) (partial_alter (λ _, o') t (calls s)) in
  Inv idle t s → calls s !! t = Some (p, c) →
  KInv idle k' → calm_but (Some t) (k_of s) k' → alike q q' → (∀ t', mutexes k' t' = mutexes (k_of s) t') →
  (∀ p' c', o' = Some (p', c') → c_api c' = c_api c ∧ c_queue c' = c_queue c ∧ call_ok t p' c' q) →
  vars k' uxSchedulerSuspended = match o' with Some (p', _) => if in_section p' then 1 else 0 | None => 0 end →
  (locked (match o' with Some (p', _) => locked_tx p' | None => false end) (cTxLock q') ∧
    locked (match o' with Some (p', _) => locked_rx p' | None => false end) (cRxLock q')) →
  (vars k' uxSchedulerSuspended ≠ 0 ∨ vars k' pendSV = 0 →
    (∃ p' c', o' = Some (p', c') ∧ blocked_pc p' = true) ∨ ready k' t) →
  (∀ d x, waiting k' t = Some (wlist d x) → d = api_dir (c_api c) ∧ x = c_queue c ∧
    ∃ p' c', o' = Some (p', c') ∧ may_wait_pc p' = true) →
  (∀ d, (∃ t', waiting k' t' = Some (wlist d (c_queue c))) →
    avail d q' <= Z.of_nat (size (claimants s' d (c_queue c))) + held_back d q') →
  (∀ p' c', o' = Some (p', c') → p' = Inherit ∨ p' = PlaceOnEventList →
    avail (api_dir (c_api c)) q' <= held_back (api_dir (c_api c)) q') →
  Inv idle t s' ∧ abs s' = abs s.
Proof.
  intros s' HI Hc HK Hcalm Ha Hm Ho Hsus Hlock Hrun Hwait Hwake Hseen. split.
  - apply (own_step idle t s p c q HI Hc Hq); try done.
    + by apply alike_frame.
    + intros p' c' E. destruct (Ho _ _ E) as (Ea & ? & Hok). split_and!; [by rewrite Ea|done|by eapply alike_call].
    + destruct o' as [[p' c']|]; [|done]. simpl. destruct (Ho _ _ eq_refl) as (_ & -> & _). by rewrite bool_decide_eq_true_2.
    + intros t' Ht'. rewrite Hm. apply (cm_dom _ _ _ Hcalm) in Ht'. rewrite (v_mutexes _ _ _ HI _ Ht'). do 2 f_equal. symmetry.
      eapply held_same; [exact Hq|done|apply Ha].
  - eapply abs_same; [exact Hq|done|apply Ha].
Qed.

(** Where the task is with the call before it waits, and what it knows there. *)
Lemma own_place p : Inv idle t s → calls s !! t = Some (p, c) →
  vars (k_of s) uxSchedulerSuspended = (if in_section p then 1 else 0) ∧
  locked (locked_tx p) (cTxLock q) ∧ locked (locked_rx p) (cRxLock q) ∧
  (blocked_pc p = false → ready (k_of s) t ∧ waiting (k_of s) t = None) ∧
  (∀ d x, waiting (k_of s) t = Some (wlist d x) → d = api_dir (c_api c) ∧ x = c_queue c ∧ may_wait_pc p = true).
Proof.
  intros HI Hc. pose proof (v_locks _ _ _ HI _ _ Hq) as Hl. rewrite Hc in Hl. simpl in Hl.
  rewrite bool_decide_eq_true_2 in Hl by done. destruct Hl as [Hl1 Hl2]. split_and!; [by eapply own_suspended|done|done|..].
  - intros Hb. split; [eapply own_ready|eapply own_waiting]; eauto.
  - intros d x Hw. destruct (v_waiting _ _ _ HI _ _ _ Hw) as (p1 & c1 & E & <- & <- & ?). by simplify_eq.
Qed.

Lemma step_suspend_all :
  Inv idle t s → calls s !! t = Some (SuspendAll, c) → wp (sys_step Step) (kept idle t s) s.
Proof.
  intros HI Hc. pose proof (own_ok _ _ _ _ _ _ HI Hc Hq) as Hok. pose proof (v_queue _ _ _ HI _ _ Hq) as Hqok.
  destruct (own_place _ HI Hc) as (Hs & Htx & Hrx & Hown & _). destruct (Hown eq_refl) as [Hr Hw].
  eapply wp_step; [done..|]. simpl. apply wp_bind, wp_on_kernel.
  eapply wp_mono; [eapply k_suspend_all; [apply HI|exact Hs]|]. intros _ k' (K & C & M & S & P). apply wp_ret.
  replace (queues (rt s)) with (<[c_queue c := q]> (queues (rt s))) by by apply insert_id.
  assert (waiting k' t = None) as Hw' by (eapply ready_waits; [done|by apply C]).
  apply (own_alike SuspendAll); try done.
  - by apply calm_weaken.
  - intros p' c' [= <- <-]. split_and!; [done|done|]. eapply call_ok_go; try done; naive_solver.
  - intros _. right. by apply C.
  - intros d x E. congruence.
  - intros d Hex. eapply (local_wake idle t s k' (c_queue c) q q _ HI Hq (calm_weaken _ _ _ C) d false ∅); try done.
    + by rewrite Hw'.
    + intros _ Hcl. by destruct (own_claim _ _ _ _ Hc _ _ Hcl).
  - by intros p' c' [= <- <-] [|].
Qed.

Lemma step_lock_queue :
  Inv idle t s → calls s !! t = Some (LockQueue, c) → wp (sys_step Step) (kept idle t s) s.
Proof.
  intros HI Hc. pose proof (own_ok _ _ _ _ _ _ HI Hc Hq) as Hok. pose proof (v_queue _ _ _ HI _ _ Hq) as Hqok.
  destruct (own_place _ HI Hc) as (Hs & Htx & Hrx & Hown & _). destruct (Hown eq_refl) as [Hr Hw]. simpl in Hs, Htx, Hrx.
  eapply wp_step; [done..|]. simpl. apply wp_bind.
  apply (wp_mono _ (λ _ r, r = Rtos (k_of s) (<[c_queue c := with_locks 0 0 q]> (queues (rt s))))).
  { unfold prvLockQueue. apply wp_bind. eapply wp_queue; [done|]. rewrite Htx, Hrx. simpl. apply wp_bind.
    eapply wp_update_queue; [done|]. eapply wp_update_queue; [apply lookup_insert_eq|]. simpl. by rewrite insert_insert_eq. }
  intros _ r ->. apply wp_ret.
  apply (own_alike LockQueue); try done.
  - apply HI.
  - by apply alike_locks.
  - intros p' c' [= <- <-]. split_and!; [done|done|]. eapply call_ok_go; try done; naive_solver.
  - by right.
  - intros d x E. congruence.
  - intros d Hex. eapply (local_wake idle t s (k_of s) (c_queue c) q _ _ HI Hq (calm_refl _ _) d false ∅); try done.
    + intros _ Hcl. by destruct (own_claim _ _ _ _ Hc _ _ Hcl).
    + rewrite size_empty. unfold held_back, avail. destruct d; simpl; rewrite ?Htx, ?Hrx; simpl; unfold queueUNLOCKED; lia.
  - by intros p' c' [= <- <-] [|].
Qed.

Lemma step_inherit :
  Inv idle t s → calls s !! t = Some (Inherit, c) → wp (sys_step Step) (kept idle t s) s.
Proof.
  intros HI Hc. pose proof (own_ok _ _ _ _ _ _ HI Hc Hq) as Hok. pose proof (v_queue _ _ _ HI _ _ Hq) as Hqok.
  destruct (own_place _ HI Hc) as (Hs & Htx & Hrx & Hown & _). destruct (Hown eq_refl) as [Hr Hw]. simpl in Hs, Htx, Hrx.
  destruct (co_inherit _ _ _ _ Hok eq_refl) as [Hm Ht].
  eapply wp_step; [done..|]. simpl. apply wp_bind. eapply wp_queue; [done|]. unfold is_mutex in Hm.
  destruct (use q) as [|h n] eqn:Hu; [done|]. apply wp_bind. unfold mutex. rewrite Hu. apply wp_ret.
  apply wp_bind, wp_on_kernel. eapply wp_mono; [apply (k_inherit idle); [apply HI|]|].
  { destruct h as [h|]; [|done]. assert (holder q = Some h) as Hh by (unfold holder; by rewrite Hu).
    rewrite (v_mutexes _ _ _ HI) by (by eapply (v_holder _ _ _ HI)).
    assert (c_queue c ∈ held s h) as Hin by (apply held_spec; eauto).
    apply elem_in_size in Hin. lia. }
  intros b k' [K [C M S P]]. apply wp_ret.
  replace (queues (rt s)) with (<[c_queue c := q]> (queues (rt s))) by by apply insert_id.
  assert (waiting k' t = None) as Hw' by (eapply ready_waits; [done|by apply C]).
  apply (own_alike Inherit); try done.
  - by apply calm_weaken.
  - intros t'. rewrite M. unfold none_held. lia.
  - intros p' c' [= <- <-]. split_and!; [done|done|].
    eapply call_ok_go; [by apply call_ok_inherit|..]; try done. intros _. apply Hok. auto.
  - by rewrite S.
  - intros _. right. by apply C.
  - intros d x E. congruence.
  - intros d Hex. eapply (local_wake idle t s k' (c_queue c) q q _ HI Hq (calm_weaken _ _ _ C) d false ∅); try done.
    + by rewrite Hw'.
    + intros _ Hcl. by destruct (own_claim _ _ _ _ Hc _ _ Hcl).
  - intros p' c' [= <- <-] _. apply (v_seen _ _ _ HI Inherit); auto.
Qed.

Lemma step_place_on_event_list :
  Inv idle t s → calls s !! t = Some (PlaceOnEventList, c) → wp (sys_step Step) (kept idle t s) s.
Proof.
  intros HI Hc. pose proof (own_ok _ _ _ _ _ _ HI Hc Hq) as Hok. pose proof (v_queue _ _ _ HI _ _ Hq) as Hqok.
  destruct (own_place _ HI Hc) as (Hs & Htx & Hrx & Hown & _). destruct (Hown eq_refl) as [Hr Hw]. simpl in Hs, Htx, Hrx.
  eapply wp_step; [done..|]. simpl. apply wp_bind, wp_on_kernel. rewrite waits_in_eq.
  eapply wp_mono; [eapply (k_place idle); [apply HI|apply HI|by eapply not_idle|done|]|].
  { split; [apply Hok; auto|apply Hok]. }
  intros _ k' (K & C & M & Hw' & S). apply wp_ret.
  replace (queues (rt s)) with (<[c_queue c := q]> (queues (rt s))) by by apply insert_id.
  apply (own_alike PlaceOnEventList); try done.
  - intros p' c' [= <- <-]. split_and!; [done|done|]. eapply call_ok_go; try done; naive_solver.
  - by rewrite S.
  - intros _. left. by eexists _, _.
  - intros d x E. rewrite Hw' in E. injection E as E. apply wlist_inj in E as [-> ->]. by split_and!; [..|eexists _, _].
  - intros d Hex. destruct (decide (d = api_dir (c_api c))) as [->|Hne].
    + pose proof (v_seen _ _ _ HI _ _ _ Hc (or_intror eq_refl) Hq). lia.
    + eapply (local_wake idle t s k' (c_queue c) q q _ HI Hq C d false ∅); try done.
      * rewrite Hw'. intros [= E]. apply wlist_inj in E as [? _]. congruence.
      * intros _ Hcl. by destruct (own_claim _ _ _ _ Hc _ _ Hcl).
  - by intros p' c' [= <- <-] [|].
Qed.
End moves.
