(* ===== verification/RtosQueueWake.v ===== *)
(** * Releasing tasks that wait for a queue

    What the loops of prvUnlockQueue() and the calls that unblock one task do to
    the tasks that wait, and the steps of a call from prvUnlockQueue() on. *)

From Stdlib Require Import ZArith Lia.
From stdpp Require Import gmap.
From S2P Require Import Prelude RtosList RtosListSpec RtosKernel RtosKernelSpec RtosTime RtosSched RtosBoot RtosSafety RtosServices RtosQueue RtosQueueKernel RtosQueueData RtosQueueSystem RtosQueueInv RtosQueueSteps RtosQueueMoves.
Local Open Scope Z_scope.
Local Open Scope pim_scope.

Definition nobody (d : dir) (x : positive) (k : kernel) : Prop := ∀ t, waiting k t ≠ Some (wlist d x).

(** [n] tasks that waited for [x] were released, unless none is left. *)
Record woke (idle : task) (d : dir) (x : positive) (n : nat) (k k' : kernel) : Prop := {
  wk_inv : KInv idle k';
  wk_calm : calm k k';
  wk_released : ∃ G : gset task,
    (∀ t, t ∈ G → waiting k t = Some (wlist d x) ∧ queue_free (waiting k' t)) ∧ (size G = n ∨ nobody d x k')
}.

Lemma waiting_after k k' d x t : calm k k' → waiting k' t = Some (wlist d x) → waiting k t = Some (wlist d x).
Proof. intros C Hw. destruct (cm_waits _ _ _ C t) as [E|F]; [done|congruence|by destruct (F d x)]. Qed.

Lemma queue_free_after k k' t : calm k k' → queue_free (waiting k t) → queue_free (waiting k' t).
Proof. intros C F. destruct (cm_waits _ _ _ C t) as [E|?]; [done| |done]. by rewrite E. Qed.

Lemma woke_none idle d x k : KInv idle k → items (lists k (wlist d x)) = [] → ∀ n, woke idle d x n k k.
Proof.
  intros K E n. split; [done|done|]. exists ∅. split; [set_solver|]. right. intros t Hw.
  apply waiting_list in Hw; [|by eapply kinv_inv]. rewrite E in Hw. set_solver.
Qed.

Lemma woke_zero idle d x k k' : KInv idle k' → calm k k' → woke idle d x 0 k k'.
Proof. intros K Q. split; [done|done|]. exists ∅. split; [set_solver|by left]. Qed.

Lemma woke_trans idle d x n m k k1 k' :
  woke idle d x n k k1 → woke idle d x m k1 k' → woke idle d x (n + m) k k'.
Proof.
  intros [K1 Q1 (G1 & H1 & Or1)] [K2 Q2 (G2 & H2 & Or2)]. split; [done|by etrans|].
  exists (G1 ∪ G2). split.
  - intros t [Ht|Ht]%elem_of_union.
    + destruct (H1 t Ht). split; [done|]. by eapply queue_free_after.
    + destruct (H2 t Ht). split; [by eapply waiting_after|done].
  - destruct Or2 as [E2|N2]; [|by right]. destruct Or1 as [E1|N1].
    + left. rewrite size_union, E1, E2; [done|]. intros t Ht1 Ht2. destruct (H1 t Ht1) as [_ F], (H2 t Ht2) as [W _]. by destruct (F d x).
    + right. intros t Hw. by apply (N1 t), (waiting_after k1 k').
Qed.

Lemma woke_calm idle d x n k k1 k' : woke idle d x n k k1 → KInv idle k' → calm k1 k' → woke idle d x n k k'.
Proof. intros W K Q. rewrite <-(Nat.add_0_r n). eapply woke_trans; [done|]. by apply woke_zero. Qed.

Lemma wp_is_empty l k (Q : bool → kernel → Prop) :
  (items (lists k l) = [] → Q true k) → (∀ t ts, items (lists k l) = t :: ts → Q false k) → wp (is_empty l) Q k.
Proof. intros H1 H2. apply wp_gets. case_bool_decide as E; [auto|]. destruct (items (lists k l)) eqn:El; [done|eauto]. Qed.

Lemma k_remove_woke idle d x k t ts :
  KInv idle k → items (lists k (wlist d x)) = t :: ts →
  wp (xTaskRemoveFromEventList (wlist d x)) (λ _ k', woke idle d x 1 k k' ∧ quiet k k') k.
Proof.
  intros K E. eapply wp_mono; [by eapply k_remove|]. intros b k1 (K1 & Q1 & F1). split; [|done]. split; [done|apply Q1|]. exists {[ t ]}. split.
  - intros t1 ->%elem_of_singleton. split; [|done]. apply waiting_list; [by eapply kinv_inv|]. rewrite E. by left.
  - left. apply size_singleton.
Qed.

Section loops.
Variable (idle : task) (d : dir) (x : positive).

Definition woken_up (n : nat) (r r' : rtos) : Prop :=
  ∃ k', r' = Rtos k' (queues r) ∧ woke idle d x n (kern r) k' ∧ quiet (kern r) k'.

(** If somebody waits, the first of them is released, and [m] goes on. *)
Lemma wp_first n r (m : bool → R unit) :
  KInv idle (kern r) →
  (∀ b r1, woken_up 1 r r1 → wp (m b) (λ _ r', woken_up n r r') r1) →
  wp (e ← on_kernel (is_empty (wlist d x)); if e : bool then ret tt
      else b ← on_kernel (xTaskRemoveFromEventList (wlist d x)); m b) (λ _ r', woken_up n r r') r.
Proof.
  intros K Hm. apply wp_bind, wp_on_kernel. apply wp_is_empty.
  - intros E. apply wp_ret. exists (kern r). split_and!; [done|by apply woke_none|done].
  - intros t ts E. apply wp_bind, wp_on_kernel. eapply wp_mono; [by eapply k_remove_woke|]. intros b k1 [W Q]. apply Hm. by exists k1.
Qed.

Lemma unlock_loop_ok n r :
  KInv idle (kern r) → wp (unlock_loop n (wlist d x)) (λ _ r', woken_up n r r') r.
Proof.
  revert r. induction n as [|n IH]; intros r K; simpl.
  { apply wp_ret. exists (kern r). split_and!; [by destruct r|by apply woke_zero|done]. }
  apply wp_first; [done|]. intros b r1 (k1 & -> & W1 & Q1). apply wp_bind.
  apply (wp_mono _ (λ _ r2, woken_up 1 r r2)).
  { destruct b; [|apply wp_ret; by exists k1]. apply wp_on_kernel. eapply wp_mono; [apply k_missed_yield, W1|].
    intros _ k2 [K2 Q2]. exists k2. split_and!; [done|eapply woke_calm; [done|done|apply Q2]|by etrans]. }
  intros _ r2 (k2 & -> & W2 & Q2). eapply wp_mono; [apply IH, W2|]. intros _ r3 (k3 & -> & W3 & Q3). exists k3.
  split_and!; [done|by apply (woke_trans idle d x 1 n _ k2)|by etrans].
Qed.

(** Unblocking one task in a critical section of a task. *)
Lemma unblock_one_ok r : KInv idle (kern r) → wp (unblock_one (wlist d x)) (λ _ r', woken_up 1 r r') r.
Proof.
  intros K. apply wp_first; [done|]. intros b r1 (k1 & -> & W1 & Q1). destruct b; [|apply wp_ret; by exists k1].
  apply wp_on_kernel. eapply wp_mono; [apply (k_yield idle), W1|]. intros _ k2 (K2 & Q2 & _). exists k2.
  split_and!; [done|eapply woke_calm; [done|done|apply Q2]|by etrans].
Qed.

(** And from an interrupt. *)
Lemma unblock_from_isr_ok r : KInv idle (kern r) → wp (unblock_from_isr (wlist d x)) (λ _ r', woken_up 1 r r') r.
Proof.
  intros K. unfold unblock_from_isr. apply wp_bind, wp_on_kernel. apply wp_is_empty.
  - intros E. apply wp_ret. exists (kern r). split_and!; [done|by apply woke_none|done].
  - intros t ts E. apply wp_on_kernel. eapply wp_mono; [by eapply k_remove_woke|]. intros b k1 [W Q]. by exists k1.
Qed.
End loops.

(** ** The bound after a release *)

Section bound.
Variable (idle t : task) (s : sys) (k' : kernel) (x : positive) (q q' : Queue_t) (o' : option (pc * call)).
Let s' := Sys (Rtos k' (<[x := q']> (queues (rt s)))) (partial_alter (λ _, o') t (calls s)).
Hypothesis HI : Inv idle t s.
Hypothesis Hq : queues (rt s) !! x = Some q.

(** The running task itself can be among those that are released. *)
Lemma woken_wake d n (lost : bool) :
  woke idle d x n (k_of s) k' →
  (waiting (k_of s) t = Some (wlist d x) →
    ∃ p' c', o' = Some (p', c') ∧ claiming p' = true ∧ api_dir (c_api c') = d ∧ c_queue c' = x) →
  (lost = false → t ∈ claimants s d x → t ∈ claimants s' d x) →
  avail d q' - held_back d q' + (if lost then 1 else 0) <= avail d q - held_back d q + Z.of_nat n →
  (∃ t', waiting k' t' = Some (wlist d x)) →
  avail d q' <= Z.of_nat (size (claimants s' d x)) + held_back d q'.
Proof.
  intros [K C (G & HG & Hor)] Hown Hkeep Hle [t' Hw].
  destruct Hor as [<-|N]; [|by destruct (N t')].
  eapply (local_wake idle t s k' x q q' o' HI Hq (calm_weaken _ _ _ C) d lost G); eauto using waiting_after.
  intros t1 H1. destruct (HG t1 H1) as [Hw1 F1]. split; [done|]. destruct (decide (t1 = t)) as [->|Hne].
  - destruct (Hown Hw1) as (p' & c' & -> & Hp & <- & <-). apply (claimant_intro s' t p' c'); [|done|apply F1].
    simpl. by rewrite lookup_partial_alter_eq.
  - apply (claimants_released idle t s s' HI); try done. intros t2 Ht2. simpl. by rewrite lookup_partial_alter_ne.
Qed.
End bound.

(** ** A call unlocks the queue *)

Section unlock.
Variable (idle t : task) (s : sys) (c : call) (q : Queue_t).
Hypothesis Hq : queues (rt s) !! c_queue c = Some q.
Hypothesis Hpend : vars (k_of s) pendSV = 0.

(** A step between vTaskSuspendAll() and xTaskResumeAll() that releases tasks. *)
Lemma own_quiet p p' k' q' d0 n :
  let s' := Sys (Rtos k' (<[c_queue c := q']> (queues (rt s)))) (partial_alter (λ _, Some (p', c)) t (calls s)) in
  Inv idle t s → calls s !! t = Some (p, c) →
  woke idle d0 (c_queue c) n (k_of s) k' → quiet (k_of s) k' → alike q q' → call_ok t p' c q →
  in_section p = true → in_section p' = true → locked (locked_tx p') (cTxLock q') → locked (locked_rx p') (cRxLock q') →
  blocked_pc p' = blocked_pc p → (may_wait_pc p = true → may_wait_pc p' = true ∧ claiming p' = true) →
  (claiming p = true → claiming p' = true) → p' ≠ Inherit → p' ≠ PlaceOnEventList →
  (∀ d, held_back d q - (if decide (d = d0) then Z.of_nat n else 0) <= held_back d q') →
  Inv idle t s' ∧ abs s' = abs s.
Proof.
  intros s' HI Hc W [C M S P] Ha Hok Hs1 Hs2 Htx Hrx Hb Hmw Hcl N1 N2 Hheld.
  destruct (own_place _ _ _ _ _ Hq Hpend _ HI Hc) as (Hs & _ & _ & Hown & Hwait). rewrite Hs1 in Hs.
  pose proof W as [K _ _].
  assert (∀ d, waiting (k_of s) t = Some (wlist d (c_queue c)) → d = api_dir (c_api c) ∧ may_wait_pc p = true) as Hwd.
  { intros d E. by destruct (Hwait d _ E) as (? & _ & ?). }
  assert (∀ d m, woke idle d (c_queue c) m (k_of s) k' → held_back d q - Z.of_nat m <= held_back d q' →
    (∃ t', waiting k' t' = Some (wlist d (c_queue c))) →
    avail d q' <= Z.of_nat (size (claimants s' d (c_queue c))) + held_back d q') as Hbound.
  { intros d m Wd Hle. apply (woken_wake idle t s k' (c_queue c) q q' (Some (p', c)) HI Hq d m false Wd).
    - intros E. destruct (Hwd d E) as [-> Hm]. exists p', c. by split_and!; [|apply Hmw|..].
    - intros _ Hin. destruct (own_claim _ _ _ _ Hc _ _ Hin) as (Hp & <- & _). apply (claimant_intro s' t p' c).
      + simpl. by rewrite lookup_partial_alter_eq.
      + by apply Hcl.
      + simpl. intros E. apply (waiting_after (k_of s)) in E; [|done]. by apply (waiting_no_claimant s _ _ _ E).
    - rewrite (alike_avail d q q' Ha). lia. }
  apply (own_alike _ _ _ _ _ Hq p k' q' (Some (p', c))); try done.
  - by apply calm_weaken.
  - intros t'. rewrite M. unfold none_held. lia.
  - by intros p1 c1 [= <- <-].
  - by rewrite S, Hs, Hs2.
  - intros _. destruct (blocked_pc p) eqn:Ep; [left; by eexists _, _|right]. apply C; [done|]. by apply Hown.
  - intros d x E. apply (waiting_after (k_of s)) in E; [|done]. destruct (Hwait d x E) as (-> & -> & Hm).
    split_and!; [done..|]. exists p', c. split; [done|]. by apply Hmw.
  - intros d. specialize (Hheld d). case_decide as E; [subst; by apply (Hbound _ n)|]. apply (Hbound d 0%nat); [|lia].
    by apply woke_zero.
  - intros p1 c1 [= <- <-] [|]; done.
Qed.

Lemma step_unlock_tx a :
  Inv idle t s → calls s !! t = Some (UnlockTx a, c) → wp (sys_step Step) (kept idle t s) s.
Proof.
  intros HI Hc. pose proof (own_ok _ _ _ _ _ _ HI Hc Hq) as Hok. pose proof (v_queue _ _ _ HI _ _ Hq) as Hqok.
  destruct (own_place _ _ _ _ _ Hq Hpend _ HI Hc) as (_ & Htx & Hrx & _). simpl in Htx, Hrx.
  eapply wp_step; [done..|]. simpl. apply wp_bind. unfold prvUnlockQueue_tx. apply wp_bind. eapply wp_queue; [done|]. apply wp_bind.
  eapply wp_mono; [apply (unlock_loop_ok idle ToReceive), HI|]. intros _ r (k' & -> & W & Qt).
  eapply wp_update_queue; [exact Hq|]. apply wp_ret. cbn [kern queues].
  change (with_tx queueUNLOCKED q) with (with_locks (cRxLock q) (-1) q).
  eapply (own_quiet (UnlockTx a)); try done.
  - apply alike_locks; [done|apply Hqok|lia].
  - eapply call_ok_go; try done; destruct a; naive_solver.
  - by destruct a.
  - intros d. unfold held_back. destruct d; simpl; [lia|]. rewrite Z2Nat.id by done. lia.
Qed.

Lemma step_unlock_rx a :
  Inv idle t s → calls s !! t = Some (UnlockRx a, c) → wp (sys_step Step) (kept idle t s) s.
Proof.
  intros HI Hc. pose proof (own_ok _ _ _ _ _ _ HI Hc Hq) as Hok. pose proof (v_queue _ _ _ HI _ _ Hq) as Hqok.
  destruct (own_place _ _ _ _ _ Hq Hpend _ HI Hc) as (_ & Htx & Hrx & _). simpl in Htx, Hrx.
  eapply wp_step; [done..|]. simpl. apply wp_bind. unfold prvUnlockQueue_rx. apply wp_bind. eapply wp_queue; [done|]. apply wp_bind.
  eapply wp_mono; [apply (unlock_loop_ok idle ToSend), HI|]. intros _ r (k' & -> & W & Qt).
  eapply wp_update_queue; [exact Hq|]. apply wp_ret. cbn [kern queues].
  change (with_rx queueUNLOCKED q) with (with_locks (-1) (cTxLock q) q).
  eapply (own_quiet (UnlockRx a)); try done.
  - apply alike_locks; [done|lia|apply Hqok].
  - eapply call_ok_go; try done; destruct a; naive_solver.
  - by destruct a.
  - intros d. unfold held_back. destruct d; simpl; [rewrite Z2Nat.id by done; lia|]. lia.
Qed.

Lemma step_resume_all a :
  Inv idle t s → calls s !! t = Some (ResumeAll a, c) → wp (sys_step Step) (kept idle t s) s.
Proof.
  intros HI Hc. pose proof (own_ok _ _ _ _ _ _ HI Hc Hq) as Hok. pose proof (v_queue _ _ _ HI _ _ Hq) as Hqok.
  destruct (own_place _ _ _ _ _ Hq Hpend _ HI Hc) as (Hs & Htx & Hrx & Hown & Hwait). simpl in Hs, Htx, Hrx.
  eapply wp_step; [done..|]. simpl. apply wp_bind, wp_on_kernel.
  eapply wp_mono; [apply (k_resume_all idle); [apply HI|done]|]. intros r k' (K & C & M & S & P). apply wp_ret.
  replace (queues (rt s)) with (<[c_queue c := q]> (queues (rt s))) by by apply insert_id.
  set (n := match a with ToBlock => _ | ToRetry => _ | ToGiveUp => _ end). set (o' := next_call n).
  assert (∀ p' c', o' = Some (p', c') → c' = c ∧ (p' = Section_ ∨ p' = YieldWithinAPI ∧ a = ToBlock ∨ p' = TestAgain ∧ a = ToGiveUp)) as Ho.
  { subst o' n. intros p' c' E. destruct a; simpl in E; [destruct r|..|destruct (c_api c)]; simplify_eq; naive_solver. }
  assert (∀ (P : pc → Prop), (∀ p', p' = Section_ ∨ p' = YieldWithinAPI ∨ p' = TestAgain → P p') → ∀ p' c', o' = Some (p', c') → P p') as Hall.
  { intros P0 H0 p' c' E. apply H0. destruct (Ho p' c' E) as [_ [?|[[? _]|[? _]]]]; auto. }
  apply (own_alike _ _ _ _ _ Hq (ResumeAll a)); try done.
  - by apply calm_weaken.
  - intros p' c' E. destruct (Ho p' c' E) as [-> Hp]. split_and!; [done..|].
    eapply call_ok_go; try done; destruct Hp as [->|[[-> ->]|[-> ->]]]; naive_solver.
  - rewrite S. destruct o' as [[p' c']|]; [|done].
    by apply (Hall (λ p', 0 = if in_section p' then 1 else 0)) with (p' := p') (c' := c'); [intros ? [->|[->| ->]]|].
  - destruct o' as [[p' c']|] eqn:Eo; [|done].
    by destruct (Ho p' c' eq_refl) as [_ [->|[[-> _]|[-> _]]]].
  - rewrite S. intros [?|Hp']; [done|]. destruct a.
    + left. subst o' n. destruct r; [rewrite P in Hp' by done; done|]. by eexists _, _.
    + right. apply C; [done|]. by apply Hown.
    + right. apply C; [done|]. by apply Hown.
  - intros d x E. apply (waiting_after (k_of s)) in E; [|done]. destruct (Hwait d x E) as (-> & -> & Hm).
    split_and!; [done..|]. subst o' n. destruct a; [|done..]. destruct r; by eexists _, _.
  - intros d Hex. eapply (local_wake idle t s k' (c_queue c) q q _ HI Hq (calm_weaken _ _ _ C) d false ∅); try done.
    + by apply waiting_after.
    + intros _ Hin. destruct (own_claim _ _ _ _ Hc _ _ Hin) as (Hp & <- & _).
      assert (∃ p', o' = Some (p', c) ∧ claiming p' = true) as (p' & Eo & Hp').
      { subst o' n. destruct a; [|by eexists|done]. destruct r; by eexists. }
      apply (claimant_intro _ t p' c); [|done|].
      * simpl. by rewrite lookup_partial_alter_eq.
      * simpl. intros E. apply (waiting_after (k_of s)) in E; [|done]. by apply (waiting_no_claimant s _ _ _ E).
  - intros p' c' E. destruct (Ho p' c' E) as [_ [->|[[-> _]|[-> _]]]]; by intros [|].
Qed.

Lemma step_yield :
  Inv idle t s → calls s !! t = Some (YieldWithinAPI, c) → wp (sys_step Step) (kept idle t s) s.
Proof.
  intros HI Hc. pose proof (own_ok _ _ _ _ _ _ HI Hc Hq) as Hok. pose proof (v_queue _ _ _ HI _ _ Hq) as Hqok.
  destruct (own_place _ _ _ _ _ Hq Hpend _ HI Hc) as (Hs & Htx & Hrx & Hown & Hwait). simpl in Hs, Htx, Hrx.
  eapply wp_step; [done..|]. simpl. apply wp_bind, wp_on_kernel.
  eapply wp_mono; [apply (k_yield idle), HI|]. intros [] k' (K & [C M S _] & P). apply wp_ret.
  replace (queues (rt s)) with (<[c_queue c := q]> (queues (rt s))) by by apply insert_id.
  apply (own_alike _ _ _ _ _ Hq YieldWithinAPI); try done.
  - by apply calm_weaken.
  - intros t'. rewrite M. unfold none_held. lia.
  - intros p' c' [= <- <-]. split_and!; [done..|]. eapply call_ok_go; try done; naive_solver.
  - by rewrite S.
  - rewrite S, Hs, P. by intros [|].
  - intros d x E. apply (waiting_after (k_of s)) in E; [|done]. destruct (Hwait d x E) as (-> & -> & Hm).
    split_and!; [done..|]. by eexists _, _.
  - intros d Hex. eapply (local_wake idle t s k' (c_queue c) q q _ HI Hq (calm_weaken _ _ _ C) d false ∅); try done.
    + by apply waiting_after.
    + intros _ Hin. destruct (own_claim _ _ _ _ Hc _ _ Hin) as (Hp & <- & _).
      apply (claimant_intro _ t Section_ c); [|done|].
      * simpl. by rewrite lookup_partial_alter_eq.
      * simpl. intros E. apply (waiting_after (k_of s)) in E; [|done]. by apply (waiting_no_claimant s _ _ _ E).
  - intros p' c' [= <- <-] [|]; done.
Qed.

(** The count of a recursive mutex. *)
Lemma alike_count q1 h n n' : queue_ok q1 → use q1 = Mutex h n → alike q1 (with_use (Mutex h n') q1).
Proof.
  intros [L M X Tx U] Hu. rewrite Hu in U. split; try done; unfold is_mutex, holder, abs_queue; simpl; rewrite ?Hu; try done.
Qed.

Lemma step_count_up :
  Inv idle t s → calls s !! t = Some (CountUp, c) → wp (sys_step Step) (kept idle t s) s.
Proof.
  intros HI Hc. pose proof (own_ok _ _ _ _ _ _ HI Hc Hq) as Hok. pose proof (v_queue _ _ _ HI _ _ Hq) as Hqok.
  destruct (own_place _ _ _ _ _ Hq Hpend _ HI Hc) as (Hs & Htx & Hrx & Hown & Hwait). simpl in Hs, Htx, Hrx.
  destruct (Hown eq_refl) as [Hr Hw].
  assert (is_mutex q = true) as Hm.
  { pose proof (co_api _ _ _ _ Hok) as A. rewrite (co_count _ _ _ _ Hok eq_refl) in A. by apply A. }
  unfold is_mutex in Hm. destruct (use q) as [|h n] eqn:Hu; [done|].
  eapply wp_step; [done..|]. simpl. apply wp_bind. eapply wp_queue; [done|]. apply wp_bind. unfold mutex. rewrite Hu. apply wp_ret.
  apply wp_bind. unfold set_count. eapply wp_update_queue; [done|]. rewrite Hu. apply wp_ret.
  apply (own_alike _ _ _ _ _ Hq CountUp); try done.
  - apply HI.
  - by eapply alike_count.
  - by right.
  - intros d x E. congruence.
  - intros d Hex. eapply (local_wake idle t s (k_of s) (c_queue c) q _ _ HI Hq (calm_refl _ _) d false ∅); try done.
    intros _ Hin. by destruct (own_claim _ _ _ _ Hc _ _ Hin).
Qed.
End unlock.
