(* ===== verification/RtosQueueSections.v ===== *)
(** * The critical sections in which a call does its work

    A call of queue.c puts an item, takes one, or finds nothing to do and goes
    on to wait. *)

From Stdlib Require Import ZArith Lia.
From stdpp Require Import gmap.
From S2P Require Import Prelude RtosList RtosListSpec RtosKernel RtosKernelSpec RtosTime RtosSched RtosBoot RtosSafety RtosServices RtosQueue RtosQueueKernel RtosQueueData RtosQueueSystem RtosQueueInv RtosQueueSteps RtosQueueMoves RtosQueueWake.
Local Open Scope Z_scope.
Local Open Scope pim_scope.

(** ** Mutexes held *)

Definition has (t : task) (q : Queue_t) : Z := if decide (holder q = Some t) then 1 else 0.

Lemma held_split s s' x q t :
  queues (rt s') = <[x := q]> (queues (rt s)) → Z.of_nat (size (held s' t)) = Z.of_nat (size (held s t ∖ {[ x ]})) + has t q.
Proof.
  intros E. unfold has. case_decide as Hh.
  - assert (held s' t = {[ x ]} ∪ held s t ∖ {[ x ]}) as ->; [|rewrite size_union, size_singleton by set_solver; lia].
    apply set_eq. intros y. rewrite (held_insert s s' x q t E). set_solver.
  - assert (held s' t = held s t ∖ {[ x ]}) as ->; [|lia].
    apply set_eq. intros y. rewrite (held_insert s s' x q t E). set_solver.
Qed.

(** The number of mutexes a task holds after queue [x] has changed. *)
Lemma held_change s s' x q q' t :
  queues (rt s) !! x = Some q → queues (rt s') = <[x := q']> (queues (rt s)) →
  Z.of_nat (size (held s' t)) = Z.of_nat (size (held s t)) + has t q' - has t q.
Proof.
  intros Eq E. pose proof (held_split s s' x q' t E). pose proof (held_split s s x q t). rewrite insert_id in H0 by done.
  specialize (H0 eq_refl). lia.
Qed.

(** ** The end of a critical section *)

Section section.
Variable (idle t : task) (s : sys) (c : call) (q : Queue_t).
Hypothesis Hq : queues (rt s) !! c_queue c = Some q.
Hypothesis Hpend : vars (k_of s) pendSV = 0.
Hypothesis HI : Inv idle t s.
Hypothesis Hc : calls s !! t = Some (Section_, c).

Lemma section_state :
  call_ok t Section_ c q ∧ queue_ok q ∧ vars (k_of s) uxSchedulerSuspended = 0 ∧
  cTxLock q = queueUNLOCKED ∧ cRxLock q = queueUNLOCKED ∧ ready (k_of s) t ∧ waiting (k_of s) t = None.
Proof.
  destruct (own_place _ _ _ _ _ Hq Hpend _ HI Hc) as (Hs & Htx & Hrx & Hown & _). destruct (Hown eq_refl).
  split_and!; try done; [by eapply own_ok|by eapply (v_queue _ _ _ HI)].
Qed.

Lemma section_done k' q' o' dw n :
  let s' := Sys (Rtos k' (<[c_queue c := q']> (queues (rt s)))) (partial_alter (λ _, o') t (calls s)) in
  woke idle dw (c_queue c) n (k_of s) k' → vars k' uxSchedulerSuspended = vars (k_of s) uxSchedulerSuspended →
  (∀ t', mutexes k' t' = mutexes (k_of s) t' + has t' q' - has t' q) →
  qframe t q q' → cTxLock q' = cTxLock q → cRxLock q' = cRxLock q →
  (∀ p' c', o' = Some (p', c') → p' = CountUp ∧ c' = c ∧ call_ok t p' c q') →
  (∀ d, avail d q' <= 0 ∨ avail d q' + (if decide (d = api_dir (c_api c)) then 1 else 0) <=
    avail d q + (if decide (d = dw) then Z.of_nat n else 0)) →
  Inv idle t s'.
Proof.
  intros s' W Hs' Hm Hf Htx' Hrx' Ho Hav. destruct section_state as (Hok & Hqok & Hs & Htx & Hrx & Hr & Hw).
  pose proof W as [K C _].
  assert (waiting k' t = None) as Hw' by (eapply ready_waits; [done|by apply C]).
  apply (own_step idle t s Section_ c q HI Hc Hq); try done.
  - by apply calm_weaken.
  - intros p' c' E. by destruct (Ho _ _ E) as (-> & -> & ?).
  - rewrite Hs', Hs. destruct o' as [[p' c']|]; [|done]. by destruct (Ho _ _ eq_refl) as (-> & _).
  - destruct o' as [[p' c']|]; [|simpl; by rewrite Htx', Hrx'].
    destruct (Ho _ _ eq_refl) as (-> & -> & _). simpl. rewrite andb_false_r. simpl. by rewrite Htx', Hrx'.
  - intros _. right. by apply C.
  - intros d x E. congruence.
  - intros d Hex. destruct (Hav d) as [Hz|Hle]; [unfold held_back; lia|].
    assert (∀ m, woke idle d (c_queue c) m (k_of s) k' →
      avail d q' + (if decide (d = api_dir (c_api c)) then 1 else 0) <= avail d q + Z.of_nat m →
      avail d q' <= Z.of_nat (size (claimants s' d (c_queue c))) + held_back d q') as Hbound.
    { intros m Wd Hle'. apply (woken_wake idle t s k' (c_queue c) q q' o' HI Hq d m (bool_decide (d = api_dir (c_api c))) Wd); try done.
      - congruence.
      - intros Hne%bool_decide_eq_false Hin. by destruct (own_claim _ _ _ _ Hc _ _ Hin) as (_ & ? & _).
      - assert (held_back d q' = held_back d q) as -> by (unfold held_back; by rewrite Htx', Hrx').
        destruct (decide (d = api_dir (c_api c))); [rewrite bool_decide_true by done|rewrite bool_decide_false by done]; lia. }
    destruct (decide (d = dw)) as [->|]; [by apply (Hbound n)|]. apply (Hbound 0%nat); [by apply woke_zero|lia].
  - intros p' c' E. destruct (Ho _ _ E) as (-> & _). by intros [|].
  - intros t' Ht'. rewrite Hm. apply (cm_dom _ _ _ C) in Ht'. rewrite (v_mutexes _ _ _ HI _ Ht').
    symmetry. by eapply held_change.
Qed.

(** A task that can do nothing returns an error or goes on to wait. *)
Lemma section_fails r :
  avail (api_dir (c_api c)) q <= 0 → (is_mutex q = true → is_take (c_api c) = true) →
  r = (match c_api c with Send _ _ => errQUEUE_FULL | _ => errQUEUE_EMPTY end) →
  wp (section_waits r c) (λ n r', kept idle t s (event_of t Section_ c n) (Sys r' (partial_alter (λ _, next_call n) t (calls s)))) (rt s).
Proof.
  intros Hav Hm Er. destruct section_state as (Hok & Hqok & _). unfold section_waits.
  destruct (Z.eqb_spec (xTicksToWait c) 0) as [Ez|Ez].
  - apply wp_ret. split.
    + apply (pc_move idle t s Section_ c q HI Hc Hq); try done; auto.
    + rewrite Er. destruct (c_api c) eqn:Ea; simpl in Hav |- *; rewrite (abs_lookup _ _ _ Hq); unfold abs_queue;
        pose proof (contents_length q Hqok) as Hl; pose proof (q_use _ Hqok) as U; pose proof (q_messages _ Hqok) as Hmg;
        unfold is_mutex in *; destruct (use q) as [|h n]; try by specialize (Hm eq_refl).
      * rewrite Hl by done. rewrite Z2Nat.id by lia. by rewrite (proj2 (Z.eqb_eq _ _)) by lia.
      * destruct (contents q); [done|]. specialize (Hl eq_refl). simpl in Hl. lia.
      * destruct (contents q); [done|]. specialize (Hl eq_refl). simpl in Hl. lia.
      * destruct (contents q); [done|]. specialize (Hl eq_refl). simpl in Hl. lia.
      * destruct U as (_ & _ & U). destruct h; [done|]. destruct U as [U _]. rewrite U in Hav by done. lia.
  - assert (∀ c', c_api c' = c_api c → c_queue c' = c_queue c → xTicksToWait c' = xTicksToWait c →
      xInheritanceOccurred c' = xInheritanceOccurred c → is_Some (xTimeOut c') →
      kept idle t s (event_of t Section_ c (Go SuspendAll c')) (Sys (rt s) (partial_alter (λ _, Some (SuspendAll, c')) t (calls s)))) as Hgo.
    { intros c' Ea Ex Et Ei Eo. split; [|done]. apply (pc_move idle t s Section_ c q HI Hc Hq); try done; auto.
      - intros p1 c1 [= <- <-]. split_and!; [done|done|]. destruct Hok as [T Ti W A I J Cu D]. split; rewrite ?Et, ?Ea, ?Ei; try done.
        + by intros [|[]].
        + destruct (c_api c); [|done|done|].
          * split; [apply A|]. intros E. by specialize (Hm E).
          * destruct A as (? & ? & A). split_and!; [done..|]. intros E. destruct (A E) as [[? _]|[? _]]; [by left|done].
      - intros p1 c1 [= <- <-] [|]; done. }
    destruct (xTimeOut c) eqn:Eo; [apply wp_ret, Hgo; eauto|].
    apply wp_bind, wp_on_kernel. unfold vTaskInternalSetTimeOutState. wp_pure. rewrite rtos_eta. apply Hgo; eauto.
Qed.

(** ** Sending *)

(** The end of the critical section of xQueueGenericSend(). *)
Lemma send_wakes x yield r :
  KInv idle (kern r) →
  wp (e ← on_kernel (is_empty (xTasksWaitingToReceive x));
      (if negb e then
         b ← on_kernel (xTaskRemoveFromEventList (xTasksWaitingToReceive x));
         if b : bool then on_kernel portYIELD else ret tt
       else if yield : bool then on_kernel portYIELD else ret tt);;
      ret (Return (pdPASS []))) (λ n r', n = Return (pdPASS []) ∧ woken_up idle ToReceive x 1 r r') r.
Proof.
  intros K. apply wp_bind, wp_on_kernel. apply (wp_is_empty (wlist ToReceive x)).
  - intros E. apply wp_bind. simpl. pose proof (woke_none idle ToReceive x (kern r) K E 1) as W. destruct yield.
    + apply wp_on_kernel. eapply wp_mono; [by apply (k_yield idle)|]. intros _ k2 (K2 & Q2 & _). apply wp_ret. split; [done|].
      exists k2. split_and!; [done|eapply woke_calm; [done|done|apply Q2]|done].
    + apply wp_ret, wp_ret. split; [done|]. by exists (kern r).
  - intros t1 ts E. apply wp_bind. simpl. apply wp_bind, wp_on_kernel. eapply wp_mono; [by eapply (k_remove_woke idle ToReceive)|].
    intros b k1 [W Q]. destruct b; [|apply wp_ret, wp_ret; split; [done|by exists k1]].
    apply wp_on_kernel. eapply wp_mono; [apply (k_yield idle), W|]. intros _ k2 (K2 & Q2 & _). apply wp_ret. split; [done|].
    exists k2. split_and!; [done|eapply woke_calm; [done|done|apply Q2]|by etrans].
Qed.

Lemma has_none t' q1 : is_mutex q1 = false → has t' q1 = 0.
Proof. unfold has, holder, is_mutex. by destruct (use q1). Qed.

(** A change of a queue that is no mutex. *)
Lemma frame_storage q' : queue_ok q' → same_shape q q' → is_mutex q = false → is_mutex q' = false → qframe t q q'.
Proof.
  intros Hok [L Sz _ _] Hm Hm'. split; [done|done|done|congruence|]. intros h _. unfold holder, is_mutex in *.
  by destruct (use q), (use q').
Qed.

Lemma same_tx q' : same_shape q q' → cTxLock q' = cTxLock q ∧ cRxLock q' = cRxLock q.
Proof. by intros [_ _ ? ?]. Qed.

Definition section_post (n : next) (r : rtos) : Prop :=
  kept idle t s (event_of t Section_ c n) (Sys r (partial_alter (λ _, next_call n) t (calls s))).

(** A mutex is given by the task that holds it. *)
Lemma send_gives_mutex item pos :
  c_api c = Send item pos → is_mutex q = true → holder q = Some t →
  wp (xQueueGenericSend_section item pos c) section_post (rt s).
Proof.
  intros Ea Hm Hh. destruct section_state as (Hok & Hqok & Hs & Htx & Hrx & Hr & Hw).
  unfold is_mutex in Hm. destruct (use q) as [|h n] eqn:Hu; [done|].
  assert (h = Some t) as -> by (unfold holder in Hh; by rewrite Hu in Hh).
  pose proof (q_use _ Hqok) as U. rewrite Hu in U. destruct U as (Usz & Ul & Um).
  assert (uxMessagesWaiting q = 0) as Hm0.
  { pose proof (q_messages _ Hqok). destruct (decide (uxMessagesWaiting q = 1)) as [E|]; [by apply Um in E|lia]. }
  assert (0 < mutexes (k_of s) t) as Hpos.
  { rewrite (v_mutexes _ _ _ HI); [|by eapply (v_holder _ _ _ HI)].
    assert (c_queue c ∈ held s t) as Hin by (apply held_spec; eauto). apply elem_in_size in Hin. lia. }
  apply wp_bind. eapply wp_queue; [done|]. rewrite Ul, Hm0. simpl.
  unfold prvCopyDataToQueue. apply wp_bind. apply wp_bind. eapply wp_queue; [done|]. apply wp_bind. rewrite Usz, Hu. simpl.
  apply wp_bind, wp_on_kernel. eapply wp_mono; [eapply (k_disinherit idle); [apply HI|apply HI|done|done]|].
  intros b k1 [K1 [C1 M1 S1 P1]]. apply wp_bind. eapply wp_update_queue; [exact Hq|]. rewrite Hu. simpl. apply wp_ret.
  apply wp_bind. eapply wp_update_queue; [apply lookup_insert_eq|]. apply wp_ret. cbn [kern queues]. rewrite insert_insert_eq, Hm0.
  set (q' := with_messages _ _). eapply wp_mono; [by apply send_wakes|].
  intros nx r (-> & k2 & -> & W & [C2 M2 S2 P2]). simpl.
  assert (calm (k_of s) k2) as C by by etrans.
  assert (woke idle ToReceive (c_queue c) 1 (k_of s) k2) as W'.
  { rewrite <-(Nat.add_0_l 1). eapply woke_trans; [by apply woke_zero|exact W]. }
  assert (queue_ok q') as Hok'.
  { destruct Hqok as [L _ X Tx _]. split; simpl; try done. by rewrite Ul. }
  split.
  - eapply (section_done k2 q' None ToReceive 1 W'); try done.
    + cbn [kern] in S2. congruence.
    + intros t'. rewrite M2, M1. cbn. unfold none_held, one_held, has, holder. rewrite Hu. simpl.
      repeat case_decide; simplify_eq; lia.
    + split; try done. { unfold is_mutex. by rewrite Hu. } intros h Hne. unfold holder. rewrite Hu. simpl.
      split; [done|]. intros [= ->]. done.
    + intros d. right. rewrite Ea. destruct d; simpl; rewrite ?Ul, Hm0; done.
  - cbn [event_of]. rewrite Ea. cbn. rewrite (abs_lookup _ _ _ Hq). unfold abs_queue at 1. rewrite Hu. rewrite decide_True by done.
    f_equal. by rewrite fmap_insert.
Qed.

(** An item goes into the storage area. *)
Lemma send_stores item pos :
  c_api c = Send item pos → is_mutex q = false → may_put q pos → length item = Z.to_nat (uxItemSize q) →
  wp (xQueueGenericSend_section item pos c) section_post (rt s).
Proof.
  intros Ea Hm Hput Hlen. destruct section_state as (Hok & Hqok & _).
  apply wp_bind. eapply wp_queue; [done|].
  assert ((uxMessagesWaiting q <? uxLength q) || bool_decide (pos = queueOVERWRITE) = true) as ->.
  { destruct pos; simpl in Hput; [by rewrite (proj2 (Z.ltb_lt _ _) Hput)..|apply orb_true_r]. }
  apply wp_bind.
  eapply wp_mono; [by apply copy_to_ok|]. intros b r (-> & q' & -> & [Cok Csh Cm Cc]).
  eapply wp_mono; [apply (send_wakes (c_queue c) false), HI|]. intros nx r (-> & k2 & -> & W & [C2 M2 S2 P2]). simpl.
  pose proof (contents_length q Hqok Hm) as Hl. pose proof (contents_length q' Cok Cm) as Hl'. rewrite Cc in Hl'.
  pose proof (q_messages _ Hqok) as Hm1. pose proof (q_messages _ Cok) as Hm2. pose proof (ss_length _ _ Csh) as Hsl.
  split.
  - destruct (same_tx q' Csh). eapply (section_done k2 q' None ToReceive 1 W); try done.
    + intros t'. rewrite M2, !has_none by done. unfold none_held. simpl. lia.
    + by apply frame_storage.
    + intros d. rewrite Ea. destruct pos; simpl in Hput, Hl'; rewrite ?length_app in Hl'; simpl in Hl';
        destruct d; simpl; lia.
  - cbn [event_of]. rewrite Ea. cbn. rewrite (abs_lookup _ _ _ Hq). unfold is_mutex in Hm, Cm. unfold abs_queue at 1.
    destruct (use q) as [tl rd|] eqn:Hu; [|done].
    assert (match pos with queueOVERWRITE => uxLength q =? 1 | _ => Z.of_nat (length (contents q)) <? uxLength q end = true) as ->.
    { rewrite Hl, Z2Nat.id by lia. destruct pos; simpl in Hput; [by apply Z.ltb_lt|by apply Z.ltb_lt|by apply Z.eqb_eq, Hput]. }
    f_equal. rewrite fmap_insert, <-Cc, <-Hsl. f_equal. unfold abs_queue. by destruct (use q').
Qed.

Lemma send_section item pos :
  c_api c = Send item pos → wp (xQueueGenericSend_section item pos c) section_post (rt s).
Proof.
  intros Ea. destruct section_state as (Hok & Hqok & _).
  pose proof (co_api _ _ _ _ Hok) as A. rewrite Ea in A. destruct A as [Hitem Hmu].
  apply andb_true_iff in Hitem as [Hlen%bool_decide_eq_true Hover].
  destruct (is_mutex q) eqn:Hm; [apply send_gives_mutex; try done; by apply Hmu|].
  destruct ((uxMessagesWaiting q <? uxLength q) || bool_decide (pos = queueOVERWRITE)) eqn:Eroom.
  - apply send_stores; try done.
    destruct pos; simpl in Hover, Eroom |- *; rewrite ?orb_false_r, ?Z.ltb_lt in Eroom; try done.
    apply andb_true_iff in Hover as [?%Z.eqb_eq ?%Z.ltb_lt]. done.
  - apply wp_bind. eapply wp_queue; [done|]. rewrite Eroom. apply orb_false_iff in Eroom as [Eroom%Z.ltb_ge _].
    apply section_fails; rewrite Ea; simpl; [lia|congruence|done].
Qed.

(** ** Receiving *)

Lemma first_item : is_mutex q = false → 0 < uxMessagesWaiting q → ∃ item items, contents q = item :: items.
Proof.
  intros Hm Hpos. pose proof (contents_length q (v_queue _ _ _ HI _ _ Hq) Hm) as Hl.
  destruct (contents q) as [|item items]; [simpl in Hl; lia|eauto].
Qed.

Lemma abs_storage q1 : is_mutex q1 = false → abs_queue q1 = AQueue (uxLength q1) (contents q1).
Proof. unfold is_mutex, abs_queue. by destruct (use q1). Qed.

(** One item less in a queue that is no mutex. *)
Lemma taken q' item items n k' :
  let s' := Sys (Rtos k' (<[c_queue c := q']> (queues (rt s)))) (partial_alter (λ _, next_call n) t (calls s)) in
  api_dir (c_api c) = ToReceive → woke idle ToSend (c_queue c) 1 (k_of s) k' → quiet (k_of s) k' →
  is_mutex q = false → is_mutex q' = false → queue_ok q' → same_shape q q' →
  contents q = item :: items → contents q' = items → (∀ p' c', next_call n ≠ Some (p', c')) →
  Inv idle t s' ∧ spec_event (Got (Some t) (c_queue c) item) (abs s) = Some (abs s').
Proof.
  intros s' Ed W [C M S P] Hm Hm' Hok' Sh Ec Ec' Hn. pose proof (v_queue _ _ _ HI _ _ Hq) as Hqok.
  pose proof (contents_length q Hqok Hm) as Hl. pose proof (contents_length q' Hok' Hm') as Hl'. rewrite Ec in Hl. rewrite Ec' in Hl'.
  pose proof (q_messages _ Hqok) as Hm1. pose proof (q_messages _ Hok') as Hm2. pose proof (ss_length _ _ Sh) as Hsl. simpl in Hl. split.
  - destruct (same_tx q' Sh). eapply (section_done k' q' _ ToSend 1 W); try done.
    + intros t'. rewrite M, !has_none by done. unfold none_held. lia.
    + by apply frame_storage.
    + intros p' c' E. by destruct (Hn p' c').
    + intros d. right. rewrite Ed. destruct d; simpl; lia.
  - cbn. rewrite (abs_lookup _ _ _ Hq), abs_storage, Ec by done. rewrite decide_True by done. f_equal.
    change (abs s') with (abs_queue <$> <[c_queue c := q']> (queues (rt s))). rewrite fmap_insert. f_equal. by rewrite abs_storage, Ec', Hsl.
Qed.

Lemma receive_section :
  c_api c = Receive → wp (xQueueReceive_section c) section_post (rt s).
Proof.
  intros Ea. destruct section_state as (Hok & Hqok & _). pose proof (co_api _ _ _ _ Hok) as Hm. rewrite Ea in Hm.
  apply wp_bind. eapply wp_queue; [done|]. destruct (Z.ltb_spec 0 (uxMessagesWaiting q)) as [Hpos|Hz].
  - destruct (first_item Hm Hpos) as (item & items & Ec). apply wp_bind.
    eapply copy_from_ok; [done..|]. intros q' Hok' Sh Hm' Hmg Ec' _.
    apply wp_bind. eapply wp_update_queue; [apply lookup_insert_eq|]. apply wp_bind. cbn [kern queues]. rewrite insert_insert_eq.
    assert (u32 (uxMessagesWaiting q - 1) = uxMessagesWaiting q - 1) as ->.
    { pose proof (q_messages _ Hqok). pose proof (q_length _ Hqok). apply Z.mod_small. lia. }
    eapply wp_mono; [apply (unblock_one_ok idle ToSend), HI|]. intros _ r (k2 & -> & W & Q). apply wp_ret.
    unfold section_post. cbn [event_of]. rewrite Ea.
    eapply (taken _ item items (Return (pdPASS item))); try done; [by rewrite Ea|by destruct Sh].
  - apply section_fails; rewrite ?Ea; simpl; [lia|congruence|done].
Qed.

Lemma peek_section :
  c_api c = Peek → wp (xQueuePeek_section c) section_post (rt s).
Proof.
  intros Ea. destruct section_state as (Hok & Hqok & _). pose proof (co_api _ _ _ _ Hok) as Hm. rewrite Ea in Hm.
  apply wp_bind. eapply wp_queue; [done|]. destruct (Z.ltb_spec 0 (uxMessagesWaiting q)) as [Hpos|Hz].
  - destruct (first_item Hm Hpos) as (item & items & Ec). apply wp_bind.
    pose proof Hm as Hm'. unfold is_mutex in Hm'. destruct (use q) as [tl rd|] eqn:Hu; [|done]. apply wp_bind.
    eapply copy_from_ok; [done..|]. intros q' Hok' Sh Hmq' Hmg Ec' Hback.
    apply wp_bind. unfold set_read. eapply wp_update_queue; [apply lookup_insert_eq|]. apply wp_ret. apply wp_bind. cbn [kern queues].
    specialize (Hback (tl, rd) Hu). simpl in Hback. rewrite insert_insert_eq, Hback.
    eapply wp_mono; [apply (unblock_one_ok idle ToReceive), HI|]. intros _ r (k2 & -> & W & [C M S P]). apply wp_ret. cbn [queues]. split.
    + eapply (section_done k2 q _ ToReceive 1 W); try done.
      * intros t'. rewrite M. unfold none_held. cbn [kern]. lia.
      * intros d. right. rewrite Ea. destruct d; simpl; lia.
    + cbn [event_of]. rewrite Ea. cbn. rewrite (abs_lookup _ _ _ Hq), abs_storage, Ec, decide_True by done. f_equal.
      by rewrite insert_id.
  - apply section_fails; rewrite ?Ea; simpl; [lia|congruence|done].
Qed.

(** ** Taking a semaphore or a mutex *)

Lemma take_semaphore :
  c_api c = SemaphoreTake false → is_mutex q = false → wp (xQueueSemaphoreTake_section false c) section_post (rt s).
Proof.
  intros Ea Hm. destruct section_state as (Hok & Hqok & _). pose proof (co_api _ _ _ _ Hok) as A. rewrite Ea in A.
  destruct A as (Esz & _ & _). pose proof (q_messages _ Hqok). pose proof (q_length _ Hqok).
  apply wp_bind. eapply wp_queue; [done|]. destruct (Z.ltb_spec 0 (uxMessagesWaiting q)) as [Hpos|Hz].
  - apply wp_bind. eapply wp_update_queue; [done|]. apply wp_bind.
    assert (u32 (uxMessagesWaiting q - 1) = uxMessagesWaiting q - 1) as -> by (apply Z.mod_small; lia).
    set (q' := with_messages _ q). pose proof Hm as Hm'. unfold is_mutex in Hm'. destruct (use q) as [tl rd|] eqn:Hu; [|done].
    apply wp_ret. apply wp_bind. eapply wp_mono; [apply (unblock_one_ok idle ToSend), HI|]. intros _ r (k2 & -> & W & Q). apply wp_ret.
    unfold section_post. cbn [event_of]. rewrite Ea. cbn [queues].
    apply (taken q' [] (contents q') (Return (pdPASS []))); try done.
    + by rewrite Ea.
    + by apply semaphore_ok; [..|lia].
    + rewrite !contents_semaphore by done. simpl. replace (Z.to_nat (uxMessagesWaiting q)) with (S (Z.to_nat (uxMessagesWaiting q - 1))) by lia. done.
  - apply wp_bind. eapply wp_assert.
    { destruct (xInheritanceOccurred c) eqn:Ei; [|by rewrite orb_true_r]. by destruct (co_inherited _ _ _ _ Hok Ei) as (_ & _ & ->). }
    apply section_fails; rewrite ?Ea; simpl; [lia|done|done].
Qed.

Lemma take_mutex recursive :
  c_api c = SemaphoreTake recursive → is_mutex q = true → wp (xQueueSemaphoreTake_section recursive c) section_post (rt s).
Proof.
  intros Ea Hm. destruct section_state as (Hok & Hqok & _). pose proof (co_api _ _ _ _ Hok) as A. rewrite Ea in A.
  destruct A as (Esz & _ & At). pose proof (q_messages _ Hqok). pose proof (q_use _ Hqok) as U.
  pose proof Hm as Hm'. unfold is_mutex in Hm'. destruct (use q) as [|h n] eqn:Hu; [done|]. destruct U as (_ & Ul & Um).
  apply wp_bind. eapply wp_queue; [done|]. destruct (Z.ltb_spec 0 (uxMessagesWaiting q)) as [Hpos|Hz].
  - apply wp_bind. eapply wp_update_queue; [done|]. apply wp_bind. assert (uxMessagesWaiting q = 1) as E1 by lia. rewrite E1.
    assert (h = None) as -> by (apply Um; lia). rewrite Hu. apply wp_bind, wp_on_kernel.
    assert (0 <= mutexes (k_of s) t < 2 ^ 32 - 1) as Hb.
    { destruct (kinv_cur _ _ (v_kernel _ _ _ HI)) as (t0 & c0 & E0 & Ec0). rewrite (v_cur _ _ _ HI) in E0. injection E0 as <-.
      rewrite (v_mutexes _ _ _ HI) by eauto. pose proof (v_number _ _ _ HI). split; [lia|].
      assert (held s t ⊆ dom (queues (rt s))) as Hsub; [|apply subseteq_size in Hsub; lia].
      intros y (q0 & Hy & _)%held_spec. by apply elem_of_dom. }
    eapply wp_mono; [apply (k_take_mutex idle _ t); [apply HI|apply HI|done]|]. intros o k1 (-> & K1 & [C1 M1 S1 P1]).
    unfold set_holder. eapply wp_update_queue; [apply lookup_insert_eq|]. cbn [kern queues use with_messages with_use]. rewrite Hu, insert_insert_eq.
    set (q' := with_use _ _). apply wp_bind. eapply wp_mono; [by apply (unblock_one_ok idle ToSend)|].
    intros _ r (k2 & -> & W & [C2 M2 S2 P2]). apply wp_ret. cbn [kern queues] in *.
    assert (woke idle ToSend (c_queue c) 1 (k_of s) k2) as W'.
    { rewrite <-(Nat.add_0_l 1). eapply woke_trans; [by apply woke_zero|exact W]. }
    split.
    + eapply (section_done k2 q' _ ToSend 1 W'); try done.
      * congruence.
      * intros t'. rewrite M2, M1. unfold none_held, one_held, has, holder. rewrite Hu. simpl.
        repeat case_decide; simplify_eq; lia.
      * destruct Hqok as [L _ X Tx _]. split; try done.
        -- by split; simpl; try done; rewrite ?Ul.
        -- intros h Hne. unfold holder. rewrite Hu. simpl. split; [|done]. intros [= ->]. done.
      * intros p' c' E. destruct recursive; [|done]. injection E as <- <-. split_and!; [done|done|].
        destruct Hok as [T Ti Wt A I J Cu D]. split; try done; [by intros [|[]]| |].
        -- rewrite Ea. split_and!; [done|done|]. intros _. destruct (At Hm) as [[? _]|[? _]]; auto.
        -- intros Ei. by destruct (I Ei).
      * intros d. right. rewrite Ea. destruct d; simpl; by rewrite ?Ul, ?E1.
    + assert (event_of t Section_ c (if recursive then Go CountUp c else Return (pdPASS [])) = Some (Got (Some t) (c_queue c) [])) as ->.
      { destruct recursive; [done|]. simpl. by rewrite Ea. }
      cbn. rewrite (abs_lookup _ _ _ Hq). unfold abs_queue at 1. rewrite Hu. f_equal. by rewrite fmap_insert.
  - apply wp_bind. eapply wp_assert.
    { destruct (xInheritanceOccurred c) eqn:Ei; [|by rewrite orb_true_r]. by destruct (co_inherited _ _ _ _ Hok Ei) as (_ & _ & ->). }
    apply section_fails; rewrite ?Ea; simpl; [lia|done|done].
Qed.

Lemma step_section : wp (sys_step Step) (kept idle t s) s.
Proof.
  destruct section_state as (Hok & _). eapply wp_step; [done..|]. cbn [call_step].
  destruct (c_api c) as [item pos| | |recursive] eqn:Ea; [by apply send_section|by apply receive_section|by apply peek_section|].
  destruct (is_mutex q) eqn:Hm; [by apply take_mutex|].
  pose proof (co_api _ _ _ _ Hok) as A. rewrite Ea in A. destruct A as (_ & Hrec & _).
  destruct recursive; [by rewrite Hrec in Hm|]. by apply take_semaphore.
Qed.
End section.
