(* ===== verification/RtosQueueEnv.v ===== *)
(** * Interrupts and context switches keep the invariant

    The steps of RtosQueueSystem.v that are not steps of a call: the tick, the
    interrupt handlers that use a queue, the context switch, and what the
    running task does outside queue.c. *)

From Stdlib Require Import ZArith Lia.
From stdpp Require Import gmap.
From S2P Require Import Prelude RtosList RtosListSpec RtosKernel RtosKernelSpec RtosTime RtosSched RtosBoot RtosSafety RtosServices RtosQueue RtosQueueKernel RtosQueueData RtosQueueSystem RtosQueueInv RtosQueueSteps RtosQueueMoves RtosQueueWake RtosQueueSections.
Local Open Scope Z_scope.
Local Open Scope pim_scope.

(** ** Changes of the kernel only *)

Lemma kernel_only idle t s k' :
  Inv idle t s → KInv idle k' → pxCurrentTCB k' = Some t →
  (∀ t', is_Some (tasks k' !! t') ↔ is_Some (tasks (k_of s) !! t')) →
  (∀ t', waiting k' t' = waiting (k_of s) t' ∨ queue_free (waiting k' t')) →
  (∀ t', mutexes k' t' = mutexes (k_of s) t') →
  vars k' uxSchedulerSuspended = vars (k_of s) uxSchedulerSuspended →
  (vars k' uxSchedulerSuspended ≠ 0 ∨ vars k' pendSV = 0 →
    (∃ p c, calls s !! t = Some (p, c) ∧ blocked_pc p = true) ∨ ready k' t) →
  Inv idle t (Sys (Rtos k' (queues (rt s))) (calls s)).
Proof.
  intros HI K Hcur Hdom Hw Hm Hs Hrun.
  assert (∀ t' d x, waiting k' t' = Some (wlist d x) → waiting (k_of s) t' = Some (wlist d x)) as Hback.
  { intros t' d x E. destruct (Hw t') as [E'|F]; [congruence|by destruct (F d x)]. }
  destruct HI. split; simpl; try done.
  - intros t' p c E. rewrite Hdom. by apply v_call.
  - by rewrite Hs.
  - intros t' d x E. by apply v_waiting, Hback.
  - intros d x q E [t' Ht']. eapply (wake_gen s _ d x q q ∅ ∅).
    + apply v_wake; [done|]. exists t'. by apply Hback.
    + intros t1 [[H1 _]%elem_of_difference|H1%not_elem_of_empty]%elem_of_union; [|done].
      destruct (claimant_elim _ _ _ _ H1) as (p & c & Ec & Hp & <- & <- & Hn). apply (claimant_intro _ t1 p c); [done|done|].
      intros E'. by apply Hn, Hback.
    + set_solver.
    + lia.
  - intros t' Ht'. rewrite Hm. by apply v_mutexes, Hdom.
  - intros x q h E Eh. apply Hdom. by eapply v_holder.
Qed.

Lemma kernel_calm idle t s k' :
  Inv idle t s → KInv idle k' → calm (k_of s) k' → (∀ t', mutexes k' t' = mutexes (k_of s) t') →
  vars k' uxSchedulerSuspended = vars (k_of s) uxSchedulerSuspended →
  (vars (k_of s) pendSV = 0 ∨ vars (k_of s) uxSchedulerSuspended ≠ 0 ∨ vars k' pendSV ≠ 0) →
  Inv idle t (Sys (Rtos k' (queues (rt s))) (calls s)).
Proof.
  intros HI K [C D W Rd] Hm Hs Hp. apply kernel_only; try done.
  - rewrite C. apply HI.
  - intros t'. by apply W.
  - rewrite Hs. intros H. destruct (v_running _ _ _ HI) as [?|Hr]; [|by left|right; by apply Rd].
    destruct H as [?|E]; [by left|]. destruct Hp as [?|[?|?]]; [by right|by left|done].
Qed.

Lemma agrees_kernel s k' : agrees None s (Sys (Rtos k' (queues (rt s))) (calls s)).
Proof. done. Qed.

(** The running task outside a call. *)
Lemma caller idle t s : Inv idle t s → is_Some (may_call idle s) →
  t ≠ idle ∧ calls s !! t = None ∧ vars (k_of s) pendSV = 0 ∧ vars (k_of s) uxSchedulerSuspended = 0 ∧
  ready (k_of s) t ∧ waiting (k_of s) t = None.
Proof.
  intros HI [t' E]. unfold may_call, free_to_run in E. destruct (Z.eqb_spec (vars (k_of s) pendSV) 0) as [Ep|]; [|done].
  rewrite (v_cur _ _ _ HI) in E. case_bool_decide as Hc; [|done]. destruct Hc as [Hne Hn].
  assert (ready (k_of s) t) as Hr.
  { destruct (v_running _ _ _ HI) as [(p & c & Ec & _)|?]; [by right|congruence|done]. }
  split_and!; try done; [|eapply ready_waits; [apply HI|done]]. pose proof (v_suspended _ _ _ HI) as Hs. by rewrite Hn in Hs.
Qed.

Section env.
Variable (idle t : task) (s : sys).
Hypothesis HI : Inv idle t s.

Definition keeps (e : option event) (s' : sys) : Prop := (∃ t', Inv idle t' s') ∧ agrees e s s'.

Lemma kept_keeps e s' : kept idle t s e s' → keeps e s'.
Proof. intros [? ?]. split; [by exists t|done]. Qed.

Lemma wp_yield_from_isr b s1 (Q : unit → sys → Prop) :
  KInv idle (k_of s1) →
  (∀ k', KInv idle k' → quiet (k_of s1) k' → Q tt (Sys (Rtos k' (queues (rt s1))) (calls s1))) →
  wp (yield_from_isr b) Q s1.
Proof.
  intros K H. destruct b.
  - apply wp_on_rt_kernel. eapply wp_mono; [by apply (k_yield idle)|]. intros [] k' (K' & Q' & _). by apply H.
  - apply wp_ret. specialize (H (k_of s1) K (quiet_refl _)). by destruct s1 as [[] ?].
Qed.

Lemma quiet_keeps k' : KInv idle k' → quiet (k_of s) k' → kept idle t s None (Sys (Rtos k' (queues (rt s))) (calls s)).
Proof.
  intros K [C M S P]. split; [|done]. apply kernel_calm; try done.
  - intros t'. rewrite M. unfold none_held. lia.
  - destruct (decide (vars (k_of s) pendSV = 0)); auto.
Qed.

Lemma step_tick : wp (sys_step Tick) keeps s.
Proof.
  apply wp_bind, wp_on_rt_kernel. eapply wp_mono; [apply (k_tick idle), HI|]. intros b k1 [K1 Q1]. apply wp_bind.
  apply wp_yield_from_isr; [done|]. intros k2 K2 Q2. apply wp_ret, kept_keeps, quiet_keeps; [done|by etrans].
Qed.

Lemma step_delay n : is_Some (may_call idle s) → ticks_ok n = true → wp (sys_step (DelayTask n)) keeps s.
Proof.
  intros Hc [Hn1 Hn2]%andb_true_iff. apply Z.leb_le in Hn1, Hn2. destruct (caller _ _ _ HI Hc) as (Hne & Hno & Hp & Hs & Hr & Hw).
  apply wp_bind, wp_on_rt_kernel. eapply wp_mono; [eapply (k_delay idle _ t); [apply HI|done|apply HI|done|]|].
  { unfold portMAX_DELAY, EPOCH in *. lia. }
  intros _ k' (K & C & M & S & P & W). apply wp_ret, kept_keeps. split; [|done]. apply kernel_only; try done.
  - rewrite (cm_cur _ _ _ C). apply HI.
  - apply C.
  - intros t'. destruct (decide (t' = t)) as [->|]; [done|]. apply C. congruence.
  - by rewrite S.
  - rewrite S, P. by intros [|].
Qed.

Lemma step_set_priority h p :
  is_Some (may_call idle s) → 0 <= p < configMAX_PRIORITIES →
  match h with Some t' => is_Some (tasks (k_of s) !! t') | None => True end → wp (sys_step (SetPriority h p)) keeps s.
Proof.
  intros Hc Hp Hh. destruct (caller _ _ _ HI Hc) as (_ & _ & Hpend & _).
  apply wp_bind, wp_on_rt_kernel. eapply wp_mono; [by apply (k_priority_set idle); [apply HI|..]|].
  intros _ k' (K & C & M & S). apply wp_ret, kept_keeps. split; [|done]. apply kernel_calm; auto.
Qed.

Lemma step_resume t1 : is_Some (may_call idle s) → is_Some (tasks (k_of s) !! t1) → wp (sys_step (ResumeTask t1)) keeps s.
Proof.
  intros Hc Ht. destruct (caller _ _ _ HI Hc) as (_ & _ & Hpend & _).
  apply wp_bind, wp_on_rt_kernel. eapply wp_mono; [by apply (k_resume idle); [apply HI|]|].
  intros _ k' (K & C & M & S). apply wp_ret, kept_keeps. split; [|done]. apply kernel_calm; auto.
Qed.

Lemma step_suspend t1 :
  is_Some (may_call idle s) → t1 ≠ idle → is_Some (tasks (k_of s) !! t1) → wp (sys_step (SuspendTask t1)) keeps s.
Proof.
  intros Hc Hne Ht. destruct (caller _ _ _ HI Hc) as (_ & _ & Hpend & Hs & Hr & _).
  apply wp_bind, wp_on_rt_kernel. eapply wp_mono; [by apply (k_suspend idle); [apply HI|..]|].
  intros _ k' (K & C & M & S & W & P). apply wp_ret, kept_keeps. split; [|done]. apply kernel_only; try done.
  - rewrite (cm_cur _ _ _ C). apply HI.
  - apply C.
  - intros t'. destruct (decide (t' = t1)) as [->|]; [right; rewrite W; apply queue_free_none|]. apply C. congruence.
  - by rewrite S.
  - rewrite S. intros [?|E]; [done|]. right. apply C; [|done]. intros [= ->]. rewrite P in E; [done|]. apply HI.
Qed.

(** *** The context switch *)

Lemma same_tasks k' t' : tasks k' = tasks (k_of s) → waiting k' t' = waiting (k_of s) t' ∧ mutexes k' t' = mutexes (k_of s) t'.
Proof. intros E. unfold waiting, container, mutexes. by rewrite E. Qed.

(** Another task runs, when the scheduler is not suspended. *)
Lemma switched t' k' :
  KInv idle k' → tasks k' = tasks (k_of s) → pxCurrentTCB k' = Some t' → ready k' t' →
  vars (k_of s) uxSchedulerSuspended = 0 → vars k' uxSchedulerSuspended = 0 →
  Inv idle t' (Sys (Rtos k' (queues (rt s))) (calls s)).
Proof.
  intros K Et Hcur Hr Hs Hs'.
  assert (∀ t1 p c, calls s !! t1 = Some (p, c) → in_section p = false) as Hout.
  { intros t1 p c E. destruct (decide (t1 = t)) as [->|Hne]; [|by eapply (v_other _ _ _ HI)].
    pose proof (v_suspended _ _ _ HI) as H. rewrite E, Hs in H. by destruct (in_section p). }
  assert (∀ x q, queues (rt s) !! x = Some q → cTxLock q = queueUNLOCKED ∧ cRxLock q = queueUNLOCKED) as Hun.
  { intros x q E. pose proof (v_locks _ _ _ HI _ _ E) as Hl. destruct (calls s !! t) as [[p c]|] eqn:Ec; [|done].
    pose proof (Hout _ _ _ Ec) as Ho. destruct p; try done; simpl in Hl; by rewrite andb_false_r in Hl. }
  pose proof HI as [_ _ Hqs Hnum Hid Hcall _ _ _ _ Hwait Hwake _ Hmut Hhold]. split; simpl; try done.
  - intros t1 p c E. rewrite Et. by apply Hcall.
  - intros t1 p c E _. by eapply Hout.
  - rewrite Hs'. destruct (calls s !! t') as [[p c]|] eqn:E; [|done]. by rewrite (Hout _ _ _ E).
  - intros x q E. destruct (Hun x q E) as [E1 E2]. destruct (calls s !! t') as [[p c]|] eqn:Ec; [|done].
    pose proof (Hout _ _ _ Ec). simpl. by destruct p; simpl; rewrite ?andb_false_r.
  - by right.
  - intros t1 d x Hw. apply Hwait. destruct (same_tasks k' t1 Et) as [<- _]. done.
  - intros d x q E [t1 Hw]. eapply (wake_gen s _ d x q q ∅ ∅).
    + apply Hwake; [done|]. exists t1. destruct (same_tasks k' t1 Et) as [<- _]. done.
    + intros t2 [[H1 _]%elem_of_difference|H1%not_elem_of_empty]%elem_of_union; [|done].
      destruct (claimant_elim _ _ _ _ H1) as (p & c & Ec & Hp & <- & <- & Hn). apply (claimant_intro _ t2 p c); [done|done|].
      simpl. destruct (same_tasks k' t2 Et) as [-> _]. done.
    + set_solver.
    + lia.
  - intros p c q E Hp _. pose proof (Hout _ _ _ E). by destruct Hp as [->| ->].
  - intros t1 H1. destruct (same_tasks k' t1 Et) as [_ ->]. apply Hmut. by rewrite <-Et.
  - intros x q h E Eh. rewrite Et. by eapply Hhold.
Qed.

Lemma step_switch : wp (sys_step Switch) (keeps) s.
Proof.
  apply wp_bind, wp_on_rt_kernel, wp_bind. apply wp_modify. set (k1 := Kernel _ _ _ _ _ _).
  assert (KInv idle k1) as K1 by (apply kinv_var; [set_solver|apply HI]).
  eapply wp_mono; [by apply (k_switch idle)|]. intros _ k' (K & Et & Hs & Hcur). apply wp_ret. split; [|done].
  assert (vars k1 uxSchedulerSuspended = vars (k_of s) uxSchedulerSuspended) as E1 by (simpl; by rewrite upd_ne).
  rewrite E1 in Hs, Hcur. case_decide as Hz.
  - destruct Hcur as (t' & Hc & Hr). exists t'. apply switched; try done. by rewrite Hs.
  - exists t. apply kernel_only; try done.
    + rewrite Hcur. apply HI.
    + intros t'. by rewrite Et.
    + intros t'. left. by apply same_tasks.
    + intros t'. by apply same_tasks.
    + intros _. destruct (v_running _ _ _ HI) as [?|Hr]; [by left|by left|right].
      destruct Hr as (c & p & Hc & Hp). exists c, p. by rewrite Et.
Qed.
End env.
