(* ===== verification/RtosQueueIsr.v ===== *)
(** * Interrupt handlers that use a queue

    xQueueGenericSendFromISR(), xQueueGiveFromISR() and xQueueReceiveFromISR()
    at any moment, also while a task has the queue locked. *)

From Stdlib Require Import ZArith Lia.
From stdpp Require Import gmap.
From S2P Require Import Prelude RtosList RtosListSpec RtosKernel RtosKernelSpec RtosTime RtosSched RtosBoot RtosSafety RtosServices RtosQueue RtosQueueKernel RtosQueueData RtosQueueSystem RtosQueueInv RtosQueueSteps RtosQueueMoves RtosQueueWake RtosQueueSections RtosQueueEnv.
Local Open Scope Z_scope.
Local Open Scope pim_scope.

(** What an interrupt handler does to a queue, when it releases [n d] tasks that
    wait in direction [d]. *)
Record isr_change (n : dir → nat) (q q' : Queue_t) : Prop := {
  ic_ok : queue_ok q';
  ic_length : uxLength q' = uxLength q;
  ic_size : uxItemSize q' = uxItemSize q;
  ic_mutex : is_mutex q = false;
  ic_mutex' : is_mutex q' = false;
  ic_tx : ∀ b, locked b (cTxLock q) → locked b (cTxLock q');
  ic_rx : ∀ b, locked b (cRxLock q) → locked b (cRxLock q');
  ic_bound : ∀ d, avail d q' - held_back d q' <= avail d q - held_back d q + Z.of_nat (n d);
  ic_locked : ∀ d, 0 <= cTxLock q → 0 <= cRxLock q → n d = O
}.

Lemma no_holder q : is_mutex q = false → holder q = None.
Proof. unfold is_mutex, holder. by destruct (use q). Qed.

(** The change by a handler that puts an item, and by one that takes one. *)
Definition toward (d : dir) (m : nat) (d' : dir) : nat :=
  match d, d' with ToSend, ToSend | ToReceive, ToReceive => m | _, _ => O end.

Lemma queue_int8_small n : -129 < n < 128 → int8 n = n.
Proof. intros H. unfold int8. rewrite Z.mod_small by lia. lia. Qed.

Section change.
Variable (q q1 : Queue_t).
Hypothesis Hok : queue_ok q1.
Hypothesis Hsh : same_shape q q1.
Hypothesis Hm : is_mutex q = false.
Hypothesis Hm1 : is_mutex q1 = false.

(** The lock of the other side is left alone; that of this side counts, unless
    the queue is unlocked. *)
Lemma sent_change (m : nat) :
  uxMessagesWaiting q <= uxMessagesWaiting q1 <= uxMessagesWaiting q + 1 → cTxLock q < 127 →
  m = (if cTxLock q =? queueUNLOCKED then 1%nat else 0%nat) →
  isr_change (toward ToReceive m) q
    (if cTxLock q =? queueUNLOCKED then q1 else with_tx (int8 (cTxLock q + 1)) q1).
Proof.
  intros Hmg Htx ->. destruct Hsh as [L Sz Rx Tx]. pose proof (q_tx _ Hok) as Htq. rewrite Tx in Htq. unfold queueUNLOCKED in *.
  destruct (Z.eqb_spec (cTxLock q) (-1)) as [E|E]; split; rewrite ?queue_int8_small by lia; simpl; try done; try congruence.
  - intros []; unfold held_back; simpl; rewrite ?Rx, ?Tx, ?L; lia.
  - intros d ?. lia.
  - change (with_tx (cTxLock q + 1) q1) with (with_locks (cRxLock q1) (cTxLock q + 1) q1). apply alike_locks; [done|apply Hok|lia].
  - intros []; simpl; unfold queueUNLOCKED; lia.
  - intros []; unfold held_back; simpl; rewrite ?Rx, ?L; lia.
  - intros [] ? ?; done.
Qed.

Lemma received_change (m : nat) :
  uxMessagesWaiting q1 <= uxMessagesWaiting q <= uxMessagesWaiting q1 + 1 → cRxLock q < 127 →
  m = (if cRxLock q =? queueUNLOCKED then 1%nat else 0%nat) →
  isr_change (toward ToSend m) q
    (if cRxLock q =? queueUNLOCKED then q1 else with_rx (int8 (cRxLock q + 1)) q1).
Proof.
  intros Hmg Htx ->. destruct Hsh as [L Sz Rx Tx]. pose proof (q_rx _ Hok) as Htq. rewrite Rx in Htq. unfold queueUNLOCKED in *.
  destruct (Z.eqb_spec (cRxLock q) (-1)) as [E|E]; split; rewrite ?queue_int8_small by lia; simpl; try done; try congruence.
  - intros []; unfold held_back; simpl; rewrite ?Rx, ?Tx, ?L; lia.
  - intros d ?. lia.
  - change (with_rx (cRxLock q + 1) q1) with (with_locks (cRxLock q + 1) (cTxLock q1) q1). apply alike_locks; [done|lia|apply Hok].
  - intros []; simpl; unfold queueUNLOCKED; lia.
  - intros []; unfold held_back; simpl; rewrite ?Tx, ?L; lia.
  - intros [] ? ?; done.
Qed.
End change.

Lemma wp_on_rt_inv {A} (m : R A) (Q : A → sys → Prop) s :
  wp (on_rt m) Q s → wp m (λ a r, Q a (Sys r (calls s))) (rt s).
Proof. unfold wp, on_rt. by destruct (m (rt s)) as [[a r]|]. Qed.

Lemma sys_eta s : Sys (rt s) (calls s) = s.
Proof. by destruct s. Qed.

Section isr.
Variable (idle t : task) (s : sys) (x : positive) (q : Queue_t).
Hypothesis HI : Inv idle t s.
Hypothesis Hq : queues (rt s) !! x = Some q.

Lemma isr_done k' q' n :
  isr_change n q q' → KInv idle k' → quiet (k_of s) k' → (∀ d, woke idle d x (n d) (k_of s) k') →
  Inv idle t (Sys (Rtos k' (<[x := q']> (queues (rt s)))) (calls s)).
Proof.
  intros [Hok L Sz Hm Hm' Tx Rx Hbound Hlocked] K Qt W. pose proof Qt as [C M S P].
  assert (holder q' = holder q) as Hh by (by rewrite !no_holder).
  assert (partial_alter (λ _, calls s !! t) t (calls s) = calls s) as Ecs.
  { apply map_eq. intros i. destruct (decide (i = t)) as [->|]; [by rewrite lookup_partial_alter_eq|by rewrite lookup_partial_alter_ne]. }
  pose proof (local_step idle t s k' x q q' (calls s !! t) HI Hq K (calm_weaken _ _ _ C)) as Hstep. simpl in Hstep.
  rewrite Ecs in Hstep. apply Hstep; clear Hstep.
  - split; try done; [congruence|]. intros h _. by rewrite Hh.
  - intros p c Ec. split; [intros ->; pose proof (v_idle _ _ _ HI); congruence|].
    destruct (v_call _ _ _ HI _ _ _ Ec) as (_ & q0 & E0 & Hc0). destruct (decide (c_queue c = x)) as [Ex|Hne].
    + exists q'. rewrite Ex, lookup_insert_eq. split; [done|]. assert (q0 = q) as -> by congruence.
      eapply call_ok_refl_queue; [..|exact Hc0]; congruence.
    + exists q0. by rewrite lookup_insert_ne.
  - rewrite S. apply HI.
  - done.
  - pose proof (v_locks _ _ _ HI _ _ Hq) as Hl. destruct (calls s !! t) as [[p c]|]; simpl in *; destruct Hl as [Hl1 Hl2].
    + split; [by apply Tx|by apply Rx].
    + split; [by apply (Tx false)|by apply (Rx false)].
  - rewrite S. intros H. destruct (v_running _ _ _ HI) as [?|Hr]; [|by left|right; by apply C].
    destruct H as [?|E]; [by left|right]. destruct (decide (vars (k_of s) pendSV = 0)); [done|]. by destruct P.
  - intros d x1 E. apply (waiting_after (k_of s)) in E; [|done]. by apply (v_waiting _ _ _ HI).
  - intros d x1 _. by apply waiting_after.
  - intros d x1 _ Hin. destruct (claimant_elim _ _ _ _ Hin) as (p & c & Ec & Hp & <- & <- & Hn). apply (claimant_intro _ t p c); [done|done|].
    simpl. intros E. by apply Hn, (waiting_after (k_of s) k').
  - intros d Hex. pose proof (woken_wake idle t s k' x q q' (calls s !! t) HI Hq d (n d) false (W d)) as Hw. simpl in Hw. rewrite Ecs in Hw.
    apply Hw; [| |specialize (Hbound d); lia|done].
    + intros E. destruct (v_waiting _ _ _ HI _ _ _ E) as (p & c & Ec & Hd & Hx & Hp). exists p, c. split_and!; try done.
      by destruct p as [| | | | | | |[]|[]|[]| | | |].
    + intros _ Hin. destruct (claimant_elim _ _ _ _ Hin) as (p & c & Ec & Hp & <- & <- & Hn). apply (claimant_intro _ t p c); [done|done|].
      simpl. intros E. by apply Hn, (waiting_after (k_of s) k').
  - intros p c q1 Ec Hp E1. destruct (decide (c_queue c = x)) as [Ex|Hne].
    + rewrite Ex, lookup_insert_eq in E1. injection E1 as <-.
      assert (queues (rt s) !! c_queue c = Some q) as Hq' by by rewrite Ex.
      pose proof (v_seen _ _ _ HI _ _ _ Ec Hp Hq') as Hs. pose proof (v_locks _ _ _ HI _ _ Hq) as Hl. rewrite Ec in Hl. simpl in Hl.
      rewrite bool_decide_eq_true_2 in Hl by done. pose proof (Hbound (api_dir (c_api c))) as Hb.
      rewrite Hlocked in Hb; [lia|..]; destruct Hp as [->| ->]; apply Hl.
    + rewrite lookup_insert_ne in E1 by done. by eapply (v_seen _ _ _ HI).
  - intros t' Ht'. rewrite M. unfold none_held. rewrite Z.add_0_r. apply (cm_dom _ _ _ C) in Ht'. rewrite (v_mutexes _ _ _ HI _ Ht').
    do 2 f_equal. symmetry. by eapply held_same.
Qed.

Lemma isr_finish d m q' e b k1 :
  isr_change (toward d m) q q' → woke idle d x m (k_of s) k1 → quiet (k_of s) k1 →
  spec_event e (abs s) = Some (<[x := abs_queue q']> (abs s)) →
  wp (yield_from_isr b;; ret (Some e)) (keeps idle s) (Sys (Rtos k1 (<[x := q']> (queues (rt s)))) (calls s)).
Proof.
  intros Hch W Q He. apply wp_bind. apply (wp_yield_from_isr idle); [apply W|]. intros k2 K2 Q2. apply wp_ret.
  assert (quiet (k_of s) k2) as Q' by by etrans. split.
  - exists t. simpl. eapply isr_done; [done|done|done|]. intros d'.
    assert (woke idle d x m (k_of s) k2) as W2 by (eapply woke_calm; [done|done|apply Q2]).
    assert (∀ d1, woke idle d1 x 0 (k_of s) k2) as W0 by (intros; apply woke_zero; [done|apply Q']).
    by destruct d, d'.
  - simpl. rewrite He. f_equal. unfold abs. simpl. by rewrite fmap_insert.
Qed.

Lemma isr_nothing e : spec_event e (abs s) = Some (abs s) → wp (yield_from_isr false;; ret (Some e)) (keeps idle s) s.
Proof. intros He. apply wp_bind, wp_ret, wp_ret. split; [by exists t|done]. Qed.

Lemma storage_ok : queue_ok q.
Proof. by eapply (v_queue _ _ _ HI). Qed.

(** A full and an empty queue. *)
Lemma was_full : is_mutex q = false → uxLength q <= uxMessagesWaiting q → spec_event (WasFull x) (abs s) = Some (abs s).
Proof.
  intros Hm Hge. pose proof storage_ok as Hok. pose proof (q_messages _ Hok). simpl. rewrite (abs_lookup _ _ _ Hq), abs_storage by done.
  rewrite contents_length by done. by rewrite (proj2 (Z.eqb_eq _ _)) by lia.
Qed.

Lemma was_empty : is_mutex q = false → uxMessagesWaiting q <= 0 → spec_event (WasEmpty x) (abs s) = Some (abs s).
Proof.
  intros Hm Hle. pose proof (contents_length q storage_ok Hm) as Hl. simpl. rewrite (abs_lookup _ _ _ Hq), abs_storage by done.
  destruct (contents q); [done|]. simpl in Hl. lia.
Qed.

Lemma put_agrees who pos item q' :
  is_mutex q = false → is_mutex q' = false → uxLength q' = uxLength q → may_put q pos → contents q' = put pos item (contents q) →
  spec_event (Put who x pos item) (abs s) = Some (<[x := abs_queue q']> (abs s)).
Proof.
  intros Hm Hm' L Hput Ec. pose proof storage_ok as Hok. pose proof (q_messages _ Hok). simpl.
  rewrite (abs_lookup _ _ _ Hq), !abs_storage by done. rewrite Ec, L, contents_length, Z2Nat.id by (done || lia).
  destruct pos; simpl in Hput; [by rewrite (proj2 (Z.ltb_lt _ _) Hput)..|]. by rewrite (proj2 (Z.eqb_eq _ _)) by apply Hput.
Qed.

(** The end of a handler that put an item: [q1] is the queue with the item. *)
Lemma isr_puts q1 pos item :
  same_shape q q1 → queue_ok q1 → is_mutex q = false → is_mutex q1 = false → may_put q pos → cTxLock q < 127 →
  contents q1 = put pos item (contents q) →
  wp (on_rt (if cTxLock q =? queueUNLOCKED then
               woken ← unblock_from_isr (xTasksWaitingToReceive x);
               ret (true, woken)
             else update x (with_tx (int8 (cTxLock q + 1)));; ret (true, false)))
    (λ '(ok, woken) s1, ok = true ∧ wp (yield_from_isr woken;; ret (Some (Put None x pos item))) (keeps idle s) s1)
    (Sys (Rtos (k_of s) (<[x := q1]> (queues (rt s)))) (calls s)).
Proof.
  intros Sh Hok Hm Hm1 Hput Htx Ec. pose proof storage_ok as Hq0.
  pose proof (contents_length q Hq0 Hm) as Hl. pose proof (contents_length q1 Hok Hm1) as Hl1. rewrite Ec in Hl1.
  pose proof (q_messages _ Hq0). pose proof (q_messages _ Hok). pose proof (ss_length _ _ Sh).
  assert (uxMessagesWaiting q <= uxMessagesWaiting q1 <= uxMessagesWaiting q + 1) as Hmg.
  { destruct pos; simpl in Hput, Hl1; rewrite ?length_app in Hl1; simpl in Hl1; lia. }
  pose proof (sent_change q q1 Hok Sh Hm Hm1 _ Hmg Htx eq_refl) as Hch.
  assert (abs_queue (if cTxLock q =? queueUNLOCKED then q1 else with_tx (int8 (cTxLock q + 1)) q1) = abs_queue q1) as Ea by by case_match.
  apply wp_on_rt. destruct (Z.eqb_spec (cTxLock q) queueUNLOCKED) as [E|E].
  - apply wp_bind. eapply wp_mono; [apply (unblock_from_isr_ok idle ToReceive), HI|]. intros b r (k1 & -> & W & Q). apply wp_ret.
    split; [done|]. cbn [queues kern]. eapply (isr_finish ToReceive); [exact Hch|done..|]. apply put_agrees; try done.
  - apply wp_bind. eapply wp_update_queue; [apply lookup_insert_eq|]. apply wp_ret. split; [done|]. cbn [queues kern calls rt]. rewrite insert_insert_eq.
    eapply (isr_finish ToReceive 0); [exact Hch|by apply woke_zero; [apply HI|]|done|]. rewrite Ea. by apply put_agrees.
Qed.

Lemma step_send_from_isr item pos :
  is_mutex q = false → item_ok q item pos = true → cTxLock q < 127 → wp (sys_step (SendFromISR x item pos)) (keeps idle s) s.
Proof.
  intros Hm [Hlen%bool_decide_eq_true Hover]%andb_true_iff Htx. pose proof storage_ok as Hok.
  apply wp_bind, wp_on_rt. unfold xQueueGenericSendFromISR. apply wp_bind. eapply wp_queue; [done|]. apply wp_bind. eapply wp_assert.
  { destruct pos; [done..|]. apply andb_true_iff in Hover as [E _]. by rewrite E. }
  destruct ((uxMessagesWaiting q <? uxLength q) || bool_decide (pos = queueOVERWRITE)) eqn:Eroom.
  - assert (may_put q pos) as Hput.
    { destruct pos; simpl in Hover, Eroom |- *; rewrite ?orb_false_r, ?Z.ltb_lt in Eroom; try done.
      apply andb_true_iff in Hover as [?%Z.eqb_eq ?%Z.ltb_lt]. done. }
    apply wp_bind. eapply wp_mono; [by apply copy_to_ok|]. intros b r (-> & q1 & -> & [Cok Csh Cm Cc]).
    pose proof (isr_puts q1 pos item Csh Cok Hm Cm Hput Htx Cc) as Hputs. apply wp_on_rt_inv in Hputs.
    eapply wp_mono; [exact Hputs|]. intros [ok woken] r [-> Hw]. exact Hw.
  - apply wp_ret. rewrite sys_eta. apply orb_false_iff in Eroom as [Hge%Z.ltb_ge _]. by apply isr_nothing, was_full.
Qed.

Lemma step_give_from_isr :
  is_mutex q = false → uxItemSize q = 0 → cTxLock q < 127 → wp (sys_step (GiveFromISR x)) (keeps idle s) s.
Proof.
  intros Hm Hsz Htx. pose proof storage_ok as Hok. pose proof (q_messages _ Hok). pose proof (q_length _ Hok).
  apply wp_bind, wp_on_rt. unfold xQueueGiveFromISR. apply wp_bind. eapply wp_queue; [done|]. apply wp_bind. eapply wp_assert; [by rewrite Hsz|].
  apply wp_bind. eapply wp_assert; [unfold is_mutex in Hm; by destruct (use q)|].
  destruct (Z.ltb_spec (uxMessagesWaiting q) (uxLength q)) as [Hlt|Hge].
  - apply wp_bind. eapply wp_update_queue; [done|]. assert (u32 (uxMessagesWaiting q + 1) = uxMessagesWaiting q + 1) as -> by (apply Z.mod_small; lia).
    set (q1 := with_messages _ q). assert (queue_ok q1) as Hok1 by (apply semaphore_ok; [done..|lia]).
    assert (contents q1 = put queueSEND_TO_BACK [] (contents q)) as Ec.
    { rewrite !contents_semaphore by done. simpl. rewrite Z2Nat.inj_add, Nat.add_1_r by lia. apply (replicate_S_end _ []). }
    pose proof (isr_puts q1 queueSEND_TO_BACK [] ltac:(done) Hok1 Hm Hm Hlt Htx Ec) as Hputs. apply wp_on_rt_inv in Hputs.
    eapply wp_mono; [exact Hputs|]. intros [ok woken] r [-> Hw]. exact Hw.
  - apply wp_ret. rewrite sys_eta. by apply isr_nothing, was_full.
Qed.

Lemma step_receive_from_isr :
  is_mutex q = false → cRxLock q < 127 → wp (sys_step (ReceiveFromISR x)) (keeps idle s) s.
Proof.
  intros Hm Hrx. pose proof storage_ok as Hok. pose proof (q_messages _ Hok). pose proof (q_length _ Hok).
  apply wp_bind, wp_on_rt. unfold xQueueReceiveFromISR. apply wp_bind. eapply wp_queue; [done|].
  destruct (Z.ltb_spec 0 (uxMessagesWaiting q)) as [Hpos|Hz].
  2: { apply wp_ret. rewrite sys_eta. apply isr_nothing, was_empty; [done|lia]. }
  pose proof (contents_length q Hok Hm) as Hl. destruct (contents q) as [|item items] eqn:Ec; [simpl in Hl; lia|].
  apply wp_bind. eapply copy_from_ok; [done..|]. intros q' Hok' Sh Hm' Hmg Ec' _.
  apply wp_bind. eapply wp_update_queue; [apply lookup_insert_eq|]. cbn [kern queues]. rewrite insert_insert_eq.
  assert (u32 (uxMessagesWaiting q - 1) = uxMessagesWaiting q - 1) as -> by (apply Z.mod_small; lia).
  set (q1 := with_messages _ q') in *. assert (same_shape q q1) as Sh1 by by destruct Sh.
  assert (uxMessagesWaiting q1 <= uxMessagesWaiting q <= uxMessagesWaiting q1 + 1) as Hb by (simpl; lia).
  pose proof (received_change q q1 Hok' Sh1 Hm Hm' _ Hb Hrx eq_refl) as Hch.
  assert (spec_event (Got None x item) (abs s) = Some (<[x := abs_queue q1]> (abs s))) as He.
  { simpl. rewrite (abs_lookup _ _ _ Hq), !abs_storage, Ec, decide_True by done. by rewrite Ec', (ss_length _ _ Sh1). }
  destruct (Z.eqb_spec (cRxLock q) queueUNLOCKED) as [E|E].
  - apply wp_bind. eapply wp_mono; [apply (unblock_from_isr_ok idle ToSend), HI|]. intros b r (k1 & -> & W & Q). apply wp_ret.
    cbn [queues kern]. by eapply (isr_finish ToSend).
  - apply wp_bind. eapply wp_update_queue; [apply lookup_insert_eq|]. apply wp_ret. cbn [queues kern]. rewrite insert_insert_eq.
    by eapply (isr_finish ToSend 0); [exact Hch|apply woke_zero; [apply HI|]|..].
Qed.
End isr.
