(* ===== verification/RtosQueueBegin.v ===== *)
(** * A task calls a function of queue.c

    The functions up to their first critical section, and what the contract of a
    call gives. *)

From Stdlib Require Import ZArith Lia.
From stdpp Require Import gmap.
From S2P Require Import Prelude RtosList RtosListSpec RtosKernel RtosKernelSpec RtosTime RtosSched RtosBoot RtosSafety RtosServices RtosQueue RtosQueueKernel RtosQueueData RtosQueueSystem RtosQueueInv RtosQueueSteps RtosQueueMoves RtosQueueWake RtosQueueEnv.
Local Open Scope Z_scope.
Local Open Scope pim_scope.

Lemma ticks_ok_range n : ticks_ok n = true → 0 <= n < EPOCH.
Proof. unfold ticks_ok. rewrite andb_true_iff, !Z.leb_le. unfold portMAX_DELAY, EPOCH. lia. Qed.

Lemma mutex_ticks_cases n : mutex_ticks_ok n = true → n = 0 ∨ n = portMAX_DELAY.
Proof. unfold mutex_ticks_ok. rewrite orb_true_iff, !Z.eqb_eq. done. Qed.

Lemma mutex_ticks_range n : mutex_ticks_ok n = true → 0 <= n < EPOCH.
Proof. intros [->| ->]%mutex_ticks_cases; done. Qed.

(** A call that has just begun. *)
Lemma fresh_call t a x ticks q :
  0 <= ticks < EPOCH →
  match a with
  | Send item pos => item_ok q item pos = true ∧ (is_mutex q = true → holder q = Some t)
  | Receive | Peek => is_mutex q = false
  | SemaphoreTake recursive => uxItemSize q = 0 ∧ (recursive = true → is_mutex q = true) ∧
      (is_mutex q = true → mutex_ticks_ok ticks = true)
  end → call_ok t Section_ (Call a x ticks None false) q.
Proof.
  intros Ht Ha. split; simpl; try done; [by intros [|[]]|]. destruct a; try done.
  - destruct Ha as [? Ha]. split; [done|]. intros Hm. split; [done|]. by apply Ha.
  - destruct Ha as (? & ? & Ha). split_and!; [done..|]. intros Hm. destruct (mutex_ticks_cases _ (Ha Hm)) as [->| ->]; auto.
Qed.

Section begin.
Variable (idle t : task) (s : sys) (x : positive) (q : Queue_t).
Hypothesis HI : Inv idle t s.
Hypothesis Hq : queues (rt s) !! x = Some q.
Hypothesis Hmay : is_Some (may_call idle s).

(** What calls have in common at their beginning. *)
Lemma begin_done q' n :
  alike q q' → cTxLock q' = cTxLock q → cRxLock q' = cRxLock q →
  (∀ p c, next_call n = Some (p, c) → p = Section_ ∧ c_queue c = x ∧ call_ok t Section_ c q') →
  kept idle t s None (Sys (Rtos (k_of s) (<[x := q']> (queues (rt s)))) (partial_alter (λ _, next_call n) t (calls s))).
Proof.
  intros Ha Etx Erx Hn. destruct (caller _ _ _ HI Hmay) as (Hne & Hno & Hp & Hs & Hr & Hw).
  assert (∀ d x1, t ∉ claimants s d x1) as Hnc.
  { intros d x1 Hin. destruct (claimant_elim _ _ _ _ Hin) as (p & c & Ec & _). congruence. }
  split; [|simpl; eapply abs_same; [exact Hq|done|apply Ha]].
  apply (local_step idle t s (k_of s) x q q' (next_call n) HI Hq (v_kernel _ _ _ HI) (calm_refl _ _)); try done.
  - by apply alike_frame.
  - intros p c E. split; [done|]. destruct (Hn _ _ E) as (-> & -> & Hc). exists q'. simpl. by rewrite lookup_insert_eq.
  - rewrite Hs. destruct (next_call n) as [[p c]|] eqn:E; [|done]. by destruct (Hn _ _ eq_refl) as (-> & _).
  - intros x1 q1 _. rewrite Hno. destruct (next_call n) as [[p c]|] eqn:E; [|done]. destruct (Hn _ _ eq_refl) as (-> & _).
    simpl. by rewrite andb_false_r.
  - pose proof (v_locks _ _ _ HI _ _ Hq) as Hl. rewrite Hno in Hl. simpl in Hl. rewrite <-Etx, <-Erx in Hl.
    destruct (next_call n) as [[p c]|] eqn:E; [|done]. destruct (Hn _ _ eq_refl) as (-> & _). simpl. by rewrite andb_false_r.
  - by right.
  - intros d x1 E. congruence.
  - intros d x1 _ Hin. by destruct (Hnc d x1).
  - intros d Hex. eapply (local_wake idle t s (k_of s) x q q' (next_call n) HI Hq (calm_refl _ _) d false ∅); try done.
    + intros _ Hin. by destruct (Hnc d x).
    + rewrite (alike_avail d q q' Ha). unfold held_back. rewrite Etx, Erx, size_empty. lia.
  - intros p c q1 E. destruct (Hn _ _ E) as (-> & _). by intros [|].
  - intros t' Ht'. rewrite (v_mutexes _ _ _ HI _ Ht'). do 2 f_equal. symmetry. eapply held_same; [exact Hq|done|apply Ha].
Qed.

Lemma wp_start_call a ticks (Q : next → rtos → Prop) r :
  kern r = k_of s → Q (Go Section_ (Call a x ticks None false)) r → wp (start_call a x ticks) Q r.
Proof.
  intros Ek HQ. destruct (caller _ _ _ HI Hmay) as (_ & _ & _ & Hs & _). apply wp_bind, wp_bind, wp_on_kernel. rewrite Ek.
  apply wp_bind, wp_gets, wp_bind, wp_gets, wp_ret. rewrite (proj2 (Z.eqb_neq _ _) (ki_running _ _ (v_kernel _ _ _ HI))), Hs. simpl.
  rewrite <-Ek, rtos_eta. exact HQ.
Qed.

Lemma wp_begin r (Q : option event → sys → Prop) :
  wp (begin_call x r) (λ n r', Q None (Sys r' (partial_alter (λ _, next_call n) t (calls s)))) (rt s) → wp (sys_step (Begin x r)) Q s.
Proof.
  intros H. apply wp_bind. eapply wp_running; [done|]. apply wp_bind, wp_on_rt. eapply wp_mono; [exact H|]. intros n r' HQ.
  apply wp_bind, wp_modify, wp_ret. exact HQ.
Qed.

Lemma begin_storage a ticks :
  call_ok t Section_ (Call a x ticks None false) q →
  wp (start_call a x ticks) (λ n r', kept idle t s None (Sys r' (partial_alter (λ _, next_call n) t (calls s)))) (rt s).
Proof.
  intros Hc. apply wp_start_call; [done|]. rewrite <-(rtos_eta (rt s)).
  replace (queues (rt s)) with (<[x := q]> (queues (rt s))) at 1 by by apply insert_id.
  eapply begin_done; [apply alike_refl; by eapply (v_queue _ _ _ HI)|done|done|]. by intros p c [= <- <-].
Qed.

Lemma step_begin r : request_ok t q r = true → wp (sys_step (Begin x r)) (keeps idle s) s.
Proof.
  intros Hr. apply wp_begin. apply (wp_mono _ (λ n r', kept idle t s None (Sys r' (partial_alter (λ _, next_call n) t (calls s)))));
    [|by intros n r'; apply kept_keeps].
  pose proof (v_queue _ _ _ HI _ _ Hq) as Hqok. apply wp_bind. eapply wp_queue; [done|].
  destruct r as [item ticks pos|ticks|ticks|ticks|ticks|]; simpl in Hr.
  - apply andb_true_iff in Hr as [[Hi Ht]%andb_true_iff Hh]. apply wp_bind. eapply wp_assert.
    { unfold item_ok in Hi. destruct pos; [done..|]. by rewrite !andb_true_iff in Hi; destruct Hi as (_ & -> & _). }
    apply begin_storage, fresh_call; [by apply ticks_ok_range|]. split; [done|]. unfold is_mutex, holder.
    destruct (use q); [done|]. intros _. by apply bool_decide_eq_true in Hh.
  - apply andb_true_iff in Hr as [Hm Ht]. apply begin_storage, fresh_call; [by apply ticks_ok_range|]. by apply negb_true_iff.
  - apply andb_true_iff in Hr as [Hm Ht]. apply begin_storage, fresh_call; [by apply ticks_ok_range|]. by apply negb_true_iff.
  - apply andb_true_iff in Hr as [[Hsz Ht]%andb_true_iff Hm]. apply wp_bind. eapply wp_assert; [done|].
    apply begin_storage, fresh_call; [by apply ticks_ok_range|]. split_and!; [by apply Z.eqb_eq|done|].
    intros E. by rewrite E in Hm.
  - apply andb_true_iff in Hr as [Hm Ht]. unfold is_mutex in Hm. destruct (use q) as [|h n] eqn:Hu; [done|].
    apply wp_bind. unfold mutex. rewrite Hu. apply wp_ret. apply wp_bind, wp_on_kernel, wp_gets. rewrite rtos_eta.
    pose proof (q_use _ Hqok) as U. rewrite Hu in U. destruct U as [Hsz _]. case_bool_decide as Eh.
    + apply wp_bind. unfold set_count. eapply wp_update_queue; [done|]. rewrite Hu. apply wp_ret.
      eapply (begin_done _ (Return (pdPASS []))); try done. by eapply alike_count.
    + apply wp_bind. eapply wp_assert; [by rewrite Hsz|]. apply begin_storage, fresh_call; [by apply mutex_ticks_range|].
      split_and!; [done|..|done]. intros _. unfold is_mutex. by rewrite Hu.
  - unfold is_mutex in Hr. destruct (use q) as [|h n] eqn:Hu; [done|].
    apply wp_bind. unfold mutex. rewrite Hu. apply wp_ret. apply wp_bind, wp_on_kernel, wp_gets. rewrite rtos_eta.
    pose proof (q_use _ Hqok) as U. rewrite Hu in U. destruct U as [Hsz _]. case_bool_decide as Eh.
    + apply wp_bind. unfold set_count. eapply wp_update_queue; [done|]. rewrite Hu.
      set (q' := with_use _ q). assert (alike q q') as Ha by by eapply alike_count. destruct (_ =? 0).
      * apply wp_start_call; [done|]. eapply begin_done; [done..|]. intros p c [= <- <-]. split_and!; [done|done|].
        apply fresh_call; [done|]. split; [by unfold item_ok; rewrite (al_size _ _ Ha), Hsz|]. intros _. rewrite (al_holder _ _ Ha). unfold holder. rewrite Hu, Eh. apply HI.
      * apply wp_ret. by eapply (begin_done _ (Return (pdPASS []))).
    + apply wp_ret. rewrite <-(rtos_eta (rt s)).
      replace (queues (rt s)) with (<[x := q]> (queues (rt s))) at 1 by by apply insert_id.
      by eapply (begin_done _ (Return pdFAIL)); [apply alike_refl|..].
Qed.
End begin.
