(* ===== verification/RtosQueueLaunch.v ===== *)
(** * A system with queues

    An application creates its queues, semaphores and mutexes and its tasks, and
    starts the scheduler; the invariant of RtosQueueInv.v holds from there on. *)

From Stdlib Require Import ZArith Lia.
From stdpp Require Import gmap.
From S2P Require Import Prelude RtosList RtosListSpec RtosKernel RtosKernelSpec RtosTime RtosSched RtosBoot RtosSafety RtosServices RtosQueue RtosQueueKernel RtosQueueData RtosQueueSystem RtosQueueInv RtosQueueSteps RtosQueueMoves.
Local Open Scope Z_scope.
Local Open Scope pim_scope.

Inductive new_queue :=
  | NewQueue (uxQueueLength uxItemSize : Z)
  | NewCounting (uxMaxCount uxInitialCount : Z)
  | NewMutex.

Definition create_queue (malloc : Z → option (list Z)) (x : positive) (n : new_queue) : R (option positive) :=
  match n with
  | NewQueue uxQueueLength uxItemSize => xQueueGenericCreate malloc x uxQueueLength uxItemSize
  | NewCounting uxMaxCount uxInitialCount => xQueueCreateCountingSemaphore malloc x uxMaxCount uxInitialCount
  | NewMutex => xQueueCreateMutex malloc x
  end.

Fixpoint create_queues (malloc : Z → option (list Z)) (qs : list (positive * new_queue)) : R unit :=
  match qs with
  | [] => ret tt
  | (x, n) :: qs => _ ← create_queue malloc x n; create_queues malloc qs
  end.

Fixpoint create_tasks (ts : list (task * Z)) : K unit :=
  match ts with
  | [] => ret tt
  | (t, p) :: ts => xTaskCreate t p;; create_tasks ts
  end.

Definition launch (malloc : Z → option (list Z)) (qs : list (positive * new_queue)) (ts : list (task * Z)) (idle : task) : R unit :=
  create_queues malloc qs;;
  on_kernel (create_tasks ts;; vTaskStartScheduler idle).

(** The system that [launch] makes from nothing. *)
Definition rtos0 : rtos := Rtos kernel0 ∅.

Definition launched (malloc : Z → option (list Z)) (qs : list (positive * new_queue)) (ts : list (task * Z)) (idle : task) : option sys :=
  match launch malloc qs ts idle rtos0 with Some (_, r) => Some (Sys r ∅) | None => None end.

(** *** What may be created *)

Definition new_ok (n : new_queue) : bool :=
  match n with
  | NewQueue l sz => (0 <? l) && (l <? 2 ^ 32) && (0 <=? sz) && (l * sz <? 2 ^ 32)
  | NewCounting m i => (0 <? m) && (m <? 2 ^ 32) && (0 <=? i) && (i <=? m)
  | NewMutex => true
  end.

(** The bytes that are allocated beside the control block, and what the queue is
    for its users. *)
Definition new_bytes (n : new_queue) : Z := match n with NewQueue l sz => l * sz | _ => 0 end.

Definition new_abs (n : new_queue) : aqueue :=
  match n with
  | NewQueue l _ => AQueue l []
  | NewCounting m i => AQueue m (replicate (Z.to_nat i) [])
  | NewMutex => AMutex None
  end.

Definition config_ok (qs : list (positive * new_queue)) (ts : list (task * Z)) (idle : task) : bool :=
  bool_decide (NoDup qs.*1) && forallb (λ xn, new_ok xn.2) qs && (Z.of_nat (length qs) <? 2 ^ 32 - 1) &&
  bool_decide (NoDup (idle :: ts.*1)) && forallb (λ tp, 0 <=? tp.2) ts && (Z.of_nat (length ts) <? 2 ^ 32 - 2).

(** ** Queues in a kernel without tasks *)

Record pristine (k : kernel) : Prop := {
  pr_tasks : tasks k = ∅;
  pr_lists : ∀ l, lists k l = AList [] None;
  pr_vars : vars k = (λ _, 0);
  pr_cur : pxCurrentTCB k = None;
  pr_delayed : pxDelayedTaskList k = xDelayedTaskList1 ∧ pxOverflowDelayedTaskList k = xDelayedTaskList2
}.

Lemma pristine_inv k : pristine k → inv None k.
Proof.
  intros [T L V C [D1 D2]]. split; rewrite ?T, ?V, ?C, ?D1, ?D2; try done; [split| |by left|..].
  - intros l t. rewrite L. simpl. split; [by intros ?%not_elem_of_nil|done].
  - done.
  - intros l. rewrite L. by split; [constructor|].
  - intros p. by rewrite L.
  - rewrite L. constructor.
  - rewrite L. constructor.
Qed.

Lemma pristine_put k l : pristine k →
  wp (put_list l (AList [] None)) (λ _ k', pristine k') k.
Proof.
  intros [T L V C D]. apply wp_modify. split; try done. intros l'. simpl. destruct (decide (l' = l)) as [->|]; [by rewrite upd_eq|].
  by rewrite upd_ne.
Qed.

Section creation.
Variable malloc : Z → option (list Z).
Hypothesis malloc_length : ∀ n bs, malloc n = Some bs → Z.of_nat (length bs) = n.

(** A queue after its creation. *)
Record fresh (n : new_queue) (q : Queue_t) : Prop := {
  fr_ok : queue_ok q;
  fr_rx : cRxLock q = queueUNLOCKED;
  fr_tx : cTxLock q = queueUNLOCKED;
  fr_holder : holder q = None;
  fr_abs : abs_queue q = new_abs n
}.

Lemma generic_create_ok x l sz r :
  pristine (kern r) → new_ok (NewQueue l sz) = true →
  wp (xQueueGenericCreate malloc x l sz) (λ o r', pristine (kern r') ∧
    match malloc (l * sz) with
    | Some _ => o = Some x ∧ ∃ q, queues r' = <[x := q]> (queues r) ∧ fresh (NewQueue l sz) q ∧
        uxMessagesWaiting q = 0 ∧ uxLength q = l ∧ uxItemSize q = sz ∧ is_mutex q = false
    | None => o = None ∧ queues r' = queues r
    end) r.
Proof.
  intros Hp Hn. simpl in Hn. rewrite !andb_true_iff, !Z.ltb_lt, Z.leb_le in Hn. destruct Hn as [[[Hl1 Hl2] Hs] Hb].
  apply wp_bind. eapply wp_assert; [by apply Z.ltb_lt|].
  assert ((if sz =? 0 then 0 else u32 (l * sz)) = l * sz) as ->.
  { destruct (Z.eqb_spec sz 0) as [->|]; [lia|]. apply Z.mod_small. nia. }
  cbv zeta. destruct (malloc (l * sz)) as [bs|] eqn:Em; [|by apply wp_ret].
  apply wp_bind. unfold prvInitialiseNewQueue, put_queue, xQueueGenericReset. apply wp_bind, wp_modify.
  apply wp_bind. eapply wp_queue; [apply lookup_insert_eq|]. apply wp_bind, wp_ret. apply wp_bind. unfold put_queue. apply wp_modify.
  cbn [kern queues]. rewrite insert_insert_eq. apply wp_bind, wp_on_kernel. eapply wp_mono; [by apply pristine_put|]. intros [] k1 P1.
  apply wp_on_kernel. eapply wp_mono; [by apply pristine_put|]. intros [] k2 P2. apply wp_ret. split; [done|]. split; [done|].
  eexists. split; [done|]. cbn [area uxLength uxItemSize]. set (q := Queue _ _ _ _ _ _ _ _).
  assert (queue_ok q) as Hok.
  { split; simpl; try done; [lia|]. destruct (Z.eqb_spec sz 0) as [->|]; [by left|right]. split; simpl; [lia| |by apply Z.mod_small; nia|].
    - by apply malloc_length.
    - exists (l - 1). assert (u32 ((l - 1) * sz) = (l - 1) * sz) as -> by (apply Z.mod_small; nia). split_and!; [lia|lia|lia|]. rewrite Z.add_0_r.
      replace (l - 1 + 1) with l by lia. rewrite Z_mod_same_full. lia. }
  split_and!; try done. split; try done. unfold abs_queue, contents. subst q. simpl. by destruct (sz =? 0).
Qed.

Lemma create_counting_ok x m i r :
  pristine (kern r) → new_ok (NewCounting m i) = true →
  wp (xQueueCreateCountingSemaphore malloc x m i) (λ _ r', pristine (kern r') ∧
    match malloc 0 with
    | Some _ => ∃ q, queues r' = <[x := q]> (queues r) ∧ fresh (NewCounting m i) q
    | None => queues r' = queues r
    end) r.
Proof.
  intros Hp Hn. pose proof Hn as Hn'. simpl in Hn. rewrite !andb_true_iff, !Z.ltb_lt, !Z.leb_le in Hn. destruct Hn as [[[Hl1 Hl2] Hs] Hb].
  apply wp_bind. eapply wp_assert; [apply negb_true_iff, Z.eqb_neq; lia|]. apply wp_bind. eapply wp_assert; [by apply Z.leb_le|].
  apply wp_bind. eapply wp_mono; [apply generic_create_ok; [done|]|].
  { simpl. rewrite !andb_true_iff, !Z.ltb_lt, Z.leb_le. lia. }
  intros o r1 [P1 Ho]. rewrite Z.mul_0_r in Ho. apply wp_bind. destruct (malloc 0) as [bs|].
  - destruct Ho as [-> (q & E & [F1 F2 F3 F4 F5] & Em & El & Es & Hm)]. eapply wp_update_queue; [rewrite E; apply lookup_insert_eq|]. apply wp_ret.
    split; [done|]. cbn [queues]. rewrite E, insert_insert_eq. eexists. split; [done|]. split; try done.
    + apply semaphore_ok; [done..|lia].
    + unfold is_mutex in Hm. unfold abs_queue. cbn [use with_messages]. destruct (use q); [|done].
      rewrite contents_semaphore by done. simpl. by rewrite El.
  - destruct Ho as [-> E]. apply wp_ret, wp_ret. by split.
Qed.

Lemma create_mutex_ok x r :
  pristine (kern r) →
  wp (xQueueCreateMutex malloc x) (λ _ r', pristine (kern r') ∧
    match malloc 0 with
    | Some _ => ∃ q, queues r' = <[x := q]> (queues r) ∧ fresh NewMutex q
    | None => queues r' = queues r
    end) r.
Proof.
  intros Hp. apply wp_bind. eapply wp_mono; [by apply generic_create_ok|]. intros o r1 [P1 Ho]. rewrite Z.mul_0_r in Ho. apply wp_bind.
  destruct (malloc 0) as [bs|].
  - destruct Ho as [-> (q & E & [F1 F2 F3 F4 F5] & Em & El & Es & Hm)]. destruct r1 as [k1 qs1]. cbn [kern queues] in *. subst qs1.
    destruct P1 as [T L V C D].
    unfold prvInitialiseMutex. apply wp_bind. eapply wp_update_queue; [apply lookup_insert_eq|]. cbn [kern queues]. rewrite insert_insert_eq.
    apply wp_bind. unfold begin_call. apply wp_bind. eapply wp_queue; [apply lookup_insert_eq|]. apply wp_bind, wp_ret.
    unfold start_call, may_wait. apply wp_bind, wp_bind, wp_on_kernel. apply wp_bind, wp_gets, wp_bind, wp_gets, wp_ret. cbn [kern queues].
    rewrite V. simpl. apply wp_bind. unfold xQueueGenericSend_section. apply wp_bind. eapply wp_queue; [apply lookup_insert_eq|].
    cbn [uxMessagesWaiting uxLength with_use]. rewrite Em, El. simpl. apply wp_bind. unfold prvCopyDataToQueue.
    apply wp_bind. eapply wp_queue; [apply lookup_insert_eq|]. cbn [uxItemSize with_use use uxMessagesWaiting]. rewrite Es. simpl.
    apply wp_bind, wp_bind, wp_ret. apply wp_bind. unfold set_holder. eapply wp_update_queue; [apply lookup_insert_eq|]. cbn [queues use with_use].
    rewrite insert_insert_eq. apply wp_ret. apply wp_bind. eapply wp_update_queue; [apply lookup_insert_eq|]. cbn [queues]. rewrite insert_insert_eq.
    apply wp_ret. apply wp_bind, wp_on_kernel, wp_gets. cbn [kern]. rewrite (L (xTasksWaitingToReceive x)). simpl.
    apply wp_bind, wp_ret, wp_ret, wp_ret, wp_ret. split; [done|]. eexists. split; [done|].
    rewrite Em. destruct F1 as [Q1 Q2 Q3 Q4 _]. split; try done. split; try done.
    simpl. by rewrite El.
  - destruct Ho as [-> E]. apply wp_ret, wp_ret. by split.
Qed.

Lemma create_queue_ok x n r :
  pristine (kern r) → new_ok n = true →
  wp (create_queue malloc x n) (λ _ r', pristine (kern r') ∧
    match malloc (new_bytes n) with
    | Some _ => ∃ q, queues r' = <[x := q]> (queues r) ∧ fresh n q
    | None => queues r' = queues r
    end) r.
Proof.
  intros Hp Hn. destruct n as [l sz|m i|]; [|by apply create_counting_ok|by apply create_mutex_ok].
  eapply wp_mono; [by apply generic_create_ok|]. intros o r' [P' Ho]. split; [done|]. simpl. destruct (malloc _); [|by destruct Ho].
  destruct Ho as (_ & q & E & F & _). eauto.
Qed.

Lemma create_queues_ok qs r :
  pristine (kern r) → NoDup qs.*1 → forallb (λ xn, new_ok xn.2) qs = true → (∀ x, x ∈ qs.*1 → queues r !! x = None) →
  wp (create_queues malloc qs) (λ _ r', pristine (kern r') ∧
    (∀ x, x ∉ qs.*1 → queues r' !! x = queues r !! x) ∧
    ∀ x n, (x, n) ∈ qs →
      match malloc (new_bytes n) with Some _ => ∃ q, queues r' !! x = Some q ∧ fresh n q | None => queues r' !! x = None end) r.
Proof.
  revert r. induction qs as [|[x n] qs IH]; intros r Hp Hnd Hok Hnew; simpl.
  { apply wp_ret. split_and!; [done|done|]. by intros ? ? ?%not_elem_of_nil. }
  simpl in Hnd, Hok. apply andb_true_iff in Hok as [Hn Hok]. apply NoDup_cons in Hnd as [Hx Hnd].
  apply wp_bind. eapply wp_mono; [by apply create_queue_ok|]. intros _ r1 [P1 H1].
  assert (∀ y, y ≠ x → queues r1 !! y = queues r !! y) as Hoth.
  { intros y Hy. destruct (malloc _); [destruct H1 as (q & -> & _); by rewrite lookup_insert_ne|by rewrite H1]. }
  eapply wp_mono; [apply IH; try done|].
  { intros y Hy. rewrite Hoth; [apply Hnew; by right|]. intros ->. done. }
  intros _ r2 (P2 & O2 & F2). split_and!; [done|..].
  - intros y Hy. rewrite O2, Hoth; [done|..]; set_solver.
  - intros y m [[= -> ->]|Hin]%elem_of_cons; [|by apply F2]. rewrite O2 by done. destruct (malloc _).
    + destruct H1 as (q & -> & F). exists q. by rewrite lookup_insert_eq.
    + rewrite H1. apply Hnew. by left.
Qed.
End creation.

(** ** Tasks *)

Definition newborn (c : TCB_t) : Prop :=
  ∃ p, c = set_container_of StateItem (Some (pxReadyTasksLists (clamp p))) (prvInitialiseNewTask p).

Lemma newborn_views c : newborn c → readyc c ∧ waits c = None ∧ uxMutexesHeld c = 0 ∧ task_ok c.
Proof. intros [p ->]. split_and!; [by eexists|done|done|]. by split. Qed.

Record born (n : Z) (k : kernel) : Prop := {
  bo_inv : inv None k;
  bo_tasks : ∀ t c, tasks k !! t = Some c → newborn c;
  bo_vars : ∀ x, x ∉ [uxTopReadyPriority; uxCurrentNumberOfTasks; uxTaskNumber; pendSV] → vars k x = 0;
  bo_first : pxCurrentTCB k = None → tasks k = ∅ ∧ vars k uxCurrentNumberOfTasks = 0;
  bo_number : vars k uxCurrentNumberOfTasks = n
}.

Lemma create_tasks_ok ts n k :
  born n k → 0 <= n → n + Z.of_nat (length ts) < 2 ^ 32 - 1 → NoDup ts.*1 → forallb (λ tp, 0 <=? tp.2) ts = true →
  (∀ t, t ∈ ts.*1 → tasks k !! t = None) →
  wp (create_tasks ts) (λ _ k', born (n + Z.of_nat (length ts)) k' ∧ ∀ t, t ∉ ts.*1 → tasks k' !! t = tasks k !! t) k.
Proof.
  revert n k. induction ts as [|[t p] ts IH]; intros n k B Hn Hlen Hnd Hp Hnew; simpl.
  { apply wp_ret. split; [by rewrite Z.add_0_r|done]. }
  simpl in Hnd, Hp, Hlen. apply andb_true_iff in Hp as [Hp0%Z.leb_le Hp]. apply NoDup_cons in Hnd as [Ht Hnd].
  destruct B as [I T V F N]. apply wp_bind. eapply wp_mono; [by apply create_ok; [|apply Hnew; left|..]|].
  intros _ k1 [I1 C1 T1 D1 N1 V1].
  assert (vars k1 uxCurrentNumberOfTasks = n + 1) as N1' by (rewrite N1, N; apply Z.mod_small; lia).
  eapply wp_mono; [apply (IH (n + 1)); try done; [|lia|lia|]|].
  - split; [done|..|done].
    + intros t' c'. rewrite T1, lookup_insert. case_decide; [|by apply T]. intros [= <-]. by exists p.
    + intros x Hx. rewrite V1 by done. by apply V.
    + intros E. destruct C1 as [? C1]. congruence.
  - intros t' Ht'. rewrite T1, lookup_insert_ne by (intros ->; done). apply Hnew. by right.
  - intros _ k2 [B2 O2]. split; [by replace (n + Z.of_nat (S (length ts))) with (n + 1 + Z.of_nat (length ts)) by lia|].
    intros t' Ht'. rewrite O2, T1, lookup_insert_ne; set_solver.
Qed.

Lemma wp_and {S A} (m : ST S A) (P Q : A → S → Prop) s : wp m P s → wp m Q s → wp m (λ a s', P a s' ∧ Q a s') s.
Proof. unfold wp. by destruct (m s) as [[a s']|]. Qed.

Lemma start_running idle n k :
  born n k → tasks k !! idle = None → wp (vTaskStartScheduler idle) (λ _ k', vars k' xSchedulerRunning = 1) k.
Proof.
  intros [I T V F N] Hn. apply wp_bind. eapply wp_mono; [by apply create_ok|]. intros _ k1 _.
  apply wp_bind, wp_modify, wp_bind, wp_modify, wp_modify. simpl. by rewrite upd_ne, upd_eq by done.
Qed.

(** The kernel when the scheduler starts. *)
Lemma launch_start_ok idle n k :
  born n k → 0 <= n < 2 ^ 32 - 1 → tasks k !! idle = None →
  wp (vTaskStartScheduler idle) (λ _ k', KInv idle k' ∧ vars k' uxSchedulerSuspended = 0 ∧
    (∀ t c, tasks k' !! t = Some c → newborn c)) k.
Proof.
  intros B Hn Hi. pose proof B as [I T V F N].
  eapply wp_mono; [apply wp_and; [by apply (start_running idle n)|apply start_scheduler_ok; try done]|].
  - intros t c Hc. destruct (newborn_views c (T t c Hc)) as [Hr _]. exact Hr.
  - apply V. set_solver.
  - intros _ k' (Hrun & Ht & Hr & T' & N' & V').
    assert (∀ t c, tasks k' !! t = Some c → newborn c) as Hnew.
    { intros t c. rewrite T', lookup_insert. case_decide; [|by apply T]. intros [= <-]. by exists 0. }
    split_and!; [|rewrite V' by set_solver; apply V; set_solver|done]. split; try done.
    + exists 0. split; [done|]. rewrite V' by set_solver. rewrite V by set_solver. done.
    + rewrite N', N. assert (u32 (n + 1) = n + 1) as -> by (apply Z.mod_small; lia). lia.
    + by rewrite Hrun.
    + intros t c Hc. by apply newborn_views, (Hnew t).
Qed.

(** ** The invariant holds at the start *)

Section launch.
Variable malloc : Z → option (list Z).
Hypothesis malloc_length : ∀ n bs, malloc n = Some bs → Z.of_nat (length bs) = n.
Variable (qs : list (positive * new_queue)) (ts : list (task * Z)) (idle : task).
Hypothesis Hconfig : config_ok qs ts idle = true.

Lemma launch_ok :
  wp (launch malloc qs ts idle) (λ _ r, (∃ t, Inv idle t (Sys r ∅)) ∧
    ∀ x n, (x, n) ∈ qs →
      match malloc (new_bytes n) with Some _ => ∃ q, queues r !! x = Some q ∧ fresh n q | None => queues r !! x = None end) rtos0.
Proof.
  unfold config_ok in Hconfig. rewrite !andb_true_iff, !bool_decide_eq_true, !Z.ltb_lt in Hconfig.
  destruct Hconfig as [[[[[Hnd Hok] Hlen] Hndt] Hpr] Hlt]. apply NoDup_cons in Hndt as [Hidle Hndt].
  apply wp_bind. eapply wp_mono; [by apply create_queues_ok|]. intros _ [k qm] (P & O & F). cbn [kern queues] in *.
  assert (born 0 k) as B.
  { pose proof (pristine_inv k P). destruct P as [T L V C D]. split; rewrite ?T, ?V; try done. }
  apply wp_on_kernel, wp_bind. cbn [kern queues]. eapply wp_mono; [apply (create_tasks_ok ts 0); try done; [lia|]|].
  { intros t _. by rewrite (pr_tasks k P). }
  intros _ k1 [B1 O1]. rewrite Z.add_0_l in B1. eapply wp_mono; [apply (launch_start_ok idle (Z.of_nat (length ts))); [done|lia|]|].
  { rewrite O1 by done. by rewrite (pr_tasks _ P). }
  intros _ k2 (K & Hs & Hnew). cbn [kern queues].
  assert (∀ x, qm !! x = None ∨ ∃ n, (x, n) ∈ qs ∧ ∃ q, qm !! x = Some q ∧ fresh n q) as Hqs.
  { intros x. destruct (decide (x ∈ qs.*1)) as [Hin|Hin]; [|left; by apply O].
    apply list_elem_of_fmap in Hin as ([y n] & -> & Hin). pose proof (F y n Hin) as H. destruct (malloc _); [right|by left]. eauto. }
  assert (∀ x q, qm !! x = Some q → ∃ n, fresh n q) as Hf.
  { intros x q E. destruct (Hqs x) as [E'|(n & _ & q' & E' & Hfr)]; [congruence|]. exists n. congruence. }
  split; [|done]. destruct (kinv_cur _ _ K) as (t & c & Hcur & Hc). exists t.
  assert (∀ t1 d x, waiting k2 t1 ≠ Some (wlist d x)) as Hnw.
  { intros t1 d x (c1 & Hc1 & Hw1)%waiting_some. destruct (newborn_views c1 (Hnew _ _ Hc1)) as (_ & E & _). congruence. }
  split; simpl; try done.
  - intros x q E. destruct (Hf x q E) as [n Hfr]. apply Hfr.
  - assert (dom qm ⊆ list_to_set qs.*1) as Hsub.
    { intros x [q E]%elem_of_dom. apply elem_of_list_to_set. destruct (decide (x ∈ qs.*1)) as [|Hn]; [done|].
      rewrite O in E by done. done. }
    apply subseteq_size in Hsub. rewrite size_list_to_set, length_fmap in Hsub by done. lia.
  - intros x q E. destruct (Hf x q E) as [n [_ Rx Tx _ _]]. by split.
  - intros _. right. exists c. destruct (newborn_views c (Hnew _ _ Hc)) as ((p & Hp) & _). by exists p.
  - intros t1 d x E. by destruct (Hnw t1 d x).
  - intros d x q _ [t1 E]. by destruct (Hnw t1 d x).
  - intros t1 [c1 Hc1]. rewrite (mutexes_lookup _ _ _ Hc1). destruct (newborn_views c1 (Hnew _ _ Hc1)) as (_ & _ & -> & _).
    assert (held (Sys (Rtos k2 qm) ∅) t1 = ∅) as ->; [|done]. apply set_eq. intros x. rewrite held_spec. simpl. split; [|set_solver].
    intros (q & E & Hh). destruct (Hf x q E) as [n [_ _ _ Hno _]]. congruence.
  - intros x q h E Hh. destruct (Hf x q E) as [n [_ _ _ Hno _]]. congruence.
Qed.
End launch.
