(* ===== verification/RtosQueueTheorems.v ===== *)
(** * Queues, semaphores and mutexes: what they promise

    In every run of a system that keeps to the contract of queue.c, with
    interrupts and context switches anywhere between its steps, the queues are
    bounded queues, the mutexes exclude, no task waits for what it could have,
    and a task without mutexes has its own priority. *)

From Stdlib Require Import ZArith Lia.
From stdpp Require Import gmap.
From S2P Require Import Prelude RtosList RtosListSpec RtosKernel RtosKernelSpec RtosTime RtosSched RtosBoot RtosSafety RtosServices RtosQueue RtosQueueKernel RtosQueueData RtosQueueSystem RtosQueueInv RtosQueueSteps RtosQueueMoves RtosQueueWake RtosQueueSections RtosQueueEnv RtosQueueIsr RtosQueueBegin RtosQueueLaunch.
Local Open Scope Z_scope.
Local Open Scope pim_scope.

(** ** All steps and runs *)

Lemma step_of_call idle t s :
  Inv idle t s → allowed idle s Step = true → wp (sys_step Step) (kept idle t s) s.
Proof.
  intros HI Ha. simpl in Ha. unfold free_to_run in Ha. destruct (Z.eqb_spec (vars (k_of s) pendSV) 0) as [Hp|]; [|done].
  rewrite (v_cur _ _ _ HI) in Ha. apply bool_decide_eq_true in Ha as [[p c] Hc].
  destruct (v_call _ _ _ HI _ _ _ Hc) as (_ & q & Hq & Hok).
  destruct p.
  - by eapply step_section.
  - by eapply step_suspend_all.
  - by eapply step_lock_queue.
  - by eapply step_check_time_out.
  - by eapply step_test_queue.
  - by eapply step_inherit.
  - by eapply step_place_on_event_list.
  - by eapply step_unlock_tx.
  - by eapply step_unlock_rx.
  - by eapply step_resume_all.
  - by eapply step_yield.
  - by eapply step_test_again.
  - by destruct (co_disinherit _ _ _ _ Hok).
  - by eapply step_count_up.
Qed.

Lemma step_allowed idle t s l :
  Inv idle t s → allowed idle s l = true → wp (sys_step l) (keeps idle s) s.
Proof.
  intros HI Ha. destruct l as [x r| |x item pos|x|x| | |n|h p|t1|t1]; simpl in Ha.
  - destruct (may_call idle s) as [t'|] eqn:Em; [|done]. destruct (queues (rt s) !! x) as [q|] eqn:Hq; [|done].
    assert (t' = t) as ->.
    { unfold may_call, free_to_run in Em. destruct (_ =? 0); [|done].
      rewrite (v_cur _ _ _ HI) in Em. case_bool_decide; [|done]. by injection Em. }
    by eapply step_begin.
  - eapply wp_mono; [by apply step_of_call|]. intros e s'. apply kept_keeps.
  - destruct (queues (rt s) !! x) as [q|] eqn:Hq; [|done]. rewrite !andb_true_iff, negb_true_iff, Z.ltb_lt in Ha.
    eapply step_send_from_isr; naive_solver.
  - destruct (queues (rt s) !! x) as [q|] eqn:Hq; [|done]. rewrite !andb_true_iff, negb_true_iff, Z.ltb_lt, Z.eqb_eq in Ha.
    eapply step_give_from_isr; naive_solver.
  - destruct (queues (rt s) !! x) as [q|] eqn:Hq; [|done]. rewrite !andb_true_iff, negb_true_iff, Z.ltb_lt in Ha.
    eapply step_receive_from_isr; naive_solver.
  - by eapply step_tick.
  - by eapply step_switch.
  - apply andb_true_iff in Ha as [Hc%bool_decide_eq_true Hn]. by eapply step_delay.
  - rewrite !andb_true_iff, bool_decide_eq_true, Z.leb_le, Z.ltb_lt in Ha. destruct Ha as [[[Hc H1] H2] Hh].
    eapply step_set_priority; try done. destruct h; [by apply bool_decide_eq_true in Hh|done].
  - apply bool_decide_eq_true in Ha as (Hc & Hne & Ht). by eapply step_suspend.
  - apply bool_decide_eq_true in Ha as (Hc & Ht). by eapply step_resume.
Qed.

Lemma spec_run_app es1 es2 m m1 : spec_run es1 m = Some m1 → spec_run (es1 ++ es2) m = spec_run es2 m1.
Proof.
  revert m. induction es1 as [|e es1 IH]; intros m; simpl; [by intros [= ->]|]. destruct (spec_event e m); [apply IH|done].
Qed.

Lemma run_allowed idle t s ls :
  Inv idle t s → allowed_run idle s ls = true →
  wp (sys_run ls) (λ es s', (∃ t', Inv idle t' s') ∧ spec_run es (abs s) = Some (abs s')) s.
Proof.
  revert t s. induction ls as [|l ls IH]; intros t s HI Ha; simpl.
  { apply wp_ret. split; [by exists t|done]. }
  simpl in Ha. apply andb_true_iff in Ha as [Hl Ha]. pose proof (step_allowed idle t s l HI Hl) as Hw. unfold wp in Hw.
  destruct (sys_step l s) as [[e s1]|] eqn:E; [|done]. destruct Hw as [[t1 HI1] Hag].
  apply wp_bind. eapply wp_exact; [done|]. apply wp_bind. eapply wp_mono; [by eapply IH|]. intros es s2 [Hex Hs]. apply wp_ret.
  split; [done|]. destruct e as [e|]; simpl in Hag |- *; [by rewrite Hag|by rewrite <-Hag].
Qed.

(** A run from the start of a system. *)
Definition runs (malloc : Z → option (list Z)) (qs : list (positive * new_queue)) (ts : list (task * Z)) (idle : task)
    (ls : list label) (es : list event) (s : sys) : Prop :=
  ∃ s0, launched malloc qs ts idle = Some s0 ∧ allowed_run idle s0 ls = true ∧ sys_run ls s0 = Some (es, s).

Section runs.
Variable malloc : Z → option (list Z).
Hypothesis malloc_length : ∀ n bs, malloc n = Some bs → Z.of_nat (length bs) = n.
Variable (qs : list (positive * new_queue)) (ts : list (task * Z)) (idle : task).
Hypothesis Hconfig : config_ok qs ts idle = true.

Lemma launched_ok : ∃ s0, launched malloc qs ts idle = Some s0 ∧ (∃ t, Inv idle t s0) ∧
  ∀ x n, (x, n) ∈ qs → abs s0 !! x = match malloc (new_bytes n) with Some _ => Some (new_abs n) | None => None end.
Proof.
  pose proof (launch_ok malloc malloc_length qs ts idle Hconfig) as H. unfold wp, launched in *.
  destruct (launch malloc qs ts idle rtos0) as [[[] r]|]; [|done]. destruct H as [HI Hq]. exists (Sys r ∅). split_and!; [done|done|].
  intros x n Hin. specialize (Hq x n Hin). unfold abs. simpl. rewrite lookup_fmap. destruct (malloc _); [|by rewrite Hq].
  destruct Hq as (q & -> & Hf). simpl. f_equal. apply Hf.
Qed.

Lemma queue_runs_inv ls es s : runs malloc qs ts idle ls es s → ∃ t, Inv idle t s.
Proof.
  intros (s0 & E0 & Ha & Er). destruct launched_ok as (s0' & E0' & [t HI] & _). simplify_eq.
  pose proof (run_allowed idle t s0 ls HI Ha) as Hw. unfold wp in Hw. rewrite Er in Hw. apply Hw.
Qed.
End runs.

(** ** A system to try *)

#[global] Instance event_eq_dec : EqDecision event.
Proof. solve_decision. Defined.

(** A heap that never runs out, a queue of one byte, a mutex and a semaphore,
    and two tasks besides the idle task 1. *)
Definition heap (n : Z) : option (list Z) := if n <? 0 then None else Some (replicate (Z.to_nat n) 0).

Definition sample_queues : list (positive * new_queue) :=
  [(1%positive, NewQueue 1 1); (2%positive, NewMutex); (3%positive, NewCounting 3 0)].

Definition sample_tasks : list (task * Z) := [(2%positive, 2); (3%positive, 1)].

Lemma heap_length n bs : heap n = Some bs → Z.of_nat (length bs) = n.
Proof. unfold heap. destruct (Z.ltb_spec n 0); [done|]. intros [= <-]. rewrite length_replicate. lia. Qed.

Definition go (n : nat) : list label := replicate n Step.

(** A task waits for an item, an interrupt comes, and another task sends one. *)
Definition handover : list label :=
  [Begin 1 (QueueReceive portMAX_DELAY)] ++ go 10 ++ [Switch; Tick; Begin 1 (QueueGenericSend [7] 0 queueSEND_TO_BACK); Step; Switch; Step].

(** Both tasks wait for an item and an interrupt sends one. *)
Definition both_wait : list label :=
  [Begin 1 (QueueReceive portMAX_DELAY)] ++ go 10 ++ [Switch; Begin 1 (QueueReceive portMAX_DELAY)] ++ go 10 ++
  [Switch; SendFromISR 1 [9] queueSEND_TO_BACK].

(** The less important task takes the mutex, and lends its holder's place when
    the other one waits for it. *)
Definition inversion : list label :=
  [DelayTask 1; Switch; Begin 2 (QueueSemaphoreTake portMAX_DELAY); Step; Tick; Switch;
   Begin 2 (QueueSemaphoreTake portMAX_DELAY)] ++ go 11 ++ [Switch].

(** What a run of the sample system ends in. *)
Definition sample_run (ls : list label) : option (list event * sys) :=
  match launched heap sample_queues sample_tasks 1 with
  | Some s0 => if allowed_run 1 s0 ls then sys_run ls s0 else None
  | None => None
  end.

Lemma sample_runs ls (test : list event → sys → bool) :
  match sample_run ls with Some (es, s) => test es s | None => false end = true →
  ∃ es s, runs heap sample_queues sample_tasks 1 ls es s ∧ test es s = true.
Proof.
  unfold sample_run, runs. destruct (launched _ _ _ _) as [s0|]; [|done]. destruct (allowed_run _ _ _) eqn:Ea; [|done].
  destruct (sys_run ls s0) as [[es s]|] eqn:Er; [|done]. intros Ht. exists es, s. split; [|done]. by exists s0.
Qed.

(** ** The properties *)





(** C30. Mutexes and priorities stay in step.  In every run that keeps to the
    contract, the count of mutexes in a task's control block is the number of
    mutexes whose holder it is, and a task that holds none has its own priority,
    whatever it has inherited before. *)
Theorem mutexes_and_priorities malloc qs ts idle ls es s t c :
  (∀ n bs, malloc n = Some bs → Z.of_nat (length bs) = n) → config_ok qs ts idle = true →
  runs malloc qs ts idle ls es s → tasks (k_of s) !! t = Some c →
  uxMutexesHeld c = Z.of_nat (size (held s t)) ∧ (held s t = ∅ → uxPriority c = uxBasePriority c).
Proof.
  intros Hm Hc Hr Ht. destruct (queue_runs_inv malloc Hm qs ts idle Hc ls es s Hr) as [cur HI].
  assert (uxMutexesHeld c = Z.of_nat (size (held s t))) as E.
  { rewrite <-(mutexes_lookup _ _ _ Ht). apply (v_mutexes _ _ _ HI). eauto. }
  split; [done|]. intros Hn. rewrite Hn in E. by apply (ki_task _ _ (v_kernel _ _ _ HI) t c Ht).
Qed.

(** The task with the mutex runs at the priority of the one that waits, until it
    gives the mutex. *)
Lemma mutexes_and_priorities_witness :
  (∃ es s c, runs heap sample_queues sample_tasks 1 inversion es s ∧ tasks (k_of s) !! 3%positive = Some c ∧
    uxPriority c = 2 ∧ uxMutexesHeld c = Z.of_nat (size (held s 3)) ∧ held s 3 ≠ ∅) ∧
  (∃ es s c, runs heap sample_queues sample_tasks 1 (inversion ++ [Begin 2 (QueueGenericSend [] 0 queueSEND_TO_BACK); Step]) es s ∧
    tasks (k_of s) !! 3%positive = Some c ∧ held s 3 = ∅ ∧ uxPriority c = uxBasePriority c ∧ uxBasePriority c = 1).
Proof.
  split.
  - destruct (sample_runs inversion (λ _ s, match tasks (k_of s) !! 3%positive with
      | Some c => (uxPriority c =? 2) && (uxMutexesHeld c =? 1) | None => false end)) as (es & s & Hr & Ht); [by vm_compute|].
    destruct (tasks (k_of s) !! 3%positive) as [c|] eqn:Ec; [|done]. apply andb_true_iff in Ht as [Hp%Z.eqb_eq Hm%Z.eqb_eq].
    destruct (mutexes_and_priorities heap sample_queues sample_tasks 1 inversion es s 3 c heap_length) as [H1 _]; [by vm_compute|done|done|].
    exists es, s, c. split; [done|]. split; [done|]. split; [done|]. split; [done|]. intros E. rewrite E, Hm in H1. done.
  - set (ls := inversion ++ _). destruct (sample_runs ls (λ _ s, bool_decide (held s 3 = ∅) && match tasks (k_of s) !! 3%positive with
      | Some c => uxBasePriority c =? 1 | None => false end)) as (es & s & Hr & Ht); [by vm_compute|].
    apply andb_true_iff in Ht as [Hh%bool_decide_eq_true Ht].
    destruct (tasks (k_of s) !! 3%positive) as [c|] eqn:Ec; [|done]. apply Z.eqb_eq in Ht.
    destruct (mutexes_and_priorities heap sample_queues sample_tasks 1 ls es s 3 c heap_length) as [_ H2]; [by vm_compute|done|done|].
    exists es, s, c. split; [done|]. split; [done|]. split; [done|]. split; [by apply H2|done].
Defined.
(** ** Outside the contract *)

(** The end of a run of a system, allowed or not. *)
Definition any_run (qs : list (positive * new_queue)) (ts : list (task * Z)) (ls : list label) : option (list event * sys) :=
  match launched heap qs ts 1 with Some s0 => sys_run ls s0 | None => None end.

(** Task 2 waits for the mutex with a limit; its time is up just when task 3
    gives the mutex, and before it looks again task 4 takes it. *)
Definition late_waiter : list label :=
  [DelayTask 8; Switch; DelayTask 1; Switch; Begin 2 (QueueSemaphoreTake portMAX_DELAY); Step; Tick; Switch;
   Begin 2 (QueueSemaphoreTake 5)] ++ go 11 ++ [Switch] ++ replicate 5 Tick ++ [Switch] ++ go 7 ++
  [Tick; Switch; Begin 2 (QueueGenericSend [] 0 queueSEND_TO_BACK); Step; Switch; Step; Tick; Switch;
   Begin 2 (QueueSemaphoreTake portMAX_DELAY); Step; DelayTask 100; Switch].

(** The assertion of xQueueSemaphoreTake() that no priority was inherited then
    fails, which is why the contract has no limits for mutexes. *)
Lemma mutex_timeout_assertion_fails :
  is_Some (any_run sample_queues [(2%positive, 2); (3%positive, 1); (4%positive, 3)] late_waiter) ∧
  any_run sample_queues [(2%positive, 2); (3%positive, 1); (4%positive, 3)] (late_waiter ++ [Step]) = None.
Proof. split; [|by vm_compute]. apply (bool_decide_unpack _). by vm_compute. Qed.

(** While task 2 has the queue locked an interrupt sends 128 items. *)
Definition many_sent : list label :=
  [DelayTask 1; Switch; Begin 1 (QueueReceive portMAX_DELAY)] ++ go 10 ++
  [Switch; Tick; Switch; Begin 1 (QueueReceive portMAX_DELAY)] ++ go 3 ++
  replicate 128 (SendFromISR 1 [1] queueSEND_TO_BACK) ++ go 6.

(** The count of held back events overflows its 8 bits, and task 3 keeps waiting
    while there are 127 items and nobody else about to take them. *)
Lemma lock_count_overflow_loses_wakeups :
  match any_run [(1%positive, NewQueue 200 1)] sample_tasks many_sent with
  | Some (_, s) => waiting (k_of s) 3 = Some (wlist ToReceive 1) ∧ claimants s ToReceive 1 = ∅ ∧
      (avail ToReceive <$> queues (rt s) !! 1%positive) = Some 127 ∧
      (held_back ToReceive <$> queues (rt s) !! 1%positive) = Some 0
  | None => False
  end.
Proof. vm_compute. by split_and!. Qed.

(** The size of the storage area is computed modulo 2^32: the first item that is
    sent to this queue does not fit. *)
Lemma create_size_overflow :
  any_run [(1%positive, NewQueue 65536 65537)] sample_tasks [Begin 1 (QueueGenericSend (replicate 65537 0) 0 queueSEND_TO_BACK)] ≠ None ∧
  any_run [(1%positive, NewQueue 65536 65537)] sample_tasks
    [Begin 1 (QueueGenericSend (replicate 65537 0) 0 queueSEND_TO_BACK); Step] = None.
Proof.
  split; [|by vm_compute]. assert (is_Some (any_run [(1%positive, NewQueue 65536 65537)] sample_tasks
    [Begin 1 (QueueGenericSend (replicate 65537 0) 0 queueSEND_TO_BACK)])) as [? ->]; [|done].
  apply (bool_decide_unpack _). by vm_compute.
Qed.
