(* ===== verification/Frame.v ===== *)
(** * Text framing: encoders and decoders

    Models [src/Cpl/Text/Frame]: the encoder [Encoder_] with its two outputs,
    [StreamEncoder] and [BlockEncoder], and the decoder [Decoder_] with its two
    syntaxes, [AsciiDecoder] and [LineDecoder], reading from a [StreamDecoder].

    A character is its byte, 0 to 255.  The virtual methods of the base classes
    are the methods of the classes [Sink] and [Syntax]; each derived class is an
    instance.  An output stream is any type with a write operation that appends
    what it reports written (Cpl/Io/Output.h); an input stream is the sequence
    of what its read() calls find: bytes, or nothing yet, and then the end of
    the stream. *)

From Stdlib Require Import ZArith Lia.
From S2P Require Import Prelude.
Local Open Scope Z_scope.
Local Open Scope pim_scope.

(** ** Encoding *)

(** What Cpl::Io::Output promises: a write that succeeds has appended its bytes. *)
Class Output (O : Type) := {
  write : list Z → O → bool * O;
  written : O → list Z;
  write_written : ∀ bs o o', write bs o = (true, o') → written o' = written o ++ bs
}.

(** The virtual methods of Encoder_: start( char ), start() and append( char ). *)
Class Sink (S : Type) := {
  start : Z → S → bool * S;
  start0 : S → bool * S;
  append : Z → S → bool * S;
  flush : S → bool * S
}.

Record Encoder (S : Type) := Enc {
  enc_inFrame : bool;
  enc_sof : Z;
  enc_eof : Z;
  enc_esc : Z;
  enc_appendNewline : bool;
  enc_sink : S
}.
Arguments Enc {S}. Arguments enc_inFrame {S}. Arguments enc_sof {S}. Arguments enc_eof {S}.
Arguments enc_esc {S}. Arguments enc_appendNewline {S}. Arguments enc_sink {S}.

(** NewLine::standard() *)
Definition NewLine_standard : list Z := [10].

Section encoder.
Context {S : Type} `{!Sink S}.

Definition set_inFrame (b : bool) : ST (Encoder S) unit :=
  modify (λ e, Enc b (enc_sof e) (enc_eof e) (enc_esc e) (enc_appendNewline e) (enc_sink e)).

Definition on_sink (f : S → bool * S) : ST (Encoder S) bool := λ e,
  let '(r, s) := f (enc_sink e) in
  Some (r, Enc (enc_inFrame e) (enc_sof e) (enc_eof e) (enc_esc e) (enc_appendNewline e) s).

(** FatalError::logf() does not return. *)
Definition startFrame : ST (Encoder S) bool :=
  e ← get_st;
  if enc_inFrame e then undefined
  else
    set_inFrame true;;
    if negb (enc_sof e =? 0) then on_sink (start (enc_sof e)) else on_sink start0.

Definition encodeChar (charToBeEscaped : Z) : Z := charToBeEscaped.

(** output( char ) *)
Definition output_char (src : Z) : ST (Encoder S) bool :=
  e ← get_st;
  if negb (enc_inFrame e) then undefined
  else if negb (enc_esc e =? 0) && ((src =? enc_esc e) || (src =? enc_eof e)) then
    result ← on_sink (append (enc_esc e));
    result' ← on_sink (append (encodeChar src));
    ret (result && result')
  else on_sink (append src).

(** output( const char*, size_t ): the loop, and the check for a null pointer. *)
Fixpoint output_loop (src : list Z) : ST (Encoder S) bool :=
  match src with
  | [] => ret true
  | c :: src => r ← output_char c; if negb r then ret false else output_loop src
  end.

Definition output (src : option (list Z)) : ST (Encoder S) bool :=
  match src with None => ret true | Some src => output_loop src end.

(** Encoder_::endFrame() *)
Definition Encoder_endFrame : ST (Encoder S) bool :=
  e ← get_st;
  if negb (enc_inFrame e) then undefined
  else
    set_inFrame false;;
    r ← on_sink (append (enc_eof e));
    if r then
      if negb (enc_appendNewline e) then ret true
      else
        set_inFrame true;;
        result ← output (Some NewLine_standard);
        set_inFrame false;;
        ret result
    else ret false.

(** endFrame() of the derived class, which flushes what it has buffered. *)
Definition endFrame : ST (Encoder S) bool :=
  result ← Encoder_endFrame;
  if result then on_sink flush else ret false.

End encoder.

(** *** StreamEncoder *)

Section streams.
Context {O : Type} `{!Output O}.

(** m_dstPtr, which may be null *)
Record StreamEncoder := StreamEnc { stream_dstPtr : option O }.

Definition stream_append (src : Z) (s : StreamEncoder) : bool * StreamEncoder :=
  match stream_dstPtr s with
  | None => (false, s)
  | Some o => let '(r, o) := write [src] o in (r, StreamEnc (Some o))
  end.

#[export] Instance StreamEncoder_sink : Sink StreamEncoder := {
  start := stream_append;
  start0 := λ s, (true, s);
  append := stream_append;
  flush := λ s, (true, s)
}.

(** *** BlockEncoder *)

Record BlockEncoder := BlockEnc {
  block_dstPtr : option O;
  block_buffer : list Z;
  block_bufferSize : nat;
  block_bufferCount : nat
}.

(** The first [n] bytes of the buffer go to the stream. *)
Definition block_write (n : nat) (s : BlockEncoder) : bool * BlockEncoder :=
  match block_dstPtr s with
  | None => (false, s)
  | Some o =>
      let '(r, o) := write (take n (block_buffer s)) o in
      (r, BlockEnc (Some o) (block_buffer s) (block_bufferSize s) (block_bufferCount s))
  end.

Definition appendToBlock (src : Z) (s : BlockEncoder) : bool * BlockEncoder :=
  if decide (block_dstPtr s = None) then (false, s)
  else
    let s :=
      if (block_bufferCount s <? block_bufferSize s)%nat then
        BlockEnc (block_dstPtr s) (<[block_bufferCount s := src]> (block_buffer s)) (block_bufferSize s)
          (block_bufferCount s + 1)
      else s in
    if (block_bufferSize s <=? block_bufferCount s)%nat then
      let s := BlockEnc (block_dstPtr s) (block_buffer s) (block_bufferSize s) 0 in
      block_write (block_bufferSize s) s
    else (true, s).

Definition block_reset (s : BlockEncoder) : BlockEncoder :=
  BlockEnc (block_dstPtr s) (block_buffer s) (block_bufferSize s) 0.

#[export] Instance BlockEncoder_sink : Sink BlockEncoder := {
  start := λ src s, appendToBlock src (block_reset s);
  start0 := λ s, (true, block_reset s);
  append := appendToBlock;
  flush := λ s, block_write (block_bufferCount s) s
}.
End streams.
Arguments StreamEncoder : clear implicits.
Arguments BlockEncoder : clear implicits.

(** ** Decoding *)

(** What the reads of a stream find, in order; its end comes after the last. *)
Abbreviation Input := (list (option (list Z))).

(** The virtual methods of Decoder_ that look at the character m_dataPtr points
    to.  The result of isStartOfFrame( ) is followed by whether it has moved
    m_dataPtr back, so that the loop sees the character again, and by the
    character as it leaves it in the buffer; so is that of isLegalCharacter( ). *)
Class Syntax (D : Type) := {
  isStartOfFrame : Z → D → bool * bool * Z * D;
  isLegalCharacter : Z → D → bool * Z * D;
  isEofOfFrame : Z → D → bool;
  isEscapeChar : Z → D → bool
}.

Record Decoder (D : Type) := Dec {
  m_data : list Z;          (* m_dataLen characters at m_dataPtr *)
  m_bufSize : nat;
  m_inFrame : bool;
  m_escaping : bool;
  m_framePtr : option nat;  (* offset in the client's buffer, or null *)
  m_frameSize : nat;
  m_syntax : D;             (* the members of the derived class *)
  m_blocking : bool;
  m_src : option Input;     (* m_srcPtr: null or a stream *)
  frame : list Z            (* the client's buffer *)
}.
Arguments Dec {D}. Arguments m_data {D}. Arguments m_bufSize {D}. Arguments m_inFrame {D}. Arguments m_escaping {D}.
Arguments m_framePtr {D}. Arguments m_frameSize {D}. Arguments m_syntax {D}. Arguments m_blocking {D}.
Arguments m_src {D}. Arguments frame {D}.

Section decoder.
Context {D : Type} `{!Syntax D}.

Definition set_data (l : list Z) (d : Decoder D) : Decoder D :=
  Dec l (m_bufSize d) (m_inFrame d) (m_escaping d) (m_framePtr d) (m_frameSize d) (m_syntax d) (m_blocking d) (m_src d) (frame d).
Definition set_src (l : list Z) (i : Input) (d : Decoder D) : Decoder D :=
  Dec l (m_bufSize d) (m_inFrame d) (m_escaping d) (m_framePtr d) (m_frameSize d) (m_syntax d) (m_blocking d) (Some i) (frame d).
(** The frame state: m_inFrame, m_escaping, m_framePtr and m_frameSize. *)
Definition set_frame (b e : bool) (p : option nat) (n : nat) (d : Decoder D) : Decoder D :=
  Dec (m_data d) (m_bufSize d) b e p n (m_syntax d) (m_blocking d) (m_src d) (frame d).
Definition set_syntax (x : D) (d : Decoder D) : Decoder D :=
  Dec (m_data d) (m_bufSize d) (m_inFrame d) (m_escaping d) (m_framePtr d) (m_frameSize d) x (m_blocking d) (m_src d) (frame d).

Definition initializeFrame (d : Decoder D) : Decoder D := set_frame false false None 0 d.

(** *m_framePtr++ = c; m_frameSize++;  A write outside the client's buffer is undefined. *)
Definition store (c : Z) : ST (Decoder D) unit := λ d,
  match m_framePtr d with
  | Some p =>
      if (p <? length (frame d))%nat then
        Some (tt, Dec (m_data d) (m_bufSize d) (m_inFrame d) (m_escaping d) (Some (p + 1)%nat) (m_frameSize d + 1)%nat
                    (m_syntax d) (m_blocking d) (m_src d) (<[p := c]> (frame d)))
      else None
  | None => None
  end.

(** StreamDecoder::read(): the bytes read, or [None] at the end of the stream. *)
Fixpoint blocking_read (n : nat) (i : Input) : option (list Z) * Input :=
  match i with
  | [] => (None, [])
  | None :: i => blocking_read n i
  | Some bs :: i =>
      if (length bs <=? n)%nat then (Some bs, i) else (Some (take n bs), Some (drop n bs) :: i)
  end.

Definition read : ST (Decoder D) (option (list Z)) :=
  d ← get_st;
  match m_src d with
  | None => undefined (* FatalError::logf() *)
  | Some i =>
      match m_blocking d, i with
      | false, None :: i => modify (set_src (m_data d) i);; ret (Some [])
      | _, _ => let '(r, i) := blocking_read (m_bufSize d) i in modify (set_src (m_data d) i);; ret r
      end
  end.

Definition decodeEscapedChar (escapedChar : Z) : Z := escapedChar.

(** Stores a character of the frame, or gives the frame up when it is too long. *)
Definition store_or_reset (maxSizeOfFrame : nat) (c : Z) : ST (Decoder D) unit :=
  d ← get_st;
  if (m_frameSize d <? maxSizeOfFrame)%nat then store c else modify initializeFrame.

(** The for loop of scan(): [Some n] when it leaves with a frame of [n] characters. *)
Fixpoint scan_loop (fuel maxSizeOfFrame : nat) : ST (Decoder D) (option nat) :=
  d ← get_st;
  match m_data d with
  | [] => ret None
  | c :: rest =>
      match fuel with
      | O => undefined
      | S fuel =>
          if negb (m_inFrame d) then
            let '(found, back, c, x) := isStartOfFrame c (m_syntax d) in
            modify (set_syntax x);;
            (if (found : bool) then modify (set_frame true false (Some 0%nat) 0) else ret tt);;
            modify (set_data (if (back : bool) then c :: rest else rest));;
            scan_loop fuel maxSizeOfFrame
          else
            let '(legal, c, x) := isLegalCharacter c (m_syntax d) in
            modify (set_syntax x);;
            if negb legal then
              modify (set_frame false (m_escaping d) (m_framePtr d) (m_frameSize d));;
              modify (set_data rest);;
              scan_loop fuel maxSizeOfFrame
            else if negb (m_escaping d) then
              if isEofOfFrame c x then
                modify (set_data rest);;
                modify initializeFrame;;
                ret (Some (m_frameSize d))
              else
                (if negb (isEscapeChar c x) then store_or_reset maxSizeOfFrame c
                 else modify (set_frame (m_inFrame d) true (m_framePtr d) (m_frameSize d)));;
                modify (set_data rest);;
                scan_loop fuel maxSizeOfFrame
            else
              (if (m_frameSize d <? maxSizeOfFrame)%nat then
                 modify (set_frame (m_inFrame d) false (m_framePtr d) (m_frameSize d));;
                 store (decodeEscapedChar c)
               else modify initializeFrame);;
              modify (set_data rest);;
              scan_loop fuel maxSizeOfFrame
      end
  end.

(** scan( size_t, char*, size_t&, bool& ): returns the result, frameSize and isEof. *)
Definition scan_some (maxSizeOfFrame : nat) : ST (Decoder D) (bool * nat * bool) :=
  d ← get_st;
  ok ← (match m_data d with
        | [] =>
            r ← read;
            match r with
            | None => modify (set_data []);; ret false
            | Some bs => modify (set_data bs);; ret true
            end
        | _ => ret true
        end);
  if negb ok then modify initializeFrame;; ret (false, m_frameSize d, false)
  else
    d ← get_st;
    r ← scan_loop (2 * length (m_data d)) maxSizeOfFrame;
    match r with
    | Some n => ret (true, n, true)
    | None => n ← gets m_frameSize; ret (true, n, false)
    end.

(** The for loop of scan( size_t, char*, size_t& ). *)
Fixpoint scan_frames (fuel maxSizeOfFrame : nat) : ST (Decoder D) (bool * nat) :=
  match fuel with
  | O => undefined
  | S fuel =>
      '(ok, n, isEof) ← scan_some maxSizeOfFrame;
      if negb ok then ret (false, n)
      else if (isEof : bool) then ret (true, n)
      else scan_frames fuel maxSizeOfFrame
  end.

(** The reads that it takes to see the end of a stream. *)
Definition reads (i : Input) : nat := sum_list_with (λ o, S (length (default [] o))) i.

(** scan( size_t, char*, size_t& ): the result and frameSize.  The client's
    buffer is part of the state; [None] is a null pointer. *)
Definition scan (maxSizeOfFrame : nat) (buffer : option (list Z)) : ST (Decoder D) (bool * nat) :=
  modify initializeFrame;;
  match buffer with
  | None => ret (false, 0%nat)
  | Some b =>
      modify (λ d, Dec (m_data d) (m_bufSize d) (m_inFrame d) (m_escaping d) (m_framePtr d) (m_frameSize d) (m_syntax d)
                     (m_blocking d) (m_src d) b);;
      i ← gets m_src;
      scan_frames (2 + reads (default [] i)) maxSizeOfFrame
  end.

(** oobRead(): the bytes read, or [None] for a failure. *)
Definition oobRead (numBytes : nat) : ST (Decoder D) (option (list Z)) :=
  d ← get_st;
  if m_inFrame d then ret None
  else
    ok ← (match m_data d with
          | [] =>
              r ← read;
              match r with None => ret false | Some bs => modify (set_data bs);; ret true end
          | _ => ret true
          end);
    if negb ok then ret None
    else
      d ← get_st;
      if (length (m_data d) <? numBytes)%nat then
        modify (set_data []);; ret (Some (m_data d))
      else
        modify (set_data (drop numBytes (m_data d)));; ret (Some (take numBytes (m_data d))).

End decoder.

(** *** AsciiDecoder *)

(** The value of a char: with a signed char the bytes from 128 are negative. *)
Definition char_val (signed : bool) (c : Z) : Z := if signed && (128 <=? c) then c - 256 else c.

Record AsciiDecoder := Ascii {
  m_sof : Z;
  m_eof : Z;
  m_esc : Z;
  m_restricted : bool;
  char_signed : bool   (* of the compiler *)
}.

Definition ascii_isLegal (c : Z) (d : AsciiDecoder) : bool :=
  let v := char_val (char_signed d) c in
  (v <? 0x80) && (negb (m_restricted d) || ((v <=? 0x7e) && (0x20 <=? v))).

#[export] Instance AsciiDecoder_syntax : Syntax AsciiDecoder := {
  isStartOfFrame := λ c d, (c =? m_sof d, false, c, d);
  isLegalCharacter := λ c d, (ascii_isLegal c d, c, d);
  isEofOfFrame := λ c d, c =? m_eof d;
  isEscapeChar := λ c d, c =? m_esc d
}.

(** *** LineDecoder *)

Record LineDecoder := Line { m_illegal : bool; m_convertTabs : Z; line_signed : bool }.

Definition line_isEof (c : Z) : bool := (c =? 0x0a) || (c =? 0x0d).

Definition convert_tab (c : Z) (d : LineDecoder) : Z :=
  if (c =? 9) && negb (m_convertTabs d =? 9) then m_convertTabs d else c.

Definition line_start (c : Z) (d : LineDecoder) : bool * bool * Z * LineDecoder :=
  let c := convert_tab c d in
  let d := if line_isEof c then Line false (m_convertTabs d) (line_signed d) else d in
  let v := char_val (line_signed d) c in
  if negb (m_illegal d) && (0x20 <=? v) && (v <=? 0x7e) then (true, true, c, d) else (false, false, c, d).

Definition line_legal (c : Z) (d : LineDecoder) : bool * Z * LineDecoder :=
  let c := convert_tab c d in
  let v := char_val (line_signed d) c in
  if line_isEof c then (true, c, Line false (m_convertTabs d) (line_signed d))
  else if (0x7e <? v) || (v <? 0x20) then (false, c, Line true (m_convertTabs d) (line_signed d))
  else (true, c, d).

#[export] Instance LineDecoder_syntax : Syntax LineDecoder := {
  isStartOfFrame := line_start;
  isLegalCharacter := line_legal;
  isEofOfFrame := λ c _, line_isEof c;
  isEscapeChar := λ _ _, false
}.
