(* ===== verification/FrameSpec.v ===== *)
(** * Text framing: what the encoders and decoders do to a stream of bytes

    The decoder as an automaton on the bytes alone, without buffers, pointers
    and reads, and the proof that scan() computes it; the encoders as functions
    on byte strings; and the round trip. *)

From Stdlib Require Import ZArith Lia.
From S2P Require Import Prelude Frame.
Local Open Scope Z_scope.
Local Open Scope pim_scope.

(** ** The decoder as an automaton *)

Inductive mode := Outside | Inside (acc : list Z) (escaping : bool).

(** A syntax moves the data pointer back only at the start of a frame. *)
Class SyntaxOk (D : Type) `{!Syntax D} :=
  back_found : ∀ c x c' x' found, isStartOfFrame c x = (found, true, c', x') → found = true.

#[export] Instance AsciiDecoder_ok : SyntaxOk AsciiDecoder.
Proof. by intros c x c' x' found [=]. Qed.

#[export] Instance LineDecoder_ok : SyntaxOk LineDecoder.
Proof. intros c x c' x' found. simpl. unfold line_start. by case_match; intros [=]. Qed.

Section automaton.
Context {D : Type} `{!Syntax D} `{!SyntaxOk D}.

(** A character inside a frame: the new mode, or the frame it ends. *)
Definition feed_inside (max : nat) (acc : list Z) (escaping : bool) (c : Z) (x : D) : (mode + list Z) * D :=
  let '(legal, c, x) := isLegalCharacter c x in
  let add := if (length acc <? max)%nat then Inside (acc ++ [c]) false else Outside in
  (if negb legal then inl Outside
   else if escaping then inl add
   else if isEofOfFrame c x then inr acc
   else if isEscapeChar c x then inl (Inside acc true)
   else inl add, x).

Definition feed (max : nat) (m : mode) (c : Z) (x : D) : (mode + list Z) * D :=
  match m with
  | Inside acc e => feed_inside max acc e c x
  | Outside =>
      let '(found, back, c, x) := isStartOfFrame c x in
      if (back : bool) then feed_inside max [] false c x
      else if (found : bool) then (inl (Inside [] false), x) else (inl Outside, x)
  end.

(** Feeds bytes until a frame ends: the frame and the bytes after it. *)
Fixpoint run (max : nat) (m : mode) (x : D) (bs : list Z) : (mode * D) + (list Z * D * list Z) :=
  match bs with
  | [] => inl (m, x)
  | c :: bs =>
      match feed max m c x with
      | (inl m', x') => run max m' x' bs
      | (inr f, x') => inr (f, x', bs)
      end
  end.

Lemma run_app max m x a b :
  run max m x (a ++ b) =
    match run max m x a with
    | inl (m', x') => run max m' x' b
    | inr (f, x', rest) => inr (f, x', rest ++ b)
    end.
Proof.
  revert m x. induction a as [|c a IH]; intros m x; [done|]. simpl. destruct (feed max m c x) as [[m'|f] x']; [apply IH|done].
Qed.

(** ** scan() computes the automaton *)

(** The state of the decoder in a mode of the automaton. *)
Definition in_mode (max : nat) (m : mode) (d : Decoder D) : Prop :=
  (max <= length (frame d))%nat ∧
  match m with
  | Outside => m_inFrame d = false
  | Inside acc e => m_inFrame d = true ∧ m_escaping d = e ∧ m_framePtr d = Some (length acc) ∧ m_frameSize d = length acc ∧
      take (length acc) (frame d) = acc ∧ (length acc <= max)%nat
  end.

(** What scanning characters leaves alone. *)
Record same_source (d d' : Decoder D) : Prop := {
  ss_src : m_src d' = m_src d;
  ss_bufSize : m_bufSize d' = m_bufSize d;
  ss_blocking : m_blocking d' = m_blocking d;
  ss_frame : length (frame d') = length (frame d)
}.

#[global] Instance same_source_trans : Transitive same_source.
Proof. intros d1 d2 d3 [] []. split; congruence. Qed.

Lemma take_store (fr acc : list Z) c :
  (length acc < length fr)%nat → take (length acc) fr = acc →
  take (length (acc ++ [c])) (<[length acc := c]> fr) = acc ++ [c].
Proof.
  intros Hl Ht. rewrite length_app. simpl. rewrite Nat.add_1_r, (take_S_r _ _ c) by (by apply list_lookup_insert_eq).
  by rewrite take_insert_ge, Ht by lia.
Qed.

(** Storing a character of a frame that still has room. *)
Lemma store_ok max acc e c (d : Decoder D) (Q : unit → Decoder D → Prop) :
  in_mode max (Inside acc e) d → m_escaping d = false → (length acc < max)%nat →
  (∀ d', in_mode max (Inside (acc ++ [c]) false) d' → same_source d d' → m_data d' = m_data d → m_syntax d' = m_syntax d → Q tt d') →
  wp (store c) Q d.
Proof.
  intros (Hm & Hf & He & Hp & Hs & Ht & Hl) Hesc Hroom HQ. unfold wp, store. rewrite Hp.
  rewrite (proj2 (Nat.ltb_lt _ _)) by lia. apply HQ; [|split; simpl; try done; by rewrite length_insert|done|done].
  split; [by simpl; rewrite length_insert|]. split_and!; simpl; try done.
  - by rewrite length_app.
  - by rewrite Hs, length_app.
  - apply take_store; [lia|done].
  - rewrite length_app. simpl. lia.
Qed.

Definition loop_post (max : nat) (m : mode) (d : Decoder D) (r : option nat) (d' : Decoder D) : Prop :=
  same_source d d' ∧
  match run max m (m_syntax d) (m_data d) with
  | inl (m', x') => r = None ∧ m_data d' = [] ∧ in_mode max m' d' ∧ m_syntax d' = x'
  | inr (f, x', rest) => r = Some (length f) ∧ m_data d' = rest ∧ in_mode max Outside d' ∧ m_syntax d' = x' ∧
      take (length f) (frame d') = f ∧ (length f <= max)%nat
  end.

(** One step of the automaton, then the rest. *)
Lemma loop_post_step max m m' d d1 c rest r d' :
  m_data d = c :: rest → feed max m c (m_syntax d) = (inl m', m_syntax d1) → m_data d1 = rest → same_source d d1 →
  loop_post max m' d1 r d' → loop_post max m d r d'.
Proof.
  intros Hd Hf H1 Hs [Hs1 H]. split; [by etrans|]. rewrite Hd. simpl. rewrite Hf. by rewrite H1 in H.
Qed.

(** The loop after one character: [IH] is the loop on what remains. *)
Lemma scan_inside fuel max acc e c rest (d : Decoder D) :
  in_mode max (Inside acc e) d → m_data d = c :: rest →
  (∀ m' d1, in_mode max m' d1 → m_data d1 = rest → wp (scan_loop fuel max) (loop_post max m' d1) d1) →
  wp (scan_loop (S fuel) max) (loop_post max (Inside acc e) d) d.
Proof.
  intros Hm Hd IH. pose proof Hm as (Hmax & Hf & He & Hp & Hs & Ht & Hl).
  destruct (isLegalCharacter c (m_syntax d)) as [[legal c'] x'] eqn:Eleg.
  assert (feed max (Inside acc e) c (m_syntax d) =
    (if negb legal then inl Outside else if e then inl (if (length acc <? max)%nat then Inside (acc ++ [c']) false else Outside)
     else if isEofOfFrame c' x' then inr acc else if isEscapeChar c' x' then inl (Inside acc true)
     else inl (if (length acc <? max)%nat then Inside (acc ++ [c']) false else Outside), x')) as Efeed.
  { simpl. unfold feed_inside. by rewrite Eleg. }
  assert (∀ m' d1, in_mode max m' d1 → m_data d1 = rest → m_syntax d1 = x' → same_source d d1 →
    feed max (Inside acc e) c (m_syntax d) = (inl m', x') →
    wp (scan_loop fuel max) (loop_post max (Inside acc e) d) d1) as Hgo.
  { intros m' d1 H1 H2 H3 H4 H5. eapply wp_mono; [by apply (IH m')|]. intros r d' Hpost.
    eapply loop_post_step; [exact Hd|by rewrite H3|done|done|done]. }
  clear IH. cbn [scan_loop]. apply wp_bind. cbn [wp get_st]. unfold wp at 1, get_st. rewrite Hd, Hf. cbn [negb].
  rewrite Eleg. apply wp_bind, wp_modify. destruct legal; cbn [negb] in *.
  2: { apply wp_bind, wp_modify, wp_bind, wp_modify. eapply (Hgo Outside); [done|done|done|by split|done]. }
  rewrite He. destruct e; cbn [negb].
  - apply wp_bind. rewrite Hs. destruct (length acc <? max)%nat eqn:Eroom.
    + apply Nat.ltb_lt in Eroom. apply wp_bind, wp_modify.
      eapply (store_ok max acc false); [by split_and!|done|done|]. intros d1 H1 H2 H3 H4. apply wp_bind, wp_modify.
      eapply (Hgo (Inside (acc ++ [c']) false)); [done|done|done| |done]. by destruct H2; split.
    + apply wp_modify, wp_bind, wp_modify. by eapply (Hgo Outside); [..|split|].
  - destruct (isEofOfFrame c' x') eqn:Eeof.
    { apply wp_bind, wp_modify, wp_bind, wp_modify, wp_ret. split; [by split|]. rewrite Hd. cbn [run]. rewrite Efeed. by rewrite Hs. }
    apply wp_bind. destruct (isEscapeChar c' x'); cbn [negb].
    { apply wp_modify, wp_bind, wp_modify. by eapply (Hgo (Inside acc true)); [..|split|]. }
    unfold store_or_reset. apply wp_bind. unfold wp at 1, get_st. cbn [m_frameSize set_syntax]. rewrite Hs.
    destruct (length acc <? max)%nat eqn:Eroom.
    + apply Nat.ltb_lt in Eroom.
      eapply (store_ok max acc false); [by split_and!|done|done|]. intros d1 H1 H2 H3 H4. apply wp_bind, wp_modify.
      eapply (Hgo (Inside (acc ++ [c']) false)); [done|done|done| |done]. by destruct H2; split.
    + apply wp_modify, wp_bind, wp_modify. by eapply (Hgo Outside); [..|split|].
Qed.

Lemma scan_loop_ok fuel max m (d : Decoder D) :
  in_mode max m d → (2 * length (m_data d) - (if m_inFrame d then 1 else 0) <= fuel)%nat →
  wp (scan_loop fuel max) (loop_post max m d) d.
Proof.
  revert m d. induction fuel as [|fuel IH]; intros m d Hm Hfuel; destruct (m_data d) as [|c rest] eqn:Hd.
  1,3: apply wp_bind; unfold wp at 1, get_st; rewrite Hd; apply wp_ret; split; [by split|]; by rewrite Hd.
  - simpl in Hfuel. destruct (m_inFrame d); lia.
  - destruct m as [|acc e].
    2: { eapply scan_inside; [done|done|]. intros m' d1 H1 H2. apply IH; [done|]. rewrite H2. simpl in Hfuel.
         destruct (m_inFrame d), (m_inFrame d1); lia. }
    destruct Hm as [Hmax Hf]. destruct (isStartOfFrame c (m_syntax d)) as [[[found back] c'] x'] eqn:Est.
    cbn [scan_loop]. apply wp_bind. unfold wp at 1, get_st. rewrite Hd, Hf. cbn [negb]. rewrite Est, Hf in *.
    apply wp_bind, wp_modify, wp_bind. destruct back.
    + pose proof (back_found _ _ _ _ _ Est) as ->. apply wp_modify, wp_bind, wp_modify.
      set (d1 := set_data _ _). eapply wp_mono; [apply (IH (Inside [] false) d1); [|simpl in *; lia]|].
      { split_and!; simpl; try done. lia. }
      intros r d' [Hs Hr]. split; [by destruct Hs; split|]. rewrite Hd. simpl. rewrite Est. exact Hr.
    + assert (∀ d1, in_mode max (if found then Inside [] false else Outside) d1 → m_data d1 = rest → m_syntax d1 = x' →
        same_source d d1 → wp (scan_loop fuel max) (loop_post max Outside d) d1) as Hgo.
      { intros d1 H1 H2 H3 H4. eapply wp_mono; [apply (IH _ d1 H1)|].
        - rewrite H2. simpl in Hfuel. destruct (m_inFrame d1); lia.
        - intros r d' Hp. eapply loop_post_step; [exact Hd| |done|done|done]. rewrite H3. simpl. rewrite Est. by destruct found. }
      destruct found; [apply wp_modify|apply wp_ret]; apply wp_bind, wp_modify, Hgo; try done.
      split_and!; simpl; try done. lia.
Qed.

(** *** Reading *)

(** All the bytes of a stream. *)
Definition arrivals (i : Input) : list Z := concat (default [] <$> i).

Lemma blocking_read_ok n i :
  (0 < n)%nat →
  match blocking_read n i with
  | (Some bs, i') => arrivals i = bs ++ arrivals i' ∧ (reads i' < reads i)%nat
  | (None, i') => arrivals i = [] ∧ i' = []
  end.
Proof.
  intros Hn. induction i as [|[bs|] i IH]; [done| |].
  - simpl. unfold reads, arrivals. simpl. destruct (Nat.leb_spec (length bs) n).
    + simpl. split; [done|lia].
    + simpl. rewrite length_drop, app_assoc, take_drop. split; [done|lia].
  - simpl. destruct (blocking_read n i) as [[bs|] i']; unfold reads, arrivals in *; simpl; [|done].
    destruct IH. split; [done|lia].
Qed.

Definition read_post (d : Decoder D) (i : Input) (r : option (list Z)) (d' : Decoder D) : Prop :=
  ∃ i', d' = set_src (m_data d) i' d ∧
    match r with
    | Some bs => arrivals i = bs ++ arrivals i' ∧ (reads i' < reads i)%nat
    | None => arrivals i = [] ∧ i' = []
    end.

Lemma stream_read_ok (d : Decoder D) i : m_src d = Some i → (0 < m_bufSize d)%nat → wp read (read_post d i) d.
Proof.
  intros Hi Hn. unfold read. apply wp_bind. unfold wp at 1, get_st. rewrite Hi.
  assert (∀ i', wp (let '(r, i'') := blocking_read (m_bufSize d) i' in modify (set_src (m_data d) i'');; ret r) (read_post d i') d) as Hb.
  { intros i'. pose proof (blocking_read_ok (m_bufSize d) i' Hn) as H. destruct (blocking_read _ i') as [r i''].
    apply wp_bind, wp_modify, wp_ret. by exists i''. }
  destruct (m_blocking d), i as [|[bs|] i]; try apply Hb.
  apply wp_bind, wp_modify, wp_ret. exists i. split; [done|]. unfold reads, arrivals. simpl. split; [done|lia].
Qed.

(** The bytes that the decoder has not looked at. *)
Definition unread (d : Decoder D) : list Z := m_data d ++ arrivals (default [] (m_src d)).

Definition some_post (max : nat) (m : mode) (d : Decoder D) (res : bool * nat * bool) (d' : Decoder D) : Prop :=
  let '(ok, n, isEof) := res in
  m_bufSize d' = m_bufSize d ∧ length (frame d') = length (frame d) ∧ is_Some (m_src d') ∧
  if ok then
    (m_data d = [] → (reads (default [] (m_src d')) < reads (default [] (m_src d)))%nat) ∧
    (reads (default [] (m_src d')) <= reads (default [] (m_src d)))%nat ∧
    if isEof then ∃ f x' rest, run max m (m_syntax d) (unread d) = inr (f, x', rest) ∧ n = length f ∧ unread d' = rest ∧
      m_syntax d' = x' ∧ take n (frame d') = f ∧ (n <= max)%nat
    else m_data d' = [] ∧ ∃ m' , in_mode max m' d' ∧ run max m (m_syntax d) (unread d) = run max m' (m_syntax d') (unread d')
  else ∃ mx, run max m (m_syntax d) (unread d) = inl mx.

Lemma scan_some_ok max m (d : Decoder D) i :
  in_mode max m d → m_src d = Some i → (0 < m_bufSize d)%nat →
  wp (scan_some max) (some_post max m d) d.
Proof.
  intros Hm Hi Hb. unfold scan_some. apply wp_bind. unfold wp at 1, get_st.
  assert (∀ bs i', (m_data d = [] → (reads i' < reads i)%nat) → (reads i' <= reads i)%nat → bs ++ arrivals i' = unread d →
    wp (d0 ← get_st; r ← scan_loop (2 * length (m_data d0)) max;
      match r with Some n => ret (true, n, true) | None => n ← gets m_frameSize; ret (true, n, false) end)
      (some_post max m d) (set_src bs i' d)) as Hgo.
  { intros bs i' Hr1 Hr2 Hu. set (d1 := set_src bs i' d). apply wp_bind. unfold wp at 1, get_st. apply wp_bind.
    eapply wp_mono; [apply (scan_loop_ok _ max m d1); [done|lia]|].
    intros r d2 [[S1 S2 S3 S4] Hpost]. change (m_src d1) with (Some i') in S1.
    change (m_data d1) with bs in Hpost. change (m_syntax d1) with (m_syntax d) in Hpost.
    assert (unread d2 = m_data d2 ++ arrivals i') as Hu2 by (unfold unread; by rewrite S1).
    pose proof (run_app max m (m_syntax d) bs (arrivals i')) as Hrun. rewrite Hu in Hrun.
    destruct (run max m (m_syntax d) bs) as [[m' x']|[[f x'] rest]].
    - destruct Hpost as (-> & Hd & Hm' & <-). apply wp_bind, wp_gets, wp_ret. split_and!; [done|done|by rewrite S1|..].
      + by rewrite S1, Hi.
      + by rewrite S1, Hi.
      + done.
      + exists m'. split; [done|]. by rewrite Hrun, Hu2, Hd.
    - destruct Hpost as (-> & Hd & Hm' & <- & Ht & Hl). apply wp_ret. split_and!; [done|done|by rewrite S1|..].
      + by rewrite S1, Hi.
      + by rewrite S1, Hi.
      + exists f, (m_syntax d2), (rest ++ arrivals i'). split_and!; try done. by rewrite Hu2, Hd. }
  apply wp_bind. destruct (m_data d) as [|c data] eqn:Hd.
  - apply wp_bind. eapply wp_mono; [by eapply stream_read_ok|]. intros r d1 (i' & -> & Hr). destruct r as [bs|].
    + apply wp_bind, wp_modify, wp_ret. cbn [negb]. apply (Hgo bs i'); [lia|lia|]. unfold unread. rewrite Hd, Hi. symmetry. apply Hr.
    + apply wp_bind, wp_modify, wp_ret. cbn [negb]. apply wp_bind, wp_modify, wp_ret. split_and!; try done.
      exists (m, m_syntax d). unfold unread. rewrite Hd, Hi. destruct Hr as [Hr _]. simpl. by rewrite Hr.
  - apply wp_ret. cbn [negb]. replace d with (set_src (c :: data) i d) at 2 by (rewrite <-Hd; destruct d; simpl in *; by subst).
    apply (Hgo (c :: data) i); [done|done|]. unfold unread. by rewrite Hd, Hi.
Qed.

Definition scan_post (max : nat) (d : Decoder D) (o : (mode * D) + (list Z * D * list Z)) (res : bool * nat) (d' : Decoder D) : Prop :=
  m_bufSize d' = m_bufSize d ∧ is_Some (m_src d') ∧ length (frame d') = length (frame d) ∧
  match o with
  | inl _ => res.1 = false
  | inr (f, x', rest) => res = (true, length f) ∧ take (length f) (frame d') = f ∧ (length f <= max)%nat ∧
      m_syntax d' = x' ∧ unread d' = rest
  end.

Lemma scan_frames_ok fuel max m (d : Decoder D) :
  in_mode max m d → is_Some (m_src d) → (0 < m_bufSize d)%nat →
  (match m_data d with [] => 1 | _ => 2 end + reads (default [] (m_src d)) <= fuel)%nat →
  wp (scan_frames fuel max) (scan_post max d (run max m (m_syntax d) (unread d))) d.
Proof.
  revert m d. induction fuel as [|fuel IH]; intros m d Hm [i Hi] Hb Hfuel; [destruct (m_data d); lia|].
  cbn [scan_frames]. apply wp_bind. eapply wp_mono; [by eapply scan_some_ok|].
  intros [[ok n] isEof] d1 (B1 & F1 & S1 & H). destruct ok; cbn [negb].
  - destruct H as (R1 & R2 & H). destruct isEof.
    + destruct H as (f & x' & rest & -> & -> & Hu & Hx & Ht & Hl). apply wp_ret. by split_and!.
    + destruct H as (Hd1 & m' & Hm' & ->). eapply wp_mono; [apply (IH m' d1 Hm' S1); [by rewrite B1|]|].
      * rewrite Hd1. destruct (m_data d); [specialize (R1 eq_refl); lia|lia].
      * intros res d2 (B2 & S2 & F2 & H2). split_and!; [congruence|done|congruence|done].
  - destruct H as [mx ->]. apply wp_ret. by split_and!.
Qed.

Lemma scan_ok max buf (d : Decoder D) :
  is_Some (m_src d) → (0 < m_bufSize d)%nat → (max <= length buf)%nat →
  wp (scan max (Some buf)) (λ res d', m_bufSize d' = m_bufSize d ∧ is_Some (m_src d') ∧ length (frame d') = length buf ∧
    match run max Outside (m_syntax d) (unread d) with
    | inl _ => res.1 = false
    | inr (f, x', rest) => res = (true, length f) ∧ take (length f) (frame d') = f ∧ (length f <= max)%nat ∧
        m_syntax d' = x' ∧ unread d' = rest
    end) d.
Proof.
  intros Hs Hb Hmax. apply wp_bind, wp_modify, wp_bind, wp_modify, wp_bind, wp_gets.
  eapply wp_mono; [apply (scan_frames_ok _ max Outside); try done|].
  - cbn [m_data m_src initializeFrame set_frame]. destruct (m_data d); lia.
  - by intros res d' (B & S & F & H).
Qed.
End automaton.
