(* ===== verification/FrameTheorems.v ===== *)
(** * Text framing: theorems *)

From Stdlib Require Import ZArith Lia.
From S2P Require Import Prelude Frame FrameSpec.
Local Open Scope Z_scope.
Local Open Scope pim_scope.

(** ** What the encoders write *)

(** What a derived class promises to Encoder_: [sent] is on the stream, [taken]
    is what has been accepted since the frame was started, buffered or sent. *)
Class SinkOk (S : Type) `{!Sink S} := {
  sink_ok : S → Prop;
  sent : S → list Z;
  taken : S → list Z;
  sink_start : ∀ c s s', sink_ok s → start c s = (true, s') → sink_ok s' ∧ taken s' = sent s ++ [c];
  sink_start0 : ∀ s s', sink_ok s → start0 s = (true, s') → sink_ok s' ∧ taken s' = sent s;
  sink_append : ∀ c s s', sink_ok s → append c s = (true, s') → sink_ok s' ∧ taken s' = taken s ++ [c];
  sink_flush : ∀ s s', sink_ok s → flush s = (true, s') → sink_ok s' ∧ sent s' = taken s
}.

Section sinks.
Context {O : Type} `{!Output O}.

Definition wire (o : option O) : list Z := match o with Some o => written o | None => [] end.

Lemma stream_append_ok c (s s' : StreamEncoder O) :
  stream_append c s = (true, s') → wire (stream_dstPtr s') = wire (stream_dstPtr s) ++ [c].
Proof.
  unfold stream_append. destruct s as [[o|]]; simpl; [|done]. destruct (write [c] o) as [r o'] eqn:E.
  intros [= -> <-]. by apply write_written.
Qed.

#[export] Program Instance StreamEncoder_ok : SinkOk (StreamEncoder O) := {
  sink_ok := λ _, True;
  sent := λ s, wire (stream_dstPtr s);
  taken := λ s, wire (stream_dstPtr s)
}.
Next Obligation. intros c s s' _ H. split; [done|by apply stream_append_ok]. Qed.
Next Obligation. by intros s s' _ [= <-]. Qed.
Next Obligation. intros c s s' _ H. split; [done|by apply stream_append_ok]. Qed.
Next Obligation. by intros s s' _ [= <-]. Qed.

Definition block_ok (s : BlockEncoder O) : Prop :=
  (block_bufferCount s < block_bufferSize s)%nat ∧ (block_bufferSize s <= length (block_buffer s))%nat.

Definition block_taken (s : BlockEncoder O) : list Z :=
  wire (block_dstPtr s) ++ take (block_bufferCount s) (block_buffer s).

Lemma block_write_ok n (s s' : BlockEncoder O) :
  block_write n s = (true, s') → wire (block_dstPtr s') = wire (block_dstPtr s) ++ take n (block_buffer s) ∧
    block_buffer s' = block_buffer s ∧ block_bufferSize s' = block_bufferSize s ∧ block_bufferCount s' = block_bufferCount s.
Proof.
  unfold block_write. destruct s as [[o|] b n' k]; simpl; [|done]. destruct (write _ o) as [r o'] eqn:E.
  intros [= -> <-]. split_and!; try done. by apply write_written.
Qed.

Lemma appendToBlock_ok c (s s' : BlockEncoder O) :
  block_ok s → appendToBlock c s = (true, s') → block_ok s' ∧ block_taken s' = block_taken s ++ [c].
Proof.
  intros [Hc Hb]. unfold appendToBlock. case_decide; [done|]. rewrite (proj2 (Nat.ltb_lt _ _)) by done.
  set (s1 := BlockEnc _ _ _ _).
  assert (take (block_bufferCount s + 1) (block_buffer s1) = take (block_bufferCount s) (block_buffer s) ++ [c]) as Ht.
  { simpl. rewrite Nat.add_1_r, (take_S_r _ _ c) by (apply list_lookup_insert_eq; lia). by rewrite take_insert_ge by lia. }
  cbn [block_bufferSize s1 block_bufferCount]. destruct (Nat.leb_spec (block_bufferSize s) (block_bufferCount s + 1)).
  - intros (Hw & Hb' & Hs' & Hc')%block_write_ok. simpl in *. split; [split|].
    + rewrite Hs', Hc'. lia.
    + rewrite Hs', Hb', length_insert. lia.
    + unfold block_taken. rewrite Hc', Hw. simpl. replace (block_bufferSize s) with (block_bufferCount s + 1)%nat by lia.
      by rewrite Ht, app_nil_r, app_assoc.
  - intros [= <-]. split; [split; simpl; [lia|by rewrite length_insert]|]. unfold block_taken. cbn [s1 block_dstPtr block_bufferCount].
    change (<[block_bufferCount s:=c]> (block_buffer s)) with (block_buffer s1). by rewrite Ht, app_assoc.
Qed.

Lemma block_reset_ok (s : BlockEncoder O) :
  block_ok s → block_ok (block_reset s) ∧ block_taken (block_reset s) = wire (block_dstPtr s).
Proof. intros [Hc Hb]. split; [split; simpl; lia|]. unfold block_taken. simpl. by rewrite app_nil_r. Qed.

#[export] Program Instance BlockEncoder_ok : SinkOk (BlockEncoder O) := {
  sink_ok := block_ok;
  sent := λ s, wire (block_dstPtr s);
  taken := block_taken
}.
Next Obligation.
  intros c s s' Hs H. destruct (block_reset_ok s Hs) as [H1 H2].
  apply appendToBlock_ok in H as [H3 H4]; [|done]. by rewrite H4, H2.
Qed.
Next Obligation. intros s s' Hs [= <-]. by apply block_reset_ok. Qed.
Next Obligation. intros c s s' Hs H. by apply appendToBlock_ok. Qed.
Next Obligation.
  intros s s' [Hc Hb] (Hw & Hb' & Hs' & Hc')%block_write_ok. split; [|done]. split; [by rewrite Hs', Hc'|by rewrite Hs', Hb'].
Qed.
End sinks.

(** A frame, as bytes. *)
Definition escaped (eof esc : Z) (xs : list Z) : list Z :=
  concat ((λ c, if negb (esc =? 0) && ((c =? esc) || (c =? eof)) then [esc; c] else [c]) <$> xs).

Definition encoded (sof eof esc : Z) (newline : bool) (xs : list Z) : list Z :=
  (if sof =? 0 then [] else [sof]) ++ escaped eof esc xs ++ [eof] ++ (if newline then escaped eof esc NewLine_standard else []).

(** A client of an encoder: sends messages until a write fails. *)
Definition send {S} `{!Sink S} (xs : list Z) : ST (Encoder S) bool :=
  r ← startFrame;
  if negb r then ret false
  else
    r ← output (Some xs);
    if negb r then ret false else endFrame.

Fixpoint send_all {S} `{!Sink S} (msgs : list (list Z)) : ST (Encoder S) bool :=
  match msgs with
  | [] => ret true
  | xs :: msgs => r ← send xs; if negb r then ret false else send_all msgs
  end.

Section encoder.
Context {S : Type} `{!Sink S} `{!SinkOk S}.

(** The encoder [e'] is [e] with another sink. *)
Record same_format (e e' : Encoder S) : Prop := {
  sf_sof : enc_sof e' = enc_sof e;
  sf_eof : enc_eof e' = enc_eof e;
  sf_esc : enc_esc e' = enc_esc e;
  sf_newline : enc_appendNewline e' = enc_appendNewline e
}.

#[global] Instance same_format_trans : Transitive same_format.
Proof. intros e1 e2 e3 [] []. split; congruence. Qed.

Definition enc_post (b : bool) (out : list Z) (e : Encoder S) (r : bool) (e' : Encoder S) : Prop :=
  same_format e e' ∧ (r = true → enc_inFrame e' = b ∧ sink_ok (enc_sink e') ∧ taken (enc_sink e') = out).

Lemma append_ok b c (e : Encoder S) : enc_inFrame e = b → sink_ok (enc_sink e) →
  wp (on_sink (append c)) (enc_post b (taken (enc_sink e) ++ [c]) e) e.
Proof.
  intros Hb Hs. unfold wp, on_sink. destruct (append c (enc_sink e)) as [r s] eqn:E. split; [done|].
  intros ->. simpl. split; [done|]. by apply sink_append.
Qed.

Lemma output_char_ok c (e : Encoder S) : enc_inFrame e = true → sink_ok (enc_sink e) →
  wp (output_char c) (enc_post true (taken (enc_sink e) ++ escaped (enc_eof e) (enc_esc e) [c]) e) e.
Proof.
  intros Hb Hs. unfold output_char, escaped. apply wp_bind. unfold wp at 1, get_st. rewrite Hb. cbn [negb fmap list_fmap concat].
  destruct (negb (enc_esc e =? 0) && _); [|by apply append_ok].
  apply wp_bind. eapply wp_mono; [by apply append_ok|]. intros [] e1 [F1 H1]; apply wp_bind.
  - destruct H1 as (I1 & K1 & T1); [done|]. eapply wp_mono; [by apply append_ok|]. intros r e2 [F2 H2]. apply wp_ret.
    split; [by etrans|]. simpl. intros Hr. destruct H2 as (I2 & K2 & T2); [done|]. split_and!; [done|done|].
    rewrite T2, T1. by rewrite <-app_assoc.
  - unfold wp at 1, on_sink. destruct (append _ _) as [r s]. apply wp_ret. split; [|done]. by destruct F1.
Qed.

Lemma output_loop_ok xs (e : Encoder S) : enc_inFrame e = true → sink_ok (enc_sink e) →
  wp (output_loop xs) (enc_post true (taken (enc_sink e) ++ escaped (enc_eof e) (enc_esc e) xs) e) e.
Proof.
  revert e. induction xs as [|c xs IH]; intros e Hb Hs.
  { apply wp_ret. split; [done|]. intros _. split_and!; [done|done|]. unfold escaped. simpl. by rewrite app_nil_r. }
  apply wp_bind. eapply wp_mono; [by apply output_char_ok|]. intros [] e1 [F1 H1]; [|by apply wp_ret].
  destruct H1 as (I1 & K1 & T1); [done|]. eapply wp_mono; [by apply IH|]. intros r e2 [F2 H2]. split; [by etrans|].
  intros ->. destruct H2 as (I2 & K2 & T2); [done|]. split_and!; [done|done|].
  rewrite T2, T1, (sf_eof _ _ F1), (sf_esc _ _ F1), <-app_assoc. f_equal.
  unfold escaped. cbn [fmap list_fmap concat]. by rewrite app_nil_r.
Qed.

Lemma send_ok xs (e : Encoder S) : enc_inFrame e = false → sink_ok (enc_sink e) →
  wp (send xs) (λ r e', same_format e e' ∧ (r = true → enc_inFrame e' = false ∧ sink_ok (enc_sink e') ∧
    sent (enc_sink e') = sent (enc_sink e) ++ encoded (enc_sof e) (enc_eof e) (enc_esc e) (enc_appendNewline e) xs)) e.
Proof.
  intros Hb Hs. unfold send. apply wp_bind.
  eapply (wp_mono _ (enc_post true (sent (enc_sink e) ++ (if enc_sof e =? 0 then [] else [enc_sof e])) e)).
  { apply wp_bind. unfold wp at 1, get_st. rewrite Hb. apply wp_bind, wp_modify. destruct (enc_sof e =? 0); cbn [negb].
    - unfold wp, on_sink. simpl. destruct (start0 (enc_sink e)) as [r s] eqn:E. split; [done|]. intros ->. split; [done|].
      rewrite app_nil_r. by apply sink_start0.
    - unfold wp, on_sink. simpl. destruct (start _ (enc_sink e)) as [r s] eqn:E. split; [done|]. intros ->. split; [done|].
      by apply sink_start. }
  intros [] e1 [F1 H1]; [|by apply wp_ret]. destruct H1 as (I1 & K1 & T1); [done|]. cbn [negb]. apply wp_bind.
  eapply wp_mono; [by apply output_loop_ok|]. intros [] e2 [F2 H2]; [|apply wp_ret; split; [by etrans|done]].
  destruct H2 as (I2 & K2 & T2); [done|]. cbn [negb]. pose proof (transitivity F1 F2) as F12.
  set (nl := if enc_appendNewline e then escaped (enc_eof e) (enc_esc e) NewLine_standard else []).
  unfold endFrame. apply wp_bind. eapply (wp_mono _ (enc_post false (taken (enc_sink e2) ++ [enc_eof e] ++ nl) e2)).
  { apply wp_bind. unfold wp at 1, get_st. rewrite I2. cbn [negb]. apply wp_bind, wp_modify, wp_bind.
    rewrite (sf_eof _ _ F12), (sf_newline _ _ F12).
    set (e2' := Enc false _ _ _ _ _). eapply wp_mono; [by apply (append_ok false _ e2')|]. intros [] e3 [F3 H3].
    2: { apply wp_ret. split; [destruct F3, F12; split; simpl in *; congruence|done]. }
    destruct H3 as (I3 & K3 & T3); [done|]. cbn [enc_sink e2'] in T3.
    assert (same_format e2 e3) as F23 by (destruct F3, F12; split; simpl in *; congruence). pose proof (transitivity F12 F23) as F13.
    unfold nl. destruct (enc_appendNewline e); cbn [negb].
    - apply wp_bind, wp_modify, wp_bind. set (e3' := Enc true _ _ _ _ _).
      eapply wp_mono; [by apply (output_loop_ok _ e3')|]. intros r e4 [F4 H4]. apply wp_bind, wp_modify, wp_ret.
      split; [destruct F4, F23; split; simpl in *; congruence|]. intros ->. destruct H4 as (I4 & K4 & T4); [done|].
      split_and!; [done|done|]. cbn [enc_sink]. rewrite T4. cbn [enc_sink enc_eof enc_esc e3'].
      by rewrite T3, (sf_eof _ _ F13), (sf_esc _ _ F13), <-app_assoc.
    - apply wp_ret. split; [done|]. by intros _. }
  intros [] e3 [F3 H3]; [|apply wp_ret; split; [by etrans|done]]. destruct H3 as (I3 & K3 & T3); [done|].
  unfold wp, on_sink. destruct (flush (enc_sink e3)) as [r s] eqn:E. split; [by pose proof (transitivity F12 F3) as []|].
  intros ->. cbn [enc_inFrame enc_sink]. destruct (sink_flush _ _ K3 E) as [K4 T4]. split_and!; [done|done|].
  rewrite T4, T3, T2, T1, (sf_eof _ _ F1), (sf_esc _ _ F1). unfold encoded. by rewrite !app_assoc.
Qed.

Lemma send_all_ok msgs (e : Encoder S) : enc_inFrame e = false → sink_ok (enc_sink e) →
  wp (send_all msgs) (λ r e', r = true → sent (enc_sink e') =
    sent (enc_sink e) ++ concat (encoded (enc_sof e) (enc_eof e) (enc_esc e) (enc_appendNewline e) <$> msgs)) e.
Proof.
  revert e. induction msgs as [|xs msgs IH]; intros e Hb Hs; [apply wp_ret; intros _; by rewrite app_nil_r|].
  apply wp_bind. eapply wp_mono; [by apply send_ok|]. intros [] e1 [F1 H1]; [|by apply wp_ret].
  destruct H1 as (I1 & K1 & T1); [done|]. eapply wp_mono; [by apply IH|]. intros r e2 H Hr. rewrite (H Hr), T1.
  destruct F1 as [-> -> -> ->]. cbn [fmap list_fmap concat]. by rewrite app_assoc.
Qed.
End encoder.

(** ** What the decoders find *)

Section ascii.
Context (A : AsciiDecoder) (max : nat).
Notation sof := (m_sof A). Notation eof := (m_eof A). Notation esc := (m_esc A).

Hypothesis sof_used : sof ≠ 0.
Hypothesis esc_used : esc ≠ 0.
Hypothesis eof_esc : eof ≠ esc.
Hypothesis eof_legal : ascii_isLegal eof A = true.
Hypothesis esc_legal : ascii_isLegal esc A = true.

(** Bytes between frames are skipped. *)
Lemma run_noise noise bs : sof ∉ noise → run max Outside A (noise ++ bs) = run max Outside A bs.
Proof using.
  induction noise as [|c noise IH]; [done|]. rewrite not_elem_of_cons. intros [Hc Hn]. simpl.
  rewrite (proj2 (Z.eqb_neq c sof)) by done. by apply IH.
Qed.

Lemma feed_plain acc c : ascii_isLegal c A = true → c ≠ eof → c ≠ esc → (length acc < max)%nat →
  feed max (Inside acc false) c A = (inl (Inside (acc ++ [c]) false), A).
Proof using.
  intros Hl He Hs Hr. simpl. unfold feed_inside. simpl. rewrite Hl, (proj2 (Z.eqb_neq c eof)), (proj2 (Z.eqb_neq c esc)) by done.
  by rewrite (proj2 (Nat.ltb_lt _ _) Hr).
Qed.

Lemma run_body xs acc rest : Forall (λ c, ascii_isLegal c A = true) xs → (length acc + length xs <= max)%nat →
  run max (Inside acc false) A (escaped eof esc xs ++ eof :: rest) = inr (acc ++ xs, A, rest).
Proof using esc_used eof_esc eof_legal esc_legal.
  revert acc. induction xs as [|c xs IH]; intros acc Hx Hl.
  - simpl. unfold feed_inside. simpl. by rewrite eof_legal, Z.eqb_refl, app_nil_r.
  - apply Forall_cons in Hx as [Hc Hx]. simpl in Hl. unfold escaped. cbn [fmap list_fmap concat]. fold (escaped eof esc xs).
    rewrite (proj2 (Z.eqb_neq esc 0)) by done. cbn [negb andb].
    assert (run max (Inside (acc ++ [c]) false) A (escaped eof esc xs ++ eof :: rest) = inr (acc ++ c :: xs, A, rest)) as Hgo.
    { rewrite IH; [by rewrite <-app_assoc|done|]. rewrite length_app. simpl. lia. }
    destruct (Z.eqb_spec c esc), (Z.eqb_spec c eof); cbn [orb].
    4: { cbn [app run]. rewrite feed_plain by (done || lia). exact Hgo. }
    all: cbn [app run feed]; unfold feed_inside; cbn [isLegalCharacter AsciiDecoder_syntax isEofOfFrame isEscapeChar];
      rewrite esc_legal, (proj2 (Z.eqb_neq esc eof)), Z.eqb_refl by congruence; cbn [negb run feed];
      unfold feed_inside; cbn [isLegalCharacter AsciiDecoder_syntax]; cbn [negb]; rewrite Hc, (proj2 (Nat.ltb_lt (length acc) max)) by lia; exact Hgo.
Qed.

Lemma run_encoded newline noise xs rest :
  sof ∉ noise → Forall (λ c, ascii_isLegal c A = true) xs → (length xs <= max)%nat →
  run max Outside A (noise ++ encoded sof eof esc newline xs ++ rest) =
    inr (xs, A, (if newline then escaped eof esc NewLine_standard else []) ++ rest).
Proof using sof_used esc_used eof_esc eof_legal esc_legal.
  intros Hn Hx Hl. rewrite run_noise by done. unfold encoded. rewrite (proj2 (Z.eqb_neq sof 0)) by done.
  rewrite <-!app_assoc. cbn [app run feed]. cbn [isStartOfFrame AsciiDecoder_syntax]. rewrite Z.eqb_refl. by apply run_body.
Qed.
End ascii.

(** A client of a decoder: receives up to [n] frames. *)
Fixpoint receive {D} `{!Syntax D} (max : nat) (buf : list Z) (n : nat) : ST (Decoder D) (list (list Z)) :=
  match n with
  | O => ret []
  | S n =>
      '(ok, k) ← scan max (Some buf);
      f ← gets (λ d, take k (frame d));
      if negb ok then ret [] else fs ← receive max buf n; ret (f :: fs)
  end.

Lemma receive_ok (A : AsciiDecoder) newline max buf msgs noise (d : Decoder AsciiDecoder) :
  m_sof A ≠ 0 → m_esc A ≠ 0 → m_eof A ≠ m_esc A → m_sof A ≠ m_esc A → (newline = true → m_sof A ≠ 10) →
  ascii_isLegal (m_eof A) A = true → ascii_isLegal (m_esc A) A = true →
  Forall (λ xs, Forall (λ c, ascii_isLegal c A = true) xs ∧ (length xs <= max)%nat) msgs →
  m_syntax d = A → is_Some (m_src d) → (0 < m_bufSize d)%nat → (max <= length buf)%nat → m_sof A ∉ noise →
  unread d = noise ++ concat (encoded (m_sof A) (m_eof A) (m_esc A) newline <$> msgs) →
  wp (receive max buf (length msgs)) (λ r _, r = msgs) d.
Proof.
  intros Hsof Hesc Hee Hse Hnl Hleof Hlesc Hm HA Hsrc Hbuf Hmax. revert noise d HA Hsrc Hbuf.
  induction msgs as [|xs msgs IH]; intros noise d HA Hsrc Hbuf Hnoise Hu; [by apply wp_ret|].
  apply Forall_cons in Hm as [[Hx Hl] Hm]. cbn [length receive]. apply wp_bind.
  eapply wp_mono; [by apply (scan_ok max buf d)|]. intros [ok k] d1 (B1 & S1 & F1 & H1).
  cbn [fmap list_fmap concat] in Hu. rewrite Hu, HA, run_encoded in H1 by done.
  destruct H1 as ([= -> ->] & Ht & _ & Hx1 & Hu1). apply wp_bind, wp_gets. cbn [negb]. apply wp_bind.
  eapply wp_mono; [eapply (IH Hm _ d1)|].
  - done.
  - done.
  - by rewrite B1.
  - instantiate (1 := if newline then escaped (m_eof A) (m_esc A) NewLine_standard else []).
    destruct newline; [|apply not_elem_of_nil]. specialize (Hnl eq_refl). unfold escaped, NewLine_standard. simpl.
    destruct (_ && _); set_solver.
  - done.
  - intros r d2 ->. apply wp_ret. by rewrite Ht.
Qed.


(** C33. scan() ends, stays inside the client's buffer and depends on the bytes
    only.  For every decoder, on every stream that ends, whatever bytes it
    carries and in whatever pieces they arrive, scan() returns: it finds the
    first frame of the automaton and has looked at nothing after it, or it
    reports the end of the stream when there is no frame; and no character is
    written outside a buffer of maxSizeOfFrame characters. *)
Theorem scan_finds_first_frame {D} `{!Syntax D} `{!SyntaxOk D} (max : nat) (buf : list Z) (d : Decoder D) :
  is_Some (m_src d) → (0 < m_bufSize d)%nat → length buf = max →
  wp (scan max (Some buf)) (λ '(ok, n) d', length (frame d') = max ∧
    match run max Outside (m_syntax d) (unread d) with
    | inl _ => ok = false
    | inr (f, x', rest) => ok = true ∧ n = length f ∧ take n (frame d') = f ∧ (n <= max)%nat ∧
        m_syntax d' = x' ∧ unread d' = rest
    end) d.
Proof.
  intros Hs Hb Hl. eapply wp_mono; [apply (scan_ok max buf d); [done|done|lia]|].
  intros [ok n] d' (_ & _ & F & H). split; [congruence|].
  destruct (run max Outside (m_syntax d) (unread d)) as [?|[[f x'] rest]]; [done|].
  destruct H as ([= -> ->] & H). done.
Qed.

(** *** Examples *)

(** An output stream in memory. *)
#[local] Program Instance ram_output : Output (list Z) := {
  write := λ bs o, (true, o ++ bs);
  written := λ o, o
}.
Next Obligation. by intros bs o o' [= <-]. Qed.

Definition dot : Z := 46.
Definition semicolon : Z := 59.
Definition tilde : Z := 126.

(** A block encoder with blocks of four bytes, framing as in the comments of Decoder.h. *)
Definition demo_encoder : Encoder (BlockEncoder (list Z)) :=
  Enc false dot semicolon tilde true (BlockEnc (Some []) (repeat 0 4) 4 0).

Definition demo_decoder (i : Input) : Decoder AsciiDecoder :=
  Dec [] 3 false false None 0 (Ascii dot semicolon tilde true true) false (Some i) [].

(** a;b and ~. *)
Definition demo_messages : list (list Z) := [[97; 59; 98]; [126; 46]].

Definition demo_sent : Encoder (BlockEncoder (list Z)) :=
  Eval vm_compute in match send_all demo_messages demo_encoder with Some (_, e) => e | None => demo_encoder end.


Lemma scan_finds_first_frame_witness :
  wp (scan 8 (Some (repeat 0 8))) (λ '(ok, n) d', ok = true ∧ take n (frame d') = [97])
    (demo_decoder [Some [33; 46]; None; Some [97; 59; 46]]).
Proof.
  eapply wp_mono; [apply (scan_finds_first_frame 8 (repeat 0 8) (demo_decoder [Some [33; 46]; None; Some [97; 59; 46]]))|].
  - by eexists.
  - simpl. lia.
  - done.
  - intros [ok n] d' [_ H].
    match type of H with match ?r with _ => _ end =>
      assert (r = inr ([97], Ascii dot semicolon tilde true true, [46])) as E by (vm_compute; reflexivity); rewrite E in H end.
    destruct H as (-> & _ & -> & _). done.
Defined.

(** A frame that is too long for the client's buffer is given up in its middle,
    and a start-of-frame character in the rest of it starts a frame: of the one
    frame ".abc.de;" a client with room for two characters receives "de". *)
Lemma oversize_frame_restarts :
  wp (receive 2 [0; 0] 1) (λ fs _, fs = [[100; 101]]) (demo_decoder [Some [46; 97; 98; 99; 46; 100; 101; 59]]).
Proof. vm_compute. reflexivity. Qed.

(** With a signed char, a decoder that is not restricted to printable characters
    accepts every byte, not only those up to 0x7F. *)
Lemma signed_char_accepts_all c sof eof esc : 0 <= c < 256 → ascii_isLegal c (Ascii sof eof esc false true) = true.
Proof. intros Hc. unfold ascii_isLegal, char_val. simpl. destruct (Z.leb_spec 128 c); lia. Qed.

Lemma unsigned_char_accepts_ascii c sof eof esc : 0 <= c < 256 → ascii_isLegal c (Ascii sof eof esc false false) = (c <? 128).
Proof. intros Hc. unfold ascii_isLegal, char_val. simpl. by rewrite andb_true_r. Qed.
