(* ===== verification/Base64.v ===== *)
(** * Base64

    Models [src/Cpl/Text/Encoding/Base64.cpp].  A character is its byte; the
    source is a list of bytes, the destination a memory with a position that
    only moves inside of what has been written.  Both pointers may be null.
    size_t has [size_bits] bits, and char may be signed or not: the index into
    [dtable] is the value of the character. *)

From Stdlib Require Import ZArith Lia String Ascii.
From S2P Require Import Prelude Frame.
Local Open Scope Z_scope.
Local Open Scope pim_scope.

Definition base64_table : list Z :=
  (λ a, Z.of_N (N_of_ascii a)) <$> list_ascii_of_string "ABCDEFGHIJKLMNOPQRSTUVWXYZabcdefghijklmnopqrstuvwxyz0123456789+/".

Definition dtable : list Z :=
  [0x80; 0x80; 0x80; 0x80; 0x80; 0x80; 0x80; 0x80; 0x80; 0x80; 0x80; 0x80; 0x80; 0x80; 0x80; 0x80;
   0x80; 0x80; 0x80; 0x80; 0x80; 0x80; 0x80; 0x80; 0x80; 0x80; 0x80; 0x80; 0x80; 0x80; 0x80; 0x80;
   0x80; 0x80; 0x80; 0x80; 0x80; 0x80; 0x80; 0x80; 0x80; 0x80; 0x80; 0x3e; 0x80; 0x80; 0x80; 0x3f;
   0x34; 0x35; 0x36; 0x37; 0x38; 0x39; 0x3a; 0x3b; 0x3c; 0x3d; 0x80; 0x80; 0x80; 0x00; 0x80; 0x80;
   0x80; 0x00; 0x01; 0x02; 0x03; 0x04; 0x05; 0x06; 0x07; 0x08; 0x09; 0x0a; 0x0b; 0x0c; 0x0d; 0x0e;
   0x0f; 0x10; 0x11; 0x12; 0x13; 0x14; 0x15; 0x16; 0x17; 0x18; 0x19; 0x80; 0x80; 0x80; 0x80; 0x80;
   0x80; 0x1a; 0x1b; 0x1c; 0x1d; 0x1e; 0x1f; 0x20; 0x21; 0x22; 0x23; 0x24; 0x25; 0x26; 0x27; 0x28;
   0x29; 0x2a; 0x2b; 0x2c; 0x2d; 0x2e; 0x2f; 0x30; 0x31; 0x32; 0x33; 0x80; 0x80; 0x80; 0x80; 0x80;
   0x80; 0x80; 0x80; 0x80; 0x80; 0x80; 0x80; 0x80; 0x80; 0x80; 0x80; 0x80; 0x80; 0x80; 0x80; 0x80;
   0x80; 0x80; 0x80; 0x80; 0x80; 0x80; 0x80; 0x80; 0x80; 0x80; 0x80; 0x80; 0x80; 0x80; 0x80; 0x80;
   0x80; 0x80; 0x80; 0x80; 0x80; 0x80; 0x80; 0x80; 0x80; 0x80; 0x80; 0x80; 0x80; 0x80; 0x80; 0x80;
   0x80; 0x80; 0x80; 0x80; 0x80; 0x80; 0x80; 0x80; 0x80; 0x80; 0x80; 0x80; 0x80; 0x80; 0x80; 0x80;
   0x80; 0x80; 0x80; 0x80; 0x80; 0x80; 0x80; 0x80; 0x80; 0x80; 0x80; 0x80; 0x80; 0x80; 0x80; 0x80;
   0x80; 0x80; 0x80; 0x80; 0x80; 0x80; 0x80; 0x80; 0x80; 0x80; 0x80; 0x80; 0x80; 0x80; 0x80; 0x80;
   0x80; 0x80; 0x80; 0x80; 0x80; 0x80; 0x80; 0x80; 0x80; 0x80; 0x80; 0x80; 0x80; 0x80; 0x80; 0x80;
   0x80; 0x80; 0x80; 0x80; 0x80; 0x80; 0x80; 0x80; 0x80; 0x80; 0x80; 0x80; 0x80; 0x80; 0x80; 0x80].

(** base64_table[i]; the index is below 64 by its masks. *)
Definition digit (i : Z) : Z := nth (Z.to_nat i) base64_table 0.

(** The destination: its memory and pos. *)
Record dst := Dst { mem : list Z; pos : nat }.

(** *pos++ = c *)
Definition emit (c : Z) : ST dst unit := λ d,
  if (pos d <? length (mem d))%nat then Some (tt, Dst (<[pos d := c]> (mem d)) (pos d + 1)) else None.

(** *pos = 0 *)
Definition terminate : ST dst unit := λ d,
  if (pos d <? length (mem d))%nat then Some (tt, Dst (<[pos d := 0]> (mem d)) (pos d)) else None.

(** pos -= n *)
Definition back (n : nat) : ST dst unit := λ d, if (n <=? pos d)%nat then Some (tt, Dst (mem d) (pos d - n)) else None.

(** The while loop of base64Encode(): returns line_len and what is left of the input. *)
Fixpoint encode_loop (insertMIMELineFeeds : bool) (line_len : Z) (inp : list Z) : ST dst (Z * list Z) :=
  match inp with
  | in0 :: in1 :: in2 :: rest =>
      emit (digit (Z.shiftr in0 2));;
      emit (digit (Z.lor (Z.shiftl (Z.land in0 0x03) 4) (Z.shiftr in1 4)));;
      emit (digit (Z.lor (Z.shiftl (Z.land in1 0x0f) 2) (Z.shiftr in2 6)));;
      emit (digit (Z.land in2 0x3f));;
      let line_len := line_len + 4 in
      if insertMIMELineFeeds && (76 <=? line_len) then emit 10;; encode_loop insertMIMELineFeeds 0 rest
      else encode_loop insertMIMELineFeeds line_len rest
  | _ => ret (line_len, inp)
  end.

(** The one or two bytes after the last full block; returns line_len. *)
Definition encode_tail (line_len : Z) (inp : list Z) : ST dst Z :=
  match inp with
  | [] => ret line_len
  | in0 :: more =>
      emit (digit (Z.shiftr in0 2));;
      (match more with
       | [] => emit (digit (Z.shiftl (Z.land in0 0x03) 4));; emit 61
       | in1 :: _ =>
           emit (digit (Z.lor (Z.shiftl (Z.land in0 0x03) 4) (Z.shiftr in1 4)));;
           emit (digit (Z.shiftl (Z.land in1 0x0f) 2))
       end);;
      emit 61;;
      ret (line_len + 4)
  end.

Definition encode_body (insertMIMELineFeeds : bool) (inp : list Z) : ST dst nat :=
  '(line_len, inp) ← encode_loop insertMIMELineFeeds 0 inp;
  line_len ← encode_tail line_len inp;
  (if insertMIMELineFeeds && negb (line_len =? 0) then emit 10 else ret tt);;
  terminate;;
  gets pos.

(** The memory a call asks for, in size_t arithmetic. *)
Definition olen (size_bits srcLen : Z) (insertMIMELineFeeds : bool) : Z :=
  let size_t := wrap size_bits in
  let olen := size_t (size_t (srcLen * 4) / 3 + 4) in
  let olen := if insertMIMELineFeeds then size_t (olen + olen / 76) else olen in
  size_t (olen + 1).

(** [None] when the call returns false, else the destination and encodedOutputStringLen. *)
Definition base64Encode (size_bits : Z) (encodedTextSrc : option (list Z)) (srcLen : Z) (dstEncodedText : option (list Z))
    (dstSize : Z) (insertMIMELineFeeds : bool) : option (option (list Z * nat)) :=
  let olen := olen size_bits srcLen insertMIMELineFeeds in
  if (olen <? srcLen) || (dstSize <? olen) then Some None
  else
    match dstEncodedText, encodedTextSrc with
    | Some m, Some src =>
        match encode_body insertMIMELineFeeds (take (Z.to_nat srcLen) src) (Dst m 0) with
        | Some (n, d) => Some (Some (mem d, n))
        | None => None
        end
    | _, _ => Some None
    end.

(** dtable[(int) c]: an index outside the table is undefined. *)
Definition lookup_dtable (signed : bool) (c : Z) : option Z :=
  let i := char_val signed c in
  if i <? 0 then None else dtable !! Z.to_nat i.

(** The number of encoding characters. *)
Fixpoint count_valid (signed : bool) (src : list Z) : option nat :=
  match src with
  | [] => Some 0%nat
  | c :: src =>
      tmp ← lookup_dtable signed c;
      n ← count_valid signed src;
      Some (if tmp =? 0x80 then n else S n)
  end%stdpp.

(** The second for loop of base64Decode(): [block] holds the [count] values of
    the current block; returns false for invalid padding. *)
Fixpoint decode_loop (signed : bool) (block : list Z) (pad : nat) (src : list Z) : ST dst bool :=
  match src with
  | [] => ret true
  | c :: src =>
      tmp ← lift_opt (lookup_dtable signed c);
      if tmp =? 0x80 then decode_loop signed block pad src
      else
        let pad := if c =? 61 then S pad else pad in
        match block with
        | [b0; b1; b2] =>
            let b3 := tmp in
            emit (u8 (Z.lor (Z.shiftl b0 2) (Z.shiftr b1 4)));;
            emit (u8 (Z.lor (Z.shiftl b1 4) (Z.shiftr b2 2)));;
            emit (u8 (Z.lor (Z.shiftl b2 6) b3));;
            match pad with
            | O => decode_loop signed [] pad src
            | 1%nat => back 1;; ret true
            | 2%nat => back 2;; ret true
            | _ => ret false
            end
        | _ => decode_loop signed (block ++ [tmp]) pad src
        end
  end.

Definition base64Decode (signed : bool) (encodedTextSrc : option (list Z)) (encodedTextSrcLen : Z) (dstBinary : option (list Z))
    (dstSize : Z) : option (option (list Z * nat)) :=
  match encodedTextSrc, dstBinary with
  | Some src, Some m =>
      let src := take (Z.to_nat encodedTextSrcLen) src in
      match count_valid signed src with
      | None => None
      | Some count =>
          if (count =? 0)%nat || negb (count mod 4 =? 0)%nat || (dstSize <? Z.of_nat (count / 4 * 3 + 1)) then Some None
          else
            match (ok ← decode_loop signed [] 0 src; if ok : bool then terminate;; n ← gets pos; ret (Some n) else ret None) (Dst m 0) with
            | Some (Some n, d) => Some (Some (mem d, n))
            | Some (None, _) => Some None
            | None => None
            end
      end
  | _, _ => Some None
  end.
