(* ===== verification/Base64Spec.v ===== *)
(** * Base64: correctness *)

From Stdlib Require Import ZArith Lia.
From S2P Require Import Prelude Frame Base64.
Local Open Scope Z_scope.
Local Open Scope pim_scope.

(** ** The encoding of RFC 4648, section 4 *)

(** Groups of four characters: each three bytes are a number of 24 bits, written
    as four digits in base 64; a last group of one or two bytes is padded. *)
Fixpoint rfc4648 (bs : list Z) : list (list Z) :=
  match bs with
  | a :: b :: c :: bs =>
      let v := a * 2 ^ 16 + b * 2 ^ 8 + c in
      [digit (v / 2 ^ 18); digit (v / 2 ^ 12 mod 64); digit (v / 2 ^ 6 mod 64); digit (v mod 64)] :: rfc4648 bs
  | [a; b] =>
      let v := (a * 2 ^ 8 + b) * 2 ^ 2 in
      [[digit (v / 2 ^ 12); digit (v / 2 ^ 6 mod 64); digit (v mod 64); 61]]
  | [a] => let v := a * 2 ^ 4 in [[digit (v / 2 ^ 6); digit (v mod 64); 61; 61]]
  | [] => []
  end.

(** The groups as text: with line feeds when a line has 76 characters and at
    the end of the last line; [line_len] characters are on the current line. *)
Fixpoint layout (mime : bool) (line_len : Z) (gs : list (list Z)) : list Z :=
  match gs with
  | [] => if mime && negb (line_len =? 0) then [10] else []
  | g :: gs =>
      if mime && (76 <=? line_len + 4) then g ++ 10 :: layout mime 0 gs else g ++ layout mime (line_len + 4) gs
  end.

Definition is_byte (z : Z) : Prop := 0 <= z < 256.

(** ** Bit operations, by evaluation *)

Lemma range_check (n : nat) (P : Z → bool) :
  forallb P (Z.of_nat <$> seq 0 n) = true → ∀ a, 0 <= a < Z.of_nat n → P a = true.
Proof.
  intros H a Ha. rewrite forallb_forall in H. apply H, list_elem_of_In, list_elem_of_fmap.
  exists (Z.to_nat a). split; [lia|]. apply list_elem_of_In, in_seq. lia.
Qed.

Lemma range_check2 (n m : nat) (P : Z → Z → bool) :
  forallb (λ a, forallb (P (Z.of_nat a)) (Z.of_nat <$> seq 0 m)) (seq 0 n) = true →
  ∀ a b, 0 <= a < Z.of_nat n → 0 <= b < Z.of_nat m → P a b = true.
Proof.
  intros H a b Ha Hb. rewrite forallb_forall in H. specialize (H (Z.to_nat a) ltac:(apply in_seq; lia)).
  rewrite Z2Nat.id in H by lia. by apply (range_check m).
Qed.

Lemma enc_bits a b : is_byte a → is_byte b →
  Z.shiftr a 2 = a / 4 ∧ Z.lor (Z.shiftl (Z.land a 0x03) 4) (Z.shiftr b 4) = a mod 4 * 16 + b / 16 ∧
  Z.lor (Z.shiftl (Z.land a 0x0f) 2) (Z.shiftr b 6) = a mod 16 * 4 + b / 64 ∧ Z.land a 0x3f = a mod 64.
Proof.
  intros Ha Hb.
  assert ((Z.shiftr a 2 =? a / 4) && (Z.lor (Z.shiftl (Z.land a 0x03) 4) (Z.shiftr b 4) =? a mod 4 * 16 + b / 16) &&
    (Z.lor (Z.shiftl (Z.land a 0x0f) 2) (Z.shiftr b 6) =? a mod 16 * 4 + b / 64) && (Z.land a 0x3f =? a mod 64) = true) as H.
  { revert a b Ha Hb. apply (range_check2 256 256 (λ a b, _)). vm_compute. reflexivity. }
  rewrite !andb_true_iff, !Z.eqb_eq in H. tauto.
Qed.

Lemma dec_bits d e : 0 <= d < 64 → 0 <= e < 64 →
  u8 (Z.lor (Z.shiftl d 2) (Z.shiftr e 4)) = d * 4 + e / 16 ∧
  u8 (Z.lor (Z.shiftl d 4) (Z.shiftr e 2)) = d mod 16 * 16 + e / 4 ∧
  u8 (Z.lor (Z.shiftl d 6) e) = d mod 4 * 64 + e.
Proof.
  intros Hd He.
  assert ((u8 (Z.lor (Z.shiftl d 2) (Z.shiftr e 4)) =? d * 4 + e / 16) &&
    (u8 (Z.lor (Z.shiftl d 4) (Z.shiftr e 2)) =? d mod 16 * 16 + e / 4) && (u8 (Z.lor (Z.shiftl d 6) e) =? d mod 4 * 64 + e) = true) as H.
  { revert d e Hd He. apply (range_check2 64 64 (λ d e, _)). vm_compute. reflexivity. }
  rewrite !andb_true_iff, !Z.eqb_eq in H. tauto.
Qed.

Lemma digit_ok signed i : 0 <= i < 64 → lookup_dtable signed (digit i) = Some i ∧ digit i ≠ 61.
Proof.
  intros Hi. assert (bool_decide (lookup_dtable signed (digit i) = Some i) && negb (digit i =? 61) = true) as H.
  { destruct signed; revert i Hi; apply (range_check 64 (λ i, _)); vm_compute; reflexivity. }
  rewrite andb_true_iff, bool_decide_eq_true, negb_true_iff, Z.eqb_neq in H. done.
Qed.

Ltac div_lia := Z.to_euclidean_division_equations; lia.

(** ** The destination *)

(** The characters [xs] have been written to a destination of [cap] bytes. *)
Definition holds (cap : nat) (xs : list Z) (d : dst) : Prop :=
  take (pos d) (mem d) = xs ∧ pos d = length xs ∧ length (mem d) = cap.

Lemma emit_ok cap xs c d (Q : unit → dst → Prop) :
  holds cap xs d → (length xs < cap)%nat → (∀ d', holds cap (xs ++ [c]) d' → Q tt d') → wp (emit c) Q d.
Proof.
  intros (Ht & Hp & Hc) Hl HQ. unfold wp, emit. rewrite (proj2 (Nat.ltb_lt _ _)) by lia. apply HQ. split_and!; simpl.
  - rewrite Nat.add_1_r, (take_S_r _ _ c) by (apply list_lookup_insert_eq; lia). by rewrite take_insert_ge, Ht by lia.
  - rewrite length_app. simpl. lia.
  - by rewrite length_insert.
Qed.

Lemma back_ok cap xs ys d (Q : unit → dst → Prop) :
  holds cap (xs ++ ys) d → (∀ d', holds cap xs d' → Q tt d') → wp (back (length ys)) Q d.
Proof.
  intros (Ht & Hp & Hc) HQ. rewrite length_app in Hp. unfold wp, back. rewrite (proj2 (Nat.leb_le _ _)) by lia.
  apply HQ. split_and!; simpl; [|lia|done].
  replace (pos d - length ys)%nat with (length xs) by lia.
  rewrite <-(take_app_length xs ys) at 2. rewrite <-Ht, take_take. f_equal. lia.
Qed.

Lemma terminate_ok cap xs d (Q : unit → dst → Prop) :
  holds cap xs d → (length xs < cap)%nat → (∀ d', holds cap xs d' → mem d' !! length xs = Some 0 → Q tt d') → wp terminate Q d.
Proof.
  intros (Ht & Hp & Hc) Hl HQ. unfold wp, terminate. rewrite (proj2 (Nat.ltb_lt _ _)) by lia. apply HQ.
  - split_and!; simpl; [by rewrite take_insert_ge|done|by rewrite length_insert].
  - simpl. rewrite Hp. apply list_lookup_insert_eq. lia.
Qed.

(** ** Encoding *)

Lemma group3 a b c : is_byte a → is_byte b → is_byte c →
  let v := a * 2 ^ 16 + b * 2 ^ 8 + c in
  v / 2 ^ 18 = a / 4 ∧ v / 2 ^ 12 mod 64 = a mod 4 * 16 + b / 16 ∧ v / 2 ^ 6 mod 64 = b mod 16 * 4 + c / 64 ∧ v mod 64 = c mod 64.
Proof. intros Ha Hb Hc v. unfold v, is_byte in *. change (2 ^ 16) with 65536. change (2 ^ 8) with 256. change (2 ^ 18) with 262144.
  change (2 ^ 12) with 4096. change (2 ^ 6) with 64. split_and!; div_lia. Qed.

Lemma group2 a b : is_byte a → is_byte b →
  let v := (a * 2 ^ 8 + b) * 2 ^ 2 in
  v / 2 ^ 12 = a / 4 ∧ v / 2 ^ 6 mod 64 = a mod 4 * 16 + b / 16 ∧ v mod 64 = b mod 16 * 4.
Proof. intros Ha Hb v. unfold v, is_byte in *. change (2 ^ 8) with 256. change (2 ^ 2) with 4.
  change (2 ^ 12) with 4096. change (2 ^ 6) with 64. split_and!; div_lia. Qed.

Lemma group1 a : is_byte a → let v := a * 2 ^ 4 in v / 2 ^ 6 = a / 4 ∧ v mod 64 = a mod 4 * 16.
Proof. intros Ha v. unfold v, is_byte in *. change (2 ^ 4) with 16. change (2 ^ 6) with 64. split; div_lia. Qed.

(** Induction that takes three bytes at a time. *)
Lemma bytes_ind (P : list Z → Prop) :
  P [] → (∀ a, P [a]) → (∀ a b, P [a; b]) → (∀ a b c bs, P bs → P (a :: b :: c :: bs)) → ∀ bs, P bs.
Proof.
  intros H0 H1 H2 H3 bs. assert (∀ n bs, (length bs <= n)%nat → P bs) as H; [|by apply (H (length bs))].
  clear bs. induction n as [|n IH]; intros [|a [|b [|c bs]]] Hl; simpl in Hl; try done; try lia.
  apply H3, IH. lia.
Qed.

Lemma encode_loop_ok cap mime inp ll xs d :
  0 <= ll → Forall is_byte inp → holds cap xs d → (length xs + length (layout mime ll (rfc4648 inp)) <= cap)%nat →
  wp (encode_loop mime ll inp) (λ '(ll', rest) d', ∃ ys, holds cap ys d' ∧ 0 <= ll' ∧ (length rest < 3)%nat ∧ Forall is_byte rest ∧
    xs ++ layout mime ll (rfc4648 inp) = ys ++ layout mime ll' (rfc4648 rest)) d.
Proof.
  revert ll xs d. induction inp as [|a|a b|a b c inp IH] using bytes_ind; intros ll xs d Hll Hb Hx Hl.
  1-3: apply wp_ret; exists xs; split_and!; simpl; try done; lia.
  apply Forall_cons in Hb as [Ha Hb']. apply Forall_cons in Hb' as [Hb Hb']. apply Forall_cons in Hb' as [Hc Hb'].
  destruct (enc_bits a b Ha Hb) as (E1 & E2 & _ & _). destruct (enc_bits b c Hb Hc) as (_ & _ & E3 & _).
  destruct (enc_bits c c Hc Hc) as (_ & _ & _ & E4). destruct (group3 a b c Ha Hb Hc) as (G1 & G2 & G3 & G4).
  cbn [rfc4648] in *. rewrite G1, G2, G3, G4 in *. set (g := [_; _; _; _]) in *. cbn [layout] in *.
  cbn [encode_loop]. rewrite E1, E2, E3, E4.
  assert (∀ d', holds cap (xs ++ g) d' →
    wp (if mime && (76 <=? ll + 4) then emit 10;; encode_loop mime 0 inp else encode_loop mime (ll + 4) inp)
      (λ '(ll', rest) d', ∃ ys, holds cap ys d' ∧ 0 <= ll' ∧ (length rest < 3)%nat ∧ Forall is_byte rest ∧
        xs ++ (if mime && (76 <=? ll + 4) then g ++ 10 :: layout mime 0 (rfc4648 inp) else g ++ layout mime (ll + 4) (rfc4648 inp)) =
        ys ++ layout mime ll' (rfc4648 rest)) d') as Hgo.
  { intros d' Hd. destruct (mime && _); rewrite !length_app in Hl; simpl in Hl.
    - apply wp_bind. eapply emit_ok; [done|rewrite length_app; simpl; lia|]. intros d1 H1.
      eapply wp_mono; [apply (IH 0 _ d1 ltac:(lia) Hb' H1); rewrite !length_app; simpl; lia|].
      intros [ll' rest] d2 (ys & H2 & Hn & H3 & H4 & H5). exists ys. split_and!; try done. rewrite <-H5. by rewrite <-!app_assoc.
    - eapply wp_mono; [apply (IH (ll + 4) _ d' ltac:(lia) Hb' Hd); rewrite !length_app; simpl; lia|].
      intros [ll' rest] d2 (ys & H2 & Hn & H3 & H4 & H5). exists ys. split_and!; try done. rewrite <-H5. by rewrite <-!app_assoc. }
  assert (length xs + 4 <= cap)%nat as Hroom by (destruct (mime && _); rewrite !length_app in Hl; simpl in Hl; lia).
  apply wp_bind. eapply emit_ok; [done|lia|]. intros d1 H1.
  apply wp_bind. eapply emit_ok; [done|rewrite length_app; simpl; lia|]. intros d2 H2.
  apply wp_bind. eapply emit_ok; [done|rewrite !length_app; simpl; lia|]. intros d3 H3.
  apply wp_bind. eapply emit_ok; [done|rewrite !length_app; simpl; lia|]. intros d4 H4.
  apply Hgo. rewrite <-!app_assoc in H4. exact H4.
Qed.

(** The line feed after the last group. *)
Lemma last_feed_ok cap mime ll xs g d :
  0 <= ll → holds cap (xs ++ g) d → (length xs + length (layout mime ll [g]) <= cap)%nat →
  wp (if mime && negb (ll + 4 =? 0) then emit 10 else ret tt) (λ _ d', holds cap (xs ++ layout mime ll [g]) d') d.
Proof.
  intros Hll Hd Hl. rewrite (proj2 (Z.eqb_neq (ll + 4) 0)) by lia. cbn [layout] in *.
  rewrite (proj2 (Z.eqb_neq (ll + 4) 0)) in * by lia. destruct mime; simpl in *; [|apply wp_ret; by rewrite app_nil_r].
  destruct (76 <=? ll + 4); rewrite length_app in Hl; simpl in *;
    (eapply emit_ok; [done|rewrite length_app; simpl; lia|]; intros d2; by rewrite <-app_assoc).
Qed.

Lemma group_room cap mime ll (xs g : list Z) gs : length g = 4%nat →
  (length xs + length (layout mime ll (g :: gs)) <= cap → length xs + 4 <= cap)%nat.
Proof. intros Hg. cbn [layout]. destruct (mime && _); rewrite !length_app; lia. Qed.

Lemma encode_tail_ok cap mime inp ll xs d :
  (length inp < 3)%nat → Forall is_byte inp → holds cap xs d → 0 <= ll →
  (length xs + length (layout mime ll (rfc4648 inp)) <= cap)%nat →
  wp (encode_tail ll inp) (λ ll' d', wp (if mime && negb (ll' =? 0) then emit 10 else ret tt)
    (λ _ d'', holds cap (xs ++ layout mime ll (rfc4648 inp)) d'') d') d.
Proof.
  intros Hlen Hb Hx Hll Hl. destruct inp as [|a [|b [|c inp]]]; [| | |simpl in Hlen; lia].
  - apply wp_ret. simpl in *. destruct (mime && _); simpl in *.
    + eapply emit_ok; [done|lia|done].
    + apply wp_ret. by rewrite app_nil_r.
  - apply Forall_cons in Hb as [Ha _].
    destruct (enc_bits a a Ha Ha) as (E1 & _). destruct (enc_bits a 0 Ha ltac:(unfold is_byte; lia)) as (_ & E2 & _).
    change (Z.shiftr 0 4) with 0 in E2. rewrite Z.lor_0_r, Z.add_0_r in E2. destruct (group1 a Ha) as (G1 & G2).
    cbn [rfc4648] in *. rewrite G1, G2 in *. set (g := [_; _; _; _]) in *. cbn [encode_tail]. rewrite E1, E2.
    pose proof (group_room cap mime ll xs g [] eq_refl Hl) as Hroom.
    apply wp_bind. eapply emit_ok; [done|lia|]. intros d1 H1. apply wp_bind, wp_bind.
    eapply emit_ok; [done|rewrite length_app; simpl; lia|]. intros d2 H2.
    eapply emit_ok; [done|rewrite !length_app; simpl; lia|]. intros d3 H3. apply wp_bind.
    eapply emit_ok; [done|rewrite !length_app; simpl; lia|]. intros d4 H4. apply wp_ret.
    apply last_feed_ok; [done| |done]. rewrite <-!app_assoc in H4. exact H4.
  - apply Forall_cons in Hb as [Ha Hb]. apply Forall_cons in Hb as [Hb _].
    destruct (enc_bits a b Ha Hb) as (E1 & E2 & _). destruct (enc_bits b 0 Hb ltac:(unfold is_byte; lia)) as (_ & _ & E3 & _).
    change (Z.shiftr 0 6) with 0 in E3. rewrite Z.lor_0_r, Z.add_0_r in E3. destruct (group2 a b Ha Hb) as (G1 & G2 & G3).
    cbn [rfc4648] in *. rewrite G1, G2, G3 in *. set (g := [_; _; _; _]) in *. cbn [encode_tail]. rewrite E1, E2, E3.
    pose proof (group_room cap mime ll xs g [] eq_refl Hl) as Hroom.
    apply wp_bind. eapply emit_ok; [done|lia|]. intros d1 H1. apply wp_bind, wp_bind.
    eapply emit_ok; [done|rewrite length_app; simpl; lia|]. intros d2 H2.
    eapply emit_ok; [done|rewrite !length_app; simpl; lia|]. intros d3 H3. apply wp_bind.
    eapply emit_ok; [done|rewrite !length_app; simpl; lia|]. intros d4 H4. apply wp_ret.
    apply last_feed_ok; [done| |done]. rewrite <-!app_assoc in H4. exact H4.
Qed.


Lemma encode_body_ok cap mime inp d :
  Forall is_byte inp → holds cap [] d → (length (layout mime 0 (rfc4648 inp)) < cap)%nat →
  wp (encode_body mime inp) (λ n d', holds cap (layout mime 0 (rfc4648 inp)) d' ∧ n = length (layout mime 0 (rfc4648 inp)) ∧
    mem d' !! n = Some 0) d.
Proof.
  intros Hb Hd Hl. unfold encode_body. apply wp_bind.
  eapply wp_mono; [apply (encode_loop_ok cap mime inp 0 [] d); [lia|done|done|simpl; lia]|].
  intros [ll rest] d1 (ys & H1 & Hll & Hr & Hbr & E). simpl in E. rewrite E in *. rewrite length_app in Hl. apply wp_bind.
  eapply wp_mono; [apply (encode_tail_ok cap mime rest ll ys d1); try done; lia|]. intros ll' d2 H2. apply wp_bind.
  eapply wp_mono; [exact H2|]. intros [] d3 H3. apply wp_bind.
  eapply terminate_ok; [done|rewrite length_app; lia|]. intros d4 H4 H5. apply wp_gets.
  pose proof H4 as (_ & Hp & _). rewrite Hp. split_and!; done.
Qed.

(** *** The memory a call asks for is enough *)

Lemma length_rfc bs : length (rfc4648 bs) = ((length bs + 2) / 3)%nat ∧ Forall (λ g, length g = 4%nat) (rfc4648 bs).
Proof.
  induction bs as [|a|a b|a b c bs [IH1 IH2]] using bytes_ind; [repeat constructor..|].
  split; [|by constructor]. cbn [rfc4648 length]. rewrite IH1.
  replace (S (S (S (length bs))) + 2)%nat with (length bs + 2 + 1 * 3)%nat by lia. rewrite Nat.div_add by lia. lia.
Qed.

Lemma layout_plain ll gs : layout false ll gs = concat gs.
Proof. revert ll. induction gs as [|g gs IH]; intros ll; [done|]. simpl. by rewrite IH. Qed.

Lemma length_plain gs : Forall (λ g : list Z, length g = 4%nat) gs → length (concat gs) = (4 * length gs)%nat.
Proof. induction 1 as [|g gs Hg Hgs IH]; [done|]. simpl. rewrite length_app, Hg, IH. lia. Qed.

Lemma length_mime k gs : Forall (λ g, length g = 4%nat) gs → 0 <= k < 19 →
  Z.of_nat (length (layout true (4 * k) gs)) <= 4 * Z.of_nat (length gs) + (k + Z.of_nat (length gs) + 18) / 19.
Proof.
  intros Hg. revert k. induction Hg as [|g gs Hg Hgs IH]; intros k Hk.
  - cbn [layout]. destruct (Z.eqb_spec (4 * k) 0); cbn [andb negb length]; div_lia.
  - cbn [layout andb]. destruct (Z.leb_spec 76 (4 * k + 4)); rewrite length_app, Hg; cbn [length].
    + specialize (IH 0 ltac:(lia)). rewrite Z.mul_0_r in IH. div_lia.
    + specialize (IH (k + 1) ltac:(lia)). replace (4 * (k + 1)) with (4 * k + 4) in IH by lia. div_lia.
Qed.

Lemma layout_length mime bs :
  let n := Z.of_nat (length bs) in
  Z.of_nat (length (layout mime 0 (rfc4648 bs))) <= 4 * ((n + 2) / 3) + (if mime then ((n + 2) / 3 + 18) / 19 else 0).
Proof.
  intros n. destruct (length_rfc bs) as [Hn Hg]. assert (Z.of_nat (length (rfc4648 bs)) = (n + 2) / 3) as Hz.
  { rewrite Hn, Nat2Z.inj_div, Nat2Z.inj_add. done. }
  destruct mime.
  - pose proof (length_mime 0 _ Hg ltac:(lia)) as H. rewrite Z.mul_0_r in H. by rewrite Hz in H.
  - rewrite layout_plain, length_plain by done. lia.
Qed.

(** When the check of base64Encode() passes, [olen] has not wrapped around and
    the text and its terminator fit. *)
Lemma olen_enough size_bits mime n : 16 <= size_bits → 0 <= n < 2 ^ size_bits → n <= olen size_bits n mime →
  4 * ((n + 2) / 3) + (if mime then ((n + 2) / 3 + 18) / 19 else 0) < olen size_bits n mime.
Proof.
  intros Hs Hn. unfold olen, wrap. pose proof (Z.pow_le_mono_r 2 16 size_bits ltac:(lia) Hs) as HM.
  change (2 ^ 16) with 65536 in HM. set (M := 2 ^ size_bits) in *. clearbody M.
  assert (∀ z, 0 <= z → z mod M <= z) as Hle by (intros z Hz; apply Z.mod_le; lia).
  assert (∃ k, 0 <= k <= 3 ∧ (n * 4) mod M = n * 4 - k * M ∧ 0 <= n * 4 - k * M < M) as (k & Hk & -> & Hr).
  { exists (n * 4 / M). pose proof (Z.div_mod (n * 4) M ltac:(lia)). pose proof (Z.mod_pos_bound (n * 4) M ltac:(lia)).
    assert (n * 4 / M < 4) by (apply Z.div_lt_upper_bound; lia). pose proof (Z.div_pos (n * 4) M). split_and!; lia. }
  assert (0 <= (n * 4 - k * M) / 3 < M / 2) as Hd by (split; div_lia).
  rewrite !(Z.mod_small ((n * 4 - k * M) / 3 + 4)) by div_lia. set (r := n * 4 - k * M) in *.
  assert ((r / 3 + 4 + (r / 3 + 4) / 76) mod M = r / 3 + 4 + (r / 3 + 4) / 76) as E by (apply Z.mod_small; div_lia).
  rewrite E. clear E.
  assert (((if mime then r / 3 + 4 + (r / 3 + 4) / 76 else r / 3 + 4) + 1) mod M =
    (if mime then r / 3 + 4 + (r / 3 + 4) / 76 else r / 3 + 4) + 1) as -> by (apply Z.mod_small; destruct mime; div_lia).
  intros Hcheck. assert (k = 0) as ->.
  { assert (k = 0 ∨ k = 1 ∨ k = 2 ∨ k = 3) as [->|[->|[->| ->]]] by lia; [done|exfalso..];
      unfold r in *; clear Hle; destruct mime; div_lia. }
  unfold r in *. clear Hle. destruct mime; div_lia.
Qed.

(** ** Decoding *)

Lemma newline_skipped signed : lookup_dtable signed 10 = Some 0x80.
Proof. by destruct signed. Qed.

Lemma pad_value signed : lookup_dtable signed 61 = Some 0.
Proof. by destruct signed. Qed.

Lemma decode_newline signed block pad src : decode_loop signed block pad (10 :: src) = decode_loop signed block pad src.
Proof. cbn [decode_loop]. unfold bind at 1. by rewrite newline_skipped. Qed.

(** A digit that does not complete a block. *)
Lemma decode_digit signed block pad i src : 0 <= i < 64 → (length block < 3)%nat →
  decode_loop signed block pad (digit i :: src) = decode_loop signed (block ++ [i]) pad src.
Proof.
  intros Hi Hb. destruct (digit_ok signed i Hi) as [Hl Hne]. cbn [decode_loop]. unfold bind at 1. rewrite Hl. cbn [lift_opt ret].
  rewrite (proj2 (Z.eqb_neq i 128)), (proj2 (Z.eqb_neq _ _) Hne) by lia.
  destruct block as [|? [|? [|? [|]]]]; simpl in Hb; done || lia.
Qed.

Lemma decode_pad signed block pad src : (length block < 3)%nat →
  decode_loop signed block pad (61 :: src) = decode_loop signed (block ++ [0]) (S pad) src.
Proof.
  intros Hb. cbn [decode_loop]. unfold bind at 1. rewrite pad_value. cbn [lift_opt ret].
  destruct block as [|? [|? [|? [|]]]]; simpl in Hb; done || lia.
Qed.

(** The three bytes of a complete block. *)
Definition block_bytes (b0 b1 b2 b3 : Z) : list Z := [b0 * 4 + b1 / 16; b1 mod 16 * 16 + b2 / 4; b2 mod 4 * 64 + b3].

Lemma decode_last cap signed b0 b1 b2 b3 c pad src xs d (Q : bool → dst → Prop) :
  0 <= b0 < 64 → 0 <= b1 < 64 → 0 <= b2 < 64 → 0 <= b3 < 64 → lookup_dtable signed c = Some b3 →
  holds cap xs d → (length xs + 3 <= cap)%nat →
  (∀ d', holds cap (xs ++ block_bytes b0 b1 b2 b3) d' →
    wp (match (if c =? 61 then S pad else pad) with
        | O => decode_loop signed [] 0 src
        | 1%nat => back 1;; ret true
        | 2%nat => back 2;; ret true
        | _ => ret false
        end) Q d') →
  wp (decode_loop signed [b0; b1; b2] pad (c :: src)) Q d.
Proof.
  intros H0 H1 H2 H3 Hc Hd Hl HQ. cbn [decode_loop]. apply wp_bind. eapply wp_lift_opt; [done|].
  rewrite (proj2 (Z.eqb_neq b3 128)) by lia. set (p := if c =? 61 then S pad else pad) in *.
  destruct (dec_bits b0 b1 H0 H1) as (-> & _). destruct (dec_bits b1 b2 H1 H2) as (_ & -> & _).
  destruct (dec_bits b2 b3 H2 H3) as (_ & _ & ->).
  apply wp_bind. eapply emit_ok; [done|lia|]. intros d1 Hd1.
  apply wp_bind. eapply emit_ok; [done|rewrite length_app; simpl; lia|]. intros d2 Hd2.
  apply wp_bind. eapply emit_ok; [done|rewrite !length_app; simpl; lia|]. intros d3 Hd3.
  rewrite <-!app_assoc in Hd3. specialize (HQ d3 Hd3). by destruct p as [|[|[|]]].
Qed.

Lemma layout_cons mime ll g gs : ∃ ll' t, (t = [] ∨ t = [10]) ∧ layout mime ll (g :: gs) = g ++ t ++ layout mime ll' gs.
Proof. cbn [layout]. destruct (mime && _); [exists 0, [10]|exists (ll + 4), []]; auto. Qed.

Lemma decode_loop_ok cap signed mime bs ll xs d :
  Forall is_byte bs → holds cap xs d → (length xs + 3 * length (rfc4648 bs) <= cap)%nat →
  wp (decode_loop signed [] 0 (layout mime ll (rfc4648 bs))) (λ ok d', ok = true ∧ holds cap (xs ++ bs) d') d.
Proof.
  revert ll xs d. induction bs as [|a|a b|a b c bs IH] using bytes_ind; intros ll xs d Hb Hd Hl.
  - cbn [rfc4648 layout]. destruct (mime && _); [rewrite decode_newline|]; apply wp_ret; by rewrite app_nil_r.
  - apply Forall_cons in Hb as [Ha _]. destruct (group1 a Ha) as (G1 & G2). cbn [rfc4648] in *. rewrite G1, G2 in *.
    unfold is_byte in Ha. cbn [length] in Hl. destruct (layout_cons mime ll [digit (a / 4); digit (a mod 4 * 16); 61; 61] []) as (ll' & t & _ & ->).
    cbn [app]. rewrite !decode_digit by (simpl; div_lia). rewrite decode_pad by (simpl; lia). cbn [app].
    eapply (decode_last cap); [div_lia|div_lia|lia|..|apply pad_value|done|lia|]; [lia|].
    intros d1 H1. cbn [Z.eqb]. change (61 =? 61) with true. cbv iota. apply wp_bind.
    unfold block_bytes in H1. set (y := _ mod 16 * 16 + _) in H1. set (z := _ mod 4 * 64 + _) in H1.
    change [a / 4 * 4 + a mod 4 * 16 / 16; y; z] with ([a / 4 * 4 + a mod 4 * 16 / 16] ++ [y; z]) in H1. rewrite app_assoc in H1.
    eapply (back_ok cap _ [y; z]); [exact H1|]. intros d2 H2. apply wp_ret. split; [done|].
    replace (a / 4 * 4 + a mod 4 * 16 / 16) with a in H2 by div_lia. done.
  - apply Forall_cons in Hb as [Ha Hb]. apply Forall_cons in Hb as [Hb _]. destruct (group2 a b Ha Hb) as (G1 & G2 & G3).
    cbn [rfc4648] in *. rewrite G1, G2, G3 in *. unfold is_byte in Ha, Hb. cbn [length] in Hl.
    destruct (layout_cons mime ll [digit (a / 4); digit (a mod 4 * 16 + b / 16); digit (b mod 16 * 4); 61] []) as (ll' & t & _ & ->).
    cbn [app]. rewrite !decode_digit by (simpl; div_lia). cbn [app].
    eapply (decode_last cap); [div_lia|div_lia|div_lia|..|apply pad_value|done|lia|]; [lia|].
    intros d1 H1. change (61 =? 61) with true. cbv iota. apply wp_bind.
    unfold block_bytes in H1. set (z := _ mod 4 * 64 + _) in H1. set (x := a / 4 * 4 + _) in H1. set (y := _ mod 16 * 16 + _) in H1.
    change [x; y; z] with ([x; y] ++ [z]) in H1. rewrite app_assoc in H1.
    eapply (back_ok cap _ [z]); [exact H1|]. intros d2 H2. apply wp_ret. split; [done|].
    replace x with a in H2 by (unfold x; div_lia). replace y with b in H2 by (unfold y; div_lia). done.
  - apply Forall_cons in Hb as [Ha Hb']. apply Forall_cons in Hb' as [Hb Hb']. apply Forall_cons in Hb' as [Hc Hb'].
    destruct (group3 a b c Ha Hb Hc) as (G1 & G2 & G3 & G4). cbn [rfc4648] in *. rewrite G1, G2, G3, G4 in *.
    unfold is_byte in Ha, Hb, Hc. cbn [length] in Hl. set (gs := rfc4648 bs) in *.
    destruct (layout_cons mime ll [digit (a / 4); digit (a mod 4 * 16 + b / 16); digit (b mod 16 * 4 + c / 64); digit (c mod 64)] gs)
      as (ll' & t & Ht & ->).
    cbn [app]. rewrite !decode_digit by (simpl; div_lia). cbn [app].
    destruct (digit_ok signed (c mod 64) ltac:(div_lia)) as [Hdt Hne].
    eapply (decode_last cap); [div_lia|div_lia|div_lia|..|exact Hdt|done|lia|]; [div_lia|].
    intros d1 H1. rewrite (proj2 (Z.eqb_neq _ _) Hne). unfold block_bytes in H1.
    assert (a / 4 * 4 + (a mod 4 * 16 + b / 16) / 16 = a) as E1 by div_lia.
    assert ((a mod 4 * 16 + b / 16) mod 16 * 16 + (b mod 16 * 4 + c / 64) / 4 = b) as E2 by div_lia.
    assert ((b mod 16 * 4 + c / 64) mod 4 * 64 + c mod 64 = c) as E3 by div_lia. rewrite E1, E2, E3 in H1.
    assert (decode_loop signed [] 0 (t ++ layout mime ll' gs) = decode_loop signed [] 0 (layout mime ll' gs)) as ->
      by (destruct Ht as [-> | ->]; [done|apply decode_newline]).
    eapply wp_mono; [apply (IH ll' _ d1 Hb' H1); rewrite length_app; simpl; lia|].
    intros ok d2 [-> H2]. split; [done|]. by rewrite <-app_assoc in H2.
Qed.

Lemma count_app signed xs ys n m : count_valid signed xs = Some n → count_valid signed ys = Some m →
  count_valid signed (xs ++ ys) = Some (n + m)%nat.
Proof.
  intros Hx Hy. revert n Hx. induction xs as [|c xs IH]; intros n Hx; simpl in *; [by injection Hx as <-|].
  destruct (lookup_dtable signed c) as [t|]; simpl in *; [|done]. destruct (count_valid signed xs) as [k|]; simpl in *; [|done].
  injection Hx as <-. rewrite (IH k) by done. simpl. by destruct (t =? 128).
Qed.

Definition encoding_char (signed : bool) (c : Z) : Prop := ∃ i, lookup_dtable signed c = Some i ∧ 0 <= i < 64.

Lemma count_group signed xs : Forall (encoding_char signed) xs → count_valid signed xs = Some (length xs).
Proof.
  induction 1 as [|c xs (i & Hc & Hi) Hxs IH]; [done|]. simpl. rewrite Hc. simpl. rewrite IH. simpl.
  by rewrite (proj2 (Z.eqb_neq i 128)) by lia.
Qed.

Lemma digit_char signed i : 0 <= i < 64 → encoding_char signed (digit i).
Proof. intros Hi. exists i. split; [apply digit_ok|]; done. Qed.

Lemma rfc_chars signed bs : Forall is_byte bs → Forall (Forall (encoding_char signed)) (rfc4648 bs).
Proof.
  assert (encoding_char signed 61) as Hp by (exists 0; rewrite pad_value; split; [done|lia]).
  induction bs as [|a|a b|a b c bs IH] using bytes_ind; intros Hb; [constructor| | |].
  - apply Forall_cons in Hb as [Ha _]. cbn [rfc4648]. destruct (group1 a Ha) as (-> & ->). unfold is_byte in *.
    repeat constructor; try apply digit_char; try done; div_lia.
  - apply Forall_cons in Hb as [Ha Hb]. apply Forall_cons in Hb as [Hb _]. cbn [rfc4648].
    destruct (group2 a b Ha Hb) as (-> & -> & ->). unfold is_byte in *.
    repeat constructor; try apply digit_char; try done; div_lia.
  - apply Forall_cons in Hb as [Ha Hb']. apply Forall_cons in Hb' as [Hb Hb']. apply Forall_cons in Hb' as [Hc Hb'].
    cbn [rfc4648]. destruct (group3 a b c Ha Hb Hc) as (-> & -> & -> & ->). unfold is_byte in *.
    constructor; [|by apply IH]. repeat constructor; apply digit_char; div_lia.
Qed.

Lemma count_layout signed mime ll gs : Forall (Forall (encoding_char signed)) gs → Forall (λ g, length g = 4%nat) gs →
  count_valid signed (layout mime ll gs) = Some (4 * length gs)%nat.
Proof.
  intros Hc Hl. revert ll. induction gs as [|g gs IH]; intros ll.
  - cbn [layout]. destruct (mime && _); [|done]. simpl. by rewrite newline_skipped.
  - apply Forall_cons in Hc as [Hg Hc]. apply Forall_cons in Hl as [Hgl Hl].
    destruct (layout_cons mime ll g gs) as (ll' & t & Ht & ->).
    rewrite (count_app signed g _ (length g) (4 * length gs)); [by rewrite Hgl; simpl; f_equal; lia|by apply count_group|].
    rewrite (count_app signed t _ 0 (4 * length gs)); [done| |by apply IH].
    destruct Ht as [-> | ->]; [done|]. simpl. by rewrite newline_skipped.
Qed.

Lemma holds_start m : holds (length m) [] (Dst m 0).
Proof. done. Qed.

Lemma decode_ok signed mime bs m m2 n size2 :
  Forall is_byte bs → bs ≠ [] → take n m = layout mime 0 (rfc4648 bs) → n = length (layout mime 0 (rfc4648 bs)) →
  3 * Z.of_nat (length (rfc4648 bs)) + 1 <= size2 <= Z.of_nat (length m2) →
  ∃ m2', base64Decode signed (Some m) (Z.of_nat n) (Some m2) size2 = Some (Some (m2', length bs)) ∧
    take (length bs) m2' = bs ∧ m2' !! length bs = Some 0 ∧ length m2' = length m2.
Proof.
  intros Hb Hne Ht Hn Hsz. destruct (length_rfc bs) as [Hlen Hg]. unfold base64Decode. rewrite Nat2Z.id, Ht.
  rewrite count_layout by (done || by apply rfc_chars).
  assert (0 < length (rfc4648 bs))%nat as Hpos by (destruct bs as [|? [|? [|? ?]]]; simpl; [done|lia..]).
  set (k := length (rfc4648 bs)) in *.
  replace ((4 * k =? 0)%nat || negb ((4 * k) mod 4 =? 0)%nat || (size2 <? Z.of_nat (4 * k / 4 * 3 + 1))) with false.
  2: { symmetry. rewrite !orb_false_iff. split_and!.
       - apply Nat.eqb_neq. lia.
       - rewrite (Nat.mul_comm 4 k), Nat.Div0.mod_mul. done.
       - rewrite (Nat.mul_comm 4 k), Nat.div_mul by lia. apply Z.ltb_ge. lia. }
  assert (wp (ok ← decode_loop signed [] 0 (layout mime 0 (rfc4648 bs)); if ok : bool then terminate;; n ← gets pos; ret (Some n) else ret None)
    (λ r d', r = Some (length bs) ∧ holds (length m2) bs d' ∧ mem d' !! length bs = Some 0) (Dst m2 0)) as Hw.
  { apply wp_bind. eapply wp_mono; [apply (decode_loop_ok (length m2) signed mime bs 0 [] _ Hb (holds_start m2)); simpl; fold k; lia|].
    intros ok d1 [-> H1]. simpl in H1. apply wp_bind. assert (length bs < length m2)%nat as Hlt.
    { assert (length bs <= 3 * k)%nat; [|lia]. rewrite Hlen. pose proof (Nat.div_mod (length bs + 2) 3).
      pose proof (Nat.mod_upper_bound (length bs + 2) 3). lia. }
    eapply terminate_ok; [exact H1|done|]. intros d2 H2 H3. apply wp_bind, wp_gets, wp_ret.
    destruct H2 as (? & Hp & ?). rewrite Hp. done. }
  destruct (proj1 (wp_run _ _ _) Hw) as (r & d' & -> & -> & (H1 & H2 & H3) & H4).
  exists (mem d'). rewrite H2 in H1. done.
Qed.



(** The empty source has an encoding that base64Decode() refuses. *)
Lemma base64_empty signed m m2 size2 : (7 <= length m)%nat →
  (∃ m', base64Encode 32 (Some []) 0 (Some m) (Z.of_nat (length m)) false = Some (Some (m', 0%nat))) ∧
  base64Decode signed (Some m) 0 (Some m2) size2 = Some None.
Proof.
  intros Hm. split; [|by destruct signed]. unfold base64Encode. change (olen 32 0 false) with 5.
  rewrite (proj2 (Z.ltb_ge _ _)), (proj2 (Z.ltb_ge (Z.of_nat (length m)) 5)) by lia. destruct m as [|c m]; [simpl in Hm; lia|].
  by eexists.
Qed.

(** With a signed char, a character from 128 on makes base64Decode() read in
    front of its table; with an unsigned one it is skipped. *)
Lemma base64_signed_char c m size : 128 <= c < 256 →
  base64Decode true (Some [c]) 1 (Some m) size = None ∧ base64Decode false (Some [c]) 1 (Some m) size = Some None.
Proof.
  intros Hc. unfold base64Decode. change (Z.to_nat 1) with 1%nat. cbn [take count_valid].
  assert (lookup_dtable true c = None) as ->.
  { unfold lookup_dtable, char_val. rewrite (proj2 (Z.leb_le 128 c)) by lia. simpl. by rewrite (proj2 (Z.ltb_lt (c - 256) 0)) by lia. }
  split; [done|]. assert (lookup_dtable false c = Some 0x80) as ->; [|done].
  assert (bool_decide (lookup_dtable false c = Some 0x80) || (c <? 128) = true) as H.
  { assert (0 <= c < Z.of_nat 256) as Hb by lia. clear Hc. revert c Hb. apply (range_check 256 (λ c, _)). vm_compute. reflexivity. }
  rewrite (proj2 (Z.ltb_ge c 128)), orb_false_r, bool_decide_eq_true in H by lia. done.
Qed.
