(* ===== verification/TimerManager.v ===== *)
(** * Software timers

    Models [src/Cpl/System/TimerManager.cpp] and [src/Cpl/System/Timer.cpp].
    The active timers are in a list in the order of their expiry, each with the
    count that remains after the one before it has expired.  The lists are
    sequences, with the operations of Cpl/Container/DList.h; [time] is the
    elapsed time in milliseconds, of which ElapsedTime::milliseconds() returns
    the low bits: unsigned long has [long_bits] bits.

    What a timer's expired() does is a parameter: a function from the timers
    that have expired so far and the timer that expires to the calls its context
    makes, in any number, on any timers, with time passing in between. *)

From Stdlib Require Import ZArith Lia.
From S2P Require Import Prelude.
Local Open Scope Z_scope.
Local Open Scope pim_scope.

Abbreviation timer := positive (only parsing).

Record TimerManager := TM {
  m_counters : list timer;
  m_pendingAttach : list timer;
  m_timeMark : Z;
  m_timeNow : Z;
  m_inTickCall : bool;
  m_count : timer → Z;   (* of each Timer *)
  time : Z;
  log : list timer       (* the calls of expired(), in order *)
}.

Inductive action := Start (t : timer) (timerDurationInMilliseconds : Z) | Stop (t : timer) | Elapse (n : Z).

Section timers.
Context (long_bits : Z).
Context (context : list timer → timer → list action).

Abbreviation M := (ST TimerManager).
Abbreviation ulong := (wrap long_bits).

Definition set_counters (l : list timer) : M unit :=
  modify (λ s, TM l (m_pendingAttach s) (m_timeMark s) (m_timeNow s) (m_inTickCall s) (m_count s) (time s) (log s)).
Definition set_pending (l : list timer) : M unit :=
  modify (λ s, TM (m_counters s) l (m_timeMark s) (m_timeNow s) (m_inTickCall s) (m_count s) (time s) (log s)).
Definition set_timeMark (z : Z) : M unit :=
  modify (λ s, TM (m_counters s) (m_pendingAttach s) z (m_timeNow s) (m_inTickCall s) (m_count s) (time s) (log s)).
Definition set_timeNow (z : Z) : M unit :=
  modify (λ s, TM (m_counters s) (m_pendingAttach s) (m_timeMark s) z (m_inTickCall s) (m_count s) (time s) (log s)).
Definition set_inTickCall (b : bool) : M unit :=
  modify (λ s, TM (m_counters s) (m_pendingAttach s) (m_timeMark s) (m_timeNow s) b (m_count s) (time s) (log s)).
Definition set_count (t : timer) (z : Z) : M unit :=
  modify (λ s, TM (m_counters s) (m_pendingAttach s) (m_timeMark s) (m_timeNow s) (m_inTickCall s)
                 (λ u, if decide (u = t) then z else m_count s u) (time s) (log s)).
Definition pass (n : Z) : M unit :=
  modify (λ s, TM (m_counters s) (m_pendingAttach s) (m_timeMark s) (m_timeNow s) (m_inTickCall s) (m_count s) (time s + n) (log s)).
Definition note (t : timer) : M unit :=
  modify (λ s, TM (m_counters s) (m_pendingAttach s) (m_timeMark s) (m_timeNow s) (m_inTickCall s) (m_count s) (time s) (log s ++ [t])).

Definition TimerManager_new (count : timer → Z) (now : Z) : TimerManager := TM [] [] 0 0 false count now [].

(** ElapsedTime *)
Definition milliseconds : M Z := gets (λ s, ulong (time s)).
Definition deltaMilliseconds (startTime endTime : Z) : Z := ulong (endTime - startTime).

(** Timer *)
Definition count (t : timer) : M Z := gets (λ s, m_count s t).
Definition decrement (t : timer) (n : Z) : M unit := c ← count t; set_count t (ulong (c - n)).
Definition increment (t : timer) (n : Z) : M unit := c ← count t; set_count t (ulong (c + n)).

Definition startManager : M unit := now ← milliseconds; set_timeMark now.

Definition areActiveTimers : M bool := gets (λ s, bool_decide (head (m_counters s) = None)).

(** The while loop of addToActiveList(); [pre] are the counters passed. *)
Fixpoint add_walk (pre l : list timer) (client : timer) : M unit :=
  match l with
  | [] => set_counters (pre ++ [client])
  | counterPtr :: l' =>
      a ← count client;
      b ← count counterPtr;
      if a <? b then
        decrement counterPtr a;;
        set_counters (pre ++ client :: counterPtr :: l')
      else
        decrement client b;;
        a ← count client;
        if a =? 0 then set_counters (pre ++ counterPtr :: client :: l')
        else add_walk (pre ++ [counterPtr]) l' client
  end.

Definition addToActiveList (client : timer) : M unit := l ← gets m_counters; add_walk [] l client.

Definition attach (client : timer) : M unit :=
  b ← gets m_inTickCall;
  if b : bool then
    l ← gets m_pendingAttach;
    set_pending (l ++ [client])
  else addToActiveList client.

(** DList::remove() and next() *)
Definition without (t : timer) (l : list timer) : list timer := filter (λ u, u ≠ t) l.

Fixpoint next_of (t : timer) (l : list timer) : option timer :=
  match l with
  | [] => None
  | u :: l' => if decide (u = t) then head l' else next_of t l'
  end.

Definition detach (client : timer) : M bool :=
  p ← gets m_pendingAttach;
  if bool_decide (client ∈ p) then set_pending (without client p);; ret true
  else
    l ← gets m_counters;
    if bool_decide (client ∈ l) then
      (match next_of client l with
       | Some nextPtr => c ← count client; increment nextPtr c
       | None => ret tt
       end);;
      set_counters (without client l);;
      ret true
    else ret false.

Definition msecToCounts (ms : Z) : M Z :=
  now ← milliseconds;
  mark ← gets m_timeNow;
  ret (ulong (ms + deltaMilliseconds mark now)).

Definition Timer_start (t : timer) (timerDurationInMilliseconds : Z) : M unit :=
  _ ← detach t;
  c ← msecToCounts timerDurationInMilliseconds;
  set_count t c;;
  attach t.

Definition Timer_stop (t : timer) : M unit := _ ← detach t; ret tt.

Definition run_action (a : action) : M unit :=
  match a with
  | Start t n => Timer_start t n
  | Stop t => Timer_stop t
  | Elapse n => pass n
  end.

Fixpoint run_actions (l : list action) : M unit :=
  match l with [] => ret tt | a :: l => run_action a;; run_actions l end.

Definition expired (t : timer) : M unit :=
  l ← gets log;
  note t;;
  run_actions (context l t).

(** The inner loop of tick(): expires the counters at the head of the list that are zero. *)
Fixpoint expire_loop (fuel : nat) : M unit :=
  l ← gets m_counters;
  match l with
  | [] => ret tt
  | t :: l' =>
      c ← count t;
      if c =? 0 then
        match fuel with
        | O => undefined
        | S fuel => set_counters l';; expired t;; expire_loop fuel
        end
      else ret tt
  end.

(** The outer loop of tick(). *)
Fixpoint tick_loop (fuel : nat) (msec : Z) : M unit :=
  if msec =? 0 then ret tt
  else
    l ← gets m_counters;
    match l with
    | [] => ret tt
    | t :: _ =>
        nextCount ← count t;
        match fuel with
        | O => undefined
        | S fuel =>
            msec ← (if msec <=? nextCount then decrement t msec;; ret 0
                    else decrement t nextCount;; ret (msec - nextCount));
            l ← gets m_counters;
            expire_loop (length l);;
            tick_loop fuel msec
        end
    end.

Definition tick (msec : Z) : M unit :=
  set_inTickCall true;;
  l ← gets m_counters;
  tick_loop (length l + 1) msec.

Fixpoint attach_loop (p : list timer) : M unit :=
  match p with
  | [] => ret tt
  | t :: p => set_pending p;; addToActiveList t;; attach_loop p
  end.

Definition tickComplete : M unit :=
  p ← gets m_pendingAttach;
  attach_loop p;;
  set_inTickCall false.

Definition processTimers : M unit :=
  now ← milliseconds;
  set_timeNow now;;
  mark ← gets m_timeMark;
  tick (deltaMilliseconds mark now);;
  now ← gets m_timeNow;
  set_timeMark now;;
  tickComplete.

End timers.
