(* ===== verification/TimerSpec.v ===== *)
(** * Software timers: every timer expires at its time

    The reference keeps for each running timer the time at which it is due, and
    a pass expires the timers that are due.  The list of relative counts that
    TimerManager keeps computes the same. *)

From Stdlib Require Import ZArith Lia.
From S2P Require Import Prelude TimerManager.
Local Open Scope Z_scope.
Local Open Scope pim_scope.

(** ** The reference *)

Record clockwork := CW {
  active : list (positive * Z);    (* timers with the time at which they are due *)
  waiting : list (positive * Z);   (* started during a pass *)
  mark : Z;                        (* the time of the last pass *)
  now : Z;
  events : list positive           (* the timers that have expired *)
}.

Definition with_now (n : Z) (a : clockwork) : clockwork := CW (active a) (waiting a) (mark a) n (events a).
Definition with_mark (m : Z) (a : clockwork) : clockwork := CW (active a) (waiting a) m (now a) (events a).
Definition with_lists (l w : list (positive * Z)) (a : clockwork) : clockwork := CW l w (mark a) (now a) (events a).
Definition with_event (t : positive) (a : clockwork) : clockwork := CW (active a) (waiting a) (mark a) (now a) (events a ++ [t]).

(** By due time; a timer that is due with others comes behind the first of them. *)
Fixpoint due_insert (x : positive * Z) (l : list (positive * Z)) : list (positive * Z) :=
  match l with
  | [] => [x]
  | y :: l => if x.2 <? y.2 then x :: y :: l else if x.2 =? y.2 then y :: x :: l else y :: due_insert x l
  end.

Definition due_remove (t : positive) (l : list (positive * Z)) : list (positive * Z) := filter (λ p, p.1 ≠ t) l.

Section reference.
Context (long_bits : Z) (context : list positive → positive → list action).

(** [None] when a duration does not fit into an unsigned long. *)
Definition ref_action (in_pass : bool) (x : action) (a : clockwork) : option clockwork :=
  match x with
  | Start t n =>
      let due := now a + n in
      if (0 <=? n) && (due - mark a <? 2 ^ long_bits) then
        let l := due_remove t (active a) in
        let w := due_remove t (waiting a) in
        Some (if in_pass then with_lists l (w ++ [(t, due)]) a else with_lists (due_insert (t, due) l) w a)
      else None
  | Stop t => Some (with_lists (due_remove t (active a)) (due_remove t (waiting a)) a)
  | Elapse n => if 0 <=? n then Some (with_now (now a + n) a) else None
  end.

Fixpoint ref_actions (in_pass : bool) (xs : list action) (a : clockwork) : option clockwork :=
  match xs with
  | [] => Some a
  | x :: xs => match ref_action in_pass x a with Some a => ref_actions in_pass xs a | None => None end
  end.

(** Expires the active timers that are due at time [limit], in their order. *)
Fixpoint ref_expire (fuel : nat) (limit : Z) (a : clockwork) : option clockwork :=
  match fuel, active a with
  | S fuel, (t, due) :: l =>
      if due <=? limit then
        match ref_actions true (context (events a) t) (with_event t (with_lists l (waiting a) a)) with
        | Some a => ref_expire fuel limit a
        | None => None
        end
      else Some a
  | _, _ => Some a
  end.

(** A pass: nothing expires when no time has passed since the last one. *)
Definition ref_process (a : clockwork) : option clockwork :=
  if now a - mark a <? 2 ^ long_bits then
    let limit := now a in
    let idle := mark a =? now a in
    match (if idle then Some (with_mark limit a) else ref_expire (length (active a)) limit (with_mark limit a)) with
    | Some a => Some (with_lists (foldl (λ l x, due_insert x l) (active a) (waiting a)) [] a)
    | None => None
    end
  else None.

(** ** The counts of the manager and the due times *)

(** The counts of a list whose first timer counts from time [base]. *)
Fixpoint deltas (c : positive → Z) (base : Z) (l : list (positive * Z)) : Prop :=
  match l with
  | [] => True
  | (t, due) :: l => c t = due - base ∧ base <= due ∧ deltas c due l
  end.

Definition fits (base : Z) (l : list (positive * Z)) : Prop := Forall (λ p, p.2 - base < 2 ^ long_bits) l.

Lemma deltas_ext c c' base l : (∀ t, t ∈ l.*1 → c' t = c t) → deltas c base l → deltas c' base l.
Proof.
  revert base. induction l as [|[t due] l IH]; intros base He; [done|]. simpl. intros (H1 & H2 & H3).
  rewrite He by set_solver. split_and!; [done|done|]. apply IH; [|done]. intros u Hu. apply He. set_solver.
Qed.

Lemma fits_mono base base' l : base <= base' → fits base l → fits base' l.
Proof. intros Hb Hf. eapply Forall_impl; [exact Hf|]. intros p Hp. cbv beta in *. lia. Qed.

Lemma due_insert_perm x l : due_insert x l ≡ₚ x :: l.
Proof.
  induction l as [|y l IH]; [done|]. simpl. destruct (_ <? _); [done|]. destruct (_ =? _); [by rewrite Permutation_swap|].
  rewrite IH. by rewrite Permutation_swap.
Qed.

Lemma deltas_lower c base l t due : deltas c base l → (t, due) ∈ l → base <= due.
Proof.
  revert base. induction l as [|[u d] l IH]; intros base Hd Hin; [by apply not_elem_of_nil in Hin|].
  destruct Hd as (_ & Hle & Hd). apply elem_of_cons in Hin as [[= -> ->]|Hin]; [done|]. specialize (IH d Hd Hin). lia.
Qed.

(** [s] with another list of counters and other counts. *)
Definition recount (l : list positive) (c : positive → Z) (s : TimerManager) : TimerManager :=
  TM l (m_pendingAttach s) (m_timeMark s) (m_timeNow s) (m_inTickCall s) c (time s) (log s).

Lemma ulong_id z : 0 <= z < 2 ^ long_bits → wrap long_bits z = z.
Proof. apply Z.mod_small. Qed.

(** addToActiveList(), from any point of the list. *)
Lemma add_walk_ok l pre base t due s :
  NoDup l.*1 → t ∉ l.*1 → deltas (m_count s) base l → m_count s t = due - base → 0 <= due - base < 2 ^ long_bits → fits base l →
  wp (add_walk long_bits pre l.*1 t) (λ _ s', ∃ c, s' = recount (pre ++ (due_insert (t, due) l).*1) c s ∧
    deltas c base (due_insert (t, due) l) ∧ (∀ u, u ≠ t → u ∉ l.*1 → c u = m_count s u)) s.
Proof.
  revert pre base s. induction l as [|[x dx] l IH]; intros pre base s Hnd Ht Hd Hc Hr Hf.
  { apply wp_modify. exists (m_count s). split_and!; try done. simpl. split_and!; [done|lia|done]. }
  simpl in Hnd. apply NoDup_cons in Hnd as [Hx Hnd]. destruct Hd as (Hcx & Hle & Hd). apply Forall_cons in Hf as [Hfx Hf]. simpl in Hfx.
  assert (x ≠ t) as Hxt by (intros ->; set_solver). assert (t ∉ l.*1) as Ht' by set_solver.
  cbn [fmap list_fmap add_walk due_insert fst snd]. apply wp_bind, wp_gets, wp_bind, wp_gets. rewrite Hc, Hcx.
  destruct (Z.ltb_spec (due - base) (dx - base)), (Z.ltb_spec due dx); try lia.
  - apply wp_bind. apply wp_bind, wp_gets, wp_modify, wp_modify. eexists. split; [reflexivity|]. cbn [m_count]. split.
    + cbn [deltas]. rewrite decide_False, decide_True, Hcx by done. rewrite ulong_id by lia. split_and!; [done|lia|lia|lia|].
      eapply deltas_ext; [|exact Hd]. intros u Hu. simpl. rewrite decide_False; [done|]. by intros ->.
    + intros u Hu1 Hu2. simpl. rewrite decide_False; [done|]. set_solver.
  - apply wp_bind. apply wp_bind, wp_gets, wp_modify. apply wp_bind, wp_gets. cbn [m_count]. rewrite decide_True, Hc, ulong_id by (done || lia).
    destruct (Z.eqb_spec (due - base - (dx - base)) 0), (Z.eqb_spec due dx); try lia.
    + apply wp_modify. eexists. split; [reflexivity|]. cbn [m_count]. subst due. split.
      * cbn [deltas]. rewrite decide_False, decide_True by done. split_and!; [done|lia|lia|lia|].
        eapply deltas_ext; [|exact Hd]. intros u Hu. simpl. rewrite decide_False; [done|]. intros ->. set_solver.
      * intros u Hu1 Hu2. simpl. by rewrite decide_False.
    + set (s1 := TM _ _ _ _ _ _ _ _). eapply wp_mono; [apply (IH (pre ++ [x]) dx s1); try done|].
      * eapply deltas_ext; [|exact Hd]. intros u Hu. simpl. rewrite decide_False; [done|]. intros ->. set_solver.
      * simpl. rewrite decide_True by done. lia.
      * lia.
      * by eapply fits_mono.
      * intros [] s2 (c & -> & Hd2 & Hc2). exists c. split_and!.
        -- unfold recount. simpl. by rewrite <-app_assoc.
        -- cbn [deltas]. rewrite Hc2 by done. simpl. rewrite decide_False by done. split_and!; [done|lia|done].
        -- intros u Hu1 Hu2. rewrite Hc2 by set_solver. simpl. by rewrite decide_False.
Qed.

(** ** One call *)

Record rel (base : Z) (tick : bool) (s : TimerManager) (a : clockwork) : Prop := {
  r_counters : m_counters s = (active a).*1;
  r_pending : m_pendingAttach s = (waiting a).*1;
  r_deltas : deltas (m_count s) base (active a);
  r_fits : fits base (active a);
  r_waiting : Forall (λ p, m_count s p.1 = p.2 - mark a ∧ 0 <= p.2 - mark a < 2 ^ long_bits) (waiting a);
  r_nodup : NoDup (active a ++ waiting a).*1;
  r_now : m_timeNow s = wrap long_bits (mark a);
  r_tick : m_inTickCall s = tick;
  r_time : time s = now a;
  r_log : log s = events a;
  r_le : mark a <= now a;
  r_idle : tick = false → waiting a = [] ∧ base = mark a
}.

Lemma without_fst t l : without t l.*1 = (due_remove t l).*1.
Proof.
  unfold without, due_remove. induction l as [|[x d] l IH]; [done|]. cbn [fmap list_fmap fst]. rewrite !filter_cons. cbn [fst].
  destruct (decide (x ≠ t)); cbn [fmap list_fmap fst]; by rewrite IH.
Qed.

Lemma due_remove_id t l : t ∉ l.*1 → due_remove t l = l.
Proof.
  unfold due_remove. induction l as [|[x d] l IH]; [done|]. cbn [fmap list_fmap fst]. rewrite not_elem_of_cons. intros [Hx Hl].
  rewrite filter_cons_True by (simpl; congruence). by rewrite IH.
Qed.

Lemma due_remove_sub t l : due_remove t l `sublist_of` l.
Proof. apply sublist_filter. Qed.

Lemma due_remove_out t l : t ∉ (due_remove t l).*1.
Proof. unfold due_remove. intros ([x d] & -> & [Hne _]%list_elem_of_filter)%list_elem_of_fmap. done. Qed.

Lemma Forall_remove (P : positive * Z → Prop) t l : Forall P l → Forall P (due_remove t l).
Proof. rewrite !Forall_forall. intros H p Hp. apply H. by apply list_elem_of_filter in Hp as [_ Hp]. Qed.

Lemma next_of_in t l n : next_of t l = Some n → n ∈ l.
Proof.
  induction l as [|x l IH]; [done|]. simpl. case_decide; [|intros Hn; right; by apply IH].
  destruct l; [done|]. intros [= <-]. right. left.
Qed.

(** The counts after a timer has handed its count to the next one. *)
Definition handed (c : positive → Z) (t : positive) (o : option positive) : positive → Z :=
  match o with
  | Some n => λ u, if decide (u = n) then wrap long_bits (c n + c t) else c u
  | None => c
  end.

Lemma deltas_remove c base t l :
  NoDup l.*1 → t ∈ l.*1 → deltas c base l → fits base l → deltas (handed c t (next_of t l.*1)) base (due_remove t l).
Proof.
  revert base. induction l as [|[x dx] l IH]; intros base Hnd Hin Hd Hf; [by apply not_elem_of_nil in Hin|].
  cbn [fmap list_fmap fst next_of] in *. apply NoDup_cons in Hnd as [Hx Hnd]. destruct Hd as (Hcx & Hle & Hd).
  apply Forall_cons in Hf as [Hfx Hf]. unfold due_remove. rewrite filter_cons. cbn [fst]. case_decide as Hxt.
  - subst x. rewrite decide_False by (intros H; by apply H). fold (due_remove t l). rewrite due_remove_id by done.
    destruct l as [|[n dn] l]; [done|]. cbn [fmap list_fmap fst head] in *. destruct Hd as (Hcn & Hle2 & Hd).
    apply Forall_cons in Hf as [Hfn _]. apply NoDup_cons in Hnd as [Hn _]. simpl in Hfn. simpl.
    rewrite decide_True, Hcn, Hcx by done. rewrite ulong_id by lia. split_and!; [lia|lia|].
    eapply deltas_ext; [|exact Hd]. intros u Hu. simpl. rewrite decide_False; [done|]. by intros ->.
  - apply elem_of_cons in Hin as [->|Hin]; [done|]. rewrite decide_True by done. fold (due_remove t l). simpl. split_and!.
    + destruct (next_of t l.*1) as [n|] eqn:En; simpl; [|done]. rewrite decide_False; [done|].
      intros ->. by apply next_of_in in En.
    + done.
    + apply IH; [done|done|done|by eapply fits_mono].
Qed.

Lemma nodup_app_remove t l w : NoDup (l ++ w).*1 → NoDup (due_remove t l ++ due_remove t w).*1.
Proof. intros Hnd. eapply sublist_NoDup; [exact Hnd|]. apply fmap_sublist, sublist_app; apply due_remove_sub. Qed.

Definition stopped (t : positive) (a : clockwork) : clockwork :=
  with_lists (due_remove t (active a)) (due_remove t (waiting a)) a.

Lemma detach_ok base tick s a t : rel base tick s a →
  wp (detach long_bits t) (λ _ s', rel base tick s' (stopped t a) ∧ m_timeMark s' = m_timeMark s) s.
Proof.
  intros [Rc Rp Rd Rf Rw Rn Rnow Rt Rti Rl Rle Ri]. pose proof (nodup_app_remove t _ _ Rn) as Hnd.
  pose proof Rn as Rn'. rewrite fmap_app in Rn'. apply NoDup_app in Rn' as (Na & Ndis & Nw).
  assert (Forall (λ p, m_count s p.1 = p.2 - mark a ∧ 0 <= p.2 - mark a < 2 ^ long_bits) (due_remove t (waiting a))) as Rw'.
  { by apply Forall_remove. }
  pose proof (Forall_remove _ t _ Rf) as Rf'.
  assert (tick = false → due_remove t (waiting a) = [] ∧ base = mark a) as Ri'.
  { intros Ht. destruct (Ri Ht) as [-> ->]. done. }
  unfold detach. apply wp_bind, wp_gets. rewrite Rp. destruct (decide (t ∈ (waiting a).*1)) as [Hw|Hw].
  - rewrite bool_decide_true by done. apply wp_bind, wp_modify, wp_ret. split; [|done].
    assert (due_remove t (active a) = active a) as E by (apply due_remove_id; intros Ha; by apply (Ndis t)).
    split; simpl; try done; rewrite ?E; try done. by rewrite without_fst.
  - rewrite bool_decide_false by done. apply wp_bind, wp_gets. rewrite Rc.
    assert (due_remove t (waiting a) = waiting a) as Ew by (by apply due_remove_id).
    destruct (decide (t ∈ (active a).*1)) as [Ha|Ha].
    + rewrite bool_decide_true by done. apply wp_bind.
      eapply (wp_mono _ (λ _ s', s' = recount (m_counters s) (handed (m_count s) t (next_of t (active a).*1)) s)).
      { destruct (next_of t (active a).*1); [apply wp_bind, wp_gets, wp_bind, wp_gets, wp_modify; done|].
        apply wp_ret. by destruct s. }
      intros [] s1 ->. apply wp_bind, wp_modify, wp_ret. split; [|done].
      split; simpl; try done.
      * by rewrite without_fst.
      * by rewrite Ew.
      * by apply deltas_remove.
      * rewrite Ew in *. apply Forall_forall. intros p Hp. rewrite Forall_forall in Rw. specialize (Rw p Hp).
        destruct (next_of t (active a).*1) as [n|] eqn:En; simpl; [|done]. rewrite decide_False; [done|].
        intros Hpn. apply next_of_in in En. apply (Ndis n En). apply list_elem_of_fmap. by exists p.
    + rewrite bool_decide_false by done. apply wp_ret. split; [|done].
      assert (due_remove t (active a) = active a) as E by (by apply due_remove_id).
      split; simpl; try done; rewrite ?E, ?Ew; done.
Qed.

Lemma msecToCounts_ok base tick s a n : rel base tick s a → 0 <= n → now a + n - mark a < 2 ^ long_bits →
  wp (msecToCounts long_bits n) (λ c s', c = now a + n - mark a ∧ s' = s) s.
Proof.
  intros R Hn Hr. apply wp_bind, wp_gets, wp_bind, wp_gets, wp_ret. split; [|done].
  pose proof (r_le _ _ _ _ R). unfold deltaMilliseconds. rewrite (r_now _ _ _ _ R), (r_time _ _ _ _ R).
  unfold wrap at 2. unfold wrap at 2 3. rewrite <-Zminus_mod. rewrite (Z.mod_small (now a - mark a)) by lia.
  rewrite ulong_id by lia. lia.
Qed.

Lemma rel_set_count base tick s a t z : rel base tick s a → t ∉ (active a ++ waiting a).*1 →
  rel base tick (TM (m_counters s) (m_pendingAttach s) (m_timeMark s) (m_timeNow s) (m_inTickCall s)
    (λ u, if decide (u = t) then z else m_count s u) (time s) (log s)) a.
Proof.
  intros [Rc Rp Rd Rf Rw Rn Rnow Rt Rti Rl Rle Ri] Ht. rewrite fmap_app, not_elem_of_app in Ht. destruct Ht as [Ha Hw].
  split; simpl; try done.
  - eapply deltas_ext; [|exact Rd]. intros u Hu. simpl. rewrite decide_False; [done|]. by intros ->.
  - apply Forall_forall. intros p Hp. rewrite Forall_forall in Rw. rewrite decide_False; [by apply Rw|].
    intros Hpt. apply Hw. rewrite <-Hpt. apply list_elem_of_fmap. by exists p.
Qed.

Lemma stopped_out t a : t ∉ (active (stopped t a) ++ waiting (stopped t a)).*1.
Proof. rewrite fmap_app, not_elem_of_app. split; apply due_remove_out. Qed.

Lemma start_timer_ok base tick s a a' t n :
  rel base tick s a → ref_action tick (Start t n) a = Some a' →
  wp (Timer_start long_bits t n) (λ _ s', rel base tick s' a' ∧ m_timeMark s' = m_timeMark s) s.
Proof.
  intros R. simpl. destruct (Z.leb_spec 0 n) as [Hn|]; [|done]. destruct (Z.ltb_spec (now a + n - mark a) (2 ^ long_bits)) as [Hr|]; [|done].
  intros [= <-]. apply wp_bind. eapply wp_mono; [by apply detach_ok|]. intros _ s1 [R1 M1]. apply wp_bind.
  eapply wp_mono; [by apply (msecToCounts_ok base tick s1 (stopped t a))|]. intros c s2 [-> ->].
  apply wp_bind, wp_modify. pose proof (rel_set_count base tick s1 _ t (now a + n - mark a) R1 (stopped_out t a)) as R2.
  cbn [stopped with_lists now mark]. set (s2 := TM _ _ _ _ _ _ _ _) in *. set (due := now a + n) in *.
  assert (m_count s2 t = due - mark a) as Hct by (simpl; by rewrite decide_True).
  assert (m_timeMark s2 = m_timeMark s) as M2 by done. clearbody s2. clear s1 R1 M1.
  pose proof R2 as [Rc Rp Rd Rf Rw Rn Rnow Rt Rti Rl Rle Ri]. pose proof (stopped_out t a) as Hout.
  set (a1 := stopped t a) in *. change (due_remove t (active a)) with (active a1). change (due_remove t (waiting a)) with (waiting a1).
  assert (mark a1 = mark a) as Em by done.
  apply wp_bind, wp_gets. rewrite Rt. destruct tick.
  - apply wp_bind, wp_gets, wp_modify. split; [|done]. split; simpl; try done.
    + by rewrite Rp, fmap_app.
    + rewrite Forall_app. split; [done|]. apply Forall_singleton. simpl. pose proof (r_le _ _ _ _ R). lia.
    + rewrite !app_assoc, fmap_app. simpl. apply NoDup_snoc; done.
  - destruct (Ri eq_refl) as [Ew ->]. rewrite Ew in *. rewrite app_nil_r in *. apply wp_bind, wp_gets. rewrite Rc.
    eapply wp_mono; [apply (add_walk_ok (active a1) [] (mark a1) t due s2); try done; pose proof (r_le _ _ _ _ R); lia|].
    intros [] s3 (c & -> & Hd & Hc). split; [|done]. split; simpl; try done.
    + unfold fits. rewrite due_insert_perm. constructor; [done|done].
    + rewrite app_nil_r, due_insert_perm. cbn [fmap list_fmap fst]. apply NoDup_cons. done.
Qed.

Lemma action_ok base tick s a a' x :
  rel base tick s a → ref_action tick x a = Some a' →
  wp (run_action long_bits x) (λ _ s', rel base tick s' a' ∧ m_timeMark s' = m_timeMark s) s.
Proof.
  intros R. destruct x as [t n|t|n].
  - by apply start_timer_ok.
  - intros [= <-]. apply wp_bind. eapply wp_mono; [by apply detach_ok|]. intros b s1 R1. by apply wp_ret.
  - simpl. destruct (Z.leb_spec 0 n); [|done]. intros [= <-]. apply wp_modify. split; [|done].
    destruct R as [Rc Rp Rd Rf Rw Rn Rnow Rt Rti Rl Rle Ri]. split; simpl; try done; lia.
Qed.

Lemma actions_ok base tick s a a' xs :
  rel base tick s a → ref_actions tick xs a = Some a' →
  wp (run_actions long_bits xs) (λ _ s', rel base tick s' a' ∧ m_timeMark s' = m_timeMark s) s.
Proof.
  revert s a. induction xs as [|x xs IH]; intros s a R; simpl; [intros [= <-]; by apply wp_ret|].
  destruct (ref_action tick x a) as [a1|] eqn:E; [|done]. intros Ha. apply wp_bind. eapply wp_mono; [by eapply action_ok|].
  intros [] s1 [R1 M1]. eapply wp_mono; [by eapply IH|]. intros [] s2 [R2 M2]. split; [done|congruence].
Qed.

(** ** A pass *)

(** During a pass the actions of a context only take timers off the active list. *)
Lemma actions_shrink xs a a' : ref_actions true xs a = Some a' →
  (length (active a') <= length (active a))%nat ∧ mark a' = mark a.
Proof.
  revert a. induction xs as [|x xs IH]; intros a; simpl; [by intros [= <-]|].
  assert (∀ t, (length (due_remove t (active a)) <= length (active a))%nat) as Hl by (intros t; apply sublist_length, due_remove_sub).
  destruct x as [t n|t|n]; simpl.
  - destruct (_ && _); [|done]. intros Ha. apply IH in Ha as [H1 H2]. simpl in *. specialize (Hl t). split; [lia|done].
  - intros Ha. apply IH in Ha as [H1 H2]. simpl in *. specialize (Hl t). split; [lia|done].
  - destruct (0 <=? n); [|done]. intros Ha. by apply IH in Ha.
Qed.

(** The head of the active list counts down; time goes on to [base']. *)
Lemma rel_advance base base' tick s a t due l :
  rel base tick s a → active a = (t, due) :: l → base <= base' <= due → tick = true →
  rel base' tick (recount (m_counters s) (λ u, if decide (u = t) then wrap long_bits (due - base - (base' - base)) else m_count s u) s) a.
Proof.
  intros [Rc Rp Rd Rf Rw Rn Rnow Rt Rti Rl Rle Ri] Ha Hb ->. rewrite Ha in *. destruct Rd as (Hc & Hle & Rd).
  pose proof Rn as Rn'. simpl in Rn'. apply NoDup_cons in Rn' as [Hn _]. rewrite fmap_app, not_elem_of_app in Hn. destruct Hn as [Hnl Hnw].
  pose proof Rf as Rf'. apply Forall_cons in Rf' as [Hf _]. simpl in Hf. split; simpl; rewrite ?Ha; try done.
  - simpl. rewrite decide_True by done. rewrite ulong_id by lia. split_and!; [lia|lia|].
    eapply deltas_ext; [|exact Rd]. intros u Hu. simpl. rewrite decide_False; [done|]. by intros ->.
  - eapply fits_mono; [|exact Rf]. lia.
  - apply Forall_forall. intros p Hp. rewrite Forall_forall in Rw. rewrite decide_False; [by apply Rw|].
    intros Hpt. apply Hnw. rewrite <-Hpt. apply list_elem_of_fmap. by exists p.
Qed.

(** What has to be done in a pass up to time [limit], with enough steps for it. *)
Definition remains (limit : Z) (a a' : clockwork) : Prop :=
  ∃ fuel, (length (active a) <= fuel)%nat ∧ ref_expire fuel limit a = Some a'.

Definition first_due (a : clockwork) : option Z := snd <$> head (active a).

Lemma remains_done limit a a' : remains limit a a' → (∀ due, first_due a = Some due → limit < due) → a' = a.
Proof.
  intros (fuel & Hf & E) Hd. unfold first_due in Hd. destruct fuel as [|fuel]; simpl in E; [by injection E|].
  destruct (active a) as [|[t due] l]; [by injection E|]. rewrite (proj2 (Z.leb_gt _ _)) in E by (by apply Hd). by injection E.
Qed.

Lemma expire_loop_ok fuel base limit s a a' :
  rel base true s a → remains limit a a' → base <= limit → (length (active a) <= fuel)%nat →
  wp (expire_loop long_bits context fuel) (λ _ s', ∃ a1, rel base true s' a1 ∧ remains limit a1 a' ∧ m_timeMark s' = m_timeMark s ∧
    (∀ due, first_due a1 = Some due → base < due) ∧ mark a1 = mark a ∧
    (length (active a1) + (if decide (first_due a = Some base) then 1 else 0) <= length (active a))%nat) s.
Proof.
  revert s a. induction fuel as [|fuel IH]; intros s a R Hrem Hb Hf.
  all: pose proof R as [Rc Rp Rd Rf Rw Rn Rnow Rt Rti Rl Rle Ri]; cbn [expire_loop]; apply wp_bind, wp_gets; rewrite Rc;
    unfold first_due; destruct (active a) as [|[t due] l] eqn:Ea; cbn [fmap list_fmap fst].
  1,3: apply wp_ret; exists a; rewrite Ea; split_and!; try done; rewrite decide_False by done; simpl; lia.
  - simpl in Hf. lia.
  - cbn [head fmap option_fmap option_map snd]. destruct Rd as (Hc & Hle & Rd). apply wp_bind, wp_gets. rewrite Hc.
    destruct (Z.eqb_spec (due - base) 0) as [E0|E0].
    2: { apply wp_ret. exists a. rewrite Ea. split_and!; try done.
         - intros d [= <-]. lia.
         - rewrite decide_False by (intros [= ->]; lia). lia. }
    assert (due = base) as -> by lia. rewrite decide_True by done.
    destruct Hrem as (k & Hk & Hexp). rewrite Ea in Hk. destruct k as [|k]; simpl in Hk; [lia|]. cbn [ref_expire] in Hexp. rewrite Ea in Hexp.
    rewrite (proj2 (Z.leb_le _ _) Hb) in Hexp. set (a0 := with_event t (with_lists l (waiting a) a)) in *.
    destruct (ref_actions true (context (events a) t) a0) as [a1|] eqn:Eact; [|done].
    destruct (actions_shrink _ _ _ Eact) as [Hlen Hmark]. simpl in Hlen, Hmark, Hf.
    apply wp_bind, wp_modify, wp_bind. unfold expired. apply wp_bind, wp_gets, wp_bind, wp_modify. cbn [log]. rewrite Rl.
    set (s0 := TM _ _ _ _ _ _ _ _).
    assert (rel base true s0 a0) as R0.
    { simpl in Rn. apply NoDup_cons in Rn as [_ Rn]. apply Forall_cons in Rf as [_ Rf].
      split; simpl; try done. }
    eapply wp_mono; [by eapply actions_ok|]. intros [] s1 [R1 M1].
    eapply wp_mono; [apply (IH s1 a1 R1); [exists k; split; [lia|done]|done|lia]|].
    intros [] s2 (a2 & R2 & Hr2 & M2 & Hd2 & Hm2 & Hl2). exists a2. split_and!; try done.
    + by rewrite M2, M1.
    + by rewrite Hm2, Hmark.
    + simpl. case_decide; lia.
Qed.

Lemma tick_loop_ok fuel base limit s a a' :
  rel base true s a → remains limit a a' → base <= limit → (length (active a) < fuel)%nat →
  (base = limit → ∀ due, first_due a = Some due → limit < due) → mark a = limit →
  wp (tick_loop long_bits context fuel (limit - base)) (λ _ s', rel limit true s' a' ∧ m_timeMark s' = m_timeMark s) s.
Proof.
  revert base s a. induction fuel as [|fuel IH]; intros base s a R Hrem Hb Hf Hz Hm; [lia|]. cbn [tick_loop].
  destruct (Z.eqb_spec (limit - base) 0) as [E0|E0].
  { assert (base = limit) as -> by lia. rewrite (remains_done _ _ _ Hrem (Hz eq_refl)). by apply wp_ret. }
  apply wp_bind, wp_gets. rewrite (r_counters _ _ _ _ R). destruct (active a) as [|[t due] l] eqn:Ea; cbn [fmap list_fmap fst].
  { assert (first_due a = None) as Hn by (unfold first_due; by rewrite Ea).
    rewrite (remains_done _ _ _ Hrem) by (intros d Hd; congruence). apply wp_ret. split; [|done].
    destruct R as [Rc Rp Rd Rf Rw Rn Rnow Rt Rti Rl Rle Ri]. split; try done; rewrite Ea; [done|constructor]. }
  assert (m_count s t = due - base ∧ base <= due) as [Hc Hle].
  { pose proof (r_deltas _ _ _ _ R) as Hd. rewrite Ea in Hd. by destruct Hd as (? & ? & _). }
  apply wp_bind, wp_gets. rewrite Hc.
  assert (∀ base', base <= base' <= limit → base' <= due → (base' = due ∨ base' = limit) →
    wp (l ← gets m_counters; expire_loop long_bits context (length l);; tick_loop long_bits context fuel (limit - base'))
      (λ _ s', rel limit true s' a' ∧ m_timeMark s' = m_timeMark s)
      (recount (m_counters s) (λ u, if decide (u = t) then wrap long_bits (due - base - (base' - base)) else m_count s u) s)) as Hgo.
  { intros base' Hb1 Hb2 Hor. pose proof (rel_advance base base' true s a t due l R Ea ltac:(lia) eq_refl) as R1.
    set (s1 := recount _ _ _) in *. apply wp_bind, wp_gets, wp_bind.
    eapply wp_mono; [apply (expire_loop_ok _ base' limit s1 a a' R1 Hrem ltac:(lia))|].
    { rewrite (r_counters _ _ _ _ R1), length_fmap. done. }
    intros [] s2 (a1 & R2 & Hr2 & M2 & Hd2 & Hm2 & Hl2). assert (m_timeMark s2 = m_timeMark s) as Hmk by done.
    rewrite <-Hmk. destruct (decide (base' = limit)) as [->|Hne].
    - rewrite (remains_done _ _ _ Hr2 Hd2). destruct fuel as [|fuel]; cbn [tick_loop]; rewrite Z.sub_diag; simpl; by auto with pim.
    - destruct Hor as [->|]; [|done]. apply (IH due s2 a1 R2 Hr2 ltac:(lia)); [|done|congruence].
      rewrite decide_True in Hl2 by (unfold first_due; by rewrite Ea). rewrite Ea in Hl2. simpl in Hl2, Hf. lia. }
  apply wp_bind. destruct (Z.leb_spec (limit - base) (due - base)).
  - apply wp_bind, wp_bind, wp_gets, wp_modify. rewrite Hc. replace 0 with (limit - limit) by lia.
    apply wp_ret. apply (Hgo limit); lia.
  - apply wp_bind, wp_bind, wp_gets, wp_modify. rewrite Hc. apply wp_ret.
    replace (limit - base - (due - base)) with (limit - due) by lia. apply (Hgo due); [lia|lia|by left].
Qed.

Lemma expire_mark fuel limit a a' : ref_expire fuel limit a = Some a' → mark a' = mark a.
Proof.
  revert a. induction fuel as [|fuel IH]; intros a; simpl; [by intros [= <-]|].
  destruct (active a) as [|[t due] l]; [by intros [= <-]|]. destruct (due <=? limit); [|by intros [= <-]].
  destruct (ref_actions _ _ _) as [a1|] eqn:E; [|done]. intros H. apply IH in H. rewrite H. by apply actions_shrink in E as [_ ->].
Qed.

Lemma attach_loop_ok s a : rel (mark a) true s a →
  wp (attach_loop long_bits (waiting a).*1) (λ _ s',
    rel (mark a) true s' (with_lists (foldl (λ l x, due_insert x l) (active a) (waiting a)) [] a) ∧ m_timeMark s' = m_timeMark s) s.
Proof.
  destruct a as [l w m n ev]. cbn [active waiting mark]. unfold with_lists. cbn [mark now events]. revert l s.
  induction w as [|[t due] w IH]; intros l s R; [by apply wp_ret|]. destruct R as [Rc Rp Rd Rf Rw Rn Rnow Rt Rti Rl Rle Ri]. simpl in *.
  apply Forall_cons in Rw as [[Hct Hr] Rw]. simpl in Hct, Hr. rewrite fmap_app in Rn. cbn [fmap list_fmap fst] in Rn.
  apply NoDup_app in Rn as (Nl & Nd & Nw). apply NoDup_cons in Nw as [Ntw Nw].
  assert (t ∉ l.*1) as Ntl by (intros Hin; apply (Nd t Hin); by left).
  apply wp_bind, wp_modify, wp_bind, wp_bind, wp_gets. cbn [m_counters]. rewrite Rc. set (s1 := TM _ _ _ _ _ _ _ _).
  eapply wp_mono; [by apply (add_walk_ok l [] m t due s1)|]. intros [] s2 (c & -> & Hd & Hc).
  eapply wp_mono; [apply (IH (due_insert (t, due) l))|by intros [] s3].
  split; simpl; try done.
  - unfold fits. rewrite due_insert_perm. constructor; [simpl; lia|done].
  - apply Forall_forall. intros p Hp. rewrite Forall_forall in Rw. rewrite Hc; [by apply Rw|..].
    + intros E. apply Ntw. rewrite <-E. apply list_elem_of_fmap. by exists p.
    + intros Hin. apply (Nd _ Hin). right. apply list_elem_of_fmap. by exists p.
  - rewrite fmap_app, due_insert_perm. cbn [fmap list_fmap fst app]. apply NoDup_cons. rewrite <-fmap_app. split.
    + rewrite fmap_app, not_elem_of_app. done.
    + rewrite fmap_app. apply NoDup_app. split_and!; try done. intros u Hu Hu2. apply (Nd u Hu). by right.
Qed.

(** Between the passes: the manager is in step with the reference. *)
Definition in_step (s : TimerManager) (a : clockwork) : Prop :=
  rel (mark a) false s a ∧ m_timeMark s = wrap long_bits (mark a).

Lemma process_ok s a a' : in_step s a → ref_process a = Some a' →
  wp (processTimers long_bits context) (λ _ s', in_step s' a') s.
Proof.
  intros [R Hmk] Hp. pose proof R as [Rc Rp Rd Rf Rw Rn Rnow Rt Rti Rl Rle Ri]. destruct (Ri eq_refl) as [Ew _].
  unfold ref_process in Hp. destruct (Z.ltb_spec (now a - mark a) (2 ^ long_bits)) as [Hr|]; [|done].
  set (a0 := with_mark (now a) a) in *. destruct (if mark a =? now a then _ else _) as [a1|] eqn:E1; [|done]. injection Hp as <-.
  apply wp_bind, wp_gets, wp_bind, wp_modify, wp_bind, wp_gets. cbn [m_timeMark].
  assert (deltaMilliseconds long_bits (m_timeMark s) (wrap long_bits (time s)) = now a - mark a) as ->.
  { unfold deltaMilliseconds. rewrite Hmk, Rti. unfold wrap. rewrite <-Zminus_mod. apply Z.mod_small. lia. }
  apply wp_bind. unfold tick. apply wp_bind, wp_modify, wp_bind, wp_gets. cbn [m_counters]. rewrite Rc, length_fmap.
  set (s0 := TM _ _ _ _ _ _ _ _).
  assert (rel (mark a) true s0 a0) as R0.
  { split; simpl; try done; [by rewrite Ew|by rewrite Rti]. }
  eapply (wp_mono _ (λ _ s', rel (now a) true s' a1 ∧ mark a1 = now a)).
  { destruct (Z.eqb_spec (mark a) (now a)) as [E|E].
    - injection E1 as <-. rewrite E, Z.sub_diag, Nat.add_1_r in *. cbn [tick_loop]. simpl (0 =? 0). cbv iota. by apply wp_ret.
    - eapply wp_mono; [apply (tick_loop_ok _ (mark a) (now a) s0 a0 a1 R0); try done|].
      + exists (length (active a)). done.
      + simpl. lia.
      + intros [] s1 [R1 _]. split; [done|]. by apply expire_mark in E1. }
  intros [] s1 [R1 Hm1]. apply wp_bind, wp_gets, wp_bind, wp_modify. rewrite (r_now _ _ _ _ R1), Hm1.
  set (s2 := TM _ _ _ _ _ _ _ _). assert (rel (mark a1) true s2 a1) as R2.
  { rewrite Hm1. destruct R1 as [Tc Tp Td Tf Tw Tn Tnow Tt Tti Tl Tle Ti]. split; simpl; rewrite ?Hm1 in *; done. }
  apply wp_bind, wp_gets. rewrite (r_pending _ _ _ _ R2). apply wp_bind. eapply wp_mono; [by apply attach_loop_ok|].
  intros [] s3 [[Sc Sp Sd Sf Sw Sn Snow St Sti Sl Sle Si] M3]. apply wp_modify. split; [|simpl; by rewrite M3, Hm1]. by split.
Qed.

(** ** Programs *)

Inductive call := Act (x : action) | Process.

Definition run_call (k : call) : ST TimerManager unit :=
  match k with Act x => run_action long_bits x | Process => processTimers long_bits context end.

Fixpoint run_calls (ks : list call) : ST TimerManager unit :=
  match ks with [] => ret tt | k :: ks => run_call k;; run_calls ks end.

Definition ref_call (k : call) (a : clockwork) : option clockwork :=
  match k with Act x => ref_action false x a | Process => ref_process a end.

Fixpoint ref_run (ks : list call) (a : clockwork) : option clockwork :=
  match ks with
  | [] => Some a
  | k :: ks => match ref_call k a with Some a => ref_run ks a | None => None end
  end.

Lemma action_mark tick x a a' : ref_action tick x a = Some a' → mark a' = mark a.
Proof. destruct x; simpl; repeat case_match; by intros [= <-]. Qed.

Lemma run_calls_ok ks s a a' : in_step s a → ref_run ks a = Some a' → wp (run_calls ks) (λ _ s', in_step s' a') s.
Proof.
  revert s a. induction ks as [|k ks IH]; intros s a R; simpl; [intros [= <-]; by apply wp_ret|].
  destruct (ref_call k a) as [a1|] eqn:E; [|done]. intros Ha. apply wp_bind.
  eapply (wp_mono _ (λ _ s1, in_step s1 a1)); [|intros [] s1 R1; by apply (IH s1 a1)].
  destruct k as [x|]; [|by eapply process_ok]. destruct R as [R Hm]. pose proof (action_mark _ _ _ _ E) as Em.
  eapply wp_mono; [by eapply (action_ok (mark a) false)|]. intros [] s1 [R1 M1]. split; rewrite Em; [done|congruence].
Qed.

(** Starting: the first pass brings the manager into step. *)
Lemma first_pass_ok c T : 0 < long_bits →
  wp (startManager long_bits;; processTimers long_bits context) (λ _ s', in_step s' (CW [] [] T T [])) (TimerManager_new c T).
Proof.
  intros Hw. apply wp_bind, wp_bind, wp_gets, wp_modify. apply wp_bind, wp_gets, wp_bind, wp_modify, wp_bind, wp_gets, wp_bind.
  unfold tick. apply wp_bind, wp_modify, wp_bind, wp_gets. cbn [m_counters length]. cbn [Nat.add tick_loop].
  unfold deltaMilliseconds. cbn [m_timeMark time]. rewrite Z.sub_diag. unfold wrap at 1. rewrite Z.mod_0_l by lia. simpl (0 =? 0). cbv iota.
  wp_pure. split; [|done]. split; try done; constructor.
Qed.
End reference.

(** ** Theorems *)


(** Timers 1 and 2, of which 1 restarts itself and stops 2 when it first expires. *)
Definition demo_context (past : list positive) (t : positive) : list action :=
  if bool_decide (t = 1%positive ∧ past = []) then [Elapse 1; Start 1 5; Stop 2] else [].


(** In the reference, a pass with no calls by the contexts expires exactly the
    timers that are due, and leaves the others. *)
Lemma ref_pass_quiet long_bits a :
  mark a < now a → now a - mark a < 2 ^ long_bits → waiting a = [] → ∀ pre post,
  active a = pre ++ post → Forall (λ p, p.2 <= now a) pre → (∀ p, head post = Some p → now a < p.2) →
  ref_process long_bits (λ _ _, []) a = Some (CW post [] (now a) (now a) (events a ++ pre.*1)).
Proof.
  intros Hlt Hr Hw pre post Ea Hpre Hpost. unfold ref_process. rewrite (proj2 (Z.ltb_lt _ _) Hr), (proj2 (Z.eqb_neq _ _)) by lia.
  assert (∀ fuel ev, (length pre <= fuel)%nat →
    ref_expire long_bits (λ _ _, []) fuel (now a) (CW (pre ++ post) [] (now a) (now a) ev) = Some (CW post [] (now a) (now a) (ev ++ pre.*1))) as Hx.
  { clear Ea. induction Hpre as [|[t d] pre Hd Hpre IH]; intros fuel ev Hf.
    - rewrite app_nil_r. destruct fuel as [|fuel]; [done|]. cbn [ref_expire active app]. destruct post as [|[t d] post]; [done|].
      rewrite (proj2 (Z.leb_gt _ _)); [done|]. by apply (Hpost (t, d)).
    - destruct fuel as [|fuel]; [simpl in Hf; lia|]. cbn [ref_expire active app]. simpl in Hd. rewrite (proj2 (Z.leb_le _ _) Hd).
      unfold with_event, with_lists. cbn [ref_actions waiting mark now events active]. rewrite IH by (simpl in Hf; lia).
      cbn [fmap list_fmap fst]. by rewrite <-app_assoc. }
  unfold with_mark. rewrite Ea, Hw, Hx by (rewrite length_app; lia). done.
Qed.

(** A timer started between startManager() and the first pass is late by the
    time at which the manager was started: with a duration of 10 milliseconds,
    in a manager started at time 1000, it has not expired 1000 milliseconds
    later. *)
Lemma first_timer_late :
  wp (startManager 32;; Timer_start 32 1%positive 10;; pass 1000;; processTimers 32 (λ _ _, []))
    (λ _ s, log s = [] ∧ m_count s 1%positive = 10) (TimerManager_new (λ _, 0) 1000).
Proof. vm_compute. split; reflexivity. Qed.
