(* ===== verification/DutyCycle.v ===== *)
(** * Times and duty cycles of the thermostat

    Models src/src/Cpl/Math/real.h (comparison of floats),
    src/src/Cpl/System/ElapsedTime.cpp (seconds and milliseconds with wrap
    around), and src/src/Storm/Utils/DutyCycle.cpp (how long a stage of the
    equipment stays on and off at a given load).

    [float] is IEEE 754 binary32, on the executable specification of the
    Standard Library, rounded to nearest even.  [None] is what the language
    leaves undefined (a conversion to an integer that cannot hold the value, an
    index outside of a table) and the fatal error of the source. *)

From Stdlib Require Import ZArith Lia SpecFloat.
From S2P Require Import Prelude.
Local Open Scope Z_scope.

(** ** binary32 *)

Abbreviation float := spec_float.

Definition f32 (m e : Z) : float := binary_normalize 24 128 m e false.
Definition f32_sub : float → float → float := SFsub 24 128.
Definition f32_add : float → float → float := SFadd 24 128.
Definition f32_mul : float → float → float := SFmul 24 128.
Definition f32_div : float → float → float := SFdiv 24 128.

(** [a < b], [a <= b], [a > b]: false when one of them is not a number. *)
Definition f32_lt (a b : float) : bool := SFltb a b.
Definition f32_le (a b : float) : bool := SFleb a b.
Definition f32_gt (a b : float) : bool := SFltb b a.

Definition isnan (a : float) : bool := match a with S754_nan => true | _ => false end.

(** [(uint32_t) a] drops the fraction; it is undefined when the integer does not
    fit. *)
Definition f32_to_u32 (a : float) : option Z :=
  match a with
  | S754_zero _ => Some 0
  | S754_finite s m e =>
      let n := Z.shiftl (Z.pos m) e in
      let n := if s then - n else n in
      if (0 <=? n) && (n <? 2 ^ 32) then Some n else None
  | _ => None
  end.

(** [FLT_EPSILON]. *)
Definition FLT_EPSILON : float := f32 1 (-23).

Definition almostEquals (a b epsilon : float) : bool :=
  if isnan a || isnan b then false
  else if SFeqb a b then true
  else
    let diff := SFabs (f32_sub a b) in
    if (SFeqb a (f32 0 0) || SFeqb b (f32 0 0)) && f32_lt diff epsilon
    then f32_lt diff (f32_mul epsilon epsilon)
    else f32_lt (f32_div diff (f32_add (SFabs a) (SFabs b))) epsilon.

Definition areFloatsEqual (a b : float) : bool := almostEquals a b FLT_EPSILON.

(** ** Elapsed time

    [m_seconds] is an [unsigned long], of 32 bits on the target. *)

Record Precision_T := MkTime { m_seconds : Z; m_thousandths : Z }.

#[global] Instance Precision_T_eq_dec : EqDecision Precision_T.
Proof. solve_decision. Defined.

Definition MAX_POSITVE_MSEC_ : Z := 0x7FFF.

Definition deltaPrecision (startTime endTime : Precision_T) : Precision_T :=
  let s := u32 (m_seconds endTime - m_seconds startTime) in
  let t := u16 (m_thousandths endTime - m_thousandths startTime) in
  if t >? MAX_POSITVE_MSEC_ then MkTime (u32 (s - 1)) (u16 (t + 1000)) else MkTime s t.

Definition expiredPrecision (timeMarker duration currentTime : Precision_T) : bool :=
  let delta := deltaPrecision timeMarker currentTime in
  (m_seconds delta >? m_seconds duration)
  || ((m_seconds delta =? m_seconds duration) && (m_thousandths delta >=? m_thousandths duration)).

(** ** Duty cycles *)

(** [Storm::Type::Cph]: cycles per hour, an [int] in the configuration. *)
Definition e2CPH : Z := 0.
Definition e3CPH : Z := 1.
Definition e4CPH : Z := 2.
Definition e5CPH : Z := 3.
Definition e6CPH : Z := 4.
Definition Cph_eNUM_OPTIONS : Z := 5.

(** An element of a table of five: an index outside of it is undefined. *)
Definition table {A} (l : list A) (i : Z) : option A :=
  if (0 <=? i) then l !! Z.to_nat i else None.

Definition k_ : list float := [f32 450 0; f32 300 0; f32 225 0; f32 180 0; f32 150 0].

Definition maxMinimumTimeLimits_ : list Z := [15 * 60; 10 * 60; 450; 6 * 60; 5 * 60].

Definition normalizePv (pvVar pvLowerBound pvUpperBound : float) : float :=
  let range := f32_sub pvUpperBound pvLowerBound in
  if f32_lt pvVar pvLowerBound then f32 0 0
  else
    let pvVar := f32_div (f32_sub pvVar pvLowerBound) range in
    if f32_gt pvVar (f32 1 0) then f32 1 0 else pvVar.

Definition getMaximumMinOnTime (cyclesPerHour : Z) : option Z :=
  if cyclesPerHour =? Cph_eNUM_OPTIONS then None
  else table maxMinimumTimeLimits_ cyclesPerHour.

Definition getMaximumMinOffTime (cyclesPerHour : Z) : option Z :=
  if cyclesPerHour =? Cph_eNUM_OPTIONS then None
  else table maxMinimumTimeLimits_ cyclesPerHour.

Definition calculateOffTime (pvVar : float) (minOffTime cyclesPerHour : Z)
    (pvLowerBound pvUpperBound : float) : option Z :=
  if cyclesPerHour =? Cph_eNUM_OPTIONS then None
  else
    let pvVar := normalizePv pvVar pvLowerBound pvUpperBound in
    k ← table k_ cyclesPerHour;
    cycleTime ← if areFloatsEqual pvVar (f32 0 0) then Some 0xFFFFFFFF
                else f32_to_u32 (f32_div k pvVar);
    timeLimit ← getMaximumMinOffTime cyclesPerHour;
    let minOffTime := if minOffTime >? timeLimit then timeLimit else minOffTime in
    Some (if cycleTime <? minOffTime then minOffTime else cycleTime).

Definition calculateOnTime (pvVar : float) (minOnTime cyclesPerHour : Z)
    (pvLowerBound pvUpperBound : float) : option Z :=
  if cyclesPerHour =? Cph_eNUM_OPTIONS then None
  else
    let pvVar := normalizePv pvVar pvLowerBound pvUpperBound in
    k ← table k_ cyclesPerHour;
    let divisor := f32_sub (f32 1 0) pvVar in
    cycleTime ← if areFloatsEqual divisor (f32 0 0) then Some 0xFFFFFFFF
                else f32_to_u32 (f32_div k (f32_sub (f32 1 0) pvVar));
    timeLimit ← getMaximumMinOnTime cyclesPerHour;
    let minOnTime := if minOnTime >? timeLimit then timeLimit else minOnTime in
    Some (if cycleTime <? minOnTime then minOnTime else cycleTime).

(** ** Facts *)

(** Half load, with three cycles per hour: ten minutes on, ten minutes off. *)
Example half_load :
  calculateOnTime (f32 50 0) 300 e3CPH (f32 0 0) (f32 100 0) = Some 600
  ∧ calculateOffTime (f32 50 0) 300 e3CPH (f32 0 0) (f32 100 0) = Some 600.
Proof. by vm_compute. Qed.

(** A load that is small and not within [FLT_EPSILON] squared of zero makes the
    quotient larger than any [uint32_t], and its conversion is undefined. *)
Example tiny_load_overflows :
  calculateOffTime (f32 1 (-20)) 300 e3CPH (f32 0 0) (f32 100 0) = None.
Proof. by vm_compute. Qed.

(** So does a load just below the upper bound, for the time on. *)
Example near_full_load_overflows :
  calculateOnTime (f32 16777215 (-24)) 300 e3CPH (f32 0 0) (f32 1 0) = None.
Proof. by vm_compute. Qed.

(** So does a stage whose bounds coincide. *)
Example empty_range_undefined :
  calculateOnTime (f32 100 0) 300 e3CPH (f32 100 0) (f32 100 0) = None.
Proof. by vm_compute. Qed.

Lemma f32_to_u32_range a n : f32_to_u32 a = Some n → in_range 32 n.
Proof.
  unfold f32_to_u32, in_range. destruct a; try done.
  - intros [= <-]. lia.
  - destruct ((_ <=? _) && _) eqn:E; [|done]. intros [= <-].
    apply andb_prop in E as [?%Z.leb_le ?%Z.ltb_lt]. done.
Qed.

Lemma table_limit_bounds i n : table maxMinimumTimeLimits_ i = Some n → 300 <= n <= 900.
Proof.
  unfold table. destruct (0 <=? i); [|done].
  generalize (Z.to_nat i) as k. intros k H. do 5 (destruct k as [|k]; [simplify_eq/=; lia|]). done.
Qed.

(** A cycle lasts at least the minimum, or the limit of the cycle rate when that
    is less, and at most what a [uint32_t] holds. *)
Definition effective_minimum (minTime cyclesPerHour : Z) : Z :=
  default 0 (Z.min minTime <$> table maxMinimumTimeLimits_ cyclesPerHour).

Lemma effective_minimum_nonneg m cph : 0 <= m → 0 <= effective_minimum m cph.
Proof.
  intros. unfold effective_minimum. destruct (table maxMinimumTimeLimits_ cph) eqn:E; cbn; [|lia].
  apply table_limit_bounds in E. lia.
Qed.

Lemma clamp_bounds c m l :
  in_range 32 c → in_range 32 m → 300 <= l <= 900 →
  let m' := if m >? l then l else m in
  Z.min m l <= (if c <? m' then m' else c) < 2 ^ 32.
Proof.
  unfold in_range. intros ???. assert ((if m >? l then l else m) = Z.min m l) as ->.
  { destruct (Z.gtb_spec m l); lia. }
  destruct (Z.ltb_spec c (Z.min m l)); lia.
Qed.

Lemma calculateOffTime_bounds pv m cph lo hi t :
  in_range 32 m → calculateOffTime pv m cph lo hi = Some t →
  effective_minimum m cph <= t < 2 ^ 32.
Proof.
  intros Hm. unfold calculateOffTime, getMaximumMinOffTime, effective_minimum.
  destruct (cph =? _); [done|]. destruct (table k_ cph); [|done]; cbn.
  destruct (if areFloatsEqual _ _ then _ else _) as [c|] eqn:Ec; [|done]; cbn.
  destruct (table maxMinimumTimeLimits_ cph) as [l|] eqn:El; [|done]; cbn.
  intros [= <-]. apply clamp_bounds; [|done|by eapply table_limit_bounds].
  destruct (areFloatsEqual _ _); [simplify_eq; unfold in_range; lia|by eapply f32_to_u32_range].
Qed.

Lemma calculateOnTime_bounds pv m cph lo hi t :
  in_range 32 m → calculateOnTime pv m cph lo hi = Some t →
  effective_minimum m cph <= t < 2 ^ 32.
Proof.
  intros Hm. unfold calculateOnTime, getMaximumMinOnTime, effective_minimum.
  destruct (cph =? _); [done|]. destruct (table k_ cph); [|done]; cbn.
  destruct (if areFloatsEqual _ _ then _ else _) as [c|] eqn:Ec; [|done]; cbn.
  destruct (table maxMinimumTimeLimits_ cph) as [l|] eqn:El; [|done]; cbn.
  intros [= <-]. apply clamp_bounds; [|done|by eapply table_limit_bounds].
  destruct (areFloatsEqual _ _); [simplify_eq; unfold in_range; lia|by eapply f32_to_u32_range].
Qed.

Lemma calculateOffTime_pos pv m cph lo hi t :
  0 < m < 2 ^ 32 → calculateOffTime pv m cph lo hi = Some t → 0 < t.
Proof.
  intros Hm H. pose proof (calculateOffTime_bounds pv m cph lo hi t) as B.
  assert (0 < effective_minimum m cph); [|apply B in H; unfold in_range; lia].
  revert H. unfold calculateOffTime, getMaximumMinOffTime, effective_minimum.
  destruct (cph =? _); [done|]. destruct (table k_ cph); [|done]; cbn.
  destruct (if areFloatsEqual _ _ then _ else _); [|done]; cbn.
  destruct (table maxMinimumTimeLimits_ cph) as [l|] eqn:El; [|done]; cbn.
  pose proof (table_limit_bounds _ _ El). lia.
Qed.

Lemma calculateOnTime_pos pv m cph lo hi t :
  0 < m < 2 ^ 32 → calculateOnTime pv m cph lo hi = Some t → 0 < t.
Proof.
  intros Hm H. pose proof (calculateOnTime_bounds pv m cph lo hi t) as B.
  assert (0 < effective_minimum m cph); [|apply B in H; unfold in_range; lia].
  revert H. unfold calculateOnTime, getMaximumMinOnTime, effective_minimum.
  destruct (cph =? _); [done|]. destruct (table k_ cph); [|done]; cbn.
  destruct (if areFloatsEqual _ _ then _ else _); [|done]; cbn.
  destruct (table maxMinimumTimeLimits_ cph) as [l|] eqn:El; [|done]; cbn.
  pose proof (table_limit_bounds _ _ El). lia.
Qed.

(** *** Time *)

Definition time_ok (t : Precision_T) : Prop := in_range 32 (m_seconds t) ∧ 0 <= m_thousandths t < 1000.

#[global] Instance time_ok_dec t : Decision (time_ok t).
Proof. unfold time_ok. apply _. Defined.

(** The time in milliseconds. *)
Definition msec (t : Precision_T) : Z := m_seconds t * 1000 + m_thousandths t.

(** With no wrap around between the two, the test compares milliseconds. *)
Lemma expired_msec start d now :
  time_ok start → time_ok now → 0 <= m_seconds d → 0 <= m_thousandths d < 1000 →
  msec start <= msec now →
  expiredPrecision start d now = bool_decide (msec d <= msec now - msec start).
Proof.
  intros [[??] ?] [[??] ?] ?? Hle. unfold expiredPrecision, deltaPrecision, msec, wrap, MAX_POSITVE_MSEC_ in *.
  change (2 ^ 16) with 65536 in *. change (2 ^ 32) with 4294967296 in *.
  destruct start as [s1 t1], now as [s2 t2], d as [sd td]; cbn in *.
  assert (s1 <= s2) by lia.
  rewrite (Z.mod_small (s2 - s1)) by lia.
  destruct (Z_lt_le_dec t2 t1) as [Hb|Hb].
  - assert ((t2 - t1) mod 65536 = t2 - t1 + 65536) as ->.
    { symmetry. apply (Z.mod_unique _ _ (-1)); lia. }
    rewrite (gtb_true (t2 - t1 + 65536)) by lia. cbn [m_seconds m_thousandths].
    rewrite (Z.mod_small (s2 - s1 - 1)) by lia.
    assert ((t2 - t1 + 65536 + 1000) mod 65536 = t2 - t1 + 1000) as ->.
    { symmetry. apply (Z.mod_unique _ _ 1); lia. }
    case_bool_decide;
      destruct (Z.gtb_spec (s2 - s1 - 1) sd), (Z.eqb_spec (s2 - s1 - 1) sd),
        (Z.geb_spec (t2 - t1 + 1000) td); cbn; lia.
  - rewrite (Z.mod_small (t2 - t1)) by lia.
    rewrite (gtb_false (t2 - t1)) by lia. cbn [m_seconds m_thousandths].
    case_bool_decide;
      destruct (Z.gtb_spec (s2 - s1) sd), (Z.eqb_spec (s2 - s1) sd),
        (Z.geb_spec (t2 - t1) td); cbn; lia.
Qed.

(** Nothing expires in the instant in which it begins. *)
Lemma not_expired_at_once now t :
  0 < t → expiredPrecision now (MkTime t 0) now = false.
Proof.
  intros. unfold expiredPrecision, deltaPrecision, wrap. rewrite !Z.sub_diag, !Z.mod_0_l by lia.
  cbn. destruct t; [lia|done|lia].
Qed.
