(* ===== verification/StageFsm.v ===== *)
(** * Stages of the equipment

    Models src/src/Storm/Component/Equipment/Stage: the hierarchical state
    machine of one stage of heating or cooling (Fsm_.cpp, which a tool generates
    from a diagram), its event queue (FsmEventQueue_.cpp), and the actions
    (Basic.cpp, BasicCooling.cpp, BasicIndoorHeat.cpp); with the types they use
    from src/src/Storm/Type.

    Stages call each other: a stage that cannot meet the load hands over to the
    next one and back.  They live in a list, in which a [StageApi*] is an index.
    The structure of arguments is a local variable of Control::execute to which
    the stages keep a pointer: [w_args] is the one of the current call,
    [w_frame] the number of this call, and a pointer kept from an earlier call
    dangles. *)

From Stdlib Require Import ZArith Lia.
From S2P Require Import Prelude DutyCycle.
Local Open Scope pim_scope.

(** ** Types *)

Definition STORM_DM_MP_VIRTUAL_OUTPUTS_OFF : Z := 0.
Definition STORM_DM_MP_VIRTUAL_OUTPUTS_ON : Z := 1000.

(** [Storm::Type::CycleStatus]. *)
Definition eOFF : Z := 0.
Definition eON_CYCLE : Z := 1.
Definition eOFF_CYCLE : Z := 2.

Record Stage_T := MkStageT {
  lowerBound : float;
  upperBound : float;
  minIndoorFan : Z;
  maxIndoorFan : Z;
  minOnTime : Z;
  minOffTime : Z;
  cph : Z
}.

Record SystemConfig_T := MkSystemConfig {
  stages : list Stage_T;
  currentOpMode : Z;
  outdoorUnitType : Z;
  indoorUnitType : Z;
  numCompressorStages : Z;
  numIndoorStages : Z;
  totalStages : Z;
  fanContinuousSpeed : Z;
  gain : float;
  reset_ : float;
  maxPvOut : float
}.

Record VirtualOutputs_T := MkOutputs {
  indoorFan : Z;
  indoorFanCont : Z;
  indoorStages : list Z;
  outdoorFan : Z;
  outdoorStages : list Z;
  sovInHeating : bool
}.

Record CycleInfo_T := MkCycleInfo {
  beginOnTime : Precision_T;
  beginOffTime : Precision_T;
  onTime : Z;
  offTime : Z;
  mode : Z
}.

Record EquipmentTimes_T := MkEquipmentTimes {
  outdoorUnitBeginOnTime : Precision_T;
  outdoorUnitBeginOffTime : Precision_T;
  indoorUnitBeginOnTime : Precision_T;
  indoorUnitBeginOffTime : Precision_T;
  systemBeginOnTime : Precision_T;
  systemBeginOffTime : Precision_T
}.

Record WhiteBox_T := MkWhiteBox { defeatEquipMinOffTime : bool; abortOnOffCycle : bool }.

Record Args_T := MkArgs {
  pvOut : float;
  systemConfig : SystemConfig_T;
  currentTick : Precision_T;
  currentInterval : Precision_T;
  equipmentBeginTimes : EquipmentTimes_T;
  whiteBox : WhiteBox_T;
  vOutputs : VirtualOutputs_T;
  cycleInfo : CycleInfo_T;
  systemOn : bool
}.

(** Assignments to one field. *)
Definition set_whiteBox wb a :=
  MkArgs (pvOut a) (systemConfig a) (currentTick a) (currentInterval a) (equipmentBeginTimes a)
    wb (vOutputs a) (cycleInfo a) (systemOn a).
Definition set_vOutputs vo a :=
  MkArgs (pvOut a) (systemConfig a) (currentTick a) (currentInterval a) (equipmentBeginTimes a)
    (whiteBox a) vo (cycleInfo a) (systemOn a).
Definition set_cycleInfo ci a :=
  MkArgs (pvOut a) (systemConfig a) (currentTick a) (currentInterval a) (equipmentBeginTimes a)
    (whiteBox a) (vOutputs a) ci (systemOn a).
Definition set_systemOn b a :=
  MkArgs (pvOut a) (systemConfig a) (currentTick a) (currentInterval a) (equipmentBeginTimes a)
    (whiteBox a) (vOutputs a) (cycleInfo a) b.

Definition set_indoorFan x v :=
  MkOutputs x (indoorFanCont v) (indoorStages v) (outdoorFan v) (outdoorStages v) (sovInHeating v).
Definition set_indoorStages l v :=
  MkOutputs (indoorFan v) (indoorFanCont v) l (outdoorFan v) (outdoorStages v) (sovInHeating v).
Definition set_outdoorStages l v :=
  MkOutputs (indoorFan v) (indoorFanCont v) (indoorStages v) (outdoorFan v) l (sovInHeating v).
Definition set_sovInHeating b v :=
  MkOutputs (indoorFan v) (indoorFanCont v) (indoorStages v) (outdoorFan v) (outdoorStages v) b.

Definition set_beginOnTime t c := MkCycleInfo t (beginOffTime c) (onTime c) (offTime c) (mode c).
Definition set_beginOffTime t c := MkCycleInfo (beginOnTime c) t (onTime c) (offTime c) (mode c).
Definition set_onTime n c := MkCycleInfo (beginOnTime c) (beginOffTime c) n (offTime c) (mode c).
Definition set_offTime n c := MkCycleInfo (beginOnTime c) (beginOffTime c) (onTime c) n (mode c).
Definition set_mode m c := MkCycleInfo (beginOnTime c) (beginOffTime c) (onTime c) (offTime c) m.

(** ** The state machine *)

Inductive States :=
  | OffTime | Active | SupplementingNextStage | OnTime | Off | Cycling | OnCycle | StartingOn
  | TransitioningFromLowerStage | OffCycle | StartingOff | TransitioningBackToLowerStage
  | NUM_STATES.

#[global] Instance States_eq_dec : EqDecision States.
Proof. solve_decision. Defined.

Inductive FSM_EVENT_T :=
  | Fsm_evBackTransitionCompleted | Fsm_evLessCapacityNeeded | Fsm_evOnRequest
  | Fsm_evOffModeRequest | Fsm_evStartingOnTimeExpired | Fsm_evStartingOffTimeExpired
  | Fsm_evOffTimeExpired | Fsm_evExcessCapacity | Fsm_evOnTimeExpired
  | Fsm_evFromTransitionCompleted | Fsm_evNeedMoreCapacity | FSM_NO_MSG.

Record stateVarsT := MkVars {
  stateVar : States;
  stateVarActive : States;
  stateVarCycling : States;
  stateVarOnCycle : States;
  stateVarOffCycle : States
}.

Definition set_stateVar s v :=
  MkVars s (stateVarActive v) (stateVarCycling v) (stateVarOnCycle v) (stateVarOffCycle v).
Definition set_stateVarActive s v :=
  MkVars (stateVar v) s (stateVarCycling v) (stateVarOnCycle v) (stateVarOffCycle v).
Definition set_stateVarCycling s v :=
  MkVars (stateVar v) (stateVarActive v) s (stateVarOnCycle v) (stateVarOffCycle v).
Definition set_stateVarOnCycle s v :=
  MkVars (stateVar v) (stateVarActive v) (stateVarCycling v) s (stateVarOffCycle v).
Definition set_stateVarOffCycle s v :=
  MkVars (stateVar v) (stateVarActive v) (stateVarCycling v) (stateVarOnCycle v) s.

(** The two subclasses of Basic. *)
Inductive Kind := BasicCooling | BasicIndoorHeat (m_controlFan : bool).

(** A stage: the data of Basic, the variables of the machine, and the queue,
    which is a ring buffer of eight entries (RingBuffer): it holds seven events,
    oldest first. *)
Record Basic := MkBasic {
  m_kind : Kind;
  m_systemIndex : nat;
  m_outIndex : nat;
  m_startTime : Precision_T;
  m_args : option nat;
  m_nextStage : option nat;
  m_prevStage : option nat;
  m_startInOffCycle : bool;
  m_supplemented : bool;
  m_requestSupplementStartInOnCycle : bool;
  m_requestOffStartInOnCycle : bool;
  m_initialized : bool;
  stateVars : stateVarsT;
  stateVarsCopy : stateVarsT;
  m_events : list FSM_EVENT_T;
  m_processingFsmEvent : bool
}.

Definition set_index i o b :=
  MkBasic (m_kind b) i o (m_startTime b) (m_args b) (m_nextStage b) (m_prevStage b)
    (m_startInOffCycle b) (m_supplemented b) (m_requestSupplementStartInOnCycle b)
    (m_requestOffStartInOnCycle b) (m_initialized b) (stateVars b) (stateVarsCopy b) (m_events b)
    (m_processingFsmEvent b).
Definition set_startTime t b :=
  MkBasic (m_kind b) (m_systemIndex b) (m_outIndex b) t (m_args b) (m_nextStage b) (m_prevStage b)
    (m_startInOffCycle b) (m_supplemented b) (m_requestSupplementStartInOnCycle b)
    (m_requestOffStartInOnCycle b) (m_initialized b) (stateVars b) (stateVarsCopy b) (m_events b)
    (m_processingFsmEvent b).
Definition set_args a b :=
  MkBasic (m_kind b) (m_systemIndex b) (m_outIndex b) (m_startTime b) a (m_nextStage b)
    (m_prevStage b) (m_startInOffCycle b) (m_supplemented b) (m_requestSupplementStartInOnCycle b)
    (m_requestOffStartInOnCycle b) (m_initialized b) (stateVars b) (stateVarsCopy b) (m_events b)
    (m_processingFsmEvent b).
Definition set_nextStage n b :=
  MkBasic (m_kind b) (m_systemIndex b) (m_outIndex b) (m_startTime b) (m_args b) n
    (m_prevStage b) (m_startInOffCycle b) (m_supplemented b) (m_requestSupplementStartInOnCycle b)
    (m_requestOffStartInOnCycle b) (m_initialized b) (stateVars b) (stateVarsCopy b) (m_events b)
    (m_processingFsmEvent b).
Definition set_prevStage p b :=
  MkBasic (m_kind b) (m_systemIndex b) (m_outIndex b) (m_startTime b) (m_args b) (m_nextStage b)
    p (m_startInOffCycle b) (m_supplemented b) (m_requestSupplementStartInOnCycle b)
    (m_requestOffStartInOnCycle b) (m_initialized b) (stateVars b) (stateVarsCopy b) (m_events b)
    (m_processingFsmEvent b).
Definition set_startInOffCycle x b :=
  MkBasic (m_kind b) (m_systemIndex b) (m_outIndex b) (m_startTime b) (m_args b) (m_nextStage b)
    (m_prevStage b) x (m_supplemented b) (m_requestSupplementStartInOnCycle b)
    (m_requestOffStartInOnCycle b) (m_initialized b) (stateVars b) (stateVarsCopy b) (m_events b)
    (m_processingFsmEvent b).
Definition set_supplemented x b :=
  MkBasic (m_kind b) (m_systemIndex b) (m_outIndex b) (m_startTime b) (m_args b) (m_nextStage b)
    (m_prevStage b) (m_startInOffCycle b) x (m_requestSupplementStartInOnCycle b)
    (m_requestOffStartInOnCycle b) (m_initialized b) (stateVars b) (stateVarsCopy b) (m_events b)
    (m_processingFsmEvent b).
Definition set_requestSupplement x b :=
  MkBasic (m_kind b) (m_systemIndex b) (m_outIndex b) (m_startTime b) (m_args b) (m_nextStage b)
    (m_prevStage b) (m_startInOffCycle b) (m_supplemented b) x
    (m_requestOffStartInOnCycle b) (m_initialized b) (stateVars b) (stateVarsCopy b) (m_events b)
    (m_processingFsmEvent b).
Definition set_requestOff x b :=
  MkBasic (m_kind b) (m_systemIndex b) (m_outIndex b) (m_startTime b) (m_args b) (m_nextStage b)
    (m_prevStage b) (m_startInOffCycle b) (m_supplemented b) (m_requestSupplementStartInOnCycle b)
    x (m_initialized b) (stateVars b) (stateVarsCopy b) (m_events b) (m_processingFsmEvent b).
Definition set_initialized x b :=
  MkBasic (m_kind b) (m_systemIndex b) (m_outIndex b) (m_startTime b) (m_args b) (m_nextStage b)
    (m_prevStage b) (m_startInOffCycle b) (m_supplemented b) (m_requestSupplementStartInOnCycle b)
    (m_requestOffStartInOnCycle b) x (stateVars b) (stateVarsCopy b) (m_events b)
    (m_processingFsmEvent b).
Definition set_vars v b :=
  MkBasic (m_kind b) (m_systemIndex b) (m_outIndex b) (m_startTime b) (m_args b) (m_nextStage b)
    (m_prevStage b) (m_startInOffCycle b) (m_supplemented b) (m_requestSupplementStartInOnCycle b)
    (m_requestOffStartInOnCycle b) (m_initialized b) v (stateVarsCopy b) (m_events b)
    (m_processingFsmEvent b).
Definition set_copy v b :=
  MkBasic (m_kind b) (m_systemIndex b) (m_outIndex b) (m_startTime b) (m_args b) (m_nextStage b)
    (m_prevStage b) (m_startInOffCycle b) (m_supplemented b) (m_requestSupplementStartInOnCycle b)
    (m_requestOffStartInOnCycle b) (m_initialized b) (stateVars b) v (m_events b)
    (m_processingFsmEvent b).
Definition set_events q b :=
  MkBasic (m_kind b) (m_systemIndex b) (m_outIndex b) (m_startTime b) (m_args b) (m_nextStage b)
    (m_prevStage b) (m_startInOffCycle b) (m_supplemented b) (m_requestSupplementStartInOnCycle b)
    (m_requestOffStartInOnCycle b) (m_initialized b) (stateVars b) (stateVarsCopy b) q
    (m_processingFsmEvent b).
Definition set_processing x b :=
  MkBasic (m_kind b) (m_systemIndex b) (m_outIndex b) (m_startTime b) (m_args b) (m_nextStage b)
    (m_prevStage b) (m_startInOffCycle b) (m_supplemented b) (m_requestSupplementStartInOnCycle b)
    (m_requestOffStartInOnCycle b) (m_initialized b) (stateVars b) (stateVarsCopy b) (m_events b)
    x.

(** ** Memory *)

Record World := MkWorld { w_args : Args_T; w_frame : nat; w_stages : list Basic }.

Abbreviation W := (ST World).

Definition set_w_args a w := MkWorld a (w_frame w) (w_stages w).
Definition set_w_stages l w := MkWorld (w_args w) (w_frame w) l.

(** [*this] of a stage. *)
Definition stage (me : nat) : W Basic := w ← get_st; lift_opt (w_stages w !! me).

Definition upd (me : nat) (f : Basic → Basic) : W unit :=
  w ← get_st; b ← stage me; put_st (set_w_stages (<[me := f b]> (w_stages w)) w).

(** [m_args->]: neither null nor dangling. *)
Definition args (me : nat) : W Args_T :=
  b ← stage me; w ← get_st;
  assert_ (bool_decide (m_args b = Some (w_frame w)));; ret (w_args w).

Definition upd_args (me : nat) (f : Args_T → Args_T) : W unit :=
  a ← args me; w ← get_st; put_st (set_w_args (f a) w).

(** An element of an array; outside of it is undefined. *)
Definition store (i : nat) (x : Z) (l : list Z) : option (list Z) :=
  if i <? length l then Some (<[i := x]> l) else None.

(** ** Predicates of the machine *)

Definition isInOffTime (v : stateVarsT) : bool :=
  bool_decide (stateVarOffCycle v = OffTime) && bool_decide (stateVarCycling v = OffCycle)
  && bool_decide (stateVarActive v = Cycling) && bool_decide (stateVar v = Active).
Definition isInActive (v : stateVarsT) : bool := bool_decide (stateVar v = Active).
Definition isInSupplementingNextStage (v : stateVarsT) : bool :=
  bool_decide (stateVar v = SupplementingNextStage).
Definition isInOnTime (v : stateVarsT) : bool :=
  bool_decide (stateVarOnCycle v = OnTime) && bool_decide (stateVarCycling v = OnCycle)
  && bool_decide (stateVarActive v = Cycling) && bool_decide (stateVar v = Active).
Definition isInOff (v : stateVarsT) : bool := bool_decide (stateVar v = Off).
Definition isInCycling (v : stateVarsT) : bool :=
  bool_decide (stateVarActive v = Cycling) && bool_decide (stateVar v = Active).
Definition isInOnCycle (v : stateVarsT) : bool :=
  bool_decide (stateVarCycling v = OnCycle)
  && bool_decide (stateVarActive v = Cycling) && bool_decide (stateVar v = Active).
Definition isInStartingOn (v : stateVarsT) : bool :=
  bool_decide (stateVarOnCycle v = StartingOn) && bool_decide (stateVarCycling v = OnCycle)
  && bool_decide (stateVarActive v = Cycling) && bool_decide (stateVar v = Active).
Definition isInTransitioningFromLowerStage (v : stateVarsT) : bool :=
  bool_decide (stateVarActive v = TransitioningFromLowerStage) && bool_decide (stateVar v = Active).
Definition isInOffCycle (v : stateVarsT) : bool :=
  bool_decide (stateVarCycling v = OffCycle)
  && bool_decide (stateVarActive v = Cycling) && bool_decide (stateVar v = Active).
Definition isInStartingOff (v : stateVarsT) : bool :=
  bool_decide (stateVarOffCycle v = StartingOff) && bool_decide (stateVarCycling v = OffCycle)
  && bool_decide (stateVarActive v = Cycling) && bool_decide (stateVar v = Active).
Definition isInTransitioningBackToLowerStage (v : stateVarsT) : bool :=
  bool_decide (stateVarActive v = TransitioningBackToLowerStage)
  && bool_decide (stateVar v = Active).

Definition getInnermostActiveState (v : stateVarsT) : States :=
  if isInStartingOff v then StartingOff
  else if isInStartingOn v then StartingOn
  else if isInOnTime v then OnTime
  else if isInOffTime v then OffTime
  else if isInTransitioningBackToLowerStage v then TransitioningBackToLowerStage
  else if isInTransitioningFromLowerStage v then TransitioningFromLowerStage
  else if isInOff v then Off
  else if isInSupplementingNextStage v then SupplementingNextStage
  else NUM_STATES.

(** [Fsm::initialize]: once, by the constructors of the subclasses. *)
Definition initialize (me : nat) : W unit :=
  b ← stage me;
  if m_initialized b then ret tt
  else
    upd me (set_initialized true);;
    upd me (set_copy (MkVars Off Cycling OnCycle StartingOn StartingOff));;
    upd me (λ b, set_vars (stateVarsCopy b) b).

(** ** Actions

    [gen] is [generateEvent] of any stage, which the actions call. *)

Section actions.
Variable gen : nat → FSM_EVENT_T → W unit.
Implicit Type me : nat.

(** [vOutputs.outdoorStages[m_outIndex] = x] and
    [vOutputs.indoorStages[m_outIndex] = x]. *)
Definition set_outdoor me (x : Z) : W unit :=
  b ← stage me; a ← args me;
  l ← lift_opt (store (m_outIndex b) x (outdoorStages (vOutputs a)));
  upd_args me (λ a, set_vOutputs (set_outdoorStages l (vOutputs a)) a).

Definition set_indoor me (x : Z) : W unit :=
  b ← stage me; a ← args me;
  l ← lift_opt (store (m_outIndex b) x (indoorStages (vOutputs a)));
  upd_args me (λ a, set_vOutputs (set_indoorStages l (vOutputs a)) a).

Definition set_fan me (x : Z) : W unit :=
  upd_args me (λ a, set_vOutputs (set_indoorFan x (vOutputs a)) a).

Definition BasicCooling_stageOff me : W unit :=
  set_outdoor me STORM_DM_MP_VIRTUAL_OUTPUTS_OFF;;
  b ← stage me;
  if m_systemIndex b =? 0 then set_fan me STORM_DM_MP_VIRTUAL_OUTPUTS_OFF else ret tt.

Definition BasicCooling_stageOn me : W unit :=
  set_outdoor me STORM_DM_MP_VIRTUAL_OUTPUTS_ON;;
  b ← stage me;
  if m_systemIndex b =? 0 then set_fan me STORM_DM_MP_VIRTUAL_OUTPUTS_ON else ret tt.

Definition BasicIndoorHeat_stageOff me : W unit :=
  set_indoor me STORM_DM_MP_VIRTUAL_OUTPUTS_OFF;;
  b ← stage me;
  if m_systemIndex b =? 0 then set_fan me STORM_DM_MP_VIRTUAL_OUTPUTS_OFF else ret tt.

Definition BasicIndoorHeat_stageOn (m_controlFan : bool) me : W unit :=
  set_indoor me STORM_DM_MP_VIRTUAL_OUTPUTS_ON;;
  b ← stage me;
  if m_systemIndex b =? 0
  then set_fan me (if m_controlFan then STORM_DM_MP_VIRTUAL_OUTPUTS_ON
                   else STORM_DM_MP_VIRTUAL_OUTPUTS_OFF)
  else ret tt.

(** The virtual methods. *)
Definition stageOff me : W unit :=
  b ← stage me;
  match m_kind b with
  | BasicCooling => BasicCooling_stageOff me
  | BasicIndoorHeat _ => BasicIndoorHeat_stageOff me
  end.

Definition stageOn me : W unit :=
  b ← stage me;
  match m_kind b with
  | BasicCooling => BasicCooling_stageOn me
  | BasicIndoorHeat fan => BasicIndoorHeat_stageOn fan me
  end.

Definition Basic_initializeActive me : W unit :=
  stageOff me;;
  b ← stage me;
  if m_systemIndex b =? 0 then upd_args me (set_systemOn true) else ret tt.

Definition BasicCooling_initializeActive me : W unit :=
  Basic_initializeActive me;;
  upd_args me (λ a, set_vOutputs (set_sovInHeating false (vOutputs a)) a).

Definition initializeActive me : W unit :=
  b ← stage me;
  match m_kind b with
  | BasicCooling => BasicCooling_initializeActive me
  | BasicIndoorHeat _ => Basic_initializeActive me
  end.

Definition initializeStage me : W unit :=
  upd me (λ b,
    set_startInOffCycle false (set_supplemented false (set_nextStage None (set_prevStage None
      (set_args None (set_requestOff true (set_requestSupplement true
        (set_startTime (MkTime 0 0) b)))))))).

(** [notifyAsActiveStage_] and [notifyAsExitingSupplmenting_] of another stage;
    the reference they pass is to the arguments that [m_args] points to. *)
Definition notifyAsActiveStage_ (me previousStage : nat) (startInOnCycle : bool) : W unit :=
  w ← get_st;
  upd me (λ b, set_args (Some (w_frame w)) (set_startInOffCycle (negb startInOnCycle)
    (set_supplemented true (set_nextStage None (set_prevStage (Some previousStage) b)))));;
  gen me Fsm_evOnRequest.

Definition notifyAsExitingSupplmenting_ me (startInOnCycle : bool) : W unit :=
  w ← get_st;
  upd me (λ b, set_args (Some (w_frame w)) (set_startInOffCycle (negb startInOnCycle)
    (set_nextStage None b)));;
  gen me Fsm_evLessCapacityNeeded.

Definition enterSupplementing me : W unit :=
  args me;;
  b ← stage me;
  next ← lift_opt (m_nextStage b);
  notifyAsActiveStage_ next me (m_requestSupplementStartInOnCycle b);;
  stageOn me.

Definition notifyLowerStage me : W unit :=
  args me;;
  b ← stage me;
  prev ← lift_opt (m_prevStage b);
  notifyAsExitingSupplmenting_ prev (m_requestOffStartInOnCycle b);;
  upd me (set_prevStage None);;
  upd me (set_supplemented false).

Definition startOnTime me : W unit :=
  a ← args me; upd me (set_startTime (currentInterval a)).

Definition startOffTime me : W unit :=
  a ← args me; upd me (set_startTime (currentInterval a)).

Definition initializeBackTransition me : W unit := gen me Fsm_evBackTransitionCompleted.

Definition initializeFromTransition me : W unit := gen me Fsm_evFromTransitionCompleted.

Definition checkOffTime me : W unit :=
  a ← args me;
  if Z.eqb (mode (cycleInfo a)) eOFF_CYCLE then
    b ← stage me;
    st ← lift_opt (stages (systemConfig a) !! m_systemIndex b);
    t ← lift_opt (calculateOffTime (pvOut a) (minOffTime st) (cph st) (lowerBound st) (upperBound st));
    upd_args me (λ a, set_cycleInfo (set_offTime t (cycleInfo a)) a);;
    a ← args me;
    b ← stage me;
    if expiredPrecision (m_startTime b) (MkTime (offTime (cycleInfo a)) 0) (currentInterval a)
       || abortOnOffCycle (whiteBox a)
    then
      upd_args me (λ a, set_whiteBox (MkWhiteBox (defeatEquipMinOffTime (whiteBox a)) false) a);;
      gen me Fsm_evOffTimeExpired
    else ret tt
  else ret tt.

Definition checkOnTime me : W unit :=
  a ← args me;
  if Z.eqb (mode (cycleInfo a)) eON_CYCLE then
    b ← stage me;
    st ← lift_opt (stages (systemConfig a) !! m_systemIndex b);
    t ← lift_opt (calculateOnTime (pvOut a) (minOnTime st) (cph st) (lowerBound st) (upperBound st));
    upd_args me (λ a, set_cycleInfo (set_onTime t (cycleInfo a)) a);;
    a ← args me;
    b ← stage me;
    if expiredPrecision (m_startTime b) (MkTime (onTime (cycleInfo a)) 0) (currentInterval a)
       || abortOnOffCycle (whiteBox a)
    then
      upd_args me (λ a, set_whiteBox (MkWhiteBox (defeatEquipMinOffTime (whiteBox a)) false) a);;
      gen me Fsm_evOnTimeExpired
    else ret tt
  else ret tt.

Definition startingStageOff me : W unit :=
  stageOff me;;
  b ← stage me;
  upd_args me (λ a, set_cycleInfo (set_beginOffTime (m_startTime b) (cycleInfo a)) a);;
  upd_args me (λ a, set_cycleInfo (set_mode eOFF_CYCLE (cycleInfo a)) a);;
  checkOffTime me;;
  gen me Fsm_evStartingOffTimeExpired.

Definition startingStageOn me : W unit :=
  stageOn me;;
  b ← stage me;
  upd_args me (λ a, set_cycleInfo (set_beginOnTime (m_startTime b) (cycleInfo a)) a);;
  upd_args me (λ a, set_cycleInfo (set_mode eON_CYCLE (cycleInfo a)) a);;
  checkOnTime me;;
  gen me Fsm_evStartingOnTimeExpired.

Definition shutdownStage me : W unit :=
  stageOff me;;
  b ← stage me;
  if m_systemIndex b =? 0 then
    upd_args me (set_systemOn false);;
    upd_args me (λ a, set_cycleInfo (set_mode eOFF (cycleInfo a)) a)
  else ret tt.

(** [startCyclingInOffCycle], [startCyclingInOnCycle], [checkBackTransition],
    [checkFromTransition], [checkStartingOffTime], [checkStartingOnTime] and
    [exitSupplementing] have empty bodies. *)

(** ** The event handler *)

(** The assignments to [stateVarsCopy]. *)
Definition copy me (f : stateVarsT → stateVarsT) : W unit :=
  upd me (λ b, set_copy (f (stateVarsCopy b)) b).

(** The choice at the entry of Cycling, which three transitions have. *)
Definition enter_cycling me : W unit :=
  b ← stage me;
  if m_startInOffCycle b then
    startOffTime me;;
    startingStageOff me;;
    copy me (set_stateVarCycling OffCycle);;
    copy me (set_stateVarOffCycle StartingOff)
  else
    startOnTime me;;
    startingStageOn me;;
    copy me (set_stateVarCycling OnCycle);;
    copy me (set_stateVarOnCycle StartingOn).

Definition in_OnCycle me (v : stateVarsT) (msg : FSM_EVENT_T) : W bool :=
  evConsumed ←
    match stateVarOnCycle v with
    | OnTime => checkOnTime me;; ret false
    | StartingOn =>
        match msg with
        | Fsm_evStartingOnTimeExpired =>
            stageOn me;; copy me (set_stateVarOnCycle OnTime);; ret true
        | _ => ret false
        end
    | _ => ret false
    end;
  if (evConsumed : bool) then ret true
  else
    match msg with
    | Fsm_evOnTimeExpired =>
        startOffTime me;;
        startingStageOff me;;
        copy me (set_stateVarCycling OffCycle);;
        copy me (set_stateVarOffCycle StartingOff);;
        ret true
    | _ => ret false
    end.

Definition in_OffCycle me (v : stateVarsT) (msg : FSM_EVENT_T) : W bool :=
  evConsumed ←
    match stateVarOffCycle v with
    | StartingOff =>
        match msg with
        | Fsm_evStartingOffTimeExpired =>
            stageOff me;; copy me (set_stateVarOffCycle OffTime);; ret true
        | _ => ret false
        end
    | OffTime => checkOffTime me;; ret false
    | _ => ret false
    end;
  if (evConsumed : bool) then ret true
  else
    match msg with
    | Fsm_evOffTimeExpired =>
        startOnTime me;;
        startingStageOn me;;
        copy me (set_stateVarCycling OnCycle);;
        copy me (set_stateVarOnCycle StartingOn);;
        ret true
    | _ => ret false
    end.

Definition in_Cycling me (v : stateVarsT) (msg : FSM_EVENT_T) : W bool :=
  evConsumed ←
    match stateVarCycling v with
    | OnCycle => in_OnCycle me v msg
    | OffCycle => in_OffCycle me v msg
    | _ => ret false
    end;
  if (evConsumed : bool) then ret true
  else
    match msg with
    | Fsm_evExcessCapacity =>
        b ← stage me;
        if m_supplemented b then
          initializeBackTransition me;;
          copy me (set_stateVarActive TransitioningBackToLowerStage);;
          ret true
        else
          shutdownStage me;;
          copy me (set_stateVar Off);;
          ret true
    | Fsm_evNeedMoreCapacity =>
        enterSupplementing me;;
        copy me (set_stateVar SupplementingNextStage);;
        ret true
    | _ => ret false
    end.

Definition in_Active me (v : stateVarsT) (msg : FSM_EVENT_T) : W bool :=
  evConsumed ←
    match stateVarActive v with
    | Cycling => in_Cycling me v msg
    | TransitioningFromLowerStage =>
        match msg with
        | Fsm_evFromTransitionCompleted =>
            copy me (set_stateVarActive Cycling);;
            enter_cycling me;;
            ret true
        | _ => ret false
        end
    | TransitioningBackToLowerStage =>
        match msg with
        | Fsm_evBackTransitionCompleted =>
            notifyLowerStage me;;
            shutdownStage me;;
            copy me (set_stateVar Off);;
            copy me (set_stateVarActive Cycling);;
            ret true
        | _ => ret false
        end
    | _ => ret false
    end;
  if (evConsumed : bool) then ret true
  else
    match msg with
    | Fsm_evOffModeRequest =>
        initializeStage me;;
        copy me (set_stateVar Off);;
        ret true
    | _ => ret false
    end.

Definition in_Off me (msg : FSM_EVENT_T) : W bool :=
  match msg with
  | Fsm_evOnRequest =>
      b ← stage me;
      if m_supplemented b then
        initializeFromTransition me;;
        copy me (set_stateVar Active);;
        copy me (set_stateVarActive TransitioningFromLowerStage);;
        ret true
      else
        initializeActive me;;
        copy me (set_stateVar Active);;
        copy me (set_stateVarActive Cycling);;
        enter_cycling me;;
        ret true
  | _ => ret false
  end.

Definition in_SupplementingNextStage me (msg : FSM_EVENT_T) : W bool :=
  match msg with
  | Fsm_evLessCapacityNeeded =>
      copy me (set_stateVarActive Cycling);;
      enter_cycling me;;
      copy me (set_stateVar Active);;
      ret true
  | Fsm_evOffModeRequest =>
      initializeStage me;;
      copy me (set_stateVar Off);;
      ret true
  | _ => ret false
  end.

(** [processEvent]: the outer switch.  The switches read [stateVars] before any
    action runs; only the last statement writes it. *)
Definition processEvent me (msg : FSM_EVENT_T) : W bool :=
  b ← stage me;
  if negb (m_initialized b) then ret false
  else
    upd me (λ b, set_copy (stateVars b) b);;
    let v := stateVars b in
    evConsumed ←
      match stateVar v with
      | Off => in_Off me msg
      | Active => in_Active me v msg
      | SupplementingNextStage => in_SupplementingNextStage me msg
      | _ => ret false
      end;
    upd me (λ b, set_vars (stateVarsCopy b) b);;
    ret evConsumed.
End actions.

(** ** The event queue *)

(** [while( remove( msg ) ) processEvent( msg )]. *)
Fixpoint drain (process : FSM_EVENT_T → W bool) (me fuel : nat) : W unit :=
  match fuel with
  | O => undefined
  | S fuel =>
      b ← stage me;
      match m_events b with
      | [] => ret tt
      | msg :: q => upd me (set_events q);; process msg;; drain process me fuel
      end
  end.

Definition QUEUE_SIZE : nat := 7.

(** Events that one call may take out of the queue, and calls that may be
    nested: the theorems show that these are enough. *)
Definition MAX_EVENTS : nat := 12.
Definition MAX_DEPTH : nat := 4.

Fixpoint generateEvent_ (fuel me : nat) (msg : FSM_EVENT_T) : W unit :=
  match fuel with
  | O => undefined
  | S fuel =>
      b ← stage me;
      (if length (m_events b) <? QUEUE_SIZE then upd me (set_events (m_events b ++ [msg]))
       else undefined);;
      if m_processingFsmEvent b then ret tt
      else
        upd me (set_processing true);;
        drain (processEvent (generateEvent_ fuel) me) me MAX_EVENTS;;
        upd me (set_processing false)
  end.

Definition generateEvent : nat → FSM_EVENT_T → W unit := generateEvent_ MAX_DEPTH.

(** ** Operations of a stage *)

Definition Basic_new (kind : Kind) (systemStageIndex outputStageIndex : nat) : Basic :=
  MkBasic kind systemStageIndex outputStageIndex (MkTime 0 0) None None None false false true true
    false (MkVars OffTime OffTime OffTime OffTime OffTime)
    (MkVars OffTime OffTime OffTime OffTime OffTime) [] false.

Definition reconfigure (me systemStageIndex outputStageIndex : nat) : W unit :=
  upd me (set_index systemStageIndex outputStageIndex).

(** [&args] of the current call. *)
Definition args_ref : W (option nat) := w ← get_st; ret (Some (w_frame w)).

Definition requestOn (me : nat) (startInOnCycle : bool) : W unit :=
  r ← args_ref;
  upd me (λ b, set_args r (set_startInOffCycle (negb startInOnCycle) (set_supplemented false b)));;
  generateEvent me Fsm_evOnRequest.

Definition requestAsSupplement (me nextStage : nat) (startNextStageInOnCycle : bool) : W unit :=
  r ← args_ref;
  upd me (λ b, set_args r (set_requestSupplement startNextStageInOnCycle
    (set_nextStage (Some nextStage) b)));;
  generateEvent me Fsm_evNeedMoreCapacity.

Definition requestModeToOff (me : nat) : W unit := generateEvent me Fsm_evOffModeRequest.

Definition requestOff (me : nat) (startLowerStageInOnCycle : bool) : W unit :=
  r ← args_ref;
  upd me (λ b, set_args r (set_requestOff startLowerStageInOnCycle b));;
  generateEvent me Fsm_evExcessCapacity.

Definition execute (me : nat) : W unit :=
  r ← args_ref;
  upd me (set_args r);;
  generateEvent me FSM_NO_MSG.

Definition isActive (b : Basic) : bool := isInActive (stateVars b).
Definition isSupplementing (b : Basic) : bool := isInSupplementingNextStage (stateVars b).
Definition isOff (b : Basic) : bool := isInOff (stateVars b).
Definition isTransitioningFromLowerStage (b : Basic) : bool :=
  isInTransitioningBackToLowerStage (stateVars b).
Definition isTransitioningBackToLowerStage (b : Basic) : bool :=
  isInTransitioningBackToLowerStage (stateVars b).
Definition isOnCycle (b : Basic) : bool := isInOnCycle (stateVars b).
Definition isOffCycle (b : Basic) : bool := isInOffCycle (stateVars b).
