(* ===== verification/StageSpec.v ===== *)
(** * The stages of the equipment, from outside

    What a stage is between calls, and what each operation makes of it.  The
    proofs run the state machines on symbolic data: every step of the monad is a
    rule, and the tests on times and on the white box are split. *)

From Stdlib Require Import ZArith Lia.
From S2P Require Import Prelude DutyCycle StageFsm.
Local Open Scope pim_scope.

(** ** Rules *)

Section rules.
Implicit Types (w : World) (me : nat) (b : Basic).

Lemma wp_get {S} (Q : S → S → Prop) s : Q s s → wp get_st Q s.
Proof. done. Qed.

Lemma wp_put {S} (Q : unit → S → Prop) s s' : Q tt s' → wp (put_st s') Q s.
Proof. done. Qed.

Lemma wp_stage me b Q w : w_stages w !! me = Some b → Q b w → wp (stage me) Q w.
Proof. intros H HQ. unfold stage, wp, bind, get_st. by rewrite H. Qed.

Lemma wp_upd me f b Q w :
  w_stages w !! me = Some b → Q tt (set_w_stages (<[me := f b]> (w_stages w)) w) →
  wp (upd me f) Q w.
Proof. intros H HQ. unfold upd, stage, wp, bind, get_st. by rewrite H. Qed.

Lemma wp_args me b Q w :
  w_stages w !! me = Some b → m_args b = Some (w_frame w) → Q (w_args w) w → wp (args me) Q w.
Proof.
  intros H Ha HQ. unfold args, stage, wp, bind, get_st. rewrite H. cbn.
  by rewrite bool_decide_true by done.
Qed.

Lemma wp_upd_args me f b Q w :
  w_stages w !! me = Some b → m_args b = Some (w_frame w) →
  Q tt (set_w_args (f (w_args w)) w) → wp (upd_args me f) Q w.
Proof. intros H Ha HQ. unfold upd_args. apply wp_bind. by eapply wp_args. Qed.

(** [generateEvent], unfolded once; and one turn of its loop. *)
Lemma wp_generate fuel me msg Q w :
  wp (b ← stage me;
      (if length (m_events b) <? QUEUE_SIZE then upd me (set_events (m_events b ++ [msg]))
       else undefined);;
      if m_processingFsmEvent b then ret tt
      else
        upd me (set_processing true);;
        drain (processEvent (generateEvent_ fuel) me) me MAX_EVENTS;;
        upd me (set_processing false)) Q w →
  wp (generateEvent_ (S fuel) me msg) Q w.
Proof. done. Qed.

Lemma wp_drain process me fuel Q w :
  wp (b ← stage me;
      match m_events b with
      | [] => ret tt
      | msg :: q => upd me (set_events q);; process msg;; drain process me fuel
      end) Q w →
  wp (drain process me (S fuel)) Q w.
Proof. done. Qed.
End rules.

(** ** Symbolic execution *)

(** Evaluates a term of the model, keeping what the symbolic data decide. *)
Ltac ev t :=
  eval lazy -[calculateOnTime calculateOffTime expiredPrecision f32_gt f32_le orb andb
              Z.lt Z.le not] in t.

(** Splits on a test, once. *)
Ltac decide_test a :=
  match goal with E : a = _ |- _ => rewrite E | _ => destruct a eqn:? end.

(** One statement on a concrete world. *)
Ltac wstep :=
  lazymatch goal with
  | |- wp (bind _ _) _ _ => apply wp_bind
  | |- wp (ret ?a) ?Q ?w => refine (wp_ret a Q w _); cbv beta
  | |- wp get_st ?Q ?w => refine (wp_get Q w _); cbv beta
  | |- wp (put_st ?s) ?Q ?w => let s' := ev s in refine (wp_put Q w s' _); cbv beta
  | |- wp (stage ?me) ?Q ?w =>
      let r := ev (w_stages w !! me) in
      lazymatch r with Some ?b => refine (wp_stage me b Q w eq_refl _); cbv beta end
  | |- wp (upd ?me ?f) ?Q ?w =>
      let r := ev (w_stages w !! me) in
      lazymatch r with
      | Some ?b =>
          let w' := ev (set_w_stages (<[me := f b]> (w_stages w)) w) in
          refine (wp_upd me f b Q w eq_refl (_ : Q tt w')); cbv beta
      end
  | |- wp (args ?me) ?Q ?w =>
      let r := ev (w_stages w !! me) in
      let a := ev (w_args w) in
      lazymatch r with Some ?b => refine (wp_args me b Q w eq_refl eq_refl (_ : Q a w)); cbv beta end
  | |- wp (upd_args ?me ?f) ?Q ?w =>
      let r := ev (w_stages w !! me) in
      lazymatch r with
      | Some ?b =>
          let w' := ev (set_w_args (f (w_args w)) w) in
          refine (wp_upd_args me f b Q w eq_refl eq_refl (_ : Q tt w')); cbv beta
      end
  | |- wp (lift_opt ?o) ?Q ?w =>
      let o' := ev o in
      lazymatch o' with
      | Some ?a => refine (wp_lift_opt o a Q w eq_refl _); cbv beta
      | _ => refine (wp_lift_opt o _ Q w (_ : o' = _) _); [eassumption|]; cbv beta
      end
  | |- wp (match ?c with _ => _ end) _ _ =>
      let c' := ev c in
      lazymatch c' with
      | context [expiredPrecision ?t (MkTime ?d 0) ?t] =>
          change c with c'; rewrite (not_expired_at_once t d) by assumption; cbn [orb andb]
      | orb ?a ?b => change c with c'; decide_test a; cbn [orb andb]
      | andb ?a ?b => change c with c'; destruct a; cbn [orb andb]
      | _ => change c with c'; first [is_var c'; destruct c' | progress cbv match | destruct c']
      end
  | |- wp (let _ := _ in _) _ _ => cbv zeta
  | |- wp (generateEvent_ ?n ?me ?msg) ?Q ?w =>
      let n' := ev n in
      lazymatch n' with S ?f => refine (wp_generate f me msg Q w _) end
  | |- wp (drain ?p ?me ?n) ?Q ?w =>
      let n' := ev n in
      lazymatch n' with S ?f => refine (wp_drain p me f Q w _) end
  | |- wp ?m _ _ =>
      let h := lazymatch m with
               | ?f _ _ _ _ => f | ?f _ _ _ => f | ?f _ _ => f | ?f _ => f | ?f => f end in
      unfold h; cbv beta
  end.

Ltac wrun := repeat wstep.

(** ** Shapes *)

(** What a stage does between calls: nothing, cycling on its own, or running
    all the time below a higher stage. *)
Inductive Status := Idle | Running (on : bool) | Lent.

#[global] Instance Status_eq_dec : EqDecision Status.
Proof. solve_decision. Defined.

(** The variables of the machine in a status. *)
Definition in_status (st : Status) (v : stateVarsT) : Prop :=
  match st with
  | Idle => stateVar v = Off
  | Running true =>
      stateVar v = Active ∧ stateVarActive v = Cycling
      ∧ stateVarCycling v = OnCycle ∧ stateVarOnCycle v = OnTime
  | Running false =>
      stateVar v = Active ∧ stateVarActive v = Cycling
      ∧ stateVarCycling v = OffCycle ∧ stateVarOffCycle v = OffTime
  | Lent => stateVar v = SupplementingNextStage
  end.

(** A stage that is not idle knows the stage below it, if there is one: the
    [i]-th stage of a heater is the object [i + 1]. *)
Definition linked (i : nat) (st : Status) (b : Basic) : Prop :=
  match st with
  | Idle => True
  | _ => match i with
         | O => m_supplemented b = false
         | S _ => m_supplemented b = true ∧ m_prevStage b = Some i
         end
  end.

Record stage_ok (kind : Kind → Prop) (i : nat) (st : Status) (b : Basic) : Prop := {
  so_kind : kind (m_kind b);
  so_system : m_systemIndex b = i;
  so_out : m_outIndex b = i;
  so_init : m_initialized b = true;
  so_events : m_events b = [];
  so_processing : m_processingFsmEvent b = false;
  so_state : in_status st (stateVars b);
  so_link : linked i st b
}.

Definition heater (k : Kind) : Prop := ∃ f, k = BasicIndoorHeat f.

Lemma heater_indoor f : heater (BasicIndoorHeat f).
Proof. by exists f. Qed.
#[export] Hint Resolve heater_indoor : pim.

(** The number of the stage that cycles, and whether it is on. *)
Inductive Level := NoLoad | Stage (k : nat) (on : bool).

Definition status_at (L : Level) (i : nat) : Status :=
  match L with
  | NoLoad => Idle
  | Stage k on => if i <? k then Lent else if i =? k then Running on else Idle
  end.

Definition output_of (st : Status) : Z :=
  match st with Idle | Running false => 0 | Running true | Lent => 1000 end.

Definition mode_of (L : Level) : Z :=
  match L with NoLoad => eOFF | Stage _ true => eON_CYCLE | Stage _ false => eOFF_CYCLE end.

Definition on_of (L : Level) : bool := match L with NoLoad => false | _ => true end.

(** The heater at a level: its three stages, and what they write to the
    arguments. *)
Record heat_args (L : Level) (a : Args_T) : Prop := {
  ha_outputs : indoorStages (vOutputs a) = (λ i, output_of (status_at L i)) <$> [0; 1; 2];
  ha_mode : mode (cycleInfo a) = mode_of L;
  ha_on : systemOn a = on_of L
}.

Definition heat_stages (L : Level) (l : list Basic) : Prop :=
  ∃ c h1 h2 h3, l = [c; h1; h2; h3]
    ∧ stage_ok heater 0 (status_at L 0) h1
    ∧ stage_ok heater 1 (status_at L 1) h2
    ∧ stage_ok heater 2 (status_at L 2) h3.

Definition heat_ok (L : Level) (w : World) : Prop :=
  heat_stages L (w_stages w) ∧ heat_args L (w_args w).

(** The computations of the times of a stage are defined, and positive. *)
Record stage_defined (pv : float) (st : Stage_T) : Prop := {
  sd_on : ∃ t, calculateOnTime pv (minOnTime st) (cph st) (lowerBound st) (upperBound st) = Some t
               ∧ (0 < t)%Z;
  sd_off : ∃ t, calculateOffTime pv (minOffTime st) (cph st) (lowerBound st) (upperBound st) = Some t
                ∧ (0 < t)%Z
}.

(** There are four stages in a configuration (OPTION_STORM_MAX_TOTAL_STAGES). *)
Definition args_defined (a : Args_T) : Prop :=
  ∃ s0 s1 s2 s3, stages (systemConfig a) = [s0; s1; s2; s3]
    ∧ stage_defined (pvOut a) s0 ∧ stage_defined (pvOut a) s1 ∧ stage_defined (pvOut a) s2.

(** What no operation on the heater changes. *)
Record kept (w w' : World) : Prop := {
  k_frame : w_frame w' = w_frame w;
  k_cool : w_stages w' !! 0 = w_stages w !! 0;
  k_pv : pvOut (w_args w') = pvOut (w_args w);
  k_config : systemConfig (w_args w') = systemConfig (w_args w);
  k_interval : currentInterval (w_args w') = currentInterval (w_args w);
  k_times : equipmentBeginTimes (w_args w') = equipmentBeginTimes (w_args w);
  k_defeat : defeatEquipMinOffTime (whiteBox (w_args w')) = defeatEquipMinOffTime (whiteBox (w_args w));
  k_outdoor : outdoorStages (vOutputs (w_args w')) = outdoorStages (vOutputs (w_args w))
}.

#[global] Instance kept_preorder : PreOrder kept.
Proof.
  split; [by constructor|]. intros w1 w2 w3 [] []. by constructor; etrans.
Qed.

Lemma kept_defined w w' : kept w w' → args_defined (w_args w) → args_defined (w_args w').
Proof. intros [] H. unfold args_defined in *. by rewrite k_pv0, k_config0. Qed.

(** The result of an operation: another level, in [P]. *)
Definition moves {A} (P : Level → Prop) (w : World) : A → World → Prop :=
  λ _ w', ∃ L, P L ∧ heat_ok L w' ∧ kept w w'.

(** Replaces the stages, the arguments and the configuration by their parts. *)
Ltac open_args :=
  match goal with
  | w : World |- _ =>
      destruct w as [[pv [stgs om ot it nc ni tot fc ga re mx] tick ci et [def ab]
        [fan fanc ins ofan outs sov] [bon boff ton toff cmode] on] fr l]; cbn in * |-
  end.

Ltac open_stage b :=
  destruct b as [? ? ? ? ? ? ? ? ? ? ? ? [? ? ? ? ?] ? ? ?]; cbn in * |-.

Ltac open_heat H :=
  unfold heat_ok, heat_stages in H; cbn in H;
  destruct H as [(c & h1 & h2 & h3 & ? & [[? ?]] & [[? ?]] & [[? ?]]) []]; subst;
  open_stage h1; open_stage h2; open_stage h3; destruct_and?; cbn in * |-; subst.

Ltac open_defined H :=
  unfold args_defined in H; cbn in H;
  destruct H as (s0 & s1 & s2 & s3 & ? & [(? & ? & ?) (? & ? & ?)] & [(? & ? & ?) (? & ? & ?)]
    & [(? & ? & ?) (? & ? & ?)]); cbn in * |-; subst.

(** Runs an operation on a heater at a given level. *)
Ltac run_heat H D :=
  open_args; open_heat H; open_defined D; wrun.

Ltac close_heat L :=
  exists L; split; [cbn; eauto|split;
    [split; [do 4 eexists; split; [reflexivity|]; repeat split; cbn; eauto with pim|by constructor]
    |by constructor]].

Lemma requestOn_ok w :
  heat_ok NoLoad w → args_defined (w_args w) →
  wp (requestOn 1 true) (moves (λ L, ∃ on, L = Stage 0 on) w) w.
Proof.
  intros H D. run_heat H D.
  all: solve [close_heat (Stage 0 true)|close_heat (Stage 0 false)].
Qed.

(** A stage hands over to the next. *)
Lemma requestAsSupplement1_ok on w :
  heat_ok (Stage 0 on) w → args_defined (w_args w) →
  wp (requestAsSupplement 1 2 true) (moves (λ L, ∃ on, L = Stage 1 on) w) w.
Proof.
  intros H D. destruct on; run_heat H D.
  all: solve [close_heat (Stage 1 true)|close_heat (Stage 1 false)].
Qed.

Lemma requestAsSupplement2_ok on w :
  heat_ok (Stage 1 on) w → args_defined (w_args w) →
  wp (requestAsSupplement 2 3 true) (moves (λ L, ∃ on, L = Stage 2 on) w) w.
Proof.
  intros H D. destruct on; run_heat H D.
  all: solve [close_heat (Stage 2 true)|close_heat (Stage 2 false)].
Qed.

(** A stage gives up: to the one below, or altogether. *)
Lemma requestOff1_ok on w :
  heat_ok (Stage 0 on) w → args_defined (w_args w) →
  wp (requestOff 1 true) (moves (λ L, L = NoLoad) w) w.
Proof. intros H D. destruct on; run_heat H D. all: solve [close_heat NoLoad]. Qed.

Lemma requestOff2_ok on w :
  heat_ok (Stage 1 on) w → args_defined (w_args w) →
  wp (requestOff 2 true) (moves (λ L, ∃ on, L = Stage 0 on) w) w.
Proof.
  intros H D. destruct on; run_heat H D.
  all: solve [close_heat (Stage 0 true)|close_heat (Stage 0 false)].
Qed.

Lemma requestOff3_ok on w :
  heat_ok (Stage 2 on) w → args_defined (w_args w) →
  wp (requestOff 3 true) (moves (λ L, ∃ on, L = Stage 1 on) w) w.
Proof.
  intros H D. destruct on; run_heat H D.
  all: solve [close_heat (Stage 1 true)|close_heat (Stage 1 false)].
Qed.

(** Levels of the same stage. *)
Definition same_stage (L L' : Level) : Prop :=
  match L with NoLoad => L' = NoLoad | Stage k _ => ∃ on, L' = Stage k on end.

Definition level_lt (n : nat) (L : Level) : Prop :=
  match L with NoLoad => True | Stage k _ => k < n end.

(** The periodic call: the stage that cycles may switch, no other changes. *)
Lemma execute_ok i L w :
  i < 3 → level_lt 3 L → heat_ok L w → args_defined (w_args w) →
  wp (execute (S i)) (moves (same_stage L) w) w.
Proof.
  intros Hi HL H D. destruct L as [|k on]; [|cbn in HL].
  - destruct i as [|[|[|i]]]; [| | |lia]; run_heat H D; solve [close_heat NoLoad].
  - destruct k as [|[|[|k]]]; [| | |lia]; (destruct i as [|[|[|i]]]; [| | |lia]); destruct on;
      run_heat H D; solve
      [close_heat (Stage 0 true)|close_heat (Stage 0 false)|close_heat (Stage 1 true)
      |close_heat (Stage 1 false)|close_heat (Stage 2 true)|close_heat (Stage 2 false)].
Qed.
