(* ===== verification/Equipment.v ===== *)
(** * Control of the equipment

    Models src/src/Storm/Component: the control logic of the equipment
    (Equipment/Cooling.cpp, Equipment/IndoorHeating.cpp, Equipment/Off.cpp), the
    component that runs it on model points (Control.cpp), and the component that
    maps the outputs to relays and records when they switch
    (HvacRelayOutputs.cpp); and the helpers on outputs of
    src/src/Storm/Dm/MpVirtualOutputs.cpp.

    A model point is an option: [None] when it is not valid.  Model points that
    a user has locked from the debug shell, which ignore writes, are not
    modelled. *)

From Stdlib Require Import ZArith Lia.
From S2P Require Import Prelude DutyCycle StageFsm.
Local Open Scope pim_scope.

(** ** Outputs *)

Definition MAX_OUTPUT : Z := 1000.

Definition STORM_MAX_INDOOR_STAGES : nat := 3.
Definition STORM_MAX_OUTDOOR_STAGES : nat := 1.

Definition zero_outputs : VirtualOutputs_T :=
  MkOutputs 0 0 (replicate STORM_MAX_INDOOR_STAGES 0%Z) 0 (replicate STORM_MAX_OUTDOOR_STAGES 0%Z)
    false.

Definition clamp (x : Z) : Z := if (x >? MAX_OUTPUT)%Z then MAX_OUTPUT else x.

Definition validate (v : VirtualOutputs_T) : VirtualOutputs_T :=
  MkOutputs (clamp (indoorFan v)) (clamp (indoorFanCont v)) (clamp <$> indoorStages v)
    (clamp (outdoorFan v)) (clamp <$> outdoorStages v) (sovInHeating v).

Definition setSafeAllOff (outputs : VirtualOutputs_T) : VirtualOutputs_T :=
  set_sovInHeating (sovInHeating outputs) zero_outputs.

Definition set_indoorFanCont x v :=
  MkOutputs (indoorFan v) x (indoorStages v) (outdoorFan v) (outdoorStages v) (sovInHeating v).

Definition setCapacityOff (outputs : VirtualOutputs_T) : VirtualOutputs_T :=
  set_indoorFanCont (indoorFanCont outputs)
    (set_sovInHeating (sovInHeating outputs) zero_outputs).

(** ** Model points *)

Record HvacRelayOutputs_T := MkRelays {
  g : bool; bk : Z; w1 : bool; w2 : bool; w3 : bool; o : bool; y1 : bool; y2 : bool
}.

Record ModelPoints := MkModelPoints {
  mp_systemConfig : option SystemConfig_T;
  mp_systemConfig_seqNum : Z;
  mp_pvOut : option float;
  mp_vOutputs : option VirtualOutputs_T;
  mp_equipmentBeginTimes : option EquipmentTimes_T;
  mp_systemOn : option bool;
  mp_cycleInfo : option CycleInfo_T;
  mp_operatingModeChanged : option bool;
  mp_whiteBox : option WhiteBox_T;
  mp_systemForcedOffRefCnt : option Z;
  mp_relayOutputs : option HvacRelayOutputs_T
}.

Definition write_vOutputs v m :=
  MkModelPoints (mp_systemConfig m) (mp_systemConfig_seqNum m) (mp_pvOut m) (Some (validate v))
    (mp_equipmentBeginTimes m) (mp_systemOn m) (mp_cycleInfo m) (mp_operatingModeChanged m)
    (mp_whiteBox m) (mp_systemForcedOffRefCnt m) (mp_relayOutputs m).
Definition write_cycleInfo c m :=
  MkModelPoints (mp_systemConfig m) (mp_systemConfig_seqNum m) (mp_pvOut m) (mp_vOutputs m)
    (mp_equipmentBeginTimes m) (mp_systemOn m) (Some c) (mp_operatingModeChanged m)
    (mp_whiteBox m) (mp_systemForcedOffRefCnt m) (mp_relayOutputs m).
Definition write_systemOn b m :=
  MkModelPoints (mp_systemConfig m) (mp_systemConfig_seqNum m) (mp_pvOut m) (mp_vOutputs m)
    (mp_equipmentBeginTimes m) (Some b) (mp_cycleInfo m) (mp_operatingModeChanged m)
    (mp_whiteBox m) (mp_systemForcedOffRefCnt m) (mp_relayOutputs m).
Definition write_equipmentBeginTimes t m :=
  MkModelPoints (mp_systemConfig m) (mp_systemConfig_seqNum m) (mp_pvOut m) (mp_vOutputs m)
    (Some t) (mp_systemOn m) (mp_cycleInfo m) (mp_operatingModeChanged m)
    (mp_whiteBox m) (mp_systemForcedOffRefCnt m) (mp_relayOutputs m).
Definition write_relayOutputs r m :=
  MkModelPoints (mp_systemConfig m) (mp_systemConfig_seqNum m) (mp_pvOut m) (mp_vOutputs m)
    (mp_equipmentBeginTimes m) (mp_systemOn m) (mp_cycleInfo m) (mp_operatingModeChanged m)
    (mp_whiteBox m) (mp_systemForcedOffRefCnt m) (Some r).

(** [m_out.vOutputs->setSafeAllOff()]: the data of an invalid point are zeros. *)
Definition mp_setSafeAllOff m :=
  write_vOutputs
    (set_sovInHeating (sovInHeating (default zero_outputs (mp_vOutputs m))) zero_outputs) m.

(** ** Equipment *)

Definition the_args : W Args_T := w ← get_st; ret (w_args w).
Definition mod_args (f : Args_T → Args_T) : W unit := modify (λ w, set_w_args (f (w_args w)) w).

(** [Storm::Type::OperatingMode]. *)
Definition OperatingMode_eOFF : Z := 0.
Definition eCOOLING : Z := 1.
Definition eHEATING : Z := 2.
Definition eID_HEATING : Z := 3.

(** The interface [Control::Equipment]. *)
Class Equipment := {
  executeActive : W bool;
  executeOff : W bool;
  reset : W unit;
  getOperatingMode : Z
}.

Definition OPTION_STORM_MIN_COMPRESSOR_OFF_TIME_SEC : Z := 5 * 60.
Definition OPTION_STORM_MIN_INDOOR_HEATER_OFF_TIME_SEC : Z := 3 * 60.

(** A limit on how soon the equipment may be turned on again. *)
Definition off_long_enough (beginOff : Precision_T) (minOffSec : Z) (a : Args_T) : bool :=
  expiredPrecision beginOff (MkTime minOffSec 0) (currentInterval a)
  || defeatEquipMinOffTime (whiteBox a).

(** The condition under which a stage may be turned off. *)
Definition on_long_enough (a : Args_T) (i : nat) : option bool :=
  (λ st, expiredPrecision (beginOnTime (cycleInfo a)) (MkTime (minOnTime st) 0) (currentInterval a))
    <$> stages (systemConfig a) !! i.

(** [if ( stage.isOffCycle() || expired( minOnTime ) ) stage.requestOff( args )]. *)
Definition try_requestOff (me i : nat) : W unit :=
  a ← the_args; b ← stage me;
  expired ← lift_opt (on_long_enough a i);
  if isOffCycle b || expired then requestOff me true else ret tt.

Module Cooling.
Section cooling.
Variable m_1StageCooling : nat.

Definition TURN_ON_THRESHOLD : float := f32 5 0.
Definition TURN_OFF_THRESHOLD : float := f32 0 0.

Definition singleStage : W bool :=
  a ← the_args; b ← stage m_1StageCooling;
  if negb (systemOn a) && f32_gt (pvOut a) TURN_ON_THRESHOLD then
    (if off_long_enough (outdoorUnitBeginOffTime (equipmentBeginTimes a))
          OPTION_STORM_MIN_COMPRESSOR_OFF_TIME_SEC a
     then requestOn m_1StageCooling true else ret tt);;
    ret true
  else if isActive b && f32_le (pvOut a) TURN_OFF_THRESHOLD then
    try_requestOff m_1StageCooling 0;;
    ret true
  else ret false.

Definition executeActive : W bool :=
  a ← the_args;
  if Z.eqb (numCompressorStages (systemConfig a)) 1 then
    singleStage;; execute m_1StageCooling;; ret true
  else ret false.

Definition executeOff : W bool := requestModeToOff m_1StageCooling;; ret true.

Definition reset : W unit := reconfigure m_1StageCooling 0 0;; requestModeToOff m_1StageCooling.

#[global] Instance Cooling : Equipment :=
  {| Equipment.executeActive := executeActive; Equipment.executeOff := executeOff;
     Equipment.reset := reset; getOperatingMode := eCOOLING |}.
End cooling.
End Cooling.

Module IndoorHeating.
Section heating.
Variables m_1Stage m_2Stage m_3Stage : nat.

Definition TURN_ON_THRESHOLD : float := f32 5 0.
Definition TURN_OFF_THRESHOLD : float := f32 0 0.
Definition TURN_ON_2ND_STAGE_THRESHOLD : float := f32 115 0.
Definition TURN_OFF_2ND_STAGE_THRESHOLD : float := f32 100 0.
Definition TURN_ON_3RD_STAGE_THRESHOLD : float := f32 215 0.
Definition TURN_OFF_3RD_STAGE_THRESHOLD : float := f32 200 0.

Definition heater_off_long_enough (a : Args_T) : bool :=
  off_long_enough (indoorUnitBeginOffTime (equipmentBeginTimes a))
    OPTION_STORM_MIN_INDOOR_HEATER_OFF_TIME_SEC a.

(** [if ( stage.isOnCycle() || (stage.isOffCycle() && off long enough) )
       stage.requestAsSupplement( args, next )]. *)
Definition try_supplement (me next : nat) : W unit :=
  a ← the_args; b ← stage me;
  if isOnCycle b || (isOffCycle b && heater_off_long_enough a)
  then requestAsSupplement me next true else ret tt.

Definition singleStage : W bool :=
  a ← the_args; b ← stage m_1Stage;
  if negb (systemOn a) && f32_gt (pvOut a) TURN_ON_THRESHOLD then
    (if heater_off_long_enough a then requestOn m_1Stage true else ret tt);;
    ret true
  else if isActive b && f32_le (pvOut a) TURN_OFF_THRESHOLD then
    try_requestOff m_1Stage 0;;
    ret true
  else ret false.

Definition secondStage : W bool :=
  a ← the_args; b1 ← stage m_1Stage; b2 ← stage m_2Stage;
  if negb (systemOn a) && f32_gt (pvOut a) TURN_ON_2ND_STAGE_THRESHOLD then
    (if heater_off_long_enough a then
       requestOn m_1Stage true;; requestAsSupplement m_1Stage m_2Stage true
     else ret tt);;
    ret true
  else if isActive b1 && f32_gt (pvOut a) TURN_ON_2ND_STAGE_THRESHOLD then
    try_supplement m_1Stage m_2Stage;;
    ret true
  else if isActive b2 && f32_le (pvOut a) TURN_OFF_2ND_STAGE_THRESHOLD then
    try_requestOff m_2Stage 1;;
    ret true
  else ret false.

Definition thirdStage : W bool :=
  a ← the_args; b1 ← stage m_1Stage; b2 ← stage m_2Stage; b3 ← stage m_3Stage;
  if negb (systemOn a) && f32_gt (pvOut a) TURN_ON_3RD_STAGE_THRESHOLD then
    (if heater_off_long_enough a then
       requestOn m_1Stage true;; requestAsSupplement m_1Stage m_2Stage true
     else ret tt);;
    ret true
  else if isActive b1 && f32_gt (pvOut a) TURN_ON_3RD_STAGE_THRESHOLD then
    try_supplement m_1Stage m_2Stage;;
    ret true
  else if isActive b2 && f32_gt (pvOut a) TURN_ON_3RD_STAGE_THRESHOLD then
    try_supplement m_2Stage m_3Stage;;
    ret true
  else if isActive b3 && f32_le (pvOut a) TURN_OFF_3RD_STAGE_THRESHOLD then
    try_requestOff m_3Stage 2;;
    ret true
  else ret false.

Definition executeActive : W bool :=
  a ← the_args;
  let n := numIndoorStages (systemConfig a) in
  if Z.eqb n 1 then
    singleStage;;
    execute m_1Stage;; ret true
  else if Z.eqb n 2 then
    tripped ← secondStage;
    (if (tripped : bool) then ret true else singleStage);;
    execute m_1Stage;; execute m_2Stage;; ret true
  else if Z.eqb n 3 then
    tripped ← thirdStage;
    (if (tripped : bool) then ret true
     else tripped ← secondStage; if (tripped : bool) then ret true else singleStage);;
    execute m_1Stage;; execute m_2Stage;; execute m_3Stage;; ret true
  else ret false.

Definition executeOff : W bool :=
  requestModeToOff m_1Stage;; requestModeToOff m_2Stage;; requestModeToOff m_3Stage;; ret true.

Definition reset : W unit :=
  reconfigure m_1Stage 0 0;; reconfigure m_2Stage 1 1;; reconfigure m_3Stage 2 2;;
  requestModeToOff m_1Stage;; requestModeToOff m_2Stage;; requestModeToOff m_3Stage.

#[global] Instance IndoorHeating : Equipment :=
  {| Equipment.executeActive := executeActive; Equipment.executeOff := executeOff;
     Equipment.reset := reset; getOperatingMode := eID_HEATING |}.
End heating.
End IndoorHeating.

Module OffMode.
Definition executeActive : W bool :=
  mod_args (λ a, set_vOutputs (setCapacityOff (vOutputs a)) a);;
  a ← the_args;
  (if systemOn a
   then mod_args (λ a, set_cycleInfo (set_beginOffTime (currentInterval a) (cycleInfo a)) a)
   else ret tt);;
  mod_args (λ a, set_cycleInfo (set_mode eOFF (cycleInfo a)) a);;
  mod_args (set_systemOn false);;
  ret true.

#[global] Instance Off : Equipment :=
  {| Equipment.executeActive := executeActive; Equipment.executeOff := ret true;
     Equipment.reset := ret tt; getOperatingMode := OperatingMode_eOFF |}.
End OffMode.

(** ** Control *)

(** A computation on stages with a fresh structure of arguments: it begins a new
    call. *)
Definition call {A} (a : Args_T) (m : W A) (l : list Basic) (frame : nat) :
    option (A * Args_T * list Basic) :=
  match m (MkWorld a (S frame) l) with
  | Some (x, w) => Some (x, w_args w, w_stages w)
  | None => None
  end.

(** A component Control: the sequence number it saw last, and the state that it
    shares with the others. *)
Record Plant := MkPlant {
  p_points : ModelPoints;
  p_stages : list Basic;
  p_frame : nat
}.

Section control.
Context (m_equipment : Equipment).

(** The body of [Control::execute] from the point where the inputs are known,
    in terms of its local [args]. *)
Definition Control_body (m_sysCfgSequenceNumber sysSeqNum : Z) (operatingModeChanged : bool) :
    W (Z * bool) :=
  a ← the_args;
  if Z.eqb (currentOpMode (systemConfig a)) getOperatingMode then
    seq ←
      (if negb (Z.eqb sysSeqNum m_sysCfgSequenceNumber) || operatingModeChanged then
         mod_args (set_systemOn false);;
         mod_args (λ a, set_cycleInfo (set_mode eOFF (cycleInfo a)) a);;
         mod_args (λ a, set_vOutputs (setCapacityOff (vOutputs a)) a);;
         reset;;
         ret sysSeqNum
       else ret m_sysCfgSequenceNumber);
    ok ← executeActive;
    ret (seq, ok)
  else
    ok ← executeOff;
    ret (m_sysCfgSequenceNumber, ok).

Definition Control_execute (seq : Z) (tick interval : Precision_T) (p : Plant) :
    option (bool * Z * Plant) :=
  let m := p_points p in
  match mp_systemConfig m, mp_pvOut m, mp_vOutputs m, mp_equipmentBeginTimes m, mp_systemOn m,
        mp_cycleInfo m, mp_operatingModeChanged m, mp_whiteBox m with
  | Some cfg, Some pv, Some vo, Some et, Some on, Some ci, Some changed, Some wb =>
      let a := MkArgs pv cfg tick interval et wb vo ci on in
      match call a (Control_body seq (mp_systemConfig_seqNum m) changed) (p_stages p) (p_frame p) with
      | Some (seq', ok, a', l) =>
          let m' :=
            if Z.eqb (currentOpMode cfg) getOperatingMode then
              if (ok : bool)
              then write_systemOn (systemOn a')
                     (write_cycleInfo (cycleInfo a') (write_vOutputs (vOutputs a') m))
              else mp_setSafeAllOff m
            else m in
          Some (ok, seq', MkPlant m' l (S (p_frame p)))
      | None => None
      end
  | _, _, _, _, _, _, _, _ => Some (true, seq, p)
  end.
End control.

(** ** Relays *)

Record HvacRelayOutputs := MkHvac { m_systemOn : bool; m_y1 : bool; m_w1 : bool }.

Definition zero_times : EquipmentTimes_T :=
  let z := MkTime 0 0 in MkEquipmentTimes z z z z z z.

Definition relays_of (outputs : VirtualOutputs_T) : option HvacRelayOutputs_T :=
  let fan := if (indoorFanCont outputs >? indoorFan outputs)%Z
             then indoorFanCont outputs else indoorFan outputs in
  let on (x : Z) := (x >? STORM_DM_MP_VIRTUAL_OUTPUTS_OFF)%Z in
  match indoorStages outputs, outdoorStages outputs with
  | i0 :: i1 :: i2 :: _, o0 :: _ =>
      Some (MkRelays (on fan) (u8 ((fan + 5) / 10)) (on i0) (on i1) (on i2)
        (negb (sovInHeating outputs)) (on o0) false)
  | _, _ => None
  end.

Definition HvacRelayOutputs_execute (h : HvacRelayOutputs) (interval : Precision_T)
    (m : ModelPoints) : option (HvacRelayOutputs * ModelPoints) :=
  let failOff :=
    negb (bool_decide (is_Some (mp_systemForcedOffRefCnt m)) && bool_decide (is_Some (mp_vOutputs m))
          && bool_decide (is_Some (mp_systemOn m))
          && bool_decide (is_Some (mp_equipmentBeginTimes m))) in
  let outputs := default zero_outputs (mp_vOutputs m) in
  let t := default zero_times (mp_equipmentBeginTimes m) in
  let systemOn := default false (mp_systemOn m) in
  let forcedOffRefCnt := default 0%Z (mp_systemForcedOffRefCnt m) in
  let outputs := if failOff then setSafeAllOff outputs else outputs in
  let outputs := if (forcedOffRefCnt >? 0)%Z then setCapacityOff outputs else outputs in
  match relays_of outputs with
  | None => None
  | Some relaysNew =>
  let t :=
    if m_y1 h && negb (y1 relaysNew) then
      MkEquipmentTimes (outdoorUnitBeginOnTime t) interval (indoorUnitBeginOnTime t)
        (indoorUnitBeginOffTime t) (systemBeginOnTime t) (systemBeginOffTime t)
    else if negb (m_y1 h) && y1 relaysNew then
      MkEquipmentTimes interval (outdoorUnitBeginOffTime t) (indoorUnitBeginOnTime t)
        (indoorUnitBeginOffTime t) (systemBeginOnTime t) (systemBeginOffTime t)
    else t in
  let t :=
    if m_w1 h && negb (w1 relaysNew) then
      MkEquipmentTimes (outdoorUnitBeginOnTime t) (outdoorUnitBeginOffTime t)
        (indoorUnitBeginOnTime t) interval (systemBeginOnTime t) (systemBeginOffTime t)
    else if negb (m_w1 h) && w1 relaysNew then
      MkEquipmentTimes (outdoorUnitBeginOnTime t) (outdoorUnitBeginOffTime t) interval
        (indoorUnitBeginOffTime t) (systemBeginOnTime t) (systemBeginOffTime t)
    else t in
  let t :=
    if negb systemOn && m_systemOn h then
      MkEquipmentTimes (outdoorUnitBeginOnTime t) (outdoorUnitBeginOffTime t)
        (indoorUnitBeginOnTime t) (indoorUnitBeginOffTime t) (systemBeginOnTime t) interval
    else if systemOn && negb (m_systemOn h) then
      MkEquipmentTimes (outdoorUnitBeginOnTime t) (outdoorUnitBeginOffTime t)
        (indoorUnitBeginOnTime t) (indoorUnitBeginOffTime t) interval (systemBeginOffTime t)
    else t in
  Some (MkHvac systemOn (y1 relaysNew) (w1 relaysNew),
        write_relayOutputs relaysNew (write_equipmentBeginTimes t m))
  end.
