(* ===== verification/EquipmentSpec.v ===== *)
(** * The heater under its controller

    From the operations on one stage to those of IndoorHeating and Control: the
    stages of the heater always form a ladder. *)

From Stdlib Require Import ZArith Lia.
From S2P Require Import Prelude DutyCycle StageFsm StageSpec Equipment.
Local Open Scope pim_scope.

(** ** Composition *)

Lemma moves_here {A} (P : Level → Prop) L (a : A) w : P L → heat_ok L w → moves P w a w.
Proof. by exists L. Qed.

Lemma moves_weaken {A} (P Q : Level → Prop) (m : W A) w :
  (∀ L, P L → Q L) → wp m (moves P w) w → wp m (moves Q w) w.
Proof. intros HPQ Hm. eapply wp_mono; [exact Hm|]. intros a w' (L & ? & ?). exists L. eauto. Qed.

(** One operation after another. *)
Lemma moves_bind {A B} (P Q : Level → Prop) (m : W A) (k : A → W B) w :
  args_defined (w_args w) →
  wp m (moves P w) w →
  (∀ a L w', P L → heat_ok L w' → args_defined (w_args w') → wp (k a) (moves Q w') w') →
  wp (bind m k) (moves Q w) w.
Proof.
  intros D Hm Hk. apply wp_bind. eapply wp_mono; [exact Hm|].
  intros a w' (L & HP & H & K). eapply wp_mono; [by eapply Hk, kept_defined|].
  intros b w'' (L' & ? & ? & ?). exists L'. split; [done|split; [done|by etrans]].
Qed.

Lemma moves_ret {A} (P : Level → Prop) L (a : A) w : P L → heat_ok L w → wp (ret a) (moves P w) w.
Proof. intros. apply wp_ret. by eapply moves_here. Qed.

(** What a controller sees of the [i]-th stage. *)
Definition runs (L : Level) (i : nat) : bool :=
  match L with NoLoad => false | Stage k _ => i =? k end.

Lemma heat_stage L w i :
  i < 3 → heat_ok L w →
  ∃ b, w_stages w !! S i = Some b ∧ isActive b = runs L i
    ∧ isOnCycle b = match L with Stage k true => i =? k | _ => false end
    ∧ isOffCycle b = match L with Stage k false => i =? k | _ => false end.
Proof.
  intros Hi [(c & h1 & h2 & h3 & -> & S1 & S2 & S3) _].
  assert (∃ b, [c; h1; h2; h3] !! S i = Some b ∧ stage_ok heater i (status_at L i) b) as (b & Hb & Sb).
  { destruct i as [|[|[|i]]]; [eexists; split; [reflexivity|eassumption]..|lia]. }
  exists b. split; [done|]. pose proof (so_state _ _ _ _ Sb) as Hs. clear - Hs.
  unfold isActive, isOnCycle, isOffCycle, isInActive, isInOnCycle, isInOffCycle, runs.
  destruct L as [|k on]; cbn [status_at] in Hs.
  - cbn in Hs. rewrite Hs. cbn. by rewrite !andb_false_r.
  - destruct (Nat.ltb_spec i k), (Nat.eqb_spec i k); try lia.
    + cbn in Hs. rewrite Hs. cbn. rewrite !andb_false_r. by destruct on.
    + destruct on; cbn in Hs; destruct Hs as (-> & -> & -> & _); done.
    + cbn in Hs. rewrite Hs. cbn. rewrite !andb_false_r. by destruct on.
Qed.

(** Reads the arguments. *)
Lemma wp_the_args {A} (k : Args_T → W A) Q w : wp (k (w_args w)) Q w → wp (bind the_args k) Q w.
Proof. done. Qed.

Lemma wp_read_stage {A} me b (k : Basic → W A) Q w :
  w_stages w !! me = Some b → wp (k b) Q w → wp (bind (stage me) k) Q w.
Proof. intros. apply wp_bind. by eapply wp_stage. Qed.

Lemma on_long_enough_defined a i :
  i < 3 → args_defined a → ∃ e, on_long_enough a i = Some e.
Proof.
  intros Hi (s0 & s1 & s2 & s3 & Hs & _). unfold on_long_enough. rewrite Hs.
  destruct i as [|[|[|i]]]; [by eexists..|lia].
Qed.

Section ladder.
Import IndoorHeating.

(** A stage below the top hands over, if it may. *)
Lemma supplement_step k on w :
  k < 2 → heat_ok (Stage k on) w → args_defined (w_args w) →
  wp (requestAsSupplement (S k) (S (S k)) true) (moves (level_lt (S (S k))) w) w.
Proof.
  intros Hk H D. destruct k as [|[|k]]; [| |lia].
  - eapply moves_weaken; [|by eapply requestAsSupplement1_ok]. intros L [? ->]. cbn; lia.
  - eapply moves_weaken; [|by eapply requestAsSupplement2_ok]. intros L [? ->]. cbn; lia.
Qed.

Lemma off_step k on w :
  k < 3 → heat_ok (Stage k on) w → args_defined (w_args w) →
  wp (requestOff (S k) true) (moves (level_lt (S k)) w) w.
Proof.
  intros Hk H D. destruct k as [|[|[|k]]]; [| | |lia].
  - eapply moves_weaken; [|by eapply requestOff1_ok]. by intros L ->.
  - eapply moves_weaken; [|by eapply requestOff2_ok]. intros L [? ->]. cbn; lia.
  - eapply moves_weaken; [|by eapply requestOff3_ok]. intros L [? ->]. cbn; lia.
Qed.

Lemma try_supplement_ok k on w :
  k < 2 → heat_ok (Stage k on) w → args_defined (w_args w) →
  wp (try_supplement (S k) (S (S k))) (moves (level_lt (S (S k))) w) w.
Proof.
  intros Hk H D. unfold try_supplement. apply wp_the_args.
  destruct (heat_stage _ w k ltac:(lia) H) as (b & Hb & _). eapply wp_read_stage; [done|].
  destruct (_ || _); [by eapply supplement_step|eapply moves_ret; [|done]; cbn; lia].
Qed.

Lemma try_requestOff_ok k on w :
  k < 3 → heat_ok (Stage k on) w → args_defined (w_args w) →
  wp (try_requestOff (S k) k) (moves (level_lt (S k)) w) w.
Proof.
  intros Hk H D. unfold try_requestOff. apply wp_the_args.
  destruct (heat_stage _ w k Hk H) as (b & Hb & _). eapply wp_read_stage; [done|].
  destruct (on_long_enough_defined (w_args w) k Hk D) as [e He]. apply wp_bind.
  eapply wp_lift_opt; [done|].
  destruct (_ || _); [by eapply off_step|eapply moves_ret; [|done]; cbn; lia].
Qed.

Implicit Type n : nat.

(** A level of a heater that is on is not [NoLoad]. *)
Lemma level_of_off L w : heat_ok L w → systemOn (w_args w) = false → L = NoLoad.
Proof. intros [_ H] Hoff. rewrite (ha_on _ _ H) in Hoff. by destruct L. Qed.

Lemma runs_inv L i : runs L i = true → ∃ on, L = Stage i on.
Proof. destruct L as [|k on]; [done|]. intros ->%Nat.eqb_eq. by exists on. Qed.

Lemma turn_on_ok n w :
  0 < n → heat_ok NoLoad w → args_defined (w_args w) →
  wp (requestOn 1 true) (moves (level_lt n) w) w.
Proof.
  intros Hn H D. eapply moves_weaken; [|by eapply requestOn_ok]. by intros L [? ->].
Qed.

(** From off to the second stage in one go. *)
Lemma turn_on_second_ok n w :
  1 < n → heat_ok NoLoad w → args_defined (w_args w) →
  wp (requestOn 1 true;; requestAsSupplement 1 2 true) (moves (level_lt n) w) w.
Proof.
  intros Hn H D. eapply moves_bind; [done|by eapply requestOn_ok|].
  intros [] L w' [on ->] H' D'. eapply moves_weaken; [|by eapply requestAsSupplement1_ok].
  intros L' [? ->]. done.
Qed.

(** [if ( c ) op; return true]. *)
Lemma when_ok (c : bool) (m : W unit) (P : Level → Prop) L w :
  P L → heat_ok L w → args_defined (w_args w) →
  wp m (moves P w) w → wp ((if c then m else ret tt);; ret true) (moves P w) w.
Proof.
  intros HP H D Hm. eapply (moves_bind P); [done|destruct c; [done|by eapply moves_ret]|].
  intros [] L' w' ???. by eapply moves_ret.
Qed.

Lemma then_true (m : W unit) (P : Level → Prop) w :
  args_defined (w_args w) → wp m (moves P w) w → wp (m;; ret true) (moves P w) w.
Proof. intros D Hm. eapply moves_bind; [done..|]. intros [] L' w' ???. by eapply moves_ret. Qed.

Lemma level_weaken n m L : n <= m → level_lt n L → level_lt m L.
Proof. destruct L; cbn; lia. Qed.

Lemma singleStage_ok n L w :
  0 < n → level_lt n L → heat_ok L w → args_defined (w_args w) →
  wp (singleStage 1) (moves (level_lt n) w) w.
Proof.
  intros Hn HL H D. unfold singleStage. apply wp_the_args.
  destruct (heat_stage L w 0 ltac:(lia) H) as (b & Hb & Ha & _). eapply wp_read_stage; [done|].
  destruct (negb _ && _) eqn:E1.
  { apply andb_prop in E1 as [E1%negb_true_iff _]. pose proof (level_of_off _ _ H E1) as ->.
    eapply when_ok; [done..|]. by apply turn_on_ok. }
  rewrite Ha. destruct (runs L 0) eqn:E2; cbn [andb]; [|by eapply moves_ret].
  apply runs_inv in E2 as [on ->]. destruct (f32_le _ _); [|by eapply moves_ret].
  apply then_true; [done|]. eapply moves_weaken; [|apply (try_requestOff_ok 0 on); [lia|done..]].
  intros L'. by apply level_weaken.
Qed.

Lemma secondStage_ok n L w :
  1 < n → level_lt n L → heat_ok L w → args_defined (w_args w) →
  wp (secondStage 1 2) (moves (level_lt n) w) w.
Proof.
  intros Hn HL H D. unfold secondStage. apply wp_the_args.
  destruct (heat_stage L w 0 ltac:(lia) H) as (b1 & Hb1 & Ha1 & _). eapply wp_read_stage; [done|].
  destruct (heat_stage L w 1 ltac:(lia) H) as (b2 & Hb2 & Ha2 & _). eapply wp_read_stage; [done|].
  destruct (negb _ && _) eqn:E1.
  { apply andb_prop in E1 as [E1%negb_true_iff _]. pose proof (level_of_off _ _ H E1) as ->.
    eapply when_ok; [done..|]. by apply turn_on_second_ok. }
  rewrite Ha1, Ha2. destruct (runs L 0 && _) eqn:E2.
  { apply andb_prop in E2 as [[on ->]%runs_inv _]. apply then_true; [done|].
    eapply moves_weaken; [|apply (try_supplement_ok 0 on); [lia|done..]].
    intros L'. by apply level_weaken. }
  destruct (runs L 1 && _) eqn:E3; [|by eapply moves_ret].
  apply andb_prop in E3 as [[on ->]%runs_inv _]. apply then_true; [done|].
  eapply moves_weaken; [|apply (try_requestOff_ok 1 on); [lia|done..]].
  intros L'. by apply level_weaken.
Qed.

Lemma thirdStage_ok L w :
  level_lt 3 L → heat_ok L w → args_defined (w_args w) →
  wp (thirdStage 1 2 3) (moves (level_lt 3) w) w.
Proof.
  intros HL H D. unfold thirdStage. apply wp_the_args.
  destruct (heat_stage L w 0 ltac:(lia) H) as (b1 & Hb1 & Ha1 & _). eapply wp_read_stage; [done|].
  destruct (heat_stage L w 1 ltac:(lia) H) as (b2 & Hb2 & Ha2 & _). eapply wp_read_stage; [done|].
  destruct (heat_stage L w 2 ltac:(lia) H) as (b3 & Hb3 & Ha3 & _). eapply wp_read_stage; [done|].
  destruct (negb _ && _) eqn:E1.
  { apply andb_prop in E1 as [E1%negb_true_iff _]. pose proof (level_of_off _ _ H E1) as ->.
    eapply when_ok; [done..|]. apply turn_on_second_ok; [lia|done..]. }
  rewrite Ha1, Ha2, Ha3. destruct (runs L 0 && _) eqn:E2.
  { apply andb_prop in E2 as [[on ->]%runs_inv _]. apply then_true; [done|].
    eapply moves_weaken; [|apply (try_supplement_ok 0 on); [lia|done..]].
    intros L'. apply level_weaken. lia. }
  destruct (runs L 1 && _) eqn:E3.
  { apply andb_prop in E3 as [[on ->]%runs_inv _]. apply then_true; [done|].
    eapply moves_weaken; [|apply (try_supplement_ok 1 on); [lia|done..]].
    intros L'. by apply level_weaken. }
  destruct (runs L 2 && _) eqn:E4; [|by eapply moves_ret].
  apply andb_prop in E4 as [[on ->]%runs_inv _]. apply then_true; [done|].
  eapply moves_weaken; [|apply (try_requestOff_ok 2 on); [lia|done..]].
  intros L'. by apply level_weaken.
Qed.

Lemma execute_within n i L w :
  i < 3 → n <= 3 → level_lt n L → heat_ok L w → args_defined (w_args w) →
  wp (execute (S i)) (moves (level_lt n) w) w.
Proof.
  intros Hi Hn HL H D.
  eapply moves_weaken; [|apply (execute_ok i L); [done|by eapply level_weaken|done..]].
  intros L'. destruct L; cbn; [by intros ->|by intros [? ->]].
Qed.

(** An operation that reports success. *)
Definition succeeds (P : Level → Prop) (w : World) : bool → World → Prop :=
  λ b w', b = true ∧ moves P w b w'.

Lemma succeeds_bind {A} (P : Level → Prop) (m : W A) (k : A → W bool) w :
  args_defined (w_args w) → wp m (moves P w) w →
  (∀ a L w', P L → heat_ok L w' → args_defined (w_args w') → wp (k a) (succeeds P w') w') →
  wp (bind m k) (succeeds P w) w.
Proof.
  intros D Hm Hk. apply wp_bind. eapply wp_mono; [exact Hm|].
  intros a w' (L & HP & H & K). eapply wp_mono; [by eapply Hk, kept_defined|].
  intros b w'' (Hb & L' & ? & ? & ?). split; [done|]. exists L'. split; [done|split; [done|by etrans]].
Qed.

Lemma succeeds_ret (P : Level → Prop) L w :
  P L → heat_ok L w → wp (ret true) (succeeds P w) w.
Proof. intros. apply wp_ret. split; [done|]. by eapply moves_here. Qed.

(** The end of [executeActive]: the stages run, from the first. *)
Lemma execute_all_ok n ids L w :
  n <= 3 → Forall (λ i, i < 3) ids → level_lt n L → heat_ok L w → args_defined (w_args w) →
  wp (foldr (λ i k, execute (S i);; k) (ret true) ids) (succeeds (level_lt n) w) w.
Proof.
  intros Hn Hi. revert L w. induction Hi as [|i ids Hi _ IH]; intros L w HL H D.
  - by eapply succeeds_ret.
  - cbn. eapply succeeds_bind; [done|by eapply execute_within|]. intros [] L' w' ???. by eapply IH.
Qed.

(** [IndoorHeating::executeActive] with [n] stages configured. *)
Lemma executeActive_ok n L w :
  1 <= n <= 3 → numIndoorStages (systemConfig (w_args w)) = Z.of_nat n →
  level_lt n L → heat_ok L w → args_defined (w_args w) →
  wp (executeActive 1 2 3) (succeeds (level_lt n) w) w.
Proof.
  intros Hn Hc HL H D. unfold executeActive. apply wp_the_args. rewrite Hc.
  assert (n = 1 ∨ n = 2 ∨ n = 3) as [-> | [-> | ->]] by lia;
    repeat lazymatch goal with |- wp (if ?c then _ else _) _ _ =>
      let c' := eval vm_compute in c in change c with c'; cbv match end.
  - eapply succeeds_bind; [done|apply (singleStage_ok 1 L); [lia|done..]|]. intros [] L' w' ???;
      apply (execute_all_ok 1 [0] L'); auto.
  - eapply (succeeds_bind _ (secondStage 1 2)); [done|apply (secondStage_ok 2 L); [lia|done..]|].
    intros b L' w' ???.
    eapply succeeds_bind; [done|destruct b; [by apply (moves_ret _ L')|apply (singleStage_ok 2 L'); [lia|done..]]|].
    intros [] L'' w'' ???; apply (execute_all_ok 2 [0; 1] L''); auto.
  - eapply (succeeds_bind _ (thirdStage 1 2 3)); [done|by eapply thirdStage_ok|].
    intros b L' w' ???.
    eapply succeeds_bind; [done|destruct b; [by apply (moves_ret (level_lt 3) L')|]|].
    + eapply moves_bind; [done|apply (secondStage_ok 3 L'); [lia|done..]|]. intros b' L'' w'' ???.
      destruct b'; [by apply (moves_ret _ L'')|apply (singleStage_ok 3 L''); [lia|done..]].
    + intros [] L'' w'' ???; apply (execute_all_ok 3 [0; 1; 2] L''); auto.
Qed.
End ladder.
