(* ===== verification/Heating.v ===== *)
(** * The heater over time

    The run of the component Control for the heater, from the start of the
    program: readings change from one interval to the next, the configuration
    stays.  The stages form a ladder at every interval, the outputs follow it,
    and no assertion, no queue and no array bound fails. *)

From Stdlib Require Import ZArith Lia SpecFloat.
From S2P Require Import Prelude DutyCycle StageFsm StageSpec Equipment EquipmentSpec.
Local Open Scope pim_scope.

(** ** The start *)

(** The stages that Algorithm constructs: one of the compressor, three of the
    heater. *)
Definition new_stages : list Basic :=
  [Basic_new BasicCooling 0 0; Basic_new (BasicIndoorHeat false) 0 0;
   Basic_new (BasicIndoorHeat false) 1 1; Basic_new (BasicIndoorHeat false) 2 2].

Definition no_args : Args_T :=
  let z := MkTime 0 0 in
  MkArgs (f32 0 0) (MkSystemConfig [] 0 0 0 0 0 0 0 (f32 0 0) (f32 0 0) (f32 0 0)) z z zero_times
    (MkWhiteBox false false) zero_outputs (MkCycleInfo z z 0 0 0) false.

(** The constructors, then [Control::start] of cooling and heating. *)
Definition start_stages : W unit :=
  initialize 0;; initialize 1;; initialize 2;; initialize 3;;
  Cooling.reset 0;; IndoorHeating.reset 1 2 3.

Definition started : list Basic :=
  match start_stages (MkWorld no_args 0 new_stages) with
  | Some (_, w) => w_stages w
  | None => []
  end.

(** ** Intervals *)

(** What the other components write before Control runs: the load, the times
    that the equipment switched, the white box, and the fans.  [None] is a model
    point that is not valid. *)
Record Reading := MkReading {
  r_tick : Precision_T;
  r_interval : Precision_T;
  r_pvOut : option float;
  r_times : option EquipmentTimes_T;
  r_whiteBox : option WhiteBox_T;
  r_indoorFan : Z;
  r_indoorFanCont : Z
}.

Definition refresh (r : Reading) (m : ModelPoints) : ModelPoints :=
  MkModelPoints (mp_systemConfig m) (mp_systemConfig_seqNum m) (r_pvOut r)
    ((λ v, set_indoorFan (r_indoorFan r) (set_indoorFanCont (r_indoorFanCont r) v)) <$> mp_vOutputs m)
    (r_times r) (mp_systemOn m) (mp_cycleInfo m) (Some false) (r_whiteBox r)
    (mp_systemForcedOffRefCnt m) (mp_relayOutputs m).

(** One interval; a component that fails is a fatal error of Algorithm. *)
Definition heating_step (r : Reading) (seq : Z) (p : Plant) : option (Z * Plant) :=
  match Control_execute (IndoorHeating.IndoorHeating 1 2 3) seq (r_tick r) (r_interval r)
          (MkPlant (refresh r (p_points p)) (p_stages p) (p_frame p)) with
  | Some (true, seq', p') => Some (seq', p')
  | _ => None
  end.

Fixpoint heating_run (rs : list Reading) (seq : Z) (p : Plant) : option (Z * Plant) :=
  match rs with
  | [] => Some (seq, p)
  | r :: rs =>
      match heating_step r seq p with
      | Some (seq', p') => heating_run rs seq' p'
      | None => None
      end
  end.

Definition SEQUENCE_NUMBER_UNKNOWN : Z := 0.

(** ** Assumptions on the inputs *)

(** All inputs of the controller are valid. *)
Definition complete (r : Reading) : Prop :=
  is_Some (r_pvOut r) ∧ is_Some (r_times r) ∧ is_Some (r_whiteBox r).

(** The minimum times of a stage are positive, and its duty cycle at this load
    converts to seconds. *)
Definition stage_readable (pv : float) (st : Stage_T) : Prop :=
  (0 < minOnTime st < 2 ^ 32)%Z ∧ (0 < minOffTime st < 2 ^ 32)%Z
  ∧ is_Some (calculateOnTime pv (minOnTime st) (cph st) (lowerBound st) (upperBound st))
  ∧ is_Some (calculateOffTime pv (minOffTime st) (cph st) (lowerBound st) (upperBound st)).

#[global] Instance stage_readable_dec pv st : Decision (stage_readable pv st).
Proof. unfold stage_readable. apply _. Defined.

Definition reading_ok (cfg : SystemConfig_T) (r : Reading) : Prop :=
  ∀ pv, r_pvOut r = Some pv → Forall (stage_readable pv) (take 3 (stages cfg)).

Record heating_config (n : nat) (cfg : SystemConfig_T) : Prop := {
  hc_mode : currentOpMode cfg = eID_HEATING;
  hc_stages : length (stages cfg) = 4;
  hc_count : numIndoorStages cfg = Z.of_nat n
}.

(** The model points before the first interval. *)
Record points_at_start (cfg : SystemConfig_T) (s : Z) (m : ModelPoints) : Prop := {
  ps_config : mp_systemConfig m = Some cfg;
  ps_seq : mp_systemConfig_seqNum m = s;
  ps_outputs : is_Some (mp_vOutputs m);
  ps_on : is_Some (mp_systemOn m);
  ps_cycle : is_Some (mp_cycleInfo m)
}.

(** ** The invariant *)

Lemma reset_ok w : heat_ok NoLoad w → wp (IndoorHeating.reset 1 2 3) (moves (λ L, L = NoLoad) w) w.
Proof. intros H. open_args. open_heat H. wrun. close_heat NoLoad. Qed.

Section heating.
Context (n : nat) (cfg : SystemConfig_T) (s : Z).
Hypothesis Hn : 1 <= n <= 3.
Hypothesis Hcfg : heating_config n cfg.

(** The model points at a level. *)
Record points_at (L : Level) (m : ModelPoints) : Prop := {
  pa_outputs : ∃ vo, mp_vOutputs m = Some vo
    ∧ indoorStages vo = (λ i, output_of (status_at L i)) <$> [0; 1; 2];
  pa_on : mp_systemOn m = Some (on_of L);
  pa_cycle : ∃ ci, mp_cycleInfo m = Some ci ∧ mode ci = mode_of L
}.

(** Before its first run the controller has not seen the configuration. *)
Definition heating_inv (seq : Z) (p : Plant) : Prop :=
  points_at_start cfg s (p_points p)
  ∧ if decide (seq = s)
    then ∃ L, level_lt n L ∧ heat_stages L (p_stages p) ∧ points_at L (p_points p)
    else heat_stages NoLoad (p_stages p).

Lemma stage_defined_readable pv st : stage_readable pv st → stage_defined pv st.
Proof.
  intros (Ht1 & Ht2 & [t1 E1] & [t2 E2]). split; [exists t1|exists t2]; (split; [done|]).
  - eapply calculateOnTime_pos; [|done]. done.
  - eapply calculateOffTime_pos; [|done]. done.
Qed.

Lemma clamp_output st : clamp (output_of st) = output_of st.
Proof. by destruct st as [|[]|]. Qed.


(** *** One call *)

(** The controller runs on a heater at a level, or resets one that is off. *)
Lemma Control_body_ok seq w :
  systemConfig (w_args w) = cfg → args_defined (w_args w) →
  (if decide (seq = s) then ∃ L, level_lt n L ∧ heat_ok L w else heat_stages NoLoad (w_stages w)) →
  wp (Control_body (IndoorHeating.IndoorHeating 1 2 3) seq s false)
    (λ r w', r = (s, true) ∧ ∃ L, level_lt n L ∧ heat_ok L w') w.
Proof.
  intros Hw D H. unfold Control_body. apply wp_the_args.
  change (@getOperatingMode _) with eID_HEATING. rewrite Hw, (hc_mode _ _ Hcfg), Z.eqb_refl.
  assert (∀ L w', level_lt n L → heat_ok L w' → args_defined (w_args w') →
    numIndoorStages (systemConfig (w_args w')) = Z.of_nat n →
    wp (ok ← IndoorHeating.executeActive 1 2 3; ret (s, ok))
      (λ r w'', r = (s, true) ∧ ∃ L, level_lt n L ∧ heat_ok L w'') w') as Hrun.
  { intros L w' HL H' D' Hc. apply wp_bind.
    eapply wp_mono; [by apply (executeActive_ok n L)|]. intros ok w'' (-> & L' & ? & ? & _).
    apply wp_ret. split; [done|]. by exists L'. }
  apply wp_bind. case_decide as Hs.
  - subst seq. rewrite Z.eqb_refl. destruct H as (L & HL & H). apply wp_ret.
    apply (Hrun L); [done..|]. by rewrite Hw, (hc_count _ _ Hcfg).
  - rewrite (proj2 (Z.eqb_neq s seq)) by congruence. cbn [negb orb].
    do 3 (apply wp_bind, wp_modify). apply wp_bind.
    eapply wp_mono; [apply reset_ok; split; [done|by constructor]|].
    intros [] w' (L & -> & H' & K). apply wp_ret. apply (Hrun NoLoad); [done..|by eapply kept_defined|].
    rewrite (k_config _ _ K). cbn. by rewrite Hw, (hc_count _ _ Hcfg).
Qed.

(** *** One interval *)

Lemma call_run {A} a (m : W A) l f x w :
  m (MkWorld a (S f) l) = Some (x, w) → call a m l f = Some (x, w_args w, w_stages w).
Proof. unfold call. by intros ->. Qed.

Lemma clamp_levels L : clamp <$> ((λ i, output_of (status_at L i)) <$> [0; 1; 2])
                       = (λ i, output_of (status_at L i)) <$> [0; 1; 2].
Proof. cbn [fmap list_fmap]. by rewrite !clamp_output. Qed.

Lemma args_defined_readable a :
  systemConfig a = cfg → Forall (stage_readable (pvOut a)) (take 3 (stages cfg)) → args_defined a.
Proof.
  intros <- H. pose proof (hc_stages _ _ Hcfg) as Hl. unfold args_defined.
  destruct (stages (systemConfig a)) as [|s0 [|s1 [|s2 [|s3 [|]]]]]; try done.
  cbn in H. apply Forall_cons in H as [? H]. apply Forall_cons in H as [? H].
  apply Forall_cons in H as [? _].
  exists s0, s1, s2, s3. split; [done|]. split_and!; by apply stage_defined_readable.
Qed.

(** What the controller leaves, from the arguments it filled in. *)
Lemma points_after L m a :
  points_at_start cfg s m → heat_args L a →
  let m' := write_systemOn (systemOn a) (write_cycleInfo (cycleInfo a) (write_vOutputs (vOutputs a) m)) in
  points_at_start cfg s m' ∧ points_at L m'.
Proof.
  intros [] []. split.
  - by constructor.
  - constructor; cbn.
    + eexists. split; [done|]. cbn [indoorStages validate]. rewrite ha_outputs. apply clamp_levels.
    + by rewrite ha_on.
    + by eexists.
Qed.

(** The readings leave the outputs of the stages alone. *)
Lemma refresh_start r m : points_at_start cfg s m → points_at_start cfg s (refresh r m).
Proof. intros []. constructor; cbn; [done..|by apply fmap_is_Some|done|done]. Qed.

Lemma refresh_at r L m : points_at L m → points_at L (refresh r m).
Proof.
  intros [(vo & Hv & Ho) ? ?]. constructor; cbn; [|done..]. rewrite Hv. cbn. by eexists.
Qed.

Lemma heating_inv_refresh r seq p :
  heating_inv seq p → heating_inv seq (MkPlant (refresh r (p_points p)) (p_stages p) (p_frame p)).
Proof.
  intros [H1 H2]. split; [by apply refresh_start|]. case_decide; cbn; [|done].
  destruct H2 as (L & ? & ? & ?). exists L. split_and!; [done..|by apply refresh_at].
Qed.

Lemma heating_step_ok r seq p :
  reading_ok cfg r → heating_inv seq p →
  ∃ seq' p', heating_step r seq p = Some (seq', p') ∧ heating_inv seq' p'
    ∧ (seq = s ∨ complete r → seq' = s).
Proof.
  intros Hr H. apply (heating_inv_refresh r) in H. unfold heating_step, Control_execute.
  cbn [p_points p_stages p_frame] in *.
  destruct H as [H1 H2]. destruct H1 as [Hc Hseq [vo Hv] [on Ho] [ci Hi]] eqn:E1.
  cbn in Hc, Hseq, Hv, Ho, Hi. cbn [refresh mp_systemConfig mp_pvOut mp_vOutputs
    mp_equipmentBeginTimes mp_systemOn mp_cycleInfo mp_operatingModeChanged mp_whiteBox
    mp_systemConfig_seqNum]. rewrite Hc, Hv, Ho, Hi, Hseq.
  assert (¬ complete r → seq = s ∨ complete r → seq = s) as Hnot by tauto.
  destruct (r_pvOut r) as [pv|] eqn:Epv;
    [|do 2 eexists; split; [done|]; split; [done|]; apply Hnot; unfold complete; rewrite Epv;
      by intros [[? ?] _]].
  destruct (r_times r) as [et|] eqn:Eet;
    [|do 2 eexists; split; [done|]; split; [done|]; apply Hnot; unfold complete; rewrite Eet;
      by intros (_ & [? ?] & _)].
  destruct (r_whiteBox r) as [wb|] eqn:Ewb;
    [|do 2 eexists; split; [done|]; split; [done|]; apply Hnot; unfold complete; rewrite Ewb;
      by intros (_ & _ & [? ?])].
  set (a := MkArgs pv cfg (r_tick r) (r_interval r) et wb vo ci on).
  set (w := MkWorld a (S (p_frame p)) (p_stages p)).
  assert (args_defined a) as D by (apply args_defined_readable; [done|by apply Hr]).
  assert (if decide (seq = s) then ∃ L, level_lt n L ∧ heat_ok L w
          else heat_stages NoLoad (w_stages w)) as Hw.
  { revert H2. case_decide; [|done]. intros (L & HL & Hs & [(vo' & Hv' & Ho') Ho'' (ci' & Hi' & Hm)]).
    exists L. split; [done|]. split; [done|]. cbn in Hv', Ho'', Hi'. rewrite Hv in Hv'.
    rewrite Ho in Ho''. rewrite Hi in Hi'. simplify_eq. by constructor. }
  destruct (proj1 (wp_run _ _ _) (Control_body_ok seq w eq_refl D Hw))
    as ([seq' ok] & w' & Hrun & [= -> ->] & L & HL & Hs & Ha).
  rewrite (call_run a _ _ _ _ _ Hrun), (hc_mode _ _ Hcfg). cbn [getOperatingMode].
  change (eID_HEATING =? _)%Z with true. cbv match.
  do 2 eexists. split; [done|]. clear E1.
  destruct (points_after L (refresh r (p_points p)) (w_args w')) as [P1 P2]; [by constructor|done|].
  split; [|done]. split; [done|]. rewrite decide_True by done. exists L. by split_and!.
Qed.

Lemma heating_run_ok rs seq p :
  Forall (reading_ok cfg) rs → heating_inv seq p →
  ∃ seq' p', heating_run rs seq p = Some (seq', p') ∧ heating_inv seq' p'
    ∧ (seq = s ∨ Exists complete rs → seq' = s).
Proof.
  intros Hr. revert seq p. induction Hr as [|r rs Hr _ IH]; intros seq p H.
  - do 2 eexists. split; [done|split; [done|]]. by intros [? | ?%Exists_nil].
  - cbn. destruct (heating_step_ok r seq p Hr H) as (seq1 & p1 & -> & H1 & E1).
    destruct (IH seq1 p1 H1) as (seq2 & p2 & -> & H2 & E2).
    do 2 eexists. split; [done|split; [done|]]. rewrite Exists_cons. tauto.
Qed.
End heating.

Lemma started_idle : heat_stages NoLoad started.
Proof.
  assert (started = ltac:(let l := eval vm_compute in started in exact l)) as -> by by vm_compute.
  do 4 eexists. split; [done|]. repeat split; cbn; apply heater_indoor.
Qed.

(** ** The property *)


Module Demo.
Definition stage3 (lo hi : Z) : Stage_T := MkStageT (f32 lo 0) (f32 hi 0) 0 0 300 300 e3CPH.

Definition config3 : SystemConfig_T :=
  MkSystemConfig [stage3 0 100; stage3 100 200; stage3 200 300; stage3 0 1] eID_HEATING 0 0 0 3 3 0
    (f32 1 0) (f32 1 0) (f32 300 0).

Definition reading (sec pv : Z) : Reading :=
  MkReading (MkTime sec 0) (MkTime sec 0) (Some (f32 pv 0)) (Some zero_times)
    (Some (MkWhiteBox false false)) 0 0.

Definition points : ModelPoints :=
  MkModelPoints (Some config3) 2 None (Some zero_outputs) None (Some false)
    (Some (cycleInfo no_args)) None None (Some 0%Z) None.

(** A reading that is not valid, a load that needs the third stage, and the end
    of the on cycle of that stage. *)
Definition readings : list Reading :=
  [MkReading (MkTime 2 0) (MkTime 2 0) None None None 0 0;
   reading 1000 250; reading 1002 250; reading 1004 250; reading 1700 250].

Lemma readings_ok : Forall (reading_ok config3) readings.
Proof.
  repeat (apply Forall_cons; split;
    [intros pv E; cbn in E; first [discriminate|injection E as <-; apply (bool_decide_unpack _); by vm_compute]|]).
  apply Forall_nil. done.
Qed.
End Demo.


(** ** What the property leaves out

    A change of the operating mode while a stage cycles: [executeOff] sends
    Fsm_evOffModeRequest, and the state OnTime first runs its action
    checkOnTime, which reads the arguments of an earlier call through the
    pointer that the stage kept. *)
Module ModeChange.
Definition config_off : SystemConfig_T :=
  MkSystemConfig (stages Demo.config3) OperatingMode_eOFF 0 0 0 0 0 0 (f32 1 0) (f32 1 0) (f32 1 0).

Definition with_config (cfg : SystemConfig_T) (seq : Z) (m : ModelPoints) : ModelPoints :=
  MkModelPoints (Some cfg) seq (mp_pvOut m) (mp_vOutputs m) (mp_equipmentBeginTimes m)
    (mp_systemOn m) (mp_cycleInfo m) (mp_operatingModeChanged m) (mp_whiteBox m)
    (mp_systemForcedOffRefCnt m) (mp_relayOutputs m).

Example mode_change_reads_stale_args :
  match heating_run [Demo.reading 1000 50] SEQUENCE_NUMBER_UNKNOWN (MkPlant Demo.points started 0) with
  | Some (seq, p) =>
      is_Some (mp_whiteBox (p_points p))
      ∧ Control_execute (IndoorHeating.IndoorHeating 1 2 3) seq (MkTime 1002 0) (MkTime 1002 0)
          (MkPlant (with_config config_off 3 (p_points p)) (p_stages p) (p_frame p)) = None
  | None => False
  end.
Proof. vm_compute. split; [by eexists|done]. Qed.

(** The same for a new configuration in the same mode, which resets the stages. *)
Example reset_reads_stale_args :
  match heating_run [Demo.reading 1000 50] SEQUENCE_NUMBER_UNKNOWN (MkPlant Demo.points started 0) with
  | Some (seq, p) =>
      is_Some (mp_whiteBox (p_points p))
      ∧ Control_execute (IndoorHeating.IndoorHeating 1 2 3) seq (MkTime 1002 0) (MkTime 1002 0)
          (MkPlant (with_config Demo.config3 3 (p_points p)) (p_stages p) (p_frame p)) = None
  | None => False
  end.
Proof. vm_compute. split; [by eexists|done]. Qed.
End ModeChange.
