(* ===== verification/Compressor.v ===== *)
(** * The compressor over time

    The run of the component Control for cooling, together with the component
    that drives the relays and records when they switch.  The compressor is
    never turned on again before its minimum time off. *)

From Stdlib Require Import ZArith Lia SpecFloat.
From S2P Require Import Prelude DutyCycle StageFsm StageSpec Equipment EquipmentSpec Heating.
Local Open Scope pim_scope.

(** ** Intervals *)

(** What the other components write in an interval: the load and the fans. *)
Record Sample := MkSample {
  c_interval : Precision_T;
  c_pvOut : option float;
  c_indoorFan : Z;
  c_indoorFanCont : Z
}.

Definition normal : WhiteBox_T := MkWhiteBox false false.

Definition cooling_refresh (c : Sample) (m : ModelPoints) : ModelPoints :=
  refresh (MkReading (c_interval c) (c_interval c) (c_pvOut c) (mp_equipmentBeginTimes m)
             (Some normal) (c_indoorFan c) (c_indoorFanCont c)) m.

(** Control for cooling, then the relays; the result is the relay Y1. *)
Definition cooling_step (c : Sample) (seq : Z) (h : HvacRelayOutputs) (p : Plant) :
    option (bool * Z * HvacRelayOutputs * Plant) :=
  match Control_execute (Cooling.Cooling 0) seq (c_interval c) (c_interval c)
          (MkPlant (cooling_refresh c (p_points p)) (p_stages p) (p_frame p)) with
  | Some (true, seq', p') =>
      match HvacRelayOutputs_execute h (c_interval c) (p_points p') with
      | Some (h', m') => Some (m_y1 h', seq', h', MkPlant m' (p_stages p') (p_frame p'))
      | None => None
      end
  | _ => None
  end.

Fixpoint cooling_run (cs : list Sample) (seq : Z) (h : HvacRelayOutputs) (p : Plant) :
    option (list (Precision_T * bool)) :=
  match cs with
  | [] => Some []
  | c :: cs =>
      match cooling_step c seq h p with
      | Some (y, seq', h', p') =>
          match cooling_run cs seq' h' p' with
          | Some trace => Some ((c_interval c, y) :: trace)
          | None => None
          end
      | None => None
      end
  end.

Definition hvac_start : HvacRelayOutputs := MkHvac true true true.

(** ** Operations on the stage *)

Definition cooler (k : Kind) : Prop := k = BasicCooling.

Definition level_of (st : Status) : Level :=
  match st with Running on => Stage 0 on | _ => NoLoad end.

(** The stage of the compressor, since when it cycles, and what it writes. *)
Definition cool_ok (st : Status) (t0 : Precision_T) (w : World) : Prop :=
  ∃ b rest, w_stages w = b :: rest ∧ stage_ok cooler 0 st b ∧ m_startTime b = t0
    ∧ outdoorStages (vOutputs (w_args w)) = [output_of st]
    ∧ mode (cycleInfo (w_args w)) = mode_of (level_of st)
    ∧ systemOn (w_args w) = on_of (level_of st).

(** The inputs of the stage. *)
Definition cool_inputs (st0 : Stage_T) (a : Args_T) : Prop :=
  whiteBox a = normal ∧ stage_defined (pvOut a) st0 ∧ ∃ more, stages (systemConfig a) = st0 :: more.

Record same_inputs (a a' : Args_T) : Prop := {
  si_pv : pvOut a' = pvOut a;
  si_config : systemConfig a' = systemConfig a;
  si_interval : currentInterval a' = currentInterval a;
  si_times : equipmentBeginTimes a' = equipmentBeginTimes a;
  si_white : whiteBox a' = whiteBox a;
  si_indoor : indoorStages (vOutputs a') = indoorStages (vOutputs a)
}.

#[global] Instance same_inputs_preorder : PreOrder same_inputs.
Proof. split; [by constructor|]. intros a1 a2 a3 [] []. constructor; by etrans. Qed.

Ltac run_cool H D :=
  open_args; unfold cool_ok in H; cbn in H;
  destruct H as (b & rest & ? & [?] & ? & ? & ? & ?); unfold cooler in *; open_stage b;
  destruct_and?; subst;
  unfold cool_inputs, normal in D; cbn in D;
  destruct D as (D1 & [(? & ? & ?) (? & ? & ?)] & more & ?); cbn in * |-; simplify_eq/=; wrun.

Ltac close_cool :=
  split; [do 2 eexists; split; [reflexivity|]; repeat split; cbn; eauto|by constructor].

Lemma cool_requestOn st0 t0 w :
  cool_ok Idle t0 w → cool_inputs st0 (w_args w) →
  wp (requestOn 0 true) (λ _ w', cool_ok (Running true) (currentInterval (w_args w)) w'
                                 ∧ same_inputs (w_args w) (w_args w')) w.
Proof. intros H D. run_cool H D. close_cool. Qed.

Lemma cool_requestOff st0 on t0 w :
  cool_ok (Running on) t0 w → cool_inputs st0 (w_args w) →
  wp (requestOff 0 true) (λ _ w', cool_ok Idle t0 w' ∧ same_inputs (w_args w) (w_args w')) w.
Proof. intros H D. destruct on; run_cool H D; close_cool. Qed.

Lemma cool_execute_idle st0 t0 w :
  cool_ok Idle t0 w → cool_inputs st0 (w_args w) →
  wp (execute 0) (λ _ w', cool_ok Idle t0 w' ∧ same_inputs (w_args w) (w_args w')) w.
Proof. intros H D. run_cool H D. close_cool. Qed.

Lemma cool_execute_on st0 t0 w :
  cool_ok (Running true) t0 w → cool_inputs st0 (w_args w) →
  wp (execute 0) (λ _ w',
    (cool_ok (Running true) t0 w' ∨ cool_ok (Running false) (currentInterval (w_args w)) w')
    ∧ same_inputs (w_args w) (w_args w')) w.
Proof.
  intros H D. run_cool H D; (split; [|by constructor]);
    [right|left]; (do 2 eexists; split; [reflexivity|]); repeat split; cbn; eauto.
Qed.

(** The stage turns on by itself only at the end of its off cycle. *)
Lemma cool_execute_off st0 t0 w :
  cool_ok (Running false) t0 w → cool_inputs st0 (w_args w) →
  wp (execute 0) (λ _ w',
    (cool_ok (Running false) t0 w'
     ∨ cool_ok (Running true) (currentInterval (w_args w)) w'
       ∧ ∃ t, calculateOffTime (pvOut (w_args w)) (minOffTime st0) (cph st0) (lowerBound st0)
                (upperBound st0) = Some t
              ∧ expiredPrecision t0 (MkTime t 0) (currentInterval (w_args w)) = true)
    ∧ same_inputs (w_args w) (w_args w')) w.
Proof.
  intros H D. run_cool H D; (split; [|by constructor]);
    [right; split; [|by eauto]|left]; (do 2 eexists; split; [reflexivity|]); repeat split; cbn; eauto.
Qed.

(** ** The controller *)

(** A stage in status [st] since [t0] may be turned on. *)
Definition may_turn_on (st0 : Stage_T) (a : Args_T) (st : Status) (t0 : Precision_T) : Prop :=
  match st with
  | Idle =>
      expiredPrecision (outdoorUnitBeginOffTime (equipmentBeginTimes a))
        (MkTime OPTION_STORM_MIN_COMPRESSOR_OFF_TIME_SEC 0) (currentInterval a) = true
  | Running false =>
      ∃ t, calculateOffTime (pvOut a) (minOffTime st0) (cph st0) (lowerBound st0) (upperBound st0)
           = Some t
           ∧ expiredPrecision t0 (MkTime t 0) (currentInterval a) = true
  | _ => True
  end.

(** What one call may do: an off cycle goes on, or begins now. *)
Definition cool_next (st0 : Stage_T) (a : Args_T) (st : Status) (t0 : Precision_T)
    (w' : World) : Prop :=
  ∃ st' t0', cool_ok st' t0' w' ∧
    match st' with
    | Idle => True
    | Running true => may_turn_on st0 a st t0
    | Running false => t0' = currentInterval a ∨ (st = Running false ∧ t0' = t0)
    | Lent => False
    end.

Lemma cool_inputs_same st0 a a' : same_inputs a a' → cool_inputs st0 a → cool_inputs st0 a'.
Proof. intros [] H. unfold cool_inputs in *. by rewrite si_pv0, si_config0, si_white0. Qed.

Lemma cool_stage st t0 w :
  cool_ok st t0 w → st ≠ Lent →
  ∃ b, w_stages w !! 0 = Some b ∧ isActive b = bool_decide (st ≠ Idle).
Proof.
  intros (b & rest & Hs & Hb & _) HL. exists b. rewrite Hs. split; [done|].
  unfold isActive, isInActive. pose proof (so_state _ _ _ _ Hb) as H.
  destruct st as [|[]|]; cbn in H; [by rewrite H|destruct H as [-> _]; done..|done].
Qed.

(** The stage turns on while it is idle, and its first run. *)
Lemma cool_execute st0 st t0 w :
  cool_ok st t0 w → st ≠ Lent → cool_inputs st0 (w_args w) →
  wp (execute 0) (λ _ w', cool_next st0 (w_args w) st t0 w' ∧ same_inputs (w_args w) (w_args w')) w.
Proof.
  intros H HL D. destruct st as [|[]|]; [..|done].
  - eapply wp_mono; [by eapply cool_execute_idle|]. intros _ w' [H' K]. split; [|done].
    by exists Idle, t0.
  - eapply wp_mono; [by eapply cool_execute_on|]. intros _ w' [[H'|H'] K]; (split; [|done]).
    + by exists (Running true), t0.
    + exists (Running false), (currentInterval (w_args w)). auto.
  - eapply wp_mono; [by eapply cool_execute_off|]. intros _ w' [[H'|[H' T]] K]; (split; [|done]).
    + exists (Running false), t0. auto.
    + by exists (Running true), (currentInterval (w_args w)).
Qed.

Lemma cool_singleStage st0 st t0 w :
  cool_ok st t0 w → st ≠ Lent → cool_inputs st0 (w_args w) →
  wp (Cooling.singleStage 0) (λ _ w',
    (cool_ok st t0 w' ∨ cool_ok Idle t0 w' ∧ st ≠ Idle
     ∨ st = Idle ∧ may_turn_on st0 (w_args w) Idle t0
       ∧ cool_ok (Running true) (currentInterval (w_args w)) w')
    ∧ same_inputs (w_args w) (w_args w')) w.
Proof.
  intros H HL D. unfold Cooling.singleStage. apply wp_the_args.
  destruct (cool_stage _ _ _ H HL) as (b & Hb & Ha). eapply wp_read_stage; [done|].
  destruct (negb _ && _) eqn:E1.
  - apply andb_prop in E1 as [E1%negb_true_iff _]. assert (st = Idle) as ->.
    { destruct H as (? & ? & _ & _ & _ & _ & _ & Hon). rewrite E1 in Hon. by destruct st as [|[]|]. }
    apply wp_bind. destruct (off_long_enough _ _ _) eqn:Eoff.
    + eapply wp_mono; [by eapply cool_requestOn|]. intros _ w' [H' K]. apply wp_ret.
      split; [|done]. right. right. split_and!; [done| |done].
      unfold off_long_enough in Eoff. rewrite (proj1 D) in Eoff. by rewrite orb_false_r in Eoff.
    + apply wp_ret, wp_ret. split; [by left|done].
  - rewrite Ha. destruct (bool_decide _ && _) eqn:E2.
    + apply andb_prop in E2 as [Hst%bool_decide_eq_true _]. apply wp_bind.
      assert (∃ on, st = Running on) as [on ->] by (destruct st; [done|by eexists|done]).
      unfold try_requestOff. apply wp_the_args. eapply wp_read_stage; [done|].
      destruct D as (D1 & D2 & more & D3). apply wp_bind.
      eapply wp_lift_opt; [unfold on_long_enough; by rewrite D3|].
      destruct (_ || _).
      * eapply wp_mono; [eapply cool_requestOff; [done|by split_and!; [..|eexists]]|].
        intros _ w' [H' K]. apply wp_ret. split; [|done]. right. left. done.
      * apply wp_ret, wp_ret. split; [by left|done].
    + apply wp_ret. split; [by left|done].
Qed.

Lemma cool_next_eq st0 a a' st t0 w' :
  pvOut a' = pvOut a → currentInterval a' = currentInterval a →
  equipmentBeginTimes a' = equipmentBeginTimes a →
  cool_next st0 a' st t0 w' → cool_next st0 a st t0 w'.
Proof.
  intros si_pv0 si_interval0 si_times0 (st' & t0' & H & Hn). exists st', t0'. split; [done|].
  destruct st' as [|[]|]; [done| |by rewrite <-si_interval0|done].
  unfold may_turn_on in *. destruct st as [|[]|]; [|done| |done].
  - by rewrite <-si_interval0, <-si_times0.
  - by rewrite <-si_interval0, <-si_pv0.
Qed.

Lemma cool_next_same st0 a a' st t0 w' :
  same_inputs a a' → cool_next st0 a' st t0 w' → cool_next st0 a st t0 w'.
Proof. intros []. by apply cool_next_eq. Qed.

Lemma cool_executeActive st0 st t0 w :
  numCompressorStages (systemConfig (w_args w)) = 1%Z →
  cool_ok st t0 w → st ≠ Lent → cool_inputs st0 (w_args w) →
  wp (Cooling.executeActive 0) (λ ok w',
    ok = true ∧ cool_next st0 (w_args w) st t0 w' ∧ same_inputs (w_args w) (w_args w')) w.
Proof.
  intros Hc H HL D. unfold Cooling.executeActive. apply wp_the_args. rewrite Hc.
  change (1 =? 1)%Z with true. cbv match. apply wp_bind.
  eapply wp_mono; [by eapply cool_singleStage|]. intros _ w' [H' K]. apply wp_bind.
  pose proof (cool_inputs_same _ _ _ K D) as D'.
  destruct H' as [H'|[[H' Hst]|(-> & Hon & H')]].
  - eapply wp_mono; [by eapply cool_execute|]. intros _ w'' [H'' K']. apply wp_ret.
    split_and!; [done|by eapply cool_next_same|by etrans].
  - eapply wp_mono; [by eapply cool_execute_idle|]. intros _ w'' [H'' K']. apply wp_ret.
    split_and!; [done|by exists Idle, t0|by etrans].
  - eapply wp_mono; [by eapply cool_execute_on|]. intros _ w'' [H'' K']. apply wp_ret.
    split_and!; [done| |by etrans]. destruct H'' as [H''|H''].
    + exists (Running true), (currentInterval (w_args w)). done.
    + exists (Running false), (currentInterval (w_args w')). split; [done|]. left.
      apply K.
Qed.

Lemma cool_reset t0 w :
  cool_ok Idle t0 w →
  wp (Cooling.reset 0) (λ _ w', cool_ok Idle t0 w' ∧ same_inputs (w_args w) (w_args w')) w.
Proof.
  intros H. open_args. unfold cool_ok in H. cbn in H.
  destruct H as (b & rest & ? & [?] & ? & ? & ? & ?). unfold cooler in *. open_stage b.
  subst. wrun. close_cool.
Qed.

Section cooling.
Context (cfg : SystemConfig_T) (s : Z) (st0 : Stage_T) (more : list Stage_T).
Hypothesis Hmode : currentOpMode cfg = eCOOLING.
Hypothesis Hcount : numCompressorStages cfg = 1%Z.
Hypothesis Hstages : stages cfg = st0 :: more.

(** The state of the stage before a call: at a status, or off and not yet
    synchronised with the configuration. *)
Definition cool_before (seq : Z) (st : Status) (t0 : Precision_T) (w : World) : Prop :=
  if decide (seq = s) then cool_ok st t0 w
  else st = Idle ∧ ∃ b rest, w_stages w = b :: rest ∧ stage_ok cooler 0 Idle b ∧ m_startTime b = t0.

Lemma cool_control seq st t0 w :
  systemConfig (w_args w) = cfg → whiteBox (w_args w) = normal →
  stage_defined (pvOut (w_args w)) st0 → st ≠ Lent → cool_before seq st t0 w →
  length (indoorStages (vOutputs (w_args w))) = 3 →
  wp (Control_body (Cooling.Cooling 0) seq s false) (λ r w',
    r = (s, true) ∧ cool_next st0 (w_args w) st t0 w'
    ∧ length (indoorStages (vOutputs (w_args w'))) = 3) w.
Proof.
  intros Hw Hwb Hd HL H Hlen. unfold Control_body. apply wp_the_args.
  change (@getOperatingMode _) with eCOOLING. rewrite Hw, Hmode, Z.eqb_refl.
  assert (∀ st t0 w', cool_ok st t0 w' → st ≠ Lent → cool_inputs st0 (w_args w') →
    systemConfig (w_args w') = cfg → length (indoorStages (vOutputs (w_args w'))) = 3 →
    wp (ok ← Cooling.executeActive 0; ret (s, ok))
      (λ r w'', r = (s, true) ∧ cool_next st0 (w_args w') st t0 w''
        ∧ length (indoorStages (vOutputs (w_args w''))) = 3) w') as Hrun.
  { intros st' t0' w' H' HL' D' Hc' Hl'. apply wp_bind.
    eapply wp_mono; [eapply cool_executeActive; [by rewrite Hc'|done..]|].
    intros ok w'' (-> & ? & K). apply wp_ret. rewrite (si_indoor _ _ K). done. }
  assert (∀ a, systemConfig a = cfg → whiteBox a = normal → pvOut a = pvOut (w_args w) →
    cool_inputs st0 a) as Hin.
  { intros a Ha1 Ha2 Ha3. unfold cool_inputs. rewrite Ha1, Ha2, Ha3. split_and!; [done..|by eexists]. }
  unfold cool_before in H. apply wp_bind. case_decide as Hs.
  - subst seq. rewrite Z.eqb_refl. apply wp_ret. apply Hrun; auto.
  - rewrite (proj2 (Z.eqb_neq s seq)) by congruence. cbn [negb orb].
    destruct H as [-> (b & rest & Hl & Hb & Ht)].
    do 3 (apply wp_bind, wp_modify). apply wp_bind.
    eapply wp_mono; [apply (cool_reset t0); by exists b, rest|].
    intros _ w' [H' K]. apply wp_ret. eapply wp_mono; [apply Hrun; [done..| | |]|].
    + apply Hin; [by rewrite (si_config _ _ K)|by rewrite (si_white _ _ K)|by rewrite (si_pv _ _ K)].
    + by rewrite (si_config _ _ K).
    + by rewrite (si_indoor _ _ K).
    + intros r w'' (-> & Hn & Hl''). split_and!; [done| |done].
      eapply cool_next_eq; [..|done]; by destruct K.
Qed.
End cooling.

(** ** The relays *)

Lemma hvac_ok h now m vo et x sysOn :
  mp_vOutputs m = Some vo → length (indoorStages vo) = 3 → outdoorStages vo = [x] →
  mp_equipmentBeginTimes m = Some et → mp_systemOn m = Some sysOn →
  mp_systemForcedOffRefCnt m = Some 0%Z →
  ∃ h' r et', HvacRelayOutputs_execute h now m
              = Some (h', write_relayOutputs r (write_equipmentBeginTimes et' m))
    ∧ m_y1 h' = (x >? 0)%Z ∧ y1 r = (x >? 0)%Z
    ∧ outdoorUnitBeginOffTime et'
      = if m_y1 h && negb (x >? 0)%Z then now else outdoorUnitBeginOffTime et.
Proof.
  intros Hv Hl Ho He Hs Hf. unfold HvacRelayOutputs_execute. rewrite Hv, He, Hs, Hf. cbn [default].
  rewrite !bool_decide_true by done. cbn [andb negb]. change (0 >? 0)%Z with false. cbv iota.
  unfold relays_of. destruct vo as [f fc [|i0 [|i1 [|i2 [|]]]] of_ outs sov]; try done.
  cbn in Ho. subst outs. cbn. do 3 eexists. split; [done|]. cbn. split_and!; [done..|].
  unfold STORM_DM_MP_VIRTUAL_OUTPUTS_OFF. by destruct (m_y1 h), (x >? 0)%Z, (m_w1 h), (i0 >? 0)%Z, sysOn, (m_systemOn h).
Qed.

(** ** One interval *)

Definition is_on (st : Status) : bool := bool_decide (st = Running true).

Lemma is_on_output st : st ≠ Lent → (output_of st >? 0)%Z = is_on st.
Proof. by destruct st as [|[]|]. Qed.

Section run.
Context (cfg : SystemConfig_T) (s : Z) (st0 : Stage_T) (more : list Stage_T).
Hypothesis Hmode : currentOpMode cfg = eCOOLING.
Hypothesis Hcount : numCompressorStages cfg = 1%Z.
Hypothesis Hstages : stages cfg = st0 :: more.
Hypothesis Hmin : in_range 32 (minOffTime st0).

(** The shortest time, in milliseconds, that the compressor must stay off. *)
Definition min_off (st0 : Stage_T) : Z :=
  1000 * Z.min OPTION_STORM_MIN_COMPRESSOR_OFF_TIME_SEC (effective_minimum (minOffTime st0) (cph st0)).

(** The model points between intervals; [B] is when the compressor was last
    turned off. *)
Record cool_points (B : Precision_T) (st : Status) (m : ModelPoints) : Prop := {
  cp_config : mp_systemConfig m = Some cfg;
  cp_seq : mp_systemConfig_seqNum m = s;
  cp_outputs : ∃ vo, mp_vOutputs m = Some vo ∧ length (indoorStages vo) = 3
                     ∧ outdoorStages vo = [output_of st];
  cp_on : is_Some (mp_systemOn m);
  cp_cycle : is_Some (mp_cycleInfo m);
  cp_forced : mp_systemForcedOffRefCnt m = Some 0%Z;
  cp_times : ∃ et, mp_equipmentBeginTimes m = Some et ∧ outdoorUnitBeginOffTime et = B
}.

(** The stage and the relay, which agree once the controller runs. *)
Definition cool_stage_inv (seq : Z) (h : HvacRelayOutputs) (p : Plant) (st : Status)
    (t0 : Precision_T) : Prop :=
  ∃ b rest, p_stages p = b :: rest ∧ m_startTime b = t0 ∧ stage_ok cooler 0 st b
    ∧ if decide (seq = s)
      then mp_systemOn (p_points p) = Some (on_of (level_of st))
           ∧ (∃ ci, mp_cycleInfo (p_points p) = Some ci ∧ mode ci = mode_of (level_of st))
           ∧ m_y1 h = is_on st
      else st = Idle.

(** At time [now], or later. *)
Definition cool_inv (B : Precision_T) (now : Z) (seq : Z) (h : HvacRelayOutputs) (p : Plant) : Prop :=
  ∃ st t0, st ≠ Lent ∧ cool_points B st (p_points p) ∧ cool_stage_inv seq h p st t0
    ∧ time_ok B ∧ (msec B <= now)%Z
    ∧ (st = Running false → time_ok t0 ∧ (msec B <= msec t0 <= now)%Z).

Definition sample_ok (c : Sample) : Prop :=
  time_ok (c_interval c) ∧ ∀ pv, c_pvOut c = Some pv → stage_readable pv st0.

(** The stage may be turned on only when the compressor was off long enough. *)
Lemma may_turn_on_spaced a B st t0 now :
  st ≠ Running true → st ≠ Lent → time_ok B → (msec B <= msec now)%Z → time_ok now →
  (st = Running false → time_ok t0 ∧ (msec B <= msec t0 <= msec now)%Z) →
  outdoorUnitBeginOffTime (equipmentBeginTimes a) = B → currentInterval a = now →
  may_turn_on st0 a st t0 → (min_off st0 <= msec now - msec B)%Z.
Proof.
  intros Hst HL HB Hle Hnow Ht0 HaB Hanow. unfold min_off, OPTION_STORM_MIN_COMPRESSOR_OFF_TIME_SEC.
  destruct st as [|[]|]; [|done| |done]; cbn [may_turn_on]; rewrite ?HaB, ?Hanow.
  - rewrite expired_msec by (cbn; done || lia). intros H%bool_decide_eq_true. unfold msec in H at 1.
    unfold OPTION_STORM_MIN_COMPRESSOR_OFF_TIME_SEC in H. cbn in H. lia.
  - destruct (Ht0 eq_refl) as [Hok Hb]. intros (t & Ht & H).
    pose proof (calculateOffTime_bounds _ _ _ _ _ _ Hmin Ht) as Hbd.
    pose proof (effective_minimum_nonneg (minOffTime st0) (cph st0) (proj1 Hmin)).
    rewrite expired_msec in H by (cbn; done || lia). apply bool_decide_eq_true in H.
    unfold msec in H at 1. cbn in H. lia.
Qed.

(** One interval of the plant, when the controller reads all of its inputs. *)
Lemma cool_step_control c pv B seq h p st t0 :
  sample_ok c → c_pvOut c = Some pv → st ≠ Lent →
  cool_points B st (p_points p) → cool_stage_inv seq h p st t0 →
  ∃ p' a,
    Control_execute (Cooling.Cooling 0) seq (c_interval c) (c_interval c)
      (MkPlant (cooling_refresh c (p_points p)) (p_stages p) (p_frame p)) = Some (true, s, p')
    ∧ outdoorUnitBeginOffTime (equipmentBeginTimes a) = B ∧ currentInterval a = c_interval c
    ∧ ∃ st' t0' b rest, st' ≠ Lent
      ∧ cool_points B st' (p_points p') ∧ p_stages p' = b :: rest ∧ m_startTime b = t0'
      ∧ stage_ok cooler 0 st' b ∧ mp_systemOn (p_points p') = Some (on_of (level_of st'))
      ∧ (∃ ci, mp_cycleInfo (p_points p') = Some ci ∧ mode ci = mode_of (level_of st'))
      ∧ match st' with
        | Running true => may_turn_on st0 a st t0
        | Running false => t0' = c_interval c ∨ (st = Running false ∧ t0' = t0)
        | _ => True
        end.
Proof.
  intros [_ Hr] Hpv HL [Hc Hseq (vo & Hv & Hl & Ho) [on Hon] [ci Hci] Hf (et & He & HB)]
    (b & rest & Hs & Ht & Hb & Hst).
  unfold Control_execute. cbn [p_points p_stages p_frame].
  cbn [cooling_refresh refresh mp_systemConfig mp_pvOut mp_vOutputs mp_equipmentBeginTimes mp_systemOn
    mp_cycleInfo mp_operatingModeChanged mp_whiteBox mp_systemConfig_seqNum r_pvOut r_times
    r_whiteBox r_indoorFan r_indoorFanCont r_tick r_interval].
  rewrite Hc, Hv, Hon, Hci, He, Hpv, Hseq. cbn [fmap option_fmap option_map].
  set (vo' := set_indoorFan _ _).
  set (a := MkArgs pv cfg (c_interval c) (c_interval c) et normal vo' ci on).
  set (w := MkWorld a (S (p_frame p)) (p_stages p)).
  assert (cool_before s seq st t0 w) as Hbefore.
  { unfold cool_before. case_decide.
    - destruct Hst as (Hon' & (ci' & Hci' & Hm) & _). rewrite Hon in Hon'. rewrite Hci in Hci'.
      simplify_eq. by exists b, rest.
    - split; [done|]. subst st. by exists b, rest. }
  destruct (proj1 (wp_run _ _ _)
    (cool_control cfg s st0 more Hmode Hcount Hstages seq st t0 w eq_refl eq_refl
      (stage_defined_readable _ _ (Hr pv Hpv)) HL Hbefore Hl))
    as ([seq' ok] & w' & Hrun & [= -> ->] & (st' & t0' & (b' & rest' & Hs' & Hb' & Ht' & Ho' & Hm' & Hon') & Hn) & Hl').
  rewrite (call_run a _ _ _ _ _ Hrun), Hmode. cbn [getOperatingMode].
  change (eCOOLING =? _)%Z with true. cbv match.
  eexists _, a. split; [done|]. split; [done|]. split; [done|].
  exists st', t0', b', rest'. assert (st' ≠ Lent) by (by destruct st' as [|[]|]).
  split; [done|]. split.
  { constructor; cbn; [done..| |done|done|done|by eexists].
    eexists. split; [done|]. cbn. rewrite length_fmap. split; [done|]. rewrite Ho'. cbn.
    by rewrite clamp_output. }
  split_and!; [done..|by rewrite Hon'|by eexists|by destruct st' as [|[]|]].
Qed.

(** The relays after the controller. *)
Lemma cool_points_hvac h now B st m :
  st ≠ Lent → cool_points B st m →
  ∃ h' m', HvacRelayOutputs_execute h now m = Some (h', m') ∧ m_y1 h' = is_on st
    ∧ cool_points (if m_y1 h && negb (is_on st) then now else B) st m'
    ∧ mp_systemOn m' = mp_systemOn m ∧ mp_cycleInfo m' = mp_cycleInfo m.
Proof.
  intros HL [Hc Hseq (vo & Hv & Hl & Ho) [on Hon] Hci Hf (et & He & HB)].
  destruct (hvac_ok h now m vo et _ on Hv Hl Ho He Hon Hf) as (h' & r & et' & -> & Hy & _ & HB').
  rewrite is_on_output in Hy, HB' by done. do 2 eexists. split; [done|]. split; [done|].
  split_and!; [|done..]. constructor; cbn; [done|done|by eauto|by eexists|done|done|].
  eexists. split; [done|]. by rewrite HB', HB.
Qed.

Definition next_off (h : HvacRelayOutputs) (y : bool) (now B : Precision_T) : Precision_T :=
  if m_y1 h && negb y then now else B.

Lemma next_off_bounds h y now B :
  time_ok now → time_ok B → (msec B <= msec now)%Z →
  time_ok (next_off h y now B) ∧ (msec (next_off h y now B) <= msec now)%Z.
Proof. intros. unfold next_off. destruct (_ && _); (split; [done|lia]). Qed.

Lemma next_off_off h y now B : m_y1 h = false → next_off h y now B = B.
Proof. unfold next_off. by intros ->. Qed.

(** A stage that is not idle has a controller that runs, and the relay agrees. *)
Lemma cool_stage_sync seq h p st t0 :
  cool_stage_inv seq h p st t0 → st ≠ Idle → seq = s ∧ m_y1 h = is_on st.
Proof. intros (? & ? & _ & _ & _ & H) Hst. case_decide; [|done]. by split; [|apply H]. Qed.

(** The result of one interval. *)
Definition cool_result (c : Sample) (B : Precision_T) (seq : Z) (h : HvacRelayOutputs) (p : Plant) :
    Prop :=
  ∃ y seq' h' p', cooling_step c seq h p = Some (y, seq', h', p') ∧ m_y1 h' = y
    ∧ (m_y1 h = false → y = true → (min_off st0 <= msec (c_interval c) - msec B)%Z)
    ∧ cool_inv (next_off h y (c_interval c) B) (msec (c_interval c)) seq' h' p'.

(** The controller reads its inputs. *)
Lemma cooling_step_reads c pv B seq h p st t0 :
  sample_ok c → c_pvOut c = Some pv → st ≠ Lent →
  cool_points B st (p_points p) → cool_stage_inv seq h p st t0 →
  time_ok B → (msec B <= msec (c_interval c))%Z →
  (st = Running false → time_ok t0 ∧ (msec B <= msec t0 <= msec (c_interval c))%Z) →
  cool_result c B seq h p.
Proof.
  intros Hc Epv HL Hp Hst HB HBl Ht0. pose proof (proj1 Hc) as Hnow. unfold cool_result, cooling_step.
  destruct (cool_step_control c pv B seq h p st t0 Hc Epv HL Hp Hst)
    as (p' & a & -> & HaB & Hanow & st' & t0' & b & rest & HL' & Hp' & Hs' & Ht' & Hb' & Hon' & Hci' & Hmay).
  destruct (cool_points_hvac h (c_interval c) B st' (p_points p') HL' Hp')
    as (h' & m' & -> & Hy & Hp'' & Hon'' & Hci'').
  do 4 eexists. split; [done|]. split; [done|]. rewrite Hy. split.
  { intros Hoff Hony. unfold is_on in Hony. apply bool_decide_eq_true in Hony. subst st'.
    apply (may_turn_on_spaced a B st t0); try done.
    intros ->. destruct (cool_stage_sync _ _ _ _ _ Hst) as [_ E]; [done|]. by rewrite Hoff in E. }
  destruct (next_off_bounds h (is_on st') _ _ Hnow HB HBl).
  exists st', t0'. split; [done|]. split; [done|]. split.
  { exists b, rest. cbn. rewrite decide_True by done. split_and!; [done..| | |done].
    - by rewrite Hon''.
    - by rewrite Hci''. }
  split; [done|]. split; [done|]. intros ->. destruct Hmay as [->|[-> ->]]; [done|].
  destruct (Ht0 eq_refl) as [? ?], (cool_stage_sync _ _ _ _ _ Hst) as [_ E]; [done|].
  rewrite next_off_off by done. split; [done|lia].
Qed.

(** The load is not valid: only the relays run. *)
Lemma cooling_step_skips c B seq h p st t0 :
  sample_ok c → c_pvOut c = None → st ≠ Lent →
  cool_points B st (p_points p) → cool_stage_inv seq h p st t0 →
  time_ok B → (msec B <= msec (c_interval c))%Z →
  (st = Running false → time_ok t0 ∧ (msec B <= msec t0 <= msec (c_interval c))%Z) →
  cool_result c B seq h p.
Proof.
  intros Hc Epv HL Hp Hst HB HBl Ht0. unfold cool_result, cooling_step, Control_execute.
  cbn [p_points p_stages p_frame cooling_refresh refresh mp_pvOut r_pvOut]. rewrite Epv.
  set (m := cooling_refresh c (p_points p)).
  assert (cool_points B st m) as Hm.
  { destruct Hp as [Hc' Hseq (vo & Hv & Hl & Ho) ? ? ? ?].
    constructor; cbn; [done..| |done|done|done|done]. rewrite Hv. by eexists. }
  destruct (cool_points_hvac h (c_interval c) B st m HL Hm) as (h' & m' & Hh & Hy & Hp'' & Hon'' & Hci'').
  exists (is_on st), seq, h', (MkPlant m' (p_stages p) (p_frame p)).
  split. { destruct (mp_systemConfig m); cbn; by rewrite Hh, Hy. }
  split; [done|]. split.
  { intros Hoff Hony. unfold is_on in Hony. apply bool_decide_eq_true in Hony. subst st.
    destruct (cool_stage_sync _ _ _ _ _ Hst) as [_ E]; [done|]. by rewrite Hoff in E. }
  destruct (next_off_bounds h (is_on st) (c_interval c) B (proj1 Hc) HB HBl).
  exists st, t0. split; [done|]. split; [done|]. split.
  { destruct Hst as (b & rest & Hs & Ht & Hb & Hst). exists b, rest. cbn. split_and!; [done..|].
    case_decide; [|done]. destruct Hst as (? & ? & ?).
    split_and!; [by rewrite Hon''|by rewrite Hci''|done]. }
  split; [done|]. split; [done|]. intros ->.
  destruct (Ht0 eq_refl) as [? ?], (cool_stage_sync _ _ _ _ _ Hst) as [_ E]; [done|].
  rewrite next_off_off by done. split; [done|lia].
Qed.

Lemma cooling_step_ok c B last seq h p :
  sample_ok c → cool_inv B last seq h p → (last <= msec (c_interval c))%Z → cool_result c B seq h p.
Proof.
  intros Hc (st & t0 & HL & Hp & Hst & HB & HBl & Ht0) Hlast.
  assert (st = Running false → time_ok t0 ∧ (msec B <= msec t0 <= msec (c_interval c))%Z).
  { intros E. destruct (Ht0 E). split; [done|lia]. }
  destruct (c_pvOut c) as [pv|] eqn:Epv.
  - eapply cooling_step_reads; eauto; lia.
  - eapply cooling_step_skips; eauto; lia.
Qed.

(** ** The run *)

(** Samples in the order of time, from [t] on. *)
Fixpoint in_order (t : Z) (cs : list Sample) : Prop :=
  match cs with
  | [] => True
  | c :: cs => (t <= msec (c_interval c))%Z ∧ in_order (msec (c_interval c)) cs
  end.

(** A trace of the relay, after the state [y] and the last time [B] that it was
    turned off, in which it is never turned on too early. *)
Fixpoint spaced (y : bool) (B : Precision_T) (trace : list (Precision_T * bool)) : Prop :=
  match trace with
  | [] => True
  | (t, y') :: trace =>
      (y = false → y' = true → (min_off st0 <= msec t - msec B)%Z)
      ∧ spaced y' (if y && negb y' then t else B) trace
  end.

Lemma cooling_run_ok cs B last seq h p :
  Forall sample_ok cs → in_order last cs → cool_inv B last seq h p →
  ∃ trace, cooling_run cs seq h p = Some trace ∧ trace.*1 = c_interval <$> cs
    ∧ spaced (m_y1 h) B trace.
Proof.
  intros Hcs. revert B last seq h p. induction Hcs as [|c cs Hc _ IH]; intros B last seq h p Ho H.
  - by exists [].
  - destruct Ho as [Hle Ho].
    destruct (cooling_step_ok c B last seq h p Hc H Hle) as (y & seq' & h' & p' & Hstep & Hy & Hsp & H').
    destruct (IH _ _ _ _ _ Ho H') as (trace & Hrun & Hl & Hsp'). cbn. rewrite Hstep, Hrun.
    eexists. split; [done|]. cbn. rewrite Hl. split; [done|]. rewrite Hy in Hsp'. by split.
Qed.

(** From the recursion to any two switches of the trace. *)
Lemma spaced_from_off B trace k t :
  spaced false B trace → trace !! k = Some (t, true) →
  (∀ j, j < k → ∃ t', trace !! j = Some (t', false)) → (min_off st0 <= msec t - msec B)%Z.
Proof.
  revert B k. induction trace as [|[t1 y1] trace IH]; intros B k Hs Hk Hoff; [done|].
  destruct k as [|k]; cbn in *.
  - simplify_eq. by apply Hs.
  - destruct (Hoff 0 ltac:(lia)) as [t' Ht']. simplify_eq/=. destruct Hs as [_ Hs].
    apply (IH B k); [done..|]. intros j Hj. apply (Hoff (S j)). lia.
Qed.

Lemma spaced_edge y B trace i k ti tj tk :
  spaced y B trace → trace !! i = Some (ti, true) → trace !! S i = Some (tj, false) →
  S i < k → trace !! k = Some (tk, true) →
  (∀ j, i < j < k → ∃ t', trace !! j = Some (t', false)) → (min_off st0 <= msec tk - msec tj)%Z.
Proof.
  revert y B i k. induction trace as [|[t1 y1] trace IH]; intros y B i k Hs Hi Hj Hlt Hk Hoff; [done|].
  destruct i as [|i]; cbn in *.
  - simplify_eq. destruct Hs as [_ Hs]. destruct trace as [|[t2 y2] trace]; [done|].
    cbn in Hj. simplify_eq. destruct Hs as [_ Hs]. destruct k as [|[|k]]; [lia..|]. cbn in Hs, Hk.
    apply (spaced_from_off tj trace k tk); [done..|]. intros j Hj.
    destruct (Hoff (S (S j)) ltac:(lia)) as [t' Ht']. by exists t'.
  - destruct k as [|k]; [lia|]. destruct Hs as [_ Hs].
    apply (IH _ _ i k Hs Hi Hj ltac:(lia) Hk). intros j Hj'. destruct (Hoff (S j) ltac:(lia)) as [t' Ht'].
    by exists t'.
Qed.
End run.

Lemma started_cool : ∃ b rest, started = b :: rest ∧ stage_ok cooler 0 Idle b ∧ m_startTime b = MkTime 0 0.
Proof.
  assert (started = ltac:(let l := eval vm_compute in started in exact l)) as -> by by vm_compute.
  do 2 eexists. split; [done|]. by repeat split.
Qed.

(** ** The property *)

(** C38. The compressor does not cycle too fast.  While the thermostat cools
    with one compressor stage, in any sequence of intervals in the order of time
    and for any load, nothing in the controller, the stage or the relays fails,
    and when the relay Y1 is turned on at [tk] after it was turned off at [tj],
    at least the minimum off time lies between: five minutes, or the configured
    minimum, limited by the cycle rate, when that is less. *)
Theorem compressor_min_off cfg s st0 more cs vo et m :
  currentOpMode cfg = eCOOLING → numCompressorStages cfg = 1%Z → stages cfg = st0 :: more →
  in_range 32 (minOffTime st0) → s ≠ SEQUENCE_NUMBER_UNKNOWN →
  points_at_start cfg s m → mp_systemForcedOffRefCnt m = Some 0%Z →
  mp_vOutputs m = Some vo → length (indoorStages vo) = 3 → outdoorStages vo = [0%Z] →
  mp_equipmentBeginTimes m = Some et → time_ok (outdoorUnitBeginOffTime et) →
  Forall (sample_ok st0) cs → in_order (msec (outdoorUnitBeginOffTime et)) cs →
  ∃ trace, cooling_run cs SEQUENCE_NUMBER_UNKNOWN hvac_start (MkPlant m started 0) = Some trace
    ∧ trace.*1 = c_interval <$> cs
    ∧ ∀ i k ti tj tk,
        trace !! i = Some (ti, true) → trace !! S i = Some (tj, false) →
        S i < k → trace !! k = Some (tk, true) →
        (∀ j, i < j < k → ∃ t', trace !! j = Some (t', false)) →
        (min_off st0 <= msec tk - msec tj)%Z.
Proof.
  intros Hmode Hcount Hst Hmin Hs [] Hf Hv Hl Ho He HB Hcs Hord.
  assert (cool_inv cfg s (outdoorUnitBeginOffTime et) (msec (outdoorUnitBeginOffTime et))
    SEQUENCE_NUMBER_UNKNOWN hvac_start (MkPlant m started 0)) as Hinv.
  { destruct started_cool as (b & rest & Hb & Hok & Ht). exists Idle, (MkTime 0 0). split; [done|].
    split; [by constructor; eauto|]. split; [|by split_and!].
    exists b, rest. split_and!; [done..|]. by rewrite decide_False by congruence. }
  destruct (cooling_run_ok cfg s st0 more Hmode Hcount Hst Hmin cs _ _ _ _ _ Hcs Hord Hinv)
    as (trace & Hrun & Htr & Hsp).
  exists trace. split; [done|]. split; [done|]. intros i k ti tj tk.
  exact (spaced_edge st0 _ _ trace i k ti tj tk Hsp).
Qed.

Module CoolingDemo.
Definition config1 : SystemConfig_T :=
  MkSystemConfig [Demo.stage3 0 100; Demo.stage3 0 1; Demo.stage3 0 1; Demo.stage3 0 1] eCOOLING
    0 0 1 0 1 0 (f32 1 0) (f32 1 0) (f32 100 0).

Definition sample (sec pv : Z) : Sample := MkSample (MkTime sec 0) (Some (f32 pv 0)) 0 0.

(** On, to the end of the on cycle; the load goes and comes back; on again. *)
Definition samples : list Sample :=
  [sample 2 50; MkSample (MkTime 4 0) None 0 0; sample 1000 50; sample 1600 50; sample 1602 (-1);
   sample 1604 50; sample 1900 50; sample 2000 50].

Definition points : ModelPoints :=
  MkModelPoints (Some config1) 2 None (Some zero_outputs) (Some zero_times) (Some false)
    (Some (cycleInfo no_args)) None None (Some 0%Z) None.

Lemma samples_ok : Forall (sample_ok (Demo.stage3 0 100)) samples.
Proof.
  repeat (apply Forall_cons; split;
    [split; [apply (bool_decide_unpack _); by vm_compute|];
     intros pv E; cbn in E;
     first [discriminate|injection E as <-; apply (bool_decide_unpack _); by vm_compute]|]).
  apply Forall_nil. done.
Qed.
End CoolingDemo.

Lemma compressor_min_off_witness :
  (∃ trace, cooling_run CoolingDemo.samples SEQUENCE_NUMBER_UNKNOWN hvac_start
              (MkPlant CoolingDemo.points started 0) = Some trace
            ∧ trace.*2 = [false; false; true; false; false; false; true; true])
  ∧ ∃ trace, cooling_run CoolingDemo.samples SEQUENCE_NUMBER_UNKNOWN hvac_start
               (MkPlant CoolingDemo.points started 0) = Some trace
    ∧ trace.*1 = c_interval <$> CoolingDemo.samples
    ∧ ∀ i k ti tj tk,
        trace !! i = Some (ti, true) → trace !! S i = Some (tj, false) →
        S i < k → trace !! k = Some (tk, true) →
        (∀ j, i < j < k → ∃ t', trace !! j = Some (t', false)) →
        (min_off (Demo.stage3 0 100) <= msec tk - msec tj)%Z.
Proof.
  split.
  - eexists. split; [vm_compute; reflexivity|done].
  - apply (compressor_min_off CoolingDemo.config1 2 (Demo.stage3 0 100)
      [Demo.stage3 0 1; Demo.stage3 0 1; Demo.stage3 0 1] CoolingDemo.samples zero_outputs zero_times
      CoolingDemo.points); try done; try (by constructor).
    apply CoolingDemo.samples_ok.
Defined.
