(* ===== verification/Itc.v ===== *)
(** * Messages between threads

    Cpl/Itc (Mailbox.cpp, MailboxServer.cpp, the return handlers, RequestMessage.h,
    ResponseMessage.h) with the event loop of Cpl/System/EventLoop.cpp below it.
    A thread is a number; the event loop it runs, and the mailbox of that loop,
    carry the same number.  The code between GlobalLock::begin() and
    GlobalLock::end(), and each operation of a semaphore, is one step; between
    two steps of a thread all other threads, interrupts and the clock may move. *)

From Stdlib Require Import ZArith Lia.
From S2P Require Import Prelude.
Local Open Scope Z_scope.

(** ** Data *)

(** ReturnHandler and its three subclasses. *)
Inductive ReturnHandler :=
  | NullReturnHandler
  | SyncReturnHandler (m_waiter : nat)
  | AsyncReturnHandler (m_mbox m_msg : nat).

(** A RequestMessage with its return handler, or a ResponseMessage with the
    request it contains. *)
Inductive Message :=
  | RequestMessage (m_rh : ReturnHandler)
  | ResponseMessage (m_request : nat).

#[global] Instance ReturnHandler_eq_dec : EqDecision ReturnHandler.
Proof. solve_decision. Defined.
#[global] Instance Message_eq_dec : EqDecision Message.
Proof. solve_decision. Defined.

(** Where a thread is in appRun() of its event loop.  [Callback p]: in code of the
    application that the loop has called, and that returns to [p]. *)
Inductive Pc :=
  | Begin
  | Top
  | Check (skipWait : bool)
  | Clock (skipWait : bool)
  | Wait (skipWait : bool)
  | CheckAgain
  | Capture
  | Flags (events eventMask eventNumber : Z)
  | Timers
  | AfterTimers
  | Get
  | Process (msg : nat)
  | Stop
  | End
  | Gone
  | Callback (next : Pc).

Record EventLoop := mkEventLoop {
  is_server : bool;                  (* a MailboxServer, or a plain EventLoop *)
  m_eventHandler : option (list bool); (* SharedEventHandler: which callbacks there are *)
  m_timeout : Z;
  m_running : bool;
  m_run : bool;
  m_events : Z;
  m_sema : Z;
  m_timeStartOfLoop : Z;
  m_queue : list nat;                (* SList<Message> of the Mailbox *)
  pc : Pc }.

(** Where a thread is in a call that the application has made. *)
Inductive Call :=
  | Idle
  | PostPut (mbox msg : nat) (sync : bool)
  | PostSignal (mbox msg : nat) (sync : bool)
  | ThreadWait (msg : nat)
  | Returning (msg : nat)
  | NotifySet (loop : nat) (events : Z)
  | NotifySignal (loop : nat)
  | StopSet (loop : nat)
  | StopSignal (loop : nat).

Record Thread := mkThread { t_sema : Z; call : Call }.

Record Sys := mkSys {
  loops : gmap nat EventLoop;
  threads : gmap nat Thread;
  clock : Z }.

(** What can be seen of a run. *)
Inductive Event :=
  | EPost (thread mbox msg : nat)
  | EGet (loop msg : nat)
  | EReturn (thread msg : nat)
  | EDone (thread msg : nat)
  | ENotify (loop : nat) (events : Z)
  | ECapture (loop : nat)
  | EFlag (loop : nat) (eventNumber : Z)
  | ETop (loop : nat).

(** The calls the application makes. *)
Inductive Action :=
  | Post (mbox msg : nat)
  | PostSync (mbox msg : nat)
  | ReturnToSender (msg : nat)
  | NotifyEvents (loop : nat) (events : Z)
  | Notify (loop : nat) (eventNumber : Z)
  | PleaseStop (loop : nat)
  | ReturnFromCallback.

Inductive IsrAction :=
  | SuSignal (loop : nat)
  | SuNotifyEvents (loop : nat) (events : Z)
  | SuNotify (loop : nat) (eventNumber : Z).

Inductive Label :=
  | Run (thread : nat)
  | Expire (thread : nat)
  | App (thread : nat) (a : Action)
  | Isr (a : IsrAction)
  | Tick (milliseconds : Z).

Section itc.
Context (msgs : nat → option Message).
Context (long_bits sema_max : Z).

Implicit Types (l t m : nat) (lp : EventLoop) (th : Thread) (s : Sys).

(** ** Updates of the fields of an event loop *)

Definition set_pc (p : Pc) lp : EventLoop :=
  mkEventLoop (is_server lp) (m_eventHandler lp) (m_timeout lp) (m_running lp) (m_run lp) (m_events lp) (m_sema lp)
    (m_timeStartOfLoop lp) (m_queue lp) p.
Definition set_running (b : bool) lp : EventLoop :=
  mkEventLoop (is_server lp) (m_eventHandler lp) (m_timeout lp) b (m_run lp) (m_events lp) (m_sema lp)
    (m_timeStartOfLoop lp) (m_queue lp) (pc lp).
Definition set_run (b : bool) lp : EventLoop :=
  mkEventLoop (is_server lp) (m_eventHandler lp) (m_timeout lp) (m_running lp) b (m_events lp) (m_sema lp)
    (m_timeStartOfLoop lp) (m_queue lp) (pc lp).
Definition set_events (e : Z) lp : EventLoop :=
  mkEventLoop (is_server lp) (m_eventHandler lp) (m_timeout lp) (m_running lp) (m_run lp) e (m_sema lp)
    (m_timeStartOfLoop lp) (m_queue lp) (pc lp).
Definition set_sema (c : Z) lp : EventLoop :=
  mkEventLoop (is_server lp) (m_eventHandler lp) (m_timeout lp) (m_running lp) (m_run lp) (m_events lp) c
    (m_timeStartOfLoop lp) (m_queue lp) (pc lp).
Definition set_start (z : Z) lp : EventLoop :=
  mkEventLoop (is_server lp) (m_eventHandler lp) (m_timeout lp) (m_running lp) (m_run lp) (m_events lp) (m_sema lp)
    z (m_queue lp) (pc lp).
Definition set_queue (q : list nat) lp : EventLoop :=
  mkEventLoop (is_server lp) (m_eventHandler lp) (m_timeout lp) (m_running lp) (m_run lp) (m_events lp) (m_sema lp)
    (m_timeStartOfLoop lp) q (pc lp).

(** EventLoop::EventLoop(); Mailbox::Mailbox(); Runnable::Runnable(). *)
Definition EventLoop_new (server : bool) (eventHandler : option (list bool)) (timeOutPeriodInMsec : Z) : option EventLoop :=
  if timeOutPeriodInMsec =? 0 then None
  else Some (mkEventLoop server eventHandler timeOutPeriodInMsec false true 0 0 0 [] Begin).

(** ** Semaphores *)

(** Semaphore::signal(), su_signal(): a full semaphore stays full. *)
Definition sema_signal (count : Z) : Z := if count <? sema_max then count + 1 else count.

(** EventLoop::signal(), su_signal(). *)
Definition loop_signal lp : EventLoop := set_sema (sema_signal (m_sema lp)) lp.

(** Thread::signal(): xTaskNotifyGive() adds one to a word of 32 bits. *)
Definition thread_signal th : Thread := mkThread (u32 (t_sema th + 1)) (call th).

(** Thread::wait(): blocks while the word is zero, and takes one. *)
Definition thread_wait th : option Thread :=
  if 0 <? t_sema th then Some (mkThread (t_sema th - 1) Idle) else None.

(** ** Mailbox *)

Definition put m lp : EventLoop := set_queue (m_queue lp ++ [m]) lp.
Definition first lp : option nat := head (m_queue lp).
Definition get lp : option nat * EventLoop :=
  match m_queue lp with
  | [] => (None, lp)
  | m :: q => (Some m, set_queue q lp)
  end.

Definition isPendingMessage lp : bool := match first lp with Some _ => true | None => false end.

(** ** Event flags *)

Definition notify_set (events : Z) lp : EventLoop := set_events (Z.lor (m_events lp) events) lp.
Definition event_bit (eventNumber : Z) : Z := u32 (Z.shiftl 1 eventNumber).

(** SharedEventHandler::processEventFlag(): is there a callback for the flag? *)
Definition has_callback (callbacks : list bool) (eventNumber : Z) : bool :=
  if Z.of_nat (length callbacks) <=? eventNumber then false
  else default false (callbacks !! Z.to_nat eventNumber).

(** EventLoop::processEventFlag(): is code of the application called? *)
Definition processEventFlag (eventNumber : Z) lp : bool :=
  match m_eventHandler lp with
  | None => false
  | Some callbacks => has_callback callbacks eventNumber
  end.

(** su_notifyEvents(), su_notify(), su_signal(): in an interrupt, between two steps
    of the threads. *)
Definition isr_target (a : IsrAction) : nat :=
  match a with SuSignal l | SuNotifyEvents l _ | SuNotify l _ => l end.
Definition su_notifyEvents (events : Z) lp : EventLoop := loop_signal (notify_set events lp).
Definition isr_loop (a : IsrAction) lp : EventLoop * list Event :=
  match a with
  | SuSignal _ => (loop_signal lp, [])
  | SuNotifyEvents l events => (su_notifyEvents (u32 events) lp, [ENotify l (u32 events)])
  | SuNotify l n => (su_notifyEvents (event_bit n) lp, [ENotify l (event_bit n)])
  end.

(** ** The event loop *)

Definition milliseconds s : Z := wrap long_bits (clock s).
Definition deltaMilliseconds (startTime endTime : Z) : Z := wrap long_bits (endTime - startTime).

(** EventLoop::waitAndProcessEvents(), the part before the wait: a long time since
    the last pass skips the wait. *)
Definition late (now : Z) lp : bool := m_timeout lp <? deltaMilliseconds (m_timeStartOfLoop lp) now.

(** The test and the body of the loop over the event flags. *)
Definition flag_step l (events eventMask eventNumber : Z) lp : EventLoop * list Event :=
  if eventMask =? 0 then (set_pc Timers lp, [])
  else
    let next := Flags events (u32 (Z.shiftl eventMask 1)) (u8 (eventNumber + 1)) in
    if Z.land events eventMask =? 0 then (set_pc next lp, [])
    else (set_pc (if processEventFlag eventNumber lp then Callback next else next) lp, [EFlag l eventNumber]).

(** One step of Runnable::run(), of EventLoop::appRun() or MailboxServer::appRun(),
    and of what these call. *)
Definition loop_step l (now : Z) lp : option (EventLoop * list Event) :=
  match pc lp with
  | Begin => Some (set_pc Top (set_running true lp), [])
  | Top => Some (set_pc (Check (if is_server lp then isPendingMessage lp else false)) lp, [ETop l])
  | Check skipWait => Some (set_pc (if m_run lp then Clock skipWait else Stop) lp, [])
  | Clock skipWait => Some (set_pc (Wait (if late now lp then true else skipWait)) (set_start now lp), [])
  | Wait skipWait =>
      if skipWait then Some (set_pc CheckAgain lp, [])
      else if 0 <? m_sema lp then Some (set_pc CheckAgain (set_sema (m_sema lp - 1) lp), [])
      else None
  | CheckAgain => Some (set_pc (if m_run lp then Capture else Stop) lp, [])
  | Capture =>
      let events := m_events lp in
      Some (set_pc (if events =? 0 then Timers else Flags events 1 0) (set_events 0 lp), [ECapture l])
  | Flags events eventMask eventNumber => Some (flag_step l events eventMask eventNumber lp)
  | Timers => Some (set_pc (Callback AfterTimers) lp, [])
  | AfterTimers => Some (set_pc (if is_server lp then Get else Top) lp, [])
  | Get =>
      match fst (get lp) with
      | None => Some (set_pc Top (snd (get lp)), [])
      | Some m => Some (set_pc (Process m) (snd (get lp)), [EGet l m])
      end
  | Process _ => Some (set_pc (Callback Top) lp, [])
  | Stop => Some (set_pc End lp, [])
  | End => Some (set_pc Gone (set_running false lp), [])
  | Gone | Callback _ => None
  end.

(** The semaphore's wait times out: only while nobody has signalled it. *)
Definition loop_expire lp : option EventLoop :=
  match pc lp with
  | Wait false => if 0 <? m_sema lp then None else Some (set_pc CheckAgain lp)
  | _ => None
  end.

(** ** The calls of the application *)

Definition set_loop l lp s : Sys := mkSys (<[l := lp]> (loops s)) (threads s) (clock s).
Definition set_thread t th s : Sys := mkSys (loops s) (<[t := th]> (threads s)) (clock s).
Definition set_call t (c : Call) th s : Sys := set_thread t (mkThread (t_sema th) c) s.
Definition on_loop l (f : EventLoop → EventLoop) s : option Sys :=
  lp ← loops s !! l; Some (set_loop l (f lp) s).

(** ServiceMessage::returnToSender(): the rts() of the return handler. *)
Definition returnToSender t m th s : option (Sys * list Event) :=
  match msgs m with
  | Some (RequestMessage NullReturnHandler) => Some (set_call t Idle th s, [EReturn t m])
  | Some (RequestMessage (SyncReturnHandler w)) =>
      let s' := set_call t Idle th s in
      thw ← threads s' !! w;
      Some (set_thread w (thread_signal thw) s', [EReturn t m])
  | Some (RequestMessage (AsyncReturnHandler mbox r)) => Some (set_call t (PostPut mbox r false) th s, [EReturn t m])
  | _ => None
  end.

(** The next step of a call. *)
Definition call_step t th s : option (Sys * list Event) :=
  match call th with
  | Idle => None
  | PostPut mbox m sync =>
      s' ← on_loop mbox (put m) s;
      Some (set_call t (PostSignal mbox m sync) th s', [EPost t mbox m])
  | PostSignal mbox m sync =>
      s' ← on_loop mbox loop_signal s;
      Some (set_call t (if sync then ThreadWait m else Idle) th s', [])
  | ThreadWait m => th' ← thread_wait th; Some (set_thread t th' s, [EDone t m])
  | Returning m => returnToSender t m th s
  | NotifySet l events =>
      s' ← on_loop l (notify_set events) s;
      Some (set_call t (NotifySignal l) th s', [ENotify l events])
  | NotifySignal l | StopSignal l => s' ← on_loop l loop_signal s; Some (set_call t Idle th s', [])
  | StopSet l => s' ← on_loop l (set_run false) s; Some (set_call t (StopSignal l) th s', [])
  end.

(** Where the application, while thread [t] runs its code, goes next. *)
Definition begin_call (a : Action) : option Call :=
  match a with
  | Post mbox m => Some (PostPut mbox m false)
  | PostSync mbox m => Some (PostPut mbox m true)
  | ReturnToSender m => Some (Returning m)
  | NotifyEvents l events => Some (NotifySet l (u32 events))
  | Notify l n => Some (NotifySet l (event_bit n))
  | PleaseStop l => Some (StopSet l)
  | ReturnFromCallback => None
  end.

(** Thread [t] runs code of the application: it has no event loop, or its event
    loop has called the application. *)
Definition in_application t s : bool :=
  match loops s !! t with
  | None => true
  | Some lp => match pc lp with Callback _ => true | _ => false end
  end.

Definition app_step t (a : Action) th s : option (Sys * list Event) :=
  match begin_call a with
  | Some c => Some (set_call t c th s, [])
  | None =>
      lp ← loops s !! t;
      match pc lp with
      | Callback p => Some (set_loop t (set_pc p lp) s, [])
      | _ => None
      end
  end.

Definition step (b : Label) s : option (Sys * list Event) :=
  match b with
  | Run t =>
      th ← threads s !! t;
      match call th with
      | Idle =>
          lp ← loops s !! t;
          r ← loop_step t (milliseconds s) lp;
          Some (set_loop t (fst r) s, snd r)
      | _ => call_step t th s
      end
  | Expire t =>
      th ← threads s !! t;
      match call th with
      | Idle => lp ← loops s !! t; lp' ← loop_expire lp; Some (set_loop t lp' s, [])
      | _ => None
      end
  | App t a =>
      th ← threads s !! t;
      match call th with
      | Idle => if in_application t s then app_step t a th s else None
      | _ => None
      end
  | Isr a =>
      lp ← loops s !! isr_target a;
      Some (set_loop (isr_target a) (fst (isr_loop a lp)) s, snd (isr_loop a lp))
  | Tick d => Some (mkSys (loops s) (threads s) (clock s + d), [])
  end.

Fixpoint run (bs : list Label) s : option (Sys * list Event) :=
  match bs with
  | [] => Some (s, [])
  | b :: bs' =>
      r ← step b s;
      r' ← run bs' (fst r);
      Some (fst r', snd r ++ snd r')
  end.

End itc.
