(* ===== verification/ItcSpec.v ===== *)
(** * What messages promise

    The protocol of a message as an automaton on what can be seen of a run: a
    client that has it at home sends it, the server gets it in the order of its
    mailbox, serves it, returns it, and the client has it back; a mailbox as a
    queue; event flags as a set that is captured and then called bit by bit.
    [allowed] is what the application has to keep to, the convention of ownership
    of src/Cpl/Itc/README.txt; [Runs] are the runs in which it does. *)

From Stdlib Require Import ZArith Lia.
From stdpp Require Import numbers.
From S2P Require Import Prelude Itc.
Local Open Scope Z_scope.

(** ** The abstract machine *)

(** Where a message is.  A response is away while its request is out. *)
Inductive Phase :=
  | Home (t : nat)
  | Sent (l : nat)
  | Served (t : nat)
  | Answered (t : nat)
  | Away.

#[global] Instance Phase_eq_dec : EqDecision Phase.
Proof. solve_decision. Defined.

Record Spec := mkSpec {
  phases : gmap nat Phase;
  queues : gmap nat (list nat);
  flags : gmap nat (Z * list Z) }.   (* notified; captured and still to be called *)

Section spec.
Context (msgs : nat → option Message).

Implicit Types (l t m q r : nat) (ph : gmap nat Phase) (a : Spec).

Definition post_phases t l m ph : option (gmap nat Phase) :=
  match msgs m, ph !! m with
  | Some (RequestMessage rh), Some (Home t') =>
      if decide (t' = t) then
        match rh with
        | AsyncReturnHandler _ r =>
            if decide (ph !! r = Some (Home t)) then Some (<[m := Sent l]> (<[r := Away]> ph)) else None
        | _ => Some (<[m := Sent l]> ph)
        end
      else None
  | Some (RequestMessage _), Some (Served t') => if decide (t' = t) then Some (<[m := Sent l]> ph) else None
  | Some (ResponseMessage q), Some Away =>
      if decide (ph !! q = Some (Answered t) ∧ msgs q = Some (RequestMessage (AsyncReturnHandler l m)))
      then Some (<[m := Sent l]> ph) else None
  | _, _ => None
  end.

Definition get_phases l m ph : option (gmap nat Phase) :=
  if decide (ph !! m = Some (Sent l)) then
    match msgs m with
    | Some (ResponseMessage q) => Some (<[m := Home l]> (<[q := Home l]> ph))
    | _ => Some (<[m := Served l]> ph)
    end
  else None.

Definition answered (p : option Phase) : bool := match p with Some (Answered _) => true | _ => false end.

Definition phase_step (ev : Event) ph : option (gmap nat Phase) :=
  match ev with
  | EPost t l m => post_phases t l m ph
  | EGet l m => get_phases l m ph
  | EReturn t m => if decide (ph !! m = Some (Served t)) then Some (<[m := Answered t]> ph) else None
  | EDone t m =>
      if decide (msgs m = Some (RequestMessage (SyncReturnHandler t)) ∧ answered (ph !! m) = true)
      then Some (<[m := Home t]> ph) else None
  | _ => Some ph
  end.

Definition queue_of (qs : gmap nat (list nat)) l : list nat := default [] (qs !! l).

Definition queue_step (ev : Event) (qs : gmap nat (list nat)) : option (gmap nat (list nat)) :=
  match ev with
  | EPost _ l m => Some (<[l := queue_of qs l ++ [m]]> qs)
  | EGet l m =>
      match queue_of qs l with
      | [] => None
      | m' :: q => if decide (m' = m) then Some (<[l := q]> qs) else None
      end
  | _ => Some qs
  end.

(** The flags of a word, lowest first. *)
Definition bits_from (n e : Z) : list Z := filter (λ i, Z.testbit e i = true) (seqZ n (32 - n)).
Definition bits (e : Z) : list Z := bits_from 0 e.

Definition flags_of (fs : gmap nat (Z * list Z)) l : Z * list Z := default (0, []) (fs !! l).

Definition flags_step (ev : Event) (fs : gmap nat (Z * list Z)) : option (gmap nat (Z * list Z)) :=
  match ev with
  | ENotify l e => Some (<[l := (Z.lor (fst (flags_of fs l)) e, snd (flags_of fs l))]> fs)
  | ECapture l =>
      match flags_of fs l with
      | (e, []) => Some (<[l := (0, bits e)]> fs)
      | _ => None
      end
  | EFlag l n =>
      match flags_of fs l with
      | (e, n' :: ns) => if decide (n' = n) then Some (<[l := (e, ns)]> fs) else None
      | _ => None
      end
  | _ => Some fs
  end.

Definition spec_step (ev : Event) a : option Spec :=
  match phase_step ev (phases a), queue_step ev (queues a), flags_step ev (flags a) with
  | Some ph, Some qs, Some fs => Some (mkSpec ph qs fs)
  | _, _, _ => None
  end.

Fixpoint feed {X} (f : Event → X → option X) (evs : list Event) (x : X) : option X :=
  match evs with
  | [] => Some x
  | ev :: evs' => x' ← f ev x; feed f evs' x'
  end.
Definition spec_run : list Event → Spec → option Spec := feed spec_step.

(** All messages are at home with their clients. *)
Definition spec_init (homes : gmap nat nat) : Spec := mkSpec (Home <$> homes) ∅ ∅.

(** ** What the application keeps to *)

Definition is_sync (rh : ReturnHandler) : bool := match rh with SyncReturnHandler _ => true | _ => false end.

Definition is_mailbox (s : Sys) l : Prop := ∃ lp, loops s !! l = Some lp ∧ is_server lp = true.

(** Only the owner sends a message, to a mailbox that there is; a synchronous
    message is sent with postSync() by the thread that made its return handler, or
    passed on by a server; only the server returns a request. *)
Definition may_post a t m : Prop :=
  match msgs m with
  | Some (RequestMessage rh) =>
      phases a !! m = Some (Served t)
      ∨ (phases a !! m = Some (Home t) ∧ is_sync rh = false
         ∧ match rh with AsyncReturnHandler _ r => phases a !! r = Some (Home t) | _ => True end)
  | _ => False
  end.

Definition may_act a s t (c : Action) : Prop :=
  match c with
  | Post l m => may_post a t m ∧ is_mailbox s l
  | PostSync l m =>
      phases a !! m = Some (Home t) ∧ msgs m = Some (RequestMessage (SyncReturnHandler t)) ∧ is_mailbox s l
  | ReturnToSender m => phases a !! m = Some (Served t)
  | NotifyEvents l _ | PleaseStop l => is_Some (loops s !! l)
  | Notify l n => is_Some (loops s !! l) ∧ 0 ≤ n < 32
  | ReturnFromCallback => True
  end.

Definition allowed (a : Spec) (s : Sys) (b : Label) : Prop :=
  match b with
  | App t c => may_act a s t c
  | Tick d => 0 ≤ d
  | _ => True
  end.

(** A response knows its request and the other way around; the mailbox of each
    response is one of the system. *)
Definition paired : Prop :=
  ∀ q l r, msgs q = Some (RequestMessage (AsyncReturnHandler l r)) → msgs r = Some (ResponseMessage q).
Definition wired (s : Sys) : Prop :=
  ∀ q l r, msgs q = Some (RequestMessage (AsyncReturnHandler l r)) → is_Some (loops s !! l).

(** Synchronous calls, and requests of others that are passed on, go up a ranking of
    the threads. *)
Definition ranked (rank : nat → nat) (a : Spec) (s : Sys) (b : Label) : Prop :=
  match b with
  | App t (PostSync l _) => (rank t < rank l)%nat
  | App t (Post l m) =>
      ∀ w, msgs m = Some (RequestMessage (SyncReturnHandler w)) → (rank w < rank l)%nat
  | _ => True
  end.

(** ** Runs *)

(** A system at its start: no message sent, no loop started, a thread for each loop. *)
Definition fresh_loop (lp : EventLoop) : Prop :=
  ∃ server handler timeout, EventLoop_new server handler timeout = Some lp.
Definition fresh (s : Sys) : Prop :=
  map_Forall (λ _ lp, fresh_loop lp) (loops s)
  ∧ map_Forall (λ _ th, th = mkThread 0 Idle) (threads s)
  ∧ ∀ l, is_Some (loops s !! l) → is_Some (threads s !! l).

Context (long_bits sema_max : Z).

(** [Runs ok homes s s' evs]: from [s] to [s'], with the events [evs], the clients
    keeping to [ok]. *)
Inductive Runs (ok : Spec → Sys → Label → Prop) (homes : gmap nat nat) (s : Sys) : Sys → list Event → Prop :=
  | runs_nil : Runs ok homes s s []
  | runs_step s1 evs1 a b s2 evs2 :
      Runs ok homes s s1 evs1 →
      spec_run evs1 (spec_init homes) = Some a →
      ok a s1 b →
      step msgs long_bits sema_max b s1 = Some (s2, evs2) →
      Runs ok homes s s2 (evs1 ++ evs2).

End spec.

(** How often the loop [l] has begun a pass. *)
Fixpoint passes (l : nat) (evs : list Event) : nat :=
  match evs with
  | [] => 0
  | ETop k :: evs' => (if decide (k = l) then 1 else 0) + passes l evs'
  | _ :: evs' => passes l evs'
  end.
