(* ===== verification/ItcInv.v ===== *)
(** * The invariant of the mailboxes

    [Inv] relates a system to the abstract machine: each thread's call to the
    phase of its message, the count of each thread semaphore to the phase of the
    message it waits for, the queues, the flags.  [Moves] lists the kinds of steps
    once, [step_moves] shows that these are all. *)

From Stdlib Require Import ZArith Lia.
From stdpp Require Import numbers.
From S2P Require Import Prelude Itc ItcSpec.
Local Open Scope Z_scope.

Section inv.
Context (msgs : nat → option Message) (long_bits sema_max : Z).

Implicit Types (l t m q r w : nat) (ph : gmap nat Phase) (a : Spec) (s : Sys) (lp : EventLoop) (th : Thread).

(** ** The kinds of steps *)

(** What a step does to the loop [l] on behalf of a call. *)
Inductive CallMove t m : Call → (EventLoop → EventLoop) → nat → Call → list Event → Prop :=
  | cm_put l sy : CallMove t m (PostPut l m sy) (put m) l (PostSignal l m sy) [EPost t l m]
  | cm_signal l sy : CallMove t m (PostSignal l m sy) (loop_signal sema_max) l (if sy then ThreadWait m else Idle) []
  | cm_notify l e : CallMove t m (NotifySet l e) (notify_set e) l (NotifySignal l) [ENotify l e]
  | cm_notify_signal l : CallMove t m (NotifySignal l) (loop_signal sema_max) l Idle []
  | cm_stop l : CallMove t m (StopSet l) (set_run false) l (StopSignal l) []
  | cm_stop_signal l : CallMove t m (StopSignal l) (loop_signal sema_max) l Idle [].

Inductive Moves s : Label → Sys → list Event → Prop :=
  | mv_loop t th lp lp' evs :
      threads s !! t = Some th → call th = Idle → loops s !! t = Some lp →
      loop_step long_bits t (milliseconds long_bits s) lp = Some (lp', evs) ∨ (loop_expire lp = Some lp' ∧ evs = []) →
      ∀ b, b = Run t ∨ b = Expire t → Moves s b (set_loop t lp' s) evs
  | mv_call t th m c f l c' evs lp :
      threads s !! t = Some th → call th = c → CallMove t m c f l c' evs → loops s !! l = Some lp →
      Moves s (Run t) (set_call t c' th (set_loop l (f lp) s)) evs
  | mv_done t th m :
      threads s !! t = Some th → call th = ThreadWait m → 0 < t_sema th →
      Moves s (Run t) (set_thread t (mkThread (t_sema th - 1) Idle) s) [EDone t m]
  | mv_null t th m :
      threads s !! t = Some th → call th = Returning m → msgs m = Some (RequestMessage NullReturnHandler) →
      Moves s (Run t) (set_call t Idle th s) [EReturn t m]
  | mv_async t th m l r :
      threads s !! t = Some th → call th = Returning m → msgs m = Some (RequestMessage (AsyncReturnHandler l r)) →
      Moves s (Run t) (set_call t (PostPut l r false) th s) [EReturn t m]
  | mv_sync t th m w thw :
      threads s !! t = Some th → call th = Returning m → msgs m = Some (RequestMessage (SyncReturnHandler w)) →
      threads (set_call t Idle th s) !! w = Some thw →
      Moves s (Run t) (set_thread w (thread_signal thw) (set_call t Idle th s)) [EReturn t m]
  | mv_begin t th act c :
      threads s !! t = Some th → call th = Idle → in_application t s = true → begin_call act = Some c →
      Moves s (App t act) (set_call t c th s) []
  | mv_leave t th lp p :
      threads s !! t = Some th → call th = Idle → loops s !! t = Some lp → pc lp = Callback p →
      Moves s (App t ReturnFromCallback) (set_loop t (set_pc p lp) s) []
  | mv_isr i lp :
      loops s !! isr_target i = Some lp →
      Moves s (Isr i) (set_loop (isr_target i) (fst (isr_loop sema_max i lp)) s) (snd (isr_loop sema_max i lp))
  | mv_tick d : Moves s (Tick d) (mkSys (loops s) (threads s) (clock s + d)) [].

Lemma step_moves b s s' evs : step msgs long_bits sema_max b s = Some (s', evs) → Moves s b s' evs.
Proof.
  destruct b as [t|t|t act|i|d]; simpl; intros H.
  - destruct (threads s !! t) as [th|] eqn:Hth; simpl in H; [|done].
    destruct (call th) eqn:Hc; unfold call_step, on_loop in H; rewrite ?Hc in H; simpl in H.
    + destruct (loops s !! t) as [lp|] eqn:Hl; simpl in H; [|done].
      destruct (loop_step long_bits t _ lp) as [[lp' evs']|] eqn:Hs; simpl in H; simplify_eq. econstructor; eauto.
    + destruct (loops s !! mbox) as [lp|] eqn:Hl; simpl in H; simplify_eq. econstructor; eauto. constructor.
    + destruct (loops s !! mbox) as [lp|] eqn:Hl; simpl in H; simplify_eq. eapply mv_call; eauto. constructor.
    + unfold thread_wait in H. destruct (0 <? t_sema th) eqn:Hp; simpl in H; simplify_eq.
      apply Z.ltb_lt in Hp. econstructor; eauto.
    + unfold returnToSender in H. destruct (msgs msg) as [[[|w|l r]|]|] eqn:Hm; simplify_eq.
      * by apply mv_null.
      * destruct (threads (set_call t Idle th s) !! w) as [thw|] eqn:Hw; simpl in H; simplify_eq.
        eapply mv_sync; eauto.
      * eapply mv_async; eauto.
    + destruct (loops s !! loop) as [lp|] eqn:Hl; simpl in H; simplify_eq.
      eapply (mv_call _ _ _ 0); eauto. constructor.
    + destruct (loops s !! loop) as [lp|] eqn:Hl; simpl in H; simplify_eq.
      eapply (mv_call _ _ _ 0); eauto. constructor.
    + destruct (loops s !! loop) as [lp|] eqn:Hl; simpl in H; simplify_eq.
      eapply (mv_call _ _ _ 0); eauto. constructor.
    + destruct (loops s !! loop) as [lp|] eqn:Hl; simpl in H; simplify_eq.
      eapply (mv_call _ _ _ 0); eauto. constructor.
  - destruct (threads s !! t) as [th|] eqn:Hth; simpl in H; [|done]. destruct (call th) eqn:Hc; try done.
    destruct (loops s !! t) as [lp|] eqn:Hl; simpl in H; [|done].
    destruct (loop_expire lp) as [lp'|] eqn:Hs; simpl in H; simplify_eq. econstructor; eauto.
  - destruct (threads s !! t) as [th|] eqn:Hth; simpl in H; [|done]. destruct (call th) eqn:Hc; try done.
    destruct (in_application t s) eqn:Hi; [|done]. unfold app_step in H.
    destruct (begin_call act) as [c|] eqn:Hb.
    + simplify_eq. eapply mv_begin; eauto.
    + destruct act; try done. destruct (loops s !! t) as [lp|] eqn:Hl; simpl in H; [|done].
      destruct (pc lp) eqn:Hp; simplify_eq. eapply mv_leave; eauto.
  - destruct (loops s !! isr_target i) as [lp|] eqn:Hl; simpl in H; simplify_eq. by apply mv_isr.
  - simplify_eq. constructor.
Qed.

(** ** The invariant *)

Definition out (p : Phase) : Prop := match p with Sent _ | Served _ => True | _ => False end.

(** The message of a synchronous call: out, and nobody has signalled; or answered,
    and the semaphore counts one. *)
Definition awaited ph m (count : Z) : Prop :=
  ∃ p, ph !! m = Some p ∧ ((out p ∧ count = 0) ∨ (answered (Some p) = true ∧ count = 1)).

Definition put_ok ph t l m (sy : bool) : Prop :=
  if sy then ph !! m = Some (Home t) ∧ msgs m = Some (RequestMessage (SyncReturnHandler t))
  else match msgs m with
       | Some (RequestMessage rh) =>
           ph !! m = Some (Served t)
           ∨ (ph !! m = Some (Home t) ∧ is_sync rh = false
              ∧ match rh with AsyncReturnHandler _ r => ph !! r = Some (Home t) | _ => True end)
       | Some (ResponseMessage q) =>
           ph !! m = Some Away ∧ ph !! q = Some (Answered t) ∧ msgs q = Some (RequestMessage (AsyncReturnHandler l m))
       | None => False
       end.

Definition call_ok ph t th : Prop :=
  match call th with
  | PostPut l m sy => put_ok ph t l m sy ∧ t_sema th = 0
  | PostSignal _ m true | ThreadWait m =>
      msgs m = Some (RequestMessage (SyncReturnHandler t)) ∧ awaited ph m (t_sema th)
  | Returning m => ph !! m = Some (Served t) ∧ t_sema th = 0
  | _ => t_sema th = 0
  end.

Definition in_sync (c : Call) m : Prop := (∃ l, c = PostSignal l m true) ∨ c = ThreadWait m.

Definition away (p : Phase) : Prop := ∀ t, p ≠ Home t.

(** Each call has the message it needs; a thread waits for each synchronous message
    that is away from home. *)
Record CallInv ph (ths : gmap nat Thread) : Prop := {
  ci_calls t th : ths !! t = Some th → call_ok ph t th;
  ci_waits m w p :
    msgs m = Some (RequestMessage (SyncReturnHandler w)) → ph !! m = Some p → away p →
    ∃ th, ths !! w = Some th ∧ in_sync (call th) m }.

(** The messages that are sent are those in the mailboxes, each once. *)
Record QueueInv ph (lps : gmap nat EventLoop) : Prop := {
  qi_sent m l : ph !! m = Some (Sent l) → ∃ lp, lps !! l = Some lp ∧ m ∈ m_queue lp;
  qi_queue m l lp : lps !! l = Some lp → m ∈ m_queue lp → ph !! m = Some (Sent l);
  qi_nodup l lp : lps !! l = Some lp → NoDup (m_queue lp) }.

(** A response is sent when its request is answered. *)
Definition responses_ok ph : Prop :=
  ∀ r l q, ph !! r = Some (Sent l) → msgs r = Some (ResponseMessage q) →
    ∃ t mbox, ph !! q = Some (Answered t) ∧ msgs q = Some (RequestMessage (AsyncReturnHandler mbox r)).

(** The response of a request that is out is away. *)
Definition requests_ok ph : Prop :=
  ∀ m p mbox r, msgs m = Some (RequestMessage (AsyncReturnHandler mbox r)) → ph !! m = Some p → out p → ph !! r = Some Away.

(** Which flags of the word it has captured a loop still has to call. *)
Fixpoint to_call (p : Pc) : list Z :=
  match p with
  | Flags e mask n => if mask =? 0 then [] else bits_from n e
  | Callback p => to_call p
  | _ => []
  end.

Fixpoint flags_pc (p : Pc) : Prop :=
  match p with
  | Flags e mask n => 0 ≤ n ≤ 32 ∧ mask = (if n =? 32 then 0 else 2 ^ n)
  | Callback (Flags _ _ _ as p) => flags_pc p
  | Callback (AfterTimers | Top) => True
  | Callback _ => False
  | _ => True
  end.

Definition flags_ok (f : Z * list Z) lp : Prop := f = (m_events lp, to_call (pc lp)) ∧ flags_pc (pc lp).

(** A thread is about to signal the loop. *)
Definition signals l (c : Call) : Prop :=
  (∃ m sy, c = PostSignal l m sy) ∨ c = NotifySignal l ∨ c = StopSignal l.
Definition signalled s l lp : Prop := 0 < m_sema lp ∨ ∃ t th, threads s !! t = Some th ∧ signals l (call th).

(** Where a loop has seen that its mailbox is empty, that it is to run on, that all
    flags are captured, and has not yet waited. *)
Definition saw_queue (p : Pc) : bool := match p with Check false | Clock false | Wait false => true | _ => false end.
Definition saw_run (p : Pc) : bool := match p with Clock _ | Wait _ => true | _ => false end.
Definition saw_events (p : Pc) : bool :=
  match p with CheckAgain | Capture | Stop | End | Gone => false | _ => true end.

Definition wake_ok s l lp : Prop :=
  ((is_server lp = true ∧ saw_queue (pc lp) = true ∧ m_queue lp ≠ [])
   ∨ (saw_run (pc lp) = true ∧ m_run lp = false)
   ∨ (saw_events (pc lp) = true ∧ m_events lp ≠ 0)) → signalled s l lp.

Record Inv a s : Prop := {
  inv_calls : CallInv (phases a) (threads s);
  inv_queues : QueueInv (phases a) (loops s);
  inv_responses : responses_ok (phases a);
  inv_requests : requests_ok (phases a);
  inv_queue l lp : loops s !! l = Some lp → queue_of (queues a) l = m_queue lp;
  inv_flags l lp : loops s !! l = Some lp → flags_ok (flags_of (flags a) l) lp;
  inv_wake l lp : loops s !! l = Some lp → 0 ≤ m_sema lp ∧ wake_ok s l lp }.

End inv.
