(* ===== verification/ItcSteps.v ===== *)
(** * Every step keeps the invariant of the mailboxes *)

From Stdlib Require Import ZArith Lia.
From stdpp Require Import numbers.
From S2P Require Import Prelude Itc ItcSpec ItcInv.
Local Open Scope Z_scope.

Section steps.
Context (msgs : nat → option Message) (long_bits sema_max : Z) (sema_pos : 0 < sema_max).

Implicit Types (l t m q r w : nat) (ph : gmap nat Phase) (a : Spec) (s : Sys) (lp : EventLoop) (th : Thread).

Local Abbreviation Moves := (Moves msgs long_bits sema_max).

(** ** The abstract machine, part by part *)

Lemma feed_app {X} (f : Event → X → option X) e1 e2 x :
  feed f (e1 ++ e2) x = feed f e1 x ≫= feed f e2.
Proof. revert x. induction e1 as [|ev e1 IH]; intros x; simpl; [done|]. destruct (f ev x); simpl; auto. Qed.

Lemma spec_run_parts evs a ph qs fs :
  feed (phase_step msgs) evs (phases a) = Some ph → feed queue_step evs (queues a) = Some qs →
  feed flags_step evs (flags a) = Some fs → spec_run msgs evs a = Some (mkSpec ph qs fs).
Proof.
  unfold spec_run. revert a. induction evs as [|ev evs IH]; intros a; simpl.
  - intros [= <-] [= <-] [= <-]. by destruct a.
  - destruct (phase_step msgs ev (phases a)) as [ph1|] eqn:E1; simpl; [|done].
    destruct (queue_step ev (queues a)) as [qs1|] eqn:E2; simpl; [|done].
    destruct (flags_step ev (flags a)) as [fs1|] eqn:E3; simpl; [|done].
    intros. assert (spec_step msgs ev a = Some (mkSpec ph1 qs1 fs1)) as -> by (unfold spec_step; by rewrite E1, E2, E3).
    by apply IH.
Qed.

Lemma feed_phases evs a a' : spec_run msgs evs a = Some a' → feed (phase_step msgs) evs (phases a) = Some (phases a').
Proof.
  unfold spec_run. revert a. induction evs as [|ev evs IH]; intros a; simpl; [by intros [= ->]|].
  destruct (spec_step msgs ev a) as [a1|] eqn:E; simpl; [|done]. intros H%IH. unfold spec_step in E.
  destruct (phase_step msgs ev (phases a)) eqn:E1; [|done]. repeat (case_match; simplify_eq). done.
Qed.

(** ** Steps of a loop *)

Ltac loop_cases H :=
  unfold loop_step, loop_expire, flag_step, get in H; repeat (case_match; simplify_eq/=); simplify_eq/=.

Lemma loop_move_queue l now lp lp' evs :
  loop_step long_bits l now lp = Some (lp', evs) ∨ (loop_expire lp = Some lp' ∧ evs = []) →
  (∃ m, evs = [EGet l m] ∧ m_queue lp = m :: m_queue lp')
  ∨ (m_queue lp' = m_queue lp ∧ ∀ qs, feed queue_step evs qs = Some qs) ∧ (∀ ph, feed (phase_step msgs) evs ph = Some ph).
Proof. intros [H|[H ->]]; loop_cases H; first [left; by eauto | right; done]. Qed.

(** ** Queues *)

Definition queues_ok (qs : gmap nat (list nat)) s : Prop :=
  ∀ l lp, loops s !! l = Some lp → queue_of qs l = m_queue lp.

Lemma queues_set qs s l lp lp' :
  queues_ok qs s → loops s !! l = Some lp → m_queue lp' = m_queue lp → queues_ok qs (set_loop l lp' s).
Proof.
  intros Hq Hl E k lpk Hk. simpl in Hk. destruct (decide (k = l)) as [->|n].
  - rewrite lookup_insert_eq in Hk. simplify_eq. rewrite E. by apply Hq.
  - rewrite lookup_insert_ne in Hk by done. by apply Hq.
Qed.

Lemma queues_change qs s l lp' (q : list nat) :
  queues_ok qs s → m_queue lp' = q → queues_ok (<[l := q]> qs) (set_loop l lp' s).
Proof.
  intros Hq E k lpk Hk. simpl in Hk. unfold queue_of. destruct (decide (k = l)) as [->|n].
  - rewrite lookup_insert_eq in Hk. simplify_eq. by rewrite lookup_insert_eq.
  - rewrite lookup_insert_ne in Hk by done. rewrite lookup_insert_ne by done. by apply Hq.
Qed.

Lemma move_queues qs s b s' evs :
  queues_ok qs s → Moves s b s' evs → ∃ qs', feed queue_step evs qs = Some qs' ∧ queues_ok qs' s'.
Proof.
  intros Hq Hm. destruct Hm as [t th lp lp' evs Hth Hc Hl Hs b _|t th m c f l c' evs lp Hth Hc Hm Hl|t th m Hth Hc Hp|
    t th m Hth Hc Hm|t th m l r Hth Hc Hm|t th m w thw Hth Hc Hm Hw|t th act c Hth Hc Hi Hb|t th lp p Hth Hc Hl Hp|i lp Hl|d];
    try (eexists; split; [reflexivity|exact Hq]).
  - destruct (loop_move_queue _ _ _ _ _ Hs) as [(m & -> & E)|[[E F] _]].
    + simpl. rewrite (Hq _ _ Hl), E, decide_True by done. eexists; split; [done|]. by apply queues_change.
    + exists qs. split; [apply F|]. by eapply queues_set.
  - destruct Hm; simpl; eexists; (split; [reflexivity|]);
      try (eapply (queues_set _ _ _ lp); [exact Hq|exact Hl|done]).
    rewrite (Hq _ _ Hl). apply (queues_change _ s); done.
  - eexists; split; [done|]. by eapply queues_set.
  - destruct i; simpl; (eexists; split; [done|]; by eapply queues_set).
Qed.

(** ** Event flags *)

Lemma bits_from_step n e :
  0 ≤ n < 32 → bits_from n e = (if Z.land e (2 ^ n) =? 0 then [] else [n]) ++ bits_from (n + 1) e.
Proof.
  intros Hn. unfold bits_from. rewrite (seqZ_cons n) by lia.
  replace (Z.pred (32 - n)) with (32 - (n + 1)) by lia. replace (Z.succ n) with (n + 1) by lia.
  assert (Z.land e (2 ^ n) = if Z.testbit e n then 2 ^ n else 0) as ->.
  { apply Z.bits_inj'. intros i Hi. rewrite Z.land_spec, Z.pow2_bits_eqb by lia.
    destruct (Z.eqb_spec n i) as [->|Hne]; [destruct (Z.testbit e i) eqn:E|].
    - by rewrite Z.pow2_bits_true by lia.
    - by rewrite Z.bits_0.
    - destruct (Z.testbit e n); rewrite ?Z.bits_0, ?Z.pow2_bits_false by lia; apply andb_false_r. }
  rewrite filter_cons. destruct (Z.testbit e n) eqn:E.
  - rewrite decide_True by done. destruct (Z.eqb_spec (2 ^ n) 0); [|done]. assert (0 < 2 ^ n) by (apply Z.pow_pos_nonneg; lia). lia.
  - by rewrite decide_False by done.
Qed.

Lemma mask_step n : 0 ≤ n < 32 → u32 (Z.shiftl (2 ^ n) 1) = if n + 1 =? 32 then 0 else 2 ^ (n + 1).
Proof.
  intros Hn. rewrite Z.shiftl_mul_pow2, <-Z.pow_add_r by lia. destruct (Z.eqb_spec (n + 1) 32) as [->|Hne]; [done|].
  unfold wrap. apply Z.mod_small. split; [apply Z.pow_nonneg; lia|apply Z.pow_lt_mono_r; lia].
Qed.

Lemma mask_zero n : 0 ≤ n ≤ 32 → ((if n =? 32 then 0 else 2 ^ n) =? 0) = (n =? 32).
Proof.
  intros Hn. destruct (Z.eqb_spec n 32); [done|]. apply Z.eqb_neq.
  assert (0 < 2 ^ n) by (apply Z.pow_pos_nonneg; lia). lia.
Qed.

Definition all_flags_ok (fs : gmap nat (Z * list Z)) s : Prop :=
  ∀ l lp, loops s !! l = Some lp → flags_ok (flags_of fs l) lp.

Lemma flags_set fs s l lp lp' :
  all_flags_ok fs s → loops s !! l = Some lp → m_events lp' = m_events lp → to_call (pc lp') = to_call (pc lp) →
  (flags_pc (pc lp) → flags_pc (pc lp')) → all_flags_ok fs (set_loop l lp' s).
Proof.
  intros Hf Hl E1 E2 E3 k lpk Hk. simpl in Hk. destruct (decide (k = l)) as [->|n].
  - rewrite lookup_insert_eq in Hk. simplify_eq. destruct (Hf _ _ Hl) as [-> Hp]. split; [by rewrite E1, E2|auto].
  - rewrite lookup_insert_ne in Hk by done. by apply Hf.
Qed.

Lemma flags_change fs s l lp' f :
  all_flags_ok fs s → flags_ok f lp' → all_flags_ok (<[l := f]> fs) (set_loop l lp' s).
Proof.
  intros Hf E k lpk Hk. simpl in Hk. unfold flags_of. destruct (decide (k = l)) as [->|n].
  - rewrite lookup_insert_eq in Hk. simplify_eq. by rewrite lookup_insert_eq.
  - rewrite lookup_insert_ne in Hk by done. rewrite lookup_insert_ne by done. by apply Hf.
Qed.

(** One step of the loop over the flags. *)
Lemma flag_step_ok fs s l lp e mask n lp' evs :
  all_flags_ok fs s → loops s !! l = Some lp → pc lp = Flags e mask n → flag_step l e mask n lp = (lp', evs) →
  ∃ fs', feed flags_step evs fs = Some fs' ∧ all_flags_ok fs' (set_loop l lp' s).
Proof.
  intros Hf Hl Hp Hs. destruct (Hf _ _ Hl) as [Ef Hpc]. rewrite Hp in Hpc, Ef. simpl in Hpc, Ef.
  destruct Hpc as [Hn ->]. unfold flag_step in Hs. rewrite mask_zero in Hs, Ef by done.
  destruct (Z.eqb_spec n 32) as [->|Hne].
  { simplify_eq. exists fs. split; [done|]. eapply (flags_set _ _ _ lp); [done|done|done|cbn; by rewrite Hp|done]. }
  assert (0 ≤ n < 32) as Hn' by lia.
  rewrite mask_step in Hs by done. assert (u8 (n + 1) = n + 1) as Hu by (unfold wrap; apply Z.mod_small; lia).
  rewrite Hu in Hs. rewrite bits_from_step in Ef by done.
  assert (to_call (Flags e (if n + 1 =? 32 then 0 else 2 ^ (n + 1)) (n + 1)) = bits_from (n + 1) e) as Hnext.
  { simpl. rewrite mask_zero by lia. destruct (Z.eqb_spec (n + 1) 32) as [E|]; [by rewrite E|done]. }
  destruct (Z.land e (2 ^ n) =? 0) eqn:Hb.
  - simplify_eq. exists fs. split; [done|]. eapply flags_set; eauto.
    + rewrite Hp. cbn [pc set_pc]. rewrite Hnext. cbn [to_call].
      assert ((2 ^ n =? 0) = false) as -> by (apply Z.eqb_neq; pose proof (Z.pow_pos_nonneg 2 n); lia).
      by rewrite (bits_from_step n), Hb by done.
    + simpl. intros _. split; [lia|done].
  - simplify_eq. simpl. rewrite Ef. simpl. rewrite decide_True by done. eexists; split; [done|].
    apply flags_change; [done|]. destruct (processEventFlag n lp); split; cbn [pc set_pc m_events]; rewrite <-?Hnext; try done; (split; [lia|done]).
Qed.

Lemma loop_move_flags fs s l now lp lp' evs :
  all_flags_ok fs s → loops s !! l = Some lp →
  loop_step long_bits l now lp = Some (lp', evs) ∨ (loop_expire lp = Some lp' ∧ evs = []) →
  ∃ fs', feed flags_step evs fs = Some fs' ∧ all_flags_ok fs' (set_loop l lp' s).
Proof.
  intros Hf Hl Hs. destruct (Hf _ _ Hl) as [Ef Hpc].
  destruct Hs as [H|[H ->]]; unfold loop_step, loop_expire, get in H; destruct (pc lp) eqn:Hp; simplify_eq;
    try (repeat (case_match; simplify_eq/=);
         exists fs; (split; [done|]); eapply (flags_set _ _ _ lp); [exact Hf|exact Hl|done|..];
         rewrite ?Hp; cbn; repeat case_match; done).
  - simpl in Ef. simpl. rewrite Ef. eexists; split; [done|]. apply flags_change; [done|].
    destruct (Z.eqb_spec (m_events lp) 0) as [E|E]; split; simpl; [|done|done|split; [lia|done]].
    by rewrite E.
  - by eapply flag_step_ok.
Qed.

Lemma move_flags fs s b s' evs :
  all_flags_ok fs s → Moves s b s' evs → ∃ fs', feed flags_step evs fs = Some fs' ∧ all_flags_ok fs' s'.
Proof.
  intros Hq Hm. destruct Hm as [t th lp lp' evs Hth Hc Hl Hs b _|t th m c f l c' evs lp Hth Hc Hm Hl|t th m Hth Hc Hp|
    t th m Hth Hc Hm|t th m l r Hth Hc Hm|t th m w thw Hth Hc Hm Hw|t th act c Hth Hc Hi Hb|t th lp p Hth Hc Hl Hp|i lp Hl|d];
    try (eexists; split; [reflexivity|exact Hq]).
  - by eapply loop_move_flags.
  - destruct Hm; simpl; eexists; (split; [reflexivity|]);
      try (eapply (flags_set _ _ _ lp); [exact Hq|exact Hl|done..]).
    destruct (Hq _ _ Hl) as [-> Hpc]. apply (flags_change _ s); done.
  - eexists; split; [done|]. eapply (flags_set _ _ _ lp); [done|done|done|by rewrite Hp|rewrite Hp; by destruct p].
  - destruct i; simpl in *; (eexists; split; [done|]); try (by eapply flags_set; eauto).
    + destruct (Hq _ _ Hl) as [-> Hpc]. by apply (flags_change _ s).
    + destruct (Hq _ _ Hl) as [-> Hpc]. by apply (flags_change _ s).
Qed.

(** ** Wake-ups *)

Lemma sema_signal_pos c : 0 ≤ c → 0 < sema_signal sema_max c.
Proof. unfold sema_signal. intros. case_match; lia. Qed.

Lemma signalled_threads s l lp ths lps :
  signalled s l lp →
  (∀ t th, threads s !! t = Some th → signals l (call th) →
     ∃ t' th', ths !! t' = Some th' ∧ signals l (call th')) →
  signalled (mkSys lps ths (clock s)) l lp.
Proof. intros [H|(t & th & Ht & Hs)] F; [by left|right; eauto]. Qed.

(** A thread that was not about to signal [l] does something else. *)
Lemma signalled_call s l lp t th th' lps :
  threads s !! t = Some th → ¬ signals l (call th) → signalled s l lp →
  signalled (mkSys lps (<[t := th']> (threads s)) (clock s)) l lp.
Proof.
  intros Ht Hn H. eapply signalled_threads; [done|]. intros t' th1 H1 Hs. exists t', th1.
  rewrite lookup_insert_ne; [done|]. intros ->. simplify_eq. done.
Qed.

Lemma signals_of_move t m c f l c' evs k :
  CallMove sema_max t m c f l c' evs → signals k c → k = l ∧ f = loop_signal sema_max.
Proof. intros [] [(? & ? & ?)|[?|?]]; simplify_eq; done. Qed.

Definition wakes_ok s : Prop := ∀ l lp, loops s !! l = Some lp → 0 ≤ m_sema lp ∧ wake_ok s l lp.

Lemma loop_move_wake s t th lp lp' now evs :
  threads s !! t = Some th → call th = Idle → 0 ≤ m_sema lp → wake_ok s t lp →
  loop_step long_bits t now lp = Some (lp', evs) ∨ (loop_expire lp = Some lp' ∧ evs = []) →
  0 ≤ m_sema lp' ∧ (wake_ok s t lp').
Proof.
  intros Hth Hc Hn Hw Hs. unfold wake_ok, signalled in *.
  destruct Hs as [H|[H ->]]; unfold loop_step, loop_expire, flag_step, get, isPendingMessage, first in H;
    destruct (pc lp) eqn:Hp; simplify_eq/=;
    repeat (case_match; simplify_eq/=); rewrite ?Z.ltb_lt in *; (split; [lia|]);
    try (destruct (m_queue lp); simplify_eq/=); intuition (congruence || eauto).
Qed.

Lemma wakes_set s t lp lp' :
  wakes_ok s → loops s !! t = Some lp → 0 ≤ m_sema lp' → wake_ok s t lp' → wakes_ok (set_loop t lp' s).
Proof.
  intros Hw Hl Hn Hk k lpk H. simpl in H. destruct (decide (k = t)) as [->|n].
  - rewrite lookup_insert_eq in H. by simplify_eq.
  - rewrite lookup_insert_ne in H by done. by apply Hw.
Qed.

Lemma wakes_thread s t th th' :
  wakes_ok s → threads s !! t = Some th → (∀ l, ¬ signals l (call th)) → wakes_ok (set_thread t th' s).
Proof.
  intros Hw Ht Hn k lpk H. destruct (Hw k lpk H) as [Hk Hwk]. split; [done|]. intros Hx.
  by eapply signalled_call; eauto.
Qed.

Lemma move_wakes s b s' evs :
  wakes_ok s → (∀ l lp, loops s !! l = Some lp → flags_pc (pc lp)) → Moves s b s' evs → wakes_ok s'.
Proof.
  intros Hq Hpc Hm. destruct Hm as [t th lp lp' evs Hth Hc Hl Hs b _|t th m c f l c' evs lp Hth Hc Hm Hl|t th m Hth Hc Hp|
    t th m Hth Hc Hm|t th m l r Hth Hc Hm|t th m w thw Hth Hc Hm Hw|t th act c Hth Hc Hi Hb|t th lp p Hth Hc Hl Hp|i lp Hl|d].
  - destruct (Hq _ _ Hl) as [Hn Hk]. destruct (loop_move_wake _ _ _ _ _ _ _ Hth Hc Hn Hk Hs). by eapply wakes_set.
  - intros k lpk H. simpl in H. destruct (decide (k = l)) as [->|n].
    + rewrite lookup_insert_eq in H. destruct (Hq _ _ Hl) as [Hn Hk]. simplify_eq.
      assert (signalled (set_call t c' th (set_loop l (f lp) s)) l (f lp) ∧ 0 ≤ m_sema (f lp)) as [H1 H2]; [|split; [done|by intros _]].
      pose proof (sema_signal_pos (m_sema lp) Hn).
      destruct Hm; simpl; (split; [|lia]);
        solve [left; simpl; lia
              |right; exists t; eexists; split; [apply lookup_insert_eq|unfold signals; simpl; eauto]].
    + rewrite lookup_insert_ne in H by done. destruct (Hq _ _ H) as [Hn Hk]. split; [done|]. intros Hx.
      eapply signalled_call; [done| |by apply Hk]. rewrite Hc. intros Hsig. by destruct (signals_of_move _ _ _ _ _ _ _ _ Hm Hsig).
  - eapply wakes_thread; eauto. rewrite Hc. by intros k [(? & ? & ?)|[?|?]].
  - eapply wakes_thread; eauto. rewrite Hc. by intros k [(? & ? & ?)|[?|?]].
  - eapply wakes_thread; eauto. rewrite Hc. by intros k [(? & ? & ?)|[?|?]].
  - intros k lpk H. destruct (Hq k lpk H) as [Hk Hwk]. split; [done|]. intros Hx.
    apply (signalled_threads s k lpk (<[w := thread_signal thw]> (<[t := mkThread (t_sema th) Idle]> (threads s)))
             (loops s)); [by apply Hwk|]. intros t' th' Ht' Hs'.
    assert (t' ≠ t) as n.
    { intros ->. rewrite Hth in Ht'. simplify_eq. rewrite Hc in Hs'. by destruct Hs' as [(? & ? & ?)|[?|?]]. }
    destruct (decide (t' = w)) as [->|n'].
    + simpl in Hw. rewrite lookup_insert_ne in Hw by done. simplify_eq.
      eexists w, _. by rewrite lookup_insert_eq.
    + exists t', th'. by rewrite !lookup_insert_ne by done.
  - eapply wakes_thread; eauto. rewrite Hc. by intros k [(? & ? & ?)|[?|?]].
  - destruct (Hq _ _ Hl) as [Hn Hk]. eapply wakes_set; eauto. intros Hx. apply Hk. rewrite Hp.
    specialize (Hpc _ _ Hl). rewrite Hp in Hpc. destruct p; simpl in *; intuition congruence.
  - destruct (Hq _ _ Hl) as [Hn Hk]. pose proof (sema_signal_pos (m_sema lp) Hn).
    eapply wakes_set; eauto; destruct i; simpl; try lia; intros _; left; simpl; lia.
  - done.
Qed.

End steps.
