(* ===== verification/ItcMsgs.v ===== *)
(** * Every step keeps what is known of the messages

    The phase of a message changes only at the hands of the thread that has it, so
    the calls of other threads stay as they are; the one exception is a message
    that a thread waits for. *)

From Stdlib Require Import ZArith Lia.
From stdpp Require Import numbers.
From S2P Require Import Prelude Itc ItcSpec ItcInv ItcSteps.
Local Open Scope Z_scope.

Section msgs.
Context (msgs : nat → option Message) (long_bits sema_max : Z) (Hpair : paired msgs).

Implicit Types (l t m q r w : nat) (ph : gmap nat Phase) (a : Spec) (s : Sys) (lp : EventLoop) (th : Thread).

Local Abbreviation Moves := (Moves msgs long_bits sema_max).
Local Abbreviation CallInv := (CallInv msgs).
Local Abbreviation responses_ok := (responses_ok msgs).
Local Abbreviation call_ok := (call_ok msgs).
Local Abbreviation sync_of m w := (msgs m = Some (RequestMessage (SyncReturnHandler w))).

(** ** Frames *)

(** [t] has a say in the phase of [m]. *)
Definition concerns ph t m : Prop :=
  ph !! m = Some (Home t) ∨ ph !! m = Some (Served t)
  ∨ (∃ l r, msgs m = Some (RequestMessage (AsyncReturnHandler l r)) ∧ ph !! m = Some (Answered t) ∧ ph !! r = Some Away)
  ∨ (∃ q, msgs m = Some (ResponseMessage q) ∧ ph !! m = Some Away ∧ ph !! q = Some (Answered t))
  ∨ sync_of m t.

(** Nothing happens to the message, or it stays out while [t] waits for it. *)
Definition keeps ph ph' t m : Prop :=
  ph' !! m = ph !! m
  ∨ (sync_of m t ∧ ∃ p p', ph !! m = Some p ∧ out p ∧ p ≠ Served t ∧ ph' !! m = Some p' ∧ out p').

Lemma keeps_phase ph ph' t m p : keeps ph ph' t m → ph !! m = Some p → ¬ out p ∨ p = Served t → ph' !! m = Some p.
Proof.
  intros [->|(_ & p1 & p2 & H1 & H2 & H3 & _)] Hp Ho; [done|]. rewrite Hp in H1. simplify_eq. by destruct Ho.
Qed.

Lemma keeps_awaited ph ph' t m c : keeps ph ph' t m → awaited ph m c → awaited ph' m c.
Proof.
  unfold awaited. intros [->|(_ & p1 & p2 & H1 & H2 & H3 & H4 & H5)]; [done|].
  intros (p & Hp & [[_ ->]|[Ha ->]]); rewrite H1 in Hp; simplify_eq; [by eauto|by destruct p].
Qed.

Lemma itc_call_ok_frame ph ph' t th :
  (∀ m, concerns ph t m → keeps ph ph' t m) → call_ok ph t th → call_ok ph' t th.
Proof.
  intros F. unfold ItcInv.call_ok, put_ok. destruct (call th) as [|l m sy|l m sy|m|m| | | |]; try done.
  - destruct sy.
    + intros [[H1 H2] H3]. rewrite (keeps_phase ph ph' t m (Home t)); [done|by apply F; left|done|by left; intros []].
    + destruct (msgs m) as [[rh|q]|] eqn:Hm; [|intros [(H1 & H2 & H3) H4]|by intros []].
      * intros [[H|(H & Hr & Hrh)] Hs]; (split; [|done]); [left|right].
        -- eapply keeps_phase; [apply F; right; by left|done|by right].
        -- split_and!; [eapply keeps_phase; [apply F; by left|done|by left; intros []]|done|].
           destruct rh; [done..|]. eapply keeps_phase; [apply F; by left|done|by left; intros []].
      * split; [|done]. split_and!; [..|done].
        -- eapply keeps_phase; [apply F; right; right; right; left; by eauto|done|by left; intros []].
        -- eapply keeps_phase; [apply F; right; right; left; by eauto|done|by left; intros []].
  - destruct sy; [|done]. intros [Hm Ha]. split; [done|]. eapply keeps_awaited; [apply F; by do 4 right|done].
  - intros [Hm Ha]. split; [done|]. eapply keeps_awaited; [apply F; by do 4 right|done].
  - intros [Hm Ha]. split; [|done]. eapply keeps_phase; [apply F; right; by left|done|by right].
Qed.

Lemma CallInv_update ph ph' ths t th th' :
  CallInv ph ths → ths !! t = Some th → call_ok ph' t th' →
  (∀ t' m, t' ≠ t → concerns ph t' m → keeps ph ph' t' m) →
  (∀ m w p, sync_of m w → ph' !! m = Some p → away p →
     (w = t ∧ in_sync (call th') m)
     ∨ (∃ p0, ph !! m = Some p0 ∧ away p0 ∧ (w = t → in_sync (call th) m → in_sync (call th') m))) →
  CallInv ph' (<[t := th']> ths).
Proof.
  intros [C W] Ht Hc F S. split.
  - intros t' th1 H1. destruct (decide (t' = t)) as [->|n].
    + rewrite lookup_insert_eq in H1. by simplify_eq.
    + rewrite lookup_insert_ne in H1 by done. eapply itc_call_ok_frame; [|by apply C]. intros m. by apply F.
  - intros m w p Hm Hp Ha. destruct (S m w p Hm Hp Ha) as [[-> Hs]|(p0 & Hp0 & Ha0 & Hs)].
    + exists th'. by rewrite lookup_insert_eq.
    + destruct (W m w p0 Hm Hp0 Ha0) as (thw & Hw & Hi). destruct (decide (w = t)) as [->|n].
      * exists th'. rewrite lookup_insert_eq. simplify_eq. auto.
      * exists thw. by rewrite lookup_insert_ne by done.
Qed.

(** A thread goes on without touching a message. *)
Lemma CallInv_call ph ths t th th' :
  CallInv ph ths → ths !! t = Some th → call_ok ph t th' →
  (∀ m, in_sync (call th) m → in_sync (call th') m) → CallInv ph (<[t := th']> ths).
Proof.
  intros C Ht Hc Hs. eapply CallInv_update; eauto.
  - intros. by left.
  - intros m w p Hm Hp Ha. right. eauto.
Qed.

(** ** Mailboxes *)

Lemma QueueInv_loop ph lps l lp lp' :
  QueueInv ph lps → lps !! l = Some lp → m_queue lp' = m_queue lp → QueueInv ph (<[l := lp']> lps).
Proof.
  intros [S Q N] Hl E. split.
  - intros m k Hk. destruct (S m k Hk) as (lpk & Hlk & Hm). destruct (decide (k = l)) as [->|n].
    + exists lp'. rewrite lookup_insert_eq, E. by simplify_eq.
    + exists lpk. by rewrite lookup_insert_ne by done.
  - intros m k lpk Hk Hm. destruct (decide (k = l)) as [->|n].
    + rewrite lookup_insert_eq in Hk. simplify_eq. rewrite E in Hm. by eapply Q.
    + rewrite lookup_insert_ne in Hk by done. by eapply Q.
  - intros k lpk Hk. destruct (decide (k = l)) as [->|n].
    + rewrite lookup_insert_eq in Hk. simplify_eq. rewrite E. by eapply N.
    + rewrite lookup_insert_ne in Hk by done. by eapply N.
Qed.

Lemma QueueInv_phases ph ph' lps :
  QueueInv ph lps → (∀ m l, ph' !! m = Some (Sent l) ↔ ph !! m = Some (Sent l)) → QueueInv ph' lps.
Proof.
  intros [S Q N] F. split; [intros m l H; by apply S, F| |done].
  intros m l lp Hl Hm. apply F. by eapply Q.
Qed.

Lemma QueueInv_put ph ph' lps l lp m :
  QueueInv ph lps → lps !! l = Some lp → (∀ k, ph !! m ≠ Some (Sent k)) → ph' !! m = Some (Sent l) →
  (∀ m' k, m' ≠ m → ph' !! m' = Some (Sent k) ↔ ph !! m' = Some (Sent k)) →
  QueueInv ph' (<[l := put m lp]> lps).
Proof.
  intros [S Q N] Hl Hm Hm' F. split.
  - intros m' k Hk. destruct (decide (m' = m)) as [->|n].
    + rewrite Hm' in Hk. simplify_eq. exists (put m lp). rewrite lookup_insert_eq. split; [done|]. simpl. set_solver.
    + apply F in Hk; [|done]. destruct (S m' k Hk) as (lpk & Hlk & Hin). destruct (decide (k = l)) as [->|n'].
      * exists (put m lp). rewrite lookup_insert_eq. simplify_eq. split; [done|]. simpl. set_solver.
      * exists lpk. by rewrite lookup_insert_ne by done.
  - intros m' k lpk Hk Hin. destruct (decide (k = l)) as [->|n'].
    + rewrite lookup_insert_eq in Hk. simplify_eq. simpl in Hin. apply elem_of_app in Hin as [Hin|Hin].
      * destruct (decide (m' = m)) as [->|n]; [done|]. apply F; [done|]. by eapply Q.
      * by apply list_elem_of_singleton in Hin as ->.
    + rewrite lookup_insert_ne in Hk by done. destruct (decide (m' = m)) as [->|n].
      * destruct (Hm k). by eapply Q.
      * apply F; [done|]. by eapply Q.
  - intros k lpk Hk. destruct (decide (k = l)) as [->|n].
    + rewrite lookup_insert_eq in Hk. simplify_eq. simpl. apply NoDup_snoc. split; [|by eapply N].
      intros Hin. destruct (Hm l). by eapply Q.
    + rewrite lookup_insert_ne in Hk by done. by eapply N.
Qed.

Lemma QueueInv_get ph ph' lps l lp lp' m :
  QueueInv ph lps → lps !! l = Some lp → m_queue lp = m :: m_queue lp' → (∀ k, ph' !! m ≠ Some (Sent k)) →
  (∀ m' k, m' ≠ m → ph' !! m' = Some (Sent k) ↔ ph !! m' = Some (Sent k)) →
  QueueInv ph' (<[l := lp']> lps).
Proof.
  intros [S Q N] Hl E Hm F. pose proof (N _ _ Hl) as Hn. rewrite E in Hn. apply NoDup_cons in Hn as [Hnin Hn]. split.
  - intros m' k Hk. assert (m' ≠ m) as n by (intros ->; by destruct (Hm k)).
    apply F in Hk; [|done]. destruct (S m' k Hk) as (lpk & Hlk & Hin). destruct (decide (k = l)) as [->|n'].
    + exists lp'. rewrite lookup_insert_eq. simplify_eq. rewrite E in Hin. set_solver.
    + exists lpk. by rewrite lookup_insert_ne by done.
  - intros m' k lpk Hk Hin. destruct (decide (k = l)) as [->|n'].
    + rewrite lookup_insert_eq in Hk. simplify_eq. assert (m' ≠ m) by (intros ->; done).
      apply F; [done|]. eapply Q; [done|]. rewrite E. by right.
    + rewrite lookup_insert_ne in Hk by done. assert (m' ≠ m) as n.
      { intros ->. pose proof (Q _ _ _ Hk Hin) as H1. assert (ph !! m = Some (Sent l)) as H2 by (eapply Q; [done|]; rewrite E; by left).
        rewrite H1 in H2. by simplify_eq. }
      apply F; [done|]. by eapply Q.
  - intros k lpk Hk. destruct (decide (k = l)) as [->|n].
    + rewrite lookup_insert_eq in Hk. by simplify_eq.
    + rewrite lookup_insert_ne in Hk by done. by eapply N.
Qed.

(** ** One lemma per step that touches a message *)

Lemma keeps_insert ph m p t m' :
  (¬ concerns ph t m ∨ (sync_of m t ∧ ∃ p0, ph !! m = Some p0 ∧ out p0 ∧ p0 ≠ Served t ∧ out p)) →
  concerns ph t m' → keeps ph (<[m := p]> ph) t m'.
Proof.
  intros H Hc. destruct (decide (m' = m)) as [->|n]; [|left; by rewrite lookup_insert_ne].
  destruct H as [H|(Hs & p0 & H1 & H2 & H3 & H4)]; [done|]. right. split; [done|]. exists p0, p.
  by rewrite lookup_insert_eq.
Qed.

Lemma keeps_insert2 ph m p r p' t m' :
  ¬ concerns ph t m → ¬ concerns ph t r → concerns ph t m' → keeps ph (<[m := p]> (<[r := p']> ph)) t m'.
Proof.
  intros Hm Hr Hc. left. rewrite !lookup_insert_ne; [done|..]; intros ->; done.
Qed.

Ltac unconcerned :=
  let H := fresh in
  intros H; destruct H as [?|[?|[(? & ? & ? & ? & ?)|[(? & ? & ? & ?)|?]]]]; congruence.

Lemma away_insert ph m p m' (q : Phase) :
  (<[m := q]> ph) !! m' = Some p → m' ≠ m → ph !! m' = Some p.
Proof. intros H n. by rewrite lookup_insert_ne in H. Qed.

Lemma responses_insert ph m p :
  responses_ok ph → (∀ q, msgs m = Some (ResponseMessage q) → ∀ l, p ≠ Sent l) →
  ((∃ t, p = Answered t) ∨ ∀ t, ph !! m = Some (Answered t) → ∀ l r, msgs m ≠ Some (RequestMessage (AsyncReturnHandler l r))) →
  responses_ok (<[m := p]> ph).
Proof.
  intros R Hr Hq r l q Hl Hm. destruct (decide (r = m)) as [->|n].
  { rewrite lookup_insert_eq in Hl. simplify_eq. by destruct (Hr q Hm l). }
  rewrite lookup_insert_ne in Hl by done. destruct (R r l q Hl Hm) as (t & k & Ht & Hk).
  destruct (decide (q = m)) as [->|n'].
  - destruct Hq as [[t' ->]|Hq]; [|by destruct (Hq t Ht k r)]. exists t', k. by rewrite lookup_insert_eq.
  - exists t, k. by rewrite lookup_insert_ne.
Qed.

Section one.
Context (ph : gmap nat Phase) (ths : gmap nat Thread) (lps : gmap nat EventLoop).
Context (HC : CallInv ph ths) (HQ : QueueInv ph lps) (HR : responses_ok ph).

Definition result ph' ths' lps' : Prop := CallInv ph' ths' ∧ QueueInv ph' lps' ∧ responses_ok ph'.

Lemma sent_insert m p l m' k :
  m' ≠ m → (<[m := p]> ph) !! m' = Some (Sent k) ↔ ph !! m' = Some (Sent k).
Proof. intros n. by rewrite lookup_insert_ne. Qed.

(** Mailbox::post() puts a message that its owner has. *)
Lemma put_owned t th l lp m sy p rh :
  ths !! t = Some th → call th = PostPut l m sy → lps !! l = Some lp → t_sema th = 0 →
  msgs m = Some (RequestMessage rh) → ph !! m = Some p → p = Home t ∧ (rh = SyncReturnHandler t ∧ sy = true ∨ is_sync rh = false ∧ sy = false)
    ∨ p = Served t ∧ sy = false →
  result (<[m := Sent l]> ph) (<[t := mkThread (t_sema th) (PostSignal l m sy)]> ths) (<[l := put m lp]> lps).
Proof.
  intros Ht Hc Hl Hs Hm Hp Hcase. split_and!.
  - eapply CallInv_update; [exact HC|exact Ht|..].
    + unfold ItcInv.call_ok. simpl. destruct sy; [|done]. destruct Hcase as [[-> [[-> _]|[_ ?]]]|[_ ?]]; [|done..].
      split; [done|]. exists (Sent l). rewrite lookup_insert_eq. split; [done|]. by left.
    + intros t' m' n Hcon. apply keeps_insert; [|done].
      destruct Hcase as [[-> [[-> _]|[Hi _]]]|[-> _]].
      * left. unconcerned.
      * left. destruct rh; try done; unconcerned.
      * destruct rh as [|w|k r]; [left; unconcerned| |left; unconcerned].
        destruct (decide (w = t')) as [->|nw]; [|left; unconcerned].
        right. split; [done|]. exists (Served t). split_and!; [done|done|congruence|done].
    + intros m' w p' Hm' Hp' Ha. destruct (decide (m' = m)) as [->|n].
      * rewrite Hm in Hm'. simplify_eq. destruct Hcase as [[-> [[? ->]|[Hi _]]]|[-> ->]]; [simplify_eq|done|].
        -- left. split; [done|]. left. by exists l.
        -- right. exists (Served t). split_and!; [done|done|]. rewrite Hc. intros _ [[? ?]|?]; done.
      * right. exists p'. apply away_insert in Hp'; [|done]. split_and!; [done|done|]. rewrite Hc. intros _ [[? ?]|?]; simplify_eq.
  - eapply QueueInv_put; [exact HQ|done| |by rewrite lookup_insert_eq|].
    + intros k Hk. rewrite Hp in Hk. destruct Hcase as [[-> _]|[-> _]]; done.
    + intros. by apply sent_insert.
  - apply responses_insert; [done|congruence|]. right. rewrite Hp. destruct Hcase as [[-> _]|[-> _]]; done.
Qed.

(** A phase changes that only [t] has a say in. *)
Lemma phase_owned t th th' m p p0 :
  ths !! t = Some th → call_ok (<[m := p]> ph) t th' →
  (∀ m', m' ≠ m ∨ away p → in_sync (call th) m' → in_sync (call th') m') →
  ph !! m = Some p0 → ¬ out p ∨ (∃ k, p = Served k) → (∀ l, p0 ≠ Sent l) → (∀ w, sync_of m w → away p → away p0) →
  (∀ t', t' ≠ t → ¬ concerns ph t' m ∨ (sync_of m t' ∧ out p0 ∧ p0 ≠ Served t' ∧ out p)) →
  ((∃ t, p = Answered t) ∨ ∀ t, p0 = Answered t → ∀ l r, msgs m ≠ Some (RequestMessage (AsyncReturnHandler l r))) →
  result (<[m := p]> ph) (<[t := th']> ths) lps.
Proof.
  intros Ht Hc Hin Hp Hno H0 Hsync Hcon Hr. split_and!.
  - eapply CallInv_update; [exact HC|exact Ht|done|..].
    + intros t' m' n Hm'. apply keeps_insert; [|done]. destruct (Hcon t' n) as [?|(? & ? & ? & ?)]; [by left|right]. eauto 8.
    + intros m' w p' Hm' Hp' Ha. right. destruct (decide (m' = m)) as [->|n].
      * rewrite lookup_insert_eq in Hp'. simplify_eq. exists p0. split_and!; [done|by eapply Hsync|auto].
      * apply away_insert in Hp'; [|done]. eauto 8.
  - eapply QueueInv_phases; [exact HQ|]. intros m' k. destruct (decide (m' = m)) as [->|n]; [|by apply sent_insert].
    rewrite lookup_insert_eq, Hp. split; intros [= ->]; [|by destruct (H0 k)]. destruct Hno as [Hno|[k' ?]]; [by destruct Hno|done].
  - apply responses_insert; [done| |].
    + intros q Hq l ->. destruct Hno as [Hno|[k' ?]]; [by destruct Hno|done].
    + rewrite Hp. destruct Hr as [Hr|Hr]; [by left|right]. intros t' [= ->]. by eapply Hr.
Qed.

(** Mailbox::post() puts the response of a request that [t] has answered. *)
Lemma put_response t th l lp m q :
  ths !! t = Some th → call th = PostPut l m false → lps !! l = Some lp → t_sema th = 0 →
  msgs m = Some (ResponseMessage q) → ph !! m = Some Away → ph !! q = Some (Answered t) →
  msgs q = Some (RequestMessage (AsyncReturnHandler l m)) →
  result (<[m := Sent l]> ph) (<[t := mkThread (t_sema th) (PostSignal l m false)]> ths) (<[l := put m lp]> lps).
Proof.
  intros Ht Hc Hl Hs Hm Hp Hq Hmq. split_and!.
  - eapply CallInv_update; [exact HC|exact Ht|done|..].
    + intros t' m' n Hcon. apply keeps_insert; [|done]. left. intros [?|[?|[(? & ? & ? & ? & ?)|[(? & ? & ? & ?)|?]]]]; congruence.
    + intros m' w p' Hm' Hp' Ha. right. destruct (decide (m' = m)) as [->|n]; [congruence|].
      apply away_insert in Hp'; [|done]. exists p'. split_and!; [done|done|]. rewrite Hc. intros _ [[? ?]|?]; simplify_eq.
  - eapply QueueInv_put; [exact HQ|done|by rewrite Hp|by rewrite lookup_insert_eq|]. intros. by apply sent_insert.
  - intros r k q' Hr Hmr. destruct (decide (r = m)) as [->|n].
    + rewrite lookup_insert_eq in Hr. simplify_eq. exists t, k. rewrite lookup_insert_ne; [done|]. intros ->. congruence.
    + rewrite lookup_insert_ne in Hr by done. destruct (HR r k q' Hr Hmr) as (t' & k' & H1 & H2).
      exists t', k'. rewrite lookup_insert_ne; [done|]. intros ->. congruence.
Qed.

(** Mailbox::processMessages() gets a request. *)
Lemma get_request l lp lp' m :
  lps !! l = Some lp → m_queue lp = m :: m_queue lp' → (∀ q, msgs m ≠ Some (ResponseMessage q)) →
  (∃ th, ths !! l = Some th ∧ call th = Idle) →
  result (<[m := Served l]> ph) ths (<[l := lp']> lps) ∧ ph !! m = Some (Sent l).
Proof.
  intros Hl E Hm (th & Ht & Hc).
  assert (ph !! m = Some (Sent l)) as Hp by (eapply qi_queue; [exact HQ|exact Hl|rewrite E; by left]).
  split; [|done]. split_and!.
  - rewrite <-(insert_id ths l th) by done. eapply CallInv_update; [exact HC|exact Ht|..].
    + unfold ItcInv.call_ok. rewrite Hc. pose proof (ci_calls _ _ _ HC l th Ht) as H. unfold ItcInv.call_ok in H. by rewrite Hc in H.
    + intros t' m' n Hcon. apply keeps_insert; [|done].
      destruct (decide (sync_of m t')) as [Hs|Hs]; [right|left; unconcerned]. split; [done|]. by exists (Sent l).
    + intros m' w p' Hm' Hp' Ha. right. destruct (decide (m' = m)) as [->|n]; [by exists (Sent l)|].
      apply away_insert in Hp'; [|done]. by exists p'.
  - eapply QueueInv_get; [exact HQ|done|done|by rewrite lookup_insert_eq|]. intros. by apply sent_insert.
  - apply responses_insert; [done|by intros q ?; destruct (Hm q)|]. right. by rewrite Hp.
Qed.

(** ... or a response: its request comes home with it. *)
Lemma get_response l lp lp' m q :
  lps !! l = Some lp → m_queue lp = m :: m_queue lp' → msgs m = Some (ResponseMessage q) →
  (∃ th, ths !! l = Some th ∧ call th = Idle) →
  result (<[m := Home l]> (<[q := Home l]> ph)) ths (<[l := lp']> lps) ∧ ph !! m = Some (Sent l).
Proof.
  intros Hl E Hm (th & Ht & Hc).
  assert (ph !! m = Some (Sent l)) as Hp by (eapply qi_queue; [exact HQ|exact Hl|rewrite E; by left]).
  destruct (HR m l q Hp Hm) as (tq & k & Hq & Hmq).
  assert (m ≠ q) as nq by congruence. pose proof (Hpair _ _ _ Hmq) as Hmk.
  split; [|done]. split_and!.
  - rewrite <-(insert_id ths l th) by done. eapply CallInv_update; [exact HC|exact Ht|..].
    + unfold ItcInv.call_ok. rewrite Hc. pose proof (ci_calls _ _ _ HC l th Ht) as H. unfold ItcInv.call_ok in H. by rewrite Hc in H.
    + intros t' m' n Hcon. apply keeps_insert2; [unconcerned|unconcerned|done].
    + intros m' w p' Hm' Hp' Ha. right. destruct (decide (m' = m)) as [->|n]; [congruence|].
      apply away_insert in Hp'; [|done]. destruct (decide (m' = q)) as [->|n']; [congruence|].
      apply away_insert in Hp'; [|done]. by exists p'.
  - eapply QueueInv_get; [exact HQ|done|done|by rewrite lookup_insert_eq|].
    intros m' k' n. rewrite lookup_insert_ne by done. destruct (decide (m' = q)) as [->|n']; [|by apply sent_insert].
    rewrite lookup_insert_eq, Hq. done.
  - intros r k' q' Hr Hmr. destruct (decide (r = m)) as [->|n]; [by rewrite lookup_insert_eq in Hr|].
    rewrite lookup_insert_ne in Hr by done. destruct (decide (r = q)) as [->|n']; [congruence|].
    rewrite lookup_insert_ne in Hr by done. destruct (HR r k' q' Hr Hmr) as (t' & k2 & H1 & H2).
    exists t', k2. pose proof (Hpair _ _ _ H2).
    rewrite !lookup_insert_ne; [done| |]; intros ->; congruence.
Qed.

(** ServiceMessage::returnToSender() wakes the thread that waits. *)
Lemma return_sync t th m w thw :
  ths !! t = Some th → call th = Returning m → sync_of m w → <[t := mkThread (t_sema th) Idle]> ths !! w = Some thw →
  result (<[m := Answered t]> ph) (<[w := thread_signal thw]> (<[t := mkThread (t_sema th) Idle]> ths)) lps
  ∧ ph !! m = Some (Served t).
Proof.
  intros Ht Hc Hm Hw. pose proof (ci_calls _ _ _ HC t th Ht) as Hok. unfold ItcInv.call_ok in Hok. rewrite Hc in Hok.
  destruct Hok as [Hp Hs]. destruct (ci_waits _ _ _ HC m w _ Hm Hp) as (th2 & Hw2 & Hin); [done|].
  assert (w ≠ t) as n. { intros ->. rewrite Ht in Hw2. simplify_eq. rewrite Hc in Hin. by destruct Hin as [[? ?]|?]. }
  rewrite lookup_insert_ne in Hw by done. rewrite Hw2 in Hw. simplify_eq. split; [|done]. split_and!.
  - split.
    + intros t' th' Ht'. destruct (decide (t' = w)) as [->|n'].
      * rewrite lookup_insert_eq in Ht'. simplify_eq. pose proof (ci_calls _ _ _ HC w thw Hw2) as Hok.
        assert (awaited ph m (t_sema thw)) as (p & Hp' & Ha).
        { unfold ItcInv.call_ok in Hok. destruct Hin as [[l E]|E]; rewrite E in Hok; by destruct Hok. }
        rewrite Hp in Hp'. simplify_eq. destruct Ha as [[_ Ha]|[Ha _]]; [|done].
        assert (awaited (<[m := Answered t]> ph) m (t_sema (thread_signal thw))) as Ha'.
        { exists (Answered t). rewrite lookup_insert_eq. split; [done|]. right. split; [done|]. simpl. by rewrite Ha. }
        unfold ItcInv.call_ok. destruct Hin as [[l E]|E]; simpl; rewrite E; done.
      * rewrite lookup_insert_ne in Ht' by done. destruct (decide (t' = t)) as [->|n2].
        -- rewrite lookup_insert_eq in Ht'. by simplify_eq.
        -- rewrite lookup_insert_ne in Ht' by done. eapply itc_call_ok_frame; [|by eapply ci_calls].
           intros m' Hcon. apply keeps_insert; [|done]. left. unconcerned.
    + intros m' w' p' Hm' Hp' Ha. destruct (decide (m' = m)) as [->|nm].
      * assert (w' = w) as -> by congruence. exists (thread_signal thw). by rewrite lookup_insert_eq.
      * apply away_insert in Hp'; [|done]. destruct (ci_waits _ _ _ HC m' w' p' Hm' Hp' Ha) as (th' & Ht' & Hi).
        destruct (decide (w' = w)) as [->|n'].
        -- exists (thread_signal thw). rewrite lookup_insert_eq. simplify_eq. by split.
        -- exists th'. rewrite lookup_insert_ne by done. destruct (decide (w' = t)) as [->|n2].
           ++ simplify_eq. rewrite Hc in Hi. by destruct Hi as [[? ?]|?].
           ++ by rewrite lookup_insert_ne.
  - eapply QueueInv_phases; [exact HQ|]. intros m' k. destruct (decide (m' = m)) as [->|n']; [|by apply sent_insert].
    by rewrite lookup_insert_eq, Hp.
  - apply responses_insert; [done|done|]. left. eauto.
Qed.

End one.

(** Thread::wait() returns. *)
Lemma wait_done ph ths lps t th m :
  CallInv ph ths → QueueInv ph lps → responses_ok ph →
  ths !! t = Some th → call th = ThreadWait m → 0 < t_sema th →
  result (<[m := Home t]> ph) (<[t := mkThread (t_sema th - 1) Idle]> ths) lps
  ∧ sync_of m t ∧ answered (ph !! m) = true.
Proof.
  intros HC HQ HR Ht Hc Hs. pose proof (ci_calls _ _ _ HC t th Ht) as Hok. unfold ItcInv.call_ok in Hok. rewrite Hc in Hok.
  destruct Hok as [Hm (p & Hp & [[_ ?]|[Ha H1]])]; [lia|]. rewrite Hp. split; [|done]. destruct p as [| | |k|]; try done.
  eapply (phase_owned ph ths lps HC HQ HR t th _ m (Home t)); try done.
  - unfold ItcInv.call_ok. simpl. lia.
  - intros m' [n|Ha']; [|by destruct (Ha' t)]. rewrite Hc. intros [[? ?]|?]; simplify_eq.
  - left. intros [].
  - intros t' n. left. unconcerned.
  - right. congruence.
Qed.

(** ServiceMessage::returnToSender() of a message that nobody waits for. *)
Lemma return_other ph ths lps t th m rh c :
  CallInv ph ths → QueueInv ph lps → responses_ok ph →
  ths !! t = Some th → call th = Returning m → msgs m = Some (RequestMessage rh) → is_sync rh = false →
  (t_sema th = 0 → call_ok (<[m := Answered t]> ph) t (mkThread (t_sema th) c)) →
  result (<[m := Answered t]> ph) (<[t := mkThread (t_sema th) c]> ths) lps ∧ ph !! m = Some (Served t).
Proof.
  intros HC HQ HR Ht Hc Hm Hrh Hok'. pose proof (ci_calls _ _ _ HC t th Ht) as Hok. unfold ItcInv.call_ok in Hok. rewrite Hc in Hok.
  destruct Hok as [Hp Hs]. split; [|done].
  eapply (phase_owned ph ths lps HC HQ HR t th _ m (Answered t)); eauto.
  - intros m' _. rewrite Hc. intros [[? ?]|?]; simplify_eq.
  - by intros w _ _ t'.
  - intros t' n. left. destruct rh; try done; unconcerned.
Qed.

(** Mailbox::post() puts a request with an asynchronous return handler: its response
    is away from now on. *)
Lemma put_async ph ths lps t th l lp m k r :
  CallInv ph ths → QueueInv ph lps → responses_ok ph →
  ths !! t = Some th → call th = PostPut l m false → lps !! l = Some lp → t_sema th = 0 →
  msgs m = Some (RequestMessage (AsyncReturnHandler k r)) → ph !! m = Some (Home t) → ph !! r = Some (Home t) →
  result (<[m := Sent l]> (<[r := Away]> ph)) (<[t := mkThread (t_sema th) (PostSignal l m false)]> ths) (<[l := put m lp]> lps).
Proof.
  intros HC HQ HR Ht Hc Hl Hs Hm Hp Hr. pose proof (Hpair _ _ _ Hm) as Hmr. assert (m ≠ r) as n by congruence.
  rewrite insert_insert_ne by done.
  assert (result (<[m := Sent l]> ph) (<[t := mkThread (t_sema th) (PostSignal l m false)]> ths) (<[l := put m lp]> lps))
    as (HC' & HQ' & HR') by (eapply put_owned; eauto).
  rewrite <-(insert_insert_eq ths t (mkThread (t_sema th) (PostSignal l m false)) (mkThread (t_sema th) (PostSignal l m false))).
  eapply (phase_owned _ _ _ HC' HQ' HR' t (mkThread (t_sema th) (PostSignal l m false)) _ r Away (Home t)); try done.
  - by rewrite lookup_insert_eq.
  - by rewrite lookup_insert_ne.
  - left. intros [].
  - congruence.
  - intros t' n'. left. assert ((<[m := Sent l]> ph) !! r = Some (Home t)) by by rewrite lookup_insert_ne.
    unconcerned.
  - by right.
Qed.

(** ** All steps *)

Lemma requests_insert ph m p :
  requests_ok msgs ph → (∀ l r, msgs m = Some (RequestMessage (AsyncReturnHandler l r)) → out p → ph !! r = Some Away) →
  (∀ q, msgs m = Some (ResponseMessage q) → ph !! m = Some Away → p = Away ∨ ∀ p', ph !! q = Some p' → ¬ out p') →
  requests_ok msgs (<[m := p]> ph).
Proof.
  intros R H1 H2 m' p' l r Hm Hp Ho. pose proof (Hpair _ _ _ Hm) as Hr.
  assert (ph !! r = Some Away ∧ r ≠ m') as [Ha n].
  { destruct (decide (m' = m)) as [->|n].
    - rewrite lookup_insert_eq in Hp. simplify_eq. split; [by eapply H1|congruence].
    - rewrite lookup_insert_ne in Hp by done. split; [by eapply R|congruence]. }
  destruct (decide (r = m)) as [->|n']; [|by rewrite lookup_insert_ne].
  rewrite lookup_insert_ne in Hp by done. rewrite lookup_insert_eq.
  destruct (H2 m' Hr Ha) as [->|H2']; [done|]. by destruct (H2' p' Hp).
Qed.

End msgs.
