(* ===== verification/ItcTheorems.v ===== *)
(** * Mailboxes, synchronous calls and event flags

    Each run of a system of event loops and threads is a run of the abstract
    machine; no signal is lost between the test of a mailbox and the wait. *)

From Stdlib Require Import ZArith Lia.
From stdpp Require Import numbers.
From S2P Require Import Prelude Itc ItcSpec ItcInv ItcSteps ItcMsgs.
Local Open Scope Z_scope.

Section theorems.
Context (msgs : nat → option Message) (long_bits sema_max : Z) (Hpair : paired msgs) (sema_pos : 0 < sema_max).

Implicit Types (l t m q r w : nat) (ph : gmap nat Phase) (a : Spec) (s : Sys) (lp : EventLoop) (th : Thread).

Local Abbreviation Moves := (Moves msgs long_bits sema_max).
Local Abbreviation result := (result msgs).

Lemma is_response m : (∃ q, msgs m = Some (ResponseMessage q)) ∨ ¬ ∃ q, msgs m = Some (ResponseMessage q).
Proof. destruct (msgs m) as [[rh|q]|]; [right; by intros [? ?]|left; by eauto|right; by intros [? ?]]. Qed.

(** What the application may do makes a call that has its message. *)
Lemma begin_ok a s t th act c :
  call_ok msgs (phases a) t th → call th = Idle → begin_call act = Some c → allowed msgs a s (App t act) →
  call_ok msgs (phases a) t (mkThread (t_sema th) c).
Proof.
  unfold call_ok, put_ok. intros Hs Hc Hb Ha. rewrite Hc in Hs. destruct act; simplify_eq/=; try done.
  - destruct Ha as [Ha _]. unfold may_post in Ha. split; [|done]. destruct (msgs msg) as [[rh|]|]; [|done..].
    destruct Ha as [?|(? & ? & Hr)]; [by left|right]. by split_and!.
  - by destruct Ha as (? & ? & _).
Qed.

(** Mailbox::post(), the critical section. *)
Lemma put_moves ph s t th l lp m sy :
  result ph (threads s) (loops s) → requests_ok msgs ph →
  threads s !! t = Some th → call th = PostPut l m sy → loops s !! l = Some lp → put_ok msgs ph t l m sy → t_sema th = 0 →
  ∃ ph', feed (phase_step msgs) [EPost t l m] ph = Some ph'
    ∧ result ph' (<[t := mkThread (t_sema th) (PostSignal l m sy)]> (threads s)) (<[l := put m lp]> (loops s))
    ∧ requests_ok msgs ph'.
Proof.
  intros (HC & HQ & HR) HA Hth Hc Hl Hput Hs. unfold put_ok in Hput. simpl. unfold post_phases.
  destruct sy.
  { destruct Hput as [Hp Hm]. exists (<[m := Sent l]> ph). rewrite Hm, Hp, decide_True by done.
    split_and!; [done| |apply requests_insert; [done|done|congruence|congruence]].
    eapply put_owned; eauto. }
  destruct (msgs m) as [[rh|q]|] eqn:Hm; [|destruct Hput as (Hp & Hq & Hmq)|done].
  - destruct Hput as [Hp|(Hp & Hrh & Hr)]; rewrite Hp, decide_True by done.
    + exists (<[m := Sent l]> ph). split_and!; [done|eapply put_owned; eauto|].
      apply requests_insert; [done|done| |congruence]. intros k r Hk _. by eapply HA.
    + destruct rh as [|w|k r]; [|done|].
      * exists (<[m := Sent l]> ph). split_and!; [done|eapply put_owned; eauto|].
        apply requests_insert; [done|done|congruence|congruence].
      * rewrite decide_True by done. exists (<[m := Sent l]> (<[r := Away]> ph)).
        pose proof (Hpair _ _ _ Hm) as Hmr.
        split_and!; [done|by eapply put_async|].
        apply requests_insert; [done| | |congruence].
        -- apply requests_insert; [done|done|congruence|congruence].
        -- intros k' r' Hk _. simplify_eq. by rewrite lookup_insert_eq.
  - rewrite Hp, decide_True by done. exists (<[m := Sent l]> ph). split_and!; [done|by eapply put_response|].
    apply requests_insert; [done|done|congruence|]. intros q' Hq' _. right. simplify_eq. rewrite Hq. intros p' [= <-] [].
Qed.

Lemma move_msgs a s b s' evs :
  result (phases a) (threads s) (loops s) → requests_ok msgs (phases a) → allowed msgs a s b → Moves s b s' evs →
  ∃ ph', feed (phase_step msgs) evs (phases a) = Some ph' ∧ result ph' (threads s') (loops s') ∧ requests_ok msgs ph'.
Proof.
  intros (HC & HQ & HR) HA Hall Hm.
  destruct Hm as [t th lp lp' evs Hth Hc Hl Hs b _|t th m c f l c' evs lp Hth Hc Hm Hl|t th m Hth Hc Hp|
    t th m Hth Hc Hm|t th m l r Hth Hc Hm|t th m w thw Hth Hc Hm Hw|t th act c Hth Hc Hi Hb|t th lp p Hth Hc Hl Hp|i lp Hl|d].
  - destruct (loop_move_queue msgs _ _ _ _ _ _ Hs) as [(m & -> & E)|[[E _] F]].
    + destruct (is_response m) as [[q Hm]|Hm].
      * destruct (get_response msgs Hpair _ _ _ HC HQ HR t lp lp' m q Hl E Hm) as [Hr Hp]; [by eauto|].
        exists (<[m := Home t]> (<[q := Home t]> (phases a))). split_and!; [|done|].
        -- simpl. unfold get_phases. by rewrite decide_True, Hm by done.
        -- destruct (HR m t q Hp Hm) as (tq & k & Hq & Hmq).
           apply requests_insert; [done| |done|].
           ++ apply requests_insert; [done|done| |congruence]. by intros.
           ++ intros q' Hq' Ha. rewrite lookup_insert_ne in Ha by congruence. congruence.
      * destruct (get_request msgs Hpair _ _ _ HC HQ HR t lp lp' m Hl E) as [Hr Hp]; [by intros q ?; destruct Hm; eauto|by eauto|].
        exists (<[m := Served t]> (phases a)). split_and!; [|done|].
        -- simpl. unfold get_phases. rewrite decide_True by done. destruct (msgs m) as [[rh|q]|]; [done|destruct Hm; eauto|done].
        -- apply requests_insert; [done|done| |congruence]. intros k r Hk _. by eapply HA.
    + exists (phases a). split_and!; [apply F| |done]. split_and!; [done| |done]. simpl. by eapply QueueInv_loop.
  - pose proof (ci_calls _ _ _ HC t th Hth) as Hok. unfold call_ok in Hok. rewrite Hc in Hok.
    destruct Hm as [l sy|l sy|l e|l|l|l].
    + destruct Hok as [Hput Hs]. exact (put_moves (phases a) s t th l lp m sy (conj HC (conj HQ HR)) HA Hth Hc Hl Hput Hs).
    + exists (phases a). split_and!; [done| |done]. split_and!; [|by eapply QueueInv_loop|done].
      eapply CallInv_call; [done|done|by destruct sy|]. rewrite Hc. intros m' [[? ?]|?]; simplify_eq. by right.
    + exists (phases a). split_and!; [done| |done]. split_and!; [|by eapply QueueInv_loop|done].
      eapply CallInv_call; [done|done|done|]. rewrite Hc. intros m' [[? ?]|?]; simplify_eq.
    + exists (phases a). split_and!; [done| |done]. split_and!; [|by eapply QueueInv_loop|done].
      eapply CallInv_call; [done|done|done|]. rewrite Hc. intros m' [[? ?]|?]; simplify_eq.
    + exists (phases a). split_and!; [done| |done]. split_and!; [|by eapply QueueInv_loop|done].
      eapply CallInv_call; [done|done|done|]. rewrite Hc. intros m' [[? ?]|?]; simplify_eq.
    + exists (phases a). split_and!; [done| |done]. split_and!; [|by eapply QueueInv_loop|done].
      eapply CallInv_call; [done|done|done|]. rewrite Hc. intros m' [[? ?]|?]; simplify_eq.
  - destruct (wait_done msgs _ _ _ t th m HC HQ HR Hth Hc Hp) as (Hr & Hm & Ha).
    exists (<[m := Home t]> (phases a)). split_and!; [|done|].
    + simpl. by rewrite decide_True.
    + apply requests_insert; [done|done|congruence|congruence].
  - destruct (return_other msgs _ _ _ t th m _ Idle HC HQ HR Hth Hc Hm) as [Hr Hp]; [done|done|].
    exists (<[m := Answered t]> (phases a)). split_and!; [|done|].
    + simpl. by rewrite decide_True.
    + apply requests_insert; [done|done|congruence|congruence].
  - pose proof (Hpair _ _ _ Hm) as Hmr.
    destruct (return_other msgs _ _ _ t th m _ (PostPut l r false) HC HQ HR Hth Hc Hm) as [Hr Hp]; [done| |].
    { intros Hs. unfold call_ok, put_ok. simpl. rewrite Hmr. split; [|done]. split_and!; [|by rewrite lookup_insert_eq|done].
      pose proof (ci_calls _ _ _ HC t th Hth) as Hok. unfold call_ok in Hok. rewrite Hc in Hok.
      rewrite lookup_insert_ne by congruence. eapply HA; [done|by destruct Hok|done]. }
    exists (<[m := Answered t]> (phases a)). split_and!; [|done|].
    + simpl. by rewrite decide_True.
    + apply requests_insert; [done|done|done|congruence].
  - destruct (return_sync msgs _ _ _ HC HQ HR t th m w thw Hth Hc Hm Hw) as [Hr Hp].
    exists (<[m := Answered t]> (phases a)). split_and!; [|done|].
    + simpl. by rewrite decide_True.
    + apply requests_insert; [done|done|congruence|congruence].
  - exists (phases a). split_and!; [done| |done]. split_and!; [|done|done]. eapply CallInv_call; [done|done| |].
    + eapply begin_ok; [by eapply ci_calls|done|done|done].
    + rewrite Hc. intros m [[? ?]|?]; done.
  - exists (phases a). split_and!; [done| |done]. split_and!; [done| |done]. by eapply QueueInv_loop.
  - exists (phases a). split_and!; [by destruct i| |done]. split_and!; [done| |done]. simpl. eapply QueueInv_loop; [done|done|by destruct i].
  - exists (phases a). done.
Qed.

(** ** The invariant holds *)

Lemma inv_init homes s : fresh s → Inv msgs (spec_init homes) s.
Proof.
  intros (Hl & Ht & _). assert (∀ m p, phases (spec_init homes) !! m = Some p → ∃ t, p = Home t) as Hh.
  { intros m p H. simpl in H. rewrite lookup_fmap in H. apply fmap_Some in H as (t & _ & ->). eauto. }
  assert (∀ l lp, loops s !! l = Some lp → ∃ server handler timeout,
    lp = mkEventLoop server handler timeout false true 0 0 0 [] Begin) as Hf.
  { intros l lp H. destruct (Hl l lp H) as (sv & h & tm & E). unfold EventLoop_new in E. case_match; simplify_eq. eauto. }
  split.
  - split.
    + intros t th H. rewrite (Ht t th H). done.
    + intros m w p _ Hp Ha. destruct (Hh m p Hp) as [t ->]. by destruct (Ha t).
  - split.
    + intros m l H. by destruct (Hh _ _ H).
    + intros m l lp H Hin. destruct (Hf l lp H) as (? & ? & ? & ->). by apply not_elem_of_nil in Hin.
    + intros l lp H. destruct (Hf l lp H) as (? & ? & ? & ->). constructor.
  - intros r l q H. by destruct (Hh _ _ H).
  - intros m p l r _ H Ho. by destruct (Hh _ _ H) as [t ->].
  - intros l lp H. destruct (Hf l lp H) as (? & ? & ? & ->). done.
  - intros l lp H. destruct (Hf l lp H) as (? & ? & ? & ->). done.
  - intros l lp H. destruct (Hf l lp H) as (? & ? & ? & ->). split; [done|].
    intros [(_ & ? & _)|[(? & _)|(_ & ?)]]; done.
Qed.

Lemma itc_step_inv a s b s' evs :
  Inv msgs a s → allowed msgs a s b → step msgs long_bits sema_max b s = Some (s', evs) →
  ∃ a', spec_run msgs evs a = Some a' ∧ Inv msgs a' s'.
Proof.
  intros [HC HQ HR HA Hq Hf Hw] Hall Hs. apply step_moves in Hs.
  destruct (move_msgs a s b s' evs (conj HC (conj HQ HR)) HA Hall Hs) as (ph' & E1 & (HC' & HQ' & HR') & HA').
  destruct (move_queues msgs long_bits sema_max _ _ _ _ _ Hq Hs) as (qs' & E2 & Hq').
  destruct (move_flags msgs long_bits sema_max _ _ _ _ _ Hf Hs) as (fs' & E3 & Hf').
  exists (mkSpec ph' qs' fs'). split; [by apply spec_run_parts|]. split; try done.
  eapply move_wakes; [exact sema_pos|exact Hw| |exact Hs]. intros l lp H. by destruct (Hf l lp H).
Qed.

Lemma runs_ok homes s s' evs ok :
  (∀ a s b, ok a s b → allowed msgs a s b) → fresh s → Runs msgs long_bits sema_max ok homes s s' evs →
  ∃ a, spec_run msgs evs (spec_init homes) = Some a ∧ Inv msgs a s'.
Proof.
  intros Hok Hs. induction 1 as [|s1 evs1 a b s2 evs2 H IH Ha Hall Hstep].
  - exists (spec_init homes). split; [done|by apply inv_init].
  - destruct IH as (a' & Ha' & HI). rewrite Ha in Ha'. simplify_eq.
    destruct (itc_step_inv a' s1 b s2 evs2 HI (Hok _ _ _ Hall) Hstep) as (a2 & Ha2 & HI2).
    exists a2. split; [|done]. unfold spec_run in *. rewrite feed_app, Ha. done.
Qed.

(** ** Messages are served in the order of the passes *)

(** The loop has begun a pass and will look into its mailbox, or it has ended. *)
Fixpoint in_pass (p : Pc) : nat :=
  match p with
  | Begin | Top | Process _ => 0
  | Callback p => in_pass p
  | _ => 1
  end.

Lemma passes_app l e1 e2 : passes l (e1 ++ e2) = (passes l e1 + passes l e2)%nat.
Proof. induction e1 as [|ev e1 IH]; simpl; [done|]. destruct ev; rewrite IH; lia. Qed.

Lemma loop_pass l now lp lp' evs m k :
  is_server lp = true → m_queue lp !! k = Some m →
  loop_step long_bits l now lp = Some (lp', evs) ∨ (loop_expire lp = Some lp' ∧ evs = []) →
  EGet l m ∈ evs
  ∨ is_server lp' = true
    ∧ ∃ k', m_queue lp' !! k' = Some m ∧ (passes l evs + in_pass (pc lp) + k' ≤ k + in_pass (pc lp'))%nat.
Proof.
  intros Hs Hk [H|[H ->]]; unfold loop_step, loop_expire, flag_step, get in H; destruct (pc lp) eqn:Hp; simplify_eq/=;
    repeat (case_match; simplify_eq/=);
    try (right; split; [done|]; exists k; split; [done|]; rewrite ?Hp, ?decide_True by done; simpl; lia).
  destruct k as [|k]; simplify_eq/=; [left; by left|right]. split; [done|]. exists k. split; [done|]. lia.
Qed.

Lemma step_pass l b s s' evs lp m k :
  step msgs long_bits sema_max b s = Some (s', evs) → loops s !! l = Some lp → is_server lp = true → m_queue lp !! k = Some m →
  EGet l m ∈ evs
  ∨ ∃ lp' k', loops s' !! l = Some lp' ∧ is_server lp' = true ∧ m_queue lp' !! k' = Some m
      ∧ (passes l evs + in_pass (pc lp) + k' ≤ k + in_pass (pc lp'))%nat.
Proof.
  intros Hs Hlp Hsrv Hk. apply step_moves in Hs.
  destruct Hs as [t th lp0 lp' evs Hth Hc Hl Hs b _|t th m' c f l' c' evs lp0 Hth Hc Hm Hl|t th m' Hth Hc Hp|
    t th m' Hth Hc Hm|t th m' l' r Hth Hc Hm|t th m' w thw Hth Hc Hm Hw|t th act c Hth Hc Hi Hb|t th lp0 p Hth Hc Hl Hp|i lp0 Hl|d];
    try (right; exists lp, k; split_and!; [done..|]; simpl; lia).
  - destruct (decide (t = l)) as [->|n].
    + assert (lp0 = lp) as -> by congruence. destruct (loop_pass _ _ _ _ _ _ _ Hsrv Hk Hs) as [H|(H1 & k' & H2 & H3)]; [by left|right].
      exists lp', k'. simpl. by rewrite lookup_insert_eq.
    + right. exists lp, k. simpl. rewrite lookup_insert_ne by done. split_and!; [done..|].
      assert (passes l evs = 0%nat) as ->; [|lia]. destruct Hs as [H|[H ->]]; [|done].
      unfold loop_step, flag_step in H. destruct (pc lp0); simplify_eq/=; repeat (case_match; simplify_eq/=); done.
  - assert (passes l evs = 0%nat) as E by by destruct Hm. rewrite E. destruct (decide (l' = l)) as [->|n].
    + assert (lp0 = lp) as -> by congruence. right. exists (f lp), k. simpl. rewrite lookup_insert_eq.
      destruct Hm; simpl; split_and!; try done; try lia. by rewrite lookup_app_l by (by eapply lookup_lt_Some).
    + right. exists lp, k. simpl. rewrite lookup_insert_ne by done. split_and!; [done..|lia].
  - destruct (decide (t = l)) as [->|n].
    + assert (lp0 = lp) as -> by congruence. right. exists (set_pc p lp), k. simpl. rewrite lookup_insert_eq, Hp. simpl. split_and!; [done..|lia].
    + right. exists lp, k. simpl. rewrite lookup_insert_ne by done. split_and!; [done..|lia].
  - assert (passes l (snd (isr_loop sema_max i lp0)) = 0%nat) as E by by destruct i.
    rewrite E. destruct (decide (isr_target i = l)) as [E'|n].
    + right. exists (fst (isr_loop sema_max i lp)), k. simpl. subst l. assert (lp0 = lp) as -> by congruence. rewrite lookup_insert_eq.
      destruct i; simpl; split_and!; try done; lia.
    + right. exists lp, k. simpl. rewrite lookup_insert_ne by done. split_and!; [done..|lia].
Qed.

Lemma run_pass l bs s s' evs lp m k :
  run msgs long_bits sema_max bs s = Some (s', evs) → loops s !! l = Some lp → is_server lp = true → m_queue lp !! k = Some m →
  EGet l m ∈ evs ∨ (passes l evs + in_pass (pc lp) ≤ k + 1)%nat.
Proof.
  revert s evs lp k. induction bs as [|b bs IH]; intros s evs lp k Hr Hlp Hsrv Hk; simpl in Hr.
  - simplify_eq. right. simpl. assert (∀ p, in_pass p ≤ 1)%nat as H by (induction p; simpl; lia). specialize (H (pc lp)). lia.
  - destruct (step msgs long_bits sema_max b s) as [[s1 e1]|] eqn:E1; simpl in Hr; [|done].
    destruct (run msgs long_bits sema_max bs s1) as [[s2 e2]|] eqn:E2; simpl in Hr; simplify_eq.
    destruct (step_pass _ _ _ _ _ _ _ _ E1 Hlp Hsrv Hk) as [H|(lp1 & k1 & Hl1 & Hs1 & Hk1 & Hle)]; [left; set_solver|].
    destruct (IH _ _ _ _ E2 Hl1 Hs1 Hk1) as [H|H]; [left; set_solver|right]. rewrite passes_app. lia.
Qed.

End theorems.
