(* ===== verification/ItcLive.v ===== *)
(** * Who waits for whom

    With the synchronous calls ranked, a thread that waits for its message waits
    for a thread of a higher rank, and at the end of the chain is one that runs. *)

From Stdlib Require Import ZArith Lia.
From stdpp Require Import numbers.
From S2P Require Import Prelude Itc ItcSpec ItcInv ItcSteps ItcMsgs ItcTheorems.
Local Open Scope Z_scope.

Section live.
Context (msgs : nat → option Message) (long_bits sema_max : Z) (Hpair : paired msgs) (sema_pos : 0 < sema_max).
Context (rank : nat → nat).

Implicit Types (l t m q r w : nat) (ph : gmap nat Phase) (a : Spec) (s : Sys) (lp : EventLoop) (th : Thread).

Local Abbreviation Moves := (Moves msgs long_bits sema_max).
Local Abbreviation sync_of m w := (msgs m = Some (RequestMessage (SyncReturnHandler w))).

(** The loop that a call is about to touch. *)
Definition target (c : Call) : option nat :=
  match c with
  | PostPut l _ _ | PostSignal l _ _ | NotifySet l _ | NotifySignal l | StopSet l | StopSignal l => Some l
  | _ => None
  end.

Record LiveInv ph s : Prop := {
  li_sent m w l : sync_of m w → ph !! m = Some (Sent l) → (rank w < rank l)%nat;
  li_served m w t : sync_of m w → ph !! m = Some (Served t) → (rank w < rank t)%nat;
  li_put t th l m sy w : threads s !! t = Some th → call th = PostPut l m sy → sync_of m w → (rank w < rank l)%nat;
  li_target t th l : threads s !! t = Some th → target (call th) = Some l → is_Some (loops s !! l);
  li_known m p : ph !! m = Some p → out p → is_Some (msgs m);
  li_request m t : ph !! m = Some (Served t) → is_Some (loops s !! t) ∧ ∀ q, msgs m ≠ Some (ResponseMessage q);
  li_threads l : is_Some (loops s !! l) → is_Some (threads s !! l) }.

(** How a message comes to be out. *)
Lemma out_change ev ph ph' m p :
  phase_step msgs ev ph = Some ph' → ph' !! m = Some p → out p →
  ph !! m = Some p
  ∨ (∃ t l, ev = EPost t l m ∧ p = Sent l ∧ is_Some (msgs m))
  ∨ (∃ l, ev = EGet l m ∧ p = Served l ∧ ph !! m = Some (Sent l) ∧ ∀ q, msgs m ≠ Some (ResponseMessage q)).
Proof.
  intros H Hp Ho.
  assert (∀ m0 p0 ph0, <[m0 := p0]> ph0 !! m = Some p → (m0 = m ∧ p0 = p) ∨ ph0 !! m = Some p) as L.
  { intros m0 p0 ph0 Hl. destruct (decide (m0 = m)) as [->|n]; [left|right].
    - rewrite lookup_insert_eq in Hl. by simplify_eq.
    - by rewrite lookup_insert_ne in Hl. }
  destruct ev; simpl in H; unfold post_phases, get_phases in H; repeat (case_match; simplify_eq/=); simplify_eq;
    repeat match goal with Hx : <[_ := _]> _ !! m = Some p |- _ => apply L in Hx as [[? ?]|Hx]; simplify_eq/= end;
    try (by left); try done; try (right; left; by eauto 8).
  all: right; right; eexists; split_and!; [done..|congruence].
Qed.

(** ** Every step keeps the ranking *)

Definition ok a s b : Prop := allowed msgs a s b ∧ ranked msgs rank a s b.

Lemma rank_begin a s t th act c :
  LiveInv (phases a) s → CallInv msgs (phases a) (threads s) → threads s !! t = Some th → ok a s (App t act) → begin_call act = Some c →
  (∀ l m sy w, c = PostPut l m sy → sync_of m w → (rank w < rank l)%nat)
  ∧ (∀ l, target c = Some l → is_Some (loops s !! l)).
Proof.
  intros HL HC Ht [Ha Hr] Hb. destruct act; simplify_eq/=; split; intros; simplify_eq/=; try done.
  - by apply Hr.
  - destruct Ha as [_ (lp & ? & _)]. eauto.
  - destruct Ha as (_ & Hm & _). by simplify_eq.
  - destruct Ha as (_ & _ & lp & ? & _). eauto.
  - by destruct Ha.
Qed.

(** The events of a step come from the thread that is at it. *)
Lemma move_posts s b s' evs : Moves s b s' evs →
  evs = [] ∨ ∃ ev, evs = [ev]
    ∧ (∀ t l m, ev = EPost t l m → ∃ th sy, threads s !! t = Some th ∧ call th = PostPut l m sy)
    ∧ (∀ l m, ev = EGet l m → is_Some (loops s !! l)).
Proof.
  intros Hm. destruct Hm as [t th lp lp' evs Hth Hc Hl Hs b _|t th m c f l c' evs lp Hth Hc Hm Hl|t th m Hth Hc Hp|
    t th m Hth Hc Hm|t th m l r Hth Hc Hm|t th m w thw Hth Hc Hm Hw|t th act c Hth Hc Hi Hb|t th lp p Hth Hc Hl Hp|i lp Hl|d];
    try (by left); try (right; eexists; split_and!; [done|by intros|by intros]).
  - destruct Hs as [H|[_ ->]]; [|by left]. unfold loop_step, flag_step in H.
    destruct (pc lp); simplify_eq/=; repeat (case_match; simplify_eq/=); try (by left);
      (right; eexists; split_and!; [done|by intros|intros; simplify_eq; eauto]).
  - destruct Hm; try (by left); right; eexists; (split_and!; [done|intros; simplify_eq; eauto|intros; simplify_eq]).
  - destruct i; [by left|..]; right; eexists; (split_and!; [done|by intros|by intros]).
Qed.

(** Which loops and threads there are does not change. *)
Lemma move_dom s b s' evs l : Moves s b s' evs →
  (is_Some (loops s' !! l) ↔ is_Some (loops s !! l)) ∧ (is_Some (threads s' !! l) ↔ is_Some (threads s !! l)).
Proof.
  assert (∀ {A} k (x y : A) (mp : gmap nat A), mp !! k = Some x → is_Some (<[k := y]> mp !! l) ↔ is_Some (mp !! l)) as I.
  { intros A k x y mp Hk. destruct (decide (l = k)) as [->|n]; [rewrite lookup_insert_eq, Hk; naive_solver|by rewrite lookup_insert_ne]. }
  intros Hm. destruct Hm as [t th lp lp' evs Hth Hc Hl Hs b _|t th m c f l' c' evs lp Hth Hc Hm Hl|t th m Hth Hc Hp|
    t th m Hth Hc Hm|t th m l' r Hth Hc Hm|t th m w thw Hth Hc Hm Hw|t th act c Hth Hc Hi Hb|t th lp p Hth Hc Hl Hp|i lp Hl|d];
    simpl in *; split; rewrite ?(I _ _ _ _ _ Hw), ?(I _ _ _ _ _ Hth), ?(I _ _ _ _ _ Hl); done.
Qed.

(** The call of a thread after a step, and where it comes from. *)
Lemma move_call s b s' evs t th' : Moves s b s' evs → threads s' !! t = Some th' →
  (∃ th, threads s !! t = Some th ∧ call th = call th')
  ∨ target (call th') = None
  ∨ (∃ th l, threads s !! t = Some th ∧ target (call th) = Some l ∧ target (call th') = Some l ∧ ∀ k m sy, call th' ≠ PostPut k m sy)
  ∨ (∃ m k r, msgs m = Some (RequestMessage (AsyncReturnHandler k r)) ∧ call th' = PostPut k r false)
  ∨ (∃ th act, b = App t act ∧ threads s !! t = Some th ∧ begin_call act = Some (call th')).
Proof.
  intros Hm H'. destruct Hm as [u th lp lp' evs Hth Hc Hl Hs b _|u th m c f l' c' evs lp Hth Hc Hm Hl|u th m Hth Hc Hp|
    u th m Hth Hc Hm|u th m l' r Hth Hc Hm|u th m w thw Hth Hc Hm Hw|u th act c Hth Hc Hi Hb|u th lp p Hth Hc Hl Hp|i lp Hl|d];
    simpl in H'; try (left; by eauto).
  5: { simpl in Hw. destruct (decide (t = w)) as [->|n].
    - rewrite lookup_insert_eq in H'. injection H' as <-. destruct (decide (w = u)) as [->|n'].
      + rewrite lookup_insert_eq in Hw. injection Hw as <-. by right; left.
      + rewrite lookup_insert_ne in Hw by done. left. by eauto.
    - rewrite lookup_insert_ne in H' by done. destruct (decide (t = u)) as [->|n'].
      + rewrite lookup_insert_eq in H'. injection H' as <-. by right; left.
      + rewrite lookup_insert_ne in H' by done. left. by eauto. }
  all: try (destruct (decide (t = u)) as [->|n];
    [rewrite lookup_insert_eq in H'; injection H' as <-|rewrite lookup_insert_ne in H' by done; left; by eauto]).
  - destruct Hm; simpl; try (by right; left); try (by (case_match; right; left));
      right; right; left; eexists th, _; (split_and!; [done|by rewrite Hc|done|done]).
  - by right; left.
  - by right; left.
  - right; right; right; left. by exists m, l', r.
  - right; right; right; right. by exists th, act.
Qed.

Lemma live_step a a' s b s' evs :
  Inv msgs a s → LiveInv (phases a) s → wired msgs s → ok a s b → Moves s b s' evs →
  feed (phase_step msgs) evs (phases a) = Some (phases a') → LiveInv (phases a') s'.
Proof.
  intros HI HL Hw Hok Hm Hf. pose proof HL as [L1 L2 L3 L4 L5 L6 L7].
  assert (∀ m p, phases a' !! m = Some p → out p →
    phases a !! m = Some p
    ∨ (∃ t l th sy, threads s !! t = Some th ∧ call th = PostPut l m sy ∧ p = Sent l ∧ is_Some (msgs m))
    ∨ (∃ l, is_Some (loops s !! l) ∧ p = Served l ∧ phases a !! m = Some (Sent l) ∧ ∀ q, msgs m ≠ Some (ResponseMessage q)))
    as Hout.
  { intros m p Hp Ho. destruct (move_posts _ _ _ _ Hm) as [->|(ev & -> & P & G)]; [simpl in Hf; simplify_eq; left; by rewrite Hf|].
    simpl in Hf. destruct (phase_step msgs ev (phases a)) as [ph|] eqn:E; simpl in Hf; simplify_eq.
    destruct (out_change _ _ _ _ _ E Hp Ho) as [?|[(t & l & -> & ? & ?)|(l & -> & ? & ? & ?)]]; [by left|right; left|right; right].
    - destruct (P _ _ _ eq_refl) as (th & sy & ? & ?). eauto 10.
    - exists l. split; [by eapply G|]. eauto. }
  assert (∀ l, is_Some (loops s' !! l) ↔ is_Some (loops s !! l)) as Hdom by (intros l; by apply (move_dom _ _ _ _ l Hm)).
  assert (∀ l, is_Some (threads s' !! l) ↔ is_Some (threads s !! l)) as Hthr by (intros l; by apply (move_dom _ _ _ _ l Hm)).
  split.
  - intros m w l Hsync Hp. destruct (Hout _ _ Hp I) as [H|[(t & k & th & sy & H1 & H2 & H3 & _)|(k & _ & ? & _)]]; [by eapply L1| |done].
    simplify_eq. by eapply L3.
  - intros m w t Hsync Hp. destruct (Hout _ _ Hp I) as [H|[(? & ? & ? & ? & ? & ? & ? & _)|(k & _ & ? & H & _)]]; [by eapply L2|done|].
    simplify_eq. by eapply L1.
  - intros t th l m sy w Ht Hc Hsync. destruct (move_call _ _ _ _ _ _ Hm Ht) as [(th0 & H1 & H2)|[H|[(? & ? & ? & ? & ? & H)|[(m0 & k & r & Hm0 & H)|(th0 & act & -> & H1 & H2)]]]].
    + eapply L3; [done|by rewrite H2|done].
    + by rewrite Hc in H.
    + by destruct (H l m sy).
    + rewrite Hc in H. simplify_eq. pose proof (Hpair _ _ _ Hm0). congruence.
    + destruct (rank_begin _ _ _ _ _ _ HL (inv_calls _ _ _ HI) H1 Hok H2) as [R _]. by eapply R.
  - intros t th l Ht Hc. rewrite Hdom. destruct (move_call _ _ _ _ _ _ Hm Ht) as [(th0 & H1 & H2)|[H|[(th0 & l0 & H1 & H2 & H3 & _)|[(m0 & k & r & Hm0 & H)|(th0 & act & -> & H1 & H2)]]]].
    + eapply L4; [done|by rewrite H2].
    + congruence.
    + rewrite Hc in H3. simplify_eq. by eapply L4.
    + rewrite H in Hc. simplify_eq/=. by eapply Hw.
    + destruct (rank_begin _ _ _ _ _ _ HL (inv_calls _ _ _ HI) H1 Hok H2) as [_ R]. by eapply R.
  - intros m p Hp Ho. destruct (Hout _ _ Hp Ho) as [H|[(? & ? & ? & ? & ? & ? & ? & ?)|(k & _ & ? & H & _)]]; [by eapply L5|done|by eapply L5].
  - intros m t Hp. rewrite Hdom. destruct (Hout _ _ Hp I) as [H|[(? & ? & ? & ? & ? & ? & ? & _)|(k & ? & ? & H & ?)]]; [by eapply L6|done|].
    by simplify_eq.
  - intros l. rewrite Hdom, Hthr. apply L7.
Qed.

Lemma live_init homes s : fresh s → LiveInv (phases (spec_init homes)) s.
Proof.
  intros (Hl & Ht & Hd). assert (∀ m p, phases (spec_init homes) !! m = Some p → ∃ t, p = Home t) as Hh.
  { intros m p H. simpl in H. rewrite lookup_fmap in H. apply fmap_Some in H as (t & _ & ->). eauto. }
  split.
  - intros m w l _ H. by destruct (Hh _ _ H).
  - intros m w l _ H. by destruct (Hh _ _ H).
  - intros t th l m sy w H. by rewrite (Ht t th H).
  - intros t th l H. by rewrite (Ht t th H).
  - intros m p H Ho. by destruct (Hh _ _ H) as [? ->].
  - intros m t H. by destruct (Hh _ _ H).
  - done.
Qed.

Lemma runs_live homes s s' evs :
  fresh s → wired msgs s → Runs msgs long_bits sema_max ok homes s s' evs →
  ∃ a, spec_run msgs evs (spec_init homes) = Some a ∧ Inv msgs a s' ∧ LiveInv (phases a) s' ∧ wired msgs s'.
Proof.
  intros Hs Hw. induction 1 as [|s1 evs1 a b s2 evs2 H IH Ha Hok Hstep].
  - exists (spec_init homes). split_and!; [done|by apply inv_init|by apply live_init|done].
  - destruct IH as (a1 & Ha1 & HI & HL & Hw1). rewrite Ha in Ha1. injection Ha1 as <-.
    destruct (itc_step_inv msgs long_bits sema_max Hpair sema_pos a s1 b s2 evs2 HI (proj1 Hok) Hstep) as (a2 & Ha2 & HI2).
    pose proof (step_moves _ _ _ _ _ _ _ Hstep) as Hm. exists a2. split_and!; [| done| |].
    + unfold spec_run in *. by rewrite feed_app, Ha.
    + exact (live_step a a2 s1 b s2 evs2 HI HL Hw1 Hok Hm (feed_phases _ _ _ _ Ha2)).
    + intros q l r Hq. apply (move_dom _ _ _ _ l Hm). by eapply Hw1.
Qed.

(** ** Threads that can go on *)

Definition waits s t m : Prop := ∃ th, threads s !! t = Some th ∧ call th = ThreadWait m ∧ t_sema th = 0.

(** A thread is in code of the application, its loop has ended, or its next step is
    there to be taken. *)
Definition runs_on s t : Prop :=
  (∃ th, threads s !! t = Some th ∧ call th = Idle
     ∧ (in_application t s = true ∨ ∃ lp, loops s !! t = Some lp ∧ pc lp = Gone))
  ∨ ∃ b s' evs, (b = Run t ∨ b = Expire t) ∧ step msgs long_bits sema_max b s = Some (s', evs).

Lemma loop_goes_on l now lp :
  pc lp = Gone ∨ (∃ p, pc lp = Callback p) ∨ is_Some (loop_step long_bits l now lp) ∨ is_Some (loop_expire lp).
Proof.
  unfold loop_step, loop_expire. destruct (pc lp) as [| | | |[]| | | | | | | | | | |] eqn:Hp; eauto.
  - destruct (0 <? m_sema lp); eauto.
  - destruct (fst (get lp)); eauto.
Qed.

Lemma thread_goes_on a s t th :
  Inv msgs a s → LiveInv (phases a) s → threads s !! t = Some th → runs_on s t ∨ ∃ m, waits s t m.
Proof.
  intros HI HL Ht. pose proof (ci_calls _ _ _ (inv_calls _ _ _ HI) t th Ht) as Hok. unfold call_ok in Hok.
  assert (∀ l, target (call th) = Some l → is_Some (loops s !! l)) as HT by (intros l; by eapply li_target).
  destruct (call th) as [|l m sy|l m sy|m|m|l e|l|l|l] eqn:Hc;
    try (left; right; destruct (HT l eq_refl) as [lp Hl]; exists (Run t); eexists _, _; split; [by left|];
         unfold step, call_step, on_loop; rewrite Ht; simpl; rewrite Hc, Hl; reflexivity).
  - left. destruct (loops s !! t) as [lp|] eqn:Hl.
    + destruct (loop_goes_on t (milliseconds long_bits s) lp) as [Hp|[[p Hp]|[[[lp' evs] Hs]|[lp' Hs]]]].
      * left. exists th. split_and!; [done..|]. right. by exists lp.
      * left. exists th. split_and!; [done..|]. left. unfold in_application. by rewrite Hl, Hp.
      * right. exists (Run t). eexists _, _. split; [by left|]. simpl. rewrite Ht. simpl. rewrite Hc, Hl. simpl. by rewrite Hs.
      * right. exists (Expire t). eexists _, _. split; [by right|]. simpl. rewrite Ht. simpl. rewrite Hc, Hl. simpl. by rewrite Hs.
    + left. exists th. split_and!; [done..|]. left. unfold in_application. by rewrite Hl.
  - destruct Hok as [Hm (p & Hp & [[_ H0]|[_ H1]])].
    + right. exists m. by exists th.
    + left. right. exists (Run t). eexists _, _. split; [by left|]. simpl. rewrite Ht. simpl. rewrite Hc. unfold call_step, thread_wait.
      rewrite Hc. by rewrite H1.
  - left. right. destruct Hok as [Hp _]. destruct (li_request _ _ HL m t Hp) as [_ Hq].
    destruct (li_known _ _ HL m _ Hp I) as [[rh|q] Hm]; [|by destruct (Hq q)].
    exists (Run t). destruct rh as [|w|l r].
    + eexists _, _. split; [by left|]. simpl. rewrite Ht. simpl. rewrite Hc. unfold call_step, returnToSender. rewrite Hc, Hm. done.
    + assert (is_Some (threads (set_call t Idle th s) !! w)) as [thw Hw].
      { destruct (ci_waits _ _ _ (inv_calls _ _ _ HI) m w _ Hm Hp) as (thw & Hw & _); [done|]. simpl.
        destruct (decide (w = t)) as [->|n]; [by rewrite lookup_insert_eq|rewrite lookup_insert_ne by done; by eauto]. }
      eexists _, _. split; [by left|]. simpl. rewrite Ht. simpl. rewrite Hc. unfold call_step, returnToSender. rewrite Hc, Hm, Hw. done.
    + eexists _, _. split; [by left|]. simpl. rewrite Ht. simpl. rewrite Hc. unfold call_step, returnToSender. rewrite Hc, Hm. done.
Qed.

(** The thread that a waiting thread waits for. *)
Definition waits_for a s t t' : Prop :=
  ∃ m, waits s t m ∧ (phases a !! m = Some (Sent t') ∨ phases a !! m = Some (Served t')).

Lemma waits_up a s t m :
  Inv msgs a s → LiveInv (phases a) s → waits s t m →
  ∃ t', waits_for a s t t' ∧ (rank t < rank t')%nat ∧ is_Some (threads s !! t').
Proof.
  intros HI HL Hwt. pose proof Hwt as (th & Ht & Hc & Hs).
  pose proof (ci_calls _ _ _ (inv_calls _ _ _ HI) t th Ht) as Hok. unfold call_ok in Hok. rewrite Hc in Hok.
  destruct Hok as [Hm (p & Hp & [[Ho _]|[_ H1]])]; [|lia]. destruct p as [|l|l| |]; try done; exists l.
  - split; [exists m; by eauto|]. split; [by eapply li_sent|]. eapply li_threads; [done|].
    destruct (qi_sent _ _ (inv_queues _ _ _ HI) m l Hp) as (lp & ? & _). eauto.
  - split; [exists m; by eauto|]. split; [by eapply li_served|]. eapply li_threads; [done|]. by eapply li_request.
Qed.

Lemma rank_bound (ths : gmap nat Thread) : ∃ R, ∀ t, is_Some (ths !! t) → (rank t ≤ R)%nat.
Proof.
  induction ths as [|i x ths Hi [R IH]] using map_ind.
  - exists 0%nat. intros t [? H]. by rewrite lookup_empty in H.
  - exists (Nat.max (rank i) R). intros t H. destruct (decide (t = i)) as [->|n]; [lia|].
    rewrite lookup_insert_ne in H by done. specialize (IH t H). lia.
Qed.

Lemma chain_ends a s R : Inv msgs a s → LiveInv (phases a) s → (∀ t, is_Some (threads s !! t) → (rank t ≤ R)%nat) →
  ∀ n t m, (R - rank t ≤ n)%nat → waits s t m → ∃ t', tc (waits_for a s) t t' ∧ (rank t < rank t')%nat ∧ runs_on s t'.
Proof.
  intros HI HL HR. induction n as [n IH] using lt_wf_ind. intros t m Hn Hw.
  destruct (waits_up _ _ _ _ HI HL Hw) as (t1 & H1 & Hr & [th1 Ht1]).
  destruct (thread_goes_on a s t1 th1 HI HL Ht1) as [Hrun|[m1 Hw1]].
  - exists t1. split_and!; [by apply tc_once|done|done].
  - assert (rank t1 ≤ R)%nat by (apply HR; eauto).
    destruct (IH (R - rank t1)%nat ltac:(lia) t1 m1 ltac:(lia) Hw1) as (t' & Htc & Hr' & Hrun).
    exists t'. split_and!; [by eapply tc_l|lia|done].
Qed.

End live.
