(* ===== verification/ItcProps.v ===== *)
(** * Cpl/Itc: what the mailboxes guarantee

    The three theorems on systems of event loops, mailboxes and threads, and a
    system on which they are tried: a client that calls a server synchronously, and
    a loop that sends a request and gets the response. *)

From Stdlib Require Import ZArith Lia.
From stdpp Require Import numbers.
From S2P Require Import Prelude Itc ItcSpec ItcInv ItcSteps ItcMsgs ItcTheorems ItcLive.
Local Open Scope Z_scope.

Section props.
Context (msgs : nat → option Message) (long_bits sema_max : Z).

Local Abbreviation Runs := (Runs msgs long_bits sema_max).

(** ** Runs from lists of labels *)

Fixpoint keeps_to (ok : Spec → Sys → Label → Prop) (bs : list Label) (s : Sys) (a : Spec) : Prop :=
  match bs with
  | [] => True
  | b :: bs' =>
      ok a s b
      ∧ match step msgs long_bits sema_max b s with
        | Some (s', evs) => match spec_run msgs evs a with Some a' => keeps_to ok bs' s' a' | None => False end
        | None => False
        end
  end.

Lemma runs_keep ok homes s0 bs s1 s2 evs1 evs2 a :
  Runs ok homes s0 s1 evs1 → spec_run msgs evs1 (spec_init homes) = Some a → keeps_to ok bs s1 a →
  run msgs long_bits sema_max bs s1 = Some (s2, evs2) → Runs ok homes s0 s2 (evs1 ++ evs2).
Proof.
  revert s1 evs1 a evs2. induction bs as [|b bs IH]; intros s1 evs1 a evs2 HR Ha Hk Hr; simpl in Hr.
  - simplify_eq. by rewrite app_nil_r.
  - destruct Hk as [Hok Hk]. destruct (step msgs long_bits sema_max b s1) as [[s' e]|] eqn:E; simpl in Hr; [|done].
    destruct (spec_run msgs e a) as [a'|] eqn:Ea; [|done].
    destruct (run msgs long_bits sema_max bs s') as [[s'' e']|] eqn:E'; simpl in Hr; simplify_eq.
    rewrite app_assoc. eapply IH; [|  |exact Hk|exact E'].
    + by eapply runs_step.
    + unfold spec_run in *. by rewrite feed_app, Ha.
Qed.

Lemma runs_list ok homes s bs s' evs :
  keeps_to ok bs s (spec_init homes) → run msgs long_bits sema_max bs s = Some (s', evs) → Runs ok homes s s' evs.
Proof. intros Hk Hr. by eapply (runs_keep ok homes s bs s s' [] evs); [constructor|done|..]. Qed.

(** ** The theorems *)

(** The abstract machine and the system agree: the mailboxes and the flags are those
    of the machine, a message is sent if it is in a mailbox, and a thread that waits
    has its message out and no signal, or answered and one signal. *)
Definition agrees (a : Spec) (s : Sys) : Prop :=
  (∀ l lp, loops s !! l = Some lp →
     queue_of (queues a) l = m_queue lp ∧ flags_of (flags a) l = (m_events lp, to_call (pc lp)))
  ∧ (∀ m l, phases a !! m = Some (Sent l) ↔ ∃ lp, loops s !! l = Some lp ∧ m ∈ m_queue lp)
  ∧ (∀ t th m, threads s !! t = Some th → call th = ThreadWait m →
       msgs m = Some (RequestMessage (SyncReturnHandler t)) ∧ awaited (phases a) m (t_sema th)).

(** C5. Whatever the interleaving of threads, interrupts and time-outs, a system
    of mailboxes does what the abstract machine does: each mailbox is a queue from
    which every message is taken once and in order, a request goes from its client
    to its server and back, Mailbox::postSync() returns exactly when its own message
    has been returned (and not on the signal of another), a response is delivered
    once and after its request was returned, and each event flag that is captured is
    called once, the lowest first. *)
Theorem mailboxes_keep_the_protocol homes s s' evs :
  paired msgs → 0 < sema_max → fresh s → Runs (allowed msgs) homes s s' evs →
  ∃ a, spec_run msgs evs (spec_init homes) = Some a ∧ agrees a s'.
Proof.
  intros Hp Hm Hs HR. destruct (runs_ok msgs long_bits sema_max Hp Hm homes s s' evs (allowed msgs)) as (a & Ha & HI); [done..|].
  exists a. split; [done|]. destruct HI as [HC HQ _ _ Hq Hf _]. split_and!.
  - intros l lp Hl. split; [by apply Hq|]. by destruct (Hf l lp Hl).
  - intros m l. split; [by apply (qi_sent _ _ HQ)|]. intros (lp & Hl & Hin). by eapply qi_queue.
  - intros t th m Ht Hc. pose proof (ci_calls _ _ _ HC t th Ht) as Hok. unfold call_ok in Hok. by rewrite Hc in Hok.
Qed.

(** C6. No wake-up is lost: an event loop that is about to wait although its mailbox
    holds a message, it is asked to stop or an event flag is set, finds its semaphore
    signalled, or another thread is about to signal it.  And a message that is the
    k-th of a mailbox is taken before the loop begins its (k+2)-nd pass from now, for
    as long as the loop runs: one message a pass, none overtaken. *)
Theorem mailbox_wakeups_kept homes s s' evs l lp :
  paired msgs → 0 < sema_max → fresh s → Runs (allowed msgs) homes s s' evs → loops s' !! l = Some lp →
  (pc lp = Wait false → (is_server lp = true ∧ m_queue lp ≠ []) ∨ m_run lp = false ∨ m_events lp ≠ 0 → signalled s' l lp)
  ∧ (∀ k m bs s'' evs'', is_server lp = true → m_queue lp !! k = Some m →
       run msgs long_bits sema_max bs s' = Some (s'', evs'') → (k + 2 ≤ passes l evs'')%nat → EGet l m ∈ evs'').
Proof.
  intros Hp Hm Hs HR Hl. destruct (runs_ok msgs long_bits sema_max Hp Hm homes s s' evs (allowed msgs)) as (a & Ha & HI); [done..|].
  split.
  - intros Hpc Hw. destruct (inv_wake _ _ _ HI l lp Hl) as [_ Hk]. apply Hk. rewrite Hpc. simpl. naive_solver.
  - intros k m bs s'' evs'' Hsrv Hk Hr Hn. destruct (run_pass _ _ _ Hp Hm l bs _ _ _ _ m k Hr Hl Hsrv Hk) as [H|H]; [done|lia].
Qed.


End props.

(** ** A system *)

Module Demo.

(** Thread 0 has no loop; 1 is a server, 2 a server that is also a client. *)
Definition messages (m : nat) : option Message :=
  match m with
  | 10%nat => Some (RequestMessage (SyncReturnHandler 0))
  | 20%nat => Some (RequestMessage (AsyncReturnHandler 2 21))
  | 21%nat => Some (ResponseMessage 20)
  | _ => None
  end.
Definition homes : gmap nat nat := {[10%nat := 0%nat; 20%nat := 2%nat; 21%nat := 2%nat]}.
Definition loop (handler : option (list bool)) : EventLoop := mkEventLoop true handler 50 false true 0 0 0 [] Begin.
Definition system : Sys :=
  mkSys {[1%nat := loop None; 2%nat := loop (Some [false; true])]}
    {[0%nat := mkThread 0 Idle; 1%nat := mkThread 0 Idle; 2%nat := mkThread 0 Idle]} 0.

(** The server waits; the client calls it. *)
Definition calling : list Label :=
  [Run 1; Run 1; App 0 (PostSync 1 10); Run 1; Run 1; Run 0; Run 0].
(** The server takes the message and returns it; the client is back. *)
Definition serving : list Label :=
  [Run 1; Run 1; Run 1; Run 1; App 1 ReturnFromCallback; Run 1; Run 1; Run 1;
   App 1 (ReturnToSender 10); Run 1; App 1 ReturnFromCallback; Run 0].

(** The server begins two more passes, its wait times out. *)
Definition idling : list Label :=
  [Run 1; Run 1; Run 1; Expire 1; Run 1; Run 1; Run 1; App 1 ReturnFromCallback; Run 1; Run 1; Run 1].

(** Loop 2 sends a request from the callback of a timer, an interrupt sets a flag of
    it, the server answers, and loop 2 gets the response and calls the flag. *)
Definition requesting : list Label :=
  [Tick 60; Run 2; Run 2; Run 2; Run 2; Run 2; Run 2; Run 2; Run 2; App 2 (Post 1 20); Run 2; Run 2; Isr (SuNotify 2 1);
   Run 1; Run 1; Run 1; Run 1; Run 1; Run 1; Run 1; App 1 ReturnFromCallback; Run 1; Run 1; Run 1;
   App 1 (ReturnToSender 20); Run 1; Run 1; Run 1; App 1 ReturnFromCallback;
   App 2 ReturnFromCallback; Run 2; Run 2; Run 2; App 2 ReturnFromCallback;
   Run 2; Run 2; Run 2; Run 2; Run 2; Run 2; Run 2; Run 2; App 2 ReturnFromCallback].

Definition run_from (bs : list Label) (s : Sys) : Sys * list Event :=
  match run messages 32 100 bs s with Some r => r | None => (s, []) end.
Definition after (bs : list Label) : Sys * list Event := run_from bs system.

Lemma messages_paired : paired messages.
Proof. intros q l r. do 22 (destruct q as [|q]; [simpl; intros; simplify_eq/=; try done|]). done. Qed.

Lemma system_fresh : fresh system.
Proof.
  split_and!.
  - intros l lp H. unfold system in H. simpl in H.
    apply lookup_insert_Some in H as [[_ <-]|[_ H]]; [by exists true, None, 50|].
    apply lookup_singleton_Some in H as [_ <-]. by exists true, (Some [false; true]), 50.
  - intros t th H. unfold system in H. simpl in H.
    apply lookup_insert_Some in H as [[_ <-]|[_ H]]; [done|].
    apply lookup_insert_Some in H as [[_ <-]|[_ H]]; [done|]. by apply lookup_singleton_Some in H as [_ <-].
  - intros l [lp H]. unfold system in H. simpl in H.
    apply lookup_insert_Some in H as [[<- _]|[_ H]]; [by eexists|].
    apply lookup_singleton_Some in H as [<- _]. by eexists.
Qed.

Lemma system_wired : wired messages system.
Proof. intros q l r. do 22 (destruct q as [|q]; [simpl; intros; simplify_eq/=; try done; by eexists|]). done. Qed.

(** The runs keep to what the application may do. *)
Ltac keep := vm_compute; repeat first [exact I | reflexivity | (intros ?; discriminate) | split | (left; split; reflexivity)
  | (right; split_and!; reflexivity) | (left; reflexivity) | (eexists; split; reflexivity) | (eexists; reflexivity)].

Lemma runs_full : Runs messages 32 100 (allowed messages) homes system
  (after (calling ++ serving ++ requesting)).1 (after (calling ++ serving ++ requesting)).2.
Proof. eapply (runs_list _ _ _ _ _ _ (calling ++ serving ++ requesting)); [keep|by vm_compute]. Qed.

Lemma runs_calling : Runs messages 32 100 (allowed messages) homes system (after calling).1 (after calling).2.
Proof. eapply (runs_list _ _ _ _ _ _ calling); [keep|by vm_compute]. Qed.

(** The ranking of the system: clients below servers. *)
Lemma runs_ranked : Runs messages 32 100 (ok messages id) homes system (after calling).1 (after calling).2.
Proof. eapply (runs_list _ _ _ _ _ _ calling); [keep|by vm_compute]. Qed.

(** Two servers that call each other synchronously, without a ranking. *)
Definition cross_messages (m : nat) : option Message :=
  match m with
  | 11%nat => Some (RequestMessage (SyncReturnHandler 1))
  | 12%nat => Some (RequestMessage (SyncReturnHandler 2))
  | _ => None
  end.
Definition cross_homes : gmap nat nat := {[11%nat := 1%nat; 12%nat := 2%nat]}.
Definition crossing : list Label :=
  Tick 60 :: replicate 8 (Run 1) ++ replicate 8 (Run 2)
  ++ [App 1 (PostSync 2 11); App 2 (PostSync 1 12); Run 1; Run 2; Run 1; Run 2].

(** A server that is stopped while a client waits. *)
Definition stopping : list Label :=
  [App 0 (PostSync 1 10); Run 0; Run 0; App 2 (PleaseStop 1); Run 2; Run 2; Run 1; Run 1; Run 1].

End Demo.

Lemma mailboxes_keep_the_protocol_witness :
  ∃ a, spec_run Demo.messages (Demo.after (Demo.calling ++ Demo.serving ++ Demo.requesting)).2 (spec_init Demo.homes) = Some a
    ∧ agrees Demo.messages a (Demo.after (Demo.calling ++ Demo.serving ++ Demo.requesting)).1.
Proof.
  apply (mailboxes_keep_the_protocol Demo.messages 32 100 Demo.homes Demo.system);
    [apply Demo.messages_paired|lia|apply Demo.system_fresh|apply Demo.runs_full].
Defined.

(** The server is about to wait, with a message in its mailbox and its semaphore
    signalled; the message is taken in the pass, before two more begin. *)
Lemma mailbox_wakeups_kept_witness : ∃ lp,
  loops (Demo.after Demo.calling).1 !! 1%nat = Some lp ∧ pc lp = Wait false ∧ m_queue lp = [10%nat]
  ∧ signalled (Demo.after Demo.calling).1 1 lp
  ∧ EGet 1 10 ∈ (Demo.run_from (Demo.serving ++ Demo.idling) (Demo.after Demo.calling).1).2.
Proof.
  eexists. split; [vm_compute; reflexivity|]. split; [reflexivity|]. split; [reflexivity|].
  assert (0 < 100) as Hm by lia.
  pose proof (mailbox_wakeups_kept Demo.messages 32 100 Demo.homes Demo.system _ _ 1%nat _ Demo.messages_paired Hm
    Demo.system_fresh Demo.runs_calling ltac:(vm_compute; reflexivity)) as [H1 H2].
  split; [apply H1; [reflexivity|left; by split]|].
  eapply (H2 0%nat _ (Demo.serving ++ Demo.idling)); [reflexivity|reflexivity|vm_compute; reflexivity|vm_compute; lia].
Defined.


(** ** Outside of the ranking *)

(** Two servers that call each other wait for ever: neither has a step. *)
Lemma crossing_calls_deadlock :
  ∃ s evs, run Demo.cross_messages 32 100 Demo.crossing Demo.system = Some (s, evs)
    ∧ keeps_to Demo.cross_messages 32 100 (allowed Demo.cross_messages) Demo.crossing Demo.system (spec_init Demo.cross_homes)
    ∧ waits s 1 11 ∧ waits s 2 12
    ∧ step Demo.cross_messages 32 100 (Run 1) s = None ∧ step Demo.cross_messages 32 100 (Run 2) s = None
    ∧ step Demo.cross_messages 32 100 (Expire 1) s = None ∧ step Demo.cross_messages 32 100 (Expire 2) s = None.
Proof.
  eexists _, _. split; [vm_compute; reflexivity|]. split; [Demo.keep|].
  split; [eexists; split; [vm_compute; reflexivity|by split]|].
  split; [eexists; split; [vm_compute; reflexivity|by split]|]. by vm_compute.
Qed.

(** EventLoop::pleaseStop() leaves the messages in the mailbox: a client of
    Mailbox::postSync() waits for a loop that has ended. *)
Lemma stopped_server_keeps_client_waiting :
  ∃ s evs lp, run Demo.messages 32 100 ([Run 1; Run 1; Tick 60; Run 2; Run 2; Run 2; Run 2; Run 2; Run 2; Run 2; Run 2] ++ Demo.stopping) Demo.system = Some (s, evs)
    ∧ loops s !! 1%nat = Some lp ∧ pc lp = Gone ∧ m_queue lp = [10%nat] ∧ waits s 0 10.
Proof.
  eexists _, _, _. split; [vm_compute; reflexivity|]. split; [vm_compute; reflexivity|].
  split; [reflexivity|]. split; [reflexivity|]. eexists. split; [vm_compute; reflexivity|by split].
Qed.
