(* ===== verification/Thermostat.v ===== *)
(** * The components in front of the control logic

    Storm/Component: the base of all components (Base.cpp), the choice of the
    temperature sensor (IdtSelection.cpp), the operating mode and the configuration
    that it derives (OperatingMode.cpp), the PI controller with its input stage
    (PiPreProcess.cpp, Pi.cpp), the fan (FanControl.cpp) and the air filter
    (AirFilterMonitor.cpp).  A model point is an option, [None] when it is not
    valid; read() leaves its argument as it is in that case. *)

From Stdlib Require Import ZArith Lia SpecFloat.
From S2P Require Import Prelude DutyCycle StageFsm Equipment.
Local Open Scope Z_scope.

(** ** Times *)

(** ElapsedTime::Precision_T::operator +=. *)
Definition time_add (t x : Precision_T) : Precision_T :=
  let th := u16 (m_thousandths t + m_thousandths x) in
  MkTime (u32 (m_seconds t + (m_seconds x + th / 1000))) (th mod 1000).

(** operator ==, >, >=. *)
Definition time_gt (t x : Precision_T) : bool :=
  (m_seconds t >? m_seconds x) || ((m_seconds t =? m_seconds x) && (m_thousandths t >? m_thousandths x)).
Definition time_eq (t x : Precision_T) : bool :=
  (m_seconds t =? m_seconds x) && (m_thousandths t =? m_thousandths x).
Definition time_ge (t x : Precision_T) : bool := time_eq t x || time_gt t x.

(** ** Base.cpp *)

Record Base := MkBase {
  m_interval : Precision_T;
  m_timeMark : Precision_T;
  m_slipCounter : Z;
  m_timeMarkValid : bool;
  m_started : bool }.

Definition Base_new : Base := MkBase (MkTime 0 0) (MkTime 0 0) 0 false false.

Definition round_down (tick interval : Z) : Z := if interval =? 0 then tick else (tick / interval) * interval.

Definition setTimeMarker (currentTick : Precision_T) (b : Base) : Base :=
  MkBase (m_interval b)
    (MkTime (round_down (m_seconds currentTick) (m_seconds (m_interval b)))
       (round_down (m_thousandths currentTick) (m_thousandths (m_interval b))))
    (m_slipCounter b) (m_timeMarkValid b) (m_started b).

Definition set_timeMark (t : Precision_T) (b : Base) : Base :=
  MkBase (m_interval b) t (m_slipCounter b) (m_timeMarkValid b) (m_started b).
Definition slipped (b : Base) : Base :=
  MkBase (m_interval b) (m_timeMark b) (u32 (m_slipCounter b + 1)) (m_timeMarkValid b) (m_started b).
Definition set_timeMarkValid (v : bool) (b : Base) : Base :=
  MkBase (m_interval b) (m_timeMark b) (m_slipCounter b) v (m_started b).

Definition base_due (tick : Precision_T) (b : Base) : bool :=
  negb (m_timeMarkValid b) || expiredPrecision (m_timeMark b) (m_interval b) tick.

(** Base::doWork(): the state after it, and the interval that execute() is called
    for, when it is. *)
Definition doWork (enabled : bool) (currentTick : Precision_T) (b : Base) : Base * option Precision_T :=
  if base_due currentTick b then
    let b1 := if m_timeMarkValid b then set_timeMark (time_add (m_timeMark b) (m_interval b)) b
              else setTimeMarker currentTick b in
    let b2 := if m_timeMarkValid b1 && expiredPrecision (m_timeMark b1) (m_interval b1) currentTick
              then setTimeMarker currentTick (slipped b1) else b1 in
    let b3 := set_timeMarkValid true b2 in
    (b3, if m_started b3 && enabled then Some (m_timeMark b3) else None)
  else (b, None).

Definition Base_start (intervalTime : Precision_T) (b : Base) : Base :=
  MkBase intervalTime (m_timeMark b) 0 false true.
Definition Base_stop (b : Base) : Base :=
  MkBase (m_interval b) (m_timeMark b) (m_slipCounter b) (m_timeMarkValid b) false.

(** ** Model points *)

(** RefCounter; its data stay when it is invalid. *)
Record RefCounter := MkRef { rc_valid : bool; rc_data : Z }.
Definition increment (r : RefCounter) : RefCounter :=
  let newValue := u32 (rc_data r + 1) in
  MkRef true (if newValue <? rc_data r then 2 ^ 32 - 1 else newValue).
Definition decrement (r : RefCounter) : RefCounter :=
  let newValue := u32 (rc_data r - 1) in
  MkRef true (if rc_data r <? newValue then 0 else newValue).
Definition rc_read (r : RefCounter) : option Z := if rc_valid r then Some (rc_data r) else None.

Record SimpleAlarm := MkAlarm { active : bool; acked : bool; critical : bool }.
Definition setAlarm (a isCritical : bool) (d : SimpleAlarm) : SimpleAlarm :=
  MkAlarm a (if eqb a (active d) then acked d else false) isCritical.

Record IdtAlarm := MkIdtAlarm {
  primaryAlarm : bool; secondaryAlarm : bool; primaryAck : bool; secondaryAck : bool; idt_critical : bool }.
Definition setIdtAlarm (p s c : bool) (d : IdtAlarm) : IdtAlarm :=
  MkIdtAlarm p s (if p && negb (primaryAlarm d) then false else primaryAck d)
    (if s && negb (secondaryAlarm d) then false else secondaryAck d) c.

(** Storm::Type. *)
Definition mode_OFF : Z := 0.
Definition mode_COOLING : Z := 1.
Definition mode_HEATING : Z := 2.
Definition mode_AUTO : Z := 3.
Definition mode_ID_HEATING : Z := 4.
Definition eUNKNOWN : Z := 4.
Definition eAC : Z := 0.
Definition eHP : Z := 1.
Definition eFURNACE : Z := 1.
Definition fan_AUTO : Z := 0.
Definition fan_CONTINUOUS : Z := 1.

Record EquipmentConfig := MkEquipmentConfig {
  iduType : Z; oduType : Z; numCompStages : Z; numIduHeatingStages : Z; hasVspBlower : bool }.
Record ComfortStage := MkComfort { c_minOnTime : Z; c_minOffTime : Z; c_cph : Z }.
Record ComfortConfig := MkComfortConfig {
  compressorCooling : ComfortStage; compressorHeating : ComfortStage; indoorHeating : ComfortStage }.

(** The model points that the components read and do not write. *)
Record Inputs := MkInputs {
  primaryIdt : option float;
  secondaryIdt : option float;
  enabledSecondaryIdt : option bool;
  setpoints : option (float * float);      (* cooling, heating *)
  userMode : option Z;
  equipmentConfig : option EquipmentConfig;
  equipmentSeq : Z;
  comfortConfig : option ComfortConfig;
  comfortSeq : Z;
  in_systemOn : option bool;
  in_beginTimes : option EquipmentTimes_T }.

(** Those that they write. *)
Record Points := MkPoints {
  activeIdt : option float;
  idtAlarms : IdtAlarm;
  systemForcedOffRefCnt : RefCounter;
  operatingModeChanged : option bool;
  resetPiPulse : option bool;
  sysConfig : option SystemConfig_T;
  sysConfigSeq : Z;
  noActiveConditioningAlarm : SimpleAlarm;
  userConfigModeAlarm : SimpleAlarm }.

Definition write_activeIdt x p :=
  MkPoints (Some x) (idtAlarms p) (systemForcedOffRefCnt p) (operatingModeChanged p) (resetPiPulse p) (sysConfig p)
    (sysConfigSeq p) (noActiveConditioningAlarm p) (userConfigModeAlarm p).
Definition write_idtAlarms x p :=
  MkPoints (activeIdt p) x (systemForcedOffRefCnt p) (operatingModeChanged p) (resetPiPulse p) (sysConfig p)
    (sysConfigSeq p) (noActiveConditioningAlarm p) (userConfigModeAlarm p).
Definition write_forcedOff x p :=
  MkPoints (activeIdt p) (idtAlarms p) x (operatingModeChanged p) (resetPiPulse p) (sysConfig p)
    (sysConfigSeq p) (noActiveConditioningAlarm p) (userConfigModeAlarm p).
Definition write_modeChanged x p :=
  MkPoints (activeIdt p) (idtAlarms p) (systemForcedOffRefCnt p) (Some x) (resetPiPulse p) (sysConfig p)
    (sysConfigSeq p) (noActiveConditioningAlarm p) (userConfigModeAlarm p).
Definition write_resetPi x p :=
  MkPoints (activeIdt p) (idtAlarms p) (systemForcedOffRefCnt p) (operatingModeChanged p) (Some x) (sysConfig p)
    (sysConfigSeq p) (noActiveConditioningAlarm p) (userConfigModeAlarm p).
Definition write_noActive x p :=
  MkPoints (activeIdt p) (idtAlarms p) (systemForcedOffRefCnt p) (operatingModeChanged p) (resetPiPulse p) (sysConfig p)
    (sysConfigSeq p) x (userConfigModeAlarm p).
Definition write_userConfig x p :=
  MkPoints (activeIdt p) (idtAlarms p) (systemForcedOffRefCnt p) (operatingModeChanged p) (resetPiPulse p) (sysConfig p)
    (sysConfigSeq p) (noActiveConditioningAlarm p) x.

(** ** IdtSelection.cpp *)

Definition is_valid {A} (o : option A) : bool := match o with Some _ => true | None => false end.

Definition IdtSelection_execute (i : Inputs) (m_critical : bool) (p : Points) : bool * Points :=
  let enabledSecondary := default false (enabledSecondaryIdt i) in
  let primary := default (f32 0 0) (primaryIdt i) in
  let secondary := default (f32 0 0) (secondaryIdt i) in
  let validPrimary := is_valid (primaryIdt i) in
  let validSecondary := is_valid (secondaryIdt i) in
  let validSecondary := if negb (is_valid (enabledSecondaryIdt i)) || negb enabledSecondary then false else validSecondary in
  let idt := if enabledSecondary then if validSecondary then secondary else primary else primary in
  let validSecondary := if enabledSecondary then validSecondary else true in
  let critical := (negb validPrimary && negb enabledSecondary) || (negb validPrimary && negb validSecondary) in
  let p := write_activeIdt idt p in
  let p := write_idtAlarms (setIdtAlarm (negb validPrimary) (negb validSecondary) critical (idtAlarms p)) p in
  if critical && negb m_critical then (true, write_forcedOff (increment (systemForcedOffRefCnt p)) p)
  else if negb critical && m_critical then (false, write_forcedOff (decrement (systemForcedOffRefCnt p)) p)
  else (m_critical, p).

(** ** MpSystemConfig *)

Definition OPTION_STORM_MAX_TOTAL_STAGES : nat := 4.
Definition OPTION_STORM_DEFAULT_CPH : Z := e3CPH.
Definition OPTION_STORM_DEFAULT_MIN_ON_CYCLE_TIME : Z := 5 * 60.
Definition OPTION_STORM_DEFAULT_MIN_OFF_CYCLE_TIME : Z := 5 * 60.

Definition stage_off : Stage_T :=
  MkStageT (f32 0 0) (f32 1 0) 0 0 OPTION_STORM_DEFAULT_MIN_ON_CYCLE_TIME OPTION_STORM_DEFAULT_MIN_OFF_CYCLE_TIME
    OPTION_STORM_DEFAULT_CPH.

(** MpSystemConfig::setToOff(). *)
Definition setToOff : SystemConfig_T :=
  MkSystemConfig (replicate OPTION_STORM_MAX_TOTAL_STAGES stage_off) OperatingMode_eOFF eAC eFURNACE 0 0 0 0
    (f32 1 0) (f32 1 0) (f32 1 0).

Definition stage_equal (a b : Stage_T) : bool :=
  areFloatsEqual (lowerBound a) (lowerBound b) && areFloatsEqual (upperBound a) (upperBound b)
  && (maxIndoorFan a =? maxIndoorFan b) && (minIndoorFan a =? minIndoorFan b) && (cph a =? cph b)
  && (minOffTime a =? minOffTime b) && (minOnTime a =? minOnTime b).

(** MpSystemConfig::isDataEqual_(). *)
Definition isDataEqual (m_data other : SystemConfig_T) : bool :=
  forallb (λ ab, stage_equal (fst ab) (snd ab))
    (zip (take (Z.to_nat (totalStages m_data)) (stages m_data)) (stages other))
  && (currentOpMode m_data =? currentOpMode other) && (indoorUnitType m_data =? indoorUnitType other)
  && (outdoorUnitType m_data =? outdoorUnitType other) && (numCompressorStages m_data =? numCompressorStages other)
  && (numIndoorStages m_data =? numIndoorStages other) && (fanContinuousSpeed m_data =? fanContinuousSpeed other)
  && areFloatsEqual (gain m_data) (gain other) && areFloatsEqual (reset_ m_data) (reset_ other)
  && areFloatsEqual (maxPvOut m_data) (maxPvOut other).

(** ModelPointCommon_::advanceSequenceNumber(). *)
Definition advance_seq (n : Z) : Z := let n := u16 (n + 1) in if n =? 0 then 1 else n.

(** ModelPointCommon_::writeData(). *)
Definition write_sysConfig (c : SystemConfig_T) p :=
  if match sysConfig p with Some d => isDataEqual d c | None => false end then p
  else MkPoints (activeIdt p) (idtAlarms p) (systemForcedOffRefCnt p) (operatingModeChanged p) (resetPiPulse p) (Some c)
         (advance_seq (sysConfigSeq p)) (noActiveConditioningAlarm p) (userConfigModeAlarm p).

(** ** OperatingMode.cpp *)

(** binary64, for the products that the source leaves to double. *)
Definition f64 (m e : Z) : spec_float := binary_normalize 53 1024 m e false.
Definition f64_add : spec_float → spec_float → spec_float := SFadd 53 1024.
Definition f64_mul : spec_float → spec_float → spec_float := SFmul 53 1024.
Definition f64_div : spec_float → spec_float → spec_float := SFdiv 53 1024.
(** (double) x is exact; (float) x rounds. *)
Definition to_double (x : float) : spec_float :=
  match x with
  | S754_finite s m e => binary_normalize 53 1024 (if s then Z.neg m else Z.pos m) e s
  | x => x
  end.
Definition to_float (x : spec_float) : float :=
  match x with
  | S754_finite s m e => binary_normalize 24 128 (if s then Z.neg m else Z.pos m) e s
  | x => x
  end.
(** (uint16_t) of a value between 0 and 65535. *)
Definition f64_to_u16 (a : spec_float) : option Z :=
  match a with
  | S754_zero _ => Some 0
  | S754_finite false m e => let n := Z.shiftl (Z.pos m) e in if n <? 2 ^ 16 then Some n else None
  | _ => None
  end.

(** (uint16_t)( STORM_DM_MP_VIRTUAL_OUTPUTS_ON * 0.85 ) and 0.5. *)
Definition vsp_speed (num den : Z) : option Z := f64_to_u16 (f64_mul (f64 1000 0) (f64_div (f64 num 0) (f64 den 0))).
Definition OPTION_STORM_DEFAULT_VSP_BLOWER_COOLING_SPEED : option Z := vsp_speed 85 100.
Definition OPTION_STORM_DEFAULT_VSP_BLOWER_FAN_CONT_SPEED : option Z := vsp_speed 5 10.

Definition OPTION_STORM_COMPONENT_OPERATING_MODE_COOLING_OFFSET : float := f32 1 0.
Definition OPTION_STORM_COMPONENT_OPERATING_MODE_SECONDS_HYSTERESIS : Z := 10 * 60.
Definition OPTION_STORM_COOLING_LV_PER_STAGE : float := f32 100 0.
Definition OPTION_STORM_HEATING_LV_PER_STAGE : float := f32 100 0.
Definition COOLING_NORMAL_GAIN : float := f32 15 0.
Definition COOLING_NORMAL_RESET : float := f32 (5 * 60 * 1000) 0.
Definition HEATING_NORMAL_GAIN : float := f32 20 0.
Definition HEATING_NORMAL_RESET : float := f32 (5 * 60 * 1000) 0.

(** The loop over the stages: the stages that it fills, and the last upper bound.
    An index past the table is undefined. *)
Fixpoint fill_stages (n : nat) (i : nat) (pv perStage : float) (c : ComfortStage) (fan : Z) (l : list Stage_T) (maxPv : float) :
    option (list Stage_T * float) :=
  match n with
  | O => Some (l, maxPv)
  | S n =>
      if (i <? length l)%nat then
        let upper := f32_add pv perStage in
        fill_stages n (S i) (f32_add pv perStage) perStage c fan
          (<[i := MkStageT pv upper fan fan (c_minOnTime c) (c_minOffTime c) (c_cph c)]> l) upper
      else None
  end.

Definition setSystemConfig (newOpMode : Z) (eq : EquipmentConfig) (cc : ComfortConfig) : option SystemConfig_T :=
  fanCont ← (if hasVspBlower eq then OPTION_STORM_DEFAULT_VSP_BLOWER_FAN_CONT_SPEED else Some STORM_DM_MP_VIRTUAL_OUTPUTS_ON);
  let off := setToOff in
  if newOpMode =? eCOOLING then
    fan ← (if hasVspBlower eq then OPTION_STORM_DEFAULT_VSP_BLOWER_COOLING_SPEED else Some STORM_DM_MP_VIRTUAL_OUTPUTS_ON);
    r ← fill_stages (Z.to_nat (numCompStages eq)) 0 (f32 0 0) OPTION_STORM_COOLING_LV_PER_STAGE (compressorCooling cc) fan
          (stages off) (maxPvOut off);
    Some (MkSystemConfig (fst r) newOpMode (oduType eq) (iduType eq) (numCompStages eq) 0 (numCompStages eq) fanCont
            COOLING_NORMAL_GAIN COOLING_NORMAL_RESET (snd r))
  else if newOpMode =? eID_HEATING then
    let fan := if iduType eq =? eFURNACE then STORM_DM_MP_VIRTUAL_OUTPUTS_OFF else STORM_DM_MP_VIRTUAL_OUTPUTS_ON in
    r ← fill_stages (Z.to_nat (numIduHeatingStages eq)) 0 (f32 0 0) OPTION_STORM_HEATING_LV_PER_STAGE (indoorHeating cc) fan
          (stages off) (maxPvOut off);
    Some (MkSystemConfig (fst r) newOpMode (oduType eq) (iduType eq) 0 (numIduHeatingStages eq) (numIduHeatingStages eq) fanCont
            HEATING_NORMAL_GAIN HEATING_NORMAL_RESET (snd r))
  else
    Some (MkSystemConfig (stages off) newOpMode (oduType eq) (iduType eq) 0 0 0 fanCont (gain off) (reset_ off) (maxPvOut off)).

Record OperatingMode := MkOperatingMode {
  m_prevOperatingMode : Z;
  m_equipCfgSequenceNumber : Z;
  m_comfortCfgSequenceNumber : Z;
  m_inAuto : bool;
  m_forcedOff : bool }.

Definition OperatingMode_new : OperatingMode := MkOperatingMode eUNKNOWN 0 0 false false.
Definition OperatingMode_start (m : OperatingMode) : OperatingMode :=
  MkOperatingMode eUNKNOWN (m_equipCfgSequenceNumber m) (m_comfortCfgSequenceNumber m) false (m_forcedOff m).

Definition set_inAuto b m :=
  MkOperatingMode (m_prevOperatingMode m) (m_equipCfgSequenceNumber m) (m_comfortCfgSequenceNumber m) b (m_forcedOff m).
Definition set_forcedOff b m :=
  MkOperatingMode (m_prevOperatingMode m) (m_equipCfgSequenceNumber m) (m_comfortCfgSequenceNumber m) (m_inAuto m) b.
Definition set_prevMode x m :=
  MkOperatingMode x (m_equipCfgSequenceNumber m) (m_comfortCfgSequenceNumber m) (m_inAuto m) (m_forcedOff m).
Definition set_seqs eqs ccs m :=
  MkOperatingMode (m_prevOperatingMode m) eqs ccs (m_inAuto m) (m_forcedOff m).

(** The component and the points that it writes. *)
Definition State : Type := OperatingMode * Points.

Definition setNoActiveConditioningAlarm (alarmIsActive : bool) (s : State) : State :=
  let '(m, p) := s in
  if alarmIsActive then
    let p := write_noActive (setAlarm true true (noActiveConditioningAlarm p)) p in
    if negb (m_forcedOff m) then (set_forcedOff true m, write_forcedOff (increment (systemForcedOffRefCnt p)) p) else (m, p)
  else
    let p := write_noActive (setAlarm false false (noActiveConditioningAlarm p)) p in
    if m_forcedOff m then (set_forcedOff false m, write_forcedOff (decrement (systemForcedOffRefCnt p)) p) else (m, p).

(** haveCooling, haveHeating, haveHeatPump. *)
Definition allowed_modes (eq : EquipmentConfig) : bool * bool * bool :=
  let ac := (oduType eq =? eAC) && (numCompStages eq >? 0) in
  let hp := negb (oduType eq =? eAC) && (oduType eq =? eHP) && (numCompStages eq >? 0) in
  (ac || hp, hp || (numIduHeatingStages eq >? 0), hp).

Definition determineAllowedModes (eq : EquipmentConfig) (s : State) : (bool * bool * bool) * State :=
  let '(haveCooling, haveHeating, haveHeatPump) := allowed_modes eq in
  ((haveCooling, haveHeating, haveHeatPump), setNoActiveConditioningAlarm (negb haveCooling && negb haveHeating) s).

Definition setNewOperatingMode (newOpMode : Z) (haveHeatPump : bool) (i : Inputs) (eq : EquipmentConfig) (cc : ComfortConfig)
    (s : State) : option State :=
  let '(m, p) := s in
  let newOpMode := if (newOpMode =? eHEATING) && negb haveHeatPump then eID_HEATING else newOpMode in
  let modeChanged := negb (newOpMode =? m_prevOperatingMode m) in
  let '(m, p) :=
    if modeChanged then (set_prevMode newOpMode m, write_resetPi true (write_modeChanged true p)) else (m, p) in
  if modeChanged || negb (m_comfortCfgSequenceNumber m =? comfortSeq i) || negb (m_equipCfgSequenceNumber m =? equipmentSeq i) then
    sysCfg ← setSystemConfig newOpMode eq cc;
    Some (set_seqs (equipmentSeq i) (comfortSeq i) m, write_sysConfig sysCfg p)
  else Some (m, p).

(** The local variables of an invalid configuration: zeros, and a ComfortConfig_T that
    its constructor has cleared. *)
Definition no_equipment : EquipmentConfig := MkEquipmentConfig 0 0 0 0 false.
Definition no_comfort : ComfortConfig := let c := MkComfort 0 0 0 in MkComfortConfig c c c.

(** The user mode, corrected for what the equipment can do, and whether it has to
    raise the alarm. *)
Definition correct_mode (haveCooling haveHeating : bool) (userMode : Z) : Z * bool :=
  if (userMode =? mode_COOLING) && negb haveCooling then (mode_OFF, true)
  else if ((userMode =? mode_HEATING) || (userMode =? mode_ID_HEATING)) && negb haveHeating then (mode_OFF, true)
  else if (userMode =? mode_AUTO) && (negb haveCooling || negb haveHeating) then
    (if haveCooling then mode_COOLING else mode_HEATING, false)
  else (userMode, false).

Definition with_om (f : OperatingMode → OperatingMode) (s : State) : State := (f (fst s), snd s).
Definition with_points (f : Points → Points) (s : State) : State := (fst s, f (snd s)).

Definition OperatingMode_execute (i : Inputs) (currentInterval : Precision_T) (s : State) : option State :=
  let s := with_points (write_modeChanged false) s in
  match activeIdt (snd s), userMode i, setpoints i, in_systemOn i, in_beginTimes i, comfortConfig i, equipmentConfig i with
  | Some idt, Some um, Some (coolSetpt, heatSetpt), Some systemOn, Some times, Some cc, Some eq =>
      let '((haveCooling, haveHeating, haveHeatPump), s) := determineAllowedModes eq s in
      match rc_read (systemForcedOffRefCnt (snd s)) with
      | Some 0 =>
          let '(um, alarmActive) := correct_mode haveCooling haveHeating um in
          let s := with_points (λ p, write_userConfig (setAlarm alarmActive alarmActive (userConfigModeAlarm p)) p) s in
          let new mode := setNewOperatingMode mode haveHeatPump i eq cc in
          if um =? mode_COOLING then new eCOOLING (with_om (set_inAuto false) s)
          else if um =? mode_HEATING then new eHEATING (with_om (set_inAuto false) s)
          else if um =? mode_ID_HEATING then new eID_HEATING (with_om (set_inAuto false) s)
          else if um =? mode_AUTO then
            if negb (m_inAuto (fst s)) then
              new (if f32_le idt heatSetpt then eHEATING else eCOOLING) (with_om (set_inAuto true) s)
            else if negb systemOn
                    && expiredPrecision (systemBeginOffTime times)
                         (MkTime OPTION_STORM_COMPONENT_OPERATING_MODE_SECONDS_HYSTERESIS 0) currentInterval then
              new (if f32_le (f32_sub coolSetpt OPTION_STORM_COMPONENT_OPERATING_MODE_COOLING_OFFSET) idt then eCOOLING
                   else eHEATING) s
            else Some s
          else new OperatingMode_eOFF (with_om (set_inAuto false) s)
      | _ => setNewOperatingMode OperatingMode_eOFF haveHeatPump i eq cc s
      end
  | _, _, _, _, _, _, _ =>
      s ← setNewOperatingMode OperatingMode_eOFF false i (default no_equipment (equipmentConfig i))
            (default no_comfort (comfortConfig i)) s;
      Some (setNoActiveConditioningAlarm true s)
  end.

(** ** PiPreProcess.cpp *)

Definition INVALID_SETPOINT_ : float := f32 9999 0.

Record PreOut := MkPreOut { setpointChanged : bool; idtDeltaError : float; setpointDelta : float; activeSetpoint : float }.

Definition PiPreProcess_execute (idt : option float) (modeChange : option bool) (spts : option (float * float))
    (cfg : option SystemConfig_T) (m_prevActiveSetpoint : float) : float * PreOut :=
  let sysMode := match idt, modeChange, spts, cfg with
                 | Some _, Some _, Some _, Some c => currentOpMode c
                 | _, _, _, _ => OperatingMode_eOFF
                 end in
  let t := default (f32 0 0) idt in
  let '(cool, heat) := default (f32 0 0, f32 0 0) spts in
  let modeChanged := default false modeChange in
  let '(newActiveSetpoint, deltaIdtError) :=
    if sysMode =? eCOOLING then (cool, f32_sub t cool)
    else if (sysMode =? eHEATING) || (sysMode =? eID_HEATING) then (heat, f32_sub heat t)
    else (INVALID_SETPOINT_, f32 0 0) in
  let delta := SFabs (f32_sub newActiveSetpoint m_prevActiveSetpoint) in
  let '(changed, spDelta) :=
    if modeChanged then (false, f32 0 0) else (negb (areFloatsEqual delta (f32 0 0)), delta) in
  (newActiveSetpoint, MkPreOut changed deltaIdtError spDelta newActiveSetpoint).

(** ** Pi.cpp *)

Record Pi := MkPi { m_dt : float; m_prevSumError : float; m_prevPvOut : float; m_maxSumError : float }.
Record PiOut := MkPiOut { pi_pvOut : float; pi_sumError : float; pi_pvInhibited : bool }.

(** (float) of an unsigned long: rounded. *)
Definition Pi_start (intervalTime : Precision_T) : Pi :=
  MkPi (f32 (u32 (m_thousandths intervalTime + m_seconds intervalTime * 1000)) 0) (f32 0 0) (f32 0 0) (f32 0 0).

(** Pi::execute(), when the output is not frozen. *)
Definition Pi_update (deltaError gain_ resetTime maxPv : float) (inhibitRefCnt : Z) (m : Pi) : Pi * PiOut :=
  let newSumError := f32_add (m_prevSumError m) deltaError in
  let newSumError := if f32_lt newSumError (f32 0 0) then f32 0 0 else newSumError in
  let maxSumError :=
    if areFloatsEqual (m_maxSumError m) (f32 0 0) then
      to_float (f64_div (f64_mul (to_double maxPv) (to_double resetTime)) (f64_mul (to_double gain_) (to_double (m_dt m))))
    else m_maxSumError m in
  let '(newSumError, inhibit) :=
    if f32_gt newSumError maxSumError then (maxSumError, true) else (newSumError, false) in
  let pv := to_float (f64_mul (to_double gain_)
              (f64_add (to_double deltaError)
                 (f64_div (f64_mul (to_double newSumError) (to_double (m_dt m))) (to_double resetTime)))) in
  let '(pv, noUpdateToSumError) :=
    if f32_lt pv (f32 0 0) then (f32 0 0, false) else if f32_gt pv maxPv then (maxPv, true) else (pv, false) in
  let '(sumError, inhibit) :=
    if (inhibitRefCnt =? 0) && negb noUpdateToSumError then (newSumError, inhibit) else (m_prevSumError m, true) in
  (MkPi (m_dt m) sumError pv maxSumError, MkPiOut pv sumError inhibit).

Definition Pi_execute (resetPi : option bool) (deltaError : option float) (cfg : option SystemConfig_T)
    (freeze inhibitCnt : option Z) (m : Pi) : Pi * PiOut :=
  let m := if default false resetPi then MkPi (m_dt m) (f32 0 0) (f32 0 0) (f32 0 0) else m in
  match resetPi, deltaError, cfg, freeze, inhibitCnt with
  | Some _, Some d, Some c, Some 0, Some n => Pi_update d (gain c) (reset_ c) (maxPvOut c) n m
  | _, _, _, _, _ => (m, MkPiOut (m_prevPvOut m) (m_prevSumError m) true)
  end.

(** ** FanControl.cpp *)

(** setIndoorFanOutput(), setIndoorFanContinousOutput(): the data of an invalid point
    are zeros, with the valve as it was. *)
Definition setIndoorFanOutput (x : Z) (vo : option VirtualOutputs_T) : VirtualOutputs_T :=
  validate (set_indoorFan x (default zero_outputs vo)).
Definition setIndoorFanContinousOutput (x : Z) (vo : option VirtualOutputs_T) : VirtualOutputs_T :=
  validate (set_indoorFanCont x (default zero_outputs vo)).

Definition FanControl_execute (fanMode : option Z) (cfg : option SystemConfig_T) (vo : option VirtualOutputs_T)
    (times : option EquipmentTimes_T) : option VirtualOutputs_T :=
  match fanMode, cfg, vo, times with
  | Some mode, Some c, Some _, Some _ =>
      if mode =? fan_CONTINUOUS then Some (setIndoorFanContinousOutput (fanContinuousSpeed c) vo)
      else if mode =? fan_AUTO then Some (setIndoorFanContinousOutput STORM_DM_MP_VIRTUAL_OUTPUTS_OFF vo)
      else vo
  | _, _, _, _ => Some (setIndoorFanOutput STORM_DM_MP_VIRTUAL_OUTPUTS_OFF vo)
  end.

(** ** AirFilterMonitor.cpp *)

Record AirFilterMonitor := MkFilter { m_blowerWasOn : bool; m_markBlowerOn : Precision_T }.
Definition AirFilterMonitor_start (f : AirFilterMonitor) : AirFilterMonitor := MkFilter false (m_markBlowerOn f).

(** The alert and the time of operation. *)
Definition FilterPoints : Type := option SimpleAlarm * option Precision_T.

Definition AirFilterMonitor_execute (maxHours : option Z) (vo : option VirtualOutputs_T) (currentInterval : Precision_T)
    (f : AirFilterMonitor) (p : FilterPoints) : AirFilterMonitor * FilterPoints :=
  match fst p, maxHours, snd p, vo with
  | Some alert, Some h, Some elapsed, Some outputs =>
      if active alert then (f, p)
      else if negb (indoorFan outputs =? STORM_DM_MP_VIRTUAL_OUTPUTS_OFF)
              || negb (indoorFanCont outputs =? STORM_DM_MP_VIRTUAL_OUTPUTS_OFF) then
        let f := if m_blowerWasOn f then f else MkFilter true currentInterval in
        let elapsed := time_add elapsed (deltaPrecision (m_markBlowerOn f) currentInterval) in
        if time_ge elapsed (MkTime (u32 (h * 60 * 60)) 0) then
          (MkFilter false currentInterval, (Some (MkAlarm true false false), Some (MkTime 0 0)))
        else (MkFilter (m_blowerWasOn f) currentInterval, (Some alert, Some elapsed))
      else (f, p)
  | _, _, _, _ => (f, p)
  end.
