(* ===== verification/PiBounds.v ===== *)
(** * The PI controller stays in its bounds

    Pi.cpp in binary32 and binary64, on the executable specification of the Standard
    Library.  First what no rounding can do (produce a number out of nothing, or
    change the sign), then the controller over any number of intervals. *)

From Stdlib Require Import ZArith Lia SpecFloat.
From S2P Require Import Prelude DutyCycle StageFsm Equipment Thermostat.
Local Open Scope Z_scope.

(** ** Signs and numbers *)

Definition number (x : float) : bool := negb (isnan x).
Definition finite (x : float) : bool :=
  match x with S754_zero _ | S754_finite _ _ _ => true | _ => false end.
(** Zero or above, infinity included. *)
Definition nonneg (x : float) : bool :=
  match x with S754_zero _ | S754_finite false _ _ | S754_infinity false => true | _ => false end.
Definition positive_finite (x : float) : bool :=
  match x with S754_finite false _ _ => true | _ => false end.

Lemma nonneg_number x : nonneg x = true → number x = true.
Proof. by destruct x as [[]|[]| |[] ? ?]. Qed.
Lemma finite_number x : finite x = true → number x = true.
Proof. by destruct x. Qed.

Section rounding.
Context (prec emax : Z).

Lemma shr_1_nonneg r : 0 <= shr_m r → 0 <= shr_m (shr_1 r).
Proof. destruct r as [[|[p|p|]|p] ? ?]; cbn; lia. Qed.

Lemma iter_shr_nonneg n : ∀ r, 0 <= shr_m r → 0 <= shr_m (SpecFloat.iter_pos shr_1 n r).
Proof. induction n as [n IH|n IH|]; intros r Hr; cbn; eauto using shr_1_nonneg. Qed.

Lemma shr_fexp_nonneg m e l : 0 <= m → 0 <= shr_m (fst (shr_fexp prec emax m e l)).
Proof.
  intros Hm. unfold shr_fexp, shr.
  assert (0 <= shr_m (shr_record_of_loc m l)) by (by destruct l as [|[]]).
  destruct (_ - e); cbn [fst]; auto using iter_shr_nonneg.
Qed.

Lemma round_nearest_even_nonneg m l : 0 <= m → 0 <= round_nearest_even m l.
Proof. intros. destruct l as [|[]]; cbn; try destruct (Z.even m); lia. Qed.

(** Rounding keeps the sign and gives a number. *)
Lemma round_aux_ok s m e l :
  0 <= m → number (binary_round_aux prec emax s m e l) = true
    ∧ (s = false → nonneg (binary_round_aux prec emax s m e l) = true).
Proof.
  intros Hm. unfold binary_round_aux.
  pose proof (shr_fexp_nonneg m e l Hm) as H1. destruct (shr_fexp prec emax m e l) as [r e1]. cbn in H1.
  pose proof (shr_fexp_nonneg _ e1 loc_Exact (round_nearest_even_nonneg _ (loc_of_shr_record r) H1)) as H2.
  destruct (shr_fexp _ _ _ e1 _) as [r2 e2]. cbn in H2.
  destruct (shr_m r2) as [|p|p]; [split; [done|by intros ->]| |lia].
  destruct (e2 <=? emax - prec); (split; [done|by intros ->]).
Qed.

Lemma normalize_ok m e s :
  number (binary_normalize prec emax m e s) = true
  ∧ (0 <= m → nonneg (binary_normalize prec emax m e s) = true).
Proof.
  destruct m as [|p|p]; cbn [binary_normalize]; [done|..].
  - unfold binary_round. destruct (shl_align _ _ _). destruct (round_aux_ok false (Z.pos p0) z loc_Exact); [lia|auto].
  - unfold binary_round. destruct (shl_align _ _ _). destruct (round_aux_ok true (Z.pos p0) z loc_Exact); [lia|]. split; [done|lia].
Qed.

Lemma SFadd_number x y : finite x = true ∨ finite y = true → number x = true → number y = true → number (SFadd prec emax x y) = true.
Proof.
  intros H Hx Hy. destruct x as [[]|[]| |[] ? ?], y as [[]|[]| |[] ? ?]; try done; cbn [SFadd]; try apply normalize_ok.
  all: by destruct H.
Qed.

Lemma SFadd_nonneg x y : nonneg x = true → nonneg y = true → nonneg (SFadd prec emax x y) = true.
Proof.
  intros Hx Hy. destruct x as [[]|[]| |[] ? ?], y as [[]|[]| |[] ? ?]; try done; cbn [SFadd]; apply normalize_ok; cbn; lia.
Qed.

Lemma SFmul_number x y : positive_finite x = true → number y = true → number (SFmul prec emax x y) = true.
Proof.
  intros Hx Hy. destruct x as [| | |[] mx ex]; try done. destruct y as [| | |s my ey]; try done.
  cbn [SFmul]. apply round_aux_ok. lia.
Qed.

Lemma SFmul_nonneg x y : positive_finite x = true → nonneg y = true → nonneg (SFmul prec emax x y) = true.
Proof.
  intros Hx Hy. destruct x as [| | |[] mx ex]; try done. destruct y as [|[]| |[] my ey]; try done.
  cbn [SFmul]. apply round_aux_ok; [lia|done].
Qed.

Lemma SFmul_nonneg_r x y : nonneg x = true → positive_finite y = true → nonneg (SFmul prec emax x y) = true.
Proof.
  intros Hx Hy. destruct y as [| | |[] mx ex]; try done. destruct x as [|[]| |[] my ey]; try done.
  cbn [SFmul]. apply round_aux_ok; [lia|done].
Qed.

Lemma SFdiv_nonneg x y : nonneg x = true → positive_finite y = true → nonneg (SFdiv prec emax x y) = true.
Proof.
  intros Hx Hy. destruct y as [| | |[] mx ex]; try done. destruct x as [|[]| |[] my ey]; try done.
  cbn [SFdiv]. destruct (SFdiv_core_binary _ _ _ _ _ _) as [[q e] l] eqn:E.
  apply round_aux_ok; [|done]. revert E. unfold SFdiv_core_binary.
  set (m' := match _ with Z0 => Z.pos my | Zpos _ => _ | Zneg _ => 0 end).
  assert (0 <= m') by (unfold m'; destruct (_ - _ - _); [lia|apply Z.shiftl_nonneg; lia|lia]).
  pose proof (Z_div_mod m' (Z.pos mx)) as D. destruct (Z.div_eucl m' (Z.pos mx)) as [q' r].
  destruct D as [D1 D2]; [lia|]. intros [= <- _ _]. nia.
Qed.
End rounding.

Lemma to_double_number x : number x = true → number (to_double x) = true.
Proof. destruct x; try done. intros _. apply normalize_ok. Qed.
Lemma to_float_number x : number x = true → number (to_float x) = true.
Proof. destruct x; try done. intros _. apply normalize_ok. Qed.
Lemma to_double_nonneg x : nonneg x = true → nonneg (to_double x) = true.
Proof. destruct x as [| | |[] m e]; try done. intros _. apply normalize_ok. lia. Qed.
Lemma to_float_nonneg x : nonneg x = true → nonneg (to_float x) = true.
Proof. destruct x as [| | |[] m e]; try done. intros _. apply normalize_ok. lia. Qed.

(** ** Comparisons *)

Lemma SFcompare_antisym x y : SFcompare y x = option_map CompOpp (SFcompare x y).
Proof.
  destruct x as [[]|[]| |[] m1 e1], y as [[]|[]| |[] m2 e2]; try done; cbn [SFcompare option_map];
    rewrite (Z.compare_antisym e1 e2); destruct (e1 ?= e2); cbn; try done;
    change (Pos.compare_cont Eq m1 m2) with (m1 ?= m2)%positive; change (Pos.compare_cont Eq m2 m1) with (m2 ?= m1)%positive;
    rewrite (Pos.compare_antisym m1 m2); done.
Qed.

Lemma SFcompare_number x y : number x = true → number y = true → is_Some (SFcompare x y).
Proof. destruct x, y; try done; intros; by eexists. Qed.

Lemma not_gt_le x y : number x = true → number y = true → f32_gt x y = false → f32_le x y = true.
Proof.
  intros Hx Hy. unfold f32_gt, f32_le, SFltb, SFleb. rewrite (SFcompare_antisym x y).
  destruct (SFcompare_number x y Hx Hy) as [[] ->]; done.
Qed.

Lemma SFcompare_refl x : number x = true → SFcompare x x = Some Eq.
Proof.
  destruct x as [[]|[]| |[] m e]; try done; intros _; cbn [SFcompare]; rewrite Z.compare_refl;
    change (Pos.compare_cont Eq m m) with (m ?= m)%positive; by rewrite Pos.compare_refl.
Qed.
Lemma le_refl x : number x = true → f32_le x x = true.
Proof. intros H. unfold f32_le, SFleb. by rewrite SFcompare_refl. Qed.

Definition zero : float := f32 0 0.
Lemma not_neg_nonneg x : number x = true → f32_lt x zero = false → nonneg x = true.
Proof. by destruct x as [|[]| |[] ? ?]. Qed.
Lemma zero_le x : nonneg x = true → f32_le zero x = true.
Proof. by destruct x as [|[]| |[] ? ?]. Qed.

(** ** The controller *)

(** What the controller reads in an interval. *)
Record PiIn := MkPiIn {
  in_resetPi : option bool;
  in_deltaError : option float;
  in_config : option SystemConfig_T;
  in_freeze : option Z;
  in_inhibit : option Z }.

Definition pi_step (x : PiIn) (m : Pi) : Pi * PiOut :=
  Pi_execute (in_resetPi x) (in_deltaError x) (in_config x) (in_freeze x) (in_inhibit x) m.

Definition pi_run (l : list PiIn) (m : Pi) : Pi := foldl (λ m x, fst (pi_step x m)) m l.

(** The sum at which the integral term alone gives the largest output. *)
Definition sum_limit (cfg : SystemConfig_T) (dt : float) : float :=
  to_float (f64_div (f64_mul (to_double (maxPvOut cfg)) (to_double (reset_ cfg)))
              (f64_mul (to_double (gain cfg)) (to_double dt))).

(** Constants of a controller: positive, and their products do not vanish. *)
Definition tuned (cfg : SystemConfig_T) (dt : float) : bool :=
  positive_finite (to_double (gain cfg)) && positive_finite (to_double (reset_ cfg)) && nonneg (maxPvOut cfg)
  && positive_finite (to_double dt) && positive_finite (f64_mul (to_double (gain cfg)) (to_double dt)).

(** The configuration is this one or not valid; a valid error is a finite number, in
    both widths. *)
Definition readable (cfg : SystemConfig_T) (x : PiIn) : Prop :=
  (in_config x = None ∨ in_config x = Some cfg)
  ∧ ∀ d, in_deltaError x = Some d → finite d = true ∧ finite (to_double d) = true.

Section controller.
Context (cfg : SystemConfig_T) (dt : float) (Htuned : tuned cfg dt = true).
Local Abbreviation maxPv := (maxPvOut cfg).
Local Abbreviation limit := (sum_limit cfg dt).

Definition bounded_pv (x : float) : Prop := f32_le zero x = true ∧ f32_le x maxPv = true.
Definition bounded_sum (x : float) : Prop := f32_le zero x = true ∧ f32_le x limit = true.

Record in_bounds (m : Pi) : Prop := {
  ib_dt : m_dt m = dt;
  ib_sum : nonneg (m_prevSumError m) = true;
  ib_sum_le : bounded_sum (m_prevSumError m);
  ib_pv : bounded_pv (m_prevPvOut m);
  ib_max : areFloatsEqual (m_maxSumError m) zero = true ∨ m_maxSumError m = limit }.

Lemma tuned_parts :
  positive_finite (to_double (gain cfg)) = true ∧ positive_finite (to_double (reset_ cfg)) = true
  ∧ nonneg maxPv = true ∧ positive_finite (to_double dt) = true
  ∧ positive_finite (f64_mul (to_double (gain cfg)) (to_double dt)) = true.
Proof. unfold tuned in Htuned. by repeat apply andb_prop in Htuned as [Htuned ?]. Qed.

Lemma limit_nonneg : nonneg limit = true.
Proof.
  destruct tuned_parts as (? & ? & ? & ? & ?). apply to_float_nonneg, SFdiv_nonneg; [|done].
  apply SFmul_nonneg_r; [|done]. by apply to_double_nonneg.
Qed.

Lemma zero_pv : bounded_pv zero.
Proof.
  destruct tuned_parts as (? & ? & ? & ? & ?). split; [by apply zero_le|by apply zero_le].
Qed.
Lemma zero_sum : bounded_sum zero.
Proof. split; [done|]. apply zero_le, limit_nonneg. Qed.

Lemma in_bounds_reset m : in_bounds m → in_bounds (MkPi (m_dt m) zero zero zero).
Proof. intros [H _ _ _ _]. split; cbn; [done|done|apply zero_sum|apply zero_pv|by left]. Qed.

(** The sum and the output before they are clamped are numbers. *)
Lemma raw_sum_number s d : nonneg s = true → finite d = true → number (f32_add s d) = true.
Proof. intros. apply SFadd_number; auto using nonneg_number, finite_number. Qed.

Lemma raw_pv_number s d :
  nonneg s = true → finite (to_double d) = true →
  number (to_float (f64_mul (to_double (gain cfg))
    (f64_add (to_double d) (f64_div (f64_mul (to_double s) (to_double dt)) (to_double (reset_ cfg)))))) = true.
Proof.
  destruct tuned_parts as (? & ? & ? & ? & ?). intros Hs Hd.
  apply to_float_number, SFmul_number; [done|]. apply SFadd_number; [by left|by apply finite_number|].
  apply nonneg_number, SFdiv_nonneg; [|done]. apply SFmul_nonneg_r; [|done]. by apply to_double_nonneg.
Qed.

Lemma clamp_sum x lim :
  number x = true → nonneg lim = true →
  let x := if f32_lt x zero then zero else x in
  let y := if f32_gt x lim then lim else x in nonneg y = true ∧ f32_le zero y = true ∧ f32_le y lim = true.
Proof.
  intros Hx Hlim. cbv zeta. destruct (f32_lt x zero) eqn:E1.
  - assert (f32_gt zero lim = false) as -> by (by destruct lim as [|[]| |[] ? ?]).
    split; [done|]. split; [done|by apply zero_le].
  - assert (nonneg x = true) by by apply not_neg_nonneg.
    destruct (f32_gt x lim) eqn:E2.
    + split; [done|]. split; [by apply zero_le|]. apply le_refl. by apply nonneg_number.
    + split; [done|]. split; [by apply zero_le|]. apply not_gt_le; auto using nonneg_number.
Qed.

Lemma Pi_update_ok d n m :
  in_bounds m → finite d = true → finite (to_double d) = true →
  let '(m', o) := Pi_update d (gain cfg) (reset_ cfg) maxPv n m in
  in_bounds m' ∧ pi_pvOut o = m_prevPvOut m' ∧ pi_sumError o = m_prevSumError m'
  ∧ (n ≠ 0 → pi_sumError o = m_prevSumError m ∧ pi_pvInhibited o = true).
Proof.
  intros [Hdt Hs Hsl Hpv Hmax] Hd Hd'. unfold Pi_update.
  set (lim := if areFloatsEqual (m_maxSumError m) (f32 0 0) then _ else _).
  assert (lim = limit) as ->.
  { unfold lim. rewrite Hdt. change (f32 0 0) with zero. destruct Hmax as [-> | ->]; [done|]. unfold sum_limit. by case_match. }
  change (f32 0 0) with zero. cbv zeta.
  pose proof (raw_sum_number _ d Hs Hd) as Hraw.
  destruct (clamp_sum _ limit Hraw limit_nonneg) as (C1 & C2 & C3).
  set (raw := if f32_lt (f32_add _ _) zero then zero else _) in *.
  set (sum := if f32_gt raw limit then limit else raw) in *.
  assert (Es : (if f32_gt raw limit then (limit, true) else (raw, false)) = (sum, f32_gt raw limit)).
  { unfold sum. by destruct (f32_gt raw limit). }
  rewrite Es. rewrite Hdt.
  pose proof (raw_pv_number sum d C1 Hd') as Hp.
  set (pv0 := to_float _) in *. clearbody pv0 sum raw.
  set (pv := if f32_lt pv0 zero then zero else if f32_gt pv0 maxPv then maxPv else pv0).
  set (sat := negb (f32_lt pv0 zero) && f32_gt pv0 maxPv).
  assert (Ep : (if f32_lt pv0 zero then (zero, false) else if f32_gt pv0 maxPv then (maxPv, true) else (pv0, false)) = (pv, sat)).
  { unfold pv, sat. destruct (f32_lt pv0 zero), (f32_gt pv0 maxPv); done. }
  rewrite Ep.
  assert (Bp : bounded_pv pv).
  { destruct tuned_parts as (? & ? & ? & ? & ?). unfold pv, bounded_pv.
    destruct (f32_lt pv0 zero) eqn:E1; [apply zero_pv|].
    destruct (f32_gt pv0 maxPv) eqn:E2; [split; [by apply zero_le|by apply le_refl, nonneg_number]|].
    split; [by apply zero_le, not_neg_nonneg|]. apply not_gt_le; auto using nonneg_number. }
  clearbody pv sat.
  destruct (Z.eqb_spec n 0) as [->|Hn]; cbn [andb]; [destruct sat; cbn [negb]|].
  all: split; [|cbn; auto; done].
  all: split; cbn; auto; try done.
Qed.

Lemma pi_step_ok x m :
  in_bounds m → readable cfg x →
  in_bounds (fst (pi_step x m))
  ∧ pi_pvOut (snd (pi_step x m)) = m_prevPvOut (fst (pi_step x m))
  ∧ pi_sumError (snd (pi_step x m)) = m_prevSumError (fst (pi_step x m)).
Proof.
  intros Hm [Hc Hd]. unfold pi_step, Pi_execute. change (f32 0 0) with zero.
  set (m0 := if default false (in_resetPi x) then _ else m).
  assert (Hm0 : in_bounds m0) by (unfold m0; destruct (default _ _); auto using in_bounds_reset).
  clearbody m0.
  destruct (in_resetPi x), (in_deltaError x) as [d|] eqn:Ed, (in_config x) as [c|], (in_freeze x) as [[|f|f]|],
    (in_inhibit x) as [n|]; cbn; auto.
  assert (c = cfg) as -> by (destruct Hc; congruence). destruct (Hd d eq_refl) as [Hf1 Hf2].
  pose proof (Pi_update_ok d n m0 Hm0 Hf1 Hf2) as H.
  destruct (Pi_update d (gain cfg) (reset_ cfg) maxPv n m0) as [m' o]. tauto.
Qed.

Lemma pi_run_ok l : ∀ m, in_bounds m → Forall (readable cfg) l → in_bounds (pi_run l m).
Proof.
  induction l as [|x l IH]; intros m Hm Hl; cbn; [done|]. apply Forall_cons in Hl as [Hx Hl].
  apply IH; [|done]. by apply pi_step_ok.
Qed.
End controller.


(** The configurations that the operating mode makes are tuned, at the interval of the
    thermostat's components. *)
Lemma fill_stages_nonneg n : ∀ i pv perStage c fan l maxPv l' hi,
  nonneg pv = true → nonneg perStage = true → nonneg maxPv = true →
  fill_stages n i pv perStage c fan l maxPv = Some (l', hi) → nonneg hi = true.
Proof.
  induction n as [|n IH]; intros i pv perStage c fan l maxPv l' hi Hp Hs Hm; cbn [fill_stages].
  - intros E. apply (inj Some) in E. congruence.
  - case_match; [|done]. cbv zeta. apply IH; [by apply SFadd_nonneg|done|by apply SFadd_nonneg].
Qed.

Lemma configs_tuned mode e cc c :
  setSystemConfig mode e cc = Some c → tuned c (m_dt (Pi_start (MkTime 2 0))) = true.
Proof.
  assert (H : ∀ g r m, gain c = g → reset_ c = r → maxPvOut c = m →
      tuned (MkSystemConfig [] 0 0 0 0 0 0 0 g r zero) (m_dt (Pi_start (MkTime 2 0))) = true → nonneg m = true →
      tuned c (m_dt (Pi_start (MkTime 2 0))) = true).
  { intros g r m <- <- <-. unfold tuned. cbn [gain reset_ maxPvOut].
    intros Ht Hn. rewrite Hn. repeat apply andb_prop in Ht as [Ht ?]. by repeat (apply andb_true_intro; split). }
  unfold setSystemConfig. intros (f & _ & E)%bind_Some.
  destruct (mode =? eCOOLING); [|destruct (mode =? eID_HEATING)].
  - apply bind_Some in E as (f' & _ & ([l hi] & Ef & E)%bind_Some). apply (inj Some) in E. subst c.
    eapply H; [reflexivity..|by vm_compute|]. by eapply fill_stages_nonneg in Ef.
  - apply bind_Some in E as ([l hi] & Ef & E). apply (inj Some) in E. subst c.
    eapply H; [reflexivity..|by vm_compute|]. by eapply fill_stages_nonneg in Ef.
  - apply (inj Some) in E. subst c. eapply H; [reflexivity..|by vm_compute|done].
Qed.

(** The heater with two stages, a large error first. *)
Definition heating2 : SystemConfig_T :=
  let c := MkComfort 300 300 e3CPH in
  default setToOff (setSystemConfig eID_HEATING (MkEquipmentConfig eFURNACE eAC 1 2 false) (MkComfortConfig c c c)).

Definition error_of (d : Z) : PiIn := MkPiIn (Some false) (Some (f32 d 0)) (Some heating2) (Some 0) (Some 0).

