(* ===== verification/ThermostatSpec.v ===== *)
(** * What the components in front of the control logic guarantee

    A component runs once per interval (section [base]); the forced-off count and
    the operating mode follow the inputs, and the system configuration follows the
    mode (section [mode]). *)

From Stdlib Require Import ZArith Lia SpecFloat.
From S2P Require Import Prelude DutyCycle StageFsm Equipment Heating Thermostat.
Local Open Scope Z_scope.

(** ** Times without a bound

    What the clock shows at [t] milliseconds: its seconds wrap around. *)
Definition shows (t : Z) : Precision_T := MkTime (u32 (t / 1000)) (t mod 1000).

Lemma shows_add t d : time_ok d → time_add (shows t) d = shows (t + msec d).
Proof.
  destruct d as [s m]. intros [_ Hm]. unfold shows, time_add, msec in *; cbn in *.
  pose proof (Z.mod_pos_bound t 1000).
  unfold wrap. rewrite (Z.mod_small (t mod 1000 + m)) by lia.
  assert (Hq : (t + (s * 1000 + m)) / 1000 = t / 1000 + (s + (t mod 1000 + m) / 1000)).
  { rewrite (Z.div_mod t 1000) at 1 by lia.
    replace (1000 * (t / 1000) + t mod 1000 + (s * 1000 + m)) with ((t / 1000 + s) * 1000 + (t mod 1000 + m)) by lia.
    rewrite Z.div_add_l by lia. lia. }
  assert (Hr : (t + (s * 1000 + m)) mod 1000 = (t mod 1000 + m) mod 1000).
  { replace (t + (s * 1000 + m)) with (t + m + s * 1000) by lia.
    by rewrite Z.mod_add, Zplus_mod_idemp_l by lia. }
  rewrite Hq, Hr. f_equal. by rewrite Zplus_mod_idemp_l.
Qed.

(** The comparison is that of milliseconds, when less than the range of the
    seconds has gone by. *)
Lemma shows_expired m d t :
  0 <= m_seconds d → 0 <= m_thousandths d < 1000 → 0 <= t - m < (2 ^ 32 - 1) * 1000 →
  expiredPrecision (shows m) d (shows t) = bool_decide (msec d <= t - m).
Proof.
  intros Hd1 Hd2 Hle. unfold expiredPrecision, deltaPrecision, shows, msec, wrap, MAX_POSITVE_MSEC_ in *.
  change (2 ^ 16) with 65536 in *. change (2 ^ 32) with 4294967296 in *.
  destruct d as [sd td]; cbn [m_seconds m_thousandths] in *.
  rewrite <-Zminus_mod. set (sm := m / 1000) in *. set (st := t / 1000) in *.
  assert (Em : m = 1000 * sm + m mod 1000) by (apply Z.div_mod; lia).
  assert (Et : t = 1000 * st + t mod 1000) by (apply Z.div_mod; lia).
  pose proof (Z.mod_pos_bound m 1000). pose proof (Z.mod_pos_bound t 1000).
  set (t1 := m mod 1000) in *. set (t2 := t mod 1000) in *. clearbody sm st t1 t2. subst m t.
  rewrite (Z.mod_small (st - sm)) by lia.
  destruct (Z_lt_le_dec t2 t1) as [Hb|Hb].
  - assert ((t2 - t1) mod 65536 = t2 - t1 + 65536) as ->.
    { symmetry. apply (Z.mod_unique _ _ (-1)); lia. }
    rewrite (gtb_true (t2 - t1 + 65536)) by lia. cbn [m_seconds m_thousandths].
    rewrite (Z.mod_small (st - sm - 1)) by lia.
    assert ((t2 - t1 + 65536 + 1000) mod 65536 = t2 - t1 + 1000) as ->.
    { symmetry. apply (Z.mod_unique _ _ 1); lia. }
    case_bool_decide;
      destruct (Z.gtb_spec (st - sm - 1) sd), (Z.eqb_spec (st - sm - 1) sd),
        (Z.geb_spec (t2 - t1 + 1000) td); cbn; lia.
  - rewrite (Z.mod_small (t2 - t1)) by lia.
    rewrite (gtb_false (t2 - t1)) by lia. cbn [m_seconds m_thousandths].
    case_bool_decide;
      destruct (Z.gtb_spec (st - sm) sd), (Z.eqb_spec (st - sm) sd),
        (Z.geb_spec (t2 - t1) td); cbn; lia.
Qed.

(** ** Intervals of a component *)

Section base.
Context (interval : Precision_T).
Context (interval_ok : time_ok interval) (interval_pos : 0 < msec interval).
Local Abbreviation I := (msec interval).

Lemma round_down_range x d : 0 <= d → 0 <= x → x - round_down x d = if d =? 0 then 0 else x mod d.
Proof.
  intros. unfold round_down. destruct (Z.eqb_spec d 0); [lia|].
  pose proof (Z.div_mod x d). nia.
Qed.

(** Rounding seconds and thousandths goes back by less than an interval. *)
Lemma setTimeMarker_near t b :
  m_interval b = interval →
  ∃ m, m <= t < m + I
    ∧ setTimeMarker (shows t) b = set_timeMark (shows m) b.
Proof.
  destruct interval_ok as [[Hs _] Hm]. intros Hb.
  unfold setTimeMarker, set_timeMark. rewrite Hb. destruct interval as [s m]. cbn in *. unfold msec in interval_pos; cbn in interval_pos.
  assert (Hsec : 0 <= u32 (t / 1000)) by (apply Z.mod_pos_bound; lia).
  assert (Hms : 0 <= t mod 1000 < 1000) by (apply Z.mod_pos_bound; lia).
  pose proof (round_down_range (u32 (t / 1000)) s) as Ds. pose proof (round_down_range (t mod 1000) m) as Dm.
  set (ds := if s =? 0 then 0 else u32 (t / 1000) mod s) in *.
  set (dm := if m =? 0 then 0 else (t mod 1000) mod m) in *.
  assert (0 <= ds <= Z.max 0 (s - 1) ∧ ds <= u32 (t / 1000)) as [Bs Bs'].
  { unfold ds. destruct (Z.eqb_spec s 0); [lia|].
    pose proof (Z.mod_pos_bound (u32 (t / 1000)) s). pose proof (Z.mod_le (u32 (t / 1000)) s). lia. }
  assert (0 <= dm <= Z.max 0 (m - 1) ∧ dm <= t mod 1000) as [Bm Bm'].
  { unfold dm. destruct (Z.eqb_spec m 0); [lia|].
    pose proof (Z.mod_pos_bound (t mod 1000) m). pose proof (Z.mod_le (t mod 1000) m). lia. }
  exists (t - (ds * 1000 + dm)). split; [unfold msec; cbn; lia|]. f_equal. unfold shows.
  assert (t - (ds * 1000 + dm) = (t / 1000 - ds) * 1000 + (t mod 1000 - dm)) as ->.
  { pose proof (Z.div_mod t 1000). lia. }
  rewrite Z.div_add_l, (Z.div_small (t mod 1000 - dm)), Z.add_0_r by lia.
  rewrite Z.add_comm, Z.mod_add, (Z.mod_small (t mod 1000 - dm)) by lia.
  f_equal; [|lia].
  assert (u32 (t / 1000 - ds) = u32 (t / 1000) - ds) as ->; [|lia].
  unfold wrap in *. rewrite <-Zminus_mod_idemp_l. apply Z.mod_small.
  pose proof (Z.mod_pos_bound (t / 1000) (2 ^ 32)). lia.
Qed.

(** What a component does at the times at which it is called: it waits within its
    interval, runs when one is over, and catches up after it has missed one or
    more.  The last argument counts those. *)
Inductive paced : option Z → list (bool * Z * option Precision_T) → Z → Prop :=
  | paced_nil mark : paced mark [] 0
  | paced_first mark (enabled : bool) t l n :
      mark <= t < mark + I → paced (Some mark) l n →
      paced None ((enabled, t, if enabled then Some (shows mark) else None) :: l) n
  | paced_wait mark (enabled : bool) t l n :
      t < mark + I → paced (Some mark) l n →
      paced (Some mark) ((enabled, t, None) :: l) n
  | paced_next mark (enabled : bool) t l n :
      mark + I <= t < mark + I + I → paced (Some (mark + I)) l n →
      paced (Some mark) ((enabled, t, if enabled then Some (shows (mark + I)) else None) :: l) n
  | paced_slip mark mark' (enabled : bool) t l n :
      mark + I + I <= t → mark' <= t < mark' + I → paced (Some mark') l n →
      paced (Some mark) ((enabled, t, if enabled then Some (shows mark') else None) :: l) (n + 1).

(** The calls of a component, at increasing times. *)
Fixpoint work (calls : list (bool * Z)) (b : Base) : Base * list (option Precision_T) :=
  match calls with
  | [] => (b, [])
  | (enabled, t) :: calls =>
      let '(b, o) := doWork enabled (shows t) b in
      let '(b, l) := work calls b in (b, o :: l)
  end.

(** Times do not go back, and the clock does not turn over between two calls. *)
Fixpoint called_in_time (from : Z) (calls : list (bool * Z)) : Prop :=
  match calls with
  | [] => True
  | (_, t) :: calls => from <= t < from + 2 ^ 31 * 1000 ∧ called_in_time t calls
  end.

Definition marked (mark : option Z) (b : Base) : Prop :=
  m_interval b = interval ∧ m_started b = true
  ∧ match mark with
    | Some m => m_timeMarkValid b = true ∧ m_timeMark b = shows m
    | None => m_timeMarkValid b = false
    end.

Lemma doWork_first t enabled b :
  marked None b →
  ∃ mark b', doWork enabled (shows t) b = (b', if enabled then Some (shows mark) else None)
    ∧ mark <= t < mark + I ∧ marked (Some mark) b' ∧ m_slipCounter b' = m_slipCounter b.
Proof.
  intros (Hi & Hst & Hv). destruct (setTimeMarker_near t b Hi) as (mark & Hmark & E).
  exists mark. unfold doWork, base_due. rewrite Hv; cbn. rewrite E. cbn. rewrite Hv; cbn. rewrite Hst.
  eexists. split; [done|]. split; [done|]. by repeat split.
Qed.

Lemma doWork_marked t enabled mark b :
  0 <= t - mark < (2 ^ 32 - 1) * 1000 → marked (Some mark) b →
  (t < mark + I ∧ doWork enabled (shows t) b = (b, None))
  ∨ ∃ mark' b', doWork enabled (shows t) b = (b', if enabled then Some (shows mark') else None)
    ∧ mark + I <= mark' <= t ∧ t < mark' + I ∧ marked (Some mark') b'
    ∧ if bool_decide (t < mark + I + I) then mark' = mark + I ∧ m_slipCounter b' = m_slipCounter b
      else m_slipCounter b' = u32 (m_slipCounter b + 1).
Proof.
  intros Ht (Hi & Hst & Hv & Hm). pose proof interval_ok as [[? _] ?].
  unfold doWork, base_due. rewrite Hv, Hm, Hi; cbn [negb orb].
  rewrite shows_expired by done. case_bool_decide as Hdue; [right|left; split; [lia|done]].
  cbn [m_timeMarkValid set_timeMark m_timeMark m_interval andb]. rewrite Hv, Hi, shows_add by done. cbn [andb].
  rewrite shows_expired by lia.
  destruct (decide (t < mark + I + I)).
  - rewrite (bool_decide_eq_false_2 (I <= _)), (bool_decide_eq_true_2 (t < _)) by lia.
    cbn [m_started set_timeMarkValid set_timeMark m_timeMark]. rewrite Hst.
    exists (mark + I). eexists. split; [done|]. by repeat split; try lia.
  - rewrite (bool_decide_eq_true_2 (I <= _)), (bool_decide_eq_false_2 (t < _)) by lia.
    set (b1 := slipped (set_timeMark (shows (mark + I)) b)).
    destruct (setTimeMarker_near t b1 Hi) as (mark' & Hmark & E). rewrite E.
    cbn [m_started set_timeMarkValid set_timeMark m_timeMark slipped b1]. rewrite Hst.
    exists mark'. eexists. split; [done|]. by repeat split; try lia.
Qed.

Lemma work_paced calls : ∀ from mark b b' outs,
  called_in_time from calls → (∀ m, mark = Some m → m <= from < m + I) →
  I < 2 ^ 31 * 1000 - 1000 →
  marked mark b → in_range 32 (m_slipCounter b) → work calls b = (b', outs) →
  ∃ n, paced mark (zip calls outs) n ∧ length outs = length calls
    ∧ m_slipCounter b' = u32 (m_slipCounter b + n).
Proof.
  induction calls as [|[enabled t] calls IH]; intros from mark b b' outs Hc Hfrom HI Hb Hr.
  - cbn. intros [= <- <-]. exists 0. split; [constructor|]. split; [done|].
    rewrite Z.add_0_r. symmetry. apply Z.mod_small, Hr.
  - destruct Hc as [Ht Hc]. cbn. destruct mark as [mark|].
    + specialize (Hfrom _ eq_refl). destruct (doWork_marked t enabled mark b) as [[Hw E]|(mark' & b1 & E & Hle & Hlt & Hb1 & Hslip)].
      { lia. } { done. }
      * rewrite E. destruct (work calls b) as [b2 l] eqn:El. intros [= <- <-].
        destruct (IH t (Some mark) b b2 l) as (n & Hp & Hl & Hn); [done|intros m [= <-]; lia|done..|].
        exists n. split; [by constructor|]. split; [cbn; lia|done].
      * rewrite E. destruct (work calls b1) as [b2 l] eqn:El. intros [= <- <-].
        assert (Hr1 : in_range 32 (m_slipCounter b1)).
        { case_bool_decide; [by destruct Hslip as [_ ->]|]. rewrite Hslip. apply Z.mod_pos_bound. lia. }
        destruct (IH t (Some mark') b1 b2 l) as (n & Hp & Hl & Hn); [done|intros m [= <-]; lia|done..|].
        case_bool_decide.
        -- destruct Hslip as [-> Hslip]. exists n. split; [by apply paced_next; [lia|]|].
           split; [cbn; lia|congruence].
        -- exists (n + 1). split; [by apply paced_slip; [lia..|]|]. split; [cbn; lia|].
           rewrite Hn, Hslip. unfold wrap. rewrite Zplus_mod_idemp_l. f_equal. lia.
    + destruct (doWork_first t enabled b Hb) as (mark & b1 & E & Hm & Hb1 & Hslip).
      rewrite E. destruct (work calls b1) as [b2 l] eqn:El. intros [= <- <-].
      destruct (IH t (Some mark) b1 b2 l) as (n & Hp & Hl & Hn);
        [done|intros m [= <-]; lia|done|done|by rewrite Hslip|done|].
      exists n. split; [by constructor|]. split; [cbn; lia|congruence].
Qed.
End base.

(** C39. A component that has been started runs at its first call, and from then on
    once per interval: never before the interval is over, on marks that are a whole
    interval apart, unless it was called too late by an interval or more, in which
    case it counts that and begins a new interval that contains the call.  While it
    is not enabled its intervals go on. *)
Theorem component_runs_once_per_interval interval from calls b :
  time_ok interval → 0 < msec interval < 2 ^ 31 * 1000 - 1000 → called_in_time from calls →
  ∃ b' outs n,
    work calls (Base_start interval b) = (b', outs)
    ∧ length outs = length calls
    ∧ paced interval None (zip calls outs) n
    ∧ m_slipCounter b' = u32 n.
Proof.
  intros Hi [Hp Hlt] Hc. destruct (work calls (Base_start interval b)) as [b' outs] eqn:E.
  destruct (work_paced interval Hi Hp calls from None (Base_start interval b) b' outs) as (n & H1 & H2 & H3);
    [done|done|done|done|done|done|].
  by exists b', outs, n.
Qed.

(** An interval of two seconds: a call in time, one too early, one too late by an
    interval, with the component disabled at the end. *)
Lemma component_runs_once_per_interval_witness :
  ∃ b' outs n,
    work [(true, 5300); (true, 5500); (true, 6500); (true, 11000); (false, 13000)] (Base_start (MkTime 2 0) Base_new) = (b', outs)
    ∧ length outs = 5%nat
    ∧ paced (MkTime 2 0) None (zip [(true, 5300); (true, 5500); (true, 6500); (true, 11000); (false, 13000)] outs) n
    ∧ m_slipCounter b' = u32 n.
Proof.
  apply (component_runs_once_per_interval (MkTime 2 0) 5000).
  - by vm_compute.
  - by vm_compute.
  - cbn. lia.
Defined.

(** Two components of one interval do not run in the same pass of the loop when they
    begin in different ones: the marks of an interval of a second and a half are
    not multiples of it. *)
Lemma marks_are_no_boundaries :
  let b := Base_start (MkTime 1 500) Base_new in
  snd (work [(true, 1000); (true, 2500)] b) = [Some (MkTime 1 0); Some (MkTime 2 500)]
  ∧ snd (work [(true, 1600); (true, 2500)] b) = [Some (MkTime 1 500); None].
Proof. by vm_compute. Qed.

(** ** The mode and the forced-off count *)

(** The modes that the user can choose, and the stages that the tables hold. *)
Record equipment_ok (eq : EquipmentConfig) : Prop := {
  eo_comp : 0 <= numCompStages eq <= 4;
  eo_indoor : 0 <= numIduHeatingStages eq <= 4 }.

Lemma fill_stages_some n : ∀ i pv perStage c fan l maxPv,
  (i + n <= length l)%nat →
  ∃ l' hi, fill_stages n i pv perStage c fan l maxPv = Some (l', hi) ∧ length l' = length l.
Proof.
  induction n as [|n IH]; intros i pv perStage c fan l maxPv Hl; cbn [fill_stages]; [by eauto|].
  destruct (Nat.ltb_spec i (length l)); [|lia]. cbv zeta.
  edestruct (IH (S i)) as (l' & hi & -> & Hl').
  { rewrite length_insert. lia. }
  exists l', hi. split; [done|]. by rewrite Hl', length_insert.
Qed.

(** What a configuration holds that was made for an operating mode. *)
Record config_for (mode stagesIndoor : Z) (c : SystemConfig_T) : Prop := {
  cf_mode : currentOpMode c = mode;
  cf_stages : length (stages c) = 4%nat;
  cf_indoor : mode = eID_HEATING → numIndoorStages c = stagesIndoor;
  cf_off : mode = OperatingMode_eOFF → numIndoorStages c = 0 ∧ numCompressorStages c = 0 }.

Lemma setSystemConfig_some mode eq cc :
  equipment_ok eq → ∃ c, setSystemConfig mode eq cc = Some c ∧ config_for mode (numIduHeatingStages eq) c.
Proof.
  intros [H1 H2]. unfold setSystemConfig.
  assert (∃ f, (if hasVspBlower eq then OPTION_STORM_DEFAULT_VSP_BLOWER_FAN_CONT_SPEED else Some STORM_DM_MP_VIRTUAL_OUTPUTS_ON) = Some f)
    as [f1 ->] by (destruct (hasVspBlower eq); by eexists).
  assert (∃ f, (if hasVspBlower eq then OPTION_STORM_DEFAULT_VSP_BLOWER_COOLING_SPEED else Some STORM_DM_MP_VIRTUAL_OUTPUTS_ON) = Some f)
    as [f2 ->] by (destruct (hasVspBlower eq); by eexists).
  cbn [mbind option_bind]. destruct (Z.eqb_spec mode eCOOLING) as [->|]; [|destruct (Z.eqb_spec mode eID_HEATING) as [->|]].
  - edestruct (fill_stages_some (Z.to_nat (numCompStages eq)) 0) as (l & hi & -> & Hl); [|cbn; eexists; split; [done|by split]].
    cbn. lia.
  - edestruct (fill_stages_some (Z.to_nat (numIduHeatingStages eq)) 0) as (l & hi & -> & Hl); [|cbn; eexists; split; [done|by split]].
    cbn. lia.
  - eexists. split; [done|]. by split.
Qed.

(** Whether the equipment can serve a mode at all. *)
Definition serves (eq : EquipmentConfig) (mode : Z) : Prop :=
  let '(haveCooling, haveHeating, haveHeatPump) := allowed_modes eq in
  (mode = eCOOLING → haveCooling = true) ∧ (mode = eHEATING → haveHeatPump = true)
  ∧ (mode = eID_HEATING → haveHeating = true).

(** A critical loss of the sensors, for the current inputs. *)
Definition no_sensor (i : Inputs) : bool :=
  negb (is_valid (primaryIdt i))
  && negb (default false (enabledSecondaryIdt i) && is_valid (secondaryIdt i)).

(** Nothing to condition with, for the current inputs; IdtSelection always gives a
    temperature. *)
Definition no_conditioning (i : Inputs) : bool :=
  match userMode i, setpoints i, in_systemOn i, in_beginTimes i, comfortConfig i, equipmentConfig i with
  | Some _, Some _, Some _, Some _, Some _, Some eq =>
      let '(haveCooling, haveHeating, _) := allowed_modes eq in negb haveCooling && negb haveHeating
  | _, _, _, _, _, _ => true
  end.

(** One interval of the two components that can force the system off. *)
Definition supervise (it : Inputs * Precision_T) (st : bool * State) : option (bool * State) :=
  let '(m_critical, (m, p)) := st in
  let '(m_critical, p) := IdtSelection_execute (fst it) m_critical p in
  s ← OperatingMode_execute (fst it) (snd it) (m, p);
  Some (m_critical, s).

Fixpoint supervise_all (l : list (Inputs * Precision_T)) (st : bool * State) : option (bool * State) :=
  match l with
  | [] => Some st
  | it :: l => st ← supervise it st; supervise_all l st
  end.

Section mode.
Context (eq : EquipmentConfig) (Heq : equipment_ok eq).
Context (others : Z) (Hothers : 0 <= others < 2 ^ 32 - 2).

Definition counted (m_critical : bool) (s : State) : Prop :=
  systemForcedOffRefCnt (snd s) = MkRef true (others + Z.b2z m_critical + Z.b2z (m_forcedOff (fst s))).

(** The configuration is the one of the last mode. *)
Definition configured (s : State) : Prop :=
  (∀ c, sysConfig (snd s) = Some c → length (stages c) = 4%nat)
  ∧ (m_prevOperatingMode (fst s) ≠ eUNKNOWN →
     serves eq (m_prevOperatingMode (fst s))
     ∧ ∃ c, sysConfig (snd s) = Some c ∧ config_for (m_prevOperatingMode (fst s)) (numIduHeatingStages eq) c).

Definition supervised (st : bool * State) : Prop := counted (fst st) (snd st) ∧ configured (snd st).

(** The configuration of the equipment is not valid, or this one. *)
Definition inputs_ok (i : Inputs) : Prop := equipmentConfig i = None ∨ equipmentConfig i = Some eq.

(** *** The count *)

Lemma increment_count n : 0 <= n < 2 ^ 32 - 1 → increment (MkRef true n) = MkRef true (n + 1).
Proof.
  intros. unfold increment; cbn. unfold wrap. rewrite Z.mod_small by lia.
  destruct (Z.ltb_spec (n + 1) n); [lia|done].
Qed.
Lemma decrement_count n : 0 < n < 2 ^ 32 → decrement (MkRef true n) = MkRef true (n - 1).
Proof.
  intros. unfold decrement; cbn. unfold wrap. rewrite Z.mod_small by lia.
  destruct (Z.ltb_spec n (n - 1)); [lia|done].
Qed.

Lemma IdtSelection_ok i c m p :
  counted c (m, p) →
  ∃ p', IdtSelection_execute i c p = (no_sensor i, p') ∧ counted (no_sensor i) (m, p')
    ∧ sysConfig p' = sysConfig p ∧ is_Some (activeIdt p').
Proof.
  unfold counted. cbn [fst snd]. intros Hc. unfold IdtSelection_execute. cbv zeta.
  match goal with |- context [?a || ?b] => assert (a || b = no_sensor i) as -> end.
  { unfold no_sensor. destruct (is_valid (primaryIdt i)), (enabledSecondaryIdt i) as [[]|], (is_valid (secondaryIdt i)); done. }
  destruct (no_sensor i), c; cbn [negb andb].
  all: eexists; split; [reflexivity|]; cbn; rewrite ?Hc; cbn.
  - done.
  - rewrite increment_count by (destruct (m_forcedOff m); cbn; lia). split; [f_equal; lia|done].
  - rewrite decrement_count by (destruct (m_forcedOff m); cbn; lia). split; [f_equal; lia|done].
  - done.
Qed.

Lemma alarm_count a c s :
  counted c s → counted c (setNoActiveConditioningAlarm a s)
    ∧ m_forcedOff (fst (setNoActiveConditioningAlarm a s)) = a.
Proof.
  destruct s as [m p]. unfold counted, setNoActiveConditioningAlarm. cbn [fst snd]. intros Hc.
  destruct a, (m_forcedOff m) eqn:E; cbn; rewrite ?E, ?Hc; cbn.
  - done.
  - rewrite increment_count by (destruct c; cbn; lia). split; [f_equal; lia|done].
  - rewrite decrement_count by (destruct c; cbn; lia). split; [f_equal; lia|done].
  - done.
Qed.

(** *** The configuration *)

Lemma config_for_equal mode n c d :
  config_for mode n c → isDataEqual d c = true → length (stages d) = 4%nat → config_for mode n d.
Proof.
  intros [H1 H2 H3 H4] E Hd. unfold isDataEqual in E.
  repeat apply andb_prop in E as [E ?].
  repeat match goal with H : (_ =? _) = true |- _ => apply Z.eqb_eq in H end.
  split; [congruence|done|intros; rewrite <-H3 by done; congruence|].
  intros Hm. destruct (H4 Hm). split; congruence.
Qed.

Lemma write_sysConfig_ok mode n d p :
  config_for mode n d → (∀ c, sysConfig p = Some c → length (stages c) = 4%nat) →
  (∃ c, sysConfig (write_sysConfig d p) = Some c ∧ config_for mode n c)
  ∧ systemForcedOffRefCnt (write_sysConfig d p) = systemForcedOffRefCnt p.
Proof.
  intros Hd Hlen. unfold write_sysConfig. destruct (sysConfig p) as [old|] eqn:E.
  - destruct (isDataEqual old d) eqn:Eq.
    + split; [|done]. exists old. split; [done|]. eapply config_for_equal; eauto.
    + by split; [exists d|].
  - by split; [exists d|].
Qed.

(** The mode after a call of setNewOperatingMode(). *)
Definition resolved (mode : Z) (haveHeatPump : bool) : Z :=
  if (mode =? eHEATING) && negb haveHeatPump then eID_HEATING else mode.

Lemma setNew_ok mode hp i e cc c s :
  equipment_ok e → counted c s → configured s →
  resolved mode hp ≠ eUNKNOWN → serves eq (resolved mode hp) → (resolved mode hp = eID_HEATING → e = eq) →
  ∃ s', setNewOperatingMode mode hp i e cc s = Some s'
    ∧ counted c s' ∧ configured s' ∧ m_prevOperatingMode (fst s') = resolved mode hp
    ∧ m_forcedOff (fst s') = m_forcedOff (fst s) ∧ m_inAuto (fst s') = m_inAuto (fst s).
Proof.
  intros He Hc [Hlen Hcfg] Hu Hserve Hsame. destruct s as [m p]. unfold setNewOperatingMode.
  fold (resolved mode hp). set (mode' := resolved mode hp) in *. cbn [fst snd] in *.
  destruct (setSystemConfig_some mode' e cc He) as (d & Es & Hd).
  assert (Hd' : config_for mode' (numIduHeatingStages eq) d).
  { destruct Hd as [A1 A2 A3 A4]. split; [done..| |done]. intros Hm. rewrite (A3 Hm). by rewrite (Hsame Hm). }
  destruct (Z.eqb_spec mode' (m_prevOperatingMode m)) as [Eq|Ne]; cbn [negb orb].
  - destruct (_ || _).
    + rewrite Es. cbn [mbind option_bind]. eexists. split; [done|].
      destruct (write_sysConfig_ok _ _ d p Hd' Hlen) as [(c' & E1 & E2) E3].
      unfold counted, configured. cbn [fst snd set_seqs m_forcedOff m_prevOperatingMode m_inAuto]. rewrite E3.
      split; [done|]. split; [|by rewrite <-Eq].
      split; [intros ? ?; assert (c0 = c') as -> by congruence; apply E2|].
      intros _. rewrite <-Eq. split; [done|]. by exists c'.
    + eexists. split; [done|]. by split_and!.
  - rewrite Es. cbn [mbind option_bind]. eexists. split; [done|].
    edestruct (write_sysConfig_ok _ _ d (write_resetPi true (write_modeChanged true p)) Hd') as [(c' & E1 & E2) E3]; [done|].
    unfold counted, configured. cbn [fst snd set_seqs set_prevMode m_forcedOff m_prevOperatingMode m_inAuto]. rewrite E3.
    split; [done|]. split; [|done].
    split; [intros ? ?; assert (c0 = c') as -> by congruence; apply E2|].
    intros _. split; [done|]. by exists c'.
Qed.

(** Changes that leave the count, the configuration and the mode alone. *)
Definition same_mode (s s' : State) : Prop :=
  systemForcedOffRefCnt (snd s') = systemForcedOffRefCnt (snd s) ∧ sysConfig (snd s') = sysConfig (snd s)
  ∧ m_forcedOff (fst s') = m_forcedOff (fst s) ∧ m_prevOperatingMode (fst s') = m_prevOperatingMode (fst s).

Lemma counted_same c s s' : same_mode s s' → counted c s → counted c s'.
Proof. intros (E1 & _ & E2 & _). unfold counted. by rewrite E1, E2. Qed.
Lemma configured_same s s' : same_mode s s' → configured s → configured s'.
Proof. intros (_ & E1 & _ & E2). unfold configured. by rewrite E1, E2. Qed.

Lemma configured_alarm a s : configured s → configured (setNoActiveConditioningAlarm a s)
  ∧ m_prevOperatingMode (fst (setNoActiveConditioningAlarm a s)) = m_prevOperatingMode (fst s)
  ∧ m_inAuto (fst (setNoActiveConditioningAlarm a s)) = m_inAuto (fst s).
Proof.
  destruct s as [m p]. intros H. unfold setNoActiveConditioningAlarm. destruct a, (m_forcedOff m); by split_and!.
Qed.

(** *** The decision *)

(** The temperature that IdtSelection gives. *)
Definition chosen_idt (i : Inputs) : float :=
  let primary := default (f32 0 0) (primaryIdt i) in
  if default false (enabledSecondaryIdt i) then default primary (secondaryIdt i) else primary.

(** In automatic mode the mode may only change after the system has been off for the
    hysteresis. *)
Definition may_switch (i : Inputs) (now : Precision_T) : bool :=
  negb (default false (in_systemOn i))
  && expiredPrecision (systemBeginOffTime (default zero_times (in_beginTimes i)))
       (MkTime OPTION_STORM_COMPONENT_OPERATING_MODE_SECONDS_HYSTERESIS 0) now.

(** The next mode, and whether it was chosen automatically, when nothing forces the
    system off. *)
Definition chosen_mode (i : Inputs) (now : Precision_T) (m : OperatingMode) : Z * bool :=
  let '(haveCooling, haveHeating, haveHeatPump) := allowed_modes eq in
  let heating := if haveHeatPump then eHEATING else eID_HEATING in
  let '(cool, heat) := default (f32 0 0, f32 0 0) (setpoints i) in
  let um := default mode_OFF (userMode i) in
  if um =? mode_COOLING then (if haveCooling then eCOOLING else OperatingMode_eOFF, false)
  else if um =? mode_HEATING then (if haveHeating then heating else OperatingMode_eOFF, false)
  else if um =? mode_ID_HEATING then (if haveHeating then eID_HEATING else OperatingMode_eOFF, false)
  else if um =? mode_AUTO then
    if haveCooling && haveHeating then
      if m_inAuto m then
        (if may_switch i now then
           if f32_le (f32_sub cool OPTION_STORM_COMPONENT_OPERATING_MODE_COOLING_OFFSET) (chosen_idt i)
           then eCOOLING else heating
         else m_prevOperatingMode m, true)
      else (if f32_le (chosen_idt i) heat then heating else eCOOLING, true)
    else (if haveCooling then eCOOLING else heating, false)
  else (OperatingMode_eOFF, false).

(** The forced-off count after an interval with these inputs. *)
Definition forced_count (i : Inputs) : Z := others + Z.b2z (no_sensor i) + Z.b2z (no_conditioning i).

Definition auto_known (m : OperatingMode) : Prop := m_inAuto m = true → m_prevOperatingMode m ≠ eUNKNOWN.

(** What an interval of the operating mode makes of a state. *)
Definition decided (i : Inputs) (now : Precision_T) (c : bool) (s s' : State) : Prop :=
  counted c s' ∧ configured s' ∧ m_prevOperatingMode (fst s') ≠ eUNKNOWN
  ∧ m_forcedOff (fst s') = no_conditioning i
  ∧ (m_prevOperatingMode (fst s'), m_inAuto (fst s'))
    = if others + Z.b2z c + Z.b2z (no_conditioning i) >? 0 then (OperatingMode_eOFF, m_inAuto (fst s))
      else chosen_mode i now (fst s).

Lemma serves_off : serves eq OperatingMode_eOFF.
Proof. unfold serves. destruct (allowed_modes eq) as [[] ?]. done. Qed.

(** A state in which one call of setNewOperatingMode() is left to do. *)
Lemma decide_by mode hp i e cc c s :
  equipment_ok e → counted c s → configured s →
  resolved mode hp ≠ eUNKNOWN → serves eq (resolved mode hp) → (resolved mode hp = eID_HEATING → e = eq) →
  ∃ s', setNewOperatingMode mode hp i e cc s = Some s'
    ∧ counted c s' ∧ configured s' ∧ m_prevOperatingMode (fst s') ≠ eUNKNOWN
    ∧ m_forcedOff (fst s') = m_forcedOff (fst s)
    ∧ (m_prevOperatingMode (fst s'), m_inAuto (fst s')) = (resolved mode hp, m_inAuto (fst s)).
Proof.
  intros. edestruct (setNew_ok mode hp i e cc c s) as (s' & E & ? & ? & E1 & ? & E2); try done.
  exists s'. rewrite E1, E2. by split_and!.
Qed.

Lemma no_equipment_ok : equipment_ok no_equipment.
Proof. split; cbn; lia. Qed.

Lemma bad_inputs i e cc c s :
  equipment_ok e → counted c s → configured s →
  ∃ s', (s ← setNewOperatingMode OperatingMode_eOFF false i e cc s; Some (setNoActiveConditioningAlarm true s)) = Some s'
    ∧ counted c s' ∧ configured s' ∧ m_forcedOff (fst s') = true
    ∧ (m_prevOperatingMode (fst s'), m_inAuto (fst s')) = (OperatingMode_eOFF, m_inAuto (fst s)).
Proof.
  intros He Hc Hf.
  destruct (decide_by OperatingMode_eOFF false i e cc c s He Hc Hf) as (s1 & -> & Hc1 & Hf1 & _ & _ & E); [done|apply serves_off|done|].
  cbn [mbind option_bind]. eexists. split; [done|].
  destruct (alarm_count true c s1 Hc1) as [? ->]. destruct (configured_alarm true s1 Hf1) as (? & -> & ->).
  by split_and!.
Qed.

(** The part of execute() after the equipment has been looked at. *)
Definition choose (i : Inputs) (idt coolSetpt heatSetpt : float) (um : Z) (systemOn : bool) (times : EquipmentTimes_T)
    (cc : ComfortConfig) (now : Precision_T) (s : State) : option State :=
  let '(haveCooling, haveHeating, haveHeatPump) := allowed_modes eq in
  match rc_read (systemForcedOffRefCnt (snd s)) with
  | Some 0 =>
      let '(um, alarmActive) := correct_mode haveCooling haveHeating um in
      let s := with_points (λ p, write_userConfig (setAlarm alarmActive alarmActive (userConfigModeAlarm p)) p) s in
      let new mode := setNewOperatingMode mode haveHeatPump i eq cc in
      if um =? mode_COOLING then new eCOOLING (with_om (set_inAuto false) s)
      else if um =? mode_HEATING then new eHEATING (with_om (set_inAuto false) s)
      else if um =? mode_ID_HEATING then new eID_HEATING (with_om (set_inAuto false) s)
      else if um =? mode_AUTO then
        if negb (m_inAuto (fst s)) then
          new (if f32_le idt heatSetpt then eHEATING else eCOOLING) (with_om (set_inAuto true) s)
        else if negb systemOn
                && expiredPrecision (systemBeginOffTime times)
                     (MkTime OPTION_STORM_COMPONENT_OPERATING_MODE_SECONDS_HYSTERESIS 0) now then
          new (if f32_le (f32_sub coolSetpt OPTION_STORM_COMPONENT_OPERATING_MODE_COOLING_OFFSET) idt then eCOOLING
               else eHEATING) s
        else Some s
      else new OperatingMode_eOFF (with_om (set_inAuto false) s)
  | _ => setNewOperatingMode OperatingMode_eOFF haveHeatPump i eq cc s
  end.

#[local] Opaque setNewOperatingMode.

Lemma new_from s1 mode hp i cc c s b :
  m_inAuto (fst s1) = b → same_mode s s1 → counted c s → configured s →
  resolved mode hp ≠ eUNKNOWN → serves eq (resolved mode hp) →
  ∃ s', setNewOperatingMode mode hp i eq cc s1 = Some s'
    ∧ counted c s' ∧ configured s' ∧ m_prevOperatingMode (fst s') ≠ eUNKNOWN
    ∧ m_forcedOff (fst s') = m_forcedOff (fst s)
    ∧ (m_prevOperatingMode (fst s'), m_inAuto (fst s')) = (resolved mode hp, b).
Proof.
  intros <- Hs ????. destruct (decide_by mode hp i eq cc c s1) as (s' & ? & ? & ? & ? & E & ?);
    [done|by eapply counted_same|by eapply configured_same|done..|].
  exists s'. rewrite E. destruct Hs as (_ & _ & <- & _). by split_and!.
Qed.

Lemma serves_modes haveC haveH haveP :
  allowed_modes eq = (haveC, haveH, haveP) →
  serves eq OperatingMode_eOFF ∧ (haveC = true → serves eq eCOOLING)
  ∧ (haveH = true → serves eq (resolved eHEATING haveP) ∧ serves eq eID_HEATING).
Proof. unfold serves, resolved. intros ->. by destruct haveC, haveH, haveP. Qed.

Lemma choose_ok i idt cool heat um on times cc now c s :
  counted c s → configured s → auto_known (fst s) →
  userMode i = Some um → setpoints i = Some (cool, heat) → in_systemOn i = Some on →
  in_beginTimes i = Some times → chosen_idt i = idt →
  (others + Z.b2z c + Z.b2z (m_forcedOff (fst s)) = 0 →
   let '(haveCooling, haveHeating, _) := allowed_modes eq in haveCooling || haveHeating = true) →
  ∃ s', choose i idt cool heat um on times cc now s = Some s'
    ∧ counted c s' ∧ configured s' ∧ m_prevOperatingMode (fst s') ≠ eUNKNOWN
    ∧ m_forcedOff (fst s') = m_forcedOff (fst s)
    ∧ (m_prevOperatingMode (fst s'), m_inAuto (fst s'))
      = if others + Z.b2z c + Z.b2z (m_forcedOff (fst s)) >? 0 then (OperatingMode_eOFF, m_inAuto (fst s))
        else chosen_mode i now (fst s).
Proof.
  intros Hc Hf Ha E1 E2 E3 E4 E5 Hany. unfold choose, chosen_mode, may_switch.
  rewrite E1, E2, E3, E4, E5; cbn [default from_option]. rewrite Hc. cbn [rc_read rc_valid rc_data].
  destruct (allowed_modes eq) as [[haveC haveH] haveP] eqn:Em.
  destruct (serves_modes _ _ _ Em) as (Hoff & Hcool & Hheat).
  set (n := others + Z.b2z c + Z.b2z (m_forcedOff (fst s))) in *.
  assert (0 <= n) by (unfold n; destruct c, (m_forcedOff (fst s)); cbn; lia).
  destruct n as [|n|n]; [|cbn; by apply new_from|lia].
  specialize (Hany eq_refl). clear H. cbn [Z.gtb Z.compare id].
  assert (Hany' : haveC = false → haveH = true) by (destruct haveC, haveH; done). clear Hany.
  unfold correct_mode.
  destruct (Z.eqb_spec um mode_COOLING) as [->|N1]; [|destruct (Z.eqb_spec um mode_HEATING) as [->|N2];
    [|destruct (Z.eqb_spec um mode_ID_HEATING) as [->|N3]; [|destruct (Z.eqb_spec um mode_AUTO) as [->|N4]]]].
  - destruct haveC; cbn; apply new_from; solve [done|by split_and!|auto].
  - destruct haveH, haveP; cbn; apply new_from; solve [done|by split_and!|by apply Hheat|auto].
  - destruct haveH; cbn; apply new_from; solve [done|by split_and!|by apply Hheat|auto].
  - set (to_cool := f32_le (f32_sub _ _) idt). set (to_heat := f32_le idt heat). set (off_long := negb on && _).
    clearbody to_cool to_heat off_long. cbn [Z.eqb Pos.eqb mode_AUTO mode_COOLING mode_HEATING mode_ID_HEATING andb].
    destruct haveC, haveH; cbn [negb andb orb];
      [|by destruct haveP; cbn; apply new_from; solve [done|by split_and!|by apply Hheat|auto]..|by specialize (Hany' eq_refl)].
    destruct (m_inAuto (fst s)) eqn:Ei; cbn; rewrite Ei; cbn.
    + destruct off_long; [destruct to_cool, haveP; apply new_from; solve [done|by split_and!|by apply Hheat|auto]|].
      eexists. split; [done|].
      assert (same_mode s (with_points (λ p, write_userConfig (setAlarm false false (userConfigModeAlarm p)) p) s))
        as Hs by by split_and!.
      split; [by eapply counted_same|]. split; [by eapply configured_same|]. split; [by apply Ha|]. split; [done|].
      cbn. by rewrite Ei.
    + destruct to_heat, haveP; apply new_from; solve [done|by split_and!|by apply Hheat|auto].
  - cbn. repeat (rewrite (proj2 (Z.eqb_neq _ _)) by done). 
    apply new_from; solve [done|by split_and!|by apply Hheat|auto].
Qed.

#[local] Transparent setNewOperatingMode.

Lemma IdtSelection_idt i c p : activeIdt (snd (IdtSelection_execute i c p)) = Some (chosen_idt i).
Proof.
  unfold IdtSelection_execute, chosen_idt. cbv zeta.
  destruct (enabledSecondaryIdt i) as [[]|], (secondaryIdt i), (primaryIdt i), c; try done.
Qed.

(** One interval of the operating mode. *)
Lemma OperatingMode_ok i now c s :
  inputs_ok i → counted c s → configured s → auto_known (fst s) → activeIdt (snd s) = Some (chosen_idt i) →
  ∃ s', OperatingMode_execute i now s = Some s' ∧ decided i now c s s'.
Proof.
  intros Hi Hc Hf Ha Hidt. unfold OperatingMode_execute.
  set (s0 := with_points (write_modeChanged false) s).
  assert (Hs : same_mode s s0) by by split_and!.
  apply (counted_same _ _ _ Hs) in Hc. apply (configured_same _ _ Hs) in Hf.
  assert (activeIdt (snd s0) = Some (chosen_idt i)) as -> by done.
  assert (He : equipment_ok (default no_equipment (equipmentConfig i))).
  { destruct Hi as [-> | ->]; [apply no_equipment_ok|done]. }
  assert (Hbad : no_conditioning i = true → ∃ s', (s ← setNewOperatingMode OperatingMode_eOFF false i
      (default no_equipment (equipmentConfig i)) (default no_comfort (comfortConfig i)) s0;
      Some (setNoActiveConditioningAlarm true s)) = Some s' ∧ decided i now c s s').
  { intros Hn. destruct (bad_inputs i _ (default no_comfort (comfortConfig i)) c s0 He Hc Hf)
      as (s' & E & H1 & H2 & H3 & H4).
    exists s'. split; [done|]. unfold decided. rewrite Hn, H3. split; [done|]. split; [done|].
    injection H4 as E1 E2. split; [by rewrite E1|]. split; [done|].
    rewrite gtb_true by (destruct c; cbn; lia). by rewrite E1, E2. }
  unfold no_conditioning in Hbad.
  destruct (userMode i) as [um|] eqn:E1; [|by apply Hbad].
  destruct (setpoints i) as [[cool heat]|] eqn:E2; [|by apply Hbad].
  destruct (in_systemOn i) as [on|] eqn:E3; [|by apply Hbad].
  destruct (in_beginTimes i) as [times|] eqn:E4; [|by apply Hbad].
  destruct (comfortConfig i) as [cc|] eqn:E5; [|by apply Hbad].
  destruct (equipmentConfig i) as [e|] eqn:E6; [|by apply Hbad].
  clear Hbad. destruct Hi as [Hi|Hi]; [congruence|]. assert (e = eq) as -> by congruence. clear He.
  assert (Hn : no_conditioning i = let '(haveCooling, haveHeating, _) := allowed_modes eq in negb haveCooling && negb haveHeating).
  { unfold no_conditioning. by rewrite E1, E2, E3, E4, E5, E6. }
  set (a := no_conditioning i) in *. set (s1 := setNoActiveConditioningAlarm a s0).
  destruct (alarm_count a c s0 Hc) as [Hc1 Hf1]. destruct (configured_alarm a s0 Hf) as (Hg1 & Hp1 & Ha1).
  fold s1 in Hc1, Hf1, Hg1, Hp1, Ha1.
  destruct (choose_ok i (chosen_idt i) cool heat um on times cc now c s1) as (s' & E & H1 & H2 & H3 & H4 & H5); [done|done| |done..| |].
  { unfold auto_known. rewrite Hp1, Ha1. apply Ha. }
  { rewrite Hf1, Hn. destruct (allowed_modes eq) as [[[] []] ?]; cbn; destruct c; cbn; intros; try done; lia. }
  exists s'. split.
  - rewrite <-E. unfold choose, determineAllowedModes, s1. rewrite Hn. by destruct (allowed_modes eq) as [[] ?].
  - rewrite Hf1 in H4, H5. split; [done|]. split; [done|]. split; [done|]. split; [done|].
    rewrite H5, Ha1. unfold chosen_mode. rewrite Hp1, Ha1. done.
Qed.

(** One interval of both. *)
Lemma supervise_ok i now c s :
  inputs_ok i → supervised (c, s) → auto_known (fst s) →
  ∃ s', supervise (i, now) (c, s) = Some (no_sensor i, s') ∧ decided i now (no_sensor i) s s'.
Proof.
  intros Hi [Hc Hf] Ha. destruct s as [m p]. cbn [fst snd] in *. unfold supervise. cbn [fst snd].
  destruct (IdtSelection_ok i c m p Hc) as (p' & E & Hc' & Es & _).
  pose proof (IdtSelection_idt i c p) as Hidt. rewrite E in Hidt |- *.
  destruct (OperatingMode_ok i now (no_sensor i) (m, p')) as (s' & -> & Hd); [done..| |done|done|].
  { unfold configured in *. cbn in *. by rewrite Es. }
  exists s'. split; [done|exact Hd].
Qed.

Lemma supervise_all_ok l : ∀ c s,
  Forall (λ it, inputs_ok (fst it)) l → supervised (c, s) → auto_known (fst s) →
  ∃ c' s', supervise_all l (c, s) = Some (c', s') ∧ supervised (c', s') ∧ auto_known (fst s').
Proof.
  induction l as [|[i now] l IH]; intros c s Hl Hs Ha; cbn [supervise_all]; [by eauto|].
  apply Forall_cons in Hl as [Hi Hl].
  destruct (supervise_ok i now c s Hi Hs Ha) as (s' & -> & H1 & H2 & H3 & _). cbn [mbind option_bind].
  apply IH; [done|by split|by intros _].
Qed.
End mode.

(** ** The relays *)

(** While the count is positive, all stages of the equipment are off, whatever the
    control logic asks for. *)
Lemma forced_relays h now mp n :
  mp_systemForcedOffRefCnt mp = Some n → 0 < n →
  ∃ h' mp' r, HvacRelayOutputs_execute h now mp = Some (h', mp') ∧ mp_relayOutputs mp' = Some r
    ∧ w1 r = false ∧ w2 r = false ∧ w3 r = false ∧ y1 r = false ∧ y2 r = false.
Proof.
  intros E Hn. unfold HvacRelayOutputs_execute. rewrite E. cbn [default from_option id].
  rewrite gtb_true by done. cbn. do 3 eexists. split; [done|]. cbn. by split_and!.
Qed.

(** ** The theorem *)

Lemma config_heating eq c :
  oduType eq ≠ eHP → serves eq eID_HEATING → config_for eID_HEATING (numIduHeatingStages eq) c →
  0 < numIduHeatingStages eq ∧ heating_config (Z.to_nat (numIduHeatingStages eq)) c.
Proof.
  intros Ho Hs [H1 H2 H3 _]. unfold serves, allowed_modes in Hs.
  rewrite (proj2 (Z.eqb_neq (oduType eq) eHP) Ho), andb_false_r in Hs. cbn in Hs.
  destruct Hs as (_ & _ & Hs). specialize (Hs eq_refl). apply Z.gtb_lt in Hs.
  split; [lia|]. split; [done|done|]. rewrite H3 by done. by rewrite Z2Nat.id by lia.
Qed.


(** ** A furnace of two stages with an air conditioner *)

Definition furnace2 : EquipmentConfig := MkEquipmentConfig eFURNACE eAC 1 2 false.
Definition heat_pump : EquipmentConfig := MkEquipmentConfig eFURNACE eHP 1 0 false.
Definition comfort : ComfortConfig := let c := MkComfort 300 300 e3CPH in MkComfortConfig c c c.
Definition times_at (t : Precision_T) : EquipmentTimes_T := MkEquipmentTimes t t t t t t.

(** The inputs with a sensor, a mode of the user, a system and equipment. *)
Definition inputs (idt : option Z) (mode : Z) (on : bool) (e : EquipmentConfig) (seq : Z) : Inputs :=
  MkInputs (((λ t, f32 t 0) <$> idt) : option float) None (Some false) (Some (f32 76 0, f32 68 0)) (Some mode) (Some e) seq
    (Some comfort) 7 (Some on) (Some (times_at (MkTime 0 0))).

Definition points0 : Points :=
  MkPoints None (MkIdtAlarm false false false false false) (MkRef true 0) None None None 1 (MkAlarm false false false)
    (MkAlarm false false false).


(** ** Divergences *)

(** start() clears the flag of IdtSelection and not the count that it stands for: after
    a restart without a sensor the count does not return to zero when the sensor does. *)
Lemma restart_leaks_a_count :
  let lost := inputs None mode_AUTO false furnace2 5 in
  let back := inputs (Some 60) mode_AUTO false furnace2 5 in
  ∃ m p m' p', supervise_all [(lost, MkTime 2 0)] (false, (OperatingMode_start OperatingMode_new, points0)) = Some (true, (m, p))
    ∧ supervise_all [(lost, MkTime 4 0); (back, MkTime 6 0)] (false, (OperatingMode_start m, p)) = Some (false, (m', p'))
    ∧ rc_read (systemForcedOffRefCnt p') = Some 1.
Proof. do 4 eexists. split; [vm_compute; reflexivity|]. split; [vm_compute; reflexivity|]. done. Qed.

(** In automatic mode, while it may not change the mode, a change of the equipment does
    not reach the system configuration. *)
Lemma equipment_change_waits :
  let i seq e := inputs (Some 60) mode_AUTO true e seq in
  ∃ st cfg, supervise_all [(i 5 furnace2, MkTime 2 0); (i 6 (MkEquipmentConfig eFURNACE eAC 1 3 false), MkTime 4 0)]
      (false, (OperatingMode_start OperatingMode_new, points0)) = Some st
    ∧ sysConfig (snd (snd st)) = Some cfg ∧ numIndoorStages cfg = 2.
Proof. do 2 eexists. split; [vm_compute; reflexivity|]. split; [vm_compute; reflexivity|]. done. Qed.

(** A heat pump without indoor heat lets the user choose indoor heat: the configuration
    then has no stage, for which the heater reports a failure. *)
Lemma indoor_heat_without_stages :
  ∃ st cfg, supervise_all [(inputs (Some 60) mode_ID_HEATING false heat_pump 5, MkTime 2 0)]
      (false, (OperatingMode_start OperatingMode_new, points0)) = Some st
    ∧ sysConfig (snd (snd st)) = Some cfg ∧ currentOpMode cfg = eID_HEATING ∧ numIndoorStages cfg = 0.
Proof. do 2 eexists. split; [vm_compute; reflexivity|]. split; [vm_compute; reflexivity|]. done. Qed.

(** With an input missing the fan's own output goes off, and the relay stays on for the
    continuous one. *)
Lemma fan_not_forced_off :
  ∃ v r, FanControl_execute None None (Some (MkOutputs 0 1000 [0; 0; 0] 0 [0] false)) None = Some v
    ∧ relays_of v = Some r ∧ g r = true.
Proof. do 2 eexists. split; [reflexivity|]. split; reflexivity. Qed.

(** The air filter counts the time that the blower is off: on until 2 s, off for an
    hour, on again. *)
Lemma filter_counts_time_off :
  let on := Some (MkOutputs 1000 0 [0; 0; 0] 0 [0] false) in
  let off := Some (MkOutputs 0 0 [0; 0; 0] 0 [0] false) in
  let step v t fp := AirFilterMonitor_execute (Some 500) v (MkTime t 0) (fst fp) (snd fp) in
  let start := (MkFilter false (MkTime 0 0), (Some (MkAlarm false false false), Some (MkTime 0 0))) in
  snd (snd (step on 3602 (step off 1800 (step off 4 (step on 2 (step on 0 start)))))) = Some (MkTime 3602 0).
Proof. by vm_compute. Qed.
